(* ===== verification/_CoqProject ===== *)
-Q . S2P
Prelude.v
Ray.v
Orders.v
Samples.v
OrderStore.v
LimitPending.v
SearcherPending.v
Parked.v
LimitPool.v
Composable.v
LimitOrders.v
SearcherPool.v
Finalization.v
Storage.v
Subscribers.v
Validator.v
Tracker.v
Indexer.v
IndexerProps.v
TokenPricing.v
Rules.v
Accounts.v
AccountsProps.v
Threads.v
ThreadsProps.v
ThreadsExamples.v
Fetch.v
FetchProps.v
StateValidation.v
LeaderSelection.v
SlotClock.v
WaitTrigger.v
BlockSync.v
Eth.v
ConsensusTypes.v
Rounds.v
RoundsProps.v
RoundsEngine.v
RoundsExamples.v
Manager.v
Pool.v
Donation.v
Book.v
Uniswap.v
UniswapProps.v
UniswapManager.v
UniswapManagerProps.v
Delta.v
DeltaProps.v
DeltaExamples.v
Assets.v
Payload.v
OrderKeys.v
Bundle.v
BundleProps.v
BundleExamples.v
Solvency.v
SolvencyExamples.v
Matching.v
MatchingExamples.v
Service.v
ServiceProps.v
ServiceExamples.v
Quoter.v
Leader.v
QuoterExamples.v
LeaderExamples.v
Submission.v
SubmissionProps.v
UniswapExamples.v
Sessions.v
SessionsProps.v
Network.v
NetworkProps.v
NetworkExamples.v
Cache.v
Gossip.v
GossipProps.v
GossipExamples.v
