(* ===== verification/Prelude.v ===== *)
(** * Angstrom: a verification development

    Angstrom is a network of nodes that collect signed orders, agree on a batch
    of them every Ethereum block, match it against a uniform clearing price and
    an AMM, and submit the resulting bundle.  This library models the node's
    order pool (the crate [order-pool]), its order validation ([validation]),
    its consensus ([consensus]), its matching engine ([matching-engine]), the
    bundles it builds ([types/src/traits/bundles.rs]), its quoter ([amm-quoter]),
    the pools it reads from the chain ([uniswap-v4]), its network and the gossip of
    orders ([angstrom-net]), the reading of chain events ([eth]) and the types they
    work on ([types], [types/primitives]), and proves what makes them correct.

    ** The program and its parts

    An order arrives from RPC or from a peer at the _indexer_
    ([order_indexer.rs]).  The indexer consults its _tracker_
    ([order_tracker.rs]: which hashes are known, invalid, cancelled or being
    validated, and by whom), passes the order to its _validator_
    ([validator.rs]: a state machine that queues orders while a block transition
    is under way), and puts the validated order into the _storage_
    ([order_storage.rs]).  The storage holds the limit orders
    ([limit/mod.rs]: vanilla orders of each pool, pending or parked, in
    [limit/standard.rs], composable orders in [limit/composable.rs]), the
    top-of-block orders ([searcher/mod.rs]) and the filled orders that await
    finality ([finalization_pool.rs]).  Clients hear of results and updates
    through the _subscriptions_ ([order_subscribers.rs]).  At a new block the
    validator drains what is in flight, the indexer removes filled, cancelled and
    expired orders and revalidates those of changed accounts, and the validation
    service is told about the block.

    The _validation service_ judges an order by rules that need no state
    ([state/order_validators]), by the pool it trades in ([state/pools]), by the
    balance, approval and nonces its owner has left after the orders pending
    before it ([state/account]), and by the gas it is charged
    ([order/sim], [common/token_pricing.rs]).

    The _consensus_ runs one round per block ([rounds/mod.rs]): nodes collect
    bids until a timer fires ([preproposal_wait_trigger.rs], [slot_clock.rs]),
    sign and exchange pre-proposals, sign aggregations of two thirds of them, and
    the leader ([leader_selection.rs]) has the matching engine solve the orders
    with a quorum, submits the bundle and publishes the proposal, which the others
    verify.  The _manager_ ([consensus/manager.rs]) feeds the round with blocks,
    network messages and requests.

    The _matching engine_ ([matching-engine/src/manager.rs]) builds the book of
    each pool ([book]), searches for the uniform price at which bids, asks and
    the AMM balance ([matcher/delta.rs] over [types/src/uni_structure]), and has
    the gas of the resulting bundle measured.  A _bundle_ ([traits/bundles.rs])
    holds the assets it borrows and settles ([contract_payloads/asset]), the
    pairs with their prices, the swaps and rewards of the pools
    ([uni_structure/donation.rs]) and the orders as the contract reads them
    ([contract_payloads/angstrom]).  The _quoter_ ([amm-quoter/src/lib.rs]) runs
    the same search between blocks and tells subscribers where the AMMs would end.

    The state of the AMMs is read by the _pool manager_
    ([uniswap-v4/src/uniswap/pool_manager.rs]): each block every pool is loaded
    again with the ticks around its price ([pool.rs], [pool_data_loader.rs]), pools
    come and go with the configuration of the contract ([pool_factory.rs],
    [uniswap-v4/src/lib.rs]), and the reward of a searcher loads more ticks when its
    swap leaves those that are known.

    Nodes talk over _sessions_ ([angstrom-net/src/session/strom]): a session starts
    with a status that a validator signed ([types/status.rs]), passes messages
    ([types/message.rs]) on and reports its end.  The _network manager_
    ([manager.rs] over [swarm.rs], [session/mod.rs], [state.rs] and [peers]) routes
    the messages to the consensus and to the _gossip_ ([pool_manager.rs]), which
    owns the indexer, answers the RPC, and sends each accepted order to the peers
    that have not seen it ([cache.rs]).

    Chain events come from [eth/manager.rs]; the modules agree on the current
    block through [block_sync.rs].

    ** Files

    - [Prelude]: words, panics ([outcome]), results, the iteration of hash maps
      ([HashIter]) and the lemmas the components share.
    - [Ray]: [primitive/ray.rs], prices as 27-digit fixed-point words.
    - [Orders]: the order types, the trait [RawPoolOrder] and its
      implementations, order ids, priorities, storage data and errors.
    - [Samples]: concrete orders for the examples.
    - [OrderStore]: the interface of a sub-pool (a class), and the purge loop
      proved against it; [LimitPending], [SearcherPending] and [Parked] are its
      instances.
    - [LimitPending], [Parked], [LimitPool], [Composable], [LimitOrders]:
      [limit/pending.rs], [limit/parked.rs], [limit/standard.rs],
      [limit/composable.rs], [limit/mod.rs].
    - [SearcherPending], [SearcherPool]: [searcher/pending.rs],
      [searcher/mod.rs].
    - [Finalization], [Storage], [Subscribers], [Validator], [Tracker],
      [Indexer]: the files of the order pool named above.  [Indexer] also has
      [CancelOrderRequest].  [IndexerProps]: the theorems about the indexer.
    - [TokenPricing]: [common/token_pricing.rs].  [Rules]: the rules of
      [state/order_validators].  [Accounts]: [state/account/user.rs] and
      [state/account/mod.rs]; [AccountsProps]: their theorems.  [Threads]:
      [verify_order] as a task that makes one access to the shared maps at a time,
      interleaved with others; [ThreadsProps], [ThreadsExamples].  [Fetch]:
      [state/db_state_utils] and [state/config.rs], where nonces, balances and
      approvals are read from; [FetchProps].
      [StateValidation]: the pool configuration store, [state/mod.rs],
      [order/sim], [order/mod.rs] and [order_validator.rs].  [Service]:
      [validator.rs], [common/key_split_threadpool.rs], [common/mod.rs] and
      [bundle/mod.rs], the service that runs these tasks; [ServiceProps],
      [ServiceExamples].
    - [LeaderSelection], [SlotClock], [WaitTrigger], [BlockSync], [Eth]: the files
      named above, [Eth] with [traits/chain_ext.rs].
    - [ConsensusTypes]: the signed messages of [primitives/consensus].
      [Rounds]: [consensus/rounds].  [RoundsProps], [RoundsEngine]: the theorems
      about the state machine, and about the engine's input, the proposal and its
      verification.  [RoundsExamples]: a concrete network of four validators on
      which those theorems are instantiated.  [Manager]: [consensus/manager.rs].
    - [Pool]: the swap loop over the ticks of a pool ([liquidity_base.rs],
      [pool_swap.rs]) and the reward of a top-of-block order ([traits/tob.rs]).
      [Donation]: how a reward is spread over the ticks of a swap and encoded
      ([pool_swap.rs], [donation.rs]).
    - [Book]: [matching-engine/src/book].  [Delta]: [matcher/delta.rs];
      [DeltaProps] its theorems and [DeltaExamples] concrete books.
    - [Assets]: [contract_payloads/asset].  [Payload]: the orders of a bundle and
      how the node reads them back.  [OrderKeys]: decidable equality and
      encodings of orders, for sets of orders.
    - [Bundle]: [traits/bundles.rs]; [BundleProps] its theorems,
      [BundleExamples] a bundle of two pools.  [Solvency]: what the matcher
      promises composed with what the bundle pays; [SolvencyExamples] a book.
    - [Matching]: [matching-engine/src/manager.rs] and the strategy
      [binary_search.rs]; [MatchingExamples].
    - [Quoter]: [amm-quoter/src/lib.rs]; [QuoterExamples].
    - [Uniswap]: [uniswap/pool.rs] and [pool_data_loader.rs]; [UniswapProps] their
      theorems.  [UniswapManager]: [pool_manager.rs], [pool_factory.rs] and the
      pools of [lib.rs]; [UniswapManagerProps] their theorems; [UniswapExamples] a
      pool with its chain.
    - [Sessions]: [angstrom-net/src/types] and [session/strom]; [SessionsProps].
      [Network]: [peers], [state.rs], [session/mod.rs], [swarm.rs], [manager.rs];
      [NetworkProps].  [NetworkExamples]: an encoding of the messages and a session
      of two nodes.
    - [Cache]: [cache.rs] with its theorems.  [Gossip]: [pool_manager.rs] of
      [angstrom-net]; [GossipProps]; [GossipExamples] a manager with two peers.
    - [Leader]: [Rounds] instantiated with [Bundle], the end of the way from
      pre-proposals to the submitted bundle; [LeaderExamples] a leader that
      submits one.
    - [Submission]: [types/src/submission], how the bundle gets to the endpoints;
      [SubmissionProps].

    Each file has a record for the state of its component, one definition per
    method, under the method's name, and the method's guards and early returns.
    A method that takes [&mut self] takes and returns the state.  Loops are
    structural recursions over the list they iterate.

    ** How the language is modelled

    Hashes, addresses and machine words are integers; a word that wraps is
    reduced explicitly, as the release profile does not check overflow.
    [unwrap], [expect], [assert!] and division by zero give [Panic].  A [HashMap]
    is a finite map and its iteration an arbitrary permutation of its entries, so
    no theorem depends on an order.  A lock is held for one operation, so a
    shared pool is a field of the state; where the code releases it between the
    steps of one operation ([block_sync.rs]), the steps are interleaved
    explicitly.  The clock is an argument [now].  A channel is the list of what
    was sent over it.  A future in flight is the call that made it; which futures
    are ready is an input of every poll.  Metrics, telemetry and logging are left
    out.

    Code outside the repository is a class with its documented behaviour as
    laws: [ArithLib] (malachite and ruint arithmetic), [OrderHasher] (EIP-712
    hashes), [SignatureLib] (printing, decoding and recovery of a signature),
    [HashIter], [SortLib] (sorting), [SqrtRatios] (the tick bounds of
    uniswap_v3_math), [EvmLib] (Keccak, the database and calls of tokens),
    [TransactionLib], [Provider], [JsonLib] and [Endpoints] (transactions, the
    node's provider, JSON and the endpoints of a submission), [PoolHasher]
    (ids and keys of pools), [Sigmoid] (the exponential on floats),
    [ConsensusCrypto] and [AttestationCodec] (signatures of messages and their
    bytes), [ChainLib] (decoding of calldata and logs), [TickLib] (tick and step
    mathematics of uniswap_v3_math), [RewardHasher] (the checksum hash),
    [ChainReader] (what the chain answers about a pool), [BitmapLib] (where a tick
    is in a bitmap), [WireLib] (the byte formats of messages), [LinkedSet] (a set in
    the order of insertion), [OrderCrypto] (signatures of orders), [JoinOrder] (the order in which tasks
    finish) and [BundleValidatorHandle] (the simulation of a bundle).  Each has an
    instance with which the examples are evaluated.  [RoundLib] and the function
    [from_proposal] of [Rounds] are an interface inside the development: the
    rounds are proved for any bundle builder and [Leader] supplies the real one.
    So is [StateFetchUtils], the chain as the accounts read it, which [FetchProps]
    supplies.

    ** What the theorems show

    - Prices: roundings bracket the exact value, prices and quantities round
      trip, fees scale back up to one unit, inversion reverses the order, and
      the gas-adjusted price of a partial order pays its gas.
    - Orders: the two comparisons are total orders.
    - Sub-pools: every reachable pending pool is well indexed, and removal, purge
      and parking act on exactly the orders they should.
    - Storage: removal by id is exact, and the order sets handed to matching and
      to the proposal are exactly the right ones.
    - Finality: filled orders come back when their block is final, reorganised
      ones do not.
    - Subscriptions: a subscriber is answered at most once.
    - Validator: no validation request is lost or duplicated over any run, and a
      transition that has begun completes.
    - Tracker: expiry is exact, and cancellation claims do not interfere.
    - Indexer: only the owner cancels; stale and cancelled results are not
      applied; an order is validated once; an accepted order is stored, tracked
      and propagated; a block transition leaves no filled or expired order; a
      poll leaves nothing to do.
    - Rules and state: an order passes the rules exactly when it meets the
      documented conditions; a valid order passed all checks and pays its gas; the
      pool store keeps dense indices.
    - Accounts: for orders verified one at a time, reachable accounts are well
      formed, an accepted order is funded by what the orders before it leave, and
      the orders it invalidates are exactly those the owner can no longer pay;
      cancellation and new blocks are exact.
    - Threads and service: whatever the interleaving of up to three verifications
      per user, the reservations stay sorted, filed and in range, no access of a
      task panics, a task ends, the last one to reserve reports all orders that
      are overdrawn, and a task that runs alone computes [validate_order]; every
      request is answered once, with the block it was asked at; the estimated gas
      is the gas that is charged.  Nonces are unique only among orders that do not
      overlap: [ThreadsExamples.nonce_used_twice] is a schedule that uses one
      twice.
    - Chain state: a nonce is valid exactly when its bit is not set, and nonces have
      bits of their own; the search for a slot ends at the slot that the token
      uses, so that the funds an order is judged on are those the token reports.
    - Leader selection: nodes that process the same events choose the same
      leaders whatever the iteration order of their maps; catching up is the same
      as stepping; the priorities stay within bounds, so no sum overflows.
    - Clock and timer: slots partition time, and the round timer stays within the
      configured bounds.
    - Rounds: a reachable state holds only valid messages of validators; messages
      of an honest node are accepted by its peers; rounds move forward and polling
      them ends; the engine gets exactly the orders with a quorum; verification
      compares what it should; a proposal is published only after its transaction
      landed.
    - Manager: a poll returns, and the manager, its round and its leader agree.
    - Block sync: the single steps of the sign-offs, between which no lock is held,
      interleave with each other and with new blocks without a panic, and a block is
      done only when all modules have signed off on it, as long as no two threads
      are between the first look at the queues and their reset at the same time.
    - Swaps: a swap ends, spends no more than its amount, stops at its price and
      adds up its steps; the reward of a searcher is what its swap leaves.
    - Rewards: a donation is paid out once, whole, over the ticks of the swap, when
      both tokens move in each range of the swap and T0 stays within 10^27 units.
    - Matching: the price search ends; the price it finds is one at which bids,
      asks and the AMM balance up to the slack of partial orders or one unit of
      T0; a filled order gets its limit or better; every order of a request is
      answered and a proposal fails only when its simulation does.
    - Bundles: the layout passes the checks that the contract makes on the assets and
      the pairs it reads, when no two pools have the same tokens; what is borrowed covers what is paid at every step; the orders,
      hashes and accounts read back from a bundle are those that were put in; no
      order pays more gas than it allows; the bundle of a matched book is solvent
      in T1; the balances a simulation overrides are the sums its orders need.
    - Leader: every user order of a submitted bundle was named by a pre-proposal
      of a valid aggregation of the round.
    - Submission: each endpoint gets one transaction and is reported once; all
      transactions of a submission have the same account and nonce; a bundle counts
      as landed only when the target block has a transaction of it that the node
      signed and an endpoint took, an empty block when an integrator took a valid
      attestation; a submission ends when the provider answers.
    - Quoter: a tick quotes each pool once; the searcher order used is the best
      one whatever the iteration order; subscribers hear only of their pools; a
      quote agrees with the bundle on the end state of the AMM.
    - Pools: after an update a pool holds the price, the liquidity and the ticks of
      the chain around its price, and an update succeeds when the chain answers; a
      simulated swap ends and agrees with the swap of the AMM model; the pools of
      the manager are those in the contract's store, one for each pair of tokens, as
      long as no pair is configured anew on other terms; the search of a reward
      ends.
    - Sessions: messages round trip; a session reports its start, then what the
      peer sent, then its end; it passes nothing on before the peer has shown the
      status of a validator; two honest nodes get to know each other.
    - Network: the manager never stops; each message of a session is passed on once,
      in order, to the part that it is for; whoever is heard had shown the signature
      of a validator.
    - Gossip: each peer is sent exactly the accepted orders that it does not know,
      whatever the order in which peers are visited; it is not told an order twice
      nor one it has sent, as long as its cache holds; the peers are those with an
      open session; queries are answered once and wait while the node changes
      blocks; the caches stay bounded.
    - Eth: what a commit and a reorganisation announce, and in which order.
    - Defects, each a theorem, listed where they are proved; among them: a
      cancelled top-of-block order is not kept for the proposal; gas updates panic
      or unhook orders from the book; one validator reaches the quorum of
      pre-proposals by equivocation; a truncated proposal verifies; concurrent
      sign-offs skip a block; a reward over a range without liquidity panics; a pool that
      is configured anew with another fee keeps its old one; an exact order at the clearing price is counted but
      not filled; searcher orders of pools without a book are dropped when another
      pool has one; the reference of an order is lost in the bundle; a peer that is no
      validator is heard when it shows the fresh status of one; malformed bytes of a
      peer panic; a closing session can spin; reputation has no effect.

    ** Bounds

    All definitions are total.  The loops without a structural measure take fuel
    and are proved to end with it: the drain of the round messages, the poll of
    the indexer, the swap loop (one step per initialised tick ahead and one more),
    the batches of a donation (one per step of the swap), the simulation of a swap
    (one step per tick up to the end of the range of ticks) and the price search
    (257 halvings for each order that can be killed and one more).  Hypotheses on
    words ([u128_max], [u256_max]) are the ranges of the types of the source; a
    bundle has at most 2^15 solutions, half of what its 16-bit indices can name,
    so that two assets for each solution fit.

    ** Not modelled

    The legacy matcher ([matcher/volume.rs]) with its book container and the
    debt, composite and range types it works on: the node no longer calls them.
    Sockets, the builders of the network and the file of known peers, the providers
    of blocks, RPC, the transport of submissions, metrics, binaries and testing tools (I/O without
    state of the protocol), the simulation (revm) and the Solidity contracts. *)

From Stdlib Require Export ZArith Lia.
From stdpp Require Export prelude gmap strings fin_maps.
From stdpp Require Export list.

(** ** Words

    Hashes, addresses and machine integers are integers; the operations that
    the sources perform at a fixed width write their wrap-around out. *)

Abbreviation B256 := Z (only parsing).
Abbreviation Address := Z (only parsing).
Abbreviation PoolId := Z (only parsing).
Abbreviation PeerId := Z (only parsing).
Abbreviation U256 := Z (only parsing).
Abbreviation u128 := Z (only parsing).
Abbreviation u64 := Z (only parsing).

Definition u64_max : Z := (2 ^ 64 - 1)%Z.
Definition u128_max : Z := (2 ^ 128 - 1)%Z.
Definition u256_max : Z := (2 ^ 256 - 1)%Z.

Definition u64_wrap (z : Z) : Z := (z mod 2 ^ 64)%Z.
Definition u128_wrap (z : Z) : Z := (z mod 2 ^ 128)%Z.
Definition u256_wrap (z : Z) : Z := (z mod 2 ^ 256)%Z.

Lemma u128_wrap_range (z : Z) : (0 <= u128_wrap z <= u128_max)%Z.
Proof. unfold u128_wrap, u128_max. pose proof (Z.mod_pos_bound z (2 ^ 128)). lia. Qed.

(** ** Panics

    A Rust call either returns a value or panics ([unwrap] on [None], a failed
    [assert!], a division by zero).  [outcome] is that effect. *)

Inductive outcome (A : Type) : Type :=
| Ret (a : A)
| Panic.
Arguments Ret {_} _.
Arguments Panic {_}.

#[export] Instance outcome_ret : MRet outcome := @Ret.
#[export] Instance outcome_bind : MBind outcome :=
  fun A B (f : A -> outcome B) (m : outcome A) =>
    match m with Ret a => f a | Panic => Panic end.
#[export] Instance outcome_fmap : FMap outcome :=
  fun A B (f : A -> B) (m : outcome A) =>
    match m with Ret a => Ret (f a) | Panic => Panic end.

(** [x.unwrap()] and [x.expect(..)]. *)
Definition unwrap {A} (o : option A) : outcome A :=
  match o with Some a => Ret a | None => Panic end.

(** [assert!(b)]. *)
Definition assert (b : bool) : outcome unit :=
  if b then Ret tt else Panic.

Lemma unwrap_Ret {A} (o : option A) a : unwrap o = Ret a <-> o = Some a.
Proof. destruct o; cbn; split; by intros [= ->]. Qed.

Lemma bind_Ret {A B} (m : outcome A) (f : A -> outcome B) b :
  mbind f m = Ret b -> exists a, m = Ret a /\ f a = Ret b.
Proof. destruct m; [|done]. eauto. Qed.

(** ** Results *)

Inductive result (A E : Type) : Type :=
| Ok (a : A)
| Err (e : E).
Arguments Ok {_ _} _.
Arguments Err {_ _} _.

(** ** Iteration over hash maps

    The iteration order of a [HashMap] is unspecified: all that the standard
    library promises is that every entry is visited once.  The development is
    parametric in the order, so that no theorem depends on one. *)

Class HashIter : Type := {
  hm_iter : forall {K V : Type} `{Countable K}, gmap K V -> list (K * V);
  hm_iter_perm : forall {K V : Type} `{Countable K} (m : gmap K V),
    hm_iter m ≡ₚ map_to_list m
}.

Definition hm_values `{HashIter} {K V : Type} `{Countable K} (m : gmap K V) : list V :=
  (hm_iter m).*2.
Definition hm_keys `{HashIter} {K V : Type} `{Countable K} (m : gmap K V) : list K :=
  (hm_iter m).*1.

(** The iteration of a [HashSet], which is a map to the unit type. *)
Definition hs_iter `{HashIter} {K : Type} `{Countable K} (X : gset K) : list K :=
  hm_keys (gset_to_gmap tt X).

(** One concrete order, used to evaluate the definitions on examples. *)
Definition iter_by_encoding : HashIter.
Proof.
  refine {| hm_iter := fun K V _ _ m => map_to_list m |}.
  reflexivity.
Defined.

(** [Iterator::find_map]. *)
Fixpoint find_map {A B} (f : A -> option B) (l : list A) : option B :=
  match l with
  | [] => None
  | x :: l' => match f x with Some b => Some b | None => find_map f l' end
  end.

Create HintDb ang discriminated.

Section hash_iter.
Context `{HI : HashIter} {K V : Type} `{Countable K}.
Implicit Types (m : gmap K V) (k : K) (v : V).

Lemma elem_of_hm_iter m k v : (k, v) ∈ hm_iter m <-> m !! k = Some v.
Proof. rewrite hm_iter_perm. apply elem_of_map_to_list. Qed.

Lemma elem_of_hm_values m v : v ∈ hm_values m <-> exists k, m !! k = Some v.
Proof.
  unfold hm_values. rewrite list_elem_of_fmap. split.
  - intros ([k v'] & -> & Hin). exists k. by apply elem_of_hm_iter.
  - intros [k Hk]. exists (k, v). split; [done|]. by apply elem_of_hm_iter.
Qed.

Lemma elem_of_hm_keys m k : k ∈ hm_keys m <-> is_Some (m !! k).
Proof.
  unfold hm_keys. rewrite list_elem_of_fmap. split.
  - intros ([k' v'] & -> & Hin). exists v'. by apply elem_of_hm_iter.
  - intros [v Hv]. exists (k, v). split; [done|]. by apply elem_of_hm_iter.
Qed.

Lemma NoDup_hm_keys m : NoDup (hm_keys m).
Proof. unfold hm_keys. rewrite hm_iter_perm. apply NoDup_fst_map_to_list. Qed.

Lemma elem_of_hs_iter (X : gset K) k : k ∈ hs_iter X <-> k ∈ X.
Proof.
  unfold hs_iter. rewrite <-(dom_gset_to_gmap X tt) at 2. rewrite elem_of_dom.
  unfold hm_keys. rewrite list_elem_of_fmap. split.
  - intros ([k' v'] & -> & Hin). exists v'. by rewrite hm_iter_perm, elem_of_map_to_list in Hin.
  - intros [v Hv]. exists (k, v). by rewrite hm_iter_perm, elem_of_map_to_list.
Qed.

Lemma NoDup_hm_iter m : NoDup (hm_iter m).
Proof. rewrite hm_iter_perm. apply NoDup_map_to_list. Qed.
End hash_iter.

Lemma find_map_Some {A B} (f : A -> option B) (l : list A) (b : B) :
  find_map f l = Some b -> exists x, x ∈ l /\ f x = Some b.
Proof.
  induction l as [|x l IH]; simpl; [done|].
  destruct (f x) eqn:E; intros Hb.
  - exists x. split; [left|congruence].
  - destruct (IH Hb) as (y & Hy & Hf). exists y. split; [by right|done].
Qed.

Lemma find_map_None {A B} (f : A -> option B) (l : list A) :
  find_map f l = None <-> forall x, x ∈ l -> f x = None.
Proof.
  induction l as [|x l IH]; simpl.
  - split; [intros _ x Hx; by apply not_elem_of_nil in Hx | done].
  - destruct (f x) eqn:E; split.
    + done.
    + intros Hall. specialize (Hall x (list_elem_of_here _ _)). congruence.
    + intros Hn y [->|Hy]%elem_of_cons; [done|]. by apply IH.
    + intros Hall. apply IH. intros y Hy. apply Hall. by right.
Qed.

(** ** Updates in place *)

Section alter.
Context {K V : Type} `{Countable K}.
Implicit Types (m : gmap K V) (f : V -> V).

(** [if let Some(v) = map.get_mut(k) { *v = f(v) }] is [alter]. *)
Lemma insert_as_alter m f k v : m !! k = Some v -> <[k := f v]> m = alter f k m.
Proof.
  intros Hk. apply map_eq. intros j. destruct (decide (j = k)) as [->|Hne].
  - by rewrite lookup_insert_eq, lookup_alter_eq, Hk.
  - by rewrite lookup_insert_ne, lookup_alter_ne by done.
Qed.

Lemma alter_absent m f k : m !! k = None -> alter f k m = m.
Proof.
  intros Hk. apply map_eq. intros j. destruct (decide (j = k)) as [->|Hne].
  - by rewrite lookup_alter_eq, Hk.
  - by rewrite lookup_alter_ne.
Qed.
End alter.

(** ** Sums *)

Section sums.
Open Scope Z_scope.

Fixpoint zsum (l : list Z) : Z := match l with [] => 0 | x :: l' => x + zsum l' end.

#[export] Instance zsum_perm : Proper ((≡ₚ) ==> eq) zsum.
Proof. induction 1; cbn; lia. Qed.

Lemma wrap_sum (wrap : Z -> Z) l a : (forall x y, wrap (wrap x + y) = wrap (x + y)) ->
  foldl (fun a b => wrap (a + b)) (wrap a) l = wrap (a + zsum l).
Proof.
  intros Hw. revert a. induction l as [|x l IH]; intros a; cbn [foldl zsum].
  - by rewrite Z.add_0_r.
  - rewrite Hw, IH. f_equal. lia.
Qed.

Lemma u64_wrap_add a b : u64_wrap (u64_wrap a + b) = u64_wrap (a + b).
Proof. unfold u64_wrap. by rewrite Zplus_mod_idemp_l. Qed.

Lemma u128_wrap_add a b : u128_wrap (u128_wrap a + b) = u128_wrap (a + b).
Proof. unfold u128_wrap. by rewrite Zplus_mod_idemp_l. Qed.

Lemma u128_wrap_small z : 0 <= z <= u128_max -> u128_wrap z = z.
Proof. unfold u128_max, u128_wrap. intros. apply Z.mod_small. lia. Qed.

Lemma zsum_app l k : zsum (l ++ k) = zsum l + zsum k.
Proof. induction l as [|x l IH]; cbn; [done|]. rewrite IH. lia. Qed.

Lemma zsum_bounds l lo hi : (forall x, x ∈ l -> lo <= x <= hi) ->
  lo * Z.of_nat (length l) <= zsum l <= hi * Z.of_nat (length l).
Proof.
  induction l as [|x l IH]; intros Hl; cbn [zsum length]; [lia|].
  pose proof (Hl x ltac:(left)). assert (forall y, y ∈ l -> lo <= y <= hi) as Hl' by (intros y Hy; apply Hl; by right).
  specialize (IH Hl'). lia.
Qed.

Lemma zsum_nonneg l : (forall x, x ∈ l -> 0 <= x) -> 0 <= zsum l.
Proof.
  induction l as [|x l IH]; intros Hl; cbn [zsum]; [lia|].
  pose proof (Hl x ltac:(left)). assert (0 <= zsum l); [|lia]. apply IH. intros y Hy. apply Hl. by right.
Qed.

Lemma zsum_insert (l : list Z) k a b : l !! k = Some a -> zsum (<[k := b]> l) = zsum l - a + b.
Proof.
  revert k. induction l as [|x l IH]; intros [|k] Hk; simplify_eq/=; [lia|].
  rewrite (IH k Hk). lia.
Qed.

Lemma zsum_elem (l : list Z) a : (forall x, x ∈ l -> 0 <= x) -> a ∈ l -> a <= zsum l.
Proof.
  induction l as [|y l IH]; intros Hl Ha; [by apply not_elem_of_nil in Ha|]. cbn [zsum].
  assert (forall x, x ∈ l -> 0 <= x) as Hl' by (intros x Hx; apply Hl; by right).
  pose proof (zsum_nonneg l Hl'). pose proof (Hl y ltac:(left)).
  apply elem_of_cons in Ha as [->|Ha]; [lia|]. specialize (IH Hl' Ha). lia.
Qed.

End sums.

(** ** Sets *)

Lemma hs_iter_NoDup `{HI : HashIter} `{Countable K} (X : gset K) : NoDup (hs_iter X).
Proof. apply NoDup_hm_keys. Qed.

Lemma hs_iter_length `{HI : HashIter} `{Countable K} (X : gset K) : length (hs_iter X) = size X.
Proof.
  rewrite <-(size_list_to_set (C := gset K)) by apply hs_iter_NoDup. f_equal. apply leibniz_equiv.
  intros x. rewrite elem_of_list_to_set. apply elem_of_hs_iter.
Qed.

(** Proves a decidable closed proposition by running its decision procedure. *)
Ltac by_decide := apply (bool_decide_unpack _); vm_compute; exact I.

(** ** Bytes *)

Section bytes.
Local Open Scope Z_scope.

(** The [n] bytes of a word, the most significant first, of a negative number in
    two's complement. *)
Fixpoint to_be_bytes (n : nat) (v : Z) : list Z :=
  match n with
  | O => []
  | S n' => to_be_bytes n' (v / 256) ++ [v mod 256]
  end.

Definition from_be (l : list Z) : Z := foldl (fun acc b => acc * 256 + b) 0 l.

Lemma to_be_bytes_length n v : length (to_be_bytes n v) = n.
Proof. revert v. induction n as [|n IH]; intros v; [done|]. cbn. rewrite length_app, IH. cbn. lia. Qed.

Lemma from_be_app l b : from_be (l ++ [b]) = from_be l * 256 + b.
Proof. unfold from_be. by rewrite foldl_app. Qed.

Lemma from_to_bytes n v : from_be (to_be_bytes n v) = v mod 2 ^ (8 * Z.of_nat n).
Proof.
  revert v. induction n as [|n IH]; intros v; [cbn; by rewrite Z.mod_1_r|].
  cbn [to_be_bytes]. rewrite from_be_app, IH.
  replace (2 ^ (8 * Z.of_nat (S n))) with (256 * 2 ^ (8 * Z.of_nat n)).
  2: { change 256 with (2 ^ 8). rewrite <- Z.pow_add_r by lia. f_equal. lia. }
  rewrite Z.rem_mul_r by lia. lia.
Qed.
End bytes.
