(* ===== verification/Ray.v ===== *)
(** * Ray: fixed point prices

    The model of [crates/types/primitives/src/primitive/ray.rs].  A [Ray] is a
    256-bit word that counts in units of 1e-27.  [Natural] values are unbounded
    integers; [div_round] and the conversions back to a word are the points
    where the code can panic, so the operations return an [outcome]. *)

From S2P Require Import Prelude.
Open Scope Z_scope.

Abbreviation Ray := Z (only parsing).

Inductive RoundingMode := Floor | Ceiling.

(** [const_1e27], [const_1e54], [const_1e6] and [const_2_192]. *)
Definition const_1e27 : Z := 10 ^ 27.
Definition const_1e54 : Z := 10 ^ 54.
Definition const_1e6 : Z := 10 ^ 6.
Definition const_2_192 : Z := 2 ^ 192.

(** The quotient of two naturals, rounded as asked. *)
Definition div_to (n d : Z) (rm : RoundingMode) : Z :=
  match rm with
  | Floor => n / d
  | Ceiling => (n + d - 1) / d
  end.

(** ** The arithmetic libraries

    [malachite] (naturals and rationals) and [ruint] (the [Uint] words) are not
    part of the repository.  This class is what the code relies on: division of
    naturals rounds as asked and panics on a zero divisor, the floor of a
    rational panics on a zero denominator, a natural converted to a [Uint]
    panics when it does not fit, [u128::saturating_from] saturates and
    [Uint::to::<u128>] panics when the word does not fit. *)
Class ArithLib : Type := {
  div_round : Z -> Z -> RoundingMode -> outcome Z;
  rational_floor : Z -> Z -> outcome Z;
  mod_op : Z -> Z -> outcome Z;
  ceiling_sqrt : Z -> Z;
  from_limbs_slice : Z -> outcome U256;
  u128_saturating_from : Z -> u128;
  uint_to_u128 : U256 -> outcome u128;
  div_round_spec : forall n d rm, 0 <= n -> 0 < d ->
    div_round n d rm = Ret (div_to n d rm);
  div_round_zero : forall n rm, div_round n 0 rm = Panic;
  rational_floor_spec : forall n d, 0 <= n -> 0 < d ->
    rational_floor n d = Ret (n / d);
  rational_floor_zero : forall n, rational_floor n 0 = Panic;
  mod_op_spec : forall n d, 0 <= n -> 0 < d -> mod_op n d = Ret (n mod d);
  mod_op_zero : forall n, mod_op n 0 = Panic;
  ceiling_sqrt_spec : forall n, 0 <= n -> ceiling_sqrt n = Z.sqrt_up n;
  from_limbs_slice_fits : forall n, 0 <= n <= u256_max -> from_limbs_slice n = Ret n;
  from_limbs_slice_large : forall n, u256_max < n -> from_limbs_slice n = Panic;
  u128_saturating_from_spec : forall n, 0 <= n ->
    u128_saturating_from n = Z.min n u128_max;
  uint_to_u128_fits : forall n, 0 <= n <= u128_max -> uint_to_u128 n = Ret n;
  uint_to_u128_large : forall n, u128_max < n -> uint_to_u128 n = Panic
}.

(** The integers satisfy the class; the examples evaluate at this instance. *)
Definition arith_Z : ArithLib.
Proof.
  refine {|
    div_round := fun n d rm => if d =? 0 then Panic else Ret (div_to n d rm);
    rational_floor := fun n d => if d =? 0 then Panic else Ret (n / d);
    mod_op := fun n d => if d =? 0 then Panic else Ret (n mod d);
    ceiling_sqrt := Z.sqrt_up;
    from_limbs_slice := fun n => if n <=? u256_max then Ret n else Panic;
    u128_saturating_from := fun n => Z.min n u128_max;
    uint_to_u128 := fun n => if n <=? u128_max then Ret n else Panic
  |}.
  - intros n d rm _ Hd. by rewrite (proj2 (Z.eqb_neq d 0)) by lia.
  - done.
  - intros n d _ Hd. by rewrite (proj2 (Z.eqb_neq d 0)) by lia.
  - done.
  - intros n d _ Hd. by rewrite (proj2 (Z.eqb_neq d 0)) by lia.
  - done.
  - done.
  - intros n Hn. by rewrite (proj2 (Z.leb_le n u256_max)) by lia.
  - intros n Hn. by rewrite (proj2 (Z.leb_gt n u256_max)) by lia.
  - done.
  - intros n Hn. by rewrite (proj2 (Z.leb_le n u128_max)) by lia.
  - intros n Hn. by rewrite (proj2 (Z.leb_gt n u128_max)) by lia.
Defined.

(** [Quantity]: an amount of one of the two tokens of a pool. *)
Inductive Quantity := Token0 (q : u128) | Token1 (q : u128).

Definition rounding (round_up : bool) : RoundingMode :=
  if round_up then Ceiling else Floor.

(** ** Word operations *)

Definition ray_add (a b : Ray) : Ray := u256_wrap (a + b).
Definition ray_sub (a b : Ray) : Ray := u256_wrap (a - b).
Definition ray_sub_usize (a : Ray) (n : Z) : Ray := Z.max 0 (a - n).
Definition ray_sum (l : list Ray) : Ray := foldl ray_add 0 l.
Definition ray_mul_word (a : Ray) (n : U256) : Ray := u256_wrap (a * n).
Definition ray_div_word (a : Ray) (n : U256) : outcome Ray :=
  if n =? 0 then Panic else Ret (a / n).

Section ray.
Context `{AL : ArithLib}.

(** ** Conversions *)

Definition convert_sqrtpricex96 (price : Z) (round_up : bool) : outcome Ray :=
  let p := price * price in
  let numerator := p * const_1e27 in
  res ← div_round numerator const_2_192 (rounding round_up);
  from_limbs_slice res.

Definition within_sqrt_price_bounds (MIN_SQRT_RATIO MAX_SQRT_RATIO : U256)
    (self : Ray) : outcome bool :=
  let numerator := self * const_2_192 in
  res ← div_round numerator const_1e27 Ceiling;
  let root := ceiling_sqrt res in
  output ← from_limbs_slice root;
  Ret ((MIN_SQRT_RATIO <? output) && (output <? MAX_SQRT_RATIO)).

Definition generate_ray_decimal (value : u128) (decimal_point : Z) : outcome Ray :=
  let ray_precision := u64_wrap (27 - decimal_point) in
  from_limbs_slice (value * 10 ^ ray_precision).

Definition scale_to_ray (value : U256) : outcome Ray :=
  from_limbs_slice (value * const_1e27).

Definition scale_out_of_ray (self : Ray) : outcome U256 :=
  res ← rational_floor self const_1e27;
  from_limbs_slice res.

(** ** Fees *)

Definition unscale_to_fee (self : Ray) (fee : u128) : outcome Ray :=
  if fee =? 0 then Ret self
  else
    let numerator := self * const_1e6 in
    let one_minus_fee := Z.max 0 (const_1e6 - fee) in
    res ← div_round numerator one_minus_fee Floor;
    from_limbs_slice res.

Definition scale_to_fee (self : Ray) (fee : u128) : outcome Ray :=
  if fee =? 0 then Ret self
  else
    let numerator := self * Z.max 0 (const_1e6 - fee) in
    res ← div_round numerator const_1e6 Floor;
    from_limbs_slice res.

(** ** Products and quotients of rays *)

Definition mul_ray (self other : Ray) : outcome Ray :=
  res ← div_round (self * other) const_1e27 Floor;
  from_limbs_slice res.

Definition div_ray (self other : Ray) : outcome Ray :=
  res ← rational_floor (self * const_1e27) other;
  from_limbs_slice res.

Definition invert (self : Ray) (rm : RoundingMode) : outcome Ray :=
  res ← div_round const_1e54 self rm;
  from_limbs_slice res.

Definition inv_ray_round (self : Ray) (round_up : bool) : outcome Ray :=
  if round_up then invert self Ceiling else invert self Floor.

Definition inv_ray (self : Ray) : outcome Ray :=
  if self =? 0 then Ret self else invert self Floor.

Definition mul_wad (self : Ray) (mul : Z) (decimals : Z) : outcome Ray :=
  res ← rational_floor (self * mul) (10 ^ decimals);
  from_limbs_slice res.

Definition div_wad (self : Ray) (div : Z) (decimals : Z) : outcome Ray :=
  res ← rational_floor (self * 10 ^ decimals) div;
  from_limbs_slice res.

(** ** Prices and quantities *)

Definition calc_price_inner (t0 t1 : Z) (rm : RoundingMode) : outcome Ray :=
  output ← div_round (t1 * const_1e27) t0 rm;
  from_limbs_slice output.

Definition calc_price (t0 t1 : U256) : outcome Ray := calc_price_inner t0 t1 Ceiling.

Definition calc_price_generic (t0 t1 : Z) (round_up : bool) : outcome Ray :=
  calc_price_inner t0 t1 (rounding round_up).

Definition mul_quantity (self : Ray) (q : U256) : outcome U256 :=
  res ← div_round (self * q) const_1e27 Floor;
  from_limbs_slice res.

Definition quantity (self : Ray) (q : u128) (round_up : bool) : outcome u128 :=
  res ← div_round (self * q) const_1e27 (rounding round_up);
  Ret (u128_saturating_from res).

Definition inverse_quantity (self : Ray) (q : u128) (round_up : bool) : outcome u128 :=
  res ← div_round (q * const_1e27) self (rounding round_up);
  Ret (u128_saturating_from res).

Definition inverse_remainder (self : Ray) (q : u128) : outcome u128 :=
  remainder ← mod_op (q * const_1e27) self;
  Ret (u128_saturating_from remainder).

Definition from_quantities (amount_out amount_in : u128) (round_up : bool) : outcome Ray :=
  res ← div_round (amount_out * const_1e27) amount_in (rounding round_up);
  from_limbs_slice res.

Definition price_of (self : Ray) (q : Quantity) (round_up : bool) : outcome u128 :=
  match q with
  | Token0 t0 => quantity self t0 round_up
  | Token1 t1 => inverse_quantity self t1 round_up
  end.

(** ** Rounded division *)

Lemma div_to_floor_bounds n d : 0 < d ->
  div_to n d Floor * d <= n < (div_to n d Floor + 1) * d.
Proof. intros Hd. simpl. pose proof (Z.div_mod n d). pose proof (Z.mod_pos_bound n d). nia. Qed.

Lemma div_to_ceil_bounds n d : 0 < d ->
  (div_to n d Ceiling - 1) * d < n <= div_to n d Ceiling * d.
Proof.
  intros Hd. simpl. pose proof (Z.div_mod (n + d - 1) d).
  pose proof (Z.mod_pos_bound (n + d - 1) d). nia.
Qed.

(** The two roundings are characterised by their bounds. *)
Lemma div_to_floor_unique n d k : 0 < d -> k * d <= n < (k + 1) * d ->
  div_to n d Floor = k.
Proof. intros Hd Hk. pose proof (div_to_floor_bounds n d Hd). nia. Qed.

Lemma div_to_ceil_unique n d k : 0 < d -> (k - 1) * d < n <= k * d ->
  div_to n d Ceiling = k.
Proof. intros Hd Hk. pose proof (div_to_ceil_bounds n d Hd). nia. Qed.

Lemma div_to_nonneg n d rm : 0 <= n -> 0 < d -> 0 <= div_to n d rm.
Proof.
  intros Hn Hd. destruct rm.
  - pose proof (div_to_floor_bounds n d Hd). nia.
  - pose proof (div_to_ceil_bounds n d Hd). nia.
Qed.

Lemma div_to_le n d rm k : 0 < d -> n <= k * d -> div_to n d rm <= k.
Proof.
  intros Hd Hk. destruct rm.
  - pose proof (div_to_floor_bounds n d Hd). nia.
  - pose proof (div_to_ceil_bounds n d Hd). nia.
Qed.

Lemma const_1e27_pos : 0 < const_1e27.
Proof. done. Qed.

Lemma u128_ray_fits : u128_max * const_1e27 <= u256_max.
Proof. vm_compute. discriminate. Qed.

(** ** Evaluation of the operations on naturals *)

Lemma quantity_eval p q up : 0 <= p -> 0 <= q ->
  quantity p q up = Ret (Z.min (div_to (p * q) const_1e27 (rounding up)) u128_max).
Proof.
  intros Hp Hq. unfold quantity. rewrite div_round_spec by (done || nia). simpl.
  rewrite u128_saturating_from_spec; [done|]. apply div_to_nonneg; [nia|done].
Qed.

Lemma inverse_quantity_eval p q up : 0 < p -> 0 <= q ->
  inverse_quantity p q up = Ret (Z.min (div_to (q * const_1e27) p (rounding up)) u128_max).
Proof.
  intros Hp Hq. unfold inverse_quantity.
  assert (0 <= q * const_1e27) by (pose proof const_1e27_pos; nia).
  rewrite div_round_spec by done. simpl.
  rewrite u128_saturating_from_spec; [done|]. by apply div_to_nonneg.
Qed.

Lemma from_quantities_eval aout ain up : 0 <= aout <= u128_max -> 0 < ain ->
  from_quantities aout ain up = Ret (div_to (aout * const_1e27) ain (rounding up)).
Proof.
  intros Hout Hin. unfold from_quantities.
  assert (0 <= aout * const_1e27) by (pose proof const_1e27_pos; nia).
  rewrite div_round_spec by done. simpl.
  apply from_limbs_slice_fits. split; [by apply div_to_nonneg|].
  etransitivity; [|exact u128_ray_fits].
  apply div_to_le; [done|].
  transitivity (u128_max * const_1e27 * 1).
  - pose proof const_1e27_pos. nia.
  - apply Z.mul_le_mono_nonneg_l; [by vm_compute|lia].
Qed.

Lemma invert_eval p rm : 0 < p -> invert p rm = Ret (div_to const_1e54 p rm).
Proof.
  intros Hp. unfold invert. rewrite div_round_spec by done. simpl.
  apply from_limbs_slice_fits. split; [by apply div_to_nonneg|].
  transitivity const_1e54; [|by vm_compute].
  apply div_to_le; [done|]. assert (0 < const_1e54) by done. nia.
Qed.

(** ** Correctness of the price arithmetic *)

(** A quantity at a price, rounded down and rounded up, brackets the exact
    product: the two roundings differ by at most one unit, and (below the
    [u128] saturation) the exact value lies between them. *)
Theorem quantity_brackets (p q : Z) (Hp : 0 <= p) (Hq : 0 <= q)
    (Hfit : p * q <= u128_max * const_1e27) :
  exists lo hi, quantity p q false = Ret lo /\ quantity p q true = Ret hi /\
    lo <= hi <= lo + 1 /\ lo * const_1e27 <= p * q <= hi * const_1e27.
Proof.
  rewrite !quantity_eval by done.
  rewrite !Z.min_l by (by apply div_to_le).
  eexists _, _. split; [done|]. split; [done|].
  pose proof (div_to_floor_bounds (p * q) _ const_1e27_pos).
  pose proof (div_to_ceil_bounds (p * q) _ const_1e27_pos).
  cbn [rounding]. pose proof const_1e27_pos. nia.
Qed.

Lemma quantity_range p q up r : 0 <= p -> 0 <= q -> quantity p q up = Ret r ->
  0 <= r <= u128_max.
Proof.
  intros Hp Hq. rewrite quantity_eval by done. intros [= <-].
  assert (0 <= div_to (p * q) const_1e27 (rounding up)) by
    (apply div_to_nonneg; [nia|done]).
  assert (0 <= u128_max) by done. lia.
Qed.

Lemma quantity_of_from_quantities aout ain up :
  0 <= aout <= u128_max -> 0 < ain <= const_1e27 ->
  exists p, from_quantities aout ain up = Ret p /\
    quantity p ain (negb up) = Ret aout.
Proof.
  intros Hout Hin. rewrite from_quantities_eval by lia. eexists. split; [done|].
  set (p := div_to _ _ _).
  assert (0 <= aout * const_1e27) by (pose proof const_1e27_pos; nia).
  assert (0 <= p) by (apply div_to_nonneg; lia).
  rewrite quantity_eval by lia. do 2 f_equal.
  destruct up; cbn [negb rounding] in *.
  - pose proof (div_to_ceil_bounds (aout * const_1e27) ain (proj1 Hin)) as Hb.
    fold p in Hb. rewrite (div_to_floor_unique _ _ aout); [lia|done|nia].
  - pose proof (div_to_floor_bounds (aout * const_1e27) ain (proj1 Hin)) as Hb.
    fold p in Hb. rewrite (div_to_ceil_unique _ _ aout); [lia|done|nia].
Qed.

(** A price built from two amounts reproduces the output amount when it is
    applied to the input amount with the opposite rounding, for every input
    amount up to one ray. *)
Theorem from_quantities_roundtrip (aout ain : Z) (up : bool)
    (Hout : 0 <= aout <= u128_max) (Hin : 0 < ain <= const_1e27) :
  exists p, from_quantities aout ain up = Ret p /\
    quantity p ain (negb up) = Ret aout.
Proof. by apply quantity_of_from_quantities. Qed.

Lemma unscale_to_fee_eval p fee : 0 <= p -> 0 < fee < const_1e6 ->
  p * const_1e6 / (const_1e6 - fee) <= u256_max ->
  unscale_to_fee p fee = Ret (p * const_1e6 / (const_1e6 - fee)).
Proof.
  intros Hp Hfee Hfit. unfold unscale_to_fee.
  rewrite (proj2 (Z.eqb_neq fee 0)) by lia. rewrite Z.max_r by lia.
  assert (0 <= p * const_1e6) by nia.
  rewrite div_round_spec by lia. simpl. apply from_limbs_slice_fits.
  split; [apply Z.div_pos; lia|done].
Qed.

Lemma scale_to_fee_eval p fee : 0 <= p <= u256_max -> 0 < fee < const_1e6 ->
  scale_to_fee p fee = Ret (p * (const_1e6 - fee) / const_1e6).
Proof.
  intros Hp Hfee. unfold scale_to_fee.
  rewrite (proj2 (Z.eqb_neq fee 0)) by lia. rewrite Z.max_r by lia.
  assert (0 <= p * (const_1e6 - fee)) by nia.
  rewrite div_round_spec by (done || lia). simpl. apply from_limbs_slice_fits.
  split; [apply Z.div_pos; lia|].
  apply Z.div_le_upper_bound; nia.
Qed.

(** Scaling an unscaled price by the same fee gives the price back or one
    unit less, and gives it back exactly when the unscaling divides evenly. *)
Theorem fee_scale_unscale (p fee : Z) (Hp : 0 <= p) (Hfee : 0 < fee < const_1e6)
    (Hfit : p * const_1e6 / (const_1e6 - fee) <= u256_max) :
  exists u s, unscale_to_fee p fee = Ret u /\ scale_to_fee u fee = Ret s /\
    p - 1 <= s <= p /\ (s = p <-> (p * const_1e6) mod (const_1e6 - fee) = 0).
Proof.
  set (u := p * const_1e6 / (const_1e6 - fee)) in *.
  assert (0 <= u) by (apply Z.div_pos; nia).
  eexists u, _. split; [by apply unscale_to_fee_eval|].
  split; [by apply scale_to_fee_eval|].
  pose proof (Z.div_mod (p * const_1e6) (const_1e6 - fee)) as Hdm.
  pose proof (Z.mod_pos_bound (p * const_1e6) (const_1e6 - fee)) as Hr.
  fold u in Hdm. set (r := (p * const_1e6) mod (const_1e6 - fee)) in *.
  replace (u * (const_1e6 - fee)) with (p * const_1e6 - r) by lia.
  assert (const_1e6 = 1000000) as Hc by done.
  destruct (decide (r = 0)) as [->|Hrn].
  - rewrite Z.sub_0_r, Z.div_mul by done. lia.
  - rewrite <-(Z.div_unique (p * const_1e6 - r) const_1e6 (p - 1) (const_1e6 - r)) by lia. lia.
Qed.

(** A fee of one million or more has no unscaled price: the code divides by
    zero and panics, for every price. *)
Theorem unscale_to_fee_panics (p fee : Z) (Hfee : const_1e6 <= fee) :
  unscale_to_fee p fee = Panic.
Proof.
  unfold unscale_to_fee. assert (const_1e6 = 1000000) by done.
  rewrite (proj2 (Z.eqb_neq fee 0)) by lia.
  rewrite Z.max_l by lia. by rewrite div_round_zero.
Qed.

(** Inversion reverses the order of prices, and inverting twice never gives
    a lower price. *)
Theorem inv_ray_galois (p q : Z) (Hp : 0 < p <= q) (Hq : q <= const_1e54) :
  exists ip iq p', inv_ray p = Ret ip /\ inv_ray q = Ret iq /\ inv_ray ip = Ret p' /\
    iq <= ip /\ p <= p'.
Proof.
  unfold inv_ray.
  rewrite (proj2 (Z.eqb_neq p 0)), (proj2 (Z.eqb_neq q 0)) by lia.
  pose proof (div_to_floor_bounds const_1e54 p) as Bp.
  pose proof (div_to_floor_bounds const_1e54 q) as Bq.
  set (ip := div_to const_1e54 p Floor) in *. set (iq := div_to const_1e54 q Floor) in *.
  assert (0 < ip) by nia.
  exists ip, iq. eexists.
  split; [apply invert_eval; lia|]. split; [apply invert_eval; lia|].
  rewrite (proj2 (Z.eqb_neq ip 0)) by lia.
  split; [by apply invert_eval|].
  pose proof (div_to_floor_bounds const_1e54 ip) as Bi.
  split; [|nia].
  subst iq ip. simpl. apply Z.div_le_compat_l; [by vm_compute|lia].
Qed.
End ray.

(** ** The hypotheses hold at concrete prices *)

Lemma quantity_brackets_witness :
  exists lo hi, @quantity arith_Z (7 * 10 ^ 26) 5 false = Ret lo /\
    @quantity arith_Z (7 * 10 ^ 26) 5 true = Ret hi /\
    lo <= hi <= lo + 1 /\ lo * const_1e27 <= 7 * 10 ^ 26 * 5 <= hi * const_1e27.
Proof. apply (@quantity_brackets arith_Z); by vm_compute. Defined.

Lemma from_quantities_roundtrip_witness :
  exists p, @from_quantities arith_Z 3500000000 (10 ^ 18) true = Ret p /\
    @quantity arith_Z p (10 ^ 18) (negb true) = Ret 3500000000.
Proof. apply (@from_quantities_roundtrip arith_Z); by vm_compute. Defined.

Lemma fee_scale_unscale_witness :
  exists u s, @unscale_to_fee arith_Z 10 300000 = Ret u /\
    @scale_to_fee arith_Z u 300000 = Ret s /\
    10 - 1 <= s <= 10 /\ (s = 10 <-> (10 * const_1e6) mod (const_1e6 - 300000) = 0).
Proof. apply (@fee_scale_unscale arith_Z); by vm_compute. Defined.

Lemma unscale_to_fee_panics_witness : @unscale_to_fee arith_Z 10 1000000 = Panic.
Proof. apply (@unscale_to_fee_panics arith_Z); by vm_compute. Defined.

Lemma inv_ray_galois_witness :
  exists ip iq p', @inv_ray arith_Z (10 ^ 27) = Ret ip /\
    @inv_ray arith_Z (3 * 10 ^ 27) = Ret iq /\ @inv_ray arith_Z ip = Ret p' /\
    iq <= ip /\ 10 ^ 27 <= p'.
Proof. apply (@inv_ray_galois arith_Z); by vm_compute. Defined.
