(* ===== verification/Orders.v ===== *)
(** * Orders

    The data that the order pool stores and the trait through which it reads an
    order: [sol_bindings/rpc_orders.rs], [sol_bindings/ext/mod.rs],
    [sol_bindings/ext/grouped_orders.rs], [primitive/order_pool.rs] and
    [primitive/validation.rs] of [crates/types/primitives/src]. *)

From S2P Require Import Prelude Ray.
Open Scope Z_scope.

(** ** The order structs *)

Record OrderMeta := {
  isEcdsa : bool;
  meta_from : Address;
  meta_signature : list Z
}.

Record PartialStandingOrder := {
  ps_ref_id : Z;
  ps_min_amount_in : u128;
  ps_max_amount_in : u128;
  ps_max_extra_fee_asset0 : u128;
  ps_min_price : U256;
  ps_use_internal : bool;
  ps_asset_in : Address;
  ps_asset_out : Address;
  ps_recipient : Address;
  ps_hook_data : list Z;
  ps_nonce : u64;
  ps_deadline : Z;
  ps_meta : OrderMeta
}.

Record ExactStandingOrder := {
  es_ref_id : Z;
  es_exact_in : bool;
  es_amount : u128;
  es_max_extra_fee_asset0 : u128;
  es_min_price : U256;
  es_use_internal : bool;
  es_asset_in : Address;
  es_asset_out : Address;
  es_recipient : Address;
  es_hook_data : list Z;
  es_nonce : u64;
  es_deadline : Z;
  es_meta : OrderMeta
}.

Record PartialFlashOrder := {
  pf_ref_id : Z;
  pf_min_amount_in : u128;
  pf_max_amount_in : u128;
  pf_max_extra_fee_asset0 : u128;
  pf_min_price : U256;
  pf_use_internal : bool;
  pf_asset_in : Address;
  pf_asset_out : Address;
  pf_recipient : Address;
  pf_hook_data : list Z;
  pf_valid_for_block : u64;
  pf_meta : OrderMeta
}.

Record ExactFlashOrder := {
  ef_ref_id : Z;
  ef_exact_in : bool;
  ef_amount : u128;
  ef_max_extra_fee_asset0 : u128;
  ef_min_price : U256;
  ef_use_internal : bool;
  ef_asset_in : Address;
  ef_asset_out : Address;
  ef_recipient : Address;
  ef_hook_data : list Z;
  ef_valid_for_block : u64;
  ef_meta : OrderMeta
}.

Record TopOfBlockOrder := {
  tob_quantity_in : u128;
  tob_quantity_out : u128;
  tob_max_gas_asset0 : u128;
  tob_use_internal : bool;
  tob_asset_in : Address;
  tob_asset_out : Address;
  tob_recipient : Address;
  tob_valid_for_block : u64;
  tob_meta : OrderMeta
}.

Inductive AllOrders :=
| ExactStanding (p : ExactStandingOrder)
| PartialStanding (p : PartialStandingOrder)
| ExactFlash (p : ExactFlashOrder)
| PartialFlash (p : PartialFlashOrder)
| TOB (t : TopOfBlockOrder).

(** ** Identification and priority *)

Inductive RespendAvoidanceMethod := Nonce (n : u64) | Block (b : u64).

Definition get_ord_for_pending_orders (m : RespendAvoidanceMethod) : u64 :=
  match m with Nonce n => n | Block _ => 0 end.

Inductive OrderLocation := Limit | Searcher.

Record OrderId := {
  id_address : Address;
  id_pool_id : PoolId;
  id_hash : B256;
  id_reuse_avoidance : RespendAvoidanceMethod;
  id_deadline : option U256;
  id_flash_block : option u64;
  id_location : OrderLocation
}.

Record OrderPriorityData := {
  price : U256;
  volume : u128;
  gas : U256;
  gas_units : u64
}.

(** [Ordering::then_with]. *)
Definition then_with (c1 c2 : comparison) : comparison :=
  match c1 with Eq => c2 | _ => c1 end.

(** [impl Ord for OrderPriorityData]. *)
Definition priority_cmp (self other : OrderPriorityData) : comparison :=
  then_with (price self ?= price other)
    (then_with (volume self ?= volume other)
      (then_with (gas self ?= gas other)
        (gas_units self ?= gas_units other))).

Record OrderValidationPriority := {
  vp_order_hash : B256;
  vp_is_tob : bool;
  vp_is_partial : bool;
  vp_respend : RespendAvoidanceMethod;
  vp_tob_bid_amount : u128
}.

(** [bool::cmp]. *)
Definition bool_cmp (a b : bool) : comparison := Z.b2z a ?= Z.b2z b.

Definition is_higher_priority (self other : OrderValidationPriority) : comparison :=
  then_with (bool_cmp (vp_is_tob self) (vp_is_tob other))
    (then_with (vp_tob_bid_amount self ?= vp_tob_bid_amount other)
      (then_with (bool_cmp (vp_is_partial self) (vp_is_partial other))
        (then_with
          (get_ord_for_pending_orders (vp_respend other) ?=
           get_ord_for_pending_orders (vp_respend self))
          (vp_order_hash other ?= vp_order_hash self)))).

(** ** Errors and statuses *)

Record UserOrderPoolInfo := {
  upi_token : Address;
  upi_is_bid : bool;
  upi_pool_id : PoolId
}.

Inductive UserAccountVerificationError :=
| InvalidToBSwap (err : string)
| BlockMissMatch (requested current : u64) (pool_info : UserOrderPoolInfo)
| OrderIsCancelled (order_hash : B256)
| DuplicateNonce (order_hash : B256)
| BadBlock (next_block requested_block : u64)
| NonEmptyHook
| CouldNotFetch (err : string)
| InsufficientApproval (order_hash : B256) (token_in : Address) (amount : u128)
| InsufficientBalance (order_hash : B256) (token_in : Address) (amount : u128)
| InsufficientBoth (order_hash : B256) (token_in : Address) (amount_balance amount_approval : u128)
| AccountNotEnoughGas (needed_gas set_gas : u128)
| AccountUnknown (err : string).

Inductive OrderValidationError :=
| StateError (e : UserAccountVerificationError)
| InvalidPartialOrder
| InvalidSignature
| InvalidPool
| NotEnoughGas
| DuplicateOrder
| InvalidOrderAtBlock
| NoAmountSpecified
| MaxGasGreaterThanMinAmount
| NoGasSpecified
| NoPriceSpecified
| MinDeltaToSmall
| PriceOutOfPoolBounds
| CancelledOrder
| UnknownValidationError (err : string).

Inductive OrderStatus :=
| Filled
| Pending
| Blocked (token : Address) (approval_needed balance_needed : u128)
| MissingGas (needed max_set : u128)
| OrderNotFound.

(** [OrderStatus::try_from_err]. *)
Definition try_from_err (error : UserAccountVerificationError) : option OrderStatus :=
  match error with
  | InsufficientBoth _ token_in amount_balance amount_approval =>
      Some (Blocked token_in amount_approval amount_balance)
  | InsufficientBalance _ token_in amount => Some (Blocked token_in 0 amount)
  | InsufficientApproval _ token_in amount => Some (Blocked token_in amount 0)
  | AccountNotEnoughGas needed_gas set_gas => Some (MissingGas needed_gas set_gas)
  | AccountUnknown _ => Some (Blocked 0 0 0)
  | _ => None
  end.

Inductive OrderOrigin := Local | External | Private | ReValidation.

Record UpdatedGas := {
  ug_pool_id : PoolId;
  gas_internal_book : u128;
  gas_external_book : u128;
  gas_internal_tob : u128;
  gas_external_tob : u128
}.

Record NewInitializedPool := {
  currency_in : Address;
  currency_out : Address;
  np_id : PoolId
}.

(** ** Stored orders *)

Record OrderWithStorageData (Order : Type) := {
  order : Order;
  priority_data : OrderPriorityData;
  invalidates : list B256;
  pool_id : PoolId;
  is_currently_valid : option UserAccountVerificationError;
  is_bid : bool;
  is_valid : bool;
  valid_block : u64;
  order_id : OrderId;
  tob_reward : U256;
  cancel_requested : bool
}.
Arguments Build_OrderWithStorageData {_} _ _ _ _ _ _ _ _ _ _ _.
Arguments order {_} _.
Arguments priority_data {_} _.
Arguments invalidates {_} _.
Arguments pool_id {_} _.
Arguments is_currently_valid {_} _.
Arguments is_bid {_} _.
Arguments is_valid {_} _.
Arguments valid_block {_} _.
Arguments order_id {_} _.
Arguments tob_reward {_} _.
Arguments cancel_requested {_} _.

(** The field assignments that the pools make. *)
Definition set_cancel_requested {Order} (o : OrderWithStorageData Order) : OrderWithStorageData Order :=
  Build_OrderWithStorageData (order o) (priority_data o) (invalidates o) (pool_id o)
    (is_currently_valid o) (is_bid o) (is_valid o) (valid_block o) (order_id o)
    (tob_reward o) true.

Definition set_currently_valid {Order} (e : option UserAccountVerificationError)
    (o : OrderWithStorageData Order) : OrderWithStorageData Order :=
  Build_OrderWithStorageData (order o) (priority_data o) (invalidates o) (pool_id o)
    e (is_bid o) (is_valid o) (valid_block o) (order_id o)
    (tob_reward o) (cancel_requested o).

Definition set_priority_gas {Order} (g : U256)
    (o : OrderWithStorageData Order) : OrderWithStorageData Order :=
  Build_OrderWithStorageData (order o)
    {| price := price (priority_data o); volume := volume (priority_data o);
       gas := g; gas_units := gas_units (priority_data o) |}
    (invalidates o) (pool_id o)
    (is_currently_valid o) (is_bid o) (is_valid o) (valid_block o) (order_id o)
    (tob_reward o) (cancel_requested o).

(** [OrderWithStorageData::try_map_inner], whose closure may fail. *)
Definition try_map_inner {Order NewOrder} (f : Order -> option NewOrder)
    (self : OrderWithStorageData Order) : option (OrderWithStorageData NewOrder) :=
  new_order ← f (order self);
  Some (Build_OrderWithStorageData new_order (priority_data self) (invalidates self)
    (pool_id self) (is_currently_valid self) (is_bid self) (is_valid self)
    (valid_block self) (order_id self) (tob_reward self) (cancel_requested self)).

(** [OrderWithStorageData::is_currently_valid]. *)
Definition currently_valid {Order} (o : OrderWithStorageData Order) : bool :=
  match is_currently_valid o with None => true | Some _ => false end.

(** ** The order trait *)

(** [OmitOrderMeta::unique_order_hash] hashes the EIP-712 encoding that the
    [sol!] macro generates together with the signer's address; the encoding and
    keccak are not part of the repository. *)
Class OrderHasher : Type := {
  unique_order_hash : AllOrders -> Address -> B256
}.

(** [RawPoolOrder]: the methods that the pools and the matching engine read.
    [limit_price] of a top-of-block order divides by its input quantity. *)
Class RawPoolOrder (T : Type) : Type := {
  max_gas_token_0 : T -> u128;
  order_hash : T -> B256;
  from : T -> Address;
  amount : T -> u128;
  min_qty_t0 : T -> outcome (option u128);
  is_tob : T -> bool;
  min_amount : T -> u128;
  limit_price : T -> outcome U256;
  unscale_by_gas_fee : T -> Ray -> u128 -> outcome Ray;
  deadline : T -> option U256;
  flash_block : T -> option u64;
  respend_avoidance_strategy : T -> RespendAvoidanceMethod;
  token_in : T -> Address;
  token_out : T -> Address;
  order_location : T -> OrderLocation;
  use_internal : T -> bool;
  exact_in : T -> bool;
  has_hook : T -> bool
}.

(** The provided methods of the trait. *)

(** [RawPoolOrder::is_bid]. *)
Definition raw_is_bid `{RawPoolOrder T} (o : T) : bool := token_out o <? token_in o.

Definition is_partial `{RawPoolOrder T} (o : T) : bool := min_amount o <? amount o.

Definition validation_priority `{RawPoolOrder T} (o : T) (bid : option u128)
    : OrderValidationPriority :=
  {| vp_order_hash := order_hash o;
     vp_is_tob := is_tob o;
     vp_is_partial := is_partial o;
     vp_respend := respend_avoidance_strategy o;
     vp_tob_bid_amount := default 0 bid |}.

(** The default body of [RawPoolOrder::min_qty_t0], over the methods it calls. *)
Definition default_min_qty_t0 `{ArithLib} (amount : u128) (limit_price : outcome U256)
    (is_bid exact_in : bool) (min_amount : u128) : outcome (option u128) :=
  if amount =? 0 then Ret None
  else
    lp ← limit_price;
    if lp =? 0 then Ret None
    else if negb is_bid then
      if exact_in then Ret (Some min_amount)
      else Some <$> inverse_quantity lp min_amount true
    else if exact_in then
      q ← mul_quantity lp min_amount;
      Some <$> uint_to_u128 q
    else Ret (Some min_amount).

(** [OrderId::from_all_orders]. *)
Definition from_all_orders `{RawPoolOrder T} (o : T) (pool : PoolId) : OrderId :=
  {| id_address := from o; id_pool_id := pool; id_hash := order_hash o;
     id_reuse_avoidance := respend_avoidance_strategy o;
     id_deadline := deadline o; id_flash_block := flash_block o;
     id_location := order_location o |}.

(** ** The implementations of the trait *)

Section raw_orders.
Context `{AL : ArithLib} `{OH : OrderHasher}.

(** [unscale_by_gas_fee] of the partial orders. *)
Definition partial_unscale_by_gas_fee (is_bid : bool) (max_amount_in : u128)
    (price : Ray) (gas_amount_t0 : u128) : outcome Ray :=
  if is_bid then
    let amount_in := max_amount_in in
    q ← quantity price amount_in false;
    let amount_out := u128_wrap (q + gas_amount_t0) in
    from_quantities amount_out amount_in true
  else
    let amount_in := max_amount_in in
    amount_out ← quantity price (u128_wrap (amount_in + gas_amount_t0)) false;
    from_quantities amount_out amount_in true.

(** [unscale_by_gas_fee] of the exact orders. *)
Definition exact_unscale_by_gas_fee (exact_in is_bid : bool) (amount : u128)
    (price : Ray) (gas_amount_t0 : u128) : outcome Ray :=
  match exact_in, is_bid with
  | true, true =>
      let amount_in := amount in
      q ← quantity price amount_in false;
      let amount_out := u128_wrap (q + gas_amount_t0) in
      from_quantities amount_out amount_in true
  | false, true =>
      let amount_out := amount in
      amount_in ← inverse_quantity price (u128_wrap (amount_out - gas_amount_t0)) true;
      from_quantities amount_out amount_in true
  | true, false =>
      let amount_in := amount in
      amount_out ← quantity price (u128_wrap (amount_in + gas_amount_t0)) false;
      from_quantities amount_out amount_in true
  | false, false =>
      let amount_out := amount in
      q ← inverse_quantity price amount_out true;
      let amount_in := u128_wrap (q - gas_amount_t0) in
      from_quantities amount_out amount_in true
  end.

(** [U256::from(quantity_out) / U256::from(quantity_in)]. *)
Definition tob_limit_price (t : TopOfBlockOrder) : outcome U256 :=
  ray_div_word (tob_quantity_out t) (tob_quantity_in t).

#[export] Instance TopOfBlockOrder_raw : RawPoolOrder TopOfBlockOrder := {|
  max_gas_token_0 := fun t => tob_max_gas_asset0 t;
  order_hash := fun t => unique_order_hash (TOB t) (meta_from (tob_meta t));
  from := fun t => meta_from (tob_meta t);
  amount := fun t => tob_quantity_in t;
  min_qty_t0 := fun t =>
    Ret (if tob_asset_out t <? tob_asset_in t then Some (tob_quantity_out t) else None);
  is_tob := fun t => true;
  min_amount := fun t => tob_quantity_in t;
  limit_price := tob_limit_price;
  unscale_by_gas_fee := fun t price _ => Ret price;
  deadline := fun t => None;
  flash_block := fun t => Some (tob_valid_for_block t);
  respend_avoidance_strategy := fun t => Block (tob_valid_for_block t);
  token_in := fun t => tob_asset_in t;
  token_out := fun t => tob_asset_out t;
  order_location := fun t => Searcher;
  use_internal := fun t => tob_use_internal t;
  exact_in := fun t => true;
  has_hook := fun t => false
|}.

#[export] Instance PartialStandingOrder_raw : RawPoolOrder PartialStandingOrder := {|
  max_gas_token_0 := fun p => ps_max_extra_fee_asset0 p;
  order_hash := fun p => unique_order_hash (PartialStanding p) (meta_from (ps_meta p));
  from := fun p => meta_from (ps_meta p);
  amount := fun p => ps_max_amount_in p;
  min_qty_t0 := fun p =>
    default_min_qty_t0 (ps_max_amount_in p) (Ret (ps_min_price p))
      (ps_asset_out p <? ps_asset_in p) true (ps_min_amount_in p);
  is_tob := fun p => false;
  min_amount := fun p => ps_min_amount_in p;
  limit_price := fun p => Ret (ps_min_price p);
  unscale_by_gas_fee := fun p =>
    partial_unscale_by_gas_fee (ps_asset_out p <? ps_asset_in p) (ps_max_amount_in p);
  deadline := fun p => Some (ps_deadline p);
  flash_block := fun p => None;
  respend_avoidance_strategy := fun p => Nonce (ps_nonce p);
  token_in := fun p => ps_asset_in p;
  token_out := fun p => ps_asset_out p;
  order_location := fun p => Limit;
  use_internal := fun p => ps_use_internal p;
  exact_in := fun p => true;
  has_hook := fun p => negb (bool_decide (ps_hook_data p = []))
|}.

#[export] Instance ExactStandingOrder_raw : RawPoolOrder ExactStandingOrder := {|
  max_gas_token_0 := fun p => es_max_extra_fee_asset0 p;
  order_hash := fun p => unique_order_hash (ExactStanding p) (meta_from (es_meta p));
  from := fun p => meta_from (es_meta p);
  amount := fun p => es_amount p;
  min_qty_t0 := fun p =>
    default_min_qty_t0 (es_amount p) (Ret (es_min_price p))
      (es_asset_out p <? es_asset_in p) (es_exact_in p) (es_amount p);
  is_tob := fun p => false;
  min_amount := fun p => es_amount p;
  limit_price := fun p => Ret (es_min_price p);
  unscale_by_gas_fee := fun p =>
    exact_unscale_by_gas_fee (es_exact_in p) (es_asset_out p <? es_asset_in p) (es_amount p);
  deadline := fun p => Some (es_deadline p);
  flash_block := fun p => None;
  respend_avoidance_strategy := fun p => Nonce (es_nonce p);
  token_in := fun p => es_asset_in p;
  token_out := fun p => es_asset_out p;
  order_location := fun p => Limit;
  use_internal := fun p => es_use_internal p;
  exact_in := fun p => es_exact_in p;
  has_hook := fun p => negb (bool_decide (es_hook_data p = []))
|}.

#[export] Instance PartialFlashOrder_raw : RawPoolOrder PartialFlashOrder := {|
  max_gas_token_0 := fun p => pf_max_extra_fee_asset0 p;
  order_hash := fun p => unique_order_hash (PartialFlash p) (meta_from (pf_meta p));
  from := fun p => meta_from (pf_meta p);
  amount := fun p => pf_max_amount_in p;
  min_qty_t0 := fun p =>
    default_min_qty_t0 (pf_max_amount_in p) (Ret (pf_min_price p))
      (pf_asset_out p <? pf_asset_in p) true (pf_min_amount_in p);
  is_tob := fun p => false;
  min_amount := fun p => pf_min_amount_in p;
  limit_price := fun p => Ret (pf_min_price p);
  unscale_by_gas_fee := fun p =>
    partial_unscale_by_gas_fee (pf_asset_out p <? pf_asset_in p) (pf_max_amount_in p);
  deadline := fun p => None;
  flash_block := fun p => Some (pf_valid_for_block p);
  respend_avoidance_strategy := fun p => Block (pf_valid_for_block p);
  token_in := fun p => pf_asset_in p;
  token_out := fun p => pf_asset_out p;
  order_location := fun p => Limit;
  use_internal := fun p => pf_use_internal p;
  exact_in := fun p => true;
  has_hook := fun p => negb (bool_decide (pf_hook_data p = []))
|}.

#[export] Instance ExactFlashOrder_raw : RawPoolOrder ExactFlashOrder := {|
  max_gas_token_0 := fun p => ef_max_extra_fee_asset0 p;
  order_hash := fun p => unique_order_hash (ExactFlash p) (meta_from (ef_meta p));
  from := fun p => meta_from (ef_meta p);
  amount := fun p => ef_amount p;
  min_qty_t0 := fun p =>
    default_min_qty_t0 (ef_amount p) (Ret (ef_min_price p))
      (ef_asset_out p <? ef_asset_in p) (ef_exact_in p) (ef_amount p);
  is_tob := fun p => false;
  min_amount := fun p => ef_amount p;
  limit_price := fun p => Ret (ef_min_price p);
  unscale_by_gas_fee := fun p =>
    exact_unscale_by_gas_fee (ef_exact_in p) (ef_asset_out p <? ef_asset_in p) (ef_amount p);
  deadline := fun p => None;
  flash_block := fun p => Some (ef_valid_for_block p);
  respend_avoidance_strategy := fun p => Block (ef_valid_for_block p);
  token_in := fun p => ef_asset_in p;
  token_out := fun p => ef_asset_out p;
  order_location := fun p => Limit;
  use_internal := fun p => ef_use_internal p;
  exact_in := fun p => ef_exact_in p;
  has_hook := fun p => negb (bool_decide (ef_hook_data p = []))
|}.

(** The dispatch of the trait over the enum, one function per method that the
    provided methods also need. *)
Definition all_amount (o : AllOrders) : u128 :=
  match o with
  | ExactStanding p => amount p | PartialStanding p => amount p
  | ExactFlash p => amount p | PartialFlash p => amount p | TOB t => amount t
  end.
Definition all_min_amount (o : AllOrders) : u128 :=
  match o with
  | ExactStanding p => min_amount p | PartialStanding p => min_amount p
  | ExactFlash p => min_amount p | PartialFlash p => min_amount p | TOB t => min_amount t
  end.
Definition all_limit_price (o : AllOrders) : outcome U256 :=
  match o with
  | ExactStanding p => limit_price p | PartialStanding p => limit_price p
  | ExactFlash p => limit_price p | PartialFlash p => limit_price p | TOB t => limit_price t
  end.
Definition all_token_in (o : AllOrders) : Address :=
  match o with
  | ExactStanding p => token_in p | PartialStanding p => token_in p
  | ExactFlash p => token_in p | PartialFlash p => token_in p | TOB t => token_in t
  end.
Definition all_token_out (o : AllOrders) : Address :=
  match o with
  | ExactStanding p => token_out p | PartialStanding p => token_out p
  | ExactFlash p => token_out p | PartialFlash p => token_out p | TOB t => token_out t
  end.
Definition all_exact_in (o : AllOrders) : bool :=
  match o with
  | ExactStanding p => exact_in p | PartialStanding p => exact_in p
  | ExactFlash p => exact_in p | PartialFlash p => exact_in p | TOB t => exact_in t
  end.

(** The enum overrides [is_tob] but keeps the provided [min_qty_t0]. *)
#[export] Instance AllOrders_raw : RawPoolOrder AllOrders := {|
  max_gas_token_0 := fun o => match o with
    | ExactStanding p => max_gas_token_0 p | PartialStanding p => max_gas_token_0 p
    | ExactFlash p => max_gas_token_0 p | PartialFlash p => max_gas_token_0 p | TOB t => max_gas_token_0 t end;
  order_hash := fun o => match o with
    | ExactStanding p => order_hash p | PartialStanding p => order_hash p
    | ExactFlash p => order_hash p | PartialFlash p => order_hash p | TOB t => order_hash t end;
  from := fun o => match o with
    | ExactStanding p => from p | PartialStanding p => from p
    | ExactFlash p => from p | PartialFlash p => from p | TOB t => from t end;
  amount := all_amount;
  min_qty_t0 := fun o =>
    default_min_qty_t0 (all_amount o) (all_limit_price o)
      (all_token_out o <? all_token_in o) (all_exact_in o) (all_min_amount o);
  is_tob := fun o => match o with TOB _ => true | _ => false end;
  min_amount := all_min_amount;
  limit_price := all_limit_price;
  unscale_by_gas_fee := fun o => match o with
    | ExactStanding p => unscale_by_gas_fee p | PartialStanding p => unscale_by_gas_fee p
    | ExactFlash p => unscale_by_gas_fee p | PartialFlash p => unscale_by_gas_fee p | TOB t => unscale_by_gas_fee t end;
  deadline := fun o => match o with
    | ExactStanding p => deadline p | PartialStanding p => deadline p
    | ExactFlash p => deadline p | PartialFlash p => deadline p | TOB t => deadline t end;
  flash_block := fun o => match o with
    | ExactStanding p => flash_block p | PartialStanding p => flash_block p
    | ExactFlash p => flash_block p | PartialFlash p => flash_block p | TOB t => flash_block t end;
  respend_avoidance_strategy := fun o => match o with
    | ExactStanding p => respend_avoidance_strategy p | PartialStanding p => respend_avoidance_strategy p
    | ExactFlash p => respend_avoidance_strategy p | PartialFlash p => respend_avoidance_strategy p | TOB t => respend_avoidance_strategy t end;
  token_in := all_token_in;
  token_out := all_token_out;
  order_location := fun o => match o with
    | ExactStanding p => order_location p | PartialStanding p => order_location p
    | ExactFlash p => order_location p | PartialFlash p => order_location p | TOB t => order_location t end;
  use_internal := fun o => match o with
    | ExactStanding p => use_internal p | PartialStanding p => use_internal p
    | ExactFlash p => use_internal p | PartialFlash p => use_internal p | TOB t => use_internal t end;
  exact_in := all_exact_in;
  has_hook := fun o => match o with
    | ExactStanding p => has_hook p | PartialStanding p => has_hook p
    | ExactFlash p => has_hook p | PartialFlash p => has_hook p | TOB t => has_hook t end
|}.

(** [AllOrders::is_vanilla]. *)
Definition is_vanilla (o : AllOrders) : bool :=
  negb match o with
  | ExactStanding p => has_hook p
  | PartialStanding p => has_hook p
  | ExactFlash p => has_hook p
  | PartialFlash p => has_hook p
  | TOB _ => false
  end.

(** ** Prices of orders *)

Definition order_price (o : AllOrders) : outcome Ray := limit_price o.

Definition bid_price (o : AllOrders) : outcome Ray :=
  p ← order_price o; inv_ray_round p true.

Definition price_for_book_side (o : AllOrders) (is_bid : bool) : outcome Ray :=
  if is_bid then bid_price o else order_price o.

Definition price_t1_over_t0 (o : AllOrders) : outcome Ray :=
  if raw_is_bid o then p ← order_price o; inv_ray_round p true else order_price o.

(** [AllOrders::pre_fee_and_gas_price]: the fee first, then the gas. *)
Definition order_pre_fee_and_gas_price (o : AllOrders) (fee gas_t0 : u128) : outcome Ray :=
  p ← order_price o;
  price ← unscale_to_fee p fee;
  unscale_by_gas_fee o price gas_t0.

(** [OrderWithStorageData::pre_fee_and_gas_price]: the gas first, then the fee. *)
Definition pre_fee_and_gas_price (self : OrderWithStorageData AllOrders) (fee : u128)
    : outcome Ray :=
  p ← order_price (order self);
  g ← uint_to_u128 (gas (priority_data self));
  price ← unscale_by_gas_fee (order self) p g;
  unscale_to_fee price fee.

Definition fee_adj_price (o : AllOrders) (fee : u128) : outcome Ray :=
  p ← order_price o; scale_to_fee p fee.

(** [OrderWithStorageData::with_default]. *)
Definition with_default {T} `{RawPoolOrder T} (o : T) : OrderWithStorageData T :=
  {| order := o;
     priority_data := {| price := 0; volume := 0; gas := 0; gas_units := 0 |};
     invalidates := []; pool_id := 0; is_currently_valid := None;
     is_bid := raw_is_bid o; is_valid := true; valid_block := 0;
     order_id := {| id_address := 0; id_pool_id := 0; id_hash := 0;
                    id_reuse_avoidance := Nonce 0; id_deadline := None;
                    id_flash_block := None; id_location := Limit |};
     tob_reward := 0; cancel_requested := false |}.
End raw_orders.

(** ** Keys of the maps *)

#[export] Instance OrderPriorityData_eq_dec : EqDecision OrderPriorityData.
Proof. solve_decision. Defined.

#[export] Instance OrderPriorityData_countable : Countable OrderPriorityData.
Proof.
  apply (inj_countable'
    (fun d => (price d, volume d, gas d, gas_units d))
    (fun '(p, v, g, u) => Build_OrderPriorityData p v g u)).
  by intros [].
Defined.

#[export] Instance RespendAvoidanceMethod_eq_dec : EqDecision RespendAvoidanceMethod.
Proof. solve_decision. Defined.

#[export] Instance RespendAvoidanceMethod_countable : Countable RespendAvoidanceMethod.
Proof.
  apply (inj_countable'
    (fun m => match m with Nonce n => inl n | Block b => inr b end)
    (fun s => match s with inl n => Nonce n | inr b => Block b end)).
  by intros [].
Defined.

#[export] Instance OrderLocation_eq_dec : EqDecision OrderLocation.
Proof. solve_decision. Defined.

#[export] Instance OrderLocation_countable : Countable OrderLocation.
Proof.
  apply (inj_countable'
    (fun l => match l with Limit => true | Searcher => false end)
    (fun b => if b : bool then Limit else Searcher)).
  by intros [].
Defined.

#[export] Instance OrderId_eq_dec : EqDecision OrderId.
Proof. solve_decision. Defined.

#[export] Instance OrderId_countable : Countable OrderId.
Proof.
  apply (inj_countable'
    (fun i => (id_address i, id_pool_id i, id_hash i, id_reuse_avoidance i,
               id_deadline i, id_flash_block i, id_location i))
    (fun '(a, p, h, r, d, f, l) => Build_OrderId a p h r d f l)).
  by intros [].
Defined.

(** ** Orderings *)

Lemma then_with_Eq c1 c2 : then_with c1 c2 = Eq <-> c1 = Eq /\ c2 = Eq.
Proof. destruct c1; simpl; naive_solver. Qed.

Lemma then_with_opp c1 c2 :
  CompOpp (then_with c1 c2) = then_with (CompOpp c1) (CompOpp c2).
Proof. by destruct c1. Qed.

(** A comparison is transitive when [Lt] composes with [Lt] and [Eq] is a
    congruence; [then_with] keeps both. *)
Definition cmp_trans {A} (cmp : A -> A -> comparison) : Prop :=
  forall a b c, cmp a b <> Gt -> cmp b c <> Gt ->
    cmp a c <> Gt /\ (cmp a c = Eq -> cmp a b = Eq /\ cmp b c = Eq).

Lemma cmp_trans_on {A} (f : A -> Z) : cmp_trans (fun a b => f a ?= f b).
Proof.
  intros a b c. rewrite !Z.compare_ngt_iff.
  intros ??; split; [lia|]. rewrite !Z.compare_eq_iff. lia.
Qed.

Lemma cmp_trans_then {A} (c1 c2 : A -> A -> comparison) :
  cmp_trans c1 -> cmp_trans c2 -> cmp_trans (fun a b => then_with (c1 a b) (c2 a b)).
Proof.
  intros T1 T2 a b c. specialize (T1 a b c). specialize (T2 a b c).
  destruct (c1 a b), (c1 b c), (c1 a c); simpl in *; naive_solver.
Qed.

Lemma cmp_trans_flip {A} (cmp : A -> A -> comparison) :
  (forall a b, cmp b a = CompOpp (cmp a b)) ->
  cmp_trans cmp -> cmp_trans (fun a b => cmp b a).
Proof. intros _ T a b c H1 H2. specialize (T c b a H2 H1). naive_solver. Qed.

(** The order of [OrderPriorityData] is a total order whose ties are equal
    keys, which is what a [BTreeMap] needs of its keys. *)
Theorem priority_cmp_total_order :
  (forall a b, priority_cmp a b = Eq <-> a = b) /\
  (forall a b, priority_cmp b a = CompOpp (priority_cmp a b)) /\
  cmp_trans priority_cmp.
Proof.
  split; [|split].
  - intros [p1 v1 g1 u1] [p2 v2 g2 u2]. unfold priority_cmp.
    rewrite !then_with_Eq, !Z.compare_eq_iff. simpl. naive_solver.
  - intros a b. unfold priority_cmp. rewrite !then_with_opp, <-!Z.compare_antisym. done.
  - unfold priority_cmp. repeat apply cmp_trans_then; apply cmp_trans_on.
Qed.

Lemma higher_priority_opp a b :
  is_higher_priority b a = CompOpp (is_higher_priority a b).
Proof.
  unfold is_higher_priority, bool_cmp. rewrite !then_with_opp, <-!Z.compare_antisym. done.
Qed.

Lemma higher_priority_trans : cmp_trans is_higher_priority.
Proof.
  unfold is_higher_priority, bool_cmp.
  repeat apply cmp_trans_then; first [apply cmp_trans_on|idtac].
  - apply (cmp_trans_flip (fun a b => get_ord_for_pending_orders (vp_respend a) ?=
      get_ord_for_pending_orders (vp_respend b))); [|apply cmp_trans_on].
    intros. apply Z.compare_antisym.
  - apply (cmp_trans_flip (fun a b => vp_order_hash a ?= vp_order_hash b));
      [|apply cmp_trans_on]. intros. apply Z.compare_antisym.
Qed.

Lemma higher_priority_Eq a b :
  is_higher_priority a b = Eq -> vp_order_hash a = vp_order_hash b.
Proof.
  unfold is_higher_priority. rewrite !then_with_Eq, !Z.compare_eq_iff. naive_solver.
Qed.

Lemma higher_priority_tob a b : vp_is_tob a = true -> vp_is_tob b = false ->
  is_higher_priority a b = Gt.
Proof. intros Ha Hb. unfold is_higher_priority. by rewrite Ha, Hb. Qed.

(** The validation priority is a total preorder in which a top-of-block
    order always ranks above a user order and only orders with the same hash
    tie. *)
Theorem is_higher_priority_total :
  (forall a b, is_higher_priority b a = CompOpp (is_higher_priority a b)) /\
  cmp_trans is_higher_priority /\
  (forall a b, is_higher_priority a b = Eq -> vp_order_hash a = vp_order_hash b) /\
  (forall a b, vp_is_tob a = true -> vp_is_tob b = false -> is_higher_priority a b = Gt).
Proof.
  split; [exact higher_priority_opp|]. split; [exact higher_priority_trans|].
  split; [exact higher_priority_Eq|exact higher_priority_tob].
Qed.

Section gas_prices.
Context `{AL : ArithLib} `{OH : OrderHasher}.

(** The price of a partial order, corrected for its gas, pays the gas
    exactly: on the input amount a bid is credited with what the uncorrected
    price gives plus the gas, and an ask with what the uncorrected price gives
    for the input amount plus the gas. *)
Theorem partial_unscale_pays_gas (bid : bool) (ain price gas q : Z)
    (Hain : 0 < ain <= const_1e27) (Hprice : 0 <= price) (Hgas : 0 <= gas)
    (Hsum : ain + gas <= u128_max)
    (Hq : quantity price ain false = Ret q) (Hqsum : q + gas <= u128_max) :
  exists p t, partial_unscale_by_gas_fee bid ain price gas = Ret p /\
    quantity p ain false = Ret t /\
    if bid then t = q + gas else quantity price (ain + gas) false = Ret t.
Proof.
  pose proof (quantity_range _ _ _ _ Hprice (Z.lt_le_incl _ _ (proj1 Hain)) Hq) as Hq0.
  unfold partial_unscale_by_gas_fee, u128_wrap. destruct bid.
  - rewrite Hq. simpl. rewrite Z.mod_small by (unfold u128_max in *; lia).
    destruct (quantity_of_from_quantities (q + gas) ain true) as (p & Hp & Ht); [lia|lia|].
    exists p, (q + gas). done.
  - rewrite Z.mod_small by (unfold u128_max in *; lia).
    destruct (quantity price (ain + gas) false) as [t|] eqn:Et;
      [|by rewrite quantity_eval in Et by lia].
    apply quantity_range in Et as Ht0; [|lia..].
    destruct (quantity_of_from_quantities t ain true) as (p & Hp & Ht); [lia|lia|].
    exists p, t. done.
Qed.
End gas_prices.

Lemma partial_unscale_pays_gas_witness :
  exists p t, @partial_unscale_by_gas_fee arith_Z true (10 ^ 18) (2 * 10 ^ 27) 50 = Ret p /\
    @quantity arith_Z p (10 ^ 18) false = Ret t /\ t = 2 * 10 ^ 18 + 50.
Proof.
  apply (@partial_unscale_pays_gas arith_Z true (10 ^ 18) (2 * 10 ^ 27) 50 (2 * 10 ^ 18));
    by vm_compute.
Defined.
