(* ===== verification/Samples.v ===== *)
(** * Concrete orders

    Orders and library instances on which the definitions of the development
    are evaluated, to show that the hypotheses of its theorems can hold. *)

From S2P Require Import Prelude Ray Orders.
Open Scope Z_scope.

(** A hash function that distinguishes the sample orders by their reference. *)
Definition sample_hasher : OrderHasher := {|
  unique_order_hash := fun o _ =>
    match o with
    | ExactStanding p => es_ref_id p
    | PartialStanding p => ps_ref_id p
    | ExactFlash p => ef_ref_id p
    | PartialFlash p => pf_ref_id p
    | TOB t => tob_recipient t
    end
|}.

Definition sample_meta (user : Address) : OrderMeta :=
  {| isEcdsa := true; meta_from := user; meta_signature := [] |}.

(** A standing bid of [user] at [price] that allows [max_gas] of gas. *)
Definition sample_standing (hash : B256) (user : Address) (price max_gas : Z) : AllOrders :=
  ExactStanding {|
    es_ref_id := hash; es_exact_in := true; es_amount := 100;
    es_max_extra_fee_asset0 := max_gas; es_min_price := price; es_use_internal := true;
    es_asset_in := 2; es_asset_out := 1; es_recipient := user; es_hook_data := [];
    es_nonce := 1; es_deadline := 5000; es_meta := sample_meta user
  |}.

(** A top-of-block order of [user] for [block]. *)
Definition sample_top_of_block (hash : B256) (user : Address) (block : u64) : TopOfBlockOrder :=
  {| tob_quantity_in := 100; tob_quantity_out := 50; tob_max_gas_asset0 := 10;
     tob_use_internal := false; tob_asset_in := 2; tob_asset_out := 1;
     tob_recipient := hash; tob_valid_for_block := block; tob_meta := sample_meta user |}.

Definition sample_id (hash : B256) (user : Address) (pool : PoolId) (loc : OrderLocation) : OrderId :=
  {| id_address := user; id_pool_id := pool; id_hash := hash;
     id_reuse_avoidance := Nonce 1; id_deadline := Some 5000;
     id_flash_block := None; id_location := loc |}.

(** Storage data around an order. *)
Definition sample_stored {T} (o : T) (id : OrderId) (price : Z)
    (blocked : option UserAccountVerificationError) : OrderWithStorageData T :=
  {| order := o;
     priority_data := {| price := price; volume := 100; gas := 3; gas_units := 0 |};
     invalidates := []; pool_id := id_pool_id id; is_currently_valid := blocked;
     is_bid := true; is_valid := true; valid_block := 1; order_id := id;
     tob_reward := 0; cancel_requested := false |}.

Definition sample_limit (hash : B256) (user : Address) (pool : PoolId) (price max_gas : Z)
    : OrderWithStorageData AllOrders :=
  sample_stored (sample_standing hash user price max_gas) (sample_id hash user pool Limit)
    price None.

Definition sample_blocked (hash : B256) (user : Address) (pool : PoolId) (price max_gas : Z)
    : OrderWithStorageData AllOrders :=
  sample_stored (sample_standing hash user price max_gas) (sample_id hash user pool Limit)
    price (Some (InsufficientBalance hash 2 7)).

Definition sample_searcher (hash : B256) (user : Address) (pool : PoolId) (price : Z)
    : OrderWithStorageData TopOfBlockOrder :=
  sample_stored (sample_top_of_block hash user 2)
    {| id_address := user; id_pool_id := pool; id_hash := hash;
       id_reuse_avoidance := Block 2; id_deadline := None;
       id_flash_block := Some 2; id_location := Searcher |}
    price None.

(** The gas of pool [pool] at [internal] for internal and [external] for external
    balances. *)
Definition sample_gas (pool : PoolId) (internal external : Z) : UpdatedGas :=
  {| ug_pool_id := pool; gas_internal_book := internal; gas_external_book := external;
     gas_internal_tob := internal; gas_external_tob := external |}.
