(* ===== verification/OrderStore.v ===== *)
(** * The interface of a sub-pool

    The limit pool keeps valid orders in a [PendingPool] and blocked ones in a
    [ParkedPool]; the searcher pool has a [PendingPool] of its own.  Each is,
    for its clients, a finite map from order hashes to stored orders.  This file
    states that contract as a class, gives the purge loop that the three
    implementations share, and derives the loop's behaviour from the law of
    [remove_order] alone. *)

From S2P Require Import Prelude Orders.

Section purge.
Context `{HI : HashIter} {P Order : Type}.
Implicit Types (m : gmap B256 (OrderWithStorageData Order)).

(** The keys of the orders whose cancellation was requested, in iteration
    order: the [filter]/[map]/[collect] at the head of each purge. *)
Definition cancelled_ids m : list B256 :=
  (filter (fun kv => cancel_requested kv.2 = true) (hm_iter m)).*1.

(** [for id in ids { if let Some(order) = self.remove_order(id) { res.push(order) } }] *)
Fixpoint remove_each (remove : P -> B256 -> P * option (OrderWithStorageData Order))
    (p : P) (ids : list B256) : P * list (OrderWithStorageData Order) :=
  match ids with
  | [] => (p, [])
  | id :: ids' =>
      let '(p', o) := remove p id in
      let '(p'', res) := remove_each remove p' ids' in
      (p'', match o with Some o => o :: res | None => res end)
  end.

(** The loop only takes entries out when each removal does. *)
Lemma remove_each_subseteq (c : P -> gmap B256 (OrderWithStorageData Order)) remove p ids :
  (forall p h, c (remove p h).1 ⊆ c p) -> c (remove_each remove p ids).1 ⊆ c p.
Proof.
  intros Hr. revert p. induction ids as [|id ids IH]; intros p; cbn [remove_each]; [done|].
  specialize (Hr p id). destruct (remove p id) as [p1 o]. specialize (IH p1).
  destruct (remove_each remove p1 ids) as [p2 res]. cbn [fst] in *. by etrans.
Qed.
End purge.

(** What a sub-pool promises: [contents] is its abstract state, [ok] the
    representation invariant under which the operations act on [contents] as the
    finite-map operations do. *)
Class OrderStore (P Order : Type) := {
  contents : P -> gmap B256 (OrderWithStorageData Order);
  ok : P -> Prop;
  store_remove : P -> B256 -> P * option (OrderWithStorageData Order);
  store_cancel : P -> B256 -> P * bool;
  store_remove_law : forall p h, ok p -> exists p',
    store_remove p h = (p', contents p !! h) /\ ok p' /\
    contents p' = delete h (contents p);
  store_cancel_law : forall p h, ok p -> exists p',
    store_cancel p h = (p', bool_decide (is_Some (contents p !! h))) /\ ok p' /\
    contents p' = alter set_cancel_requested h (contents p)
}.

Section laws.
Context `{HI : HashIter} {P Order : Type} `{OS : OrderStore P Order}.
Implicit Types (p : P) (h : B256) (m : gmap B256 (OrderWithStorageData Order)).

Lemma elem_of_cancelled_ids m h :
  h ∈ cancelled_ids m <-> exists o, m !! h = Some o /\ cancel_requested o = true.
Proof.
  unfold cancelled_ids. rewrite list_elem_of_fmap. split.
  - intros ([k o] & -> & Hin). apply list_elem_of_filter in Hin as [Hc Hin].
    exists o. split; [by apply elem_of_hm_iter|done].
  - intros (o & Ho & Hc). exists (h, o). split; [done|].
    apply list_elem_of_filter. split; [done|]. by apply elem_of_hm_iter.
Qed.

Lemma NoDup_cancelled_ids m : NoDup (cancelled_ids m).
Proof.
  unfold cancelled_ids. apply (sublist_NoDup _ (hm_keys m)); [apply NoDup_hm_keys|].
  unfold hm_keys. apply fmap_sublist, sublist_filter.
Qed.

Lemma remove_each_law ids p : ok p -> NoDup ids -> exists p',
  remove_each store_remove p ids = (p', omap (fun h => contents p !! h) ids) /\ ok p' /\
  forall h, contents p' !! h = if decide (h ∈ ids) then None else contents p !! h.
Proof.
  revert p. induction ids as [|i ids IH]; intros p Hok Hnd; simpl.
  - exists p. done.
  - apply NoDup_cons in Hnd as [Hi Hnd].
    destruct (store_remove_law p i Hok) as (p1 & -> & Hok1 & Hc1).
    destruct (IH p1 Hok1 Hnd) as (p2 & -> & Hok2 & Hc2).
    exists p2. split; [|split; [done|]].
    + f_equal. assert (omap (fun h => contents p1 !! h) ids =
        omap (fun h => contents p !! h) ids) as ->.
      { apply list_omap_ext, Forall_Forall2_diag, Forall_forall.
        intros h Hh. rewrite Hc1, lookup_delete_ne; [done|]. by intros ->. }
      by destruct (contents p !! i).
    + intros h. rewrite Hc2, Hc1. destruct (decide (h = i)) as [->|Hne].
      * rewrite lookup_delete_eq. destruct (decide (i ∈ i :: ids)); [by case_decide|set_solver].
      * rewrite lookup_delete_ne by done. repeat case_decide; set_solver.
Qed.

(** Purging through [remove_order] removes exactly the cancelled orders and
    returns exactly them. *)
Lemma purge_law p : ok p -> exists p' res,
  remove_each store_remove p (cancelled_ids (contents p)) = (p', res) /\ ok p' /\
  contents p' = filter (fun kv => cancel_requested kv.2 = false) (contents p) /\
  forall o, o ∈ res <-> exists h, contents p !! h = Some o /\ cancel_requested o = true.
Proof.
  intros Hok.
  destruct (remove_each_law (cancelled_ids (contents p)) p Hok (NoDup_cancelled_ids _))
    as (p' & Hr & Hok' & Hc').
  eexists p', _. split; [done|]. split; [done|]. split.
  - apply map_eq. intros h. rewrite Hc'. apply option_eq. intros o.
    rewrite map_lookup_filter_Some. simpl. case_decide as Hin.
    + split; [done|]. intros [Ho Hc].
      apply elem_of_cancelled_ids in Hin as (o' & ? & ?). congruence.
    + split; [|by intros []]. intros Ho. split; [done|].
      destruct (cancel_requested o) eqn:E; [|done].
      destruct Hin. apply elem_of_cancelled_ids. eauto.
  - intros o. rewrite list_elem_of_omap. split.
    + intros (h & Hh & Ho). apply elem_of_cancelled_ids in Hh as (o' & Ho' & Hc).
      exists h. by simplify_eq/=.
    + intros (h & Ho & Hc). exists h. split; [|done].
      apply elem_of_cancelled_ids. by exists o.
Qed.
End laws.
