(* ===== verification/LimitPending.v ===== *)
(** * The pending pool of user orders

    The model of [crates/order-pool/src/limit/pending.rs]: the orders of one
    pool by hash, and a book index per side keyed by priority.  The two
    [BTreeMap]s are only inserted into and removed from by key, so they are
    finite maps over the keys that [OrderPriorityData]'s order identifies. *)

From S2P Require Import Prelude Orders OrderStore.

Record PendingPool (Order : Type) := {
  orders : gmap B256 (OrderWithStorageData Order);
  bids : gmap OrderPriorityData B256;
  asks : gmap OrderPriorityData B256
}.
Arguments Build_PendingPool {_} _ _ _.
Arguments orders {_} _.
Arguments bids {_} _.
Arguments asks {_} _.

Section pending.
Context `{HI : HashIter} {Order : Type}.
Implicit Types (p : PendingPool Order) (o : OrderWithStorageData Order) (id : B256).

Definition new : PendingPool Order := Build_PendingPool ∅ ∅ ∅.

Definition get_order p id : option (OrderWithStorageData Order) := orders p !! id.

Definition add_order p o : PendingPool Order :=
  let hash := id_hash (order_id o) in
  if is_bid o then
    Build_PendingPool (<[hash := o]> (orders p)) (<[priority_data o := hash]> (bids p)) (asks p)
  else
    Build_PendingPool (<[hash := o]> (orders p)) (bids p) (<[priority_data o := hash]> (asks p)).

Definition cancel_order p id : PendingPool Order * bool :=
  match orders p !! id with
  | Some o =>
      (Build_PendingPool (<[id := set_cancel_requested o]> (orders p)) (bids p) (asks p), true)
  | None => (p, false)
  end.

(** The order leaves [orders] first; the [?] on the book removal then gives up
    the order when the book has no entry at its priority. *)
Definition remove_order p id : PendingPool Order * option (OrderWithStorageData Order) :=
  match orders p !! id with
  | None => (p, None)
  | Some o =>
      let orders' := delete id (orders p) in
      if is_bid o then
        match bids p !! priority_data o with
        | None => (Build_PendingPool orders' (bids p) (asks p), None)
        | Some _ =>
            (Build_PendingPool orders' (delete (priority_data o) (bids p)) (asks p), Some o)
        end
      else
        match asks p !! priority_data o with
        | None => (Build_PendingPool orders' (bids p) (asks p), None)
        | Some _ =>
            (Build_PendingPool orders' (bids p) (delete (priority_data o) (asks p)), Some o)
        end
  end.

Definition remove_all_cancelled_orders p
    : PendingPool Order * list (OrderWithStorageData Order) :=
  remove_each remove_order p (cancelled_ids (orders p)).

Definition get_all_orders p : list (OrderWithStorageData Order) :=
  filter (fun o => cancel_requested o = false) (hm_values (orders p)).

Definition get_all_orders_with_cancelled p : list (OrderWithStorageData Order) :=
  hm_values (orders p).

Definition get_all_orders_with_hashes p (hashes : gset B256)
    : list (OrderWithStorageData Order) :=
  filter (fun o => id_hash (order_id o) ∈ hashes) (hm_values (orders p)).

(** ** The representation invariant

    Every order is stored under its own hash and its book entry names it. *)

Definition side p (bid : bool) : gmap OrderPriorityData B256 :=
  if bid then bids p else asks p.

Definition indexed p : Prop :=
  map_Forall (fun h o => id_hash (order_id o) = h /\
    side p (is_bid o) !! priority_data o = Some h) (orders p).

(** The priority of [o] is not taken by another order on its side. *)
Definition fresh_priority p o : Prop :=
  map_Forall (fun h o' => h = id_hash (order_id o) \/ is_bid o' <> is_bid o \/
    priority_data o' <> priority_data o) (orders p).

#[export] Instance indexed_dec p : Decision (indexed p).
Proof. unfold indexed. apply _. Defined.
#[export] Instance fresh_priority_dec p o : Decision (fresh_priority p o).
Proof. unfold fresh_priority. apply _. Defined.

Lemma indexed_new : indexed new.
Proof. apply map_Forall_empty. Qed.

(** The order leaves the pool even when the removal returns nothing. *)
Lemma limit_pending_orders_remove_order p id : orders (remove_order p id).1 = delete id (orders p).
Proof.
  unfold remove_order. destruct (orders p !! id) as [o|] eqn:E; [|by rewrite delete_id].
  destruct (is_bid o).
  - by destruct (bids p !! priority_data o).
  - by destruct (asks p !! priority_data o).
Qed.

Lemma limit_pending_orders_add_order p o :
  orders (add_order p o) = <[id_hash (order_id o) := o]> (orders p).
Proof. unfold add_order. by destruct (is_bid o). Qed.

Lemma side_add_order p o b :
  side (add_order p o) b =
  if decide (b = is_bid o) then <[priority_data o := id_hash (order_id o)]> (side p b)
  else side p b.
Proof. unfold add_order, side. by destruct b, (is_bid o). Qed.

Lemma add_order_indexed p o :
  indexed p -> fresh_priority p o -> indexed (add_order p o).
Proof.
  intros Hp Hf h o'. rewrite limit_pending_orders_add_order, side_add_order.
  destruct (decide (h = id_hash (order_id o))) as [->|Hne].
  - rewrite lookup_insert_eq. intros [= ->]. split; [done|].
    rewrite decide_True by done. by rewrite lookup_insert_eq.
  - rewrite lookup_insert_ne by done. intros Ho'.
    destruct (Hp _ _ Ho') as [Hh Hs]. specialize (Hf _ _ Ho') as Hf'.
    split; [done|]. case_decide as Hb; [|done].
    rewrite lookup_insert_ne; [done|]. naive_solver.
Qed.

Lemma cancel_order_indexed p id : indexed p -> indexed (cancel_order p id).1.
Proof.
  intros Hp. unfold cancel_order. destruct (orders p !! id) as [o|] eqn:E; [|done].
  destruct (Hp _ _ E) as [Hh Hs]. intros h o'. simpl. rewrite lookup_insert_Some.
  intros [[<- <-]|[_ Ho']]; [done|]. exact (Hp _ _ Ho').
Qed.

(** On an indexed pool the removal finds the book entry. *)
Lemma remove_order_indexed_eq p id o : indexed p -> orders p !! id = Some o ->
  remove_order p id =
    (Build_PendingPool (delete id (orders p))
       (if is_bid o then delete (priority_data o) (bids p) else bids p)
       (if is_bid o then asks p else delete (priority_data o) (asks p)), Some o).
Proof.
  intros Hp Ho. unfold remove_order. rewrite Ho.
  destruct (Hp _ _ Ho) as [_ Hs]. unfold side in Hs.
  destruct (is_bid o); by rewrite Hs.
Qed.

Lemma limit_pending_remove_order_law p id : indexed p -> exists p',
  remove_order p id = (p', orders p !! id) /\ indexed p' /\
  orders p' = delete id (orders p).
Proof.
  intros Hp. destruct (orders p !! id) as [o|] eqn:E.
  - rewrite (remove_order_indexed_eq _ _ _ Hp E). eexists. split; [done|]. split; [|done].
    intros h o'. simpl. rewrite lookup_delete_Some. intros [Hne Ho'].
    destruct (Hp _ _ Ho') as [Hh Hs], (Hp _ _ E) as [_ Hso]. split; [done|].
    unfold side in *. simpl.
    destruct (is_bid o), (is_bid o'); simpl in *; try done;
      (rewrite lookup_delete_ne; [done|]; intros Heq; rewrite Heq in Hso; congruence).
  - unfold remove_order. rewrite E. exists p. split; [done|]. split; [done|].
    by rewrite delete_id.
Qed.

Lemma limit_pending_cancel_order_law p id : indexed p -> exists p',
  cancel_order p id = (p', bool_decide (is_Some (orders p !! id))) /\ indexed p' /\
  orders p' = alter set_cancel_requested id (orders p).
Proof.
  intros Hp. pose proof (cancel_order_indexed p id Hp) as Hp'.
  unfold cancel_order in *. destruct (orders p !! id) as [o|] eqn:E.
  - eexists. split; [done|]. split; [done|]. by apply insert_as_alter.
  - exists p. split; [done|]. split; [done|]. by rewrite alter_absent.
Qed.

#[export] Instance PendingPool_store : OrderStore (PendingPool Order) Order := {|
  contents := orders;
  ok := indexed;
  store_remove := remove_order;
  store_cancel := cancel_order;
  store_remove_law := limit_pending_remove_order_law;
  store_cancel_law := limit_pending_cancel_order_law
|}.

Lemma elem_of_get_all_orders p o :
  o ∈ get_all_orders p <-> exists h, orders p !! h = Some o /\ cancel_requested o = false.
Proof.
  unfold get_all_orders. rewrite list_elem_of_filter, elem_of_hm_values. naive_solver.
Qed.

(** ** Reachable pools *)

(** One call on the pool; an insertion is made at a priority of its own. *)
Inductive pool_step : PendingPool Order -> PendingPool Order -> Prop :=
| step_add p o : fresh_priority p o -> pool_step p (add_order p o)
| step_cancel p id : pool_step p (cancel_order p id).1
| step_remove p id : pool_step p (remove_order p id).1
| step_purge p : pool_step p (remove_all_cancelled_orders p).1.

Lemma pool_step_indexed p p' : pool_step p p' -> indexed p -> indexed p'.
Proof.
  destruct 1 as [p o Hf|p id|p id|p]; intros Hp.
  - by apply add_order_indexed.
  - by apply cancel_order_indexed.
  - destruct (limit_pending_remove_order_law p id Hp) as (p' & -> & Hp' & _). done.
  - destruct (purge_law (OS := PendingPool_store) p Hp) as (p' & res & Hr & Hp' & _).
    unfold remove_all_cancelled_orders. simpl in Hr. by rewrite Hr.
Qed.

(** Every pool reached from the empty one by insertions at unused
    priorities, cancellations, removals and purges keeps each order under its
    hash with a book entry that names it, and removing any stored order from it
    returns that order. *)
Theorem reachable_pool_indexed (p : PendingPool Order) (Hreach : rtc pool_step new p) :
  indexed p /\
  forall id o, orders p !! id = Some o -> (remove_order p id).2 = Some o.
Proof.
  assert (indexed p) as Hp.
  { revert Hreach. generalize indexed_new. intros H0 Hr.
    induction Hr as [|p1 p2 p3 Hs _ IH]; eauto using pool_step_indexed. }
  split; [done|]. intros id o Ho.
  by rewrite (remove_order_indexed_eq _ _ _ Hp Ho).
Qed.

(** Adding an order at an unused priority and removing it again returns the
    order and leaves the other orders as they were. *)
Theorem add_remove_roundtrip (p : PendingPool Order) (o : OrderWithStorageData Order)
    (Hp : indexed p) (Hf : fresh_priority p o) :
  exists p', remove_order (add_order p o) (id_hash (order_id o)) = (p', Some o) /\
    orders p' = delete (id_hash (order_id o)) (orders p) /\ indexed p'.
Proof.
  destruct (limit_pending_remove_order_law (add_order p o) (id_hash (order_id o))) as (p' & Hr & Hp' & Ho).
  { by apply add_order_indexed. }
  exists p'. rewrite Hr, Ho, limit_pending_orders_add_order, lookup_insert_eq, delete_insert_eq. done.
Qed.

(** Purging removes exactly the orders whose cancellation was requested,
    returns exactly them, and leaves the rest of the pool and its index
    consistent, whatever the iteration order of the hash map. *)
Theorem purge_exact (p : PendingPool Order) (Hp : indexed p) :
  exists p' res, remove_all_cancelled_orders p = (p', res) /\ indexed p' /\
    orders p' = filter (fun kv => cancel_requested kv.2 = false) (orders p) /\
    forall o, o ∈ res <-> exists h, orders p !! h = Some o /\ cancel_requested o = true.
Proof. exact (purge_law (OS := PendingPool_store) p Hp). Qed.

(** Two orders of one side with equal price, volume, gas and gas units share
    one book entry: after both are inserted both are stored, but removing them
    one after the other returns the first and loses the second, which leaves the
    pool without being returned. *)
Theorem priority_collision_loses_order (p : PendingPool Order)
    (o1 o2 : OrderWithStorageData Order)
    (Hne : id_hash (order_id o1) <> id_hash (order_id o2))
    (Hside : is_bid o1 = is_bid o2) (Hprio : priority_data o1 = priority_data o2) :
  let p2 := add_order (add_order p o1) o2 in
  let r1 := remove_order p2 (id_hash (order_id o1)) in
  let r2 := remove_order r1.1 (id_hash (order_id o2)) in
  orders p2 !! id_hash (order_id o1) = Some o1 /\
  orders p2 !! id_hash (order_id o2) = Some o2 /\
  r1.2 = Some o1 /\ r2.2 = None /\ orders r2.1 !! id_hash (order_id o2) = None.
Proof.
  intros p2 r1 r2.
  assert (orders p2 !! id_hash (order_id o1) = Some o1) as H1.
  { subst p2. rewrite limit_pending_orders_add_order, lookup_insert_ne by congruence.
    by rewrite limit_pending_orders_add_order, lookup_insert_eq. }
  assert (orders p2 !! id_hash (order_id o2) = Some o2) as H2.
  { subst p2. by rewrite limit_pending_orders_add_order, lookup_insert_eq. }
  split; [done|]. split; [done|].
  subst r2 r1. unfold remove_order at 1 3 5. rewrite H1.
  assert (side p2 (is_bid o1) !! priority_data o1 = Some (id_hash (order_id o2))) as Hs.
  { subst p2. rewrite side_add_order, decide_True by congruence.
    by rewrite Hprio, lookup_insert_eq. }
  unfold side in Hs. destruct (is_bid o1); rewrite Hs; simpl;
    unfold remove_order; simpl; rewrite lookup_delete_ne, H2, <-Hside by done;
    rewrite <-Hprio, lookup_delete_eq; simpl; by rewrite lookup_delete_eq.
Qed.
End pending.

(** ** Concrete pools *)

(** A stored order, by hash, side, price and cancellation flag. *)
Definition sample_order (hash : B256) (bid : bool) (p : U256) (cancelled : bool)
    : OrderWithStorageData unit :=
  {| order := tt;
     priority_data := {| price := p; volume := 1; gas := 0; gas_units := 0 |};
     invalidates := []; pool_id := 0; is_currently_valid := None; is_bid := bid;
     is_valid := true; valid_block := 0;
     order_id := {| id_address := 0; id_pool_id := 0; id_hash := hash;
                    id_reuse_avoidance := Nonce 0; id_deadline := None;
                    id_flash_block := None; id_location := Limit |};
     tob_reward := 0; cancel_requested := cancelled |}.

Definition sample_pool : PendingPool unit :=
  add_order (add_order new (sample_order 1 true 10 false)) (sample_order 2 true 20 true).

Lemma reachable_pool_indexed_witness :
  indexed sample_pool /\
  forall id o, orders sample_pool !! id = Some o -> (remove_order sample_pool id).2 = Some o.
Proof.
  apply (@reachable_pool_indexed iter_by_encoding).
  eapply rtc_l; [apply step_add|eapply rtc_l; [apply step_add|apply rtc_refl]];
    by_decide.
Defined.

Lemma add_remove_roundtrip_witness :
  exists p', remove_order (add_order sample_pool (sample_order 3 false 20 false)) 3 =
      (p', Some (sample_order 3 false 20 false)) /\
    orders p' = delete 3%Z (orders sample_pool) /\ indexed p'.
Proof.
  apply (add_remove_roundtrip sample_pool (sample_order 3 false 20 false));
    by_decide.
Defined.

Lemma purge_exact_witness :
  exists p' res, @remove_all_cancelled_orders iter_by_encoding _ sample_pool = (p', res) /\
    indexed p' /\
    orders p' = filter (fun kv => cancel_requested kv.2 = false) (orders sample_pool) /\
    forall o, o ∈ res <->
      exists h, orders sample_pool !! h = Some o /\ cancel_requested o = true.
Proof. apply (@purge_exact iter_by_encoding). by_decide. Defined.

Lemma priority_collision_loses_order_witness :
  (remove_order
    (remove_order (add_order (add_order new (sample_order 1 true 10 false))
      (sample_order 2 true 10 false)) 1).1 2).2 = None.
Proof.
  apply (priority_collision_loses_order new
    (sample_order 1 true 10 false) (sample_order 2 true 10 false)); done.
Defined.
