(* ===== verification/SearcherPending.v ===== *)
(** * The pending pool of top-of-block orders

    The model of [crates/order-pool/src/searcher/pending.rs].  It differs from
    the user pool in [remove_order], which ignores the result of the book
    removal, so its contract holds in every state. *)

From S2P Require Import Prelude Orders OrderStore.

Record PendingPool := {
  orders : gmap B256 (OrderWithStorageData TopOfBlockOrder);
  bids : gmap OrderPriorityData B256;
  asks : gmap OrderPriorityData B256
}.

Section pending.
Context `{HI : HashIter}.
Implicit Types (p : PendingPool) (o : OrderWithStorageData TopOfBlockOrder) (id : B256).

Definition new : PendingPool := {| orders := ∅; bids := ∅; asks := ∅ |}.

Definition get_order p id : option (OrderWithStorageData TopOfBlockOrder) := orders p !! id.

Definition add_order p o : PendingPool :=
  let hash := id_hash (order_id o) in
  if is_bid o then
    {| orders := <[hash := o]> (orders p);
       bids := <[priority_data o := hash]> (bids p); asks := asks p |}
  else
    {| orders := <[hash := o]> (orders p);
       bids := bids p; asks := <[priority_data o := hash]> (asks p) |}.

Definition cancel_order p id : PendingPool * bool :=
  match orders p !! id with
  | Some o =>
      ({| orders := <[id := set_cancel_requested o]> (orders p);
          bids := bids p; asks := asks p |}, true)
  | None => (p, false)
  end.

Definition remove_order p id : PendingPool * option (OrderWithStorageData TopOfBlockOrder) :=
  match orders p !! id with
  | None => (p, None)
  | Some o =>
      let orders' := delete id (orders p) in
      if is_bid o then
        ({| orders := orders'; bids := delete (priority_data o) (bids p); asks := asks p |},
         Some o)
      else
        ({| orders := orders'; bids := bids p; asks := delete (priority_data o) (asks p) |},
         Some o)
  end.

Definition remove_all_cancelled_orders p
    : PendingPool * list (OrderWithStorageData TopOfBlockOrder) :=
  remove_each remove_order p (cancelled_ids (orders p)).

Definition get_all_orders p : list (OrderWithStorageData TopOfBlockOrder) :=
  filter (fun o => cancel_requested o = false) (hm_values (orders p)).

Definition get_all_orders_with_cancelled p : list (OrderWithStorageData TopOfBlockOrder) :=
  hm_values (orders p).

Definition get_all_orders_with_hashes p (hashes : gset B256)
    : list (OrderWithStorageData TopOfBlockOrder) :=
  filter (fun o => id_hash (order_id o) ∈ hashes) (hm_values (orders p)).

Lemma searcher_pending_orders_add_order p o :
  orders (add_order p o) = <[id_hash (order_id o) := o]> (orders p).
Proof. unfold add_order. by destruct (is_bid o). Qed.

Lemma searcher_pending_remove_order_law p id : True -> exists p',
  remove_order p id = (p', orders p !! id) /\ True /\ orders p' = delete id (orders p).
Proof.
  intros _. unfold remove_order. destruct (orders p !! id) as [o|] eqn:E.
  - destruct (is_bid o); by eexists.
  - exists p. by rewrite delete_id.
Qed.

Lemma searcher_pending_cancel_order_law p id : True -> exists p',
  cancel_order p id = (p', bool_decide (is_Some (orders p !! id))) /\ True /\
  orders p' = alter set_cancel_requested id (orders p).
Proof.
  intros _. unfold cancel_order. destruct (orders p !! id) as [o|] eqn:E.
  - eexists. split; [done|]. split; [done|]. by apply insert_as_alter.
  - exists p. split; [done|]. split; [done|]. by rewrite alter_absent.
Qed.

#[export] Instance SearcherPending_store : OrderStore PendingPool TopOfBlockOrder := {|
  contents := orders;
  ok := fun _ => True;
  store_remove := remove_order;
  store_cancel := cancel_order;
  store_remove_law := searcher_pending_remove_order_law;
  store_cancel_law := searcher_pending_cancel_order_law
|}.

Lemma searcher_pending_orders_remove_order p id : orders (remove_order p id).1 = delete id (orders p).
Proof. by destruct (searcher_pending_remove_order_law p id I) as (p' & -> & _ & ?). Qed.

Lemma remove_order_result p id : (remove_order p id).2 = orders p !! id.
Proof. by destruct (searcher_pending_remove_order_law p id I) as (p' & -> & _ & ?). Qed.

Lemma orders_cancel_order p id :
  orders (cancel_order p id).1 = alter set_cancel_requested id (orders p).
Proof. by destruct (searcher_pending_cancel_order_law p id I) as (p' & -> & _ & ?). Qed.
End pending.
