(* ===== verification/Parked.v ===== *)
(** * The pool of parked orders

    The model of [crates/order-pool/src/limit/parked.rs]: blocked user orders by
    hash, with no book. *)

From S2P Require Import Prelude Ray Orders OrderStore.

Record ParkedPool := { parked : gmap B256 (OrderWithStorageData AllOrders) }.

Section parked.
Context `{HI : HashIter} `{AL : ArithLib} `{OH : OrderHasher}.
Implicit Types (p : ParkedPool) (o : OrderWithStorageData AllOrders) (id : B256).

Definition new : ParkedPool := {| parked := ∅ |}.

Definition get_all_orders p : list (OrderWithStorageData AllOrders) := hm_values (parked p).

Definition get_order p id : option (OrderWithStorageData AllOrders) := parked p !! id.

Definition cancel_order p id : ParkedPool * bool :=
  match parked p !! id with
  | Some o => ({| parked := <[id := set_cancel_requested o]> (parked p) |}, true)
  | None => (p, false)
  end.

Definition remove_order p id : ParkedPool * option (OrderWithStorageData AllOrders) :=
  ({| parked := delete id (parked p) |}, parked p !! id).

Definition remove_all_cancelled_orders p
    : ParkedPool * list (OrderWithStorageData AllOrders) :=
  remove_each remove_order p (cancelled_ids (parked p)).

Definition get_all_orders_with_cancelled p : list (OrderWithStorageData AllOrders) :=
  hm_values (parked p).

(** [ParkedPool::new_order]: stored under the hash computed from the order. *)
Definition new_order p o : ParkedPool :=
  {| parked := <[order_hash (order o) := o]> (parked p) |}.

Definition get_all_orders_with_hashes p (hashes : gset B256)
    : list (OrderWithStorageData AllOrders) :=
  filter (fun o => id_hash (order_id o) ∈ hashes) (hm_values (parked p)).

Lemma parked_remove_order_law p id : True -> exists p',
  remove_order p id = (p', parked p !! id) /\ True /\ parked p' = delete id (parked p).
Proof. intros _. by eexists. Qed.

Lemma parked_cancel_order_law p id : True -> exists p',
  cancel_order p id = (p', bool_decide (is_Some (parked p !! id))) /\ True /\
  parked p' = alter set_cancel_requested id (parked p).
Proof.
  intros _. unfold cancel_order. destruct (parked p !! id) as [o|] eqn:E.
  - eexists. split; [done|]. split; [done|]. by apply insert_as_alter.
  - exists p. split; [done|]. split; [done|]. by rewrite alter_absent.
Qed.

#[export] Instance ParkedPool_store : OrderStore ParkedPool AllOrders := {|
  contents := parked;
  ok := fun _ => True;
  store_remove := remove_order;
  store_cancel := cancel_order;
  store_remove_law := parked_remove_order_law;
  store_cancel_law := parked_cancel_order_law
|}.
End parked.
