(* ===== verification/LimitPool.v ===== *)
(** * The pool of user limit orders

    The model of [crates/order-pool/src/limit/standard.rs]: for each pool a
    [PendingPool] of valid orders and a [ParkedPool] of blocked ones.  The
    metrics counters are not part of the state. *)

From S2P Require Import Prelude Ray Orders Samples OrderStore.
From S2P Require LimitPending Parked.

Inductive LimitPoolError :=
| MaxSize
| NoPool (pool : PoolId)
| UnknownPoolError (err : string).

Record LimitPool := {
  pending_orders : gmap PoolId (LimitPending.PendingPool AllOrders);
  parked_orders : gmap PoolId Parked.ParkedPool
}.

Section limit_pool.
Context `{HI : HashIter} `{AL : ArithLib} `{OH : OrderHasher}.
Implicit Types (p : LimitPool) (pool : PoolId) (h : B256)
  (o : OrderWithStorageData AllOrders).

Definition new (ids : list PoolId) : LimitPool :=
  {| pending_orders := list_to_map ((fun id => (id, LimitPending.new)) <$> ids);
     parked_orders := list_to_map ((fun id => (id, Parked.new)) <$> ids) |}.

Definition set_pending p pool q : LimitPool :=
  {| pending_orders := <[pool := q]> (pending_orders p); parked_orders := parked_orders p |}.
Definition set_parked p pool q : LimitPool :=
  {| pending_orders := pending_orders p; parked_orders := <[pool := q]> (parked_orders p) |}.

(** ** Gas updates *)

(** The gas that the update charges to the order. *)
Definition gas_for (gas : UpdatedGas) o : u128 :=
  if use_internal (order o) then gas_internal_book gas else gas_external_book gas.

(** The closure of [retain]: an order that cannot pay is dropped, the others
    have the gas of their priority data overwritten. *)
Definition retain_gas (gas : UpdatedGas) o : option (OrderWithStorageData AllOrders) :=
  if (max_gas_token_0 (order o) <? gas_for gas o)%Z then None
  else Some (set_priority_gas (gas_for gas o) o).

Definition bad_orders (gas : UpdatedGas) (q : LimitPending.PendingPool AllOrders) : list B256 :=
  (filter (fun kv => (max_gas_token_0 (order kv.2) < gas_for gas kv.2)%Z)
     (hm_iter (LimitPending.orders q))).*1.

(** [bad_orders.map(|order| pool.remove_order(&order).unwrap().order)]. *)
Fixpoint remove_unwrap (q : LimitPending.PendingPool AllOrders) (ids : list B256)
    : outcome (LimitPending.PendingPool AllOrders * list AllOrders) :=
  match ids with
  | [] => Ret (q, [])
  | id :: ids' =>
      let '(q', r) := LimitPending.remove_order q id in
      o ← unwrap r;
      '(q'', res) ← remove_unwrap q' ids';
      Ret (q'', order o :: res)
  end.

Definition update_gas p (id : PoolId) (gas : UpdatedGas) : outcome (LimitPool * list AllOrders) :=
  match pending_orders p !! id with
  | None => Ret (p, [])
  | Some q =>
      let bad := bad_orders gas q in
      let q' := LimitPending.Build_PendingPool
        (omap (retain_gas gas) (LimitPending.orders q))
        (LimitPending.bids q) (LimitPending.asks q) in
      '(q'', res) ← remove_unwrap q' bad;
      Ret (set_pending p id q'', res)
  end.

(** ** Queries *)

Definition get_order_status p h : outcome (option OrderStatus) :=
  match find_map (fun q => LimitPending.get_order q h) (hm_values (pending_orders p)) with
  | Some _ => Ret (Some Pending)
  | None =>
      match find_map (fun q => Parked.get_order q h) (hm_values (parked_orders p)) with
      | Some o =>
          e ← unwrap (is_currently_valid o);
          s ← unwrap (try_from_err e);
          Ret (Some s)
      | None => Ret None
      end
  end.

Definition get_order p pool h : option (OrderWithStorageData AllOrders) :=
  match q ← pending_orders p !! pool; LimitPending.get_order q h with
  | Some o => Some o
  | None => q ← parked_orders p !! pool; Parked.get_order q h
  end.

Definition get_all_orders p : list (OrderWithStorageData AllOrders) :=
  hm_values (pending_orders p) ≫= LimitPending.get_all_orders.

Definition get_all_orders_with_cancelled_and_parked p : list (OrderWithStorageData AllOrders) :=
  (hm_values (pending_orders p) ≫= LimitPending.get_all_orders_with_cancelled) ++
  (hm_values (parked_orders p) ≫= Parked.get_all_orders_with_cancelled).

Definition get_all_orders_with_hashes p (hashes : gset B256)
    : list (OrderWithStorageData AllOrders) :=
  (hm_values (pending_orders p) ≫=
     fun q => LimitPending.get_all_orders_with_hashes q hashes) ++
  (hm_values (parked_orders p) ≫= fun q => Parked.get_all_orders_with_hashes q hashes).

Definition get_all_orders_with_parked p : list (OrderWithStorageData AllOrders) :=
  (hm_values (pending_orders p) ≫= LimitPending.get_all_orders) ++
  (hm_values (parked_orders p) ≫= Parked.get_all_orders).

(** ** Updates *)

(** The parked pool is consulted only when the pool has no pending pool. *)
Definition cancel_order p (id : OrderId) : LimitPool * bool :=
  match pending_orders p !! id_pool_id id with
  | Some q =>
      let '(q', b) := LimitPending.cancel_order q (id_hash id) in
      (set_pending p (id_pool_id id) q', b)
  | None =>
      match parked_orders p !! id_pool_id id with
      | Some q =>
          let '(q', b) := Parked.cancel_order q (id_hash id) in
          (set_parked p (id_pool_id id) q', b)
      | None => (p, false)
      end
  end.

Definition remove_all_cancelled_orders p : LimitPool * list (OrderWithStorageData AllOrders) :=
  ({| pending_orders :=
        (fun q => (LimitPending.remove_all_cancelled_orders q).1) <$> pending_orders p;
      parked_orders :=
        (fun q => (Parked.remove_all_cancelled_orders q).1) <$> parked_orders p |},
   (hm_values (pending_orders p) ≫= fun q => (LimitPending.remove_all_cancelled_orders q).2) ++
   (hm_values (parked_orders p) ≫= fun q => (Parked.remove_all_cancelled_orders q).2)).

Definition add_order p o : LimitPool * result unit LimitPoolError :=
  let pool := pool_id o in
  if currently_valid o then
    match pending_orders p !! pool with
    | Some q => (set_pending p pool (LimitPending.add_order q o), Ok tt)
    | None => (p, Err (NoPool pool))
    end
  else
    match parked_orders p !! pool with
    | Some q => (set_parked p pool (Parked.new_order q o), Ok tt)
    | None => (p, Err (NoPool pool))
    end.

Definition remove_parked_order p pool h : LimitPool * option (OrderWithStorageData AllOrders) :=
  match parked_orders p !! pool with
  | Some q => let '(q', r) := Parked.remove_order q h in (set_parked p pool q', r)
  | None => (p, None)
  end.

Definition remove_order p pool h : LimitPool * option (OrderWithStorageData AllOrders) :=
  let '(p', r) :=
    match pending_orders p !! pool with
    | Some q => let '(q', r) := LimitPending.remove_order q h in (set_pending p pool q', r)
    | None => (p, None)
    end in
  match r with
  | Some o => (p', Some o)
  | None => remove_parked_order p' pool h
  end.

Definition parked_reason : UserAccountVerificationError :=
  AccountUnknown "parked by other transaction".

Definition park_order p (id : OrderId) : outcome LimitPool :=
  let '(p', r) := remove_order p (id_pool_id id) (id_hash id) in
  match r with
  | None => Ret p'
  | Some o =>
      match add_order p' (set_currently_valid (Some parked_reason) o) with
      | (p'', Ok _) => Ret p''
      | (_, Err _) => Panic
      end
  end.

(** [a.insert(..).is_none() || b.insert(..).is_none()]: the second insertion
    runs only when the first one replaced a pool. *)
Definition new_pool p (np : NewInitializedPool) : outcome LimitPool :=
  let p1 := set_pending p (np_id np) LimitPending.new in
  match pending_orders p !! np_id np with
  | None => Ret p1
  | Some _ =>
      let p2 := set_parked p1 (np_id np) Parked.new in
      _ ← assert (bool_decide (parked_orders p !! np_id np = None));
      Ret p2
  end.

Definition remove_invalid_order p h : LimitPool :=
  {| pending_orders := (fun q => (LimitPending.remove_order q h).1) <$> pending_orders p;
     parked_orders := (fun q => (Parked.remove_order q h).1) <$> parked_orders p |}.

(** ** Invariant *)

(** Every pending pool satisfies the invariant of [LimitPending]. *)
Definition pools_ok p : Prop :=
  map_Forall (fun _ q => LimitPending.indexed q) (pending_orders p).

#[export] Instance pools_ok_dec p : Decision (pools_ok p).
Proof. unfold pools_ok. apply _. Defined.

Lemma pools_ok_set_pending p pool q :
  pools_ok p -> LimitPending.indexed q -> pools_ok (set_pending p pool q).
Proof. intros Hp Hq. by apply map_Forall_insert_2. Qed.

Lemma pools_ok_set_parked p pool q : pools_ok p -> pools_ok (set_parked p pool q).
Proof. done. Qed.

Lemma pools_ok_new ids : pools_ok (new ids).
Proof.
  intros pool q. simpl. intros Hq%elem_of_list_to_map_2.
  apply list_elem_of_fmap in Hq as (i & [= -> ->] & _). apply LimitPending.indexed_new.
Qed.

Lemma get_order_set_pending_ne p pool q pool' h : pool <> pool' ->
  get_order (set_pending p pool q) pool' h = get_order p pool' h.
Proof. intros Hne. unfold get_order. simpl. by rewrite lookup_insert_ne. Qed.

Lemma get_order_set_parked_ne p pool q pool' h : pool <> pool' ->
  get_order (set_parked p pool q) pool' h = get_order p pool' h.
Proof. intros Hne. unfold get_order. simpl. by rewrite lookup_insert_ne. Qed.

(** The two lookups that [get_order] combines. *)
Definition in_pending p pool h : option (OrderWithStorageData AllOrders) :=
  q ← pending_orders p !! pool; LimitPending.orders q !! h.
Definition in_parked p pool h : option (OrderWithStorageData AllOrders) :=
  q ← parked_orders p !! pool; Parked.parked q !! h.

Lemma get_order_alt p pool h :
  get_order p pool h =
  match in_pending p pool h with Some o => Some o | None => in_parked p pool h end.
Proof. done. Qed.

Lemma in_pending_set_pending p pool q pool' h :
  in_pending (set_pending p pool q) pool' h =
  if decide (pool = pool') then LimitPending.orders q !! h else in_pending p pool' h.
Proof.
  unfold in_pending. simpl. case_decide as Hd.
  - subst. by rewrite lookup_insert_eq.
  - by rewrite lookup_insert_ne.
Qed.

Lemma in_parked_set_parked p pool q pool' h :
  in_parked (set_parked p pool q) pool' h =
  if decide (pool = pool') then Parked.parked q !! h else in_parked p pool' h.
Proof.
  unfold in_parked. simpl. case_decide as Hd.
  - subst. by rewrite lookup_insert_eq.
  - by rewrite lookup_insert_ne.
Qed.

(** ** Removal *)

Lemma remove_parked_order_spec p pool h : exists p',
  remove_parked_order p pool h = (p', in_parked p pool h) /\
  pending_orders p' = pending_orders p /\
  forall pool' h', in_parked p' pool' h' =
    if decide (pool = pool' /\ h = h') then None else in_parked p pool' h'.
Proof.
  unfold remove_parked_order. destruct (parked_orders p !! pool) as [q|] eqn:E.
  - simpl. eexists. split; [unfold in_parked; by rewrite E|]. split; [done|].
    intros pool' h'. rewrite in_parked_set_parked. simpl.
    destruct (decide (pool = pool')) as [<-|]; [|by rewrite decide_False by naive_solver].
    rewrite lookup_delete. unfold in_parked. rewrite E. simpl.
    repeat case_decide; naive_solver.
  - exists p. unfold in_parked. rewrite E. split; [done|]. split; [done|].
    intros pool' h'. case_decide as Hd; [|done]. destruct Hd as [<- _]. by rewrite E.
Qed.

(** The pending half of [remove_order]. *)
Definition remove_pending p pool h : LimitPool * option (OrderWithStorageData AllOrders) :=
  match pending_orders p !! pool with
  | Some q => let '(q', r) := LimitPending.remove_order q h in (set_pending p pool q', r)
  | None => (p, None)
  end.

Lemma remove_pending_spec p pool h : pools_ok p -> exists p',
  remove_pending p pool h = (p', in_pending p pool h) /\ pools_ok p' /\
  parked_orders p' = parked_orders p /\
  forall pool' h', in_pending p' pool' h' =
    if decide (pool = pool' /\ h = h') then None else in_pending p pool' h'.
Proof.
  intros Hp. unfold remove_pending. destruct (pending_orders p !! pool) as [q|] eqn:E.
  - destruct (LimitPending.limit_pending_remove_order_law q h (Hp _ _ E)) as (q' & -> & Hq' & Ho').
    eexists. split; [unfold in_pending; by rewrite E|].
    split; [by apply pools_ok_set_pending|]. split; [done|].
    intros pool' h'. rewrite in_pending_set_pending, Ho'.
    destruct (decide (pool = pool')) as [<-|]; [|by rewrite decide_False by naive_solver].
    rewrite lookup_delete. unfold in_pending. rewrite E. simpl.
    repeat case_decide; naive_solver.
  - exists p. unfold in_pending. rewrite E. split; [done|]. split; [done|]. split; [done|].
    intros pool' h'. case_decide as Hd; [|done]. destruct Hd as [<- _]. by rewrite E.
Qed.

Lemma remove_order_alt p pool h :
  remove_order p pool h =
  let '(p', r) := remove_pending p pool h in
  match r with Some o => (p', Some o) | None => remove_parked_order p' pool h end.
Proof. done. Qed.

Lemma remove_order_spec p pool h : pools_ok p -> exists p',
  remove_order p pool h = (p', get_order p pool h) /\ pools_ok p' /\
  in_pending p' pool h = None /\
  (forall pool' h', (pool', h') <> (pool, h) ->
    in_pending p' pool' h' = in_pending p pool' h' /\
    in_parked p' pool' h' = in_parked p pool' h').
Proof.
  intros Hp. rewrite remove_order_alt, get_order_alt.
  destruct (remove_pending_spec p pool h Hp) as (p1 & -> & Hp1 & Hk1 & Hl1).
  destruct (in_pending p pool h) as [o|] eqn:E.
  - exists p1. split; [done|]. split; [done|].
    split; [rewrite Hl1; by rewrite decide_True|].
    intros pool' h' Hne. rewrite Hl1, decide_False by naive_solver.
    unfold in_parked. by rewrite Hk1.
  - destruct (remove_parked_order_spec p1 pool h) as (p2 & -> & Hq2 & Hl2).
    exists p2. split; [unfold in_parked; by rewrite Hk1|].
    split; [unfold pools_ok; by rewrite Hq2|].
    assert (forall pool' h', in_pending p2 pool' h' = in_pending p1 pool' h') as Heq.
    { intros. unfold in_pending. by rewrite Hq2. }
    split; [rewrite Heq, Hl1; by rewrite decide_True|].
    intros pool' h' Hne. rewrite Heq, Hl1, Hl2, !decide_False by naive_solver.
    split; [done|]. unfold in_parked. by rewrite Hk1.
Qed.

(** Removing an order from a well-indexed limit pool returns what
    [get_order] finds for it, and no order of another hash or pool is
    affected. *)
Theorem remove_order_returns_get (p : LimitPool) (pool : PoolId) (h : B256)
    (Hp : pools_ok p) :
  exists p', remove_order p pool h = (p', get_order p pool h) /\ pools_ok p' /\
    forall pool' h', (pool', h') <> (pool, h) ->
      get_order p' pool' h' = get_order p pool' h'.
Proof.
  destruct (remove_order_spec p pool h Hp) as (p' & Hr & Hp' & _ & Hf).
  exists p'. split; [done|]. split; [done|]. intros pool' h' Hne.
  rewrite !get_order_alt. by destruct (Hf pool' h' Hne) as [-> ->].
Qed.

(** ** Parking *)

(** Parking a stored order moves it from the pending to the parked pool: it
    is no longer pending, it is found again with the parking reason, and every
    other order keeps its place. *)
Theorem park_order_moves (p : LimitPool) (id : OrderId)
    (o : OrderWithStorageData AllOrders)
    (Hp : pools_ok p) (Ho : in_pending p (id_pool_id id) (id_hash id) = Some o)
    (Hpool : pool_id o = id_pool_id id) (Hhash : order_hash (order o) = id_hash id)
    (Hparked : is_Some (parked_orders p !! id_pool_id id)) :
  exists p', park_order p id = Ret p' /\ pools_ok p' /\
    in_pending p' (id_pool_id id) (id_hash id) = None /\
    get_order p' (id_pool_id id) (id_hash id) =
      Some (set_currently_valid (Some parked_reason) o) /\
    forall pool' h', (pool', h') <> (id_pool_id id, id_hash id) ->
      get_order p' pool' h' = get_order p pool' h'.
Proof.
  unfold park_order. rewrite remove_order_alt.
  destruct (remove_pending_spec p (id_pool_id id) (id_hash id) Hp)
    as (p1 & -> & Hp1 & Hk1 & Hl1).
  rewrite Ho. cbn. rewrite Hpool, Hk1.
  destruct Hparked as [k Hk]. rewrite Hk. eexists. split; [done|]. split; [done|].
  assert (in_pending (set_parked p1 (id_pool_id id)
    (Parked.new_order k (set_currently_valid (Some parked_reason) o)))
    (id_pool_id id) (id_hash id) = None) as Hnone.
  { change (in_pending p1 (id_pool_id id) (id_hash id) = None).
    rewrite Hl1. by rewrite decide_True. }
  split; [done|]. split.
  - rewrite get_order_alt, Hnone, in_parked_set_parked, decide_True by done.
    unfold Parked.new_order. cbn [Parked.parked order set_currently_valid].
    by rewrite Hhash, lookup_insert_eq.
  - intros pool' h' Hne. rewrite !get_order_alt.
    change (in_pending (set_parked p1 _ _) pool' h') with (in_pending p1 pool' h').
    rewrite Hl1, decide_False by naive_solver. destruct (in_pending p pool' h'); [done|].
    rewrite in_parked_set_parked. unfold in_parked. rewrite Hk1.
    destruct (decide (id_pool_id id = pool')) as [<-|]; [|done].
    rewrite Hk. unfold Parked.new_order. cbn [Parked.parked order set_currently_valid].
    rewrite Hhash. cbn. rewrite lookup_insert_ne; [done|]. naive_solver.
Qed.

(** ** Gas updates *)

Lemma elem_of_bad_orders gas q h :
  h ∈ bad_orders gas q <-> exists o, LimitPending.orders q !! h = Some o /\
    (max_gas_token_0 (order o) < gas_for gas o)%Z.
Proof.
  unfold bad_orders. rewrite list_elem_of_fmap. split.
  - intros ([k o] & -> & Hin). apply list_elem_of_filter in Hin as [Hc Hin].
    exists o. split; [by apply elem_of_hm_iter|done].
  - intros (o & Ho & Hc). exists (h, o). split; [done|].
    apply list_elem_of_filter. split; [done|]. by apply elem_of_hm_iter.
Qed.

(** The orders that remain after [retain]. *)
Definition retained (gas : UpdatedGas) (q : LimitPending.PendingPool AllOrders)
    : LimitPending.PendingPool AllOrders :=
  LimitPending.Build_PendingPool (omap (retain_gas gas) (LimitPending.orders q))
    (LimitPending.bids q) (LimitPending.asks q).

Lemma remove_unwrap_missing q h ids :
  LimitPending.orders q !! h = None -> remove_unwrap q (h :: ids) = Panic.
Proof. intros Hh. simpl. unfold LimitPending.remove_order. by rewrite Hh. Qed.

Lemma retained_bad gas q h :
  h ∈ bad_orders gas q -> LimitPending.orders (retained gas q) !! h = None.
Proof.
  intros (o & Ho & Hlt)%elem_of_bad_orders. simpl. rewrite lookup_omap, Ho. simpl.
  unfold retain_gas. by rewrite (proj2 (Z.ltb_lt _ _) Hlt).
Qed.

Lemma update_gas_no_bad p id gas q : pending_orders p !! id = Some q ->
  bad_orders gas q = [] -> update_gas p id gas = Ret (set_pending p id (retained gas q), []).
Proof. intros Hq Hb. unfold update_gas. by rewrite Hq, Hb. Qed.

(** A gas update panics exactly when some pending order of the pool cannot
    pay the new gas: the order was already dropped by [retain] when the code
    unwraps its removal.  Otherwise every order is kept with its new gas. *)
Theorem update_gas_panics_iff (p : LimitPool) (id : PoolId) (gas : UpdatedGas)
    (q : LimitPending.PendingPool AllOrders) (Hq : pending_orders p !! id = Some q) :
  (update_gas p id gas = Panic <->
    exists h o, LimitPending.orders q !! h = Some o /\
      (max_gas_token_0 (order o) < gas_for gas o)%Z) /\
  (update_gas p id gas <> Panic -> exists p', update_gas p id gas = Ret (p', []) /\
    forall h, in_pending p' id h =
      (fun o => set_priority_gas (gas_for gas o) o) <$> LimitPending.orders q !! h).
Proof.
  destruct (bad_orders gas q) as [|b bs] eqn:Eb.
  - assert (forall h o, LimitPending.orders q !! h = Some o ->
      ~ (max_gas_token_0 (order o) < gas_for gas o)%Z) as Hgood.
    { intros h o Ho Hlt. assert (h ∈ bad_orders gas q) as Hin
        by (apply elem_of_bad_orders; eauto).
      rewrite Eb in Hin. by apply not_elem_of_nil in Hin. }
    rewrite (update_gas_no_bad _ _ _ _ Hq Eb). split.
    + split; [done|]. intros (h & o & Ho & Hlt). by destruct (Hgood h o).
    + intros _. eexists. split; [done|]. intros h.
      rewrite in_pending_set_pending, decide_True by done. simpl. rewrite lookup_omap.
      destruct (LimitPending.orders q !! h) as [o|] eqn:Eo; [|done]. simpl.
      unfold retain_gas. specialize (Hgood _ _ Eo).
      destruct (Z.ltb_spec (max_gas_token_0 (order o)) (gas_for gas o)); [lia|done].
  - assert (b ∈ bad_orders gas q) as Hb by (rewrite Eb; left).
    assert (update_gas p id gas = Panic) as ->.
    { unfold update_gas. rewrite Hq, Eb. fold (retained gas q).
      by rewrite remove_unwrap_missing by by apply retained_bad. }
    split; [|done]. split; [|done]. intros _. apply elem_of_bad_orders in Hb. eauto.
Qed.

(** A gas update that changes the gas of a stored order leaves the order
    without a book entry at its new priority, so that removing it afterwards
    returns nothing although it was stored. *)
Theorem update_gas_loses_orders (p p' : LimitPool) (pool : PoolId) (gas : UpdatedGas)
    (q : LimitPending.PendingPool AllOrders) (h : B256)
    (o : OrderWithStorageData AllOrders) (dropped : list AllOrders)
    (Hq : pending_orders p !! pool = Some q)
    (Ho : LimitPending.orders q !! h = Some o)
    (Hup : update_gas p pool gas = Ret (p', dropped))
    (Hfree : LimitPending.side q (is_bid o) !!
      priority_data (set_priority_gas (gas_for gas o) o) = None) :
  in_pending p' pool h = Some (set_priority_gas (gas_for gas o) o) /\
  (remove_pending p' pool h).2 = None /\
  in_pending (remove_pending p' pool h).1 pool h = None.
Proof.
  destruct (bad_orders gas q) as [|b bs] eqn:Eb.
  2: { unfold update_gas in Hup. rewrite Hq, Eb in Hup. fold (retained gas q) in Hup.
    rewrite remove_unwrap_missing in Hup; [done|].
    apply retained_bad. rewrite Eb. left. }
  rewrite (update_gas_no_bad _ _ _ _ Hq Eb) in Hup. injection Hup as <- <-.
  assert (~ (max_gas_token_0 (order o) < gas_for gas o)%Z) as Hge.
  { intros Hlt. assert (h ∈ bad_orders gas q) as Hin by (apply elem_of_bad_orders; eauto).
    rewrite Eb in Hin. by apply not_elem_of_nil in Hin. }
  assert (LimitPending.orders (retained gas q) !! h =
    Some (set_priority_gas (gas_for gas o) o)) as Hr.
  { simpl. rewrite lookup_omap, Ho. simpl. unfold retain_gas.
    by destruct (Z.ltb_spec (max_gas_token_0 (order o)) (gas_for gas o)). }
  rewrite in_pending_set_pending, decide_True by done. split; [done|].
  unfold remove_pending. simpl. rewrite lookup_insert_eq.
  unfold LimitPending.remove_order. rewrite Hr. unfold LimitPending.side in Hfree.
  cbn [is_bid set_priority_gas]. simpl in Hfree.
  destruct (is_bid o); simpl; rewrite Hfree; simpl; split; try done;
    rewrite in_pending_set_pending, decide_True by done; apply lookup_delete_eq.
Qed.

(** ** New pools *)

Lemma new_pool_fresh p np : pending_orders p !! np_id np = None ->
  new_pool p np = Ret (set_pending p (np_id np) LimitPending.new).
Proof. intros Hn. unfold new_pool. by rewrite Hn. Qed.

(** A pool that is added after construction gets no parked pool: blocked
    orders for it are refused with [NoPool], and parking one of its orders
    panics. *)
Theorem new_pool_cannot_park (p : LimitPool) (np : NewInitializedPool)
    (Hpend : pending_orders p !! np_id np = None)
    (Hpark : parked_orders p !! np_id np = None) :
  exists p', new_pool p np = Ret p' /\
    (forall o, pool_id o = np_id np -> currently_valid o = false ->
      add_order p' o = (p', Err (NoPool (np_id np)))) /\
    (forall o, pool_id o = np_id np -> id_pool_id (order_id o) = np_id np ->
      currently_valid o = true -> park_order (add_order p' o).1 (order_id o) = Panic).
Proof.
  rewrite (new_pool_fresh _ _ Hpend). eexists. split; [done|]. split.
  - intros o Hpool Hv. unfold add_order. rewrite Hv, Hpool. simpl. by rewrite Hpark.
  - intros o Hpool Hid Hv. unfold add_order at 1. rewrite Hv, Hpool. simpl.
    rewrite lookup_insert_eq. simpl. unfold park_order. rewrite Hid. rewrite remove_order_alt.
    unfold remove_pending. simpl. rewrite lookup_insert_eq.
    rewrite (LimitPending.remove_order_indexed_eq _ _ o).
    + cbn. rewrite Hpool. by rewrite Hpark.
    + apply LimitPending.add_order_indexed; [apply LimitPending.indexed_new|].
      apply map_Forall_empty.
    + rewrite LimitPending.limit_pending_orders_add_order. apply lookup_insert_eq.
Qed.

(** ** Cancellation *)

(** A parked order of a pool that also has a pending pool cannot be
    cancelled: the call reports failure and does not reach the parked pool. *)
Theorem cancel_order_skips_parked (p : LimitPool) (id : OrderId)
    (q : LimitPending.PendingPool AllOrders)
    (Hq : pending_orders p !! id_pool_id id = Some q)
    (Hout : LimitPending.orders q !! id_hash id = None) :
  (cancel_order p id).2 = false /\ parked_orders (cancel_order p id).1 = parked_orders p /\
  forall pool h, get_order (cancel_order p id).1 pool h = get_order p pool h.
Proof.
  unfold cancel_order. rewrite Hq. unfold LimitPending.cancel_order. rewrite Hout.
  split; [done|]. split; [done|]. intros pool h. simpl. rewrite !get_order_alt.
  rewrite in_pending_set_pending. change (in_parked (set_pending _ _ _) pool h)
    with (in_parked p pool h).
  case_decide as Hd; [|done]. subst. unfold in_pending. by rewrite Hq.
Qed.

(** A pending order is flagged, and nothing else changes. *)
Lemma cancel_order_pending p id o : pools_ok p ->
  in_pending p (id_pool_id id) (id_hash id) = Some o ->
  exists p', cancel_order p id = (p', true) /\ pools_ok p' /\
    in_pending p' (id_pool_id id) (id_hash id) = Some (set_cancel_requested o) /\
    parked_orders p' = parked_orders p /\
    forall pool' h', (pool', h') <> (id_pool_id id, id_hash id) ->
      in_pending p' pool' h' = in_pending p pool' h'.
Proof.
  intros Hp Ho. unfold in_pending in Ho.
  destruct (pending_orders p !! id_pool_id id) as [q|] eqn:E; [|done]. simpl in Ho.
  destruct (LimitPending.limit_pending_cancel_order_law q (id_hash id) (Hp _ _ E)) as (q' & Hc & Hq' & Ho').
  unfold cancel_order. rewrite E, Hc. rewrite bool_decide_true by by exists o.
  eexists. split; [done|]. split; [by apply pools_ok_set_pending|].
  rewrite in_pending_set_pending, decide_True by done.
  split; [by rewrite Ho', lookup_alter_eq, Ho|]. split; [done|].
  intros pool' h' Hne. rewrite in_pending_set_pending. case_decide as Hd; [|done].
  subst. unfold in_pending. rewrite E, Ho'. simpl. apply lookup_alter_ne. congruence.
Qed.
End limit_pool.

(** ** Concrete pools *)

Section examples.
#[local] Existing Instance iter_by_encoding.
#[local] Existing Instance arith_Z.
#[local] Existing Instance sample_hasher.

Definition sample_pools : LimitPool :=
  let p0 := new [7%Z] in
  let p1 := (add_order p0 (sample_limit 1 100 7 10 5)).1 in
  let p2 := (add_order p1 (sample_limit 2 101 7 20 5)).1 in
  (add_order p2 (sample_blocked 3 102 7 30 5)).1.

Definition sample_pool_7 : LimitPending.PendingPool AllOrders :=
  LimitPending.add_order (LimitPending.add_order LimitPending.new (sample_limit 1 100 7 10 5))
    (sample_limit 2 101 7 20 5).

Lemma remove_order_returns_get_witness :
  exists p', remove_order sample_pools 7 3 = (p', get_order sample_pools 7 3) /\ pools_ok p' /\
    forall pool' h', (pool', h') <> (7%Z, 3%Z) ->
      get_order p' pool' h' = get_order sample_pools pool' h'.
Proof. apply remove_order_returns_get. by_decide. Defined.

Lemma park_order_moves_witness :
  exists p', park_order sample_pools (sample_id 1 100 7 Limit) = Ret p' /\ pools_ok p' /\
    in_pending p' 7 1 = None /\
    get_order p' 7 1 = Some (set_currently_valid (Some parked_reason) (sample_limit 1 100 7 10 5)) /\
    forall pool' h', (pool', h') <> (7%Z, 1%Z) ->
      get_order p' pool' h' = get_order sample_pools pool' h'.
Proof.
  apply (park_order_moves sample_pools (sample_id 1 100 7 Limit) (sample_limit 1 100 7 10 5));
    [by_decide|vm_compute; reflexivity..|by eexists].
Defined.

Lemma update_gas_panics_iff_witness :
  (update_gas sample_pools 7 (sample_gas 7 6 0) = Panic <->
    exists h o, LimitPending.orders sample_pool_7 !! h = Some o /\
      (max_gas_token_0 (order o) < gas_for (sample_gas 7 6 0) o)%Z) /\
  (update_gas sample_pools 7 (sample_gas 7 6 0) <> Panic ->
    exists p', update_gas sample_pools 7 (sample_gas 7 6 0) = Ret (p', []) /\
    forall h, in_pending p' 7 h =
      (fun o => set_priority_gas (gas_for (sample_gas 7 6 0) o) o) <$>
        LimitPending.orders sample_pool_7 !! h).
Proof. apply (update_gas_panics_iff sample_pools 7 (sample_gas 7 6 0) sample_pool_7); done. Defined.

Lemma update_gas_loses_orders_witness :
  exists p' dropped, update_gas sample_pools 7 (sample_gas 7 4 0) = Ret (p', dropped) /\
    (remove_pending p' 7 1).2 = None.
Proof.
  eexists _, _. split; [vm_compute; reflexivity|].
  apply (update_gas_loses_orders sample_pools _ 7 (sample_gas 7 4 0) sample_pool_7 1
    (sample_limit 1 100 7 10 5) []); vm_compute; reflexivity.
Defined.

Lemma new_pool_cannot_park_witness :
  exists p', new_pool sample_pools {| currency_in := 1; currency_out := 2; np_id := 8 |} = Ret p' /\
    (forall o, pool_id o = 8%Z -> currently_valid o = false ->
      add_order p' o = (p', Err (NoPool 8))) /\
    (forall o, pool_id o = 8%Z -> id_pool_id (order_id o) = 8%Z ->
      currently_valid o = true -> park_order (add_order p' o).1 (order_id o) = Panic).
Proof.
  apply (new_pool_cannot_park sample_pools {| currency_in := 1; currency_out := 2; np_id := 8 |});
    vm_compute; reflexivity.
Defined.

Lemma cancel_order_skips_parked_witness :
  is_Some (in_parked sample_pools 7 3) /\
  (cancel_order sample_pools (sample_id 3 102 7 Limit)).2 = false.
Proof.
  split; [by eexists|].
  apply (cancel_order_skips_parked sample_pools (sample_id 3 102 7 Limit) sample_pool_7);
    vm_compute; reflexivity.
Defined.
End examples.
