(* ===== verification/Composable.v ===== *)
(** * The pool of composable orders

    The model of [crates/order-pool/src/limit/composable.rs]: user orders with a
    hook, one [PendingPool] per pool. *)

From S2P Require Import Prelude Ray Orders LimitPool.
From S2P Require LimitPending.

Record ComposableLimitPool := {
  map : gmap PoolId (LimitPending.PendingPool AllOrders)
}.

Definition new (ids : list PoolId) : ComposableLimitPool :=
  {| map := list_to_map ((fun id => (id, LimitPending.new)) <$> ids) |}.

Definition get_order (c : ComposableLimitPool) (pool : PoolId) (h : B256)
    : option (OrderWithStorageData AllOrders) :=
  q ← map c !! pool; LimitPending.get_order q h.

Definition add_order (c : ComposableLimitPool) (o : OrderWithStorageData AllOrders)
    : ComposableLimitPool * result unit LimitPoolError :=
  match map c !! pool_id o with
  | Some q => ({| map := <[pool_id o := LimitPending.add_order q o]> (map c) |}, Ok tt)
  | None => (c, Err (NoPool (pool_id o)))
  end.

Definition remove_order (c : ComposableLimitPool) (pool : PoolId) (h : B256)
    : ComposableLimitPool * option (OrderWithStorageData AllOrders) :=
  match map c !! pool with
  | Some q =>
      let '(q', r) := LimitPending.remove_order q h in
      ({| map := <[pool := q']> (map c) |}, r)
  | None => (c, None)
  end.

Definition new_pool (c : ComposableLimitPool) (np : NewInitializedPool)
    : outcome ComposableLimitPool :=
  let c' := {| map := <[np_id np := LimitPending.new]> (map c) |} in
  _ ← assert (bool_decide (map c !! np_id np = None));
  Ret c'.

Definition remove_invalid_order (c : ComposableLimitPool) (h : B256) : ComposableLimitPool :=
  {| map := (fun q => (LimitPending.remove_order q h).1) <$> map c |}.

Definition composable_ok (c : ComposableLimitPool) : Prop :=
  map_Forall (fun _ q => LimitPending.indexed q) (map c).

Lemma composable_ok_new ids : composable_ok (new ids).
Proof.
  intros pool q. simpl. intros Hq%elem_of_list_to_map_2.
  apply list_elem_of_fmap in Hq as (i & [= -> ->] & _). apply LimitPending.indexed_new.
Qed.

Lemma remove_order_composable c pool h : composable_ok c -> exists c',
  remove_order c pool h = (c', get_order c pool h) /\ composable_ok c' /\
  forall pool' h', get_order c' pool' h' =
    if decide (pool = pool' /\ h = h') then None else get_order c pool' h'.
Proof.
  intros Hc. unfold remove_order. destruct (map c !! pool) as [q|] eqn:E.
  - destruct (LimitPending.limit_pending_remove_order_law q h (Hc _ _ E)) as (q' & -> & Hq' & Ho').
    eexists. split; [unfold get_order; by rewrite E|].
    split; [by apply map_Forall_insert_2|]. intros pool' h'. unfold get_order. simpl.
    destruct (decide (pool = pool')) as [<-|].
    + rewrite lookup_insert_eq, E. simpl. unfold LimitPending.get_order.
      rewrite Ho', lookup_delete. repeat case_decide; naive_solver.
    + rewrite lookup_insert_ne by done. by rewrite decide_False by naive_solver.
  - exists c. unfold get_order at 1. rewrite E. split; [done|]. split; [done|].
    intros pool' h'. case_decide as Hd; [|done]. destruct Hd as [<- _].
    unfold get_order. by rewrite E.
Qed.
