(* ===== verification/LimitOrders.v ===== *)
(** * Limit orders: vanilla and composable

    The model of [LimitOrderPool], [crates/order-pool/src/limit/mod.rs], which
    joins the vanilla pool and the composable pool. *)

From S2P Require Import Prelude Ray Orders.
From S2P Require LimitPending Parked LimitPool Composable.

Record LimitOrderPool := {
  limit_orders : LimitPool.LimitPool;
  composable_orders : Composable.ComposableLimitPool
}.

Section limit_orders.
Context `{HI : HashIter} `{AL : ArithLib} `{OH : OrderHasher}.
Implicit Types (l : LimitOrderPool) (id : OrderId) (o : OrderWithStorageData AllOrders).

Definition new (ids : list PoolId) : LimitOrderPool :=
  {| limit_orders := LimitPool.new ids; composable_orders := Composable.new ids |}.

Definition with_limit l p : LimitOrderPool :=
  {| limit_orders := p; composable_orders := composable_orders l |}.
Definition with_composable l c : LimitOrderPool :=
  {| limit_orders := limit_orders l; composable_orders := c |}.

Definition update_gas l (gas : UpdatedGas) : outcome (LimitOrderPool * list AllOrders) :=
  '(p, res) ← LimitPool.update_gas (limit_orders l) (ug_pool_id gas) gas;
  Ret (with_limit l p, res).

Definition get_order l id : option (OrderWithStorageData AllOrders) :=
  match LimitPool.get_order (limit_orders l) (id_pool_id id) (id_hash id) with
  | Some o => Some o
  | None => Composable.get_order (composable_orders l) (id_pool_id id) (id_hash id)
  end.

(** The three maps give up their pool; the orders are the composable ones, then
    the parked, then the pending ones. *)
Definition remove_pool l (key : PoolId) : LimitOrderPool * list (OrderWithStorageData AllOrders) :=
  let p := limit_orders l in
  ({| limit_orders :=
        {| LimitPool.pending_orders := delete key (LimitPool.pending_orders p);
           LimitPool.parked_orders := delete key (LimitPool.parked_orders p) |};
      composable_orders :=
        {| Composable.map := delete key (Composable.map (composable_orders l)) |} |},
   from_option LimitPending.get_all_orders [] (Composable.map (composable_orders l) !! key) ++
   from_option Parked.get_all_orders [] (LimitPool.parked_orders p !! key) ++
   from_option LimitPending.get_all_orders [] (LimitPool.pending_orders p !! key)).

Definition cancel_order l id : LimitOrderPool * bool :=
  let '(p, b) := LimitPool.cancel_order (limit_orders l) id in (with_limit l p, b).

Definition remove_all_cancelled_orders l
    : LimitOrderPool * list (OrderWithStorageData AllOrders) :=
  let '(p, res) := LimitPool.remove_all_cancelled_orders (limit_orders l) in
  (with_limit l p, res).

Definition get_order_status l (h : B256) : outcome (option OrderStatus) :=
  LimitPool.get_order_status (limit_orders l) h.

Definition add_composable_order l o : LimitOrderPool * result unit LimitPool.LimitPoolError :=
  let '(c, r) := Composable.add_order (composable_orders l) o in (with_composable l c, r).

Definition add_vanilla_order l o : LimitOrderPool * result unit LimitPool.LimitPoolError :=
  let '(p, r) := LimitPool.add_order (limit_orders l) o in (with_limit l p, r).

Definition remove_order l id : LimitOrderPool * option (OrderWithStorageData AllOrders) :=
  let '(p, r) := LimitPool.remove_order (limit_orders l) (id_pool_id id) (id_hash id) in
  let l' := with_limit l p in
  match r with
  | Some o => (l', Some o)
  | None =>
      let '(c, r') := Composable.remove_order (composable_orders l) (id_pool_id id) (id_hash id) in
      (with_composable l' c, r')
  end.

Definition remove_parked_order l id : LimitOrderPool * option (OrderWithStorageData AllOrders) :=
  let '(p, r) := LimitPool.remove_parked_order (limit_orders l) (id_pool_id id) (id_hash id) in
  let l' := with_limit l p in
  match r with
  | Some o => (l', Some o)
  | None =>
      let '(c, r') := Composable.remove_order (composable_orders l) (id_pool_id id) (id_hash id) in
      (with_composable l' c, r')
  end.

Definition get_all_orders l : list (OrderWithStorageData AllOrders) :=
  LimitPool.get_all_orders (limit_orders l).

Definition get_all_orders_with_hashes l (hashes : gset B256)
    : list (OrderWithStorageData AllOrders) :=
  LimitPool.get_all_orders_with_hashes (limit_orders l) hashes.

Definition get_all_orders_with_parked_and_cancelled l : list (OrderWithStorageData AllOrders) :=
  LimitPool.get_all_orders_with_cancelled_and_parked (limit_orders l).

Definition get_all_orders_with_parked l : list (OrderWithStorageData AllOrders) :=
  LimitPool.get_all_orders_with_parked (limit_orders l).

Definition get_all_orders_from_pool l (pool : PoolId) : list AllOrders :=
  order <$> from_option LimitPending.get_all_orders []
    (LimitPool.pending_orders (limit_orders l) !! pool).

Definition park_order l id : outcome LimitOrderPool :=
  p ← LimitPool.park_order (limit_orders l) id; Ret (with_limit l p).

Definition new_pool l (np : NewInitializedPool) : outcome LimitOrderPool :=
  p ← LimitPool.new_pool (limit_orders l) np;
  c ← Composable.new_pool (composable_orders l) np;
  Ret {| limit_orders := p; composable_orders := c |}.

Definition remove_invalid_order l (h : B256) : LimitOrderPool :=
  {| limit_orders := LimitPool.remove_invalid_order (limit_orders l) h;
     composable_orders := Composable.remove_invalid_order (composable_orders l) h |}.

(** ** Contract *)

Definition limits_ok l : Prop :=
  LimitPool.pools_ok (limit_orders l) /\ Composable.composable_ok (composable_orders l).

Lemma limits_ok_new ids : limits_ok (new ids).
Proof. split; [apply LimitPool.pools_ok_new|apply Composable.composable_ok_new]. Qed.

(** The place of an order. *)
Definition same_place (a b : OrderId) : Prop :=
  id_pool_id a = id_pool_id b /\ id_hash a = id_hash b.

(** What one removal guarantees: it returns what the lookup finds, keeps the
    invariant, and leaves every other place alone. *)
Lemma limit_orders_remove_order_law l id : limits_ok l -> exists l',
  remove_order l id = (l', get_order l id) /\ limits_ok l' /\
  forall id', ~ same_place id id' -> get_order l' id' = get_order l id'.
Proof.
  intros [Hp Hc]. unfold remove_order, get_order.
  destruct (LimitPool.remove_order_spec (limit_orders l) (id_pool_id id) (id_hash id) Hp)
    as (p & Hr & Hp' & _ & Hf).
  assert (forall id', ~ same_place id id' ->
    LimitPool.get_order p (id_pool_id id') (id_hash id') =
    LimitPool.get_order (limit_orders l) (id_pool_id id') (id_hash id')) as Hsame.
  { intros id' Hne. rewrite !LimitPool.get_order_alt.
    destruct (Hf (id_pool_id id') (id_hash id')) as [-> ->]; [|done].
    intros [= ??]. by apply Hne. }
  rewrite Hr. destruct (LimitPool.get_order (limit_orders l) _ _) as [o|].
  - eexists. split; [done|]. split; [done|]. intros id' Hne. simpl. by rewrite Hsame.
  - destruct (Composable.remove_order_composable (composable_orders l) (id_pool_id id)
      (id_hash id) Hc) as (c & -> & Hc' & Hcf).
    eexists. split; [done|]. split; [done|]. intros id' Hne. simpl. rewrite Hsame by done.
    destruct (LimitPool.get_order _ _ _); [done|].
    rewrite Hcf. apply decide_False. intros [??]. by apply Hne.
Qed.
End limit_orders.
