(* ===== verification/SearcherPool.v ===== *)
(** * The pool of top-of-block orders

    The model of [crates/order-pool/src/searcher/mod.rs]. *)

From S2P Require Import Prelude Ray Orders OrderStore.
From S2P Require SearcherPending.

Inductive SearcherPoolError :=
| MaxSize
| NoPool (pool : PoolId)
| UnknownPoolError (err : string).

Record SearcherPool := {
  searcher_orders : gmap PoolId SearcherPending.PendingPool
}.

Section searcher.
Context `{HI : HashIter}.
Implicit Types (s : SearcherPool) (id : OrderId)
  (o : OrderWithStorageData TopOfBlockOrder).

Definition new (ids : list PoolId) : SearcherPool :=
  {| searcher_orders := list_to_map ((fun pool : PoolId => (pool, SearcherPending.new)) <$> ids) |}.

Definition set_pool s (pool : PoolId) q : SearcherPool :=
  {| searcher_orders := <[pool := q]> (searcher_orders s) |}.

Definition get_all_orders_from_pool s (pool : PoolId) : list AllOrders :=
  match searcher_orders s !! pool with
  | Some q => (fun o => TOB (order o)) <$> SearcherPending.get_all_orders q
  | None => []
  end.

Definition has_order s (h : B256) : bool :=
  match find_map (fun q => SearcherPending.get_order q h) (hm_values (searcher_orders s)) with
  | Some _ => true
  | None => false
  end.

Definition get_order s (pool : PoolId) (h : B256)
    : option (OrderWithStorageData TopOfBlockOrder) :=
  q ← searcher_orders s !! pool; SearcherPending.get_order q h.

Definition add_searcher_order s o : SearcherPool * result unit SearcherPoolError :=
  match searcher_orders s !! pool_id o with
  | Some q => (set_pool s (pool_id o) (SearcherPending.add_order q o), Ok tt)
  | None => (s, Err (NoPool (pool_id o)))
  end.

Definition cancel_order s id : SearcherPool * bool :=
  match searcher_orders s !! id_pool_id id with
  | Some q =>
      let '(q', b) := SearcherPending.cancel_order q (id_hash id) in
      (set_pool s (id_pool_id id) q', b)
  | None => (s, false)
  end.

Definition remove_all_cancelled_orders s
    : SearcherPool * list (OrderWithStorageData TopOfBlockOrder) :=
  ({| searcher_orders :=
        (fun q => (SearcherPending.remove_all_cancelled_orders q).1) <$> searcher_orders s |},
   hm_values (searcher_orders s) ≫=
     fun q => (SearcherPending.remove_all_cancelled_orders q).2).

Definition remove_order s id : SearcherPool * option (OrderWithStorageData TopOfBlockOrder) :=
  match searcher_orders s !! id_pool_id id with
  | Some q =>
      let '(q', r) := SearcherPending.remove_order q (id_hash id) in
      (set_pool s (id_pool_id id) q', r)
  | None => (s, None)
  end.

Definition get_all_pool_ids s : list PoolId := hm_keys (searcher_orders s).

Definition get_orders_for_pool s (pool : PoolId)
    : option (list (OrderWithStorageData TopOfBlockOrder)) :=
  SearcherPending.get_all_orders <$> searcher_orders s !! pool.

Definition get_orders_for_pool_including_canceled s (pool : PoolId)
    : option (list (OrderWithStorageData TopOfBlockOrder)) :=
  SearcherPending.get_all_orders_with_cancelled <$> searcher_orders s !! pool.

Definition get_orders_for_pool_with_hashes s (pool : PoolId) (hashes : gset B256)
    : option (list (OrderWithStorageData TopOfBlockOrder)) :=
  (fun q => SearcherPending.get_all_orders_with_hashes q hashes) <$> searcher_orders s !! pool.

Definition get_all_orders s : list (OrderWithStorageData TopOfBlockOrder) :=
  hm_values (searcher_orders s) ≫= SearcherPending.get_all_orders.

Definition new_pool s (np : NewInitializedPool) : outcome SearcherPool :=
  let s' := set_pool s (np_id np) SearcherPending.new in
  _ ← assert (bool_decide (searcher_orders s !! np_id np = None));
  Ret s'.

(** The stored order as one of [AllOrders]: [try_map_inner(|o| Ok(AllOrders::TOB(o)))]. *)
Definition as_all_orders o : option (OrderWithStorageData AllOrders) :=
  try_map_inner (fun t => Some (TOB t)) o.

Definition remove_pool s (key : PoolId) : SearcherPool * list (OrderWithStorageData AllOrders) :=
  ({| searcher_orders := delete key (searcher_orders s) |},
   match searcher_orders s !! key with
   | Some q => omap as_all_orders (SearcherPending.get_all_orders q)
   | None => []
   end).

Definition remove_invalid_order s (h : B256) : SearcherPool :=
  {| searcher_orders := (fun q => (SearcherPending.remove_order q h).1) <$> searcher_orders s |}.

(** ** Contract *)

Lemma get_order_set_pool s pool q pool' h :
  get_order (set_pool s pool q) pool' h =
  if decide (pool = pool') then SearcherPending.orders q !! h else get_order s pool' h.
Proof.
  unfold get_order. simpl. case_decide as Hd.
  - subst. by rewrite lookup_insert_eq.
  - by rewrite lookup_insert_ne.
Qed.

Lemma searcher_pool_remove_order_law s id : exists s',
  remove_order s id = (s', get_order s (id_pool_id id) (id_hash id)) /\
  forall pool h, get_order s' pool h =
    if decide (id_pool_id id = pool /\ id_hash id = h) then None else get_order s pool h.
Proof.
  unfold remove_order. destruct (searcher_orders s !! id_pool_id id) as [q|] eqn:E.
  - destruct (SearcherPending.searcher_pending_remove_order_law q (id_hash id) I) as (q' & -> & _ & Ho').
    eexists. split; [unfold get_order; by rewrite E|].
    intros pool h. rewrite get_order_set_pool, Ho'.
    destruct (decide (id_pool_id id = pool)) as [<-|]; [|by rewrite decide_False by naive_solver].
    rewrite lookup_delete. unfold get_order. rewrite E. simpl. unfold SearcherPending.get_order.
    repeat case_decide; naive_solver.
  - exists s. unfold get_order at 1. rewrite E. split; [done|].
    intros pool h. case_decide as Hd; [|done]. destruct Hd as [<- _].
    unfold get_order. by rewrite E.
Qed.

Lemma searcher_pool_cancel_order_law s id : exists s',
  cancel_order s id =
    (s', bool_decide (is_Some (get_order s (id_pool_id id) (id_hash id)))) /\
  forall pool h, get_order s' pool h =
    if decide (id_pool_id id = pool /\ id_hash id = h)
    then set_cancel_requested <$> get_order s pool h else get_order s pool h.
Proof.
  unfold cancel_order. destruct (searcher_orders s !! id_pool_id id) as [q|] eqn:E.
  - destruct (SearcherPending.searcher_pending_cancel_order_law q (id_hash id) I) as (q' & -> & _ & Ho').
    assert (get_order s (id_pool_id id) (id_hash id) = SearcherPending.orders q !! id_hash id)
      as -> by (unfold get_order; by rewrite E).
    eexists. split; [done|].
    intros pool h. rewrite get_order_set_pool, Ho'.
    destruct (decide (id_pool_id id = pool)) as [<-|]; [|by rewrite decide_False by naive_solver].
    rewrite lookup_alter. unfold get_order. rewrite E. simpl. unfold SearcherPending.get_order.
    repeat case_decide; naive_solver.
  - assert (get_order s (id_pool_id id) (id_hash id) = None) as Hn
      by (unfold get_order; by rewrite E).
    exists s. rewrite Hn. split; [done|].
    intros pool h. case_decide as Hd; [|done]. destruct Hd as [<- <-]. by rewrite Hn.
Qed.

Lemma has_order_spec s h :
  has_order s h = true <-> exists pool o, get_order s pool h = Some o.
Proof.
  unfold has_order. destruct (find_map _ _) as [o|] eqn:E; split; try done.
  - intros _. apply find_map_Some in E as (q & Hq & Ho).
    apply elem_of_hm_values in Hq as [pool Hq]. exists pool, o.
    unfold get_order. by rewrite Hq.
  - intros (pool & o & Ho). unfold get_order in Ho.
    destruct (searcher_orders s !! pool) as [q|] eqn:Eq; [|done]. simpl in Ho.
    assert (SearcherPending.get_order q h = None); [|congruence].
    apply (proj1 (find_map_None _ _) E). apply elem_of_hm_values. eauto.
Qed.
End searcher.
