(* ===== verification/Finalization.v ===== *)
(** * Orders awaiting finality

    The model of [crates/order-pool/src/finalization_pool.rs]: filled orders by
    hash, and the hashes filled by each block, kept until the block is final. *)

From S2P Require Import Prelude Ray Orders Samples.

Record FinalizationPool := {
  id_to_orders : gmap B256 (OrderWithStorageData AllOrders);
  block_to_ids : gmap u64 (list B256)
}.

Section finalization.
Context `{AL : ArithLib} `{OH : OrderHasher}.
Implicit Types (f : FinalizationPool) (h : B256) (o : OrderWithStorageData AllOrders).

Definition new : FinalizationPool := {| id_to_orders := ∅; block_to_ids := ∅ |}.

Definition insert_by_hash (m : gmap B256 (OrderWithStorageData AllOrders)) o :=
  <[order_hash (order o) := o]> m.

Definition new_orders f (block : u64) (orders : list (OrderWithStorageData AllOrders))
    : outcome FinalizationPool :=
  let ids := (fun o => order_hash (order o)) <$> orders in
  let f' := {| id_to_orders := foldl insert_by_hash (id_to_orders f) orders;
               block_to_ids := <[block := ids]> (block_to_ids f) |} in
  _ ← assert (bool_decide (block_to_ids f !! block = None));
  Ret f'.

Definition has_order f h : bool := bool_decide (is_Some (id_to_orders f !! h)).

(** [ids.into_iter().filter_map(|id| self.id_to_orders.remove(&id)).collect()] *)
Fixpoint take_all (m : gmap B256 (OrderWithStorageData AllOrders)) (ids : list B256)
    : gmap B256 (OrderWithStorageData AllOrders) * list (OrderWithStorageData AllOrders) :=
  match ids with
  | [] => (m, [])
  | id :: ids' =>
      let '(m', res) := take_all (delete id m) ids' in
      (m', match m !! id with Some o => o :: res | None => res end)
  end.

Definition reorg f (orders : list B256)
    : FinalizationPool * list (OrderWithStorageData AllOrders) :=
  let '(m, res) := take_all (id_to_orders f) orders in
  ({| id_to_orders := m; block_to_ids := block_to_ids f |}, res).

Definition finalized f (block : u64)
    : FinalizationPool * list (OrderWithStorageData AllOrders) :=
  match block_to_ids f !! block with
  | Some ids =>
      let '(m, res) := take_all (id_to_orders f) ids in
      ({| id_to_orders := m; block_to_ids := delete block (block_to_ids f) |}, res)
  | None => (f, [])
  end.

(** ** Behaviour of the loops *)

Lemma take_all_lookup m ids h :
  (take_all m ids).1 !! h = if decide (h ∈ ids) then None else m !! h.
Proof.
  revert m. induction ids as [|i ids IH]; intros m; simpl; [done|].
  destruct (take_all (delete i m) ids) as [m' res] eqn:E. simpl.
  change m' with (m', res).1. rewrite <-E, IH.
  destruct (decide (h = i)) as [->|Hne].
  - rewrite (decide_True (P := i ∈ i :: ids)) by left.
    case_decide; [done|]. apply lookup_delete_eq.
  - rewrite lookup_delete_ne by done. repeat case_decide; set_solver.
Qed.

Lemma take_all_NoDup m ids : NoDup ids -> (take_all m ids).2 = omap (fun h => m !! h) ids.
Proof.
  revert m. induction ids as [|i ids IH]; intros m Hnd; simpl; [done|].
  apply NoDup_cons in Hnd as [Hi Hnd]. specialize (IH (delete i m) Hnd).
  destruct (take_all (delete i m) ids) as [m' res]. simpl in *. subst res.
  assert (omap (fun h => delete i m !! h) ids = omap (fun h => m !! h) ids) as ->.
  { apply list_omap_ext, Forall_Forall2_diag, Forall_forall.
    intros h Hh. rewrite lookup_delete_ne; [done|]. by intros ->. }
  by destruct (m !! i).
Qed.

Lemma elem_of_take_all m ids o :
  o ∈ (take_all m ids).2 -> exists h, h ∈ ids /\ m !! h = Some o.
Proof.
  revert m. induction ids as [|i ids IH]; intros m; simpl; [by intros ?%not_elem_of_nil|].
  destruct (take_all (delete i m) ids) as [m' res] eqn:E. specialize (IH (delete i m)).
  rewrite E in IH. simpl in IH. intros Hin.
  assert (o ∈ res -> exists h, h ∈ i :: ids /\ m !! h = Some o) as Hrec.
  { intros (h & Hh & Ho)%IH. apply lookup_delete_Some in Ho as [_ Ho].
    exists h. split; [by right|done]. }
  destruct (m !! i) as [o'|] eqn:Ei; [|by apply Hrec].
  apply elem_of_cons in Hin as [->|Hin]; [|by apply Hrec].
  exists i. split; [left|done].
Qed.

Lemma foldl_insert_lookup os m h :
  h ∉ ((fun o => order_hash (order o)) <$> os) ->
  foldl insert_by_hash m os !! h = m !! h.
Proof.
  revert m. induction os as [|o os IH]; intros m Hh; [done|].
  rewrite fmap_cons, not_elem_of_cons in Hh. destruct Hh as [Hne Hh].
  cbn [foldl]. rewrite IH by done. unfold insert_by_hash. by rewrite lookup_insert_ne.
Qed.

Lemma foldl_insert_lookup_in os m o :
  NoDup ((fun o => order_hash (order o)) <$> os) -> o ∈ os ->
  foldl insert_by_hash m os !! order_hash (order o) = Some o.
Proof.
  revert m. induction os as [|o' os IH]; intros m Hnd Hin; [by apply not_elem_of_nil in Hin|].
  rewrite fmap_cons in Hnd. apply NoDup_cons in Hnd as [Hn Hnd]. cbn [foldl].
  apply elem_of_cons in Hin as [->|Hin]; [|by apply IH].
  rewrite foldl_insert_lookup by done. unfold insert_by_hash. apply lookup_insert_eq.
Qed.

Lemma omap_hashes (m : gmap B256 (OrderWithStorageData AllOrders)) (os : list _) :
  (forall o, o ∈ os -> m !! order_hash (order o) = Some o) ->
  omap (fun h => m !! h) ((fun o => order_hash (order o)) <$> os) = os.
Proof.
  induction os as [|o os IH]; intros Hm; [done|].
  rewrite fmap_cons. cbn [omap list_omap]. rewrite (Hm o) by left.
  f_equal. apply IH. intros o' Ho'. apply Hm. by right.
Qed.

Lemma reorg_lookup f hs h f' back :
  reorg f hs = (f', back) ->
  id_to_orders f' !! h = if decide (h ∈ hs) then None else id_to_orders f !! h.
Proof.
  unfold reorg. rewrite <-take_all_lookup. destruct (take_all _ hs). by intros [= <- _].
Qed.

Lemma elem_of_finalized f block o :
  o ∈ (finalized f block).2 -> exists h, id_to_orders f !! h = Some o.
Proof.
  unfold finalized. destruct (block_to_ids f !! block) as [ids|]; [|by intros ?%not_elem_of_nil].
  pose proof (elem_of_take_all (id_to_orders f) ids o) as Ht.
  destruct (take_all _ ids). intros (h & _ & Hh)%Ht. by exists h.
Qed.

(** ** Theorems *)

(** The orders filled in a block come back, in order and nothing else, when
    that block is finalised, and the pool is then as it was before the block. *)
Theorem fill_then_finalize (f : FinalizationPool) (block : u64)
    (os : list (OrderWithStorageData AllOrders))
    (Hblock : block_to_ids f !! block = None)
    (Hnd : NoDup ((fun o => order_hash (order o)) <$> os))
    (Hfresh : forall o, o ∈ os -> id_to_orders f !! order_hash (order o) = None) :
  exists f', new_orders f block os = Ret f' /\ finalized f' block = (f, os).
Proof.
  unfold new_orders. rewrite bool_decide_true by done. cbn [assert mbind outcome_bind].
  eexists. split; [done|]. unfold finalized. cbn [block_to_ids id_to_orders].
  rewrite lookup_insert_eq. set (m := foldl _ _ _). set (ids := _ <$> os).
  pose proof (take_all_NoDup m ids Hnd) as Hres.
  pose proof (fun h => take_all_lookup m ids h) as Hmap.
  destruct (take_all m ids) as [m' res]. simpl in *. subst res.
  rewrite delete_insert_id by done. f_equal.
  - destruct f as [fo fb]. f_equal. apply map_eq. intros h. simpl in *. rewrite Hmap.
    case_decide as Hin; [|by apply foldl_insert_lookup].
    apply list_elem_of_fmap in Hin as (o & -> & Ho). by rewrite Hfresh.
  - apply omap_hashes. intros o Ho. by apply foldl_insert_lookup_in.
Qed.

(** An order taken out by a reorg is not in the pool afterwards and is not
    returned again when its block is finalised. *)
Theorem reorged_not_finalized (f f' f'' : FinalizationPool) (hs : list B256) (block : u64)
    (back done : list (OrderWithStorageData AllOrders))
    (Hkeys : map_Forall (fun h o => order_hash (order o) = h) (id_to_orders f))
    (Hreorg : reorg f hs = (f', back)) (Hfinal : finalized f' block = (f'', done)) :
  (forall h, h ∈ hs -> has_order f' h = false) /\
  (forall o, o ∈ done -> order_hash (order o) ∉ hs) /\
  (forall o, o ∈ back -> order_hash (order o) ∈ hs /\ o ∉ done).
Proof.
  assert (forall h, id_to_orders f' !! h = if decide (h ∈ hs) then None else id_to_orders f !! h)
    as Hl by (intros h; apply (reorg_lookup f hs h f' back Hreorg)).
  assert (forall o, o ∈ done -> order_hash (order o) ∉ hs) as Hdone.
  { intros o Ho. destruct (elem_of_finalized f' block o) as (h & Hh); [by rewrite Hfinal|].
    rewrite Hl in Hh. case_decide; [done|]. by rewrite (Hkeys h o Hh). }
  split; [|split; [done|]].
  - intros h Hh. unfold has_order. apply bool_decide_false. rewrite Hl, decide_True by done.
    apply is_Some_None.
  - intros o Ho. unfold reorg in Hreorg.
    pose proof (elem_of_take_all (id_to_orders f) hs o) as Hback.
    destruct (take_all _ hs) as [m res]. injection Hreorg as <- <-.
    destruct (Hback Ho) as (h & Hh & Hho). rewrite (Hkeys h o Hho). split; [done|].
    intros Hd%Hdone. by rewrite (Hkeys h o Hho) in Hd.
Qed.

(** After a reorg the hashes of the abandoned block are still filed under its
    number, so filling orders in the block that replaces it panics, even when
    every order of the abandoned block has been taken out. *)
Theorem refill_after_reorg_panics (f f' : FinalizationPool) (block : u64) (hs : list B256)
    (back os : list (OrderWithStorageData AllOrders))
    (Hfilled : is_Some (block_to_ids f !! block)) (Hreorg : reorg f hs = (f', back)) :
  new_orders f' block os = Panic.
Proof.
  assert (block_to_ids f' = block_to_ids f) as Hb.
  { unfold reorg in Hreorg. destruct (take_all _ hs). by injection Hreorg as <- _. }
  unfold new_orders. rewrite Hb. destruct Hfilled as [ids ->].
  by rewrite bool_decide_false by done.
Qed.

End finalization.

Section examples.
#[local] Existing Instance arith_Z.
#[local] Existing Instance sample_hasher.

Definition sample_filled : FinalizationPool :=
  {| id_to_orders := {[ 7 := sample_limit 7 1 1 100 10 ]}; block_to_ids := {[ 30 := [7] ]} |}%Z.

Lemma fill_then_finalize_witness :
  exists f', new_orders sample_filled 31 [sample_limit 8 1 1 100 10; sample_limit 9 2 1 90 10]
    = Ret f' /\ finalized f' 31 = (sample_filled,
      [sample_limit 8 1 1 100 10; sample_limit 9 2 1 90 10]).
Proof.
  apply (fill_then_finalize sample_filled 31
    [sample_limit 8 1 1 100 10; sample_limit 9 2 1 90 10]%Z).
  - reflexivity.
  - by_decide.
  - intros o Ho. repeat (apply elem_of_cons in Ho as [->|Ho]; [reflexivity|]).
    by apply not_elem_of_nil in Ho.
Defined.

Lemma reorged_not_finalized_witness :
  has_order (reorg sample_filled [7]%Z).1 7 = false /\
  (finalized (reorg sample_filled [7]%Z).1 30).2 = [].
Proof.
  split; [|reflexivity].
  destruct (reorged_not_finalized sample_filled _ _ [7]%Z 30 _ _
    ltac:(by_decide) (surjective_pairing _) (surjective_pairing _)) as [Hgone _].
  apply Hgone. left.
Defined.

Lemma refill_after_reorg_panics_witness :
  new_orders (reorg sample_filled [7]%Z).1 30 [sample_limit 8 1 1 100 10] = Panic.
Proof.
  apply (refill_after_reorg_panics sample_filled _ 30 [7]%Z [sample_limit 7 1 1 100 10] _).
  - by exists [7]%Z.
  - reflexivity.
Defined.
End examples.
