(* ===== verification/Storage.v ===== *)
(** * The order storage

    The model of [crates/order-pool/src/order_storage.rs]: the pools behind
    their locks.  Each lock is taken for one operation at a time, so a pool is a
    field of the state and an operation returns the new state; a panic under a
    lock is [Panic].  The metrics are left out. *)

From S2P Require Import Prelude Ray Orders Samples OrderStore.
From S2P Require SearcherPending SearcherPool LimitPending LimitPool Parked Composable.
From S2P Require LimitOrders Finalization.

Record OrderStorage := {
  limit_orders : LimitOrders.LimitOrderPool;
  searcher_orders : SearcherPool.SearcherPool;
  pending_finalization_orders : Finalization.FinalizationPool;
  filled_orders : gmap B256 Z
}.

(** [angstrom_types::orders::OrderSet]. *)
Record OrderSet := {
  limit : list (OrderWithStorageData AllOrders);
  searcher : list (OrderWithStorageData TopOfBlockOrder)
}.

Section storage.
Context `{AL : ArithLib} `{OH : OrderHasher} `{HI : HashIter}.
Implicit Types (s : OrderStorage) (id : OrderId) (h : B256).

Definition new (ids : list PoolId) : OrderStorage :=
  {| limit_orders := LimitOrders.new ids; searcher_orders := SearcherPool.new ids;
     pending_finalization_orders := Finalization.new; filled_orders := ∅ |}.

Definition set_limit s l : OrderStorage :=
  Build_OrderStorage l (searcher_orders s) (pending_finalization_orders s) (filled_orders s).
Definition set_searcher s p : OrderStorage :=
  Build_OrderStorage (limit_orders s) p (pending_finalization_orders s) (filled_orders s).
Definition set_finalization s f : OrderStorage :=
  Build_OrderStorage (limit_orders s) (searcher_orders s) f (filled_orders s).

Definition remove_pool s (key : PoolId)
    : OrderStorage * list (OrderWithStorageData AllOrders) :=
  let '(p, orders) := SearcherPool.remove_pool (searcher_orders s) key in
  let '(l, orders') := LimitOrders.remove_pool (limit_orders s) key in
  (set_limit (set_searcher s p) l, orders ++ orders').

Fixpoint apply_gas (l : LimitOrders.LimitOrderPool) (gas_updates : list UpdatedGas)
    : outcome (LimitOrders.LimitOrderPool * list AllOrders) :=
  match gas_updates with
  | [] => Ret (l, [])
  | gas_update :: rest =>
      '(l', blocked) ← LimitOrders.update_gas l gas_update;
      '(l'', blocked') ← apply_gas l' rest;
      Ret (l'', blocked ++ blocked')
  end.

Definition apply_new_gas_and_return_blocked_orders s (gas_updates : list UpdatedGas)
    : outcome (OrderStorage * list AllOrders) :=
  '(l, blocked) ← apply_gas (limit_orders s) gas_updates;
  Ret (set_limit s l, blocked).

Definition fetch_status_of_order s (order : B256) : outcome (option OrderStatus) :=
  if bool_decide (is_Some (filled_orders s !! order)) &&
     Finalization.has_order (pending_finalization_orders s) order
  then Ret (Some Filled)
  else if SearcherPool.has_order (searcher_orders s) order then Ret (Some Pending)
  else LimitOrders.get_order_status (limit_orders s) order.

Definition get_orders_by_pool s (pool : PoolId) (location : OrderLocation) : list AllOrders :=
  match location with
  | Limit => LimitOrders.get_all_orders_from_pool (limit_orders s) pool
  | Searcher => SearcherPool.get_all_orders_from_pool (searcher_orders s) pool
  end.

(** [order.try_map_inner(Ok).ok()] *)
Definition same_order (o : OrderWithStorageData AllOrders)
    : option (OrderWithStorageData AllOrders) := try_map_inner Some o.

Definition remove_order_from_id s id : OrderStorage * option (OrderWithStorageData AllOrders) :=
  match id_location id with
  | Limit =>
      let '(l, r) := LimitOrders.remove_order (limit_orders s) id in
      (set_limit s l, r ≫= same_order)
  | Searcher =>
      let '(p, r) := SearcherPool.remove_order (searcher_orders s) id in
      (set_searcher s p, r ≫= SearcherPool.as_all_orders)
  end.

Definition get_order_from_id s id : option (OrderWithStorageData AllOrders) :=
  match id_location id with
  | Limit => LimitOrders.get_order (limit_orders s) id ≫= same_order
  | Searcher =>
      SearcherPool.get_order (searcher_orders s) (id_pool_id id) (id_hash id)
        ≫= SearcherPool.as_all_orders
  end.

Definition purge_tob_orders s : OrderStorage * list (OrderWithStorageData TopOfBlockOrder) :=
  let '(p, r) := SearcherPool.remove_all_cancelled_orders (searcher_orders s) in
  (set_searcher s p, r).

Definition purge_user_orders s : OrderStorage * list (OrderWithStorageData AllOrders) :=
  let '(l, r) := LimitOrders.remove_all_cancelled_orders (limit_orders s) in
  (set_limit s l, r).

Definition cancel_order s id : OrderStorage * bool :=
  if Finalization.has_order (pending_finalization_orders s) (id_hash id) then (s, true)
  else
    match id_location id with
    | Limit =>
        let '(l, b) := LimitOrders.cancel_order (limit_orders s) id in (set_limit s l, b)
    | Searcher =>
        let '(p, b) := SearcherPool.cancel_order (searcher_orders s) id in (set_searcher s p, b)
    end.

Fixpoint park_all (l : LimitOrders.LimitOrderPool) (order_info : list OrderId)
    : outcome LimitOrders.LimitOrderPool :=
  match order_info with
  | [] => Ret l
  | id :: rest =>
      l' ← match id_location id with
           | Limit => LimitOrders.park_order l id
           | Searcher => Ret l
           end;
      park_all l' rest
  end.

Definition park_orders s (order_info : list OrderId) : outcome OrderStorage :=
  l ← park_all (limit_orders s) order_info; Ret (set_limit s l).

(** [get_all_pool_ids().flat_map(|id| f(id).unwrap_or_else(panic))] *)
Fixpoint flat_map_unwrap {A B} (f : A -> option (list B)) (xs : list A) : outcome (list B) :=
  match xs with
  | [] => Ret []
  | x :: xs' => ys ← unwrap (f x); zs ← flat_map_unwrap f xs'; Ret (ys ++ zs)
  end.

Definition all_top_tob_orders s : outcome (list (OrderWithStorageData TopOfBlockOrder)) :=
  flat_map_unwrap (SearcherPool.get_orders_for_pool_including_canceled (searcher_orders s))
    (SearcherPool.get_all_pool_ids (searcher_orders s)).

Definition top_tob_orders s : outcome (list (OrderWithStorageData TopOfBlockOrder)) :=
  flat_map_unwrap (SearcherPool.get_orders_for_pool (searcher_orders s))
    (SearcherPool.get_all_pool_ids (searcher_orders s)).

Definition top_orders_with_hashes s (hashes : gset B256)
    : outcome (list (OrderWithStorageData TopOfBlockOrder)) :=
  flat_map_unwrap
    (fun pool => SearcherPool.get_orders_for_pool_with_hashes (searcher_orders s) pool hashes)
    (SearcherPool.get_all_pool_ids (searcher_orders s)).

Definition add_new_limit_order s (o : OrderWithStorageData AllOrders)
    : OrderStorage * result unit LimitPool.LimitPoolError :=
  let '(l, r) :=
    if is_vanilla (order o) then LimitOrders.add_vanilla_order (limit_orders s) o
    else LimitOrders.add_composable_order (limit_orders s) o in
  (set_limit s l, r).

Definition add_new_searcher_order s (o : OrderWithStorageData TopOfBlockOrder)
    : OrderStorage * result unit SearcherPool.SearcherPoolError :=
  let '(p, r) := SearcherPool.add_searcher_order (searcher_orders s) o in (set_searcher s p, r).

Definition add_filled_orders s (block_number : u64) (os : list (OrderWithStorageData AllOrders))
    : outcome OrderStorage :=
  f ← Finalization.new_orders (pending_finalization_orders s) block_number os;
  Ret (set_finalization s f).

Definition finalized_block s (block_number : u64) : OrderStorage :=
  set_finalization s (Finalization.finalized (pending_finalization_orders s) block_number).1.

Definition reorg s (order_hashes : list B256)
    : OrderStorage * list (OrderWithStorageData AllOrders) :=
  let '(f, os) := Finalization.reorg (pending_finalization_orders s) order_hashes in
  (set_finalization s f, os).

Definition remove_searcher_order s id : OrderStorage * option (OrderWithStorageData AllOrders) :=
  let '(p, r) := SearcherPool.remove_order (searcher_orders s) id in
  (set_searcher s p, r ≫= SearcherPool.as_all_orders).

Definition remove_limit_order s id : OrderStorage * option (OrderWithStorageData AllOrders) :=
  let '(l, r) := LimitOrders.remove_order (limit_orders s) id in (set_limit s l, r).

Definition remove_order s id : OrderStorage * option (OrderWithStorageData AllOrders) :=
  match id_location id with
  | Limit => remove_limit_order s id
  | Searcher => remove_searcher_order s id
  end.

Definition remove_parked_order s id : OrderStorage * option (OrderWithStorageData AllOrders) :=
  let '(l, r) := LimitOrders.remove_parked_order (limit_orders s) id in
  let s' := set_limit s l in
  match r with
  | Some o => (s', Some o)
  | None => remove_searcher_order s' id
  end.

Definition get_all_orders_with_ingoing_cancellations s : outcome OrderSet :=
  searcher ← all_top_tob_orders s;
  Ret {| limit := LimitOrders.get_all_orders_with_parked_and_cancelled (limit_orders s);
         searcher := searcher |}.

Definition get_all_orders s : outcome OrderSet :=
  searcher ← top_tob_orders s;
  Ret {| limit := LimitOrders.get_all_orders (limit_orders s); searcher := searcher |}.

Definition get_all_orders_with_parked s : outcome OrderSet :=
  searcher ← top_tob_orders s;
  Ret {| limit := LimitOrders.get_all_orders_with_parked (limit_orders s);
         searcher := searcher |}.

Definition get_all_orders_with_hashes s (limit_hashes searcher_hashes : gset B256)
    : outcome OrderSet :=
  searcher ← top_orders_with_hashes s searcher_hashes;
  Ret {| limit := LimitOrders.get_all_orders_with_hashes (limit_orders s) limit_hashes;
         searcher := searcher |}.

Definition new_pool s (pool : NewInitializedPool) : outcome OrderStorage :=
  l ← LimitOrders.new_pool (limit_orders s) pool;
  p ← SearcherPool.new_pool (searcher_orders s) pool;
  Ret (set_searcher (set_limit s l) p).

Definition remove_invalid_order s (order_hash : B256) : OrderStorage :=
  set_limit
    (set_searcher s (SearcherPool.remove_invalid_order (searcher_orders s) order_hash))
    (LimitOrders.remove_invalid_order (limit_orders s) order_hash).

(** ** Removal by id *)

Definition storage_ok s : Prop := LimitOrders.limits_ok (limit_orders s).

#[global] Instance storage_ok_dec s : Decision (storage_ok s).
Proof.
  unfold storage_ok, LimitOrders.limits_ok, LimitPool.pools_ok, Composable.composable_ok. apply _.
Defined.

Lemma storage_ok_new ids : storage_ok (new ids).
Proof. apply LimitOrders.limits_ok_new. Qed.

Lemma same_order_id o : same_order o = Some o.
Proof. by destruct o. Qed.

Lemma bind_same_order (r : option (OrderWithStorageData AllOrders)) : r ≫= same_order = r.
Proof. destruct r; [apply same_order_id|done]. Qed.

Lemma as_all_orders_Some (o : OrderWithStorageData TopOfBlockOrder) :
  exists o', SearcherPool.as_all_orders o = Some o' /\ order o' = TOB (order o) /\
    order_id o' = order_id o.
Proof. by eexists. Qed.

(** Two ids that name different places of the storage. *)
Definition other_place (a b : OrderId) : Prop :=
  id_location a <> id_location b \/ id_pool_id a <> id_pool_id b \/ id_hash a <> id_hash b.

#[global] Instance other_place_dec a b : Decision (other_place a b).
Proof. unfold other_place. apply _. Defined.

Lemma remove_order_from_id_alt s id : remove_order_from_id s id = remove_order s id.
Proof.
  unfold remove_order_from_id, remove_order, remove_limit_order, remove_searcher_order.
  destruct (id_location id); [|done].
  destruct (LimitOrders.remove_order _ _) as [l r]. by rewrite bind_same_order.
Qed.

Lemma storage_remove_order_law s id : storage_ok s -> exists s',
  remove_order s id = (s', get_order_from_id s id) /\ storage_ok s' /\
  pending_finalization_orders s' = pending_finalization_orders s /\
  forall id', other_place id id' -> get_order_from_id s' id' = get_order_from_id s id'.
Proof.
  intros Hs. unfold remove_order, remove_limit_order, remove_searcher_order, get_order_from_id.
  destruct (id_location id) eqn:El.
  - destruct (LimitOrders.limit_orders_remove_order_law (limit_orders s) id Hs) as (l & -> & Hl & Hf).
    rewrite bind_same_order. eexists. split; [done|]. split; [done|]. split; [done|].
    intros id' Ho. destruct (id_location id') eqn:El'; [|done]. cbn [set_limit limit_orders].
    rewrite Hf; [done|]. intros [??]. destruct Ho as [?|[?|?]]; congruence.
  - destruct (SearcherPool.searcher_pool_remove_order_law (searcher_orders s) id) as (p & -> & Hf).
    eexists. split; [done|]. split; [done|]. split; [done|].
    intros id' Ho. destruct (id_location id') eqn:El'; [done|].
    cbn [set_searcher searcher_orders].
    rewrite Hf, decide_False; [done|]. intros [??]. destruct Ho as [?|[?|?]]; congruence.
Qed.

(** ** Removals only take orders out *)

(** Every order of [s'] is stored in [s], at the same place; no pool is gone. *)
Record shrinks s s' : Prop := {
  shrinks_pending : forall pool h o,
    LimitPool.in_pending (LimitOrders.limit_orders (limit_orders s')) pool h = Some o ->
    LimitPool.in_pending (LimitOrders.limit_orders (limit_orders s)) pool h = Some o;
  shrinks_parked : forall pool h o,
    LimitPool.in_parked (LimitOrders.limit_orders (limit_orders s')) pool h = Some o ->
    LimitPool.in_parked (LimitOrders.limit_orders (limit_orders s)) pool h = Some o;
  shrinks_composable : forall pool h o,
    Composable.get_order (LimitOrders.composable_orders (limit_orders s')) pool h = Some o ->
    Composable.get_order (LimitOrders.composable_orders (limit_orders s)) pool h = Some o;
  shrinks_searcher : forall pool h o,
    SearcherPool.get_order (searcher_orders s') pool h = Some o ->
    SearcherPool.get_order (searcher_orders s) pool h = Some o;
  shrinks_limit_pools : forall pool,
    is_Some (LimitPool.pending_orders (LimitOrders.limit_orders (limit_orders s)) !! pool) ->
    is_Some (LimitPool.pending_orders (LimitOrders.limit_orders (limit_orders s')) !! pool)
}.

#[global] Instance shrinks_preorder : PreOrder shrinks.
Proof.
  split.
  - by split.
  - intros s1 s2 s3 [] []. by split; eauto.
Qed.

Lemma limit_pending_shrinks p pool h pool' h' o :
  LimitPool.in_pending (LimitPool.remove_pending p pool h).1 pool' h' = Some o ->
  LimitPool.in_pending p pool' h' = Some o.
Proof.
  unfold LimitPool.remove_pending.
  destruct (LimitPool.pending_orders p !! pool) as [q|] eqn:E; [|done].
  destruct (LimitPending.remove_order q h) as [q' r] eqn:Er. cbn [fst].
  rewrite LimitPool.in_pending_set_pending. case_decide as Hd; [|done]. subst pool'.
  pose proof (LimitPending.limit_pending_orders_remove_order q h) as Ho. rewrite Er in Ho. cbn in Ho.
  rewrite Ho. intros [_ H]%lookup_delete_Some.
  unfold LimitPool.in_pending. by rewrite E.
Qed.

Lemma composable_shrinks c pool h pool' h' o :
  Composable.get_order (Composable.remove_order c pool h).1 pool' h' = Some o ->
  Composable.get_order c pool' h' = Some o.
Proof.
  unfold Composable.remove_order, Composable.get_order.
  destruct (Composable.map c !! pool) as [q|] eqn:E; [|done].
  destruct (LimitPending.remove_order q h) as [q' r] eqn:Er. cbn.
  pose proof (LimitPending.limit_pending_orders_remove_order q h) as Ho. rewrite Er in Ho. cbn in Ho.
  destruct (decide (pool = pool')) as [<-|Hne].
  - rewrite lookup_insert_eq, E. cbn. unfold LimitPending.get_order. rewrite Ho.
    by intros [_ ?]%lookup_delete_Some.
  - by rewrite lookup_insert_ne.
Qed.

Lemma limit_parked_shrinks p pool h pool' h' o :
  LimitPool.in_parked (LimitPool.remove_parked_order p pool h).1 pool' h' = Some o ->
  LimitPool.in_parked p pool' h' = Some o.
Proof.
  destruct (LimitPool.remove_parked_order_spec p pool h) as (p' & -> & _ & Hl). cbn [fst].
  rewrite Hl. by case_decide.
Qed.

Lemma remove_searcher_order_shrinks s id : shrinks s (remove_searcher_order s id).1.
Proof.
  unfold remove_searcher_order.
  destruct (SearcherPool.searcher_pool_remove_order_law (searcher_orders s) id) as (p & -> & Hf).
  split; try done. cbn. intros pool h o. rewrite Hf. by case_decide.
Qed.

Lemma remove_parked_pending p pool h :
  LimitPool.pending_orders (LimitPool.remove_parked_order p pool h).1 =
  LimitPool.pending_orders p.
Proof. by destruct (LimitPool.remove_parked_order_spec p pool h) as (p' & -> & H & _). Qed.

Lemma remove_pending_parked p pool h :
  LimitPool.parked_orders (LimitPool.remove_pending p pool h).1 = LimitPool.parked_orders p.
Proof.
  unfold LimitPool.remove_pending. destruct (LimitPool.pending_orders p !! pool) as [q|]; [|done].
  by destruct (LimitPending.remove_order q h).
Qed.

Lemma remove_pending_pools p pool h pool' :
  is_Some (LimitPool.pending_orders p !! pool') ->
  is_Some (LimitPool.pending_orders (LimitPool.remove_pending p pool h).1 !! pool').
Proof.
  unfold LimitPool.remove_pending. destruct (LimitPool.pending_orders p !! pool) as [q|]; [|done].
  destruct (LimitPending.remove_order q h). cbn. intros Hs.
  by apply lookup_insert_is_Some'; right.
Qed.

Lemma limit_remove_shrinks p pool h : let p' := (LimitPool.remove_order p pool h).1 in
  (forall pool' h' o, LimitPool.in_pending p' pool' h' = Some o ->
    LimitPool.in_pending p pool' h' = Some o) /\
  (forall pool' h' o, LimitPool.in_parked p' pool' h' = Some o ->
    LimitPool.in_parked p pool' h' = Some o) /\
  (forall pool', is_Some (LimitPool.pending_orders p !! pool') ->
    is_Some (LimitPool.pending_orders p' !! pool')).
Proof.
  cbn zeta. rewrite LimitPool.remove_order_alt.
  pose proof (limit_pending_shrinks p pool h) as Hp.
  pose proof (remove_pending_parked p pool h) as Hk.
  pose proof (remove_pending_pools p pool h) as Hd.
  destruct (LimitPool.remove_pending p pool h) as [p1 [o1|]]; cbn [fst] in *.
  - split; [done|]. split; [|done]. unfold LimitPool.in_parked. by rewrite Hk.
  - split; [|split; [|by rewrite remove_parked_pending]]; intros pool' h' o Ho.
    + apply Hp. unfold LimitPool.in_pending in *. by rewrite remove_parked_pending in Ho.
    + apply limit_parked_shrinks in Ho. unfold LimitPool.in_parked in *. by rewrite Hk in Ho.
Qed.

Lemma remove_limit_order_shrinks s id : shrinks s (remove_limit_order s id).1.
Proof.
  unfold remove_limit_order, LimitOrders.remove_order.
  pose proof (limit_remove_shrinks (LimitOrders.limit_orders (limit_orders s)) (id_pool_id id)
    (id_hash id)) as (Hp & Hk & Hd).
  pose proof (composable_shrinks (LimitOrders.composable_orders (limit_orders s)) (id_pool_id id)
    (id_hash id)) as Hc.
  destruct (LimitPool.remove_order _ _ _) as [p [o|]]; [by split|].
  by destruct (Composable.remove_order _ _ _) as [c r].
Qed.

Lemma remove_order_shrinks s id : shrinks s (remove_order s id).1.
Proof.
  unfold remove_order. destruct (id_location id).
  - apply remove_limit_order_shrinks.
  - apply remove_searcher_order_shrinks.
Qed.

Lemma remove_parked_order_shrinks s id : shrinks s (remove_parked_order s id).1.
Proof.
  unfold remove_parked_order, LimitOrders.remove_parked_order.
  pose proof (limit_parked_shrinks (LimitOrders.limit_orders (limit_orders s)) (id_pool_id id)
    (id_hash id)) as Hk.
  pose proof (remove_parked_pending (LimitOrders.limit_orders (limit_orders s)) (id_pool_id id)
    (id_hash id)) as Hp.
  pose proof (composable_shrinks (LimitOrders.composable_orders (limit_orders s)) (id_pool_id id)
    (id_hash id)) as Hc.
  destruct (LimitPool.remove_parked_order _ _ _) as [p r]. cbn [fst] in *.
  assert (forall c, (forall pool h o, Composable.get_order c pool h = Some o ->
      Composable.get_order (LimitOrders.composable_orders (limit_orders s)) pool h = Some o) ->
    shrinks s (set_limit s (LimitOrders.Build_LimitOrderPool p c))) as Hs.
  { intros c Hc'. split; try done; cbn.
    - intros pool h o. unfold LimitPool.in_pending. by rewrite Hp.
    - intros pool. by rewrite Hp. }
  destruct r as [o|]; [by apply Hs|]. cbn [LimitOrders.with_limit LimitOrders.composable_orders].
  destruct (Composable.remove_order _ _ _) as [c [o|]]; cbn [fst] in Hc; [by apply Hs|].
  etrans; [by apply Hs|]. apply remove_searcher_order_shrinks.
Qed.

Lemma purge_tob_orders_shrinks s : shrinks s (purge_tob_orders s).1.
Proof.
  unfold purge_tob_orders, SearcherPool.remove_all_cancelled_orders. split; try done. cbn.
  intros pool h o. unfold SearcherPool.get_order. cbn. rewrite lookup_fmap.
  destruct (SearcherPool.searcher_orders _ !! pool) as [q|]; [|done]. cbn.
  intros Ho. eapply lookup_weaken; [exact Ho|]. apply (remove_each_subseteq SearcherPending.orders).
  intros p h'. rewrite SearcherPending.searcher_pending_orders_remove_order. apply delete_subseteq.
Qed.

Lemma purge_user_orders_shrinks s : shrinks s (purge_user_orders s).1.
Proof.
  unfold purge_user_orders, LimitOrders.remove_all_cancelled_orders,
    LimitPool.remove_all_cancelled_orders. split; try done; cbn.
  - intros pool h o. unfold LimitPool.in_pending. cbn. rewrite lookup_fmap.
    destruct (LimitPool.pending_orders _ !! pool) as [q|]; [|done]. cbn.
    intros Ho. eapply lookup_weaken; [exact Ho|]. apply (remove_each_subseteq LimitPending.orders).
    intros p h'. rewrite LimitPending.limit_pending_orders_remove_order. apply delete_subseteq.
  - intros pool h o. unfold LimitPool.in_parked. cbn. rewrite lookup_fmap.
    destruct (LimitPool.parked_orders _ !! pool) as [q|]; [|done]. cbn.
    intros Ho. eapply lookup_weaken; [exact Ho|]. apply (remove_each_subseteq Parked.parked).
    intros p h'. cbn. apply delete_subseteq.
  - intros pool [q Hq]. rewrite lookup_fmap, Hq. by eexists.
Qed.

(** No order is pending at the place of [id]. *)
Definition gone s id : Prop :=
  match id_location id with
  | Limit =>
      LimitPool.in_pending (LimitOrders.limit_orders (limit_orders s))
        (id_pool_id id) (id_hash id) = None
  | Searcher =>
      SearcherPool.get_order (searcher_orders s) (id_pool_id id) (id_hash id) = None
  end.

Lemma gone_shrinks s s' id : shrinks s s' -> gone s id -> gone s' id.
Proof.
  unfold gone. intros Hs Hg. destruct (id_location id); apply eq_None_not_Some; intros [o Ho].
  - by rewrite (shrinks_pending _ _ Hs _ _ _ Ho) in Hg.
  - by rewrite (shrinks_searcher _ _ Hs _ _ _ Ho) in Hg.
Qed.

Lemma remove_pending_gone p pool h :
  LimitPool.in_pending (LimitPool.remove_pending p pool h).1 pool h = None.
Proof.
  unfold LimitPool.remove_pending. destruct (LimitPool.pending_orders p !! pool) as [q|] eqn:E.
  - pose proof (LimitPending.limit_pending_orders_remove_order q h) as Ho.
    destruct (LimitPending.remove_order q h) as [q' r]. cbn in *.
    rewrite LimitPool.in_pending_set_pending, decide_True, Ho by done. apply lookup_delete_eq.
  - unfold LimitPool.in_pending. cbn. by rewrite E.
Qed.

Lemma limit_remove_gone p pool h :
  LimitPool.in_pending (LimitPool.remove_order p pool h).1 pool h = None.
Proof.
  rewrite LimitPool.remove_order_alt. pose proof (remove_pending_gone p pool h) as Hg.
  destruct (LimitPool.remove_pending p pool h) as [p1 [o|]]; cbn [fst] in *; [done|].
  unfold LimitPool.in_pending in *. by rewrite remove_parked_pending.
Qed.

Lemma remove_order_gone s id : gone (remove_order s id).1 id.
Proof.
  unfold gone, remove_order. destruct (id_location id).
  - unfold remove_limit_order, LimitOrders.remove_order.
    pose proof (limit_remove_gone (LimitOrders.limit_orders (limit_orders s)) (id_pool_id id)
      (id_hash id)) as Hg.
    destruct (LimitPool.remove_order _ _ _) as [p [o|]]; [done|].
    by destruct (Composable.remove_order _ _ _).
  - unfold remove_searcher_order.
    destruct (SearcherPool.searcher_pool_remove_order_law (searcher_orders s) id)
      as (p & -> & Hf). cbn. by rewrite Hf, decide_True.
Qed.

(** Removing an order by its id returns exactly what the lookup by id finds,
    keeps the pools well indexed, leaves no pending order at the place, and
    changes the lookup of no id that names another pool, hash or location. *)
Theorem storage_remove_exact (s : OrderStorage) (id : OrderId) (Hs : storage_ok s) :
  exists s', remove_order_from_id s id = (s', get_order_from_id s id) /\ storage_ok s' /\
    gone s' id /\
    forall id', other_place id id' -> get_order_from_id s' id' = get_order_from_id s id'.
Proof.
  rewrite remove_order_from_id_alt. pose proof (remove_order_gone s id) as Hg.
  destruct (storage_remove_order_law s id Hs) as (s' & Hr & ? & _ & ?).
  rewrite Hr in Hg. eauto.
Qed.

(** ** The order sets *)

Lemma flat_map_unwrap_Ret {A B} (f : A -> option (list B)) (xs : list A) :
  (forall x, x ∈ xs -> is_Some (f x)) -> exists l, flat_map_unwrap f xs = Ret l /\
  forall b, b ∈ l <-> exists x l', x ∈ xs /\ f x = Some l' /\ b ∈ l'.
Proof.
  induction xs as [|x xs IH]; intros Hf; simpl.
  - exists []. split; [done|]. intros b. split; [by intros ?%not_elem_of_nil|].
    intros (? & ? & ?%not_elem_of_nil & _). done.
  - destruct (Hf x (list_elem_of_here _ _)) as [l' Hl']. rewrite Hl'. simpl.
    destruct IH as (l & -> & Hl); [intros; apply Hf; by right|]. simpl.
    eexists. split; [done|]. intros b. rewrite elem_of_app, Hl.
    setoid_rewrite elem_of_cons. naive_solver.
Qed.

Lemma elem_of_pools (p : SearcherPool.SearcherPool) (f : SearcherPending.PendingPool -> list _)
    (P : OrderWithStorageData TopOfBlockOrder -> Prop) :
  (forall q o, o ∈ f q <-> (exists h, SearcherPending.orders q !! h = Some o) /\ P o) ->
  exists l, flat_map_unwrap (fun pool => f <$> SearcherPool.searcher_orders p !! pool)
    (SearcherPool.get_all_pool_ids p) = Ret l /\
  forall o, o ∈ l <-> (exists pool h, SearcherPool.get_order p pool h = Some o) /\ P o.
Proof.
  intros Hf. unfold SearcherPool.get_all_pool_ids.
  destruct (flat_map_unwrap_Ret (fun pool => f <$> SearcherPool.searcher_orders p !! pool)
    (hm_keys (SearcherPool.searcher_orders p))) as (l & -> & Hl).
  { intros pool [q Hq]%elem_of_hm_keys. rewrite Hq. by eexists. }
  exists l. split; [done|]. intros o. rewrite Hl. unfold SearcherPool.get_order. split.
  - intros (pool & l' & _ & Hq & Ho). apply fmap_Some in Hq as (q & Hq & ->).
    apply Hf in Ho as [(h & Ho) HP]. split; [|done]. exists pool, h. by rewrite Hq.
  - intros [(pool & h & Ho) HP]. apply bind_Some in Ho as (q & Hq & Ho).
    exists pool, (f q). rewrite elem_of_hm_keys, Hq. split; [by eexists|]. split; [done|].
    apply Hf. eauto.
Qed.

Lemma top_tob_orders_spec s : exists l, top_tob_orders s = Ret l /\
  forall o, o ∈ l <-> (exists pool h, SearcherPool.get_order (searcher_orders s) pool h = Some o)
    /\ cancel_requested o = false.
Proof.
  apply elem_of_pools. intros q o. unfold SearcherPending.get_all_orders.
  rewrite list_elem_of_filter, elem_of_hm_values. tauto.
Qed.

Lemma all_top_tob_orders_spec s : exists l, all_top_tob_orders s = Ret l /\
  forall o, o ∈ l <-> (exists pool h, SearcherPool.get_order (searcher_orders s) pool h = Some o)
    /\ True.
Proof.
  apply elem_of_pools. intros q o. unfold SearcherPending.get_all_orders_with_cancelled.
  rewrite elem_of_hm_values. tauto.
Qed.

Lemma elem_of_limit_pending (P : OrderWithStorageData AllOrders -> Prop) f
    (p : LimitPool.LimitPool) (o : OrderWithStorageData AllOrders) :
  (forall q o, o ∈ f q <-> (exists h, LimitPending.orders q !! h = Some o) /\ P o) ->
  o ∈ (hm_values (LimitPool.pending_orders p) ≫= f) <->
  (exists pool h, LimitPool.in_pending p pool h = Some o) /\ P o.
Proof.
  intros Hf. rewrite list_elem_of_bind. unfold LimitPool.in_pending. split.
  - intros (q & [(h & Ho) HP]%Hf & [pool Hq]%elem_of_hm_values). split; [|done].
    exists pool, h. by rewrite Hq.
  - intros [(pool & h & Ho) HP]. apply bind_Some in Ho as (q & Hq & Ho). exists q.
    rewrite Hf, elem_of_hm_values. eauto.
Qed.

Lemma elem_of_limit_parked (p : LimitPool.LimitPool) (o : OrderWithStorageData AllOrders) :
  o ∈ (hm_values (LimitPool.parked_orders p) ≫= Parked.get_all_orders_with_cancelled) <->
  exists pool h, LimitPool.in_parked p pool h = Some o.
Proof.
  rewrite list_elem_of_bind. unfold LimitPool.in_parked, Parked.get_all_orders_with_cancelled.
  split.
  - intros (q & [h Ho]%elem_of_hm_values & [pool Hq]%elem_of_hm_values).
    exists pool, h. by rewrite Hq.
  - intros (pool & h & Ho). apply bind_Some in Ho as (q & Hq & Ho). exists q.
    rewrite !elem_of_hm_values. eauto.
Qed.

(** The order sets never panic and are exact: the orders handed to matching
    are the pending limit and the top-of-block orders whose cancellation was
    not requested; the orders a proposal is built from are all of them, parked
    and cancelled ones included. *)
Theorem order_sets_exact (s : OrderStorage) :
  (exists set, get_all_orders s = Ret set /\
    (forall o, o ∈ limit set <-> (exists pool h,
      LimitPool.in_pending (LimitOrders.limit_orders (limit_orders s)) pool h = Some o) /\
      cancel_requested o = false) /\
    (forall o, o ∈ searcher set <-> (exists pool h,
      SearcherPool.get_order (searcher_orders s) pool h = Some o) /\
      cancel_requested o = false)) /\
  (exists set, get_all_orders_with_ingoing_cancellations s = Ret set /\
    (forall o, o ∈ limit set <-> (exists pool h,
      LimitPool.in_pending (LimitOrders.limit_orders (limit_orders s)) pool h = Some o \/
      LimitPool.in_parked (LimitOrders.limit_orders (limit_orders s)) pool h = Some o)) /\
    (forall o, o ∈ searcher set <-> (exists pool h,
      SearcherPool.get_order (searcher_orders s) pool h = Some o))).
Proof.
  unfold get_all_orders, get_all_orders_with_ingoing_cancellations.
  destruct (top_tob_orders_spec s) as (l & -> & Hl).
  destruct (all_top_tob_orders_spec s) as (l' & -> & Hl'). split.
  - eexists. split; [done|]. split; [|done]. intros o.
    apply (elem_of_limit_pending (fun o => cancel_requested o = false)
      LimitPending.get_all_orders).
    intros q o'. unfold LimitPending.get_all_orders.
    rewrite list_elem_of_filter, elem_of_hm_values. tauto.
  - eexists. split; [done|]. cbn [limit searcher].
    split; [|intros o; rewrite Hl'; tauto]. intros o.
    unfold LimitOrders.get_all_orders_with_parked_and_cancelled,
      LimitPool.get_all_orders_with_cancelled_and_parked.
    rewrite elem_of_app, elem_of_limit_parked, (elem_of_limit_pending (fun _ => True)).
    2: { intros q o'. unfold LimitPending.get_all_orders_with_cancelled.
         rewrite elem_of_hm_values. tauto. }
    split; [intros [[(pool & h & ?) _]|(pool & h & ?)]; eauto|].
    intros (pool & h & [?|?]); eauto.
Qed.

(** ** Cancellation *)

(** A cancelled top-of-block order is marked and kept: matching no longer
    gets any order from its place, a proposal still does, and every other
    lookup is unchanged. *)
Theorem cancelled_tob_kept_for_proposal (s : OrderStorage) (id : OrderId)
    (o : OrderWithStorageData TopOfBlockOrder)
    (Hloc : id_location id = Searcher)
    (Hopen : Finalization.has_order (pending_finalization_orders s) (id_hash id) = false)
    (Ho : SearcherPool.get_order (searcher_orders s) (id_pool_id id) (id_hash id) = Some o) :
  exists s' matching proposal, cancel_order s id = (s', true) /\
    SearcherPool.get_order (searcher_orders s') (id_pool_id id) (id_hash id) =
      Some (set_cancel_requested o) /\
    top_tob_orders s' = Ret matching /\ ~ set_cancel_requested o ∈ matching /\
    all_top_tob_orders s' = Ret proposal /\ set_cancel_requested o ∈ proposal /\
    forall id', other_place id id' -> get_order_from_id s' id' = get_order_from_id s id'.
Proof.
  unfold cancel_order. rewrite Hopen, Hloc.
  destruct (SearcherPool.searcher_pool_cancel_order_law (searcher_orders s) id) as (p & Hc & Hf).
  rewrite Hc, Ho. set (s' := set_searcher s p).
  assert (SearcherPool.get_order (searcher_orders s') (id_pool_id id) (id_hash id) =
    Some (set_cancel_requested o)) as Ho'.
  { cbn [s' set_searcher searcher_orders]. by rewrite Hf, decide_True, Ho. }
  destruct (top_tob_orders_spec s') as (m & Hm & Hmi).
  destruct (all_top_tob_orders_spec s') as (a & Ha & Hai).
  exists s', m, a. split; [by rewrite bool_decide_true|]. split; [done|]. split; [done|].
  split; [by intros [_ ?]%Hmi|]. split; [done|]. split; [apply Hai; eauto|].
  intros id' Hne. unfold get_order_from_id. destruct (id_location id') eqn:El; [done|].
  cbn [s' set_searcher searcher_orders]. rewrite Hf, decide_False; [done|].
  intros [??]. destruct Hne as [?|[?|?]]; congruence.
Qed.

(** ** Status *)

(** One operation of the storage. *)
Inductive storage_step : OrderStorage -> OrderStorage -> Prop :=
| step_remove_pool s key : storage_step s (remove_pool s key).1
| step_gas s s' gas blocked :
    apply_new_gas_and_return_blocked_orders s gas = Ret (s', blocked) -> storage_step s s'
| step_remove_from_id s id : storage_step s (remove_order_from_id s id).1
| step_purge_tob s : storage_step s (purge_tob_orders s).1
| step_purge_user s : storage_step s (purge_user_orders s).1
| step_cancel s id : storage_step s (cancel_order s id).1
| step_park s s' ids : park_orders s ids = Ret s' -> storage_step s s'
| step_add_limit s o : storage_step s (add_new_limit_order s o).1
| step_add_searcher s o : storage_step s (add_new_searcher_order s o).1
| step_filled s s' block os : add_filled_orders s block os = Ret s' -> storage_step s s'
| step_finalized s block : storage_step s (finalized_block s block)
| step_reorg s hs : storage_step s (reorg s hs).1
| step_remove s id : storage_step s (remove_order s id).1
| step_remove_parked s id : storage_step s (remove_parked_order s id).1
| step_new_pool s s' np : new_pool s np = Ret s' -> storage_step s s'
| step_remove_invalid s h : storage_step s (remove_invalid_order s h).

(** Splits the pairs and outcomes of an operation. *)
Ltac split_ops := repeat match goal with
  | |- context [let '(_, _) := ?x in _] => destruct x
  | |- context [match ?x with _ => _ end] => destruct x
  end.

Lemma storage_step_filled s s' : storage_step s s' -> filled_orders s' = filled_orders s.
Proof.
  destruct 1.
  all: try by (cbv delta [remove_pool remove_order_from_id purge_tob_orders purge_user_orders
    cancel_order add_new_limit_order add_new_searcher_order finalized_block reorg remove_order
    remove_limit_order remove_searcher_order remove_invalid_order] beta; split_ops).
  all: try by repeat match goal with
    | H : _ = Ret _ |- _ => apply bind_Ret in H as ([] & _ & H) || apply bind_Ret in H as (? & _ & H)
    | H : Ret _ = Ret _ |- _ => injection H as <-
    end.
  unfold remove_parked_order, remove_searcher_order.
  destruct (LimitOrders.remove_parked_order _ _) as [l [o|]]; [done|]. by split_ops.
Qed.

Lemma reachable_filled s ids : rtc storage_step (new ids) s -> filled_orders s = ∅.
Proof.
  intros Hr. change (filled_orders s = filled_orders (new ids)).
  induction Hr as [|s1 s2 s3 H1 _ IH]; [done|]. by rewrite IH, (storage_step_filled s1 s2).
Qed.

Lemma status_not_filled l h : LimitOrders.get_order_status l h <> Ret (Some Filled).
Proof.
  unfold LimitOrders.get_order_status, LimitPool.get_order_status.
  destruct (find_map _ _); [done|]. destruct (find_map _ _) as [o|]; [|done].
  destruct (is_currently_valid o) as [e|]; [|done]. simpl. by destruct e.
Qed.

(** No operation of the storage records a filled order, so the status of an
    order is never reported as filled, although the status has that case. *)
Theorem status_never_filled (s : OrderStorage) (ids : list PoolId) (h : B256)
    (Hr : rtc storage_step (new ids) s) :
  fetch_status_of_order s h <> Ret (Some Filled).
Proof.
  unfold fetch_status_of_order. rewrite (reachable_filled s ids Hr), lookup_empty.
  rewrite bool_decide_false by apply is_Some_None. simpl.
  destruct (SearcherPool.has_order _ _); [done|]. apply status_not_filled.
Qed.
End storage.

Section examples.
#[local] Existing Instance arith_Z.
#[local] Existing Instance sample_hasher.
#[local] Existing Instance iter_by_encoding.

(** Pool 1 with a limit order 7 and a top-of-block order 9 of user 4. *)
Definition sample_storage : OrderStorage :=
  (add_new_searcher_order
    (add_new_limit_order (new [1]%Z) (sample_limit 7 4 1 100 10)).1
    (sample_searcher 9 4 1 50)).1.

Definition sample_searcher_id : OrderId := order_id (sample_searcher 9 4 1 50).

Lemma storage_remove_exact_witness :
  (remove_order_from_id sample_storage (sample_id 7 4 1 Limit)).2 =
    Some (sample_limit 7 4 1 100 10) /\
  get_order_from_id (remove_order_from_id sample_storage (sample_id 7 4 1 Limit)).1
    sample_searcher_id <> None.
Proof.
  destruct (storage_remove_exact sample_storage (sample_id 7 4 1 Limit) ltac:(by_decide))
    as (s' & -> & _ & _ & Hother).
  split; [vm_compute; reflexivity|]. simpl.
  rewrite Hother by (left; vm_compute; discriminate). vm_compute. discriminate.
Defined.

Lemma cancelled_tob_kept_for_proposal_witness :
  exists s', cancel_order sample_storage sample_searcher_id = (s', true).
Proof.
  destruct (cancelled_tob_kept_for_proposal sample_storage sample_searcher_id
    (sample_searcher 9 4 1 50) eq_refl eq_refl ltac:(vm_compute; reflexivity))
    as (s' & m & a & Hc & _).
  by exists s'.
Defined.

Lemma status_never_filled_witness :
  fetch_status_of_order sample_storage 7 <> Ret (Some Filled) /\
  fetch_status_of_order sample_storage 7 = Ret (Some Pending).
Proof.
  split; [|vm_compute; reflexivity].
  apply (status_never_filled sample_storage [1]%Z 7).
  eapply rtc_l; [apply (step_add_limit _ (sample_limit 7 4 1 100 10))|].
  apply rtc_once, step_add_searcher.
Defined.
End examples.
