(* ===== verification/Subscribers.v ===== *)
(** * Order subscriptions

    The model of [crates/order-pool/src/order_subscribers.rs] and of
    [PoolManagerUpdate] of [crates/order-pool/src/lib.rs].  A channel is modelled
    by what is sent over it: the broadcast channel by the list of updates sent,
    a one-shot sender by its identity and the result it was given.  The code
    ignores the result of every send. *)

From S2P Require Import Prelude Ray Orders Samples.

Inductive PoolManagerUpdate :=
| NewOrder (o : OrderWithStorageData AllOrders)
| FilledOrder (block : u64) (o : OrderWithStorageData AllOrders)
| UnfilledOrders (o : OrderWithStorageData AllOrders)
| CancelledOrder (is_tob : bool) (user : Address) (pool_id : PoolId) (order_hash : B256)
| ExpiredOrder (o : OrderWithStorageData AllOrders).

Definition update_order_id (self : PoolManagerUpdate) : B256 :=
  match self with
  | NewOrder o => id_hash (order_id o)
  | FilledOrder _ o => id_hash (order_id o)
  | UnfilledOrders o => id_hash (order_id o)
  | CancelledOrder _ _ _ order_hash => order_hash
  | ExpiredOrder o => id_hash (order_id o)
  end.

Definition last_notification_for_order (self : PoolManagerUpdate) : bool :=
  match self with
  | FilledOrder _ _ | ExpiredOrder _ | CancelledOrder _ _ _ _ => true
  | _ => false
  end.

(** [validation::order::OrderValidationResults]. *)
Inductive OrderValidationResults :=
| Valid (o : OrderWithStorageData AllOrders)
| Invalid (hash : B256) (error : OrderValidationError)
| TransitionedToBlock (gas : list UpdatedGas).

(** The identity of a [tokio::sync::oneshot::Sender]. *)
Abbreviation Sender := nat (only parsing).

Record OrderSubscriptionTracker := {
  order_validation_subs : gmap B256 (list Sender);
  order_notification_tracker : gset B256;
  (** what was sent on [orders_subscriber_tx], in order *)
  sent_updates : list PoolManagerUpdate;
  (** what was sent on the one-shot channels, in order *)
  sent_results : list (Sender * OrderValidationResults)
}.

Implicit Types (t : OrderSubscriptionTracker) (h : B256).

Definition new : OrderSubscriptionTracker :=
  {| order_validation_subs := ∅; order_notification_tracker := ∅;
     sent_updates := []; sent_results := [] |}.

Definition subscribe_to_order t (order_hash : B256) (tx : Sender) : OrderSubscriptionTracker :=
  {| order_validation_subs :=
       <[order_hash := default [] (order_validation_subs t !! order_hash) ++ [tx]]>
         (order_validation_subs t);
     order_notification_tracker := order_notification_tracker t;
     sent_updates := sent_updates t; sent_results := sent_results t |}.

Definition notify_order_subscribers t (update : PoolManagerUpdate) : OrderSubscriptionTracker :=
  let id := update_order_id update in
  if bool_decide (id ∈ order_notification_tracker t) && negb (last_notification_for_order update)
  then t
  else
    {| order_validation_subs := order_validation_subs t;
       order_notification_tracker :=
         if last_notification_for_order update
         then order_notification_tracker t ∖ {[ id ]} else order_notification_tracker t;
       sent_updates := sent_updates t ++ [update]; sent_results := sent_results t |}.

Definition notify_expired_order t (o : OrderWithStorageData AllOrders)
    : OrderSubscriptionTracker :=
  {| order_validation_subs := order_validation_subs t;
     order_notification_tracker := order_notification_tracker t ∖ {[ id_hash (order_id o) ]};
     sent_updates := sent_updates t ++ [ExpiredOrder o]; sent_results := sent_results t |}.

Definition notify_expired_orders t (orders : list (OrderWithStorageData AllOrders))
    : OrderSubscriptionTracker :=
  foldl notify_expired_order t orders.

Definition try_notify_validation_subscribers t (hash : B256) (result : OrderValidationResults)
    : OrderSubscriptionTracker :=
  match order_validation_subs t !! hash with
  | None => t
  | Some subscribers =>
      {| order_validation_subs := delete hash (order_validation_subs t);
         order_notification_tracker := order_notification_tracker t;
         sent_updates := sent_updates t;
         sent_results := sent_results t ++ ((fun s : Sender => (s, result)) <$> subscribers) |}
  end.

(** Differs from [try_notify_validation_subscribers] by a log line only. *)
Definition notify_validation_subscribers t (hash : B256) (result : OrderValidationResults)
    : OrderSubscriptionTracker :=
  match order_validation_subs t !! hash with
  | None => t
  | Some subscribers =>
      {| order_validation_subs := delete hash (order_validation_subs t);
         order_notification_tracker := order_notification_tracker t;
         sent_updates := sent_updates t;
         sent_results := sent_results t ++ ((fun s : Sender => (s, result)) <$> subscribers) |}
  end.

(** ** Every subscriber is answered once *)

(** The senders that still wait for their result. *)
Definition waiting t : list Sender :=
  map_to_list (order_validation_subs t) ≫= snd.

Definition answered t : list Sender := (sent_results t).*1.

(** An operation of the tracker; a sender that subscribes is a new one. *)
Inductive tracker_step : OrderSubscriptionTracker -> OrderSubscriptionTracker -> Prop :=
| step_subscribe t h tx :
    ~ tx ∈ waiting t -> ~ tx ∈ answered t -> tracker_step t (subscribe_to_order t h tx)
| step_notify t update : tracker_step t (notify_order_subscribers t update)
| step_expired t orders : tracker_step t (notify_expired_orders t orders)
| step_try_answer t h r : tracker_step t (try_notify_validation_subscribers t h r)
| step_answer t h r : tracker_step t (notify_validation_subscribers t h r).

Lemma notify_expired_orders_spec t os :
  order_validation_subs (notify_expired_orders t os) = order_validation_subs t /\
  sent_results (notify_expired_orders t os) = sent_results t /\
  sent_updates (notify_expired_orders t os) = sent_updates t ++ (ExpiredOrder <$> os) /\
  order_notification_tracker (notify_expired_orders t os) ⊆ order_notification_tracker t.
Proof.
  revert t. induction os as [|o os IH]; intros t.
  - cbn. by rewrite app_nil_r.
  - unfold notify_expired_orders in *. cbn [foldl].
    destruct (IH (notify_expired_order t o)) as (-> & -> & -> & Hsub).
    split; [done|]. split; [done|]. split; [cbn; by rewrite <-(assoc_L (++))|].
    etrans; [exact Hsub|]. cbn. set_solver.
Qed.

Lemma notify_order_subscribers_spec t u :
  order_validation_subs (notify_order_subscribers t u) = order_validation_subs t /\
  sent_results (notify_order_subscribers t u) = sent_results t /\
  order_notification_tracker (notify_order_subscribers t u) ⊆ order_notification_tracker t.
Proof.
  unfold notify_order_subscribers. destruct (_ && _); [done|]. cbn.
  split; [done|]. split; [done|]. destruct (last_notification_for_order u); set_solver.
Qed.

Lemma waiting_delete t h ss m :
  order_validation_subs t !! h = Some ss -> m = delete h (order_validation_subs t) ->
  waiting t ≡ₚ ss ++ (map_to_list m ≫= snd).
Proof.
  intros Hh ->. unfold waiting. rewrite <-(map_to_list_delete _ _ _ Hh). done.
Qed.

Lemma waiting_subscribe t h tx : waiting (subscribe_to_order t h tx) ≡ₚ waiting t ++ [tx].
Proof.
  unfold waiting at 1, subscribe_to_order. cbn [order_validation_subs].
  destruct (order_validation_subs t !! h) as [ss|] eqn:E; cbn [default].
  - rewrite <-(insert_delete_eq (order_validation_subs t) h).
    rewrite map_to_list_insert by apply lookup_delete_eq. cbn.
    rewrite (waiting_delete t h ss _ E eq_refl).
    rewrite <-!(assoc_L (++)). f_equiv. apply (comm (++)).
  - rewrite map_to_list_insert by done. cbn. apply (Permutation_cons_append _ tx).
Qed.

Lemma NoDup_tracker_step t t' : tracker_step t t' ->
  NoDup (answered t ++ waiting t) -> NoDup (answered t' ++ waiting t').
Proof.
  destruct 1 as [t h tx Hw Ha|t u|t os|t h r|t h r]; intros Hnd.
  - rewrite waiting_subscribe. change (answered (subscribe_to_order t h tx)) with (answered t).
    rewrite (assoc_L (++)). apply NoDup_app. split; [done|]. split.
    + intros x Hx ->%list_elem_of_singleton. apply elem_of_app in Hx. tauto.
    + apply NoDup_singleton.
  - destruct (notify_order_subscribers_spec t u) as (Hs & Hr & _).
    unfold answered, waiting. by rewrite Hs, Hr.
  - destruct (notify_expired_orders_spec t os) as (Hs & Hr & _).
    unfold answered, waiting. by rewrite Hs, Hr.
  - unfold try_notify_validation_subscribers.
    destruct (order_validation_subs t !! h) as [ss|] eqn:E; [|done].
    unfold answered. cbn [sent_results]. rewrite fmap_app, <-list_fmap_compose, list_fmap_id.
    rewrite <-(assoc_L (++)). unfold waiting at 1. cbn [order_validation_subs].
    by rewrite <-(waiting_delete t h ss _ E eq_refl).
  - unfold notify_validation_subscribers.
    destruct (order_validation_subs t !! h) as [ss|] eqn:E; [|done].
    unfold answered. cbn [sent_results]. rewrite fmap_app, <-list_fmap_compose, list_fmap_id.
    rewrite <-(assoc_L (++)). unfold waiting at 1. cbn [order_validation_subs].
    by rewrite <-(waiting_delete t h ss _ E eq_refl).
Qed.

(** A one-shot sender is answered at most once, and one that was answered no
    longer waits, whatever the order of subscriptions and notifications. *)
Theorem subscribers_answered_once (t : OrderSubscriptionTracker)
    (Hr : rtc tracker_step new t) : NoDup (answered t ++ waiting t).
Proof.
  assert (NoDup (answered new ++ waiting new)) as Hn by (vm_compute; constructor).
  revert Hn. generalize new Hr. clear Hr. intros t0 Hr.
  induction Hr as [|t1 t2 t3 H1 _ IH]; [done|]. intros Hn. by apply IH, (NoDup_tracker_step t1).
Qed.

Lemma tracker_step_notified t t' :
  tracker_step t t' -> order_notification_tracker t' ⊆ order_notification_tracker t.
Proof.
  destruct 1 as [t h tx|t u|t os|t h r|t h r]; try done.
  - apply notify_order_subscribers_spec.
  - apply notify_expired_orders_spec.
  - unfold try_notify_validation_subscribers. by destruct (order_validation_subs t !! h).
  - unfold notify_validation_subscribers. by destruct (order_validation_subs t !! h).
Qed.

(** No operation adds to the set that is meant to suppress repeated updates,
    so it stays empty and every update of every order is broadcast. *)
Theorem every_update_is_broadcast (t : OrderSubscriptionTracker) (update : PoolManagerUpdate)
    (Hr : rtc tracker_step new t) :
  order_notification_tracker t = ∅ /\
  sent_updates (notify_order_subscribers t update) = sent_updates t ++ [update].
Proof.
  assert (order_notification_tracker t ⊆ order_notification_tracker new) as Hs.
  { induction Hr as [|t1 t2 t3 H1 _ IH]; [done|].
    etrans; [exact IH|]. by apply tracker_step_notified. }
  assert (order_notification_tracker t = ∅) as He by (cbn in Hs; set_solver).
  split; [done|]. unfold notify_order_subscribers. rewrite He.
  rewrite bool_decide_false by set_solver. done.
Qed.

(** ** Examples *)

Definition sample_tracker : OrderSubscriptionTracker :=
  notify_order_subscribers (subscribe_to_order new 7 0) (NewOrder (sample_limit 7 4 1 100 10)).

Lemma sample_tracker_reachable : rtc tracker_step new sample_tracker.
Proof.
  eapply rtc_l; [apply (step_subscribe _ 7 0); by_decide|]. apply rtc_once, step_notify.
Qed.

Lemma subscribers_answered_once_witness :
  NoDup (answered sample_tracker ++ waiting sample_tracker) /\ waiting sample_tracker = [0%nat].
Proof.
  split; [apply (subscribers_answered_once sample_tracker sample_tracker_reachable)|].
  vm_compute. reflexivity.
Defined.

Lemma every_update_is_broadcast_witness :
  sent_updates (notify_order_subscribers sample_tracker
    (NewOrder (sample_limit 7 4 1 100 10))) =
  [NewOrder (sample_limit 7 4 1 100 10); NewOrder (sample_limit 7 4 1 100 10)].
Proof.
  destruct (every_update_is_broadcast sample_tracker (NewOrder (sample_limit 7 4 1 100 10))
    sample_tracker_reachable) as [_ ->].
  reflexivity.
Defined.
