(* ===== verification/Validator.v ===== *)
(** * The order validator state machine

    The model of [crates/order-pool/src/validator.rs].  The futures in flight
    are the calls that created them; which of them has finished when the stream
    is polled, and with what result, is an input of [poll_next].  Messages sent
    to the validation handle without waiting for an answer are recorded. *)

From S2P Require Import Prelude Ray Orders Samples Subscribers.

(** A call [validator.validate_order(origin, order)] whose answer is awaited. *)
Abbreviation ValidateCall := (OrderOrigin * AllOrders)%type (only parsing).

(** A call [validator.new_block(block_number, orders, changed_addresses)]. *)
Record NewBlockCall := {
  nb_block_number : u64;
  nb_orders : list B256;
  nb_addresses : list Address
}.

Inductive ValidatorState :=
| ClearingForNewBlock (block_number : u64) (waiting_for_new_block : list ValidateCall)
    (completed_orders : list B256) (revalidation_addresses : list Address)
    (remaining_futures : list ValidateCall)
| WaitingForStorageCleanup (waiting_for_new_block : list ValidateCall)
| InformState (waiting_for_new_block : list ValidateCall) (future : NewBlockCall)
| RegularProcessing (remaining_futures : list ValidateCall).

(** [cancel_sent]: the [cancel_order] messages sent through the handle. *)
Record OrderValidator := {
  state : ValidatorState;
  cancel_sent : list (Address * B256)
}.

Inductive OrderValidatorRes :=
| ValidatedOrder (res : OrderValidationResults)
| EnsureClearForTransition (block : u64) (orders : list B256) (addresses : list Address)
| TransitionComplete.

Inductive Poll (A : Type) := Ready (a : A) | NotReady.
Arguments Ready {_} _.
Arguments NotReady {_}.

Implicit Types (v : OrderValidator) (st : ValidatorState).

Definition new : OrderValidator := {| state := RegularProcessing []; cancel_sent := [] |}.

Definition set_state v st : OrderValidator := {| state := st; cancel_sent := cancel_sent v |}.

Definition get_waiting_orders v : list ValidateCall :=
  match state v with
  | RegularProcessing _ => []
  | InformState w _ => w
  | ClearingForNewBlock _ w _ _ _ => w
  | WaitingForStorageCleanup w => w
  end.

Definition cancel_order v (user : Address) (order_hash : B256) : OrderValidator :=
  {| state := state v; cancel_sent := cancel_sent v ++ [(user, order_hash)] |}.

Definition is_transitioning v : bool :=
  match state v with
  | ClearingForNewBlock _ _ _ _ _ | InformState _ _ => true
  | _ => false
  end.

Definition on_new_block v (block_number : u64) (completed_orders : list B256)
    (revalidation_addresses : list Address) : outcome OrderValidator :=
  _ ← assert (negb (is_transitioning v));
  match state v with
  | RegularProcessing rem_futures =>
      Ret (set_state v
        (ClearingForNewBlock block_number [] completed_orders revalidation_addresses rem_futures))
  | _ => Panic
  end.

Definition notify_validation_on_changes v (block_number : u64) (orders : list B256)
    (changed_addresses : list Address) : OrderValidator :=
  match state v with
  | WaitingForStorageCleanup w =>
      set_state v (InformState w
        {| nb_block_number := block_number; nb_orders := orders;
           nb_addresses := changed_addresses |})
  | _ => v
  end.

Definition validate_order v (origin : OrderOrigin) (order : AllOrders) : OrderValidator :=
  set_state v
    match state v with
    | RegularProcessing rem => RegularProcessing (rem ++ [(origin, order)])
    | WaitingForStorageCleanup w => WaitingForStorageCleanup (w ++ [(origin, order)])
    | ClearingForNewBlock b w co ra rem => ClearingForNewBlock b (w ++ [(origin, order)]) co ra rem
    | InformState w f => InformState (w ++ [(origin, order)]) f
    end.

(** What the futures have done when the stream is polled: the position of a
    finished validation with its result, and the answer to the block call. *)
Record Readiness := {
  finished : option (nat * OrderValidationResults);
  informed : option OrderValidationResults
}.

(** [FuturesUnordered::poll_next_unpin]: yields a finished future and removes
    it, ends on the empty set, and is pending otherwise. *)
Definition poll_futures (futs : list ValidateCall) (r : Readiness)
    : list ValidateCall * Poll (option OrderValidationResults) :=
  match futs with
  | [] => (futs, Ready None)
  | _ :: _ =>
      match finished r with
      | Some (i, res) =>
          if decide (i < length futs)%nat then (delete i futs, Ready (Some res))
          else (futs, NotReady)
      | None => (futs, NotReady)
      end
  end.

Definition drain_waiting v (waiting_for_new_block : list ValidateCall) : OrderValidator :=
  foldl (fun this '(origin, order) => validate_order this origin order) v waiting_for_new_block.

Definition handle_inform v (w : list ValidateCall) (r : Readiness) : option OrderValidator :=
  match informed r with
  | Some _ => Some (drain_waiting (set_state v (RegularProcessing [])) w)
  | None => None
  end.

Definition poll_next v (r : Readiness) : OrderValidator * Poll (option OrderValidatorRes) :=
  match state v with
  | ClearingForNewBlock b w co ra rem =>
      match poll_futures rem r with
      | (rem', Ready (Some next)) =>
          (set_state v (ClearingForNewBlock b w co ra rem'), Ready (Some (ValidatedOrder next)))
      | (rem', _) =>
          match rem' with
          | _ :: _ => (set_state v (ClearingForNewBlock b w co ra rem'), NotReady)
          | [] =>
              (set_state v (WaitingForStorageCleanup w),
               Ready (Some (EnsureClearForTransition b co ra)))
          end
      end
  | WaitingForStorageCleanup _ => (v, NotReady)
  | InformState w _ =>
      match handle_inform v w r with
      | None => (v, NotReady)
      | Some v' => (v', Ready (Some TransitionComplete))
      end
  | RegularProcessing rem =>
      let '(rem', p) := poll_futures rem r in
      (set_state v (RegularProcessing rem'),
       match p with
       | Ready inner => Ready (ValidatedOrder <$> inner)
       | NotReady => NotReady
       end)
  end.

(** ** No validation request is lost or made twice *)

Definition in_flight v : list ValidateCall :=
  match state v with
  | ClearingForNewBlock _ _ _ _ rem => rem
  | RegularProcessing rem => rem
  | _ => []
  end.

(** The requests that are not answered yet. *)
Definition outstanding v : list ValidateCall := in_flight v ++ get_waiting_orders v.

(** An input of the state machine. *)
Inductive Input :=
| IValidate (origin : OrderOrigin) (order : AllOrders)
| ICancel (user : Address) (hash : B256)
| INewBlock (block : u64) (completed : list B256) (addresses : list Address)
| INotify (block : u64) (orders : list B256) (addresses : list Address)
| IPoll (r : Readiness).

(** The call that a poll answers. *)
Definition answered_by v (r : Readiness) : list ValidateCall :=
  match finished r with
  | Some (i, _) => match in_flight v !! i with Some c => [c] | None => [] end
  | None => []
  end.

(** Runs inputs, collecting the calls submitted and the calls answered. *)
Fixpoint run v (ins : list Input)
    : outcome (OrderValidator * list ValidateCall * list ValidateCall) :=
  match ins with
  | [] => Ret (v, [], [])
  | i :: ins' =>
      '(v', sub, ans) ←
        match i with
        | IValidate origin order => Ret (validate_order v origin order, [(origin, order)], [])
        | ICancel user hash => Ret (cancel_order v user hash, [], [])
        | INewBlock b co ra => v' ← on_new_block v b co ra; Ret (v', [], [])
        | INotify b os ra => Ret (notify_validation_on_changes v b os ra, [], [])
        | IPoll r => Ret ((poll_next v r).1, [], answered_by v r)
        end;
      '(v'', sub', ans') ← run v' ins';
      Ret (v'', sub ++ sub', ans ++ ans')
  end.

Lemma validate_order_outstanding v origin order :
  outstanding (validate_order v origin order) ≡ₚ (origin, order) :: outstanding v.
Proof.
  unfold outstanding, in_flight, get_waiting_orders. destruct v as [[] c]; cbn;
    rewrite ?(assoc_L (++)), ?app_nil_r; symmetry; apply Permutation_cons_append.
Qed.

Lemma drain_waiting_state v rem w : state v = RegularProcessing rem ->
  drain_waiting v w = set_state v (RegularProcessing (rem ++ w)).
Proof.
  revert v rem. induction w as [|[o a] w IH]; intros v rem Hv.
  - destruct v as [st c]. cbn in *. subst st. by rewrite app_nil_r.
  - unfold drain_waiting in *. cbn [foldl].
    rewrite (IH (validate_order v o a) (rem ++ [(o, a)])).
    + by rewrite <-(assoc_L (++)).
    + unfold validate_order. by rewrite Hv.
Qed.

Lemma drain_waiting_inform w l f c :
  drain_waiting {| state := InformState w f; cancel_sent := c |} l =
  {| state := InformState (w ++ l) f; cancel_sent := c |}.
Proof.
  revert w. induction l as [|[o a] l IH]; intros w; [by rewrite app_nil_r|].
  unfold drain_waiting in *. cbn [foldl].
  change (validate_order {| state := InformState w f; cancel_sent := c |} o a)
    with {| state := InformState (w ++ [(o, a)]) f; cancel_sent := c |}.
  rewrite IH. by rewrite <-(assoc_L (++)).
Qed.

Lemma poll_futures_spec futs r : let '(futs', p) := poll_futures futs r in
  match p with
  | Ready (Some res) => exists i c, finished r = Some (i, res) /\ futs !! i = Some c /\
      futs' = delete i futs
  | Ready None => futs = [] /\ futs' = []
  | NotReady => futs' = futs /\ futs <> [] /\
      forall i res, finished r = Some (i, res) -> futs !! i = None
  end.
Proof.
  unfold poll_futures. destruct futs as [|c futs]; [done|].
  destruct (finished r) as [[i res]|]; [|done]. case_decide as Hd.
  - apply lookup_lt_is_Some in Hd as [c' Hc']. eauto.
  - split; [done|]. split; [done|]. intros i' res' [= <- <-]. apply lookup_ge_None. lia.
Qed.

Lemma poll_next_outstanding v r :
  outstanding v ≡ₚ answered_by v r ++ outstanding (poll_next v r).1.
Proof.
  unfold poll_next, outstanding, answered_by, in_flight, get_waiting_orders.
  destruct v as [[b w co ra rem|w|w f|rem] c]; cbn [state].
  - pose proof (poll_futures_spec rem r) as Hp. destruct (poll_futures rem r) as [rem' [[res|]|]].
    + destruct Hp as (i & c' & -> & Hi & ->). rewrite Hi. cbn.
      by rewrite (delete_Permutation rem i c' Hi) at 1.
    + destruct Hp as [-> ->]. by destruct (finished r) as [[[] ?]|].
    + destruct Hp as (-> & Hne & Hfin). destruct rem as [|x rem]; [done|]. cbn.
      destruct (finished r) as [[i res]|]; [|done]. by rewrite (Hfin i res eq_refl).
  - by destruct (finished r) as [[[] ?]|].
  - unfold handle_inform. destruct (informed r); cbn [fst].
    + rewrite (drain_waiting_state _ []) by done. cbn. rewrite app_nil_r.
      by destruct (finished r) as [[[] ?]|].
    + by destruct (finished r) as [[[] ?]|].
  - pose proof (poll_futures_spec rem r) as Hp. destruct (poll_futures rem r) as [rem' [[res|]|]].
    + destruct Hp as (i & c' & -> & Hi & ->). rewrite Hi. cbn. rewrite !app_nil_r.
      apply (delete_Permutation rem i c' Hi).
    + destruct Hp as [-> ->]. by destruct (finished r) as [[[] ?]|].
    + destruct Hp as (-> & Hne & Hfin). cbn.
      destruct (finished r) as [[i res]|]; [|done]. by rewrite (Hfin i res eq_refl).
Qed.

Lemma on_new_block_spec v b co ra v' : on_new_block v b co ra = Ret v' ->
  exists rem, state v = RegularProcessing rem /\
    v' = set_state v (ClearingForNewBlock b [] co ra rem).
Proof.
  unfold on_new_block. destruct v as [[] c]; cbn; try done. intros [= <-]. by eexists.
Qed.

(** C1. Over any run of the state machine, through any number of block
    transitions, the requests submitted are the ones answered and the ones still
    outstanding: none is dropped and none is made twice. *)
Theorem validation_requests_conserved (v v' : OrderValidator) (ins : list Input)
    (submitted answered : list (OrderOrigin * AllOrders))
    (Hrun : run v ins = Ret (v', submitted, answered)) :
  outstanding v ++ submitted ≡ₚ answered ++ outstanding v'.
Proof.
  revert v submitted answered Hrun. induction ins as [|i ins IH]; intros v sub ans Hrun.
  - injection Hrun as <- <- <-. by rewrite app_nil_r.
  - cbn [run] in Hrun. apply bind_Ret in Hrun as ([[v1 sub1] ans1] & Hi & Hrun).
    apply bind_Ret in Hrun as ([[v2 sub2] ans2] & Hr & Hrun). injection Hrun as <- <- <-.
    specialize (IH _ _ _ Hr).
    assert (outstanding v ++ sub1 ≡ₚ ans1 ++ outstanding v1) as H1.
    { destruct i as [o a|u h|b co ra|b os ra|r].
      - injection Hi as <- <- <-. rewrite validate_order_outstanding.
        symmetry. apply Permutation_cons_append.
      - injection Hi as <- <- <-. by rewrite app_nil_r.
      - apply bind_Ret in Hi as (v3 & Hb & Hi). injection Hi as <- <- <-.
        destruct (on_new_block_spec _ _ _ _ _ Hb) as (rem & Hst & ->).
        unfold outstanding, in_flight, get_waiting_orders. rewrite Hst. cbn.
        by rewrite !app_nil_r.
      - injection Hi as <- <- <-. unfold notify_validation_on_changes, outstanding.
        destruct v as [[] c]; cbn; by rewrite ?app_nil_r.
      - injection Hi as <- <- <-. rewrite app_nil_r. apply poll_next_outstanding. }
    rewrite (assoc_L (++)), H1, <-(assoc_L (++)), IH. by rewrite (assoc_L (++)).
Qed.

(** ** The transition to a new block *)

(** [on_new_block] panics exactly when a transition is under way. *)
Theorem on_new_block_panics_iff (v : OrderValidator) (b : u64) (co : list B256)
    (ra : list Address) :
  on_new_block v b co ra = Panic <-> ~ exists rem, state v = RegularProcessing rem.
Proof.
  unfold on_new_block. destruct v as [[] c]; cbn; split; try done; try by intros _ [].
  intros Hn. destruct Hn. by eexists.
Qed.

(** Polls in which validations finish one after the other. *)
Definition finish_first (res : OrderValidationResults) : Readiness :=
  {| finished := Some (0%nat, res); informed := None |}.

Fixpoint polls v (rs : list Readiness) : OrderValidator :=
  match rs with [] => v | r :: rs' => polls (poll_next v r).1 rs' end.

Lemma polls_clear b w co ra rem c results : length results = length rem ->
  polls {| state := ClearingForNewBlock b w co ra rem; cancel_sent := c |}
    (finish_first <$> results) =
  {| state := ClearingForNewBlock b w co ra []; cancel_sent := c |}.
Proof.
  revert rem. induction results as [|res results IH]; intros [|x rem] Hl; try done.
  injection Hl as Hl. cbn [fmap list_fmap polls]. rewrite <-(IH rem Hl).
  done.
Qed.

(** C37. Once the validations in flight have finished, a transition completes: the
    next poll asks for the cleanup of the storage, and after the cleanup and the
    answer of the validation service, regular processing resumes with every
    order that arrived meanwhile in flight, in its order of arrival, whatever
    the answer was. *)
Theorem transition_completes (b : u64) (w rem late : list (OrderOrigin * AllOrders))
    (co : list B256) (ra : list Address) (c : list (Address * B256))
    (results : list OrderValidationResults) (r r' : Readiness)
    (orders : list B256) (answer : OrderValidationResults)
    (Hall : length results = length rem) (Hans : informed r' = Some answer) :
  exists v1 v2, poll_next
      (polls {| state := ClearingForNewBlock b w co ra rem; cancel_sent := c |}
        (finish_first <$> results)) r
      = (v1, Ready (Some (EnsureClearForTransition b co ra))) /\
    poll_next (drain_waiting (notify_validation_on_changes v1 b orders ra) late) r'
      = (v2, Ready (Some TransitionComplete)) /\
    state v2 = RegularProcessing (w ++ late).
Proof.
  rewrite polls_clear by done. eexists. eexists. split; [done|].
  cbn [notify_validation_on_changes state set_state cancel_sent]. unfold set_state.
  cbn [cancel_sent]. rewrite drain_waiting_inform. unfold poll_next. cbn [state]. unfold handle_inform.
  rewrite Hans. rewrite (drain_waiting_state _ []) by done. split; [done|]. by cbn.
Qed.

(** The answer of the validation service to a new block, which carries the
    gas of every pool, is discarded: what the poll returns and the state it
    leaves do not depend on it. *)
Theorem new_block_answer_discarded (v : OrderValidator) (w : list (OrderOrigin * AllOrders))
    (f : NewBlockCall) (r r' : Readiness) (gas gas' : list UpdatedGas)
    (Hst : state v = InformState w f)
    (Hr : informed r = Some (TransitionedToBlock gas))
    (Hr' : informed r' = Some (TransitionedToBlock gas')) :
  poll_next v r = poll_next v r' /\ (poll_next v r).2 = Ready (Some TransitionComplete).
Proof. unfold poll_next, handle_inform. by rewrite Hst, Hr, Hr'. Qed.

(** ** Examples *)

Definition sample_call (hash : B256) : ValidateCall := (Local, sample_standing hash 4 100 10).

Definition sample_inputs : list Input :=
  [IValidate Local (sample_standing 7 4 100 10); INewBlock 31 [] [];
   IValidate Local (sample_standing 8 4 100 10);
   IPoll (finish_first (Invalid 7 InvalidPool)); IPoll (finish_first (Invalid 7 InvalidPool))].

Lemma validation_requests_conserved_witness :
  exists v', run new sample_inputs = Ret (v', [sample_call 7; sample_call 8], [sample_call 7]) /\
    [sample_call 7; sample_call 8] ≡ₚ [sample_call 7] ++ outstanding v'.
Proof.
  eexists. split; [reflexivity|].
  apply (validation_requests_conserved new _ sample_inputs). reflexivity.
Defined.

Lemma transition_completes_witness :
  exists v1 v2, poll_next
      (polls {| state := ClearingForNewBlock 31 [sample_call 8] [] [] [sample_call 7];
                cancel_sent := [] |} (finish_first <$> [Invalid 7 InvalidPool]))
      (finish_first (Invalid 7 InvalidPool))
      = (v1, Ready (Some (EnsureClearForTransition 31 [] []))) /\
    poll_next (drain_waiting (notify_validation_on_changes v1 31 [] []) [sample_call 9])
      {| finished := None; informed := Some (TransitionedToBlock []) |}
      = (v2, Ready (Some TransitionComplete)) /\
    state v2 = RegularProcessing [sample_call 8; sample_call 9].
Proof.
  apply (transition_completes 31 [sample_call 8] [sample_call 7] [sample_call 9] [] [] []
    [Invalid 7 InvalidPool] _ _ [] (TransitionedToBlock [])); reflexivity.
Defined.

Lemma new_block_answer_discarded_witness :
  let v := {| state := InformState [] {| nb_block_number := 31; nb_orders := [];
                                        nb_addresses := [] |}; cancel_sent := [] |} in
  poll_next v {| finished := None; informed := Some (TransitionedToBlock []) |} =
  poll_next v {| finished := None; informed := Some (TransitionedToBlock [sample_gas 1 5 6]) |}.
Proof.
  intros v. eapply (new_block_answer_discarded v []); reflexivity.
Defined.
