(* ===== verification/Tracker.v ===== *)
(** * The order tracker

    The model of [crates/order-pool/src/order_tracker.rs].  The system clock is
    the argument [now], in seconds since the epoch; the storage that the
    operations change behind its locks is passed and returned. *)

From S2P Require Import Prelude Ray Orders Samples.
From S2P Require Storage.

(** [InnerCancelOrderRequest] of [order_indexer.rs]. *)
Record InnerCancelOrderRequest := {
  icr_from : Address;
  icr_deadline : U256;
  owner_verified : bool
}.

Definition ETH_BLOCK_TIME : u64 := 12%Z.
Definition MAX_NEW_ORDER_DELAY_PROPAGATION : u64 := 7000%Z.

Record OrderTracker := {
  address_to_orders : gmap Address (gset OrderId);
  order_hash_to_order_id : gmap B256 OrderId;
  order_hash_to_peer_id : gmap B256 (list PeerId);
  seen_invalid_orders : gset B256;
  cancelled_orders : gmap B256 InnerCancelOrderRequest;
  pending_cancellations : gmap B256 (gmap Address U256);
  is_validating : gset B256
}.

Implicit Types (t : OrderTracker) (h : B256).

Definition new : OrderTracker := Build_OrderTracker ∅ ∅ ∅ ∅ ∅ ∅ ∅.

(** Field updates. *)
Definition set_addresses t x : OrderTracker :=
  Build_OrderTracker x (order_hash_to_order_id t) (order_hash_to_peer_id t)
    (seen_invalid_orders t) (cancelled_orders t) (pending_cancellations t) (is_validating t).
Definition set_ids t x : OrderTracker :=
  Build_OrderTracker (address_to_orders t) x (order_hash_to_peer_id t)
    (seen_invalid_orders t) (cancelled_orders t) (pending_cancellations t) (is_validating t).
Definition set_peers t x : OrderTracker :=
  Build_OrderTracker (address_to_orders t) (order_hash_to_order_id t) x
    (seen_invalid_orders t) (cancelled_orders t) (pending_cancellations t) (is_validating t).
Definition set_invalid t x : OrderTracker :=
  Build_OrderTracker (address_to_orders t) (order_hash_to_order_id t)
    (order_hash_to_peer_id t) x (cancelled_orders t) (pending_cancellations t)
    (is_validating t).
Definition set_cancelled t x : OrderTracker :=
  Build_OrderTracker (address_to_orders t) (order_hash_to_order_id t)
    (order_hash_to_peer_id t) (seen_invalid_orders t) x (pending_cancellations t)
    (is_validating t).
Definition set_pending_cancellations t x : OrderTracker :=
  Build_OrderTracker (address_to_orders t) (order_hash_to_order_id t)
    (order_hash_to_peer_id t) (seen_invalid_orders t) (cancelled_orders t) x
    (is_validating t).
Definition set_validating t x : OrderTracker :=
  Build_OrderTracker (address_to_orders t) (order_hash_to_order_id t)
    (order_hash_to_peer_id t) (seen_invalid_orders t) (cancelled_orders t)
    (pending_cancellations t) x.

Definition clear_invalid t : OrderTracker := set_invalid t ∅.

Definition is_seen_invalid t h : bool := bool_decide (h ∈ seen_invalid_orders t).

Definition is_cancelled t h : bool := bool_decide (is_Some (cancelled_orders t !! h)).

Definition start_validating t h : OrderTracker :=
  set_validating t ({[ h ]} ∪ is_validating t).
Definition stop_validating t h : OrderTracker :=
  set_validating t (is_validating t ∖ {[ h ]}).

(** [OrderTracker::is_validating]. *)
Definition currently_validating t h : bool := bool_decide (h ∈ is_validating t).

Definition is_valid_cancel t (order : B256) (order_addr : Address) : bool :=
  match cancelled_orders t !! order with
  | Some req => Z.eqb (icr_from req) order_addr
  | None => false
  end
  || match pending_cancellations t !! order with
     | Some requests => bool_decide (is_Some (requests !! order_addr))
     | None => false
     end.

Definition is_duplicate t h : bool :=
  bool_decide (is_Some (order_hash_to_order_id t !! h)) ||
  bool_decide (h ∈ seen_invalid_orders t).

(** [set.retain(|id| &id.hash != tx); !set.is_empty()] *)
Definition retain_other_hash (tx : B256) (ids : gset OrderId) : option (gset OrderId) :=
  let ids' := filter (fun id => id_hash id <> tx) ids in
  if decide (ids' = ∅) then None else Some ids'.

Definition pool_removed_one t (tx : B256) : OrderTracker :=
  set_addresses
    (set_peers (set_ids t (delete tx (order_hash_to_order_id t)))
      (delete tx (order_hash_to_peer_id t)))
    (omap (retain_other_hash tx) (address_to_orders t)).

Definition handle_pool_removed t (txes : list (OrderWithStorageData AllOrders)) : OrderTracker :=
  foldl (fun t tx => pool_removed_one t (id_hash (order_id tx))) t txes.

Definition track_peer_id t h (peer_id : option PeerId) : OrderTracker :=
  match peer_id with
  | Some peer =>
      set_peers t (<[h := default [] (order_hash_to_peer_id t !! h) ++ [peer]]>
        (order_hash_to_peer_id t))
  | None => t
  end.

Definition invalid_verification t h : OrderTracker * list PeerId :=
  (set_peers (set_invalid t ({[ h ]} ∪ seen_invalid_orders t))
     (delete h (order_hash_to_peer_id t)),
   default [] (order_hash_to_peer_id t !! h)).

Definition new_valid_order t h (user : Address) (id : OrderId) : OrderTracker :=
  let t := set_pending_cancellations t (delete h (pending_cancellations t)) in
  let t := set_peers t (delete h (order_hash_to_peer_id t)) in
  let t := set_ids t (<[h := id]> (order_hash_to_order_id t)) in
  set_addresses t
    (<[user := {[ id ]} ∪ default ∅ (address_to_orders t !! user)]> (address_to_orders t)).

Definition cancellation_deadline (now : u64) : U256 :=
  u64_wrap (now + MAX_NEW_ORDER_DELAY_PROPAGATION * ETH_BLOCK_TIME).

Definition record_pending_cancellation (now : u64) t (from : Address) h : OrderTracker :=
  set_pending_cancellations t
    (<[h := <[from := cancellation_deadline now]>
        (default ∅ (pending_cancellations t !! h))]> (pending_cancellations t)).

Definition insert_cancel_with_deadline (now : u64) t (from : Address) h
    (deadline : option U256) : OrderTracker :=
  let valid_until := default (u64_wrap (now - ETH_BLOCK_TIME - 1)) deadline in
  let t := set_cancelled t
    (<[h := {| icr_from := from; icr_deadline := valid_until; owner_verified := true |}]>
      (cancelled_orders t)) in
  set_pending_cancellations t (delete h (pending_cancellations t)).

(** [address_to_orders.values_mut().for_each(|v| v.retain(|o| o != &id))] *)
Definition forget_id t (id : OrderId) : OrderTracker :=
  set_addresses t ((fun ids => filter (fun o => o <> id) ids) <$> address_to_orders t).

(** An order that expires before the next block, or is for another block. *)
Definition is_expired (expiry_deadline : U256) (block_number : u64) (v : OrderId) : bool :=
  match id_deadline v with Some i => Z.leb i expiry_deadline | None => false end ||
  match id_flash_block v with
  | Some b => negb (Z.eqb b (u64_wrap (block_number + 1)))
  | None => false
  end.

Definition retain_requests (expiry_deadline : U256) (requests : gmap Address U256)
    : option (gmap Address U256) :=
  let requests' := filter (fun '(_, deadline) => expiry_deadline < deadline)%Z requests in
  if decide (requests' = ∅) then None else Some requests'.

(** The cancellations that outlive [expiry_deadline]. *)
Definition clear_cancelled (expiry_deadline : U256) t : OrderTracker :=
  set_pending_cancellations
    (set_cancelled t
      (filter (fun '(_, req) => expiry_deadline < icr_deadline req)%Z (cancelled_orders t)))
    (omap (retain_requests expiry_deadline) (pending_cancellations t)).

Section tracker.
Context `{AL : ArithLib} `{OH : OrderHasher} `{HI : HashIter}.
Implicit Types (s : Storage.OrderStorage).

(** The lazy chain over the expired hashes: each is removed from the index, from
    the addresses and from the pools before the next. *)
Fixpoint remove_hashes t s (hashes : list B256)
    : outcome (OrderTracker * Storage.OrderStorage * list (OrderWithStorageData AllOrders)) :=
  match hashes with
  | [] => Ret (t, s, [])
  | h :: hashes' =>
      id ← unwrap (order_hash_to_order_id t !! h);
      let t' := forget_id (set_ids t (delete h (order_hash_to_order_id t))) id in
      let '(s', removed) :=
        match id_location id with
        | Searcher => Storage.remove_searcher_order s id
        | Limit => Storage.remove_limit_order s id
        end in
      '(t'', s'', rest) ← remove_hashes t' s' hashes';
      Ret (t'', s'', option_list removed ++ rest)
  end.

Definition expired_hashes (expiry_deadline : U256) (block_number : u64) t : list B256 :=
  (filter (fun '(_, v) => is_expired expiry_deadline block_number v = true)
    (hm_iter (order_hash_to_order_id t))).*1.

Definition remove_expired_orders (now : u64) t (block_number : u64) s
    : outcome (OrderTracker * Storage.OrderStorage * list (OrderWithStorageData AllOrders)) :=
  let expiry_deadline := (now + ETH_BLOCK_TIME)%Z in
  let t := clear_cancelled expiry_deadline t in
  remove_hashes t s (expired_hashes expiry_deadline block_number t).

Fixpoint filled_orders t s (orders : list B256)
    : OrderTracker * Storage.OrderStorage * list (OrderWithStorageData AllOrders) :=
  match orders with
  | [] => (t, s, [])
  | h :: orders' =>
      match order_hash_to_order_id t !! h with
      | None => filled_orders t s orders'
      | Some id =>
          let '(s', removed) :=
            match id_location id with
            | Limit => Storage.remove_limit_order s id
            | Searcher => Storage.remove_searcher_order s id
            end in
          let '(t'', s'', rest) :=
            filled_orders (set_ids t (delete h (order_hash_to_order_id t))) s' orders' in
          (t'', s'', option_list removed ++ rest)
      end
  end.

Definition park_orders t (txes : list B256) s : outcome Storage.OrderStorage :=
  Storage.park_orders s (omap (fun h => order_hash_to_order_id t !! h) txes).

Definition cancel_order (now : u64) t (from : Address) h s
    : OrderTracker * Storage.OrderStorage * option (bool * PoolId) :=
  match order_hash_to_order_id t !! h with
  | None => (record_pending_cancellation now t from h, s, None)
  | Some id =>
      if negb (Z.eqb (id_address id) from) then (t, s, None)
      else
        let '(s', cancelled) := Storage.cancel_order s id in
        if negb cancelled then (record_pending_cancellation now t from h, s', None)
        else
          let t := set_ids t (delete h (order_hash_to_order_id t)) in
          let t := insert_cancel_with_deadline now t from h (Some (cancellation_deadline now)) in
          (t, s', Some (bool_decide (id_location id = Searcher), id_pool_id id))
  end.

(** The loops over the ids of an address; [f] may change the state behind the
    locks. *)
Fixpoint filter_map_ids {St A} (f : OrderId -> St -> St * option A) (ids : list OrderId)
    (st : St) : St * list A :=
  match ids with
  | [] => (st, [])
  | id :: ids' =>
      let '(st', r) := f id st in
      let '(st'', rs) := filter_map_ids f ids' st' in
      (st'', option_list r ++ rs)
  end.

Definition pending_orders_for_address {St A} t (address : Address) (st : St)
    (f : OrderId -> St -> St * option A) : St * list A :=
  match address_to_orders t !! address with
  | Some order_ids => filter_map_ids f (hs_iter order_ids) st
  | None => (st, [])
  end.

Fixpoint eoa_state_changes {St} t (eoas : list Address) (st : St) (f : OrderId -> St -> St)
    : OrderTracker * St :=
  match eoas with
  | [] => (t, st)
  | eoa :: eoas' =>
      let ids := from_option hs_iter [] (address_to_orders t !! eoa) in
      eoa_state_changes (set_addresses t (delete eoa (address_to_orders t))) eoas'
        (foldl (fun st id => f id st) st ids) f
  end.

(** ** Cancellation claims *)

Lemma lookup_pending_record now t from h h' a :
  match pending_cancellations (record_pending_cancellation now t from h) !! h' with
  | Some requests => bool_decide (is_Some (requests !! a))
  | None => false
  end =
  match pending_cancellations t !! h' with
  | Some requests => bool_decide (is_Some (requests !! a))
  | None => false
  end || (bool_decide (h' = h) && bool_decide (a = from)).
Proof.
  cbn. destruct (decide (h' = h)) as [->|Hne].
  - rewrite lookup_insert_eq, (bool_decide_true (h = h)) by done.
    destruct (decide (a = from)) as [->|Hna].
    + rewrite lookup_insert_eq, !bool_decide_true by done. by rewrite orb_true_r.
    + rewrite lookup_insert_ne, (bool_decide_false (a = from)), orb_false_r by done.
      destruct (pending_cancellations t !! h); [done|]. cbn. by rewrite lookup_empty.
  - rewrite lookup_insert_ne, (bool_decide_false (h' = h)) by done. by rewrite orb_false_r.
Qed.

(** A claim to cancel an order that is not known yet is recorded for its
    signer only: it gives no other address and no other order a cancellation,
    and takes none away. *)
Theorem claims_do_not_interfere (now : u64) (t : OrderTracker) (from a : Address) (h h' : B256) :
  is_valid_cancel (record_pending_cancellation now t from h) h' a =
  is_valid_cancel t h' a || (bool_decide (h' = h) && bool_decide (a = from)).
Proof.
  unfold is_valid_cancel. rewrite lookup_pending_record. cbn [cancelled_orders
    record_pending_cancellation set_pending_cancellations]. by rewrite orb_assoc.
Qed.

Lemma is_valid_cancel_insert now t from h d :
  is_valid_cancel (insert_cancel_with_deadline now t from h d) h from = true.
Proof. unfold is_valid_cancel. cbn. by rewrite lookup_insert_eq, Z.eqb_refl. Qed.

(** What the tracker's cancellation does, by the owner of the tracked order. *)
Lemma cancel_order_owner now t from h s t' s' r :
  cancel_order now t from h s = (t', s', r) ->
  match order_hash_to_order_id t !! h with
  | Some id =>
      (id_address id <> from -> t' = t /\ s' = s /\ r = None) /\
      (r <> None -> id_address id = from /\ order_hash_to_order_id t' !! h = None /\
        is_valid_cancel t' h from = true)
  | None => s' = s /\ r = None
  end.
Proof.
  unfold cancel_order. destruct (order_hash_to_order_id t !! h) as [id|]; [|by intros [= <- <- <-]].
  destruct (Z.eqb_spec (id_address id) from) as [He|He]; cbn [negb].
  - destruct (Storage.cancel_order s id) as [s1 []]; cbn [negb]; intros [= <- <- <-].
    + split; [done|]. intros _. split; [done|]. split; [|apply is_valid_cancel_insert].
      cbn. apply lookup_delete_eq.
    + done.
  - intros [= <- <- <-]. done.
Qed.

(** ** Expiry *)

Lemma remove_hashes_spec hashes t s :
  NoDup hashes -> (forall h, h ∈ hashes -> is_Some (order_hash_to_order_id t !! h)) ->
  exists t' s' l, remove_hashes t s hashes = Ret (t', s', l) /\
    (forall h, order_hash_to_order_id t' !! h =
      if decide (h ∈ hashes) then None else order_hash_to_order_id t !! h) /\
    (forall a X', address_to_orders t' !! a = Some X' -> exists X,
      address_to_orders t !! a = Some X /\ X' ⊆ X /\
      forall h id, h ∈ hashes -> order_hash_to_order_id t !! h = Some id -> id ∉ X') /\
    cancelled_orders t' = cancelled_orders t /\
    pending_cancellations t' = pending_cancellations t /\
    seen_invalid_orders t' = seen_invalid_orders t /\
    Storage.shrinks s s' /\
    (forall h id, h ∈ hashes -> order_hash_to_order_id t !! h = Some id -> Storage.gone s' id).
Proof.
  revert t s. induction hashes as [|h hashes IH]; intros t s Hnd Hin.
  - exists t, s, []. split; [done|]. split; [intros h; by rewrite decide_False by apply not_elem_of_nil|].
    split; [|do 3 (split; [done|]); split; [done|by intros h id ?%not_elem_of_nil]]. intros a X' HX. exists X'. split; [done|]. split; [done|].
    by intros h id ?%not_elem_of_nil.
  - apply NoDup_cons in Hnd as [Hh Hnd]. cbn [remove_hashes].
    destruct (Hin h (list_elem_of_here _ _)) as [id Hid]. rewrite Hid. cbn [unwrap mbind outcome_bind].
    pose proof (Storage.remove_order_shrinks s id) as Hs1.
    pose proof (Storage.remove_order_gone s id) as Hg1.
    assert (match id_location id with
            | Searcher => Storage.remove_searcher_order s id
            | Limit => Storage.remove_limit_order s id
            end = Storage.remove_order s id) as -> by done.
    destruct (Storage.remove_order s id) as [s1 rm]. cbn [fst] in *.
    edestruct (IH (forget_id (set_ids t (delete h (order_hash_to_order_id t))) id) s1 Hnd)
      as (t' & s' & l & -> & Hids & Haddr & Hc & Hp & Hv & Hs2 & Hg2).
    { intros h' Hh'. cbn. rewrite lookup_delete_ne by (by intros ->). apply Hin. by right. }
    eexists _, _, _. split; [done|]. split; [|split; [|do 3 (split; [done|]); split]].
    + intros h'. rewrite Hids. cbn. destruct (decide (h' = h)) as [->|Hne].
      * rewrite (decide_True (P := h ∈ h :: hashes)) by left.
        case_decide; [done|]. apply lookup_delete_eq.
      * rewrite lookup_delete_ne by done. repeat case_decide; set_solver.
    + intros a X' HX'. destruct (Haddr a X' HX') as (X1 & HX1 & Hsub & Hnot).
      cbn in HX1. apply lookup_fmap_Some in HX1 as (X & <- & HX). exists X.
      split; [done|]. split; [set_solver|]. intros h' id' [->|Hh']%elem_of_cons Hid'.
      * rewrite Hid in Hid'. injection Hid' as <-. set_solver.
      * apply (Hnot h'); [done|]. cbn. rewrite lookup_delete_ne; [done|]. by intros ->.
    + by etrans.
    + intros h' id' [->|Hh']%elem_of_cons Hid'.
      * rewrite Hid in Hid'. injection Hid' as <-. by apply (Storage.gone_shrinks s1).
      * apply (Hg2 h'); [done|]. cbn. rewrite lookup_delete_ne; [done|]. by intros ->.
Qed.

Lemma elem_of_expired_hashes d b t h :
  h ∈ expired_hashes d b t <->
  exists id, order_hash_to_order_id t !! h = Some id /\ is_expired d b id = true.
Proof.
  unfold expired_hashes. rewrite list_elem_of_fmap. split.
  - intros ([k id] & -> & [He Hin]%list_elem_of_filter). exists id.
    split; [by apply elem_of_hm_iter|done].
  - intros (id & Hid & He). exists (h, id). split; [done|].
    apply list_elem_of_filter. split; [done|]. by apply elem_of_hm_iter.
Qed.

Lemma NoDup_expired_hashes d b t : NoDup (expired_hashes d b t).
Proof.
  unfold expired_hashes. eapply sublist_NoDup; [apply (NoDup_hm_keys (order_hash_to_order_id t))|].
  apply fmap_sublist, sublist_filter.
Qed.

Lemma remove_expired_spec now t block s :
  exists t' s' removed, remove_expired_orders now t block s = Ret (t', s', removed) /\
    (forall h id, order_hash_to_order_id t' !! h = Some id <->
      order_hash_to_order_id t !! h = Some id /\
      is_expired (now + ETH_BLOCK_TIME) block id = false) /\
    seen_invalid_orders t' = seen_invalid_orders t /\
    (forall h id a ids, order_hash_to_order_id t !! h = Some id ->
      is_expired (now + ETH_BLOCK_TIME) block id = true ->
      address_to_orders t' !! a = Some ids -> id ∉ ids) /\
    (forall h req, cancelled_orders t' !! h = Some req <->
      cancelled_orders t !! h = Some req /\ (now + ETH_BLOCK_TIME < icr_deadline req)%Z) /\
    Storage.shrinks s s' /\
    (forall h id, order_hash_to_order_id t !! h = Some id ->
      is_expired (now + ETH_BLOCK_TIME) block id = true -> Storage.gone s' id).
Proof.
  unfold remove_expired_orders. set (d := (now + ETH_BLOCK_TIME)%Z).
  set (t0 := clear_cancelled d t). set (hs := expired_hashes d block t0).
  edestruct (remove_hashes_spec hs t0 s) as (t' & s' & l & -> & Hids & Haddr & Hc & _ & Hv & Hs & Hg).
  - apply NoDup_expired_hashes.
  - intros h (id & Hid & _)%elem_of_expired_hashes. by exists id.
  - exists t', s', l. split; [done|]. split; [|split; [done|split; [|split; [|split; [done|]]]]].
    + intros h id. rewrite Hids. case_decide as Hd.
      * apply elem_of_expired_hashes in Hd as (id' & Hid' & He).
        split; [done|]. intros [Hid Hne]. cbn in Hid'. congruence.
      * split; [|by intros [? _]]. intros Hid. split; [done|].
        apply not_true_is_false. intros He. apply Hd, elem_of_expired_hashes. eauto.
    + intros h id a ids Hid He Ha. destruct (Haddr a ids Ha) as (X & _ & _ & Hnot).
      apply (Hnot h); [|done]. apply elem_of_expired_hashes. eauto.
    + intros h req. rewrite Hc. apply map_lookup_filter_Some.
    + intros h id Hid He. apply (Hg h); [|done]. apply elem_of_expired_hashes. eauto.
Qed.

(** Expiry never panics and is exact: the orders tracked afterwards are those
    that neither reach their deadline before the next block nor are for another
    block, an expired order is no longer pending in any pool nor listed under any
    address, and the cancellations kept are those whose deadline is later. *)
Theorem remove_expired_exact (now : u64) (t : OrderTracker) (block : u64)
    (s : Storage.OrderStorage) :
  exists t' s' removed, remove_expired_orders now t block s = Ret (t', s', removed) /\
    (forall h id, order_hash_to_order_id t' !! h = Some id <->
      order_hash_to_order_id t !! h = Some id /\
      is_expired (now + ETH_BLOCK_TIME) block id = false) /\
    (forall h id, order_hash_to_order_id t !! h = Some id ->
      is_expired (now + ETH_BLOCK_TIME) block id = true ->
      Storage.gone s' id /\
      forall a ids, address_to_orders t' !! a = Some ids -> id ∉ ids) /\
    (forall h req, cancelled_orders t' !! h = Some req <->
      cancelled_orders t !! h = Some req /\ (now + ETH_BLOCK_TIME < icr_deadline req)%Z).
Proof.
  destruct (remove_expired_spec now t block s) as (t' & s' & l & ? & ? & _ & ? & ? & _ & ?).
  exists t', s', l. split; [done|]. split; [done|]. split; [|done]. eauto.
Qed.

(** ** Fills *)

Lemma filled_orders_ids orders t s t' s' l :
  filled_orders t s orders = (t', s', l) ->
  (forall h, order_hash_to_order_id t' !! h =
    if decide (h ∈ orders) then None else order_hash_to_order_id t !! h) /\
  cancelled_orders t' = cancelled_orders t /\
  pending_cancellations t' = pending_cancellations t /\
  seen_invalid_orders t' = seen_invalid_orders t /\
  address_to_orders t' = address_to_orders t /\
  Storage.shrinks s s' /\
  (forall h id, h ∈ orders -> order_hash_to_order_id t !! h = Some id -> Storage.gone s' id).
Proof.
  revert t s t' s' l. induction orders as [|h orders IH]; intros t s t' s' l; cbn [filled_orders].
  - intros [= <- <- <-]. split; [|do 5 (split; [done|])].
    + intros h. by rewrite decide_False by apply not_elem_of_nil.
    + by intros h id ?%not_elem_of_nil.
  - destruct (order_hash_to_order_id t !! h) as [id|] eqn:Eid.
    + pose proof (Storage.remove_order_shrinks s id) as Hs1.
      pose proof (Storage.remove_order_gone s id) as Hg1.
      assert (match id_location id with
              | Limit => Storage.remove_limit_order s id
              | Searcher => Storage.remove_searcher_order s id
              end = Storage.remove_order s id) as -> by done.
      destruct (Storage.remove_order s id) as [s1 rm]. cbn [fst] in *.
      destruct (filled_orders _ s1 orders) as [[t1 s2] l1] eqn:E. intros [= <- <- <-].
      destruct (IH _ _ _ _ _ E) as (Hids & ? & ? & ? & ? & Hs2 & Hg2).
      split; [|do 4 (split; [done|]); split; [by etrans|]].
      * intros h'. rewrite Hids. cbn. destruct (decide (h' = h)) as [->|Hne].
        -- rewrite (decide_True (P := h ∈ h :: orders)) by left.
           case_decide; [done|]. apply lookup_delete_eq.
        -- rewrite lookup_delete_ne by done. repeat case_decide; set_solver.
      * intros h' id' Hh' Hid'. destruct (decide (h' = h)) as [->|Hne].
        -- rewrite Eid in Hid'. injection Hid' as <-. by apply (Storage.gone_shrinks s1).
        -- apply (Hg2 h'); [set_solver|]. cbn. by rewrite lookup_delete_ne.
    + intros E. destruct (IH _ _ _ _ _ E) as (Hids & ? & ? & ? & ? & ? & Hg2).
      split; [|do 5 (split; [done|])].
      * intros h'. rewrite Hids. destruct (decide (h' = h)) as [->|Hne].
        -- rewrite (decide_True (P := h ∈ h :: orders)) by left. by case_decide.
        -- repeat case_decide; set_solver.
      * intros h' id' [->|Hh']%elem_of_cons Hid'; [congruence|]. by apply (Hg2 h').
Qed.
End tracker.
