(* ===== verification/Indexer.v ===== *)
(** * The order indexer

    The model of [crates/order-pool/src/order_indexer.rs], which drives the
    storage, the tracker, the validator and the subscriptions, and of
    [CancelOrderRequest] of [crates/types/primitives/src/orders].  [now] is the
    system clock; the futures that are ready at each poll are inputs. *)

From S2P Require Import Prelude Ray Orders Samples Subscribers.
From S2P Require Validator Tracker Storage SearcherPool SearcherPending LimitPending.
From S2P Require Parked LimitPool Composable LimitOrders Finalization.

(** ** Cancellation requests *)

(** What the request uses of [alloy] and [pade]: how they print a hash and an
    address, how a signature is decoded, and whose signature it is. *)
Class SignatureLib : Type := {
  fmt_b256 : B256 -> string;
  fmt_address : Address -> string;
  Signature : Type;
  decode_signature : list Z -> option Signature;
  recover_address_from_msg : Signature -> string -> option Address
}.

Record CancelOrderRequest := {
  signature : list Z;
  user_address : Address;
  cancel_order_id : B256
}.

Definition signing_payload `{SignatureLib} (r : CancelOrderRequest) : string :=
  ("canceling order: " +:+ fmt_b256 (cancel_order_id r) +:+ " for user: " +:+
   fmt_address (user_address r))%string.

(** [CancelOrderRequest::is_valid]. *)
Definition request_is_valid `{SignatureLib} (r : CancelOrderRequest) : bool :=
  let msg := signing_payload r in
  match decode_signature (signature r) with
  | None => false
  | Some sig =>
      match recover_address_from_msg sig msg with
      | None => false
      | Some sender => Z.eqb sender (user_address r)
      end
  end.

(** ** State *)

Record OrderIndexer := {
  order_storage : Storage.OrderStorage;
  block_number : u64;
  order_tracker : Tracker.OrderTracker;
  validator : Validator.OrderValidator;
  subscribers : OrderSubscriptionTracker
}.

Inductive PoolInnerEvent :=
| Propagation (order : AllOrders)
| BadOrderMessages (peers : list PeerId)
| HasTransitionedToNewBlock (block : u64)
| NoEvent.

Implicit Types (i : OrderIndexer) (h : B256).

Definition with_storage i s : OrderIndexer :=
  Build_OrderIndexer s (block_number i) (order_tracker i) (validator i) (subscribers i).
Definition with_block i b : OrderIndexer :=
  Build_OrderIndexer (order_storage i) b (order_tracker i) (validator i) (subscribers i).
Definition with_tracker i t : OrderIndexer :=
  Build_OrderIndexer (order_storage i) (block_number i) t (validator i) (subscribers i).
Definition with_validator i v : OrderIndexer :=
  Build_OrderIndexer (order_storage i) (block_number i) (order_tracker i) v (subscribers i).
Definition with_subscribers i u : OrderIndexer :=
  Build_OrderIndexer (order_storage i) (block_number i) (order_tracker i) (validator i) u.

Section indexer.
Context `{AL : ArithLib} `{OH : OrderHasher} `{HI : HashIter} `{SL : SignatureLib}.

Definition new (s : Storage.OrderStorage) (block : u64) : OrderIndexer :=
  {| order_storage := s; block_number := block; order_tracker := Tracker.new;
     validator := Validator.new; subscribers := Subscribers.new |}.

Definition set_tracker i (t : Tracker.OrderTracker) : OrderIndexer := with_tracker i t.

Definition pending_orders_for_address i (address : Address)
    : list (OrderWithStorageData AllOrders) :=
  (Tracker.pending_orders_for_address (order_tracker i) address (order_storage i)
    (fun id s => (s, Storage.get_order_from_id s id))).2.

Definition orders_by_pool i (pool : PoolId) (location : OrderLocation) : list AllOrders :=
  Storage.get_orders_by_pool (order_storage i) pool location.

Definition order_status i h : outcome (option OrderStatus) :=
  Storage.fetch_status_of_order (order_storage i) h.

Definition remove_pool i (key : PoolId) : OrderIndexer :=
  let '(s, orders) := Storage.remove_pool (order_storage i) key in
  with_subscribers
    (with_tracker (with_storage i s) (Tracker.handle_pool_removed (order_tracker i) orders))
    (notify_expired_orders (subscribers i) orders).

(** ** New orders *)

Definition new_order i (peer_id : option PeerId) (origin : OrderOrigin) (o : AllOrders)
    (validation_res_sub : option Sender) : OrderIndexer :=
  let hash := order_hash o in
  let i := match validation_res_sub with
           | Some tx => with_subscribers i (subscribe_to_order (subscribers i) hash tx)
           | None => i
           end in
  if Tracker.is_valid_cancel (order_tracker i) hash (from o) then
    with_subscribers i (notify_validation_subscribers (subscribers i) hash
      (Invalid hash Orders.CancelledOrder))
  else if Tracker.is_duplicate (order_tracker i) hash then
    with_subscribers i (notify_validation_subscribers (subscribers i) hash
      (Invalid hash DuplicateOrder))
  else
    let i := with_tracker i (Tracker.track_peer_id (order_tracker i) hash peer_id) in
    if Tracker.currently_validating (order_tracker i) hash then i
    else
      let i := with_tracker i (Tracker.start_validating (order_tracker i) hash) in
      with_validator i (Validator.validate_order (validator i) origin o).

Definition new_rpc_order i (origin : OrderOrigin) (o : AllOrders) (validation_tx : Sender)
    : OrderIndexer := new_order i None origin o (Some validation_tx).

Definition new_network_order i (peer_id : PeerId) (origin : OrderOrigin) (o : AllOrders)
    : OrderIndexer := new_order i (Some peer_id) origin o None.

(** ** Cancellation *)

(** [orders.into_iter().for_each(|order| validator.validate_order(origin, order.order))] *)
Definition validate_all (origin : OrderOrigin) (v : Validator.OrderValidator)
    (orders : list (OrderWithStorageData AllOrders)) : Validator.OrderValidator :=
  foldl (fun v o => Validator.validate_order v origin (order o)) v orders.

(** The tracked order, if any, belongs to another address. *)
Definition owned_by_other i (r : CancelOrderRequest) : bool :=
  match Tracker.order_hash_to_order_id (order_tracker i) !! cancel_order_id r with
  | Some id => negb (Z.eqb (id_address id) (user_address r))
  | None => false
  end.

(** The address has cancelled the order before. *)
Definition already_cancelled i (r : CancelOrderRequest) : bool :=
  match Tracker.cancelled_orders (order_tracker i) !! cancel_order_id r with
  | Some request_order =>
      Tracker.owner_verified request_order &&
      Z.eqb (Tracker.icr_from request_order) (user_address r)
  | None => false
  end.

Definition cancel_order (now : u64) i (r : CancelOrderRequest) : OrderIndexer * bool :=
  if negb (request_is_valid r) then (i, false)
  else if owned_by_other i r then (i, false)
  else if already_cancelled i r then (i, true)
  else if Tracker.is_seen_invalid (order_tracker i) (cancel_order_id r) then (i, false)
  else
    let '(t, s, res) := Tracker.cancel_order now (order_tracker i) (user_address r)
                          (cancel_order_id r) (order_storage i) in
    let i := with_storage (with_tracker i t) s in
    match res with
    | None => (i, false)
    | Some (is_tob, pool) =>
        let i := with_validator i
          (Validator.cancel_order (validator i) (user_address r) (cancel_order_id r)) in
        let '(s, orders) := Tracker.pending_orders_for_address (order_tracker i)
          (user_address r) (order_storage i)
          (fun id s => Storage.remove_parked_order s id) in
        let i := with_validator (with_storage i s)
          (validate_all ReValidation (validator i) orders) in
        (with_subscribers i (notify_order_subscribers (subscribers i)
          (Subscribers.CancelledOrder is_tob (user_address r) pool (cancel_order_id r))), true)
    end.

(** ** Chain events *)

Definition revalidate_id (id : OrderId) (st : Storage.OrderStorage * Validator.OrderValidator)
    : Storage.OrderStorage * Validator.OrderValidator :=
  let '(s, v) := st in
  match Storage.remove_order_from_id s id with
  | (s', Some o) => (s', Validator.validate_order v ReValidation (order o))
  | (s', None) => (s', v)
  end.

Definition eoa_state_change i (eoas : list Address) : OrderIndexer :=
  let '(t, (s, v)) := Tracker.eoa_state_changes (order_tracker i) eoas
    (order_storage i, validator i) revalidate_id in
  with_validator (with_storage (with_tracker i t) s) v.

Definition finalized_block i (block : u64) : OrderIndexer :=
  with_storage i (Storage.finalized_block (order_storage i) block).

Definition reorg_one i (o : OrderWithStorageData AllOrders) : OrderIndexer :=
  with_validator
    (with_subscribers i (notify_order_subscribers (subscribers i) (UnfilledOrders o)))
    (Validator.validate_order (validator i) Local (order o)).

Definition reorg i (orders : list B256) : OrderIndexer :=
  let '(s, back) := Storage.reorg (order_storage i) orders in
  foldl reorg_one (with_storage i s) back.

Definition filled_orders i (block : u64) (orders : list B256) : outcome OrderIndexer :=
  match orders with
  | [] => Ret i
  | _ :: _ =>
      let '(t, s, filled) := Tracker.filled_orders (order_tracker i) (order_storage i) orders in
      let u := foldl notify_order_subscribers (subscribers i) (FilledOrder block <$> filled) in
      s' ← Storage.add_filled_orders s block filled;
      Ret (with_subscribers (with_storage (with_tracker i t) s') u)
  end.

(** ** Validation results *)

Fixpoint take_invalidated (t : Tracker.OrderTracker) (s : Storage.OrderStorage)
    (invalidates : list B256) : Storage.OrderStorage * list (OrderWithStorageData AllOrders) :=
  match invalidates with
  | [] => (s, [])
  | h :: rest =>
      match Tracker.order_hash_to_order_id t !! h with
      | None => take_invalidated t s rest
      | Some id =>
          let '(s', r) := Storage.remove_order_from_id s id in
          let '(s'', rs) := take_invalidated t s' rest in
          (s'', option_list r ++ rs)
      end
  end.

Definition revalidate_one i (o : OrderWithStorageData AllOrders) : OrderIndexer :=
  with_validator
    (with_tracker i (Tracker.start_validating (order_tracker i) (order_hash (order o))))
    (Validator.validate_order (validator i) ReValidation (order o)).

Definition revalidate_invalidated_orders i (invalidates : list B256) : OrderIndexer :=
  let '(s, orders) := take_invalidated (order_tracker i) (order_storage i) invalidates in
  foldl revalidate_one (with_storage i s) orders.

Definition as_tob (o : AllOrders) : option TopOfBlockOrder :=
  match o with TOB t => Some t | _ => None end.

(** The pool errors that [insert_order] reports. *)
Inductive InsertError :=
| LimitError (e : LimitPool.LimitPoolError)
| SearcherError (e : SearcherPool.SearcherPoolError).

Definition map_err {A E F} (f : E -> F) (r : result A E) : result A F :=
  match r with Ok a => Ok a | Err e => Err (f e) end.

Definition insert_order i (o : OrderWithStorageData AllOrders)
    : outcome (OrderIndexer * result unit InsertError) :=
  match id_location (order_id o) with
  | Searcher =>
      t ← unwrap (try_map_inner as_tob o);
      let '(s, r) := Storage.add_new_searcher_order (order_storage i) t in
      Ret (with_storage i s, map_err SearcherError r)
  | Limit =>
      let '(s, r) := Storage.add_new_limit_order (order_storage i) o in
      Ret (with_storage i s, map_err LimitError r)
  end.

(** The result was computed for another block. *)
Definition handle_stale i (valid : OrderWithStorageData AllOrders)
    : OrderIndexer * PoolInnerEvent :=
  let hash := order_hash (order valid) in
  let i := with_subscribers i (try_notify_validation_subscribers (subscribers i) hash
    (Invalid hash InvalidOrderAtBlock)) in
  let i := with_validator i
    (Validator.cancel_order (validator i) (from (order valid)) hash) in
  let i := revalidate_invalidated_orders i (invalidates valid) in
  let '(t, peers) := Tracker.invalid_verification (order_tracker i) hash in
  (with_tracker i t, BadOrderMessages peers).

(** The owner cancelled while the order was being validated. *)
Definition handle_cancelled (now : u64) i (valid : OrderWithStorageData AllOrders)
    : OrderIndexer * PoolInnerEvent :=
  let hash := order_hash (order valid) in
  let i := with_validator i
    (Validator.cancel_order (validator i) (from (order valid)) hash) in
  let i := revalidate_invalidated_orders i (invalidates valid) in
  let t := order_tracker i in
  let t := Tracker.set_peers t (delete hash (Tracker.order_hash_to_peer_id t)) in
  let was_announced := bool_decide (is_Some (Tracker.order_hash_to_order_id t !! hash)) in
  let t := Tracker.set_ids t (delete hash (Tracker.order_hash_to_order_id t)) in
  let t := Tracker.insert_cancel_with_deadline now t (from (order valid)) hash
    (deadline (order valid)) in
  let i := with_tracker i t in
  let i := if was_announced then
      with_subscribers i (notify_order_subscribers (subscribers i)
        (Subscribers.CancelledOrder
          (bool_decide (id_location (order_id valid) = Searcher))
          (from (order valid)) (pool_id valid) hash))
    else i in
  (with_subscribers i (try_notify_validation_subscribers (subscribers i) hash
     (Invalid hash Orders.CancelledOrder)), NoEvent).

Definition accept_order i (valid : OrderWithStorageData AllOrders)
    : outcome (OrderIndexer * PoolInnerEvent) :=
  let hash := order_hash (order valid) in
  let i := with_subscribers i (notify_order_subscribers (subscribers i) (NewOrder valid)) in
  let i := with_subscribers i
    (try_notify_validation_subscribers (subscribers i) hash
      match is_currently_valid valid with
      | Some error => Invalid hash (StateError error)
      | None => Valid valid
      end) in
  let to_propagate := order valid in
  let i := with_tracker i
    (Tracker.new_valid_order (order_tracker i) hash (from (order valid)) (order_id valid)) in
  let i := revalidate_invalidated_orders i (invalidates valid) in
  '(i, _) ← insert_order i valid;
  Ret (i, Propagation to_propagate).

Definition handle_validated_order (now : u64) i (res : OrderValidationResults)
    : outcome (OrderIndexer * PoolInnerEvent) :=
  match res with
  | Valid valid =>
      let hash := order_hash (order valid) in
      let i := with_tracker i (Tracker.stop_validating (order_tracker i) hash) in
      if negb (Z.eqb (valid_block valid) (block_number i)) then Ret (handle_stale i valid)
      else if Tracker.is_valid_cancel (order_tracker i) hash (from (order valid)) then
        Ret (handle_cancelled now i valid)
      else accept_order i valid
  | Invalid hash _ =>
      let i := with_tracker i (Tracker.stop_validating (order_tracker i) hash) in
      let i := with_subscribers i
        (try_notify_validation_subscribers (subscribers i) hash res) in
      let i := with_storage i (Storage.remove_invalid_order (order_storage i) hash) in
      let '(t, peers) := Tracker.invalid_verification (order_tracker i) hash in
      Ret (with_tracker i t, BadOrderMessages peers)
  | TransitionedToBlock new_gas_updates =>
      '(s, parked_orders) ←
        Storage.apply_new_gas_and_return_blocked_orders (order_storage i) new_gas_updates;
      Ret (with_validator (with_storage i s)
             (foldl (fun v o => Validator.validate_order v ReValidation o) (validator i)
               parked_orders), NoEvent)
  end.

(** ** Queries *)

Definition get_all_orders_with_cancelled i : outcome Storage.OrderSet :=
  Storage.get_all_orders_with_ingoing_cancellations (order_storage i).

Definition get_all_orders_with_parked i : outcome Storage.OrderSet :=
  Storage.get_all_orders_with_parked (order_storage i).

Definition get_all_orders i : outcome Storage.OrderSet :=
  Storage.get_all_orders (order_storage i).

(** ** Block transitions *)

Definition start_new_block_processing i (block : u64) (completed_orders : list B256)
    (address_changes : list Address) : outcome OrderIndexer :=
  v ← Validator.on_new_block (validator i) block completed_orders address_changes;
  Ret (with_validator i v).

Definition purge_cancelled (now : u64) i : OrderIndexer :=
  let '(s, tobs) := Storage.purge_tob_orders (order_storage i) in
  let t := foldl (fun t o => Tracker.insert_cancel_with_deadline now t (from (order o))
    (order_hash (order o)) (deadline (order o))) (order_tracker i) tobs in
  let '(s, users) := Storage.purge_user_orders s in
  let t := foldl (fun t o => Tracker.insert_cancel_with_deadline now t (from (order o))
    (order_hash (order o)) (deadline (order o))) t users in
  with_tracker (with_storage i s) t.

Definition finish_new_block_processing (now : u64) i (block : u64)
    (completed_orders : list B256) (address_changes : list Address) : outcome OrderIndexer :=
  let i := with_block i block in
  let i := with_tracker i (Tracker.clear_invalid (order_tracker i)) in
  i ← filled_orders i block completed_orders;
  let i := purge_cancelled now i in
  '(t, s, expired_orders) ←
    Tracker.remove_expired_orders now (order_tracker i) block (order_storage i);
  let i := with_storage (with_tracker i t) s in
  let i := with_subscribers i (notify_expired_orders (subscribers i) expired_orders) in
  let i := eoa_state_change i address_changes in
  let completed_orders :=
    completed_orders ++ ((fun o => id_hash (order_id o)) <$> expired_orders) in
  Ret (with_validator i (Validator.notify_validation_on_changes (validator i) block
    completed_orders address_changes)).

Definition new_pool i (pool : NewInitializedPool) : outcome OrderIndexer :=
  s ← Storage.new_pool (order_storage i) pool; Ret (with_storage i s).

(** One turn of the [while let] of [poll_next]. *)
Definition handle_res (now : u64) i (next : Validator.OrderValidatorRes)
    : outcome (OrderIndexer * list PoolInnerEvent) :=
  match next with
  | Validator.EnsureClearForTransition block orders addresses =>
      i ← finish_new_block_processing now i block orders addresses; Ret (i, [])
  | Validator.ValidatedOrder next =>
      '(i, prop) ← handle_validated_order now i next; Ret (i, [prop])
  | Validator.TransitionComplete => Ret (i, [HasTransitionedToNewBlock (block_number i)])
  end.

(** Nothing is ready. *)
Definition idle : Validator.Readiness :=
  {| Validator.finished := None; Validator.informed := None |}.

(** The loop of [poll_next], over what is ready at each of its polls; after the
    last of them nothing is ready any more.  A poll at which nothing is ready can
    still end the clearing for a new block, which happens once. *)
Fixpoint poll_loop (now : u64) i (rs : list Validator.Readiness)
    : outcome (OrderIndexer * list PoolInnerEvent) :=
  match rs with
  | [] =>
      match Validator.poll_next (validator i) idle with
      | (v, Validator.Ready (Some next)) => handle_res now (with_validator i v) next
      | (v, _) => Ret (with_validator i v, [])
      end
  | r :: rs' =>
      match Validator.poll_next (validator i) r with
      | (v, Validator.Ready (Some next)) =>
          '(i, evs) ← handle_res now (with_validator i v) next;
          '(i, evs') ← poll_loop now i rs';
          Ret (i, evs ++ evs')
      | (v, _) => Ret (with_validator i v, [])
      end
  end.

Definition poll_next (now : u64) i (rs : list Validator.Readiness)
    : outcome (OrderIndexer * Validator.Poll (option (list PoolInnerEvent))) :=
  '(i, validated) ← poll_loop now i rs;
  Ret (i, match validated with
          | [] => Validator.NotReady
          | _ :: _ => Validator.Ready (Some validated)
          end).
End indexer.
