(* ===== verification/IndexerProps.v ===== *)
(** * Properties of the order indexer

    What [Indexer] guarantees: who can cancel an order, which validation results
    change the pool, that an order is validated once, and how a block transition
    leaves the state. *)

From S2P Require Import Prelude Ray Orders Samples Subscribers.
From S2P Require Validator Tracker Storage SearcherPool SearcherPending LimitPending.
From S2P Require Parked LimitPool Composable LimitOrders Finalization.
From S2P Require Import Indexer.

Section props.
Context `{AL : ArithLib} `{OH : OrderHasher} `{HI : HashIter} `{SL : SignatureLib}.
Implicit Types (i : OrderIndexer) (h : B256) (s : Storage.OrderStorage).

(** ** Revalidation *)

Lemma take_invalidated_shrinks t s hs : Storage.shrinks s (take_invalidated t s hs).1.
Proof.
  revert s. induction hs as [|h hs IH]; intros s; cbn [take_invalidated]; [done|].
  destruct (Tracker.order_hash_to_order_id t !! h) as [id|]; [|apply IH].
  pose proof (Storage.remove_order_shrinks s id) as H1.
  rewrite <-Storage.remove_order_from_id_alt in H1.
  destruct (Storage.remove_order_from_id s id) as [s1 r]. specialize (IH s1).
  destruct (take_invalidated t s1 hs) as [s2 rs]. by etrans.
Qed.

Lemma foldl_revalidate_one i os : exists X v,
  foldl revalidate_one i os =
  with_validator (with_tracker i (Tracker.set_validating (order_tracker i) X)) v.
Proof.
  revert i. induction os as [|o os IH]; intros i; cbn [foldl].
  - exists (Tracker.is_validating (order_tracker i)), (validator i). by destruct i as [? ? [] ? ?].
  - destruct (IH (revalidate_one i o)) as (X & v & ->). by exists X, v.
Qed.

(** Revalidation takes orders out of the storage, marks them as being validated
    and submits them; nothing else of the indexer changes. *)
Lemma revalidate_spec i hs : exists s X v,
  revalidate_invalidated_orders i hs =
    with_validator (with_tracker (with_storage i s)
      (Tracker.set_validating (order_tracker i) X)) v /\
  Storage.shrinks (order_storage i) s.
Proof.
  unfold revalidate_invalidated_orders.
  pose proof (take_invalidated_shrinks (order_tracker i) (order_storage i) hs) as Hs.
  destruct (take_invalidated _ _ hs) as [s os].
  destruct (foldl_revalidate_one (with_storage i s) os) as (X & v & ->).
  by exists s, X, v.
Qed.

(** ** Validation results that are not applied *)

(** Closes goals about an indexer given by its field updates. *)
Ltac solve_fields := repeat (split; cbn; try done).

(** A result computed for another block is not applied: no order is inserted,
    the order is not tracked anew and not propagated, it is remembered as
    invalid, and the validation service is told to release what it reserved. *)
Theorem stale_result_not_applied (now : u64) (i : OrderIndexer)
    (o : OrderWithStorageData AllOrders) (Hstale : valid_block o <> block_number i) :
  exists i' peers, handle_validated_order now i (Valid o) = Ret (i', BadOrderMessages peers) /\
    Storage.shrinks (order_storage i) (order_storage i') /\
    Tracker.order_hash_to_order_id (order_tracker i') =
      Tracker.order_hash_to_order_id (order_tracker i) /\
    Tracker.is_seen_invalid (order_tracker i') (order_hash (order o)) = true /\
    sent_updates (subscribers i') = sent_updates (subscribers i).
Proof.
  cbn [handle_validated_order with_tracker block_number].
  rewrite (proj2 (Z.eqb_neq _ _) Hstale). cbn [negb].
  unfold handle_stale. set (j := with_validator _ _).
  destruct (revalidate_spec j (invalidates o)) as (s & X & v & -> & Hs).
  cbn [Tracker.invalid_verification]. eexists _, _. split; [done|]. split; [done|].
  split; [done|]. split.
  - unfold Tracker.is_seen_invalid. apply bool_decide_true. cbn. set_solver.
  - cbn. unfold try_notify_validation_subscribers. by case_match.
Qed.


(** ** Cancellation *)

(** C2. A cancellation succeeds only with a valid signature of the address that
    the order belongs to, or of the one whose cancellation of it is already
    confirmed; a request of anyone else for a tracked order changes nothing. *)
Theorem cancel_requires_owner (now : u64) (i i' : OrderIndexer) (r : CancelOrderRequest)
    (ok : bool) (Hcancel : cancel_order now i r = (i', ok)) :
  (ok = true -> request_is_valid r = true /\
    ((exists id, Tracker.order_hash_to_order_id (order_tracker i) !! cancel_order_id r = Some id /\
       id_address id = user_address r) \/
     (exists req, Tracker.cancelled_orders (order_tracker i) !! cancel_order_id r = Some req /\
       Tracker.owner_verified req = true /\ Tracker.icr_from req = user_address r))) /\
  (forall id, Tracker.order_hash_to_order_id (order_tracker i) !! cancel_order_id r = Some id ->
    id_address id <> user_address r -> i' = i /\ ok = false).
Proof.
  unfold cancel_order in Hcancel.
  destruct (request_is_valid r); cbn [negb] in Hcancel; [|by injection Hcancel as <- <-].
  destruct (owned_by_other i r) eqn:Eo; [by injection Hcancel as <- <-|].
  assert (forall id, Tracker.order_hash_to_order_id (order_tracker i) !! cancel_order_id r
    = Some id -> id_address id = user_address r) as Hown.
  { intros id Hid. unfold owned_by_other in Eo. rewrite Hid in Eo.
    by apply negb_false_iff, Z.eqb_eq in Eo. }
  split; [|intros id Hid Hne; by destruct Hne; apply Hown].
  intros ->. split; [done|].
  destruct (already_cancelled i r) eqn:Ea.
  { right. unfold already_cancelled in Ea. destruct (Tracker.cancelled_orders _ !! _) as [req|];
      [|done]. apply andb_true_iff in Ea as [? ?%Z.eqb_eq]. eauto. }
  left. destruct (Tracker.is_seen_invalid _ _); [done|].
  destruct (Tracker.cancel_order _ _ _ _ _) as [[t s] res] eqn:Et.
  apply Tracker.cancel_order_owner in Et.
  destruct (Tracker.order_hash_to_order_id _ !! _) as [id|]; [by eauto|].
  destruct Et as [-> ->]. done.
Qed.

(** ** New orders *)

(** An order that the indexer does not submit. *)
Definition refused i (o : AllOrders) : bool :=
  Tracker.is_valid_cancel (order_tracker i) (order_hash o) (from o) ||
  Tracker.is_duplicate (order_tracker i) (order_hash o) ||
  Tracker.currently_validating (order_tracker i) (order_hash o).

Lemma new_order_validator i peer origin o sub :
  validator (new_order i peer origin o sub) =
    (if refused i o then validator i else Validator.validate_order (validator i) origin o) /\
  refused (new_order i peer origin o sub) o = true /\
  order_storage (new_order i peer origin o sub) = order_storage i.
Proof.
  unfold new_order, refused.
  set (j := match sub with Some _ => _ | None => i end).
  assert (order_tracker j = order_tracker i /\ validator j = validator i /\
    order_storage j = order_storage i) as (Ht & Hv & Hs) by by destruct sub.
  rewrite <-!Ht, <-Hv, <-Hs.
  destruct (Tracker.is_valid_cancel _ _ _) eqn:Ec.
  { cbn [with_subscribers order_tracker validator order_storage]. by rewrite Ec. }
  destruct (Tracker.is_duplicate _ _) eqn:Ed.
  { cbn [with_subscribers order_tracker validator order_storage]. by rewrite Ec, Ed. }
  cbn [orb]. cbn [with_tracker order_tracker].
  assert (Tracker.currently_validating
    (Tracker.track_peer_id (order_tracker j) (order_hash o) peer) (order_hash o) =
    Tracker.currently_validating (order_tracker j) (order_hash o)) as -> by by destruct peer.
  destruct (Tracker.currently_validating _ _) eqn:Ev; cbn.
  - split; [done|]. split; [|done]. apply orb_true_iff. right.
    by destruct peer.
  - split; [done|]. split; [|done]. apply orb_true_iff. right.
    unfold Tracker.currently_validating. apply bool_decide_true. cbn. set_solver.
Qed.

Lemma new_order_duplicate i peer origin o sub :
  Tracker.is_duplicate (order_tracker i) (order_hash o) = true ->
  validator (new_order i peer origin o sub) = validator i.
Proof.
  intros Hd. destruct (new_order_validator i peer origin o sub) as (-> & _ & _).
  unfold refused. by rewrite Hd, orb_true_r.
Qed.


(** ** Accepted orders *)

(** A valid limit order of a known pool, for the current block and not
    cancelled, is stored in the pending pool under its hash, tracked under its
    hash and its owner, and propagated. *)
Theorem accepted_limit_order_stored (now : u64) (i : OrderIndexer)
    (o : OrderWithStorageData AllOrders)
    (Hblock : valid_block o = block_number i)
    (Hopen : Tracker.is_valid_cancel (order_tracker i) (order_hash (order o)) (from (order o))
      = false)
    (Hloc : id_location (order_id o) = Limit) (Hvan : is_vanilla (order o) = true)
    (Hcur : is_currently_valid o = None)
    (Hpool : is_Some (LimitPool.pending_orders (LimitOrders.limit_orders
      (Storage.limit_orders (order_storage i))) !! pool_id o)) :
  exists i', handle_validated_order now i (Valid o) = Ret (i', Propagation (order o)) /\
    LimitPool.in_pending (LimitOrders.limit_orders (Storage.limit_orders (order_storage i')))
      (pool_id o) (id_hash (order_id o)) = Some o /\
    Tracker.order_hash_to_order_id (order_tracker i') !! order_hash (order o)
      = Some (order_id o) /\
    exists ids, Tracker.address_to_orders (order_tracker i') !! from (order o) = Some ids /\
      order_id o ∈ ids.
Proof.
  cbn [handle_validated_order with_tracker block_number order_tracker].
  rewrite (proj2 (Z.eqb_eq _ _) Hblock). cbn [negb].
  change (Tracker.is_valid_cancel (Tracker.stop_validating (order_tracker i)
    (order_hash (order o))) (order_hash (order o)) (from (order o)))
    with (Tracker.is_valid_cancel (order_tracker i) (order_hash (order o)) (from (order o))).
  rewrite Hopen. unfold accept_order. set (j := with_tracker _ (Tracker.new_valid_order _ _ _ _)).
  destruct (revalidate_spec j (invalidates o)) as (s & X & v & -> & Hs).
  apply (Storage.shrinks_limit_pools _ _ Hs) in Hpool as [q Hq].
  unfold insert_order. rewrite Hloc. cbn [with_validator with_tracker with_storage order_storage].
  unfold Storage.add_new_limit_order. rewrite Hvan.
  unfold LimitOrders.add_vanilla_order, LimitPool.add_order, currently_valid.
  rewrite Hcur, Hq. eexists. split; [done|]. split; [|split].
  - cbn. rewrite LimitPool.in_pending_set_pending, decide_True by done.
    by rewrite LimitPending.limit_pending_orders_add_order, lookup_insert_eq.
  - apply lookup_insert_eq.
  - eexists. split; [apply lookup_insert_eq|]. set_solver.
Qed.

(** ** Orders that fail revalidation *)

Lemma remove_invalid_order_gone s h pool :
  LimitPool.in_pending (LimitOrders.limit_orders
    (Storage.limit_orders (Storage.remove_invalid_order s h))) pool h = None /\
  LimitPool.in_parked (LimitOrders.limit_orders
    (Storage.limit_orders (Storage.remove_invalid_order s h))) pool h = None /\
  SearcherPool.get_order (Storage.searcher_orders (Storage.remove_invalid_order s h)) pool h
    = None.
Proof.
  unfold LimitPool.in_pending, LimitPool.in_parked, SearcherPool.get_order. cbn.
  rewrite !lookup_fmap. split; [|split].
  - destruct (LimitPool.pending_orders _ !! pool); [|done]. cbn.
    rewrite LimitPending.limit_pending_orders_remove_order. apply lookup_delete_eq.
  - destruct (LimitPool.parked_orders _ !! pool); [|done]. cbn. apply lookup_delete_eq.
  - destruct (SearcherPool.searcher_orders _ !! pool); [|done]. cbn.
    unfold SearcherPending.get_order. rewrite SearcherPending.searcher_pending_orders_remove_order.
    apply lookup_delete_eq.
Qed.

(** A tracked order that fails its revalidation leaves every pool but stays
    tracked: submitting it again is refused as a duplicate and not validated,
    even after the orders seen as invalid have been forgotten at a new block. *)
Theorem failed_revalidation_stays_duplicate (now : u64) (i : OrderIndexer) (o : AllOrders)
    (id : OrderId) (err : OrderValidationError) (peer : option PeerId) (origin : OrderOrigin)
    (sub : option nat)
    (Hid : Tracker.order_hash_to_order_id (order_tracker i) !! order_hash o = Some id) :
  exists i' peers, handle_validated_order now i (Invalid (order_hash o) err)
      = Ret (i', BadOrderMessages peers) /\
    (forall pool, LimitPool.in_pending (LimitOrders.limit_orders
      (Storage.limit_orders (order_storage i'))) pool (order_hash o) = None) /\
    let next := with_tracker i' (Tracker.clear_invalid (order_tracker i')) in
    Tracker.is_seen_invalid (order_tracker next) (order_hash o) = false /\
    validator (new_order next peer origin o sub) = validator next.
Proof.
  cbn [handle_validated_order Tracker.invalid_verification]. eexists _, _. split; [done|].
  split; [intros pool; apply remove_invalid_order_gone|]. cbn zeta. split; [done|].
  apply new_order_duplicate, orb_true_iff. left. apply bool_decide_true. by exists id.
Qed.

(** ** Reorganisations *)

Lemma foldl_reorg_one i os :
  Validator.outstanding (validator (foldl reorg_one i os)) ≡ₚ
    ((fun o => (Local, order o)) <$> os) ++ Validator.outstanding (validator i) /\
  order_storage (foldl reorg_one i os) = order_storage i.
Proof.
  revert i. induction os as [|o os IH]; intros i; [done|].
  cbn [foldl]. destruct (IH (reorg_one i o)) as [Hp Hs]. split; [|done].
  rewrite Hp. cbn [reorg_one with_validator validator].
  rewrite Validator.validate_order_outstanding. cbn [fmap list_fmap].
  symmetry. apply Permutation_middle.
Qed.

(** After a reorganisation every order that was filled in the abandoned
    block and still awaited finality is submitted for validation again, once,
    and none of them awaits finality. *)
Theorem reorg_revalidates (i : OrderIndexer) (hs : list B256) :
  exists back, Validator.outstanding (validator (reorg i hs)) ≡ₚ
      ((fun o => (Local, order o)) <$> back) ++ Validator.outstanding (validator i) /\
    (NoDup hs -> back = omap (fun h => Finalization.id_to_orders
      (Storage.pending_finalization_orders (order_storage i)) !! h) hs) /\
    forall h, h ∈ hs -> Finalization.has_order
      (Storage.pending_finalization_orders (order_storage (reorg i hs))) h = false.
Proof.
  unfold reorg, Storage.reorg, Finalization.reorg.
  set (f := Storage.pending_finalization_orders (order_storage i)).
  pose proof (Finalization.take_all_lookup (Finalization.id_to_orders f) hs) as Hl.
  pose proof (Finalization.take_all_NoDup (Finalization.id_to_orders f) hs) as Hnd.
  destruct (Finalization.take_all _ hs) as [m back]. cbn [fst snd] in *.
  destruct (foldl_reorg_one (with_storage i (Storage.set_finalization (order_storage i)
    (Finalization.Build_FinalizationPool m (Finalization.block_to_ids f)))) back) as [Hp Hs].
  exists back. split; [exact Hp|]. split; [exact Hnd|]. intros h Hh. rewrite Hs.
  unfold Finalization.has_order. apply bool_decide_false. cbn. rewrite Hl, decide_True by done.
  apply is_Some_None.
Qed.

(** ** Cancelled top-of-block orders *)

(** No parked or composable limit order shares the place of a searcher order. *)
Definition no_limit_twin s (id : OrderId) : Prop :=
  LimitPool.in_parked (LimitOrders.limit_orders (Storage.limit_orders s))
    (id_pool_id id) (id_hash id) = None /\
  Composable.get_order (LimitOrders.composable_orders (Storage.limit_orders s))
    (id_pool_id id) (id_hash id) = None.

Lemma no_limit_twin_shrinks s s' id :
  Storage.shrinks s s' -> no_limit_twin s id -> no_limit_twin s' id.
Proof.
  intros Hs [H1 H2]. split; apply eq_None_not_Some; intros [o Ho].
  - by rewrite (Storage.shrinks_parked _ _ Hs _ _ _ Ho) in H1.
  - by rewrite (Storage.shrinks_composable _ _ Hs _ _ _ Ho) in H2.
Qed.

Lemma composable_remove_missing c pool h :
  Composable.get_order c pool h = None -> (Composable.remove_order c pool h).2 = None.
Proof.
  unfold Composable.get_order, Composable.remove_order.
  destruct (Composable.map c !! pool) as [q|]; [|done]. cbn.
  unfold LimitPending.get_order, LimitPending.remove_order. by intros ->.
Qed.

(** [remove_parked_order] falls back to the searcher pool. *)
Lemma remove_parked_takes_searcher s id : no_limit_twin s id ->
  SearcherPool.get_order (Storage.searcher_orders (Storage.remove_parked_order s id).1)
    (id_pool_id id) (id_hash id) = None.
Proof.
  intros [Hp Hc]. unfold Storage.remove_parked_order, LimitOrders.remove_parked_order.
  destruct (LimitPool.remove_parked_order_spec (LimitOrders.limit_orders (Storage.limit_orders s))
    (id_pool_id id) (id_hash id)) as (p & -> & _ & _). rewrite Hp.
  pose proof (composable_remove_missing _ _ _ Hc) as Hr.
  destruct (Composable.remove_order _ _ _) as [c r]. cbn in Hr. subst r.
  unfold Storage.remove_searcher_order. cbn [Storage.set_limit Storage.searcher_orders].
  destruct (SearcherPool.searcher_pool_remove_order_law (Storage.searcher_orders s) id) as (q & -> & Hf).
  cbn. by rewrite Hf, decide_True.
Qed.

Lemma filter_map_ids_shrinks s ids :
  Storage.shrinks s
    (Tracker.filter_map_ids (fun id s => Storage.remove_parked_order s id) ids s).1.
Proof.
  revert s. induction ids as [|id ids IH]; intros s; cbn [Tracker.filter_map_ids]; [done|].
  pose proof (Storage.remove_parked_order_shrinks s id) as H1.
  destruct (Storage.remove_parked_order s id) as [s1 r]. specialize (IH s1).
  destruct (Tracker.filter_map_ids _ ids s1) as [s2 rs]. by etrans.
Qed.

Lemma filter_map_ids_takes s ids id : id ∈ ids -> no_limit_twin s id ->
  SearcherPool.get_order (Storage.searcher_orders
    (Tracker.filter_map_ids (fun id s => Storage.remove_parked_order s id) ids s).1)
    (id_pool_id id) (id_hash id) = None.
Proof.
  revert s. induction ids as [|id' ids IH]; intros s Hin Ht; [by apply not_elem_of_nil in Hin|].
  cbn [Tracker.filter_map_ids].
  pose proof (Storage.remove_parked_order_shrinks s id') as H1.
  pose proof (remove_parked_takes_searcher s id') as Htake.
  destruct (Storage.remove_parked_order s id') as [s1 r].
  pose proof (filter_map_ids_shrinks s1 ids) as H2. specialize (IH s1).
  destruct (Tracker.filter_map_ids _ ids s1) as [s2 rs]. cbn [fst] in *.
  apply elem_of_cons in Hin as [->|Hin]; [|by eauto using no_limit_twin_shrinks].
  apply eq_None_not_Some. intros [o Ho].
  apply (Storage.shrinks_searcher _ _ H2) in Ho. by rewrite (Htake Ht) in Ho.
Qed.

Lemma storage_cancel_twin s id id' :
  id_location id = Searcher -> no_limit_twin s id' -> no_limit_twin (Storage.cancel_order s id).1 id'.
Proof.
  intros Hl Ht. unfold Storage.cancel_order. rewrite Hl.
  destruct (Finalization.has_order _ _); [done|].
  by destruct (SearcherPool.cancel_order _ _).
Qed.

(** Cancelling a top-of-block order through the indexer takes it out of the
    storage at once, although the storage marks and keeps it for the proposal:
    the revalidation of the orders of the user removes their searcher orders as
    well as their parked ones. *)
Theorem cancel_drops_top_of_block (now : u64) (i : OrderIndexer) (r : CancelOrderRequest)
    (id : OrderId) (ids : gset OrderId) (o : OrderWithStorageData TopOfBlockOrder)
    (Hvalid : request_is_valid r = true)
    (Hid : Tracker.order_hash_to_order_id (order_tracker i) !! cancel_order_id r = Some id)
    (Howner : id_address id = user_address r) (Hhash : id_hash id = cancel_order_id r)
    (Hloc : id_location id = Searcher)
    (Hfirst : already_cancelled i r = false)
    (Hok : Tracker.is_seen_invalid (order_tracker i) (cancel_order_id r) = false)
    (Hids : Tracker.address_to_orders (order_tracker i) !! user_address r = Some ids)
    (Hin : id ∈ ids)
    (Ho : SearcherPool.get_order (Storage.searcher_orders (order_storage i))
      (id_pool_id id) (cancel_order_id r) = Some o)
    (Htwin : no_limit_twin (order_storage i) id) :
  exists i', cancel_order now i r = (i', true) /\
    SearcherPool.get_order (Storage.searcher_orders (order_storage i'))
      (id_pool_id id) (cancel_order_id r) = None.
Proof.
  unfold cancel_order. rewrite Hvalid, Hfirst, Hok. cbn [negb].
  assert (owned_by_other i r = false) as ->.
  { unfold owned_by_other. by rewrite Hid, Howner, Z.eqb_refl. }
  unfold Tracker.cancel_order. rewrite Hid, Howner, Z.eqb_refl. cbn [negb].
  pose proof (storage_cancel_twin (order_storage i) id id Hloc Htwin) as Ht.
  assert (exists s, Storage.cancel_order (order_storage i) id = (s, true)) as [s Hs].
  { unfold Storage.cancel_order. destruct (Finalization.has_order _ _); [by eexists|].
    rewrite Hloc.
    destruct (SearcherPool.searcher_pool_cancel_order_law (Storage.searcher_orders (order_storage i)) id)
      as (p & -> & _). rewrite Hhash, Ho. by eexists. }
  rewrite Hs in Ht |- *. cbn [negb fst] in *.
  unfold Tracker.pending_orders_for_address. cbn [with_validator with_storage with_tracker
    order_tracker Tracker.address_to_orders Tracker.insert_cancel_with_deadline
    Tracker.set_pending_cancellations Tracker.set_cancelled Tracker.set_ids order_storage].
  rewrite Hids.
  pose proof (filter_map_ids_takes s (hs_iter ids) id (proj2 (elem_of_hs_iter _ _) Hin) Ht) as Hg.
  destruct (Tracker.filter_map_ids _ _ _) as [s' os]. eexists. split; [done|].
  rewrite <-Hhash. exact Hg.
Qed.

(** ** Block transitions *)

Lemma foldl_insert_cancel {T} `{RawPoolOrder T} now t (os : list (OrderWithStorageData T)) :
  let t' := foldl (fun t o => Tracker.insert_cancel_with_deadline now t (from (order o))
    (order_hash (order o)) (deadline (order o))) t os in
  Tracker.order_hash_to_order_id t' = Tracker.order_hash_to_order_id t /\
  Tracker.seen_invalid_orders t' = Tracker.seen_invalid_orders t.
Proof.
  revert t. induction os as [|o os IH]; intros t; [done|]. cbn [foldl].
  by destruct (IH (Tracker.insert_cancel_with_deadline now t (from (order o))
    (order_hash (order o)) (deadline (order o)))) as [-> ->].
Qed.

Lemma purge_cancelled_spec now i :
  Tracker.order_hash_to_order_id (order_tracker (purge_cancelled now i)) =
    Tracker.order_hash_to_order_id (order_tracker i) /\
  Tracker.seen_invalid_orders (order_tracker (purge_cancelled now i)) =
    Tracker.seen_invalid_orders (order_tracker i) /\
  block_number (purge_cancelled now i) = block_number i /\
  validator (purge_cancelled now i) = validator i /\
  Storage.shrinks (order_storage i) (order_storage (purge_cancelled now i)).
Proof.
  unfold purge_cancelled. pose proof (Storage.purge_tob_orders_shrinks (order_storage i)) as H1.
  destruct (Storage.purge_tob_orders _) as [s1 tobs].
  pose proof (Storage.purge_user_orders_shrinks s1) as H2.
  destruct (Storage.purge_user_orders s1) as [s2 users]. cbn [fst] in *.
  cbn [with_tracker with_storage order_tracker block_number validator order_storage].
  destruct (foldl_insert_cancel now (foldl (fun t o => Tracker.insert_cancel_with_deadline now t
    (from (order o)) (order_hash (order o)) (deadline (order o))) (order_tracker i) tobs) users)
    as [-> ->].
  destruct (foldl_insert_cancel now (order_tracker i) tobs) as [-> ->].
  do 4 (split; [done|]). by etrans.
Qed.

Lemma eoa_state_changes_spec {St} t eoas (st : St) f :
  let t' := (Tracker.eoa_state_changes t eoas st f).1 in
  Tracker.order_hash_to_order_id t' = Tracker.order_hash_to_order_id t /\
  Tracker.seen_invalid_orders t' = Tracker.seen_invalid_orders t /\
  forall a, Tracker.address_to_orders t' !! a =
    if decide (a ∈ eoas) then None else Tracker.address_to_orders t !! a.
Proof.
  revert t st. induction eoas as [|e eoas IH]; intros t st; cbn [Tracker.eoa_state_changes].
  - split; [done|]. split; [done|]. intros a. by rewrite decide_False by apply not_elem_of_nil.
  - match goal with |- context [Tracker.eoa_state_changes ?t' eoas ?st' f] =>
      destruct (IH t' st') as (-> & -> & Ha) end.
    split; [done|]. split; [done|]. intros a. rewrite Ha. cbn.
    destruct (decide (a = e)) as [->|Hne].
    + rewrite (decide_True (P := e ∈ e :: eoas)) by left.
      case_decide; [done|]. apply lookup_delete_eq.
    + rewrite lookup_delete_ne by done. repeat case_decide; set_solver.
Qed.

Lemma eoa_state_changes_inv {St} (P : St -> Prop) t eoas (st : St) f :
  (forall id st, P st -> P (f id st)) -> P st -> P (Tracker.eoa_state_changes t eoas st f).2.
Proof.
  intros Hf. revert t st. induction eoas as [|e eoas IH]; intros t st Hst; [done|].
  cbn [Tracker.eoa_state_changes]. apply IH.
  generalize (from_option hs_iter [] (Tracker.address_to_orders t !! e)). intros ids.
  revert st Hst. induction ids as [|id ids IHi]; intros st Hst; [done|]. cbn [foldl]. auto.
Qed.

Lemma revalidate_id_shrinks s0 id st :
  Storage.shrinks s0 st.1 -> Storage.shrinks s0 (revalidate_id id st).1.
Proof.
  destruct st as [s v]. cbn. intros H0. pose proof (Storage.remove_order_shrinks s id) as H1.
  rewrite <-Storage.remove_order_from_id_alt in H1.
  destruct (Storage.remove_order_from_id s id) as [s' [o|]]; by etrans.
Qed.

Lemma remove_order_finalization s id :
  Storage.pending_finalization_orders (Storage.remove_limit_order s id).1 =
    Storage.pending_finalization_orders s /\
  Storage.pending_finalization_orders (Storage.remove_searcher_order s id).1 =
    Storage.pending_finalization_orders s.
Proof.
  unfold Storage.remove_limit_order, Storage.remove_searcher_order.
  destruct (LimitOrders.remove_order _ _). by destruct (SearcherPool.remove_order _ _).
Qed.

Lemma tracker_filled_finalization orders t s t' s' l :
  Tracker.filled_orders t s orders = (t', s', l) ->
  Storage.pending_finalization_orders s' = Storage.pending_finalization_orders s.
Proof.
  revert t s t' s' l. induction orders as [|h orders IH]; intros t s t' s' l;
    cbn [Tracker.filled_orders]; [by intros [= <- <- <-]|].
  destruct (Tracker.order_hash_to_order_id t !! h) as [id|]; [|apply IH].
  destruct (remove_order_finalization s id) as [Hl Hs].
  destruct (match id_location id with Limit => _ | Searcher => _ end) as [s1 r] eqn:Er.
  destruct (Tracker.filled_orders _ s1 orders) as [[t2 s2] l2] eqn:E. intros [= <- <- <-].
  rewrite (IH _ _ _ _ _ E). by destruct (id_location id); rewrite Er in *.
Qed.

Lemma filled_orders_total i block orders :
  orders = [] \/ Finalization.block_to_ids
    (Storage.pending_finalization_orders (order_storage i)) !! block = None ->
  exists i', filled_orders i block orders = Ret i' /\
    block_number i' = block_number i /\ validator i' = validator i /\
    Tracker.seen_invalid_orders (order_tracker i') =
      Tracker.seen_invalid_orders (order_tracker i) /\
    (forall h, Tracker.order_hash_to_order_id (order_tracker i') !! h =
      if decide (h ∈ orders) then None
      else Tracker.order_hash_to_order_id (order_tracker i) !! h) /\
    Storage.shrinks (order_storage i) (order_storage i') /\
    (forall h id, h ∈ orders ->
      Tracker.order_hash_to_order_id (order_tracker i) !! h = Some id ->
      Storage.gone (order_storage i') id).
Proof.
  intros Hfresh. destruct orders as [|h0 orders'] eqn:Eo.
  { exists i. do 4 (split; [done|]). split; [|split; [done|]].
    - intros h. by rewrite decide_False by apply not_elem_of_nil.
    - by intros h id ?%not_elem_of_nil. }
  destruct Hfresh as [|Hfresh]; [done|]. unfold filled_orders. rewrite <-Eo.
  destruct (Tracker.filled_orders _ _ orders) as [[t s] filled] eqn:Et.
  destruct (Tracker.filled_orders_ids _ _ _ _ _ _ Et) as (Hids & _ & _ & Hinv & _ & Hs & Hg).
  pose proof (tracker_filled_finalization _ _ _ _ _ _ Et) as Hfin.
  unfold Storage.add_filled_orders, Finalization.new_orders. rewrite Hfin.
  rewrite bool_decide_true by done. eexists. do 4 (split; [done|]). split; [done|].
  split; [|exact Hg]. etrans; [exact Hs|]. by split.
Qed.

(** C7. The processing of a new block succeeds unless orders were already filled
    under its number; afterwards the block is current, no order is remembered as
    invalid, no tracked order was filled in the block or has expired, none of
    these is pending in a pool, and the addresses whose state changed have no
    orders listed until these are validated again. *)
Theorem block_transition_cleans (now : u64) (i : OrderIndexer) (block : u64)
    (completed : list B256) (changed : list Address)
    (Hfresh : completed = [] \/ Finalization.block_to_ids
      (Storage.pending_finalization_orders (order_storage i)) !! block = None) :
  exists i', finish_new_block_processing now i block completed changed = Ret i' /\
    block_number i' = block /\
    Tracker.seen_invalid_orders (order_tracker i') = ∅ /\
    (forall h id, Tracker.order_hash_to_order_id (order_tracker i') !! h = Some id ->
      Tracker.order_hash_to_order_id (order_tracker i) !! h = Some id /\
      ~ (h ∈ completed) /\
      Tracker.is_expired (now + Tracker.ETH_BLOCK_TIME) block id = false) /\
    (forall h id, Tracker.order_hash_to_order_id (order_tracker i) !! h = Some id ->
      h ∈ completed \/ Tracker.is_expired (now + Tracker.ETH_BLOCK_TIME) block id = true ->
      Storage.gone (order_storage i') id) /\
    (forall a, a ∈ changed -> Tracker.address_to_orders (order_tracker i') !! a = None).
Proof.
  unfold finish_new_block_processing. set (i0 := with_tracker (with_block i block) _).
  destruct (filled_orders_total i0 block completed Hfresh)
    as (i1 & -> & Hb1 & Hv1 & Hinv1 & Hids1 & Hs1 & Hg1). cbn [mbind outcome_bind].
  destruct (purge_cancelled_spec now i1) as (Hids2 & Hinv2 & Hb2 & Hv2 & Hs2).
  set (i2 := purge_cancelled now i1) in *.
  destruct (Tracker.remove_expired_spec now (order_tracker i2) block (order_storage i2))
    as (t & s & ex & -> & Hids3 & Hinv3 & _ & _ & Hs3 & Hg3). cbn [mbind outcome_bind].
  eexists. split; [done|]. unfold eoa_state_change.
  cbn [with_subscribers with_storage with_tracker order_tracker order_storage validator].
  match goal with |- context [Tracker.eoa_state_changes t changed ?st ?f] =>
    destruct (eoa_state_changes_spec t changed st f) as (Hids4 & Hinv4 & Haddr);
    pose proof (eoa_state_changes_inv (fun st' => Storage.shrinks s st'.1) t changed st f
      (revalidate_id_shrinks s) (reflexivity s)) as Hs4;
    destruct (Tracker.eoa_state_changes t changed st f) as [t' [s' v']] end.
  cbn [fst snd] in *. cbn [with_validator with_storage with_tracker with_subscribers order_tracker
    order_storage block_number]. split; [|split; [|split; [|split]]].
  - by rewrite Hb2, Hb1.
  - by rewrite Hinv4, Hinv3, Hinv2, Hinv1.
  - intros h id Hid. rewrite Hids4 in Hid. apply Hids3 in Hid as [Hid He].
    rewrite Hids2, Hids1 in Hid. case_decide; done.
  - intros h id Hid Hor. apply (Storage.gone_shrinks s); [done|].
    destruct (decide (h ∈ completed)) as [Hc|Hc].
    + apply (Storage.gone_shrinks (order_storage i2)); [done|].
      apply (Storage.gone_shrinks (order_storage i1)); [done|]. by apply (Hg1 h).
    + destruct Hor as [?|He]; [done|]. apply (Hg3 h); [|done].
      by rewrite Hids2, Hids1, decide_False.
  - intros a Ha. by rewrite Haddr, decide_True.
Qed.

(** ** Polling *)

(** The phase of the validator. *)
Inductive phase := Clearing | Cleanup | Informing | Regular.

Definition phase_of (v : Validator.OrderValidator) : phase :=
  match Validator.state v with
  | Validator.ClearingForNewBlock _ _ _ _ _ => Clearing
  | Validator.WaitingForStorageCleanup _ => Cleanup
  | Validator.InformState _ _ => Informing
  | Validator.RegularProcessing _ => Regular
  end.

(** A poll at which nothing is ready yields nothing. *)
Definition quiescent i : Prop :=
  phase_of (validator i) <> Cleanup /\
  forall v next, Validator.poll_next (validator i) idle <> (v, Validator.Ready (Some next)).

Lemma phase_validate_order v origin o :
  phase_of (Validator.validate_order v origin o) = phase_of v.
Proof. by destruct v as [[] ?]. Qed.

Lemma phase_cancel_order v user h : phase_of (Validator.cancel_order v user h) = phase_of v.
Proof. done. Qed.

Lemma phase_foldl {A} (f : OrderIndexer -> A -> OrderIndexer) i xs :
  (forall i x, phase_of (validator (f i x)) = phase_of (validator i)) ->
  phase_of (validator (foldl f i xs)) = phase_of (validator i).
Proof.
  intros Hf. revert i. induction xs as [|x xs IH]; intros i; [done|].
  cbn [foldl]. by rewrite IH, Hf.
Qed.

Lemma phase_revalidate i hs :
  phase_of (validator (revalidate_invalidated_orders i hs)) = phase_of (validator i).
Proof.
  unfold revalidate_invalidated_orders. destruct (take_invalidated _ _ hs) as [s os].
  rewrite phase_foldl; [done|]. intros j o. apply phase_validate_order.
Qed.

Lemma phase_insert_order i o i' r :
  insert_order i o = Ret (i', r) -> validator i' = validator i.
Proof.
  unfold insert_order. destruct (id_location (order_id o)).
  - destruct (Storage.add_new_limit_order _ _). by intros [= <- _].
  - intros (t & _ & H)%bind_Ret. destruct (Storage.add_new_searcher_order _ _).
    by injection H as <- _.
Qed.

Lemma phase_handle_validated_order now i res i' ev :
  handle_validated_order now i res = Ret (i', ev) ->
  phase_of (validator i') = phase_of (validator i).
Proof.
  destruct res as [o|h e|gas]; cbn [handle_validated_order].
  - destruct (negb _).
    { unfold handle_stale. cbn [Tracker.invalid_verification]. intros [= <- _].
      cbn [with_tracker validator]. by rewrite phase_revalidate. }
    destruct (Tracker.is_valid_cancel _ _ _).
    { unfold handle_cancelled. intros [= <- _]. destruct (bool_decide _);
        cbn [with_subscribers with_tracker validator]; by rewrite phase_revalidate. }
    unfold accept_order. intros ([j r] & Hj & [= <- _])%bind_Ret.
    by rewrite (phase_insert_order _ _ _ _ Hj), phase_revalidate.
  - cbn [Tracker.invalid_verification]. by intros [= <- _].
  - intros ([s parked] & _ & [= <- _])%bind_Ret. cbn [with_validator validator with_storage].
    generalize (validator i). induction parked as [|o parked IH]; intros v; [done|].
    cbn [foldl]. by rewrite IH, phase_validate_order.
Qed.

Lemma phase_eoa_state_change i eoas :
  phase_of (validator (eoa_state_change i eoas)) = phase_of (validator i).
Proof.
  unfold eoa_state_change.
  pose proof (eoa_state_changes_inv (fun st => phase_of st.2 = phase_of (validator i))
    (order_tracker i) eoas (order_storage i, validator i) revalidate_id) as Hinv.
  destruct (Tracker.eoa_state_changes _ _ _ _) as [t [s v]]. cbn in *. apply Hinv; [|done].
  intros id [s' v'] Hv. unfold revalidate_id.
  destruct (Storage.remove_order_from_id s' id) as [s2 [o|]]; [|done].
  cbn in *. by rewrite phase_validate_order.
Qed.

Lemma filled_orders_validator i block orders i' :
  filled_orders i block orders = Ret i' -> validator i' = validator i.
Proof.
  unfold filled_orders. destruct orders as [|h orders]; [by intros [= <-]|].
  destruct (Tracker.filled_orders _ _ _) as [[t s] l]. by intros (s' & _ & [= <-])%bind_Ret.
Qed.

Lemma phase_finish now i block completed changed i' :
  finish_new_block_processing now i block completed changed = Ret i' ->
  phase_of (validator i) = Cleanup -> phase_of (validator i') = Informing.
Proof.
  unfold finish_new_block_processing. intros (i1 & Hf%filled_orders_validator & H)%bind_Ret Hph.
  apply bind_Ret in H as ([[t s] ex] & _ & H). injection H as <-.
  cbn [with_validator validator]. set (j := eoa_state_change _ changed).
  assert (phase_of (validator j) = Cleanup) as Hj.
  { subst j. rewrite phase_eoa_state_change. cbn [with_subscribers with_storage with_tracker
      validator]. by destruct (purge_cancelled_spec now i1) as (_ & _ & _ & -> & _); rewrite Hf. }
  by destruct (validator j) as [[] ?].
Qed.

Lemma phase_poll_next v r v' next :
  phase_of v <> Cleanup -> Validator.poll_next v r = (v', Validator.Ready (Some next)) ->
  match next with
  | Validator.EnsureClearForTransition _ _ _ => phase_of v' = Cleanup
  | _ => phase_of v' <> Cleanup
  end.
Proof.
  intros Hph. unfold Validator.poll_next. destruct v as [[b w co ra rem|w|w f|rem] c];
    cbn [Validator.state]; [| |unfold Validator.handle_inform|].
  - destruct (Validator.poll_futures rem r) as [[|x rem'] [[res|]|]]; by intros [= <- <-].
  - done.
  - destruct (Validator.informed r); [|done]. intros [= <- <-].
    by rewrite (Validator.drain_waiting_state _ []).
  - destruct (Validator.poll_futures rem r) as [rem' [[res|]|]]; by intros [= <- <-].
Qed.

Lemma informing_quiescent i : phase_of (validator i) = Informing -> quiescent i.
Proof.
  unfold quiescent, Validator.poll_next. destruct (validator i) as [[] c]; try done.
Qed.

Lemma poll_pending_quiescent i v r p :
  phase_of (validator i) <> Cleanup -> Validator.poll_next (validator i) r = (v, p) ->
  (forall next, p <> Validator.Ready (Some next)) -> quiescent (with_validator i v).
Proof.
  intros Hph Hp Hne. unfold Validator.poll_next in Hp. unfold quiescent. cbn [with_validator validator].
  destruct (validator i) as [[b w co ra rem|w|w f|rem] c]; cbn [Validator.state] in Hp;
    [|done| |].
  - pose proof (Validator.poll_futures_spec rem r) as Hs.
    destruct (Validator.poll_futures rem r) as [[|x rem'] [[res|]|]]; injection Hp as <- <-;
      try done; by destruct (Hne _ eq_refl).
  - unfold Validator.handle_inform in Hp. destruct (Validator.informed r); injection Hp as <- <-;
      [by destruct (Hne _ eq_refl)|done].
  - destruct (Validator.poll_futures rem r) as [[|x rem'] [[res|]|]]; injection Hp as <- <-;
      try done; by destruct (Hne _ eq_refl).
Qed.

Lemma handle_res_phase now i v r next i' evs :
  phase_of (validator i) <> Cleanup ->
  Validator.poll_next (validator i) r = (v, Validator.Ready (Some next)) ->
  handle_res now (with_validator i v) next = Ret (i', evs) ->
  phase_of (validator i') <> Cleanup /\
  match next with
  | Validator.EnsureClearForTransition _ _ _ => phase_of (validator i') = Informing
  | _ => True
  end.
Proof.
  intros Hph Hp%phase_poll_next Hr; [|done]. destruct next as [res|b os ad|]; cbn [handle_res] in Hr.
  - apply bind_Ret in Hr as ([j ev] & Hj%phase_handle_validated_order & [= <- _]).
    by rewrite Hj.
  - apply bind_Ret in Hr as (j & Hj & [= <- _]). apply phase_finish in Hj; [|done].
    by rewrite Hj.
  - by injection Hr as <- _.
Qed.

Lemma poll_idle v v' next : Validator.poll_next v idle = (v', Validator.Ready (Some next)) ->
  exists b os ad, next = Validator.EnsureClearForTransition b os ad.
Proof.
  unfold Validator.poll_next. destruct v as [[b w co ra rem|w|w f|rem] c];
    cbn [Validator.state]; try done; destruct rem as [|x rem]; try done.
  intros [= _ <-]. eauto.
Qed.

Lemma poll_loop_quiescent now i rs i' evs :
  phase_of (validator i) <> Cleanup -> poll_loop now i rs = Ret (i', evs) -> quiescent i'.
Proof.
  revert i evs. induction rs as [|r rs IH]; intros i evs Hph; cbn [poll_loop].
  - destruct (Validator.poll_next (validator i) idle) as [v [[next|]|]] eqn:Ep.
    + intros Hr. destruct (handle_res_phase now i v idle next i' evs Hph Ep Hr) as [_ Hi].
      apply poll_idle in Ep as (b & os & ad & ->). by apply informing_quiescent.
    + intros [= <- _]. by apply (poll_pending_quiescent i v idle (Validator.Ready None)).
    + intros [= <- _]. by apply (poll_pending_quiescent i v idle Validator.NotReady).
  - destruct (Validator.poll_next (validator i) r) as [v [[next|]|]] eqn:Ep.
    + intros ([j evs1] & Hr & H)%bind_Ret. apply bind_Ret in H as ([k evs2] & Hl & H).
      injection H as <- _. eapply IH; [|exact Hl].
      by destruct (handle_res_phase now i v r next j evs1 Hph Ep Hr).
    + intros [= <- _]. by apply (poll_pending_quiescent i v r (Validator.Ready None)).
    + intros [= <- _]. by apply (poll_pending_quiescent i v r Validator.NotReady).
Qed.

(** C16. A poll of the indexer that returns leaves nothing to do: the validator
    never stays in the phase that waits for the storage, and a further poll at
    which no future is ready yields nothing. *)
Theorem poll_next_quiescent (now : u64) (i i' : OrderIndexer) (rs : list Validator.Readiness)
    (p : Validator.Poll (option (list PoolInnerEvent)))
    (Hph : phase_of (validator i) <> Cleanup)
    (Hpoll : poll_next now i rs = Ret (i', p)) : quiescent i'.
Proof.
  apply bind_Ret in Hpoll as ([j evs] & Hl & [= <- _]). by apply (poll_loop_quiescent now i rs j evs).
Qed.
End props.

(** ** Examples *)

(** A signature that names its signer. *)
Definition sample_signatures : SignatureLib := {|
  fmt_b256 := fun _ => "";
  fmt_address := fun _ => "";
  Signature := Z;
  decode_signature := head;
  recover_address_from_msg := fun signer _ => Some signer
|}.

Section examples.
#[local] Existing Instance arith_Z.
#[local] Existing Instance sample_hasher.
#[local] Existing Instance iter_by_encoding.
#[local] Existing Instance sample_signatures.

(** At block 1, user 4 has the limit order 7 and the top-of-block order 9. *)
Definition sample_accept (i : OrderIndexer) (o : OrderWithStorageData AllOrders)
    : outcome OrderIndexer :=
  fst <$> handle_validated_order 1000 i (Valid o).

Definition sample_tob : OrderWithStorageData AllOrders :=
  default (sample_limit 0 0 0 0 0) (SearcherPool.as_all_orders (sample_searcher 9 4 1 50)).

Definition sample_indexer : OrderIndexer :=
  match i ← sample_accept (new (Storage.new [1]%Z) 1) (sample_limit 7 4 1 100 10);
        sample_accept i sample_tob with
  | Ret i => i
  | Panic => new (Storage.new []) 0
  end.

Definition sample_request (signer user : Address) (h : B256) : CancelOrderRequest :=
  {| signature := [signer]; user_address := user; cancel_order_id := h |}.

Lemma stale_result_not_applied_witness :
  exists i' peers, handle_validated_order 1000 (new (Storage.new [1]%Z) 2)
    (Valid (sample_limit 7 4 1 100 10)) = Ret (i', BadOrderMessages peers).
Proof.
  destruct (stale_result_not_applied 1000 (new (Storage.new [1]%Z) 2)
    (sample_limit 7 4 1 100 10)) as (i' & peers & H & _); [vm_compute; discriminate|].
  by exists i', peers.
Defined.

(** User 4 cancels order 7 before it is validated. *)
Definition sample_claimed : OrderIndexer :=
  (cancel_order 1000 (new (Storage.new [1]%Z) 1) (sample_request 4 4 7)).1.


Lemma cancel_requires_owner_witness :
  cancel_order 1000 sample_indexer (sample_request 5 5 7) = (sample_indexer, false) /\
  Tracker.order_hash_to_order_id (order_tracker sample_indexer) !! 7%Z <> None.
Proof.
  split; [|vm_compute; discriminate].
  destruct (cancel_order 1000 sample_indexer (sample_request 5 5 7)) as [i' ok] eqn:E.
  destruct (cancel_requires_owner 1000 sample_indexer i' (sample_request 5 5 7) ok E) as [_ H].
  destruct (H (sample_id 7 4 1 Limit)) as [-> ->]; [vm_compute; reflexivity| |done].
  vm_compute. discriminate.
Defined.

Lemma accepted_limit_order_stored_witness :
  exists i', handle_validated_order 1000 (new (Storage.new [1]%Z) 1)
    (Valid (sample_limit 7 4 1 100 10)) = Ret (i', Propagation (sample_standing 7 4 100 10)).
Proof.
  destruct (accepted_limit_order_stored 1000 (new (Storage.new [1]%Z) 1)
    (sample_limit 7 4 1 100 10)) as (i' & H & _); try reflexivity; [by_decide|].
  by exists i'.
Defined.

Lemma failed_revalidation_stays_duplicate_witness :
  exists i' peers, handle_validated_order 1000 sample_indexer (Invalid 7 InvalidPool)
    = Ret (i', BadOrderMessages peers).
Proof.
  destruct (failed_revalidation_stays_duplicate 1000 sample_indexer
    (sample_standing 7 4 100 10) (sample_id 7 4 1 Limit) InvalidPool None External None)
    as (i' & peers & H & _); [vm_compute; reflexivity|].
  by exists i', peers.
Defined.

Lemma cancel_drops_top_of_block_witness :
  SearcherPool.get_order (Storage.searcher_orders (order_storage sample_indexer)) 1 9 <> None /\
  exists i', cancel_order 1000 sample_indexer (sample_request 4 4 9) = (i', true) /\
    SearcherPool.get_order (Storage.searcher_orders (order_storage i')) 1 9 = None.
Proof.
  split; [vm_compute; discriminate|].
  assert (order_id sample_tob ∈ default ∅
    (Tracker.address_to_orders (order_tracker sample_indexer) !! 4%Z)) as Hin by by_decide.
  destruct (Tracker.address_to_orders (order_tracker sample_indexer) !! 4%Z) as [ids|] eqn:E;
    [|by apply not_elem_of_empty in Hin].
  apply (cancel_drops_top_of_block 1000 sample_indexer (sample_request 4 4 9)
    (order_id sample_tob) ids (sample_searcher 9 4 1 50)).
  8: exact E.
  8: exact Hin.
  9: split; vm_compute; reflexivity.
  all: vm_compute; reflexivity.
Defined.

Lemma block_transition_cleans_witness :
  exists i', finish_new_block_processing 1000 sample_indexer 2 [7]%Z [4]%Z = Ret i' /\
    block_number i' = 2%Z.
Proof.
  destruct (block_transition_cleans 1000 sample_indexer 2 [7]%Z [4]%Z) as (i' & H & Hb & _);
    [right; vm_compute; reflexivity|].
  by exists i'.
Defined.

(** The last validation for block 1 has finished when block 2 arrives. *)
Definition sample_clearing : OrderIndexer :=
  with_validator (new (Storage.new [1]%Z) 1)
    {| Validator.state := Validator.ClearingForNewBlock 2 [] [] [] [];
       Validator.cancel_sent := [] |}.

Lemma poll_next_quiescent_witness :
  exists i' p, poll_next 1000 sample_clearing [idle] = Ret (i', p) /\ quiescent i'.
Proof.
  eexists _, _. split; [vm_compute; reflexivity|].
  eapply (poll_next_quiescent 1000 sample_clearing _ [idle]);
    [vm_compute; discriminate|vm_compute; reflexivity].
Defined.
End examples.
