(* ===== verification/TokenPricing.v ===== *)
(** * Token prices

    The model of [common/token_pricing.rs] of [crates/validation]: the recent
    prices of the pools, the conversion of gas into the first token of a pool,
    and the gas updates that a new block sends to the order pool. *)

From S2P Require Import Prelude Ray Orders.
Open Scope Z_scope.

(** The gas constants of [order/sim/gas.rs]. *)
Definition BOOK_GAS : u64 := 92000.
Definition BOOK_GAS_INTERNAL : u64 := 65000.
Definition TOB_GAS_NORMAL : u64 := 160000.
Definition TOB_GAS_INTERNAL_NORMAL : u64 := 150000.
Definition TOB_GAS_SUB : u64 := 1.
Definition TOB_GAS_INTERNAL_SUB : u64 := 1.
Definition SWITCH_WEI : u128 := 700000000.

Record PairsWithPrice := {
  pp_token0 : Address;
  pp_token1 : Address;
  price_1_over_0 : Ray
}.

(** The fields of a synced Uniswap pool that are read here. *)
Record UniswapPool := {
  up_token0 : Address;
  up_token1 : Address;
  sqrt_price_x96 : Z
}.

Record TokenPriceGenerator := {
  uniswap_pools : gmap PoolId UniswapPool;
  prev_prices : gmap PoolId (list PairsWithPrice);
  pair_to_pool : gmap (Address * Address) PoolId;
  base_gas_token : Address;
  blocks_to_avg_price : u64;
  base_wei : u128;
  current_block : u64
}.

Implicit Types (g : TokenPriceGenerator).

Definition set_prices g pp p2p : TokenPriceGenerator :=
  {| uniswap_pools := uniswap_pools g; prev_prices := pp; pair_to_pool := p2p;
     base_gas_token := base_gas_token g; blocks_to_avg_price := blocks_to_avg_price g;
     base_wei := base_wei g; current_block := current_block g |}.

(** The gas of a top-of-block order, internal and external, at a gas price. *)
Definition tob_gas_at (wei : u128) : u64 * u64 :=
  if SWITCH_WEI <? wei then (TOB_GAS_INTERNAL_NORMAL, TOB_GAS_NORMAL)
  else (TOB_GAS_INTERNAL_SUB, TOB_GAS_SUB).

Section pricing.
Context `{AL : ArithLib} `{HI : HashIter}.

(** ** Conversion rates *)

(** [prices.iter().map(..).sum::<Ray>() / U256::from(size)]. *)
Fixpoint map_rays (inverted : bool) (prices : list PairsWithPrice) : outcome (list Ray) :=
  match prices with
  | [] => Ret []
  | p :: ps =>
      r ← (if inverted then inv_ray (price_1_over_0 p) else Ret (price_1_over_0 p));
      rs ← map_rays inverted ps;
      Ret (r :: rs)
  end.

Definition average (inverted : bool) (prices : list PairsWithPrice) : outcome Ray :=
  rs ← map_rays inverted prices;
  ray_div_word (ray_sum rs) (Z.of_nat (length prices)).

Definition get_conversion_rate g (token_0 token_1 : Address) : outcome (option Ray) :=
  if token_0 =? base_gas_token g then Some <$> scale_to_ray 1
  else if token_1 =? base_gas_token g then
    match pair_to_pool g !! (token_0, token_1) with
    | None => Ret None
    | Some pool_key =>
        match prev_prices g !! pool_key with
        | None => Ret None
        | Some prices => Some <$> average false prices
        end
    end
  else
    let '(first_flip, token_0_hop1, token_1_hop1) :=
      if token_0 <? base_gas_token g then (true, token_0, base_gas_token g)
      else (false, base_gas_token g, token_0) in
    let '(second_flip, token_0_hop2, token_1_hop2) :=
      if token_1 <? base_gas_token g then (true, token_1, base_gas_token g)
      else (false, base_gas_token g, token_1) in
    match pair_to_pool g !! (token_0_hop1, token_1_hop1) with
    | Some key =>
        match prev_prices g !! key with
        | None => Ret None
        | Some prices => Some <$> average (negb first_flip) prices
        end
    | None =>
        match pair_to_pool g !! (token_0_hop2, token_1_hop2) with
        | None => Ret None
        | Some key =>
            default_pool_key ← unwrap (pair_to_pool g !! (token_0, token_1));
            match prev_prices g !! default_pool_key with
            | None => Ret None
            | Some prices =>
                first_hop_price ← average false prices;
                match prev_prices g !! key with
                | None => Ret None
                | Some prices2 =>
                    second_hop_price ← average (negb second_flip) prices2;
                    Some <$> mul_ray first_hop_price second_hop_price
                end
            end
        end
    end.

Definition conversion_rate_of_pair g (token_0 token_1 : Address) : outcome (option Ray) :=
  pair_1 ← get_conversion_rate g token_0 token_1;
  match pair_1 with
  | None => Ret None
  | Some pair_1 =>
      pair_2 ← get_conversion_rate g token_1 token_0;
      match pair_2 with
      | None => Ret None
      | Some pair_2 =>
          inv ← inv_ray pair_2;
          Some <$> mul_ray inv pair_1
      end
  end.

Definition get_eth_conversion_price g (token_0 token_1 : Address) (gas_units : u64)
    : outcome (option u128) :=
  let wei := if base_wei g =? 0 then 10 ^ 9 else base_wei g in
  let wei := u128_wrap (wei * gas_units) in
  rate ← get_conversion_rate g token_0 token_1;
  match rate with
  | None => Ret None
  | Some val =>
      inv ← inv_ray val;
      amount ← mul_wad inv wei 27;
      Some <$> uint_to_u128 amount
  end.

(** ** Gas updates *)

Definition gas_update_of g (pool : PoolId) (price : Ray) : outcome UpdatedGas :=
  let '(internal, normal) := tob_gas_at (base_wei g) in
  book_internal ← inverse_quantity price BOOK_GAS_INTERNAL false;
  book_external ← inverse_quantity price BOOK_GAS false;
  tob_internal ← inverse_quantity price internal false;
  tob_external ← inverse_quantity price normal false;
  Ret {| ug_pool_id := pool; gas_internal_book := book_internal;
         gas_external_book := book_external; gas_internal_tob := tob_internal;
         gas_external_tob := tob_external |}.

Fixpoint gas_updates g (pairs : list (Address * Address * PoolId)) : outcome (list UpdatedGas) :=
  match pairs with
  | [] => Ret []
  | (token0, token1, pool) :: pairs' =>
      rate ← get_conversion_rate g token0 token1;
      match rate with
      | None => gas_updates g pairs'
      | Some price =>
          u ← gas_update_of g pool price;
          us ← gas_updates g pairs';
          Ret (u :: us)
      end
  end.

Definition generate_gas_updates g : outcome (list UpdatedGas) :=
  gas_updates g (hm_iter (pair_to_pool g)).

(** ** Price updates *)

(** [if queue.len() > blocks { queue.pop_front() }]. *)
Definition pop_if_longer (blocks : u64) (queue : list PairsWithPrice) : list PairsWithPrice :=
  if blocks <? Z.of_nat (length queue) then tail queue else queue.

(** [PairsWithPrice::replace_price_if_empty] with the price of the local pool. *)
Definition replace_price_if_empty g (pool_key : PoolId) (u : PairsWithPrice) : outcome PairsWithPrice :=
  if price_1_over_0 u =? 0 then
    p ← match uniswap_pools g !! pool_key with
        | Some pool => convert_sqrtpricex96 (sqrt_price_x96 pool) false
        | None => Ret 0
        end;
    Ret {| pp_token0 := pp_token0 u; pp_token1 := pp_token1 u; price_1_over_0 := p |}
  else Ret u.

(** The pool of an update; a pool that is new to the generator is registered. *)
Definition pool_of_update g (u : PairsWithPrice) : outcome (TokenPriceGenerator * PoolId) :=
  match pair_to_pool g !! (pp_token0 u, pp_token1 u) with
  | Some p => Ret (g, p)
  | None =>
      pk ← unwrap (find_map (fun '(key, pool) =>
        if (up_token0 pool =? pp_token0 u) && (up_token1 pool =? pp_token1 u)
        then Some key else None) (hm_iter (uniswap_pools g)));
      Ret (set_prices g (<[pk := []]> (prev_prices g))
        (<[(pp_token1 u, pp_token0 u) := pk]>
          (<[(pp_token0 u, pp_token1 u) := pk]> (pair_to_pool g))), pk)
  end.

Definition apply_one g (u : PairsWithPrice) : outcome (TokenPriceGenerator * PoolId) :=
  '(g, pool_key) ← pool_of_update g u;
  prices ← unwrap (prev_prices g !! pool_key);
  u ← replace_price_if_empty g pool_key u;
  let prices := if price_1_over_0 u =? 0 then prices else prices ++ [u] in
  Ret (set_prices g (<[pool_key := pop_if_longer (blocks_to_avg_price g) prices]> (prev_prices g))
    (pair_to_pool g), pool_key).

Fixpoint apply_all g (updates : list PairsWithPrice) : outcome (TokenPriceGenerator * list PoolId) :=
  match updates with
  | [] => Ret (g, [])
  | u :: updates' =>
      '(g, key) ← apply_one g u;
      '(g, keys) ← apply_all g updates';
      Ret (g, key :: keys)
  end.

(** The queue of a pool without an update repeats its last price. *)
Definition repeat_last (blocks : u64) (queue : list PairsWithPrice) : list PairsWithPrice :=
  match last queue with
  | None => queue
  | Some l => pop_if_longer blocks (queue ++ [l])
  end.

(** The pools that Uniswap no longer has. *)
Definition drop_pool g (key : PoolId) : TokenPriceGenerator :=
  set_prices g (delete key (prev_prices g))
    (filter (fun kv => snd kv <> key) (pair_to_pool g)).

(** The pools of Uniswap that have no prices yet. *)
Definition add_missing g (entry : PoolId * UniswapPool) : outcome TokenPriceGenerator :=
  let '(key, pool) := entry in
  match prev_prices g !! key with
  | Some _ => Ret g
  | None =>
      price ← convert_sqrtpricex96 (sqrt_price_x96 pool) false;
      Ret (set_prices g
        (<[key := [{| pp_token0 := up_token0 pool; pp_token1 := up_token1 pool;
                      price_1_over_0 := price |}]]> (prev_prices g))
        (<[(up_token0 pool, up_token1 pool) := key]> (pair_to_pool g)))
  end.

Fixpoint add_all g (entries : list (PoolId * UniswapPool)) : outcome TokenPriceGenerator :=
  match entries with
  | [] => Ret g
  | e :: entries' => g ← add_missing g e; add_all g entries'
  end.

Definition apply_update g (new_block : u64) (new_gas_wei : u128) (updates : list PairsWithPrice)
    : outcome TokenPriceGenerator :=
  let g := {| uniswap_pools := uniswap_pools g; prev_prices := prev_prices g;
              pair_to_pool := pair_to_pool g; base_gas_token := base_gas_token g;
              blocks_to_avg_price := blocks_to_avg_price g; base_wei := new_gas_wei;
              current_block := new_block |} in
  '(g, updated_pool_keys) ← apply_all g updates;
  let g := set_prices g
    (map_imap (fun k queue => Some (if bool_decide (k ∈ updated_pool_keys) then queue
                                    else repeat_last (blocks_to_avg_price g) queue))
      (prev_prices g)) (pair_to_pool g) in
  let remove_keys := List.filter (fun k => negb (bool_decide (is_Some (uniswap_pools g !! k))))
    (hm_keys (prev_prices g)) in
  let g := foldl drop_pool g remove_keys in
  add_all g (hm_iter (uniswap_pools g)).

Definition new_pool_update g (pool_id : PoolId) (token_0 token_1 : Address)
    (prices : list PairsWithPrice) : TokenPriceGenerator :=
  set_prices g (<[pool_id := prices]> (prev_prices g))
    (<[(token_1, token_0) := pool_id]> (<[(token_0, token_1) := pool_id]> (pair_to_pool g))).

(** ** The rate of a pair *)

Lemma rate_one : scale_to_ray 1 = Ret const_1e27.
Proof.
  unfold scale_to_ray. rewrite Z.mul_1_l. apply from_limbs_slice_fits.
  unfold const_1e27, u256_max. lia.
Qed.

Lemma mul_ray_one_l p : 0 <= p <= u256_max -> mul_ray const_1e27 p = Ret p.
Proof.
  intros Hp. unfold mul_ray. pose proof const_1e27_pos.
  rewrite div_round_spec by (done || nia). cbn.
  rewrite Z.mul_comm, Z.div_mul by lia. by apply from_limbs_slice_fits.
Qed.

Lemma mul_ray_one_r p : 0 <= p <= u256_max -> mul_ray p const_1e27 = Ret p.
Proof. intros Hp. rewrite <-(mul_ray_one_l p Hp). unfold mul_ray. by rewrite Z.mul_comm. Qed.

Lemma const_1e54_square : const_1e54 = const_1e27 * const_1e27.
Proof. unfold const_1e54, const_1e27. lia. Qed.

Lemma inv_ray_pos p : 0 < p -> inv_ray p = Ret (const_1e54 / p).
Proof.
  intros Hp. unfold inv_ray. rewrite (proj2 (Z.eqb_neq p 0)) by lia. by rewrite invert_eval.
Qed.

Lemma inv_ray_one : inv_ray const_1e27 = Ret const_1e27.
Proof.
  pose proof const_1e27_pos. rewrite inv_ray_pos by done.
  by rewrite const_1e54_square, Z.div_mul by lia.
Qed.

Lemma inv_word p : 0 < p -> 0 <= const_1e54 / p <= u256_max.
Proof.
  intros Hp. split; [apply Z.div_pos; [unfold const_1e54|]; lia|].
  transitivity const_1e54; [|unfold const_1e54, u256_max; lia].
  apply Z.div_le_upper_bound; [done|]. unfold const_1e54. nia.
Qed.

Lemma direct_rate g token key prices p : token <> base_gas_token g ->
  pair_to_pool g !! (token, base_gas_token g) = Some key -> prev_prices g !! key = Some prices ->
  average false prices = Ret p -> get_conversion_rate g token (base_gas_token g) = Ret (Some p).
Proof.
  intros Hne Hk Hp Ha. unfold get_conversion_rate.
  rewrite (proj2 (Z.eqb_neq _ _) Hne), Z.eqb_refl, Hk, Hp, Ha. done.
Qed.

Lemma gas_rate g token : get_conversion_rate g (base_gas_token g) token = Ret (Some const_1e27).
Proof. unfold get_conversion_rate. by rewrite Z.eqb_refl, rate_one. Qed.

(** The rate of a pair with the gas token, documented as the price of the
    first token in the second: with the gas token second it is the average price
    of the pool, with the gas token first it is the inverse of that average. *)
Theorem conversion_rate_inverted g token key prices p
    (Hne : token <> base_gas_token g)
    (Hk : pair_to_pool g !! (token, base_gas_token g) = Some key)
    (Hp : prev_prices g !! key = Some prices)
    (Ha : average false prices = Ret p) (Hpos : 0 < p <= u256_max) :
  conversion_rate_of_pair g token (base_gas_token g) = Ret (Some p) /\
  conversion_rate_of_pair g (base_gas_token g) token = Ret (Some (const_1e54 / p)).
Proof.
  unfold conversion_rate_of_pair. rewrite (direct_rate g token key prices p), gas_rate by done.
  cbn. rewrite inv_ray_one, inv_ray_pos by lia. cbn.
  rewrite mul_ray_one_l, mul_ray_one_r by (apply inv_word || idtac; lia). done.
Qed.

(** ** Gas updates *)

Lemma gas_updates_elem g pairs us token0 token1 pool price :
  gas_updates g pairs = Ret us -> (token0, token1, pool) ∈ pairs ->
  get_conversion_rate g token0 token1 = Ret (Some price) ->
  exists u, u ∈ us /\ gas_update_of g pool price = Ret u.
Proof.
  revert us. induction pairs as [|[[t0 t1] k] pairs IH]; intros us Hus Hin Hr; cbn in Hus.
  { by apply not_elem_of_nil in Hin. }
  apply bind_Ret in Hus as (r & Er & Hus). apply elem_of_cons in Hin as [[= <- <- <-]|Hin].
  - rewrite Hr in Er. injection Er as <-. apply bind_Ret in Hus as (u & Hu & Hus).
    apply bind_Ret in Hus as (us' & _ & Hus). injection Hus as <-. exists u. split; [left|done].
  - destruct r as [pr|].
    + apply bind_Ret in Hus as (u & _ & Hus). apply bind_Ret in Hus as (us' & Hus' & Hus).
      injection Hus as <-. destruct (IH us' Hus' Hin Hr) as (u' & Hu' & E). exists u'.
      split; [by right|done].
    + by apply IH.
Qed.

Lemma inverse_quantity_one q : 0 <= q <= u128_max -> inverse_quantity const_1e27 q false = Ret q.
Proof.
  intros Hq. pose proof const_1e27_pos. rewrite inverse_quantity_eval by lia. cbn.
  rewrite Z.div_mul by lia. f_equal. lia.
Qed.

Lemma eth_conversion_gas_first g token units : 0 < base_wei g -> 0 <= units ->
  base_wei g * units <= u128_max ->
  get_eth_conversion_price g (base_gas_token g) token units = Ret (Some (base_wei g * units)).
Proof.
  intros Hw Hu Hfit. unfold get_eth_conversion_price. rewrite gas_rate. cbn [mbind outcome_bind].
  rewrite (proj2 (Z.eqb_neq (base_wei g) 0)) by lia. rewrite inv_ray_one. cbn [mbind outcome_bind].
  unfold u128_wrap. rewrite Z.mod_small by (unfold u128_max in Hfit; nia).
  unfold mul_wad. change (10 ^ 27) with const_1e27. pose proof const_1e27_pos.
  rewrite rational_floor_spec by nia. cbn [mbind outcome_bind].
  rewrite (Z.mul_comm const_1e27), Z.div_mul by lia.
  rewrite from_limbs_slice_fits by (unfold u128_max, u256_max in *; nia). cbn [mbind outcome_bind].
  rewrite uint_to_u128_fits by nia. done.
Qed.

(** The gas that a new block announces for a pool whose first token is the
    gas token counts units of gas, while the gas of an order of that pool is
    charged in units times the gas price. *)
Theorem gas_update_without_gas_price g token pool us
    (Hpool : pair_to_pool g !! (base_gas_token g, token) = Some pool)
    (Hus : generate_gas_updates g = Ret us)
    (Hwei : 0 < base_wei g) (Hfit : base_wei g * BOOK_GAS <= u128_max) :
  exists u, u ∈ us /\ ug_pool_id u = pool /\ gas_external_book u = BOOK_GAS /\
    get_eth_conversion_price g (base_gas_token g) token BOOK_GAS =
      Ret (Some (base_wei g * BOOK_GAS)).
Proof.
  destruct (gas_updates_elem g _ us (base_gas_token g) token pool const_1e27 Hus) as (u & Hu & Eu);
    [by apply elem_of_hm_iter|apply gas_rate|].
  exists u. split; [done|]. unfold gas_update_of in Eu.
  destruct (tob_gas_at (base_wei g)) as [ti tn].
  apply bind_Ret in Eu as (bi & _ & Eu). apply bind_Ret in Eu as (be & Hbe & Eu).
  apply bind_Ret in Eu as (x & _ & Eu). apply bind_Ret in Eu as (y & _ & Eu). injection Eu as <-.
  rewrite inverse_quantity_one in Hbe by (unfold BOOK_GAS, u128_max; lia). injection Hbe as <-.
  split; [done|]. split; [done|]. apply eth_conversion_gas_first; [done| |done].
  unfold BOOK_GAS. lia.
Qed.

(** ** Price updates *)

(** No queue is longer than the window of the average, and the pool of every pair
    has a queue. *)
Definition queue_ok (blocks : u64) (queue : list PairsWithPrice) : Prop :=
  Z.of_nat (length queue) <= Z.max 1 blocks.
Definition pricing_ok g : Prop :=
  map_Forall (fun _ q => queue_ok (blocks_to_avg_price g) q) (prev_prices g) /\
  map_Forall (fun _ key => is_Some (prev_prices g !! key)) (pair_to_pool g).

Definition same_pools g g' : Prop :=
  uniswap_pools g' = uniswap_pools g /\ blocks_to_avg_price g' = blocks_to_avg_price g.

#[local] Instance same_pools_preorder : PreOrder same_pools.
Proof. split; [done|]. intros g1 g2 g3 [H1 H2] [H3 H4]. split; congruence. Qed.

Lemma pop_push_ok blocks queue x : queue_ok blocks queue ->
  queue_ok blocks (pop_if_longer blocks (queue ++ [x])).
Proof.
  unfold queue_ok, pop_if_longer. intros Hq.
  destruct (Z.ltb_spec blocks (Z.of_nat (length (queue ++ [x])))) as [Hl|Hl]; [|lia].
  destruct queue; cbn in *; rewrite ?length_app in *; cbn in *; lia.
Qed.

Lemma pop_ok blocks queue : queue_ok blocks queue -> queue_ok blocks (pop_if_longer blocks queue).
Proof.
  unfold queue_ok, pop_if_longer. intros Hq. destruct (blocks <? _); [|done].
  destruct queue; cbn in *; lia.
Qed.

Lemma repeat_last_ok blocks queue : queue_ok blocks queue -> queue_ok blocks (repeat_last blocks queue).
Proof. intros Hq. unfold repeat_last. destruct (last queue); [by apply pop_push_ok|done]. Qed.

(** Inserting a queue keeps the pool of every pair priced. *)
Lemma insert_queue_ok g key queue p2p : pricing_ok g -> queue_ok (blocks_to_avg_price g) queue ->
  map_Forall (fun _ k => k = key \/ is_Some (prev_prices g !! k)) p2p ->
  pricing_ok (set_prices g (<[key := queue]> (prev_prices g)) p2p).
Proof.
  intros [Hq _] Hn Hp. split; [by apply map_Forall_insert_2|]. intros pair k Hk. cbn.
  destruct (decide (k = key)) as [->|Hne]; [by rewrite lookup_insert_eq|].
  rewrite lookup_insert_ne by done. by destruct (Hp _ _ Hk).
Qed.

Lemma pool_of_update_ok g u g' key : pricing_ok g -> pool_of_update g u = Ret (g', key) ->
  pricing_ok g' /\ same_pools g g' /\ is_Some (prev_prices g' !! key).
Proof.
  intros Hok. unfold pool_of_update. destruct (pair_to_pool g !! _) as [k|] eqn:E.
  - intros [= <- <-]. split; [done|]. split; [done|]. by apply (proj2 Hok _ _ E).
  - intros (pk & _ & H)%bind_Ret. injection H as <- <-. split; [|split; [done|cbn; by rewrite lookup_insert_eq]].
    apply insert_queue_ok; [done|unfold queue_ok; cbn; lia|].
    apply map_Forall_insert_2; [by left|]. apply map_Forall_insert_2; [by left|].
    intros pair k Hk. right. by apply (proj2 Hok _ _ Hk).
Qed.

Lemma apply_one_ok g u g' key : pricing_ok g -> apply_one g u = Ret (g', key) ->
  pricing_ok g' /\ same_pools g g'.
Proof.
  intros Hok. unfold apply_one. intros ([g1 k] & H1 & H)%bind_Ret.
  apply (pool_of_update_ok _ _ _ _ Hok) in H1 as (Hok1 & Hs & _).
  apply bind_Ret in H as (prices & Hp & H). apply bind_Ret in H as (u' & _ & H).
  injection H as <- <-. split; [|done].
  destruct (prev_prices g1 !! k) as [q|] eqn:Eq; [|done]. injection Hp as ->.
  pose proof (proj1 Hok1 _ _ Eq) as Hq. apply insert_queue_ok; [done| |].
  - destruct (price_1_over_0 u' =? 0); [by apply pop_ok|by apply pop_push_ok].
  - intros pair k' Hk'. right. by apply (proj2 Hok1 _ _ Hk').
Qed.

Lemma apply_all_ok g updates g' keys : pricing_ok g -> apply_all g updates = Ret (g', keys) ->
  pricing_ok g' /\ same_pools g g'.
Proof.
  revert g keys. induction updates as [|u updates IH]; intros g keys Hok H; cbn in H.
  - injection H as <- <-. done.
  - apply bind_Ret in H as ([g1 k] & H1 & H). apply bind_Ret in H as ([g2 ks] & H2 & H).
    injection H as <- <-. apply (apply_one_ok _ _ _ _ Hok) in H1 as [Hok1 Hs1].
    apply (IH _ _ Hok1) in H2 as [Hok2 Hs2]. split; [done|by etrans].
Qed.

Lemma drop_pools_ok g keys : pricing_ok g ->
  pricing_ok (foldl drop_pool g keys) /\ same_pools g (foldl drop_pool g keys) /\
  forall k, is_Some (prev_prices (foldl drop_pool g keys) !! k) <->
    is_Some (prev_prices g !! k) /\ ~ (k ∈ keys).
Proof.
  revert g. induction keys as [|key keys IH]; intros g Hok; cbn [foldl].
  { split; [done|]. split; [done|]. intros k. split; [|by intros []]. intros. split; [done|apply not_elem_of_nil]. }
  destruct (IH (drop_pool g key)) as (H1 & H2 & H3).
  - destruct Hok as [Hq Hp]. split; [by apply map_Forall_delete|].
    intros pair k [Hk Hne]%map_lookup_filter_Some. cbn in Hne. cbn.
    rewrite lookup_delete_ne by done. by apply (Hp pair).
  - split; [done|]. split; [by etrans; [|done]|]. intros k. rewrite H3. cbn.
    rewrite lookup_delete_is_Some, not_elem_of_cons. naive_solver.
Qed.

Lemma add_all_ok g entries g' : pricing_ok g -> add_all g entries = Ret g' ->
  pricing_ok g' /\ same_pools g g' /\
  forall k, is_Some (prev_prices g' !! k) <-> is_Some (prev_prices g !! k) \/ k ∈ entries.*1.
Proof.
  revert g. induction entries as [|[key pool] entries IH]; intros g Hok H; cbn in H.
  { injection H as <-. split; [done|]. split; [done|]. intros k. set_solver. }
  apply bind_Ret in H as (g1 & H1 & H).
  assert (pricing_ok g1 /\ same_pools g g1 /\
    forall k, is_Some (prev_prices g1 !! k) <-> is_Some (prev_prices g !! k) \/ k = key) as (Hok1 & Hs1 & Hk1).
  { unfold add_missing in H1. destruct (prev_prices g !! key) eqn:E.
    - injection H1 as <-. split; [done|]. split; [done|]. intros k. split; [by left|].
      intros [?| ->]; [done|by rewrite E].
    - apply bind_Ret in H1 as (p & _ & H1). injection H1 as <-. split; [|split; [done|]].
      + apply insert_queue_ok; [done|unfold queue_ok; cbn; lia|]. apply map_Forall_insert_2; [by left|].
        intros pair k Hk. right. by apply (proj2 Hok _ _ Hk).
      + intros k. cbn. rewrite lookup_insert_is_Some. destruct (decide (k = key)); naive_solver. }
  destruct (IH g1 Hok1 H) as (H2 & H3 & H4). split; [done|]. split; [by etrans|].
  intros k. rewrite H4, Hk1. set_solver.
Qed.

(** A price update keeps a queue for exactly the pools of Uniswap, none
    longer than the window of the average, and a queue for the pool of every
    pair. *)
Theorem apply_update_tracks_pools g (new_block : u64) (new_gas_wei : u128) updates g'
    (Hok : pricing_ok g) (Hup : apply_update g new_block new_gas_wei updates = Ret g') :
  pricing_ok g' /\ dom (prev_prices g') = dom (uniswap_pools g') /\ same_pools g g'.
Proof.
  unfold apply_update in Hup. apply bind_Ret in Hup as ([g1 keys] & H1 & Hup).
  apply apply_all_ok in H1 as [[Hq1 Hp1] Hs1]; [|done].
  match type of Hup with context [foldl drop_pool ?g0 _] => set (g2 := g0) in * end.
  match type of Hup with context [foldl drop_pool _ ?ks] => set (rm := ks) in * end.
  assert (pricing_ok g2) as Hok2.
  { split.
    - intros k q Hk. cbn in Hk. rewrite map_lookup_imap in Hk.
      apply bind_Some in Hk as (q0 & Hq0 & [= <-]). pose proof (Hq1 _ _ Hq0).
      case_bool_decide; [done|by apply repeat_last_ok].
    - intros pair k Hk. cbn. rewrite map_lookup_imap. by destruct (Hp1 _ _ Hk) as [q ->]. }
  destruct (drop_pools_ok g2 rm Hok2) as (Hok3 & Hs3 & Hk3).
  apply add_all_ok in Hup as (Hok4 & Hs4 & Hk4); [|done].
  assert (same_pools g g') as Hsame by (etrans; [exact Hs1|]; etrans; [exact Hs3|exact Hs4]).
  split; [done|]. split; [|done].
  apply set_eq. intros k. rewrite !elem_of_dom, Hk4. rewrite Hk3. rewrite (proj1 Hs4), (proj1 Hs3).
  fold (hm_keys (uniswap_pools g2)). rewrite elem_of_hm_keys.
  unfold rm. rewrite list_elem_of_In, filter_In, <-list_elem_of_In, elem_of_hm_keys.
  rewrite negb_true_iff, bool_decide_eq_false. destruct (decide (is_Some (uniswap_pools g2 !! k))); naive_solver.
Qed.
End pricing.

(** ** Examples *)

Section examples.
#[local] Existing Instance arith_Z.
#[local] Existing Instance iter_by_encoding.

(** One pool of the gas token 1 and the token 2, at two of token 2 for one of the
    gas token, with a gas price of 30 gwei. *)
Definition sample_prices : TokenPriceGenerator := {|
  uniswap_pools := {[ 9 := {| up_token0 := 1; up_token1 := 2; sqrt_price_x96 := 2 ^ 96 |} ]};
  prev_prices := {[ 9 := [{| pp_token0 := 1; pp_token1 := 2; price_1_over_0 := 2 * const_1e27 |}] ]};
  pair_to_pool := {[ (1, 2) := 9; (2, 1) := 9 ]};
  base_gas_token := 1; blocks_to_avg_price := 15; base_wei := 30000000000; current_block := 1
|}.

Lemma conversion_rate_inverted_witness :
  conversion_rate_of_pair sample_prices 1 2 = Ret (Some (const_1e27 / 2)).
Proof.
  destruct (conversion_rate_inverted sample_prices 2 9
    [{| pp_token0 := 1; pp_token1 := 2; price_1_over_0 := 2 * const_1e27 |}] (2 * const_1e27)) as [_ H].
  - discriminate.
  - reflexivity.
  - reflexivity.
  - vm_compute. reflexivity.
  - unfold const_1e27, u256_max. lia.
  - transitivity (Ret (Some (const_1e54 / (2 * const_1e27)))); [exact H|vm_compute; reflexivity].
Defined.

Lemma gas_update_without_gas_price_witness :
  match generate_gas_updates sample_prices with
  | Ret us => exists u, u ∈ us /\ gas_external_book u = 92000
  | Panic => False
  end.
Proof.
  destruct (generate_gas_updates sample_prices) as [us|] eqn:E; [|vm_compute in E; discriminate].
  destruct (gas_update_without_gas_price sample_prices 2 9 us) as (u & Hu & _ & Hg & _).
  - reflexivity.
  - exact E.
  - cbn. lia.
  - unfold BOOK_GAS, u128_max. cbn. lia.
  - exists u. split; [exact Hu|exact Hg].
Defined.

Lemma apply_update_tracks_pools_witness :
  match apply_update sample_prices 2 0 [] with
  | Ret g => dom (prev_prices g) = dom (uniswap_pools g)
  | Panic => False
  end.
Proof.
  destruct (apply_update sample_prices 2 0 []) as [g|] eqn:E; [|vm_compute in E; discriminate].
  apply (apply_update_tracks_pools sample_prices 2 0 [] g); [|exact E]. split.
  - apply map_Forall_singleton. unfold queue_ok. cbn. lia.
  - apply map_Forall_insert_2; [by exists [{| pp_token0 := 1; pp_token1 := 2;
      price_1_over_0 := 2 * const_1e27 |}]|]. apply map_Forall_singleton.
    by exists [{| pp_token0 := 1; pp_token1 := 2; price_1_over_0 := 2 * const_1e27 |}].
Defined.
End examples.
