(* ===== verification/Rules.v ===== *)
(** * The per-order rules

    The model of [crates/validation/src/order/state/order_validators.rs] and the
    five rules beside it, which every order passes before its account is
    consulted.  The [f64] arithmetic of the partial-order rule is IEEE binary64,
    as [SpecFloat] specifies it. *)

From Stdlib.Floats Require Import SpecFloat.
From S2P Require Import Prelude Ray Orders Samples.
Open Scope Z_scope.

(** The bounds of a Uniswap square-root price, constants of [uniswap_v3_math]. *)
Class SqrtRatios : Type := {
  MIN_SQRT_RATIO : U256;
  MAX_SQRT_RATIO : U256
}.

Record OrderValidationState (T : Type) := {
  rule_order : T;
  min_qty : option u128
}.
Arguments Build_OrderValidationState {_} _ _.
Arguments rule_order {_} _.
Arguments min_qty {_} _.

Inductive OrderValidator :=
| EnsureAmountSet
| EnsureMaxGasLessThanMinAmount
| EnsurePriceSet
| EnsureGasSet
| PartialMinDelta.

Definition ORDER_VALIDATORS : list OrderValidator :=
  [EnsureAmountSet; EnsureGasSet; EnsurePriceSet; EnsureMaxGasLessThanMinAmount;
   PartialMinDelta].

(** ** Doubles *)

(** [x as f64] of an unsigned integer, rounded to nearest. *)
Definition f64_from (x : Z) : spec_float := binary_normalize 53 1024 x 0 false.

Definition f64_div : spec_float -> spec_float -> spec_float := SFdiv 53 1024.

(** The double written [0.8]. *)
Definition MAX_RATIO_PCT : spec_float := S754_finite false 7205759403792794 (-53).

Section rules.
Context `{AL : ArithLib} `{SR : SqrtRatios} {T : Type} `{RP : RawPoolOrder T}.
Implicit Types (st : OrderValidationState T) (o : T).

Definition new_state o : OrderValidationState T :=
  {| rule_order := o; min_qty := None |}.

Definition min_qty_in_t0 st : outcome (OrderValidationState T * u128) :=
  match min_qty st with
  | Some q => Ret (st, q)
  | None =>
      m ← min_qty_t0 (rule_order st);
      q ← unwrap m;
      Ret ({| rule_order := rule_order st; min_qty := Some q |}, q)
  end.

Definition ensure_amount_set st : outcome (OrderValidationState T * result unit OrderValidationError) :=
  Ret (st, if min_amount (rule_order st) =? 0 then Err NoAmountSpecified else Ok tt).

Definition ensure_gas_set st : outcome (OrderValidationState T * result unit OrderValidationError) :=
  Ret (st, if max_gas_token_0 (rule_order st) =? 0 then Err NoGasSpecified else Ok tt).

Definition ensure_price_set st : outcome (OrderValidationState T * result unit OrderValidationError) :=
  if is_tob (rule_order st) then Ret (st, Ok tt)
  else
    price ← limit_price (rule_order st);
    if price =? 0 then Ret (st, Err NoPriceSpecified)
    else
      inside ← within_sqrt_price_bounds MIN_SQRT_RATIO MAX_SQRT_RATIO price;
      Ret (st, if negb inside then Err PriceOutOfPoolBounds else Ok tt).

(** The check that every order that is not decided earlier ends with. *)
Definition gas_below_min_qty st (max_gas : u128)
    : outcome (OrderValidationState T * result unit OrderValidationError) :=
  '(st', q) ← min_qty_in_t0 st;
  Ret (st', if q <? max_gas then Err MaxGasGreaterThanMinAmount else Ok tt).

Definition ensure_max_gas_less_than_min_amount st
    : outcome (OrderValidationState T * result unit OrderValidationError) :=
  let max_gas := max_gas_token_0 (rule_order st) in
  m ← min_qty_t0 (rule_order st);
  match m, is_tob (rule_order st) with
  | Some q, true =>
      if q <? max_gas then Ret (st, Err MaxGasGreaterThanMinAmount)
      else gas_below_min_qty st max_gas
  | None, true => Ret (st, Ok tt)
  | _, false => gas_below_min_qty st max_gas
  end.

Definition partial_min_delta st : outcome (OrderValidationState T * result unit OrderValidationError) :=
  if negb (is_partial (rule_order st)) then Ret (st, Ok tt)
  else
    let max := amount (rule_order st) in
    let min := min_amount (rule_order st) in
    if max =? 0 then Ret (st, Err NoAmountSpecified)
    else
      let ratio := f64_div (f64_from min) (f64_from max) in
      Ret (st, if SFltb MAX_RATIO_PCT ratio then Err MinDeltaToSmall else Ok tt).

Definition rule (r : OrderValidator) st
    : outcome (OrderValidationState T * result unit OrderValidationError) :=
  match r with
  | EnsureAmountSet => ensure_amount_set st
  | EnsureMaxGasLessThanMinAmount => ensure_max_gas_less_than_min_amount st
  | EnsureGasSet => ensure_gas_set st
  | EnsurePriceSet => ensure_price_set st
  | PartialMinDelta => partial_min_delta st
  end.

(** [for validator in ORDER_VALIDATORS { validator.validate_order(&mut state)? }] *)
Fixpoint run_rules st (rs : list OrderValidator) : outcome (result unit OrderValidationError) :=
  match rs with
  | [] => Ret (Ok tt)
  | r :: rs' =>
      '(st', res) ← rule r st;
      match res with
      | Err e => Ret (Err e)
      | Ok _ => run_rules st' rs'
      end
  end.

(** [StateValidation::validate]. *)
Definition validate o : outcome (result unit OrderValidationError) :=
  run_rules (new_state o) ORDER_VALIDATORS.

(** ** What an accepted order satisfies *)

Lemma rule_price_Ok st st' : ensure_price_set st = Ret (st', Ok tt) ->
  st' = st /\ (is_tob (rule_order st) = false -> exists price,
    limit_price (rule_order st) = Ret price /\ price <> 0 /\
    within_sqrt_price_bounds MIN_SQRT_RATIO MAX_SQRT_RATIO price = Ret true).
Proof.
  unfold ensure_price_set. destruct (is_tob (rule_order st)); [by intros [= ->]|].
  intros (price & Hp & H)%bind_Ret. destruct (Z.eqb_spec price 0); [done|].
  apply bind_Ret in H as ([] & Hin & H); [|done]. injection H as <-. eauto 6.
Qed.

Lemma gas_below_min_qty_Ok o g st' : gas_below_min_qty (new_state o) g = Ret (st', Ok tt) ->
  rule_order st' = o /\ exists q, min_qty_t0 o = Ret (Some q) /\ g <= q.
Proof.
  unfold gas_below_min_qty, min_qty_in_t0. cbn. intros ([st1 q] & H & Hr)%bind_Ret.
  apply bind_Ret in H as (m & Hm & H). apply bind_Ret in H as (q' & Hq & H).
  injection H as <- <-. destruct m as [m|]; [|done]. injection Hq as <-.
  destruct (Z.ltb_spec m g); [done|]. injection Hr as <-. eauto.
Qed.

Lemma rule_gas_Ok o st' : ensure_max_gas_less_than_min_amount (new_state o) = Ret (st', Ok tt) ->
  rule_order st' = o /\
  (is_tob o = true /\ min_qty_t0 o = Ret None \/
   exists q, min_qty_t0 o = Ret (Some q) /\ max_gas_token_0 o <= q).
Proof.
  unfold ensure_max_gas_less_than_min_amount. cbn [rule_order new_state].
  intros (m & Hm & H)%bind_Ret.
  destruct m as [q|], (is_tob o).
  - destruct (q <? _); [done|]. apply gas_below_min_qty_Ok in H. naive_solver.
  - apply gas_below_min_qty_Ok in H. naive_solver.
  - injection H as <-. naive_solver.
  - apply gas_below_min_qty_Ok in H. naive_solver.
Qed.

(** A user order that passes the rules has a price. *)
Lemma validate_price o : is_tob o = false -> validate o = Ret (Ok tt) ->
  exists price, limit_price o = Ret price /\ price <> 0.
Proof.
  intros Htob. unfold validate, ORDER_VALIDATORS. cbn [run_rules rule].
  intros ([s1 []] & H1 & H)%bind_Ret; [|done]. injection H1 as <- _.
  apply bind_Ret in H as ([s2 []] & H2 & H); [|done]. injection H2 as <- _.
  apply bind_Ret in H as ([s3 [[]|]] & H3 & H); [|done].
  apply rule_price_Ok in H3 as [_ H3]. destruct (H3 Htob) as (price & ? & ? & _). eauto.
Qed.

(** An order that passes the rules names a minimum amount and a maximum gas,
    a price that is not zero and inside the bounds of the pool unless it is a
    top-of-block order, covers its maximum gas with its minimum quantity of the
    first token, and leaves room between the minimum and the maximum amount of a
    partial order. *)
Theorem validate_accepts (o : T) (Hok : validate o = Ret (Ok tt)) :
  min_amount o <> 0 /\ max_gas_token_0 o <> 0 /\
  (is_tob o = false -> exists price, limit_price o = Ret price /\ price <> 0 /\
    within_sqrt_price_bounds MIN_SQRT_RATIO MAX_SQRT_RATIO price = Ret true) /\
  (is_tob o = true /\ min_qty_t0 o = Ret None \/
    exists q, min_qty_t0 o = Ret (Some q) /\ max_gas_token_0 o <= q) /\
  (is_partial o = true ->
    SFltb MAX_RATIO_PCT (f64_div (f64_from (min_amount o)) (f64_from (amount o))) = false).
Proof.
  unfold validate, ORDER_VALIDATORS in Hok. cbn [run_rules rule] in Hok.
  apply bind_Ret in Hok as ([s1 r1] & H1 & Hok). injection H1 as <- <-.
  cbn [rule_order new_state] in Hok. destruct (Z.eqb_spec (min_amount o) 0); [done|].
  apply bind_Ret in Hok as ([s2 r2] & H2 & Hok). injection H2 as <- <-.
  cbn [rule_order new_state] in Hok. destruct (Z.eqb_spec (max_gas_token_0 o) 0); [done|].
  apply bind_Ret in Hok as ([s3 []] & H3 & Hok); [|done]. destruct a.
  apply rule_price_Ok in H3 as [-> H3].
  apply bind_Ret in Hok as ([s4 []] & H4 & Hok); [|done]. destruct a.
  apply rule_gas_Ok in H4 as [Ho H4].
  apply bind_Ret in Hok as ([s5 []] & H5 & Hok); [|done]. destruct a.
  split; [done|]. split; [done|]. split; [done|]. split; [done|]. intros Hpart.
  unfold partial_min_delta in H5. rewrite Ho, Hpart in H5. cbn [negb] in H5.
  destruct (amount o =? 0); [done|]. by destruct (SFltb _ _).
Qed.

(** ** Orders that the rules cannot handle *)

(** An order that is not a top-of-block order, names a minimum amount, a gas
    and a price inside the bounds, but whose minimum quantity of the first token
    has no value, makes the rules panic: such is every order of maximum amount
    zero and minimum amount above it. *)
Theorem validate_panics_zero_amount (o : T) (price : U256)
    (Htob : is_tob o = false) (Hmin : min_amount o <> 0) (Hgas : max_gas_token_0 o <> 0)
    (Hprice : limit_price o = Ret price) (Hset : price <> 0)
    (Hin : within_sqrt_price_bounds MIN_SQRT_RATIO MAX_SQRT_RATIO price = Ret true)
    (Hnone : min_qty_t0 o = Ret None) :
  validate o = Panic.
Proof.
  unfold validate, ORDER_VALIDATORS. cbn [run_rules rule].
  unfold ensure_amount_set, ensure_gas_set, ensure_price_set,
    ensure_max_gas_less_than_min_amount, gas_below_min_qty, min_qty_in_t0, new_state.
  cbn [rule_order min_qty]. rewrite (proj2 (Z.eqb_neq _ _) Hmin). cbn.
  rewrite (proj2 (Z.eqb_neq _ _) Hgas). cbn. rewrite Htob, Hprice. cbn.
  rewrite (proj2 (Z.eqb_neq _ _) Hset), Hin. cbn. rewrite Hnone. cbn. by rewrite Htob.
Qed.
End rules.

(** ** Examples *)

(** The bounds of Uniswap. *)
Definition uniswap_ratios : SqrtRatios := {|
  MIN_SQRT_RATIO := 4295128739;
  MAX_SQRT_RATIO := 1461446703485210103287273052203988822378723970342
|}.

Section examples.
#[local] Existing Instance arith_Z.
#[local] Existing Instance sample_hasher.
#[local] Existing Instance uniswap_ratios.

(** A partial standing ask at price one for between [min] and [max]. *)
Definition sample_partial (min max : u128) : PartialStandingOrder := {|
  ps_ref_id := 7; ps_min_amount_in := min; ps_max_amount_in := max;
  ps_max_extra_fee_asset0 := 10; ps_min_price := const_1e27; ps_use_internal := true;
  ps_asset_in := 1; ps_asset_out := 2; ps_recipient := 4; ps_hook_data := [];
  ps_nonce := 1; ps_deadline := 5000; ps_meta := sample_meta 4
|}.

Lemma validate_accepts_witness :
  validate (sample_partial 50 100) = Ret (Ok tt) /\
  is_partial (sample_partial 50 100) = true /\ max_gas_token_0 (sample_partial 50 100) <> 0.
Proof.
  assert (validate (sample_partial 50 100) = Ret (Ok tt)) as Hok by (vm_compute; reflexivity).
  split; [exact Hok|]. split; [reflexivity|].
  apply (validate_accepts (sample_partial 50 100) Hok).
Defined.

Lemma validate_panics_zero_amount_witness : validate (sample_partial 50 0) = Panic.
Proof.
  apply (validate_panics_zero_amount (sample_partial 50 0) const_1e27);
    first [reflexivity|vm_compute; discriminate|vm_compute; reflexivity].
Defined.
End examples.
