(* ===== verification/Accounts.v ===== *)
(** * User accounts

    The model of [order/state/account/user.rs] and [order/state/account/mod.rs]
    of [crates/validation]: the funds that the pending orders of a user reserve,
    and the decision whether a new order still has funds.

    The three maps sit behind [Arc<DashMap>] and up to three orders of one user
    are verified at the same time.  Here an operation is a function on the state
    it finds, so [verify_order] is the verification of an order that no other one
    overlaps; [Threads.v] interleaves the single accesses to the maps and shows
    that a task that runs alone computes [verify_order].  The chain is read
    through the trait [StateFetchUtils], a class here. *)

From Stdlib Require Import Sorted.
From S2P Require Import Prelude Ray Orders.
Open Scope Z_scope.

(** [slice::sort_unstable_by]: the standard library promises a sorted
    permutation when the comparison is a total order, and nothing on the order of
    elements that compare equal. *)
Definition total_cmp {A} (cmp : A -> A -> comparison) : Prop :=
  (forall a b, cmp b a = CompOpp (cmp a b)) /\ cmp_trans cmp.

Class SortLib : Type := {
  sort_unstable_by : forall {A : Type}, (A -> A -> comparison) -> list A -> list A;
  sort_perm : forall {A : Type} (cmp : A -> A -> comparison) l, total_cmp cmp ->
    sort_unstable_by cmp l ≡ₚ l;
  sort_sorted : forall {A : Type} (cmp : A -> A -> comparison) l, total_cmp cmp ->
    StronglySorted (fun a b => cmp a b <> Gt) (sort_unstable_by cmp l)
}.

(** Insertion sort satisfies the contract; the examples evaluate at it. *)
Fixpoint insert_sorted {A} (cmp : A -> A -> comparison) (x : A) (l : list A) : list A :=
  match l with
  | [] => [x]
  | y :: l' => match cmp x y with Gt => y :: insert_sorted cmp x l' | _ => x :: l end
  end.

Lemma insert_sorted_perm {A} (cmp : A -> A -> comparison) x l : insert_sorted cmp x l ≡ₚ x :: l.
Proof.
  induction l as [|y l IH]; cbn; [done|]. destruct (cmp x y); [done..|].
  rewrite IH. apply perm_swap.
Qed.

Lemma insert_sorted_sorted {A} (cmp : A -> A -> comparison) x l : total_cmp cmp ->
  StronglySorted (fun a b => cmp a b <> Gt) l ->
  StronglySorted (fun a b => cmp a b <> Gt) (insert_sorted cmp x l).
Proof.
  intros [Hopp Htrans]. induction 1 as [|y l Hl IH Hy]; cbn; [by repeat constructor|].
  assert (cmp x y <> Gt -> StronglySorted (fun a b => cmp a b <> Gt) (x :: y :: l)) as Hfront.
  { intros Hxy. constructor; [by constructor|]. constructor; [done|].
    eapply Forall_impl; [exact Hy|]. intros z Hz. by destruct (Htrans x y z Hxy Hz). }
  destruct (cmp x y) eqn:E; [by apply Hfront..|]. constructor; [done|].
  rewrite insert_sorted_perm. constructor; [|done]. by rewrite Hopp, E.
Qed.

Definition insertion_sort : SortLib.
Proof.
  refine {| sort_unstable_by := fun A cmp l => foldr (insert_sorted cmp) [] l |}.
  - intros A cmp l _. induction l as [|x l IH]; cbn; [done|]. by rewrite insert_sorted_perm, IH.
  - intros A cmp l Hc. induction l as [|x l IH]; cbn; [constructor|]. by apply insert_sorted_sorted.
Defined.

(** [StateFetchUtils]; a failure carries the text of its report, and the amounts
    are 256-bit words. *)
Class StateFetchUtils : Type := {
  is_valid_nonce : Address -> u64 -> result bool string;
  fetch_approval_balance_for_token : Address -> Address -> result (option U256) string;
  fetch_balance_for_token : Address -> Address -> result U256 string;
  fetch_token_balance_in_angstrom : Address -> Address -> result U256 string;
  fetch_approval_word : forall user token v,
    fetch_approval_balance_for_token user token = Ok (Some v) -> 0 <= v <= u256_max;
  fetch_balance_word : forall user token v,
    fetch_balance_for_token user token = Ok v -> 0 <= v <= u256_max;
  fetch_angstrom_word : forall user token v,
    fetch_token_balance_in_angstrom user token = Ok v -> 0 <= v <= u256_max
}.

(** [Iterator::take_while]. *)
Fixpoint take_while {A} (f : A -> bool) (l : list A) : list A :=
  match l with
  | [] => []
  | x :: l' => if f x then x :: take_while f l' else []
  end.

(** [Uint::saturating_sub] and [Uint::overflowing_sub]. *)
Definition saturating_sub (a b : U256) : U256 := Z.max 0 (a - b).
Definition overflowing_sub (a b : U256) : U256 * bool := (u256_wrap (a - b), a <? b).

(** ** Data *)

Record BaselineState := {
  base_approval : gmap Address U256;
  base_balance : gmap Address U256;
  base_angstrom : gmap Address U256
}.

Record LiveState := {
  live_token : Address;
  live_approval : U256;
  live_balance : U256;
  live_angstrom : U256
}.

Record PendingUserAction := {
  order_priority : OrderValidationPriority;
  token_address : Address;
  token_delta : U256;
  token_approval : U256;
  angstrom_delta : U256;
  pool_info : UserOrderPoolInfo
}.

Record UserAccounts := {
  pending_book_actions : gmap Address (list PendingUserAction);
  pending_tob_actions : gmap Address (gmap Address (list PendingUserAction));
  last_known_state : gmap Address BaselineState
}.

(** [Deref for PendingUserAction]. *)
Definition pending_hash (p : PendingUserAction) : B256 := vp_order_hash (order_priority p).
Definition pending_is_tob (p : PendingUserAction) : bool := vp_is_tob (order_priority p).

(** [UserAccounts::new]. *)
Definition new_accounts : UserAccounts :=
  {| pending_book_actions := ∅; pending_tob_actions := ∅; last_known_state := ∅ |}.

(** The assignments to the three maps. *)
Definition with_book (ua : UserAccounts) b : UserAccounts :=
  {| pending_book_actions := b; pending_tob_actions := pending_tob_actions ua;
     last_known_state := last_known_state ua |}.
Definition with_tob (ua : UserAccounts) t : UserAccounts :=
  {| pending_book_actions := pending_book_actions ua; pending_tob_actions := t;
     last_known_state := last_known_state ua |}.
Definition with_last_known (ua : UserAccounts) k : UserAccounts :=
  {| pending_book_actions := pending_book_actions ua;
     pending_tob_actions := pending_tob_actions ua; last_known_state := k |}.

(** [Vec::retain] followed by the test that the map's [retain] keeps the entry
    on. *)
Definition retain_nonempty (keep : PendingUserAction -> bool) (l : list PendingUserAction)
    : option (list PendingUserAction) :=
  match List.filter keep l with [] => None | l' => Some l' end.

Implicit Types (ua : UserAccounts) (user token : Address) (p : PendingUserAction).

(** ** New blocks and cancellations *)

Definition new_block ua (users : list Address) (orders : list B256) : UserAccounts :=
  let book := foldl (fun b user => delete user b) (pending_book_actions ua) users in
  {| pending_book_actions :=
       omap (retain_nonempty (fun p => negb (bool_decide (pending_hash p ∈ orders)))) book;
     pending_tob_actions := ∅;
     last_known_state := ∅ |}.

Definition try_cancel_book_order ua user (hash : B256) : UserAccounts * bool :=
  match pending_book_actions ua !! user with
  | None => (ua, false)
  | Some inner_orders =>
      (with_book ua
         (<[user := List.filter (fun o => negb (pending_hash o =? hash)) inner_orders]>
            (pending_book_actions ua)),
       existsb (fun o => pending_hash o =? hash) inner_orders)
  end.

Definition try_cancel_tob_order ua user (hash : B256) : UserAccounts * bool :=
  match pending_tob_actions ua !! user with
  | None => (ua, false)
  | Some inner_orders =>
      (with_tob ua
         (<[user := omap (retain_nonempty (fun o => negb (pending_hash o =? hash))) inner_orders]>
            (pending_tob_actions ua)),
       existsb (fun kv => existsb (fun o => pending_hash o =? hash) (snd kv))
         (map_to_list inner_orders))
  end.

Definition cancel_order ua user (hash : B256) : UserAccounts * bool :=
  let '(ua1, res) := try_cancel_book_order ua user hash in
  if res then (ua1, true) else try_cancel_tob_order ua1 user hash.

(** [==] on [RespendAvoidanceMethod]. *)
Definition respend_eqb (a b : RespendAvoidanceMethod) : bool :=
  match a, b with
  | Nonce m, Nonce n | Block m, Block n => m =? n
  | _, _ => false
  end.

Definition respend_conflicts ua user (avoidance : RespendAvoidanceMethod)
    : list PendingUserAction :=
  match avoidance with
  | Nonce _ =>
      default [] (List.filter (fun p => respend_eqb (vp_respend (order_priority p)) avoidance)
        <$> pending_book_actions ua !! user)
  | Block _ => []
  end.

(** ** The reservations of a user *)

Definition iter_of_tob_and_book ua user token : list PendingUserAction :=
  default [] (pending_tob_actions ua !! user ≫= fun a => a !! token) ++
  default [] (List.filter (fun action => token_address action =? token)
    <$> pending_book_actions ua !! user).

(** The filter that keeps the first top-of-block order of every pool; [seen] is
    the set [seen_pools] of the closure. *)
Fixpoint unique_tob (seen : gset PoolId) (l : list PendingUserAction) : list PendingUserAction :=
  match l with
  | [] => []
  | f :: l' =>
      if negb (pending_is_tob f) then f :: unique_tob seen l'
      else if decide (upi_pool_id (pool_info f) ∈ seen) then unique_tob seen l'
      else f :: unique_tob ({[upi_pool_id (pool_info f)]} ∪ seen) l'
  end.

Definition iter_of_tob_and_book_unique_tob ua user token : list PendingUserAction :=
  unique_tob ∅ (iter_of_tob_and_book ua user token).

(** [a += b] at 256 bits. *)
Definition spend (acc : U256 * U256 * U256) (x : PendingUserAction) : U256 * U256 * U256 :=
  let '(approvals_spend, balance_spend, angstrom_spend) := acc in
  (u256_wrap (approvals_spend + token_approval x),
   u256_wrap (balance_spend + token_delta x),
   u256_wrap (angstrom_spend + angstrom_delta x)).

(** The filter of [try_fetch_live_pending_state]. *)
Definition counts_against (pool : PoolId) (priority : OrderValidationPriority)
    (action : PendingUserAction) : bool :=
  negb (pending_is_tob action && vp_is_tob priority && (upi_pool_id (pool_info action) =? pool)).

(** [state.is_higher_priority(&order_priority) == Ordering::Greater]. *)
Definition outranks (priority : OrderValidationPriority) (action : PendingUserAction) : bool :=
  match is_higher_priority (order_priority action) priority with Gt => true | _ => false end.

Definition try_fetch_live_pending_state ua user token (pool : PoolId)
    (priority : OrderValidationPriority) : option LiveState :=
  baseline ← last_known_state ua !! user;
  baseline_approval ← base_approval baseline !! token;
  baseline_balance ← base_balance baseline !! token;
  baseline_angstrom ← base_angstrom baseline !! token;
  let '(approvals_spend, balance_spend, angstrom_spend) :=
    foldl spend (0, 0, 0)
      (take_while (outranks priority)
        (List.filter (counts_against pool priority)
          (iter_of_tob_and_book_unique_tob ua user token))) in
  Some {| live_token := token;
          live_approval := saturating_sub baseline_approval approvals_spend;
          live_balance := saturating_sub baseline_balance balance_spend;
          live_angstrom := saturating_sub baseline_angstrom angstrom_spend |}.

(** One step of the loop of [fetch_all_invalidated_orders]: what is left of the
    three funds, whether one ran out, and the orders that it ran out on. *)
Definition invalidate_step
    (acc : U256 * U256 * U256 * bool * list B256) (x : PendingUserAction)
    : U256 * U256 * U256 * bool * list B256 :=
  let '(approval, balance, angstrom, has_overflowed, bad) := acc in
  let '(approval, o1) := overflowing_sub approval (token_approval x) in
  let '(balance, o2) := overflowing_sub balance (token_delta x) in
  let '(angstrom, o3) := overflowing_sub angstrom (angstrom_delta x) in
  let has_overflowed := has_overflowed || o1 || o2 || o3 in
  (approval, balance, angstrom, has_overflowed,
   if has_overflowed then bad ++ [pending_hash x] else bad).

Definition fetch_all_invalidated_orders ua user token : outcome (list B256) :=
  match last_known_state ua !! user with
  | None => Ret []
  | Some baseline =>
      approval ← unwrap (base_approval baseline !! token);
      balance ← unwrap (base_balance baseline !! token);
      angstrom ← unwrap (base_angstrom baseline !! token);
      Ret (snd (foldl invalidate_step (approval, balance, angstrom, false, [])
        (iter_of_tob_and_book_unique_tob ua user token)))
  end.

(** ** Admission *)

(** The comparison that the vectors of actions are sorted by. *)
Definition priority_order (f s : PendingUserAction) : comparison :=
  is_higher_priority (order_priority s) (order_priority f).

(** The first half of [insert_pending_user_action]: the action goes to its vector,
    which is sorted again, under the lock of the entry. *)
Definition push_pending_action `{SortLib} ua (is_tob : bool) user (action : PendingUserAction)
    : UserAccounts :=
  let token := token_address action in
  if is_tob then
    let user_entry := default ∅ (pending_tob_actions ua !! user) in
    let token_entry := default [] (user_entry !! token) in
    with_tob ua (<[user := <[token := sort_unstable_by priority_order (token_entry ++ [action])]>
      user_entry]> (pending_tob_actions ua))
  else
    let value := default [] (pending_book_actions ua !! user) in
    with_book ua (<[user := sort_unstable_by priority_order (value ++ [action])]>
      (pending_book_actions ua)).

Definition insert_pending_user_action `{SortLib} ua (is_tob : bool) user
    (action : PendingUserAction) : outcome (UserAccounts * list B256) :=
  let ua := push_pending_action ua is_tob user action in
  bad ← fetch_all_invalidated_orders ua user (token_address action);
  Ret (ua, bad).

Definition load_state_for `{StateFetchUtils} ua user token : UserAccounts * result unit string :=
  match fetch_approval_balance_for_token user token with
  | Err e => (ua, Err e)
  | Ok None => (ua, Err "could not properly find approvals"%string)
  | Ok (Some approvals) =>
      match fetch_balance_for_token user token with
      | Err e => (ua, Err e)
      | Ok balances =>
          match fetch_token_balance_in_angstrom user token with
          | Err e => (ua, Err e)
          | Ok angstrom_balance =>
              let entry := default {| base_approval := ∅; base_balance := ∅; base_angstrom := ∅ |}
                (last_known_state ua !! user) in
              (with_last_known ua (<[user :=
                 {| base_approval := <[token := approvals]> (base_approval entry);
                    base_balance := <[token := balances]> (base_balance entry);
                    base_angstrom := <[token := angstrom_balance]> (base_angstrom entry) |}]>
                 (last_known_state ua)), Ok tt)
          end
      end
  end.

Definition get_live_state_for_order `{StateFetchUtils} ua user token
    (priority : OrderValidationPriority) (pool : PoolId) : UserAccounts * result LiveState string :=
  match try_fetch_live_pending_state ua user token pool priority with
  | Some out => (ua, Ok out)
  | None =>
      match load_state_for ua user token with
      | (ua, Err e) => (ua, Err e)
      | (ua, Ok _) =>
          (ua, match try_fetch_live_pending_state ua user token pool priority with
               | Some out => Ok out
               | None => Err "after loading state for a address, the state wasn't found. this should be impossible"%string
               end)
      end
  end.

Section orders.
Context `{AL : ArithLib} {T : Type} `{RP : RawPoolOrder T}.
Implicit Types (o : T).

Definition fetch_amount_in o : outcome U256 :=
  if is_tob o && negb (raw_is_bid o) then Ret (u128_wrap (amount o + max_gas_token_0 o))
  else
    ray_price ← limit_price o;
    match raw_is_bid o, exact_in o with
    | true, false => inverse_quantity ray_price (u128_wrap (amount o + max_gas_token_0 o)) true
    | false, false =>
        q ← inverse_quantity ray_price (amount o) true;
        Ret (u128_wrap (q + max_gas_token_0 o))
    | _, _ => Ret (amount o)
    end.

(** The action that reserves [amount_in] for the order. *)
Definition pending_action o (info : UserOrderPoolInfo) (bid_in_token_in : option u128)
    (amount_in angstrom_delta token_delta : U256) : PendingUserAction :=
  {| order_priority := validation_priority o bid_in_token_in;
     token_address := upi_token info;
     token_delta := token_delta;
     token_approval := amount_in;
     angstrom_delta := angstrom_delta;
     pool_info := info |}.

Definition can_support_order (self : LiveState) o (info : UserOrderPoolInfo)
    (bid_in_token_in : option u128)
    : outcome (result PendingUserAction UserAccountVerificationError) :=
  _ ← assert (token_in o =? live_token self);
  let hash := order_hash o in
  amount_in ← fetch_amount_in o;
  if use_internal o then
    if live_angstrom self <? amount_in then
      missing ← uint_to_u128 (amount_in - live_angstrom self);
      Ret (Err (InsufficientBalance hash (live_token self) missing))
    else Ret (Ok (pending_action o info bid_in_token_in amount_in amount_in 0))
  else
    match live_approval self <? amount_in, live_balance self <? amount_in with
    | true, true =>
        amount_balance ← uint_to_u128 (amount_in - live_balance self);
        amount_approval ← uint_to_u128 (amount_in - live_approval self);
        Ret (Err (InsufficientBoth hash (live_token self) amount_balance amount_approval))
    | true, false =>
        missing ← uint_to_u128 (amount_in - live_approval self);
        Ret (Err (InsufficientApproval hash (live_token self) missing))
    | false, true =>
        missing ← uint_to_u128 (amount_in - live_balance self);
        Ret (Err (InsufficientBalance hash (live_token self) missing))
    | false, false => Ret (Ok (pending_action o info bid_in_token_in amount_in 0 amount_in))
    end.

(** [StorageWithData::into_order_storage_with_data]. *)
Definition into_order_storage_with_data o (block : u64)
    (is_cur_valid : option UserAccountVerificationError) (valid : bool)
    (info : UserOrderPoolInfo) (invalid : list B256) (reward : U256)
    : outcome (OrderWithStorageData T) :=
  lp ← limit_price o;
  Ret {| order := o;
         priority_data := {| price := lp; volume := amount o; gas := 0; gas_units := 0 |};
         invalidates := invalid;
         pool_id := upi_pool_id info;
         is_currently_valid := is_cur_valid;
         is_bid := upi_is_bid info;
         is_valid := valid;
         valid_block := block;
         order_id := from_all_orders o (upi_pool_id info);
         tob_reward := reward;
         cancel_requested := false |}.

(** The check of the respend method against the chain. *)
Definition check_respend `{StateFetchUtils} o (block : u64)
    : result unit UserAccountVerificationError :=
  match respend_avoidance_strategy o with
  | Nonce nonce =>
      match is_valid_nonce (from o) nonce with
      | Err e => Err (CouldNotFetch e)
      | Ok false => Err (DuplicateNonce (order_hash o))
      | Ok true => Ok tt
      end
  | Block order_block =>
      if negb (u64_wrap (block + 1) =? order_block) then
        Err (BadBlock (u64_wrap (block + 1)) order_block)
      else Ok tt
  end.

(** The part of [verify_order] after the funds of the account are known. *)
Definition reserve_order `{SortLib} ua o (info : UserOrderPoolInfo) (block : u64)
    (conflicting : list PendingUserAction) (live_state : LiveState)
    (reward_t0 reward_token_in : u128)
    : outcome (UserAccounts * result (OrderWithStorageData T) UserAccountVerificationError) :=
  supported ← can_support_order live_state o info (Some reward_token_in);
  match supported with
  | Ok action =>
      '(ua, invalid) ← insert_pending_user_action ua (is_tob o) (from o) action;
      stored ← into_order_storage_with_data o block None true info
        (invalid ++ (pending_hash <$> conflicting)) reward_t0;
      Ret (ua, Ok stored)
  | Err e =>
      if is_tob o then Ret (ua, Err e)
      else
        stored ← into_order_storage_with_data o block (Some e) true info
          (pending_hash <$> conflicting) reward_t0;
        Ret (ua, Ok stored)
  end.

(** [UserAccountProcessor::verify_order].  The closures that the callers pass as
    [tob_rewards] do not write through their reference to the order. *)
Definition verify_order `{SortLib} `{StateFetchUtils} ua o (info : UserOrderPoolInfo)
    (block : u64) (is_revalidating : bool)
    (tob_rewards : T -> UserOrderPoolInfo -> outcome (result (u128 * u128) UserAccountVerificationError))
    : outcome (UserAccounts * result (OrderWithStorageData T) UserAccountVerificationError) :=
  let user := from o in
  let hash := order_hash o in
  let ua := if is_revalidating then fst (cancel_order ua user hash) else ua in
  match check_respend o block with
  | Err e => Ret (ua, Err e)
  | Ok _ =>
      if has_hook o then Ret (ua, Err NonEmptyHook)
      else
        let conflicting := respend_conflicts ua user (respend_avoidance_strategy o) in
        if existsb (fun p => pending_hash p <=? hash) conflicting then
          Ret (ua, Err (DuplicateNonce hash))
        else
          let ua := foldl (fun ua p => fst (cancel_order ua user (pending_hash p))) ua conflicting in
          rewards ← tob_rewards o info;
          match rewards with
          | Err e => Ret (ua, Err e)
          | Ok (reward_t0, reward_token_in) =>
              match get_live_state_for_order ua user (upi_token info)
                      (validation_priority o (Some reward_token_in)) (upi_pool_id info) with
              | (ua, Err e) => Ret (ua, Err (CouldNotFetch e))
              | (ua, Ok live_state) =>
                  reserve_order ua o info block conflicting live_state reward_t0 reward_token_in
              end
          end
  end.
End orders.
