(* ===== verification/AccountsProps.v ===== *)
(** * The properties of the user accounts

    The invariant of the reservations, what a block, a cancellation and an
    admission do to them, and that the funds of an account are never promised
    twice. *)

From Stdlib Require Import Sorted.
From stdpp Require Import sorting.
From S2P Require Import Prelude Ray Orders Samples Accounts.
Open Scope Z_scope.

Implicit Types (ua : UserAccounts) (user token : Address) (p : PendingUserAction)
  (l : list PendingUserAction).

(** ** The order of the reservations *)

Lemma priority_order_total : total_cmp priority_order.
Proof.
  split.
  - intros a b. apply higher_priority_opp.
  - intros a b c Hab Hbc.
    destruct (higher_priority_trans (order_priority c) (order_priority b) (order_priority a) Hbc Hab).
    naive_solver.
Qed.

(** [a] comes before [b], or they tie. *)
Definition before (a b : PendingUserAction) : Prop := priority_order a b <> Gt.

Lemma outranks_before priority a b : before a b -> outranks priority b = true ->
  outranks priority a = true.
Proof.
  unfold before, priority_order, outranks. intros Hab Hb.
  destruct (is_higher_priority (order_priority a) priority) eqn:Ha; [| |done].
  all: destruct (is_higher_priority (order_priority b) priority) eqn:Hb'; try done; exfalso.
  all: destruct (higher_priority_trans (order_priority b) (order_priority a) priority) as [H _];
    [done|by rewrite Ha|by rewrite Hb' in H].
Qed.

Lemma outranks_self p : outranks (order_priority p) p = false.
Proof.
  unfold outranks. pose proof (higher_priority_opp (order_priority p) (order_priority p)) as H.
  by destruct (is_higher_priority _ _).
Qed.

Section lists.
Context {A : Type}.
Implicit Types (f : A -> bool) (xs : list A).

Lemma filter_all_false f xs : (forall x, x ∈ xs -> f x = false) -> List.filter f xs = [].
Proof.
  induction xs as [|x xs IH]; [done|]. intros Hf. cbn. rewrite (Hf x) by left.
  apply IH. intros y Hy. apply Hf. by right.
Qed.

(** On a sorted list, a test that only the front can pass selects a prefix. *)
Lemma take_while_sorted (R : A -> A -> Prop) f xs :
  StronglySorted R xs -> (forall a b, R a b -> f b = true -> f a = true) ->
  take_while f xs = List.filter f xs.
Proof.
  intros Hs Hf. induction Hs as [|x xs Hs IH Hx]; [done|]. cbn.
  destruct (f x) eqn:E; [by rewrite IH|]. symmetry. apply filter_all_false.
  intros y Hy. rewrite Forall_forall in Hx. destruct (f y) eqn:Ey; [|done].
  by rewrite (Hf x y (Hx y Hy) Ey) in E.
Qed.

Lemma elem_of_List_filter f xs x : x ∈ List.filter f xs <-> x ∈ xs /\ f x = true.
Proof. rewrite !list_elem_of_In. apply filter_In. Qed.

Lemma List_filter_sublist f xs : sublist (List.filter f xs) xs.
Proof. induction xs as [|x xs IH]; cbn; [done|]. destruct (f x); by constructor. Qed.

Lemma List_filter_perm f xs ys : xs ≡ₚ ys -> List.filter f xs ≡ₚ List.filter f ys.
Proof.
  induction 1 as [|x xs ys _ IH|x y xs|xs ys zs _ IH1 _ IH2]; cbn; [done| | |by etrans].
  - destruct (f x); [by f_equiv|done].
  - destruct (f x), (f y); done || apply perm_swap.
Qed.

Lemma StronglySorted_sublist (R : A -> A -> Prop) xs ys :
  sublist xs ys -> StronglySorted R ys -> StronglySorted R xs.
Proof.
  induction 1 as [|x xs ys Hs IH|x xs ys Hs IH]; intros H; [done| |].
  - apply StronglySorted_inv in H as [H Hx]. constructor; [by apply IH|].
    rewrite Forall_forall in *. intros y Hy. apply Hx. by eapply sublist_subseteq.
  - apply StronglySorted_inv in H as [H _]. by apply IH.
Qed.
End lists.

Lemma unique_tob_sublist seen l : sublist (unique_tob seen l) l.
Proof.
  revert seen. induction l as [|x l IH]; intros seen; cbn; [done|].
  destruct (negb _); [by constructor|]. case_decide; by constructor.
Qed.

Lemma unique_tob_book seen l p : pending_is_tob p = false -> p ∈ l -> p ∈ unique_tob seen l.
Proof.
  intros Hp. revert seen. induction l as [|x l IH]; intros seen Hin; cbn.
  { by apply not_elem_of_nil in Hin. }
  apply elem_of_cons in Hin as [<-|Hin].
  - rewrite Hp. left.
  - destruct (negb _); [right; by apply IH|]. case_decide; [by apply IH|right; by apply IH].
Qed.

(** ** Sums *)

Fixpoint total (f : PendingUserAction -> Z) l : Z :=
  match l with [] => 0 | p :: l' => f p + total f l' end.

Lemma total_app f l1 l2 : total f (l1 ++ l2) = total f l1 + total f l2.
Proof. induction l1; cbn; lia. Qed.

#[export] Instance total_perm f : Proper ((≡ₚ) ==> eq) (total f).
Proof. induction 1; cbn; lia. Qed.

Lemma total_nonneg f l : (forall p, p ∈ l -> 0 <= f p) -> 0 <= total f l.
Proof.
  induction l as [|x l IH]; intros Hf; cbn; [done|].
  assert (0 <= f x) by (apply Hf; left). assert (0 <= total f l); [|lia].
  apply IH. intros p Hp. apply Hf. by right.
Qed.

Lemma total_elem f l p : (forall p, p ∈ l -> 0 <= f p) -> p ∈ l -> f p <= total f l.
Proof.
  intros Hf Hp. apply list_elem_of_split in Hp as (l1 & l2 & ->).
  rewrite total_app. cbn.
  assert (0 <= total f l1) by (apply total_nonneg; set_solver).
  assert (0 <= total f l2) by (apply total_nonneg; set_solver). lia.
Qed.

Lemma total_bound f l m : (forall p, p ∈ l -> f p <= m) -> total f l <= m * Z.of_nat (length l).
Proof.
  induction l as [|x l IH]; intros Hf; cbn; [lia|].
  assert (f x <= m) by (apply Hf; left).
  assert (total f l <= m * Z.of_nat (length l)) by (apply IH; intros p Hp; apply Hf; by right).
  lia.
Qed.

(** ** The invariant *)

Definition action_ok p : Prop :=
  0 <= token_approval p <= u128_max /\ 0 <= token_delta p <= u128_max /\
  0 <= angstrom_delta p <= u128_max.

(** The nonces that a list of actions uses. *)
Definition nonces l : list u64 :=
  omap (fun p => match vp_respend (order_priority p) with Nonce n => Some n | Block _ => None end) l.

(** The book of a user holds no top-of-block order and uses every nonce once. *)
Definition book_ok l : Prop :=
  StronglySorted before l /\ NoDup (nonces l) /\
  forall p, p ∈ l -> pending_is_tob p = false /\ action_ok p.

Definition tob_ok token l : Prop :=
  StronglySorted before l /\
  forall p, p ∈ l -> pending_is_tob p = true /\ token_address p = token /\ action_ok p.

(** Every book satisfies [B] and every top-of-block vector is in order. *)
Definition accounts_with (B : list PendingUserAction -> Prop) ua : Prop :=
  map_Forall (fun _ l => B l) (pending_book_actions ua) /\
  map_Forall (fun _ m => map_Forall tob_ok m) (pending_tob_actions ua).

Definition accounts_ok ua : Prop := accounts_with book_ok ua.

(** The part of the invariant that does not speak of nonces. *)
Definition book_filed l : Prop :=
  StronglySorted before l /\ forall p, p ∈ l -> pending_is_tob p = false /\ action_ok p.

Definition accounts_filed ua : Prop := accounts_with book_filed ua.

Definition nonces_once ua : Prop :=
  map_Forall (fun _ l => NoDup (nonces l)) (pending_book_actions ua).

Lemma accounts_ok_split ua : accounts_ok ua <-> accounts_filed ua /\ nonces_once ua.
Proof.
  unfold accounts_ok, accounts_filed, accounts_with, nonces_once, book_ok, book_filed, map_Forall. naive_solver.
Qed.

Lemma accounts_ok_filed ua : accounts_ok ua -> accounts_filed ua.
Proof. by intros [? _]%accounts_ok_split. Qed.

Lemma iter_action_ok ua user token p : accounts_filed ua ->
  p ∈ iter_of_tob_and_book ua user token -> action_ok p.
Proof.
  intros [Hb Ht] [Hp|Hp]%elem_of_app.
  - destruct (pending_tob_actions ua !! user) as [m|] eqn:Em; cbn in Hp; [|by apply not_elem_of_nil in Hp].
    destruct (m !! token) as [l|] eqn:El; cbn in Hp; [|by apply not_elem_of_nil in Hp].
    by apply (Ht _ _ Em _ _ El).
  - destruct (pending_book_actions ua !! user) as [l|] eqn:El; cbn in Hp; [|by apply not_elem_of_nil in Hp].
    apply elem_of_List_filter in Hp as [Hp _]. by apply (Hb _ _ El).
Qed.

Lemma unique_action_ok ua user token p : accounts_filed ua ->
  p ∈ iter_of_tob_and_book_unique_tob ua user token -> action_ok p.
Proof.
  intros Hok Hp. apply (iter_action_ok ua user token); [done|].
  eapply elem_of_sublist; [done|]. apply unique_tob_sublist.
Qed.

(** The top-of-block orders and then the book are in the order of their priority. *)
Lemma iter_sorted ua user token : accounts_filed ua ->
  StronglySorted before (iter_of_tob_and_book ua user token).
Proof.
  intros [Hb Ht]. unfold iter_of_tob_and_book. apply StronglySorted_app_2.
  - intros a b Ha Hp.
    destruct (pending_tob_actions ua !! user) as [m|] eqn:Em; cbn in Ha; [|by apply not_elem_of_nil in Ha].
    destruct (m !! token) as [l|] eqn:El; cbn in Ha; [|by apply not_elem_of_nil in Ha].
    destruct (pending_book_actions ua !! user) as [l'|] eqn:El'; cbn in Hp; [|by apply not_elem_of_nil in Hp].
    apply elem_of_List_filter in Hp as [Hp _].
    destruct (Ht _ _ Em _ _ El) as [_ Hta]. destruct (Hb _ _ El') as (_ & Hbb).
    unfold before, priority_order. rewrite higher_priority_opp, higher_priority_tob; [done| |].
    + by apply Hta.
    + by apply Hbb.
  - destruct (pending_tob_actions ua !! user) as [m|] eqn:Em; cbn; [|constructor].
    destruct (m !! token) as [l|] eqn:El; cbn; [|constructor]. by apply (Ht _ _ Em _ _ El).
  - destruct (pending_book_actions ua !! user) as [l|] eqn:El; cbn; [|constructor].
    eapply StronglySorted_sublist; [apply List_filter_sublist|]. by apply (Hb _ _ El).
Qed.

(** ** What the funds still cover *)

(** The reservations in [l] fit the three funds. *)
Definition covers (approval balance angstrom : U256) l : Prop :=
  total token_approval l <= approval /\ total token_delta l <= balance /\
  total angstrom_delta l <= angstrom.

Lemma invalidate_all a b c bad l :
  snd (foldl invalidate_step (a, b, c, true, bad) l) = bad ++ (pending_hash <$> l).
Proof.
  revert a b c bad. induction l as [|x l IH]; intros a b c bad; cbn; [by rewrite app_nil_r|].
  rewrite IH. by rewrite <-app_assoc.
Qed.

Lemma overflowing_sub_fits a b : 0 <= b <= a -> a <= u256_max -> overflowing_sub a b = (a - b, false).
Proof.
  unfold overflowing_sub, u256_wrap, u256_max. intros Hb Ha. f_equal; [apply Z.mod_small|]; lia.
Qed.

Lemma invalidate_step_fits a b c bad p : action_ok p -> 
  a <= u256_max -> b <= u256_max -> c <= u256_max -> covers a b c [p] ->
  invalidate_step (a, b, c, false, bad) p =
    (a - token_approval p, b - token_delta p, c - angstrom_delta p, false, bad).
Proof.
  unfold action_ok, covers, invalidate_step. cbn [total]. intros (?&?&?) ??? (?&?&?).
  rewrite !overflowing_sub_fits by lia. done.
Qed.

Lemma invalidate_step_short a b c bad p : ~ covers a b c [p] ->
  exists a' b' c', invalidate_step (a, b, c, false, bad) p = (a', b', c', true, bad ++ [pending_hash p]).
Proof.
  unfold covers, invalidate_step, overflowing_sub. cbn [total]. intros Hn.
  destruct (Z.ltb_spec a (token_approval p)); [by eauto|].
  destruct (Z.ltb_spec b (token_delta p)); [by eauto|].
  destruct (Z.ltb_spec c (angstrom_delta p)); [by eauto|]. lia.
Qed.

Lemma covers_cons a b c p l : covers a b c (p :: l) <->
  covers (a - token_approval p) (b - token_delta p) (c - angstrom_delta p) l.
Proof. unfold covers. cbn [total]. lia. Qed.

#[export] Instance covers_dec a b c l : Decision (covers a b c l).
Proof. apply _. Defined.

Lemma invalidate_prefix a b c bad l : (forall p, p ∈ l -> action_ok p) ->
  a <= u256_max -> b <= u256_max -> c <= u256_max ->
  0 <= a -> 0 <= b -> 0 <= c ->
  exists n, snd (foldl invalidate_step (a, b, c, false, bad) l) = bad ++ (pending_hash <$> drop n l) /\
    covers a b c (take n l) /\ (n < length l -> ~ covers a b c (take (S n) l))%nat.
Proof.
  revert a b c. induction l as [|x l IH]; intros a b c Hok Ha Hb Hc Ha0 Hb0 Hc0.
  { exists 0%nat. cbn. rewrite app_nil_r. unfold covers. cbn. split; [done|]. split; [lia|lia]. }
  assert (action_ok x) as Hx by (apply Hok; left).
  destruct (decide (covers a b c [x])) as [Hf|Hf].
  - cbn [foldl]. rewrite invalidate_step_fits by done.
    pose proof Hf as (? & ? & ?). pose proof Hx as (? & ? & ?). cbn [total] in *.
    destruct (IH (a - token_approval x) (b - token_delta x) (c - angstrom_delta x))
      as (n & Hn & Hcov & Hmax); [intros p Hp; apply Hok; by right|lia..|].
    exists (S n). split; [done|]. split; [by apply covers_cons|].
    intros Hlt Hc'. apply Hmax; [cbn in Hlt; lia|]. by apply covers_cons in Hc'.
  - destruct (invalidate_step_short a b c bad x Hf) as (a' & b' & c' & E).
    exists 0%nat. cbn [foldl]. rewrite E, invalidate_all, <-app_assoc. split; [done|].
    split; [unfold covers; cbn; lia|]. done.
Qed.

(** The funds that are known for [user] and [token]. *)
Definition known ua user token (approval balance angstrom : U256) : Prop :=
  exists base, last_known_state ua !! user = Some base /\
    base_approval base !! token = Some approval /\ base_balance base !! token = Some balance /\
    base_angstrom base !! token = Some angstrom.

Definition u256_ok (z : Z) : Prop := 0 <= z <= u256_max.

(** The orders that [fetch_all_invalidated_orders] reports are those after the
    longest prefix, in the order of priority, that the known funds cover. *)
Lemma invalidated_prefix ua user token (approval balance angstrom : U256)
    (Hok : accounts_filed ua) (Hk : known ua user token approval balance angstrom)
    (Ha : u256_ok approval) (Hb : u256_ok balance) (Hc : u256_ok angstrom) :
  exists n, let l := iter_of_tob_and_book_unique_tob ua user token in
    fetch_all_invalidated_orders ua user token = Ret (pending_hash <$> drop n l) /\
    covers approval balance angstrom (take n l) /\
    (n < length l -> ~ covers approval balance angstrom (take (S n) l))%nat.
Proof.
  destruct Hk as (base & Hbase & Hka & Hkb & Hkc).
  destruct (invalidate_prefix approval balance angstrom []
    (iter_of_tob_and_book_unique_tob ua user token)) as (n & Hn & Hcov & Hmax);
    [intros p; by apply unique_action_ok|by apply Ha|by apply Hb|by apply Hc|
     by apply Ha|by apply Hb|by apply Hc|].
  exists n. cbn zeta. split; [|done]. unfold fetch_all_invalidated_orders.
  rewrite Hbase, Hka, Hkb, Hkc. cbn. by rewrite Hn.
Qed.

(** ** What is left for an order *)

(** The reservations that an order of [priority] in [pool] has to leave alone:
    all those of a higher priority, except the other top-of-block orders of the
    pool when it is one itself. *)
Definition ahead ua user token (pool : PoolId) (priority : OrderValidationPriority)
    : list PendingUserAction :=
  List.filter (outranks priority)
    (List.filter (counts_against pool priority)
      (iter_of_tob_and_book_unique_tob ua user token)).

Lemma ahead_sublist ua user token pool priority :
  sublist (ahead ua user token pool priority) (iter_of_tob_and_book ua user token).
Proof.
  unfold ahead. etrans; [apply List_filter_sublist|]. etrans; [apply List_filter_sublist|].
  apply unique_tob_sublist.
Qed.

Lemma ahead_action_ok ua user token pool priority p : accounts_filed ua ->
  p ∈ ahead ua user token pool priority -> action_ok p.
Proof.
  intros Hok Hp. apply (iter_action_ok ua user token); [done|].
  eapply elem_of_sublist; [done|]. apply ahead_sublist.
Qed.

Lemma spend_exact l x y z : (forall p, p ∈ l -> action_ok p) ->
  0 <= x -> 0 <= y -> 0 <= z ->
  x + total token_approval l <= u256_max -> y + total token_delta l <= u256_max ->
  z + total angstrom_delta l <= u256_max ->
  foldl spend (x, y, z) l =
    (x + total token_approval l, y + total token_delta l, z + total angstrom_delta l).
Proof.
  revert x y z. induction l as [|p l IH]; intros x y z Hok; cbn [total foldl]; intros.
  { by rewrite !Z.add_0_r. }
  assert (action_ok p) as (? & ? & ?) by (apply Hok; left).
  assert (forall q, q ∈ l -> action_ok q) as Hl by (intros q Hq; apply Hok; by right).
  assert (0 <= total token_approval l) by (apply total_nonneg; intros q Hq; destruct (Hl q Hq) as (? & ? & ?); lia).
  assert (0 <= total token_delta l) by (apply total_nonneg; intros q Hq; destruct (Hl q Hq) as (? & ? & ?); lia).
  assert (0 <= total angstrom_delta l) by (apply total_nonneg; intros q Hq; destruct (Hl q Hq) as (? & ? & ?); lia).
  unfold spend, u256_wrap, u256_max in *. rewrite !Z.mod_small by lia.
  fold spend. rewrite IH by (done || lia). f_equal; [f_equal|]; lia.
Qed.

(** Few enough pending orders that their sums, of at most 128 bits each, stay
    below 256 bits. *)
Definition few_orders ua user token : Prop :=
  (Z.of_nat (length (iter_of_tob_and_book ua user token)) <= 2 ^ 127).

Lemma ahead_total ua user token pool priority (f : PendingUserAction -> Z) :
  accounts_filed ua -> few_orders ua user token ->
  (forall p, action_ok p -> 0 <= f p <= u128_max) ->
  0 <= total f (ahead ua user token pool priority) <= u256_max.
Proof.
  intros Hok Hfew Hf. split.
  - apply total_nonneg. intros p Hp. apply Hf. by eapply ahead_action_ok.
  - etrans; [apply (total_bound _ _ u128_max)|].
    + intros p Hp. apply Hf. by eapply ahead_action_ok.
    + pose proof (sublist_length _ _ (ahead_sublist ua user token pool priority)).
      unfold few_orders in Hfew. unfold u128_max, u256_max in *. nia.
Qed.

Lemma take_while_ahead ua user token pool priority : accounts_filed ua ->
  take_while (outranks priority) (List.filter (counts_against pool priority)
    (iter_of_tob_and_book_unique_tob ua user token)) = ahead ua user token pool priority.
Proof.
  intros Hok. apply (take_while_sorted before); [|apply outranks_before].
  eapply StronglySorted_sublist; [|by apply (iter_sorted ua user token)].
  etrans; [apply List_filter_sublist|]. apply unique_tob_sublist.
Qed.

(** The funds left are the known ones less all reservations ahead. *)
Lemma live_state_spec ua user token pool priority approval balance angstrom :
  accounts_filed ua -> few_orders ua user token -> known ua user token approval balance angstrom ->
  let l := ahead ua user token pool priority in
  try_fetch_live_pending_state ua user token pool priority =
    Some {| live_token := token;
            live_approval := Z.max 0 (approval - total token_approval l);
            live_balance := Z.max 0 (balance - total token_delta l);
            live_angstrom := Z.max 0 (angstrom - total angstrom_delta l) |}.
Proof.
  intros Hok Hfew (base & Hbase & Ha & Hb & Hc). cbn zeta.
  unfold try_fetch_live_pending_state. rewrite Hbase. cbn. rewrite Ha, Hb, Hc. cbn.
  rewrite take_while_ahead by done.
  rewrite spend_exact; [done|intros p; by apply ahead_action_ok|done..| | |];
    rewrite Z.add_0_l; apply ahead_total; try done; intros p (? & ? & ?); done.
Qed.

Lemma live_state_known ua user token pool priority ls :
  try_fetch_live_pending_state ua user token pool priority = Some ls ->
  exists approval balance angstrom, known ua user token approval balance angstrom.
Proof.
  unfold try_fetch_live_pending_state, known. intros H.
  apply bind_Some in H as (base & Hbase & H). apply bind_Some in H as (a & Ha & H).
  apply bind_Some in H as (b & Hb & H). apply bind_Some in H as (c & Hc & H).
  eauto 10.
Qed.

(** ** The operations keep the invariant *)

Lemma nonces_sublist l l' : sublist l' l -> sublist (nonces l') (nonces l).
Proof.
  induction 1 as [|x xs ys Hs IH|x xs ys Hs IH]; cbn; [done| |];
    destruct (vp_respend _); try done; by constructor.
Qed.

Lemma book_ok_sublist l l' : sublist l' l -> book_ok l -> book_ok l'.
Proof.
  intros Hs (Hsort & Hnd & Hp). split; [by eapply StronglySorted_sublist|]. split.
  - eapply sublist_NoDup; [done|by apply nonces_sublist].
  - intros p Hin. apply Hp. by eapply elem_of_sublist.
Qed.

Lemma tob_ok_sublist token l l' : sublist l' l -> tob_ok token l -> tob_ok token l'.
Proof.
  intros Hs (Hsort & Hp). split; [by eapply StronglySorted_sublist|].
  intros p Hin. apply Hp. by eapply elem_of_sublist.
Qed.

Lemma retain_nonempty_Some keep l l' : retain_nonempty keep l = Some l' ->
  l' = List.filter keep l.
Proof. unfold retain_nonempty. destruct (List.filter keep l); naive_solver. Qed.

Lemma foldl_delete_lookup {V} (m m' : gmap Address V) users user v :
  m' = foldl (fun b u => delete u b) m users ->
  m' !! user = Some v <-> m !! user = Some v /\ ~ user ∈ users.
Proof.
  intros ->. revert m. induction users as [|u users IH]; intros m; cbn.
  - split; [intros ?; split; [done|apply not_elem_of_nil]|by intros []].
  - rewrite IH, lookup_delete_Some, not_elem_of_cons. naive_solver.
Qed.

Lemma book_filed_sublist l l' : sublist l' l -> book_filed l -> book_filed l'.
Proof.
  intros Hs (Hsort & Hp). split; [by eapply StronglySorted_sublist|].
  intros p Hin. apply Hp. by eapply elem_of_sublist.
Qed.

(** Removing orders keeps whatever holds of every part of a book. *)
Section removal.
Context (B : list PendingUserAction -> Prop) (HB : forall l l', sublist l' l -> B l -> B l').

Lemma new_block_with ua users orders : accounts_with B ua -> accounts_with B (new_block ua users orders).
Proof.
  intros [Hb _]. split; [|apply map_Forall_empty].
  intros user l' Hl. cbn in Hl. rewrite lookup_omap in Hl.
  apply bind_Some in Hl as (l & Hl & ->%retain_nonempty_Some).
  apply (foldl_delete_lookup _ _ _ _ _ eq_refl) in Hl as [Hl _].
  eapply HB; [apply List_filter_sublist|by apply (Hb user)].
Qed.

Lemma try_cancel_book_with ua user hash : accounts_with B ua ->
  accounts_with B (fst (try_cancel_book_order ua user hash)).
Proof.
  intros [Hb Ht]. unfold try_cancel_book_order.
  destruct (pending_book_actions ua !! user) as [l|] eqn:El; [|done]. split; [|done].
  cbn. apply map_Forall_insert_2; [|done].
  eapply HB; [apply List_filter_sublist|by apply (Hb user)].
Qed.

Lemma try_cancel_tob_with ua user hash : accounts_with B ua ->
  accounts_with B (fst (try_cancel_tob_order ua user hash)).
Proof.
  intros [Hb Ht]. unfold try_cancel_tob_order.
  destruct (pending_tob_actions ua !! user) as [m|] eqn:Em; [|done]. split; [done|].
  cbn. apply map_Forall_insert_2; [|done]. intros token l' Hl. rewrite lookup_omap in Hl.
  apply bind_Some in Hl as (l & Hl & ->%retain_nonempty_Some).
  eapply tob_ok_sublist; [apply List_filter_sublist|by apply (Ht _ _ Em)].
Qed.
End removal.

Lemma new_block_ok ua users orders : accounts_ok ua -> accounts_ok (new_block ua users orders).
Proof. apply new_block_with, book_ok_sublist. Qed.

Lemma cancel_order_ok ua user hash : accounts_ok ua -> accounts_ok (fst (cancel_order ua user hash)).
Proof.
  intros Hok. unfold cancel_order. pose proof (try_cancel_book_with _ book_ok_sublist ua user hash Hok) as H.
  destruct (try_cancel_book_order ua user hash) as [ua1 []]; [done|].
  by apply try_cancel_tob_with.
Qed.

Lemma load_state_for_pending `{StateFetchUtils} ua user token :
  let ua' := fst (load_state_for ua user token) in
  pending_book_actions ua' = pending_book_actions ua /\
  pending_tob_actions ua' = pending_tob_actions ua.
Proof. unfold load_state_for. repeat case_match; done. Qed.

Lemma get_live_state_pending `{StateFetchUtils} ua user token priority pool :
  let ua' := fst (get_live_state_for_order ua user token priority pool) in
  pending_book_actions ua' = pending_book_actions ua /\
  pending_tob_actions ua' = pending_tob_actions ua.
Proof.
  unfold get_live_state_for_order. destruct (try_fetch_live_pending_state _ _ _ _ _); [done|].
  pose proof (load_state_for_pending ua user token) as Hl.
  destruct (load_state_for ua user token) as [ua1 []]; done.
Qed.

Lemma same_pending_ok ua ua' : pending_book_actions ua' = pending_book_actions ua ->
  pending_tob_actions ua' = pending_tob_actions ua -> accounts_ok ua -> accounts_ok ua'.
Proof. unfold accounts_ok, accounts_with. by intros -> ->. Qed.

(** The book of a user. *)
Definition book_of ua user : list PendingUserAction := default [] (pending_book_actions ua !! user).

Lemma book_of_ok ua user : accounts_ok ua -> book_ok (book_of ua user).
Proof.
  intros [Hb _]. unfold book_of. destruct (_ !! user) eqn:E; [by apply (Hb user)|].
  split; [constructor|]. split; [constructor|]. intros p Hp. by apply not_elem_of_nil in Hp.
Qed.

Lemma cancel_tob_book ua user hash :
  pending_book_actions (fst (try_cancel_tob_order ua user hash)) = pending_book_actions ua.
Proof. unfold try_cancel_tob_order. by case_match. Qed.

Lemma cancel_order_book ua user hash :
  book_of (fst (cancel_order ua user hash)) user =
    List.filter (fun o => negb (pending_hash o =? hash)) (book_of ua user).
Proof.
  unfold cancel_order, try_cancel_book_order, book_of.
  destruct (pending_book_actions ua !! user) as [l|] eqn:El.
  - destruct (existsb _ l); cbn; [|rewrite cancel_tob_book]; cbn; by rewrite lookup_insert_eq.
  - by rewrite cancel_tob_book, El.
Qed.

Lemma cancel_order_known ua user hash :
  last_known_state (fst (cancel_order ua user hash)) = last_known_state ua.
Proof.
  unfold cancel_order, try_cancel_book_order, try_cancel_tob_order. repeat case_match; naive_solver.
Qed.

(** Cancelling one order after the other. *)
Definition cancel_all ua user l : UserAccounts :=
  foldl (fun ua p => fst (cancel_order ua user (pending_hash p))) ua l.

Lemma cancel_all_ok ua user l : accounts_ok ua -> accounts_ok (cancel_all ua user l).
Proof.
  unfold cancel_all. revert ua. induction l as [|p l IH]; intros ua Hok; cbn; [done|].
  apply IH. by apply cancel_order_ok.
Qed.

Lemma elem_of_cancel_all ua user l p : p ∈ book_of (cancel_all ua user l) user <->
  p ∈ book_of ua user /\ forall c, c ∈ l -> pending_hash p <> pending_hash c.
Proof.
  unfold cancel_all. revert ua. induction l as [|x l IH]; intros ua; cbn [foldl].
  - split; [|by intros []]. intros Hp. split; [done|]. intros c Hc. by apply not_elem_of_nil in Hc.
  - rewrite IH, cancel_order_book, elem_of_List_filter, negb_true_iff, Z.eqb_neq.
    split; [|set_solver]. intros [[Hp Hx] Hl]. split; [done|]. by intros c [->|Hc]%elem_of_cons; auto.
Qed.

(** ** Admission *)

Lemma insert_pending_Ret `{SortLib} ua tob user action ua' bad :
  insert_pending_user_action ua tob user action = Ret (ua', bad) ->
  last_known_state ua' = last_known_state ua /\
  fetch_all_invalidated_orders ua' user (token_address action) = Ret bad /\
  (tob = true -> pending_book_actions ua' = pending_book_actions ua) /\
  (tob = false -> pending_tob_actions ua' = pending_tob_actions ua /\
    pending_book_actions ua' = <[user := sort_unstable_by priority_order
      (book_of ua user ++ [action])]> (pending_book_actions ua)).
Proof.
  unfold insert_pending_user_action, push_pending_action.
  intros (bad' & Hbad & Hr)%bind_Ret. injection Hr as <- <-. destruct tob; cbn; naive_solver.
Qed.

Lemma book_of_filed ua user : accounts_filed ua -> book_filed (book_of ua user).
Proof.
  intros [Hb _]. unfold book_of. destruct (_ !! user) eqn:E; [by apply (Hb user)|].
  split; [constructor|]. intros p Hp. by apply not_elem_of_nil in Hp.
Qed.

Lemma push_pending_filed `{SortLib} ua user action :
  accounts_filed ua -> action_ok action ->
  accounts_filed (push_pending_action ua (pending_is_tob action) user action).
Proof.
  intros Hok Hact. unfold push_pending_action. destruct (pending_is_tob action) eqn:Htob.
  - split; [apply Hok|]. apply map_Forall_insert_2; [|apply Hok].
    apply map_Forall_insert_2.
    + split; [apply sort_sorted, priority_order_total|]. intros p Hp.
      rewrite sort_perm in Hp by apply priority_order_total.
      apply elem_of_app in Hp as [Hp| ->%list_elem_of_singleton]; [|done].
      destruct (pending_tob_actions ua !! user) as [m|] eqn:Em; cbn in Hp; [|by apply not_elem_of_nil in Hp].
      destruct (m !! _) as [l|] eqn:El; cbn in Hp; [|by apply not_elem_of_nil in Hp].
      by apply (proj2 Hok _ _ Em _ _ El).
    + destruct (pending_tob_actions ua !! user) as [m|] eqn:Em; cbn; [|apply map_Forall_empty].
      by apply (proj2 Hok _ _ Em).
  - split; [|apply Hok]. cbn. apply map_Forall_insert_2; [|apply Hok]. fold (book_of ua user).
    destruct (book_of_filed ua user Hok) as [_ Hin].
    split; [apply sort_sorted, priority_order_total|].
    intros p Hp. rewrite sort_perm in Hp by apply priority_order_total.
    apply elem_of_app in Hp as [Hp| ->%list_elem_of_singleton]; [by apply Hin|done].
Qed.

Lemma push_pending_nonces `{SortLib} ua tob user action :
  nonces_once ua ->
  (forall n p, tob = false -> vp_respend (order_priority action) = Nonce n ->
    p ∈ book_of ua user -> vp_respend (order_priority p) <> Nonce n) ->
  nonces_once (push_pending_action ua tob user action).
Proof.
  intros Hn Hfresh. destruct tob; [done|]. unfold nonces_once. cbn.
  apply map_Forall_insert_2; [|done]. fold (book_of ua user).
  assert (NoDup (nonces (book_of ua user))) as Hnd.
  { unfold book_of. destruct (_ !! user) eqn:E; [by apply (Hn user)|constructor]. }
  unfold nonces. rewrite sort_perm by apply priority_order_total.
  rewrite omap_app. apply NoDup_app. split; [done|]. cbn.
  destruct (vp_respend (order_priority action)) as [n|] eqn:En; [|by split; [set_solver|constructor]].
  split; [|apply NoDup_singleton]. intros m Hm ->%list_elem_of_singleton.
  apply list_elem_of_omap in Hm as (q & Hq & Heq). apply (Hfresh n q); [done..|].
  destruct (vp_respend (order_priority q)); naive_solver.
Qed.

Lemma insert_pending_ok `{SortLib} ua tob user action ua' bad :
  accounts_ok ua -> action_ok action -> pending_is_tob action = tob ->
  (forall n p, tob = false -> vp_respend (order_priority action) = Nonce n ->
    p ∈ book_of ua user -> vp_respend (order_priority p) <> Nonce n) ->
  insert_pending_user_action ua tob user action = Ret (ua', bad) -> accounts_ok ua'.
Proof.
  intros [Hf Hn]%accounts_ok_split Hact <- Hfresh. unfold insert_pending_user_action.
  intros (bad' & _ & H0)%bind_Ret. injection H0 as <- _. apply accounts_ok_split.
  split; [by apply push_pending_filed|by apply push_pending_nonces].
Qed.

Section orders.
Context `{AL : ArithLib} `{SL : SortLib} `{SF : StateFetchUtils} {T : Type} `{RP : RawPoolOrder T}.
Implicit Types (o : T) (info : UserOrderPoolInfo).

(** An order whose fields fit their machine types. *)
Definition order_range o : Prop :=
  0 <= amount o <= u128_max /\ 0 <= max_gas_token_0 o <= u128_max /\
  (forall lp, limit_price o = Ret lp -> 0 <= lp).

Lemma inverse_quantity_range lp q up a : 0 <= lp -> 0 <= q ->
  inverse_quantity lp q up = Ret a -> 0 <= a <= u128_max.
Proof.
  intros Hlp Hq. destruct (decide (lp = 0)) as [->|Hne].
  - unfold inverse_quantity. by rewrite div_round_zero.
  - rewrite inverse_quantity_eval by lia. intros [= <-].
    assert (0 <= div_to (q * const_1e27) lp (rounding up)).
    { apply div_to_nonneg; [|lia]. pose proof const_1e27_pos. nia. }
    unfold u128_max in *. lia.
Qed.

Lemma fetch_amount_in_range o a : order_range o -> fetch_amount_in o = Ret a -> 0 <= a <= u128_max.
Proof.
  intros (Ham & Hgas & Hlp). unfold fetch_amount_in.
  destruct (is_tob o && _); [intros [= <-]; apply u128_wrap_range|].
  intros (lp & El & H)%bind_Ret. specialize (Hlp lp El).
  destruct (raw_is_bid o), (exact_in o); [naive_solver| |naive_solver|].
  - apply inverse_quantity_range in H; [done|done|]. apply u128_wrap_range.
  - apply bind_Ret in H as (q & _ & H). injection H as <-. apply u128_wrap_range.
Qed.

(** An order is supported exactly when the live funds hold its amount. *)
Definition funded_by (ls : LiveState) o (a : U256) : Prop :=
  if use_internal o then a <= live_angstrom ls
  else a <= live_approval ls /\ a <= live_balance ls.

(** The action that reserves [a] for the order. *)
Definition reservation o info (bid : u128) (a : U256) : PendingUserAction :=
  if use_internal o then pending_action o info (Some bid) a a 0
  else pending_action o info (Some bid) a 0 a.

Lemma can_support_order_Ok ls o info bid a action : fetch_amount_in o = Ret a ->
  can_support_order ls o info (Some bid) = Ret (Ok action) ->
  action = reservation o info bid a /\ funded_by ls o a.
Proof.
  intros Ha. unfold can_support_order, funded_by, reservation.
  intros (? & _ & H)%bind_Ret. rewrite Ha in H. cbn in H. destruct (use_internal o).
  - destruct (Z.ltb_spec (live_angstrom ls) a).
    + by apply bind_Ret in H as (? & _ & ?).
    + by injection H as <-.
  - destruct (Z.ltb_spec (live_approval ls) a), (Z.ltb_spec (live_balance ls) a).
    + apply bind_Ret in H as (? & _ & H). by apply bind_Ret in H as (? & _ & ?).
    + by apply bind_Ret in H as (? & _ & ?).
    + by apply bind_Ret in H as (? & _ & ?).
    + by injection H as <-.
Qed.

Lemma can_support_order_Ret ls o info bid a : fetch_amount_in o = Ret a -> order_range o ->
  token_in o = live_token ls ->
  0 <= live_approval ls -> 0 <= live_balance ls -> 0 <= live_angstrom ls ->
  exists r, can_support_order ls o info bid = Ret r.
Proof.
  intros Ha Hr Htok H1 H2 H3. pose proof (fetch_amount_in_range o a Hr Ha) as Hrange.
  unfold can_support_order. rewrite Htok, Z.eqb_refl, Ha. cbn.
  repeat match goal with |- context [if ?x <? ?y then _ else _] => destruct (Z.ltb_spec x y)
    | |- context [if use_internal ?x then _ else _] => destruct (use_internal x) end;
    rewrite ?uint_to_u128_fits by lia; cbn; rewrite ?uint_to_u128_fits by lia; cbn; eauto.
Qed.

Lemma reservation_ok o info bid a : 0 <= a <= u128_max -> action_ok (reservation o info bid a).
Proof.
  intros Ha. unfold action_ok, reservation. destruct (use_internal o); cbn; unfold u128_max in *; lia.
Qed.

Lemma reservation_priority o info bid a :
  order_priority (reservation o info bid a) = validation_priority o (Some bid).
Proof. unfold reservation. by destruct (use_internal o). Qed.

Lemma reservation_token o info bid a : token_address (reservation o info bid a) = upi_token info.
Proof. unfold reservation. by destruct (use_internal o). Qed.

Lemma reserve_order_inv ua o info block conf ls r0 r1 ua' r :
  reserve_order ua o info block conf ls r0 r1 = Ret (ua', r) ->
  (exists a action bad st, fetch_amount_in o = Ret a /\ action = reservation o info r1 a /\
    funded_by ls o a /\
    insert_pending_user_action ua (is_tob o) (from o) action = Ret (ua', bad) /\
    r = Ok st /\ order st = o /\ is_currently_valid st = None /\
    invalidates st = bad ++ (pending_hash <$> conf)) \/
  (ua' = ua /\ exists e, r = Err e /\ is_tob o = true) \/
  (ua' = ua /\ exists st e, r = Ok st /\ is_currently_valid st = Some e /\ is_tob o = false).
Proof.
  unfold reserve_order. intros (sup & Hs & H)%bind_Ret.
  assert (exists a, fetch_amount_in o = Ret a) as [a Ha].
  { unfold can_support_order in Hs. apply bind_Ret in Hs as (? & _ & Hs).
    apply bind_Ret in Hs as (a & Ha & _). eauto. }
  destruct sup as [action|e].
  - left. destruct (can_support_order_Ok _ _ _ _ _ _ Ha Hs) as [-> Hf].
    apply bind_Ret in H as ([ua1 bad] & Hi & H). apply bind_Ret in H as (st & Hst & H).
    injection H as <- <-. apply bind_Ret in Hst as (lp & _ & Hst). injection Hst as <-.
    exists a, (reservation o info r1 a), bad. eauto 10.
  - right. destruct (is_tob o); [left; naive_solver|right].
    apply bind_Ret in H as (st & Hst & H). injection H as <- <-.
    apply bind_Ret in Hst as (lp & _ & Hst). injection Hst as <-. eauto 10.
Qed.

(** The accounts that an order is judged on. *)
Definition cleared ua o (is_revalidating : bool) : UserAccounts :=
  if is_revalidating then fst (cancel_order ua (from o) (order_hash o)) else ua.
Definition conflicts ua o is_revalidating : list PendingUserAction :=
  respend_conflicts (cleared ua o is_revalidating) (from o) (respend_avoidance_strategy o).
Definition judged_on ua o is_revalidating : UserAccounts :=
  cancel_all (cleared ua o is_revalidating) (from o) (conflicts ua o is_revalidating).

Lemma verify_order_inv ua o info block reval rewards ua' r :
  verify_order ua o info block reval rewards = Ret (ua', r) ->
  (exists e, r = Err e /\ (ua' = cleared ua o reval \/ ua' = judged_on ua o reval \/
    exists prio pool, ua' = fst (get_live_state_for_order (judged_on ua o reval) (from o)
      (upi_token info) prio pool))) \/
  exists r0 r1 ua2 ls,
    rewards o info = Ret (Ok (r0, r1)) /\
    get_live_state_for_order (judged_on ua o reval) (from o) (upi_token info)
      (validation_priority o (Some r1)) (upi_pool_id info) = (ua2, Ok ls) /\
    reserve_order ua2 o info block (conflicts ua o reval) ls r0 r1 = Ret (ua', r).
Proof.
  unfold verify_order. fold (cleared ua o reval).
  destruct (check_respend o block); [|naive_solver]. destruct (has_hook o); [naive_solver|].
  fold (conflicts ua o reval). destruct (existsb _ _); [naive_solver|].
  fold (cancel_all (cleared ua o reval) (from o) (conflicts ua o reval)).
  fold (judged_on ua o reval).
  intros (rew & Hrew & H)%bind_Ret. destruct rew as [[r0 r1]|]; [|naive_solver].
  destruct (get_live_state_for_order _ _ _ _ _) as [ua2 [ls|e]] eqn:E.
  - right. eauto 10.
  - left. injection H as <- <-. exists (CouldNotFetch e). split; [done|]. right. right.
    eexists _, _. by rewrite E.
Qed.

Lemma cleared_ok ua o reval : accounts_ok ua -> accounts_ok (cleared ua o reval).
Proof. intros Hok. destruct reval; [by apply cancel_order_ok|done]. Qed.

Lemma judged_on_ok ua o reval : accounts_ok ua -> accounts_ok (judged_on ua o reval).
Proof. intros Hok. by apply cancel_all_ok, cleared_ok. Qed.

(** No order with the nonce of [o] is left. *)
Lemma judged_on_fresh ua o reval n p : respend_avoidance_strategy o = Nonce n ->
  p ∈ book_of (judged_on ua o reval) (from o) -> vp_respend (order_priority p) <> Nonce n.
Proof.
  intros Hn Hp Hpn. apply elem_of_cancel_all in Hp as [Hp Hc]. apply (Hc p); [|done].
  unfold conflicts, respend_conflicts. rewrite Hn. unfold book_of in Hp.
  destruct (pending_book_actions _ !! _) as [l|]; cbn in *; [|done].
  apply elem_of_List_filter. split; [done|]. rewrite Hpn. cbn. apply Z.eqb_refl.
Qed.

Lemma get_live_state_ok ua user token prio pool : accounts_ok ua ->
  accounts_ok (fst (get_live_state_for_order ua user token prio pool)).
Proof. intros Hok. by eapply same_pending_ok; [apply get_live_state_pending..|]. Qed.

Lemma verify_order_keeps_ok ua o info block reval rewards ua' r :
  accounts_ok ua -> order_range o ->
  verify_order ua o info block reval rewards = Ret (ua', r) -> accounts_ok ua'.
Proof.
  intros Hok Hr [(e & _ & [->|[->|(prio & pool & ->)]])|(r0 & r1 & ua2 & ls & _ & Hl & Hres)]%verify_order_inv.
  - by apply cleared_ok.
  - by apply judged_on_ok.
  - by apply get_live_state_ok, judged_on_ok.
  - assert (ua2 = fst (get_live_state_for_order (judged_on ua o reval) (from o) (upi_token info)
      (validation_priority o (Some r1)) (upi_pool_id info))) as Eua2 by by rewrite Hl.
    assert (accounts_ok ua2) as Hok2 by (rewrite Eua2; by apply get_live_state_ok, judged_on_ok).
    apply reserve_order_inv in Hres as [(a & action & bad & st & Ha & -> & _ & Hi & _)|[[-> _]|[-> _]]]; [|done..].
    eapply insert_pending_ok; [done| | | |done].
    + apply reservation_ok. by apply (fetch_amount_in_range o).
    + unfold pending_is_tob. by rewrite reservation_priority.
    + intros n p _. rewrite reservation_priority. intros Hn Hp.
      apply (judged_on_fresh ua o reval); [done|]. revert Hp. unfold book_of.
      by rewrite Eua2, (proj1 (get_live_state_pending _ _ _ _ _)).
Qed.

(** *** The known funds are words *)

Definition baseline_ok (base : BaselineState) : Prop :=
  map_Forall (fun _ v => u256_ok v) (base_approval base) /\
  map_Forall (fun _ v => u256_ok v) (base_balance base) /\
  map_Forall (fun _ v => u256_ok v) (base_angstrom base).

Definition funds_ok ua : Prop := map_Forall (fun _ base => baseline_ok base) (last_known_state ua).

Lemma known_words ua user token a b c : funds_ok ua -> known ua user token a b c ->
  u256_ok a /\ u256_ok b /\ u256_ok c.
Proof.
  intros Hf (base & Hbase & Ha & Hb & Hc). destruct (Hf _ _ Hbase) as (H1 & H2 & H3).
  split; [by apply (H1 token)|]. split; [by apply (H2 token)|by apply (H3 token)].
Qed.

Lemma load_state_for_funds ua user token : funds_ok ua -> funds_ok (fst (load_state_for ua user token)).
Proof.
  intros Hf. unfold load_state_for.
  destruct (fetch_approval_balance_for_token user token) as [[a|]|] eqn:Ea; [|done..].
  destruct (fetch_balance_for_token user token) as [b|] eqn:Eb; [|done].
  destruct (fetch_token_balance_in_angstrom user token) as [c|] eqn:Ec; [|done].
  cbn. apply map_Forall_insert_2; [|done].
  assert (baseline_ok (default {| base_approval := ∅; base_balance := ∅; base_angstrom := ∅ |}
    (last_known_state ua !! user))) as (H1 & H2 & H3).
  { destruct (last_known_state ua !! user) eqn:E; [by apply (Hf user)|].
    split; [apply map_Forall_empty|split; apply map_Forall_empty]. }
  split; [|split]; cbn; apply map_Forall_insert_2; try done.
  - by apply (fetch_approval_word user token).
  - by apply (fetch_balance_word user token).
  - by apply (fetch_angstrom_word user token).
Qed.

Lemma get_live_state_funds ua user token prio pool : funds_ok ua ->
  funds_ok (fst (get_live_state_for_order ua user token prio pool)).
Proof.
  intros Hf. unfold get_live_state_for_order. destruct (try_fetch_live_pending_state _ _ _ _ _); [done|].
  pose proof (load_state_for_funds ua user token Hf) as H.
  destruct (load_state_for ua user token) as [ua1 []]; done.
Qed.

Lemma cancel_all_known ua user l : last_known_state (cancel_all ua user l) = last_known_state ua.
Proof.
  unfold cancel_all. revert ua. induction l as [|p l IH]; intros ua; cbn; [done|].
  by rewrite IH, cancel_order_known.
Qed.

Lemma cleared_known ua o reval : last_known_state (cleared ua o reval) = last_known_state ua.
Proof. destruct reval; [apply cancel_order_known|done]. Qed.

Lemma judged_on_known ua o reval : last_known_state (judged_on ua o reval) = last_known_state ua.
Proof. unfold judged_on. by rewrite cancel_all_known, cleared_known. Qed.

Lemma verify_order_keeps_funds ua o info block reval rewards ua' r : funds_ok ua ->
  verify_order ua o info block reval rewards = Ret (ua', r) -> funds_ok ua'.
Proof.
  intros Hf. assert (funds_ok (judged_on ua o reval)) as Hj by (unfold funds_ok; by rewrite judged_on_known).
  intros [(e & _ & [->|[->|(prio & pool & ->)]])|(r0 & r1 & ua2 & ls & _ & Hl & Hres)]%verify_order_inv.
  - unfold funds_ok. by rewrite cleared_known.
  - done.
  - by apply get_live_state_funds.
  - assert (funds_ok ua2) as Hf2 by (apply (get_live_state_funds _ (from o) (upi_token info)
      (validation_priority o (Some r1)) (upi_pool_id info)) in Hj; by rewrite Hl in Hj).
    apply reserve_order_inv in Hres as [(a & action & bad & st & _ & _ & _ & Hi & _)|[[-> _]|[-> _]]]; [|done..].
    apply insert_pending_Ret in Hi as [Hlk _]. unfold funds_ok. by rewrite Hlk.
Qed.

(** *** Every reachable state *)

(** The accounts that blocks, cancellations and verified orders lead to. *)
Inductive accounts_reach : UserAccounts -> Prop :=
| reach_new : accounts_reach new_accounts
| reach_block ua users orders : accounts_reach ua -> accounts_reach (new_block ua users orders)
| reach_cancel ua user hash : accounts_reach ua -> accounts_reach (fst (cancel_order ua user hash))
| reach_verify ua o info block reval rewards ua' r : accounts_reach ua -> order_range o ->
    verify_order ua o info block reval rewards = Ret (ua', r) -> accounts_reach ua'.

(** In every state that blocks, cancellations and orders verified one at a
    time lead to, the reservations of a user are sorted by priority, the book
    of a user holds no top-of-block order and uses every nonce at most once,
    every reservation is filed under its token and is a 128-bit amount, and
    the known funds are words. *)
Theorem reachable_accounts_ok ua (Hreach : accounts_reach ua) : accounts_ok ua /\ funds_ok ua.
Proof.
  induction Hreach as [|ua users orders _ [IH1 IH2]|ua user hash _ [IH1 IH2]|
    ua o info block reval rewards ua' r _ [IH1 IH2] Hr Hv].
  - split; [split|]; apply map_Forall_empty.
  - split; [by apply new_block_ok|apply map_Forall_empty].
  - split; [by apply cancel_order_ok|]. unfold funds_ok. by rewrite cancel_order_known.
  - split; [by eapply verify_order_keeps_ok|by eapply verify_order_keeps_funds].
Qed.

(** *** Accepted orders *)

Lemma get_live_state_Ok ua user token prio pool ua' ls :
  get_live_state_for_order ua user token prio pool = (ua', Ok ls) ->
  try_fetch_live_pending_state ua' user token pool prio = Some ls.
Proof.
  unfold get_live_state_for_order. destruct (try_fetch_live_pending_state ua _ _ _ _) eqn:E.
  - by intros [= <- <-].
  - destruct (load_state_for ua user token) as [ua1 []]; [|done].
    destruct (try_fetch_live_pending_state ua1 _ _ _ _) eqn:E1; [|done]. by intros [= <- <-].
Qed.

(** An accepted order whose funds are there: the state [ua2] it was judged on,
    what was left for it, and the reservation it made. *)
Lemma accepted_inv ua o info block reval rewards ua' st :
  accounts_ok ua -> funds_ok ua -> order_range o ->
  verify_order ua o info block reval rewards = Ret (ua', Ok st) -> is_currently_valid st = None ->
  exists ua2 ls bid a bad, accounts_ok ua2 /\ funds_ok ua2 /\
    try_fetch_live_pending_state ua2 (from o) (upi_token info) (upi_pool_id info)
      (validation_priority o (Some bid)) = Some ls /\
    fetch_amount_in o = Ret a /\ funded_by ls o a /\
    insert_pending_user_action ua2 (is_tob o) (from o) (reservation o info bid a) = Ret (ua', bad) /\
    invalidates st = bad ++ (pending_hash <$> conflicts ua o reval).
Proof.
  intros Hok Hf Hr [(e & [=] & _)|(r0 & r1 & ua2 & ls & _ & Hl & Hres)]%verify_order_inv Hv.
  pose proof (get_live_state_ok (judged_on ua o reval) (from o) (upi_token info)
    (validation_priority o (Some r1)) (upi_pool_id info)) as Hok2.
  pose proof (get_live_state_funds (judged_on ua o reval) (from o) (upi_token info)
    (validation_priority o (Some r1)) (upi_pool_id info)) as Hf2.
  rewrite Hl in Hok2, Hf2. cbn in Hok2, Hf2.
  apply reserve_order_inv in Hres as
    [(a & action & bad & st' & Ha & -> & Hfund & Hi & [= <-] & _ & _ & Hinv)|
     [(_ & ? & [=] & _)|(_ & ? & ? & [= <-] & Hv' & _)]]; [|congruence].
  exists ua2, ls, r1, a, bad. split; [by apply Hok2, judged_on_ok|]. split.
  { apply Hf2. unfold funds_ok. by rewrite judged_on_known. }
  split; [by apply get_live_state_Ok in Hl|]. done.
Qed.

Lemma insert_known ua tob user action ua' bad token a b c :
  insert_pending_user_action ua tob user action = Ret (ua', bad) ->
  known ua user token a b c -> known ua' user token a b c.
Proof. intros [Hlk _]%insert_pending_Ret. unfold known. by rewrite Hlk. Qed.

Lemma accepted_known_words ua o info block reval rewards ua' st :
  accounts_ok ua -> funds_ok ua -> order_range o ->
  verify_order ua o info block reval rewards = Ret (ua', Ok st) -> is_currently_valid st = None ->
  exists a b c, known ua' (from o) (upi_token info) a b c /\ u256_ok a /\ u256_ok b /\ u256_ok c.
Proof.
  intros Hok Hf Hr Hv Hcv.
  destruct (accepted_inv _ _ _ _ _ _ _ _ Hok Hf Hr Hv Hcv)
    as (ua2 & ls & bid & am & bad & _ & Hf2 & Hl & _ & _ & Hi & _).
  apply live_state_known in Hl as (a & b & c & Hk). exists a, b, c.
  split; [by eapply insert_known|]. by eapply known_words.
Qed.


Lemma unique_tob_app seen l1 l2 : (forall p, p ∈ l2 -> pending_is_tob p = false) ->
  unique_tob seen (l1 ++ l2) = unique_tob seen l1 ++ l2.
Proof.
  intros H2. revert seen. induction l1 as [|x l1 IH]; intros seen; cbn.
  - induction l2 as [|y l2 IH2]; cbn; [done|]. rewrite (H2 y) by left. cbn. f_equal.
    apply IH2. intros p Hp. apply H2. by right.
  - destruct (negb _); [by rewrite IH|]. case_decide; by rewrite IH.
Qed.

(** The reservations of a user and token in two parts. *)
Definition tob_part ua user token : list PendingUserAction :=
  unique_tob ∅ (default [] (pending_tob_actions ua !! user ≫= fun a => a !! token)).
Definition book_part ua user token : list PendingUserAction :=
  List.filter (fun action => token_address action =? token) (book_of ua user).

Lemma iter_unique_parts ua user token : accounts_ok ua ->
  iter_of_tob_and_book_unique_tob ua user token = tob_part ua user token ++ book_part ua user token.
Proof.
  intros Hok. unfold iter_of_tob_and_book_unique_tob, iter_of_tob_and_book, tob_part, book_part.
  assert (default [] (List.filter (fun action => token_address action =? token) <$>
    pending_book_actions ua !! user) =
    List.filter (fun action => token_address action =? token) (book_of ua user)) as ->.
  { unfold book_of. by destruct (_ !! user). }
  apply unique_tob_app. intros p [Hp _]%elem_of_List_filter.
  destruct (book_of_ok ua user Hok) as (_ & _ & H). by apply H.
Qed.

(** A user order joins the book and leaves the top-of-block orders alone. *)
Lemma insert_book_parts ua user action ua' bad :
  insert_pending_user_action ua false user action = Ret (ua', bad) ->
  tob_part ua' user (token_address action) = tob_part ua user (token_address action) /\
  book_part ua' user (token_address action) ≡ₚ book_part ua user (token_address action) ++ [action].
Proof.
  intros (_ & _ & _ & H)%insert_pending_Ret. destruct (H eq_refl) as [Ht Hb].
  unfold tob_part, book_part, book_of at 1. rewrite Ht, Hb, lookup_insert_eq. cbn. split; [done|].
  rewrite (List_filter_perm _ _ _ (sort_perm priority_order _ priority_order_total)).
  rewrite List.filter_app. cbn. by rewrite Z.eqb_refl.
Qed.

Lemma counts_against_book pool prio p : vp_is_tob prio = false -> counts_against pool prio p = true.
Proof. intros H. unfold counts_against. rewrite H. by rewrite andb_false_r. Qed.

Lemma filter_all_true {A} (f : A -> bool) xs : (forall x, f x = true) -> List.filter f xs = xs.
Proof. intros Hf. induction xs as [|x xs IH]; cbn; [done|]. by rewrite Hf, IH. Qed.

(** Making the reservation does not change what is ahead of it. *)
Lemma insert_book_ahead ua user action ua' bad pool :
  accounts_ok ua -> accounts_ok ua' -> pending_is_tob action = false ->
  insert_pending_user_action ua false user action = Ret (ua', bad) ->
  ahead ua' user (token_address action) pool (order_priority action) ≡ₚ
  ahead ua user (token_address action) pool (order_priority action).
Proof.
  intros Hok Hok' Htob Hi. destruct (insert_book_parts _ _ _ _ _ Hi) as [Ht Hb].
  unfold ahead. rewrite !(filter_all_true (counts_against _ _)) by
    (intros; by apply counts_against_book). 
  rewrite !iter_unique_parts, !List.filter_app, Ht by done.
  rewrite (List_filter_perm _ _ _ Hb), List.filter_app. cbn. rewrite outranks_self.
  by rewrite app_nil_r.
Qed.

Lemma accepted_in_book ua o info bid a ua' bad : is_tob o = false ->
  insert_pending_user_action ua (is_tob o) (from o) (reservation o info bid a) = Ret (ua', bad) ->
  reservation o info bid a ∈ book_part ua' (from o) (upi_token info).
Proof.
  intros -> Hi. destruct (insert_book_parts _ _ _ _ _ Hi) as [_ Hb].
  rewrite reservation_token in Hb. rewrite Hb. set_solver.
Qed.

Lemma insert_book_few ua user action ua' bad :
  insert_pending_user_action ua false user action = Ret (ua', bad) ->
  few_orders ua' user (token_address action) -> few_orders ua user (token_address action).
Proof.
  intros Hi. destruct (insert_book_parts _ _ _ _ _ Hi) as [_ Hb].
  apply insert_pending_Ret in Hi as (_ & _ & _ & H). destruct (H eq_refl) as [Ht _].
  unfold few_orders, iter_of_tob_and_book. rewrite Ht, !length_app.
  assert (forall ua0, default [] (List.filter (fun x => token_address x =? token_address action) <$>
    pending_book_actions ua0 !! user) = book_part ua0 user (token_address action)) as E.
  { intros ua0. unfold book_part, book_of. by destruct (_ !! user). }
  rewrite !E, Hb, length_app. cbn. lia.
Qed.


(** An order that pays out of its balance inside Angstrom also uses up
    approval: accepted while the approval is below its amount, it reports itself
    among the orders that it invalidates. *)
Theorem internal_order_invalidates_itself ua o info (block : u64) reval rewards ua' st amount_in
    approval balance angstrom
    (Hok : accounts_ok ua) (Hf : funds_ok ua) (Hr : order_range o) (Htob : is_tob o = false)
    (Hint : use_internal o = true)
    (Hv : verify_order ua o info block reval rewards = Ret (ua', Ok st))
    (Hcv : is_currently_valid st = None) (Ha : fetch_amount_in o = Ret amount_in)
    (Hk : known ua' (from o) (upi_token info) approval balance angstrom)
    (Hlow : approval < amount_in) :
  order_hash o ∈ invalidates st.
Proof.
  destruct (accepted_inv _ _ _ _ _ _ _ _ Hok Hf Hr Hv Hcv)
    as (ua2 & ls & bid & am & bad & _ & Hf2 & _ & Ha' & _ & Hi & ->).
  assert (accounts_ok ua') as Hok' by exact (verify_order_keeps_ok _ _ _ _ _ _ _ _ Hok Hr Hv).
  assert (funds_ok ua') as Hf' by exact (verify_order_keeps_funds _ _ _ _ _ _ _ _ Hf Hv).
  rewrite Ha' in Ha. injection Ha as ->. apply elem_of_app. left.
  destruct (known_words _ _ _ _ _ _ Hf' Hk) as (Hwa & Hwb & Hwc).
  destruct (invalidated_prefix ua' (from o) (upi_token info) _ _ _ (accounts_ok_filed _ Hok') Hk Hwa Hwb Hwc)
    as (n & Hbad & Hcov & _).
  pose proof (accepted_in_book _ _ _ _ _ _ _ Htob Hi) as Hin.
  apply insert_pending_Ret in Hi as (_ & Hi & _). rewrite reservation_token, Hbad in Hi.
  injection Hi as <-.
  apply list_elem_of_fmap. exists (reservation o info bid amount_in).
  split; [unfold pending_hash; by rewrite reservation_priority|].
  assert (reservation o info bid amount_in ∈ take n (iter_of_tob_and_book_unique_tob ua' (from o)
    (upi_token info)) ++ drop n (iter_of_tob_and_book_unique_tob ua' (from o) (upi_token info)))
    as [Hp|Hp]%elem_of_app; [|exfalso|done].
  { rewrite take_drop, iter_unique_parts by done. set_solver. }
  destruct Hcov as (Htot & _).
  pose proof (total_elem token_approval _ _ (fun q Hq => proj1 (proj1 (unique_action_ok ua' (from o)
    (upi_token info) q (accounts_ok_filed _ Hok') (elem_of_sublist _ _ _ Hq (sublist_take _ _))))) Hp) as Hle.
  unfold reservation in Hle at 1. rewrite Hint in Hle. cbn in Hle. lia.
Qed.

(** *** Verification returns *)

Lemma fetch_all_known ua user token a b c : known ua user token a b c ->
  exists bad, fetch_all_invalidated_orders ua user token = Ret bad.
Proof.
  intros (base & Hbase & Ha & Hb & Hc). unfold fetch_all_invalidated_orders.
  rewrite Hbase, Ha, Hb, Hc. cbn. eauto.
Qed.

Lemma insert_pending_total ua tob user action a b c : known ua user (token_address action) a b c ->
  exists ua' bad, insert_pending_user_action ua tob user action = Ret (ua', bad).
Proof.
  intros Hk. unfold insert_pending_user_action.
  match goal with |- context [fetch_all_invalidated_orders ?u _ _] => set (ua1 := u) end.
  assert (known ua1 user (token_address action) a b c) as Hk1 by (by destruct tob).
  destruct (fetch_all_known _ _ _ _ _ _ Hk1) as [bad ->]. cbn. eauto.
Qed.

Lemma fetch_amount_in_total o lp : order_range o -> limit_price o = Ret lp ->
  (exact_in o = false -> 0 < lp) -> exists a, fetch_amount_in o = Ret a.
Proof.
  intros (? & ? & _) Hlp Hpos. unfold fetch_amount_in. destruct (is_tob o && _); [eauto|].
  rewrite Hlp. cbn. destruct (raw_is_bid o), (exact_in o); [eauto| |eauto|].
  - rewrite inverse_quantity_eval; [eauto|by apply Hpos|]. apply u128_wrap_range.
  - rewrite inverse_quantity_eval by (auto || lia). cbn. eauto.
Qed.

Lemma live_state_nonneg ua user token pool prio ls :
  try_fetch_live_pending_state ua user token pool prio = Some ls ->
  live_token ls = token /\ 0 <= live_approval ls /\ 0 <= live_balance ls /\ 0 <= live_angstrom ls.
Proof.
  unfold try_fetch_live_pending_state. intros H.
  apply bind_Some in H as (base & _ & H). apply bind_Some in H as (a & _ & H).
  apply bind_Some in H as (b & _ & H). apply bind_Some in H as (c & _ & H).
  destruct (foldl spend _ _) as [[x y] z]. injection H as <-. unfold saturating_sub. cbn. lia.
Qed.

Lemma reserve_order_total ua o info block conf ls r0 r1 prio lp : order_range o ->
  limit_price o = Ret lp -> (exact_in o = false -> 0 < lp) -> token_in o = upi_token info ->
  try_fetch_live_pending_state ua (from o) (upi_token info) (upi_pool_id info) prio = Some ls ->
  exists ua' r, reserve_order ua o info block conf ls r0 r1 = Ret (ua', r).
Proof.
  intros Hr Hlp Hpos Htok Hl. destruct (live_state_nonneg _ _ _ _ _ _ Hl) as (Ht & H1 & H2 & H3).
  destruct (fetch_amount_in_total o lp Hr Hlp Hpos) as [a Ha].
  destruct (can_support_order_Ret ls o info (Some r1) a Ha Hr) as [[action|e] Hs]; [congruence|done..| |].
  - unfold reserve_order. rewrite Hs. cbn.
    destruct (can_support_order_Ok _ _ _ _ _ _ Ha Hs) as [-> _].
    apply live_state_known in Hl as (x & y & z & Hk). rewrite <-(reservation_token o info r1 a) in Hk.
    destruct (insert_pending_total ua (is_tob o) _ _ _ _ _ Hk) as (ua' & bad & ->). cbn.
    unfold into_order_storage_with_data. rewrite Hlp. cbn. eauto.
  - unfold reserve_order, into_order_storage_with_data. rewrite Hs. cbn.
    destruct (is_tob o); [eauto|]. rewrite Hlp. cbn. eauto.
Qed.

(** Verifying an order returns: when the order has a price, its pool pays in its
    input token and the computation of the reward returns, no lookup of the
    funds, no conversion and no assertion can panic. *)
Lemma verify_order_total ua o info block reval rewards lp r :
  order_range o -> limit_price o = Ret lp -> (exact_in o = false -> 0 < lp) ->
  token_in o = upi_token info -> rewards o info = Ret r ->
  exists ua' res, verify_order ua o info block reval rewards = Ret (ua', res).
Proof.
  intros Hr Hlp Hpos Htok Hrew.
  unfold verify_order. destruct (check_respend o block); [|eauto]. destruct (has_hook o); [eauto|].
  destruct (existsb _ _); [eauto|]. rewrite Hrew. cbn. destruct r as [[r0 r1]|]; [|eauto].
  destruct (get_live_state_for_order _ _ _ _ _) as [ua2 [ls|e]] eqn:E; [|eauto].
  apply get_live_state_Ok in E. by eapply reserve_order_total.
Qed.
End orders.

(** ** Cancellations and blocks, exactly *)

(** The reservation [p] of [user] is in the book, or among the top-of-block
    orders. *)
Definition in_tob ua user p : Prop :=
  exists m token l, pending_tob_actions ua !! user = Some m /\ m !! token = Some l /\ p ∈ l.
Definition reserved ua user p : Prop := p ∈ book_of ua user \/ in_tob ua user p.

Lemma existsb_hash l hash :
  existsb (fun o => pending_hash o =? hash) l = true <-> exists p, p ∈ l /\ pending_hash p = hash.
Proof.
  rewrite existsb_exists. split; intros (p & Hp & Hh); exists p;
    (split; [by apply list_elem_of_In|]); by apply Z.eqb_eq.
Qed.

Lemma retain_nonempty_elem keep l p :
  (exists l', retain_nonempty keep l = Some l' /\ p ∈ l') <-> p ∈ l /\ keep p = true.
Proof.
  rewrite <-elem_of_List_filter. unfold retain_nonempty.
  destruct (List.filter keep l) as [|x l'].
  - split; [by intros (? & [=] & _)|by intros ?%not_elem_of_nil].
  - split; [by intros (? & [= <-] & ?)|eauto].
Qed.

Lemma cancel_tob_exact ua user hash user' p :
  in_tob (fst (try_cancel_tob_order ua user hash)) user' p <->
  in_tob ua user' p /\ (user' = user -> pending_hash p <> hash).
Proof.
  unfold try_cancel_tob_order, in_tob. destruct (pending_tob_actions ua !! user) as [m|] eqn:Em; cbn.
  2: { split; [|naive_solver]. intros (m & t & l & Hm & Hl). split; [by eauto|]. congruence. }
  destruct (decide (user' = user)) as [->|Hne].
  2: { rewrite lookup_insert_ne by done. naive_solver. }
  rewrite lookup_insert_eq. split.
  - intros (m' & t & l' & [= <-] & Hl & Hp). rewrite lookup_omap in Hl.
    apply bind_Some in Hl as (l & Hl & Hret).
    destruct (proj1 (retain_nonempty_elem _ l p) (ex_intro _ l' (conj Hret Hp))) as [Hin Hh].
    apply negb_true_iff, Z.eqb_neq in Hh. split; [|done]. eauto 10.
  - intros [(m' & t & l & Hm & Hl & Hp) Hh]. rewrite Em in Hm. injection Hm as <-.
    destruct (proj2 (retain_nonempty_elem (fun o => negb (pending_hash o =? hash)) l p)) as (l' & Hret & Hin).
    { split; [done|]. apply negb_true_iff, Z.eqb_neq. by apply Hh. }
    eexists _, t, l'. split; [done|]. split; [|done]. rewrite lookup_omap, Hl. done.
Qed.

Lemma cancel_tob_true ua user hash : snd (try_cancel_tob_order ua user hash) = true <->
  exists p, in_tob ua user p /\ pending_hash p = hash.
Proof.
  unfold try_cancel_tob_order, in_tob. destruct (pending_tob_actions ua !! user) as [m|] eqn:Em; cbn.
  2: { naive_solver. }
  rewrite existsb_exists. split.
  - intros ([t l] & Hin & (p & Hp & Hh)%existsb_hash).
    apply list_elem_of_In, elem_of_map_to_list in Hin. exists p. split; [|done]. eauto 10.
  - intros (p & (m' & t & l & [= <-] & Hl & Hp) & Hh). exists (t, l).
    split; [by apply list_elem_of_In, elem_of_map_to_list|]. apply existsb_hash. eauto.
Qed.

Lemma cancel_book_other ua user hash user' : user' <> user ->
  book_of (fst (cancel_order ua user hash)) user' = book_of ua user'.
Proof.
  intros Hne. unfold cancel_order, try_cancel_book_order, book_of.
  destruct (pending_book_actions ua !! user) as [l|] eqn:El.
  - destruct (existsb _ l); cbn; [|rewrite cancel_tob_book]; cbn; by rewrite lookup_insert_ne.
  - by rewrite cancel_tob_book.
Qed.

(** [cancel_order] looks at the top-of-block orders when the book has none of the
    hash. *)
Lemma cancel_order_cases ua user hash :
  ((exists p, p ∈ book_of ua user /\ pending_hash p = hash) /\ snd (cancel_order ua user hash) = true /\
    pending_tob_actions (fst (cancel_order ua user hash)) = pending_tob_actions ua) \/
  ((forall p, p ∈ book_of ua user -> pending_hash p <> hash) /\
    snd (cancel_order ua user hash) = snd (try_cancel_tob_order ua user hash) /\
    pending_tob_actions (fst (cancel_order ua user hash)) =
      pending_tob_actions (fst (try_cancel_tob_order ua user hash))).
Proof.
  unfold cancel_order, try_cancel_book_order, book_of.
  destruct (pending_book_actions ua !! user) as [l|] eqn:El; cbn.
  - destruct (existsb _ l) eqn:Ex; cbn.
    + left. apply existsb_hash in Ex. done.
    + right. split.
      * intros p Hp Hh. rewrite (proj2 (existsb_hash l hash)) in Ex; [done|eauto].
      * unfold try_cancel_tob_order. cbn. by destruct (pending_tob_actions ua !! user).
  - right. split; [|done]. by intros p ?%not_elem_of_nil.
Qed.

(** Cancelling an order releases its reservation and no other, and the
    answer says whether there was one.  A hash is in the book or among the
    top-of-block orders, not in both. *)
Theorem cancel_order_exact ua user (hash : B256) user' p
    (Hone : forall q q', q ∈ book_of ua user -> in_tob ua user q' ->
      pending_hash q = hash -> pending_hash q' <> hash) :
  (reserved (fst (cancel_order ua user hash)) user' p <->
    reserved ua user' p /\ (user' = user -> pending_hash p <> hash)) /\
  (snd (cancel_order ua user hash) = true <-> exists q, reserved ua user q /\ pending_hash q = hash).
Proof.
  assert (p ∈ book_of (fst (cancel_order ua user hash)) user' <->
    p ∈ book_of ua user' /\ (user' = user -> pending_hash p <> hash)) as Hbook.
  { destruct (decide (user' = user)) as [->|Hne]; [|rewrite cancel_book_other by done; naive_solver].
    rewrite cancel_order_book, elem_of_List_filter, negb_true_iff, Z.eqb_neq. naive_solver. }
  assert (forall ua1 ua2 q, pending_tob_actions ua1 = pending_tob_actions ua2 ->
    in_tob ua1 user' q <-> in_tob ua2 user' q) as Hsame by (unfold in_tob; by intros ??? ->).
  unfold reserved. rewrite Hbook.
  destruct (cancel_order_cases ua user hash) as [((q & Hq & Hqh) & -> & Ht)|(Hno & -> & Ht)];
    rewrite (Hsame _ _ p Ht).
  - split; [|naive_solver]. split; [|naive_solver].
    intros [?|Hp]; [naive_solver|]. split; [by right|]. intros ->. by eapply Hone.
  - rewrite cancel_tob_exact, cancel_tob_true. split; naive_solver.
Qed.

(** A new block releases all top-of-block orders and forgets the funds; of
    the book it keeps exactly the orders that did not complete, of the users whose
    state did not change. *)
Theorem new_block_exact ua (users : list Address) (orders : list B256) user p :
  last_known_state (new_block ua users orders) = ∅ /\
  (reserved (new_block ua users orders) user p <->
    p ∈ book_of ua user /\ ~ (user ∈ users) /\ ~ (pending_hash p ∈ orders)).
Proof.
  split; [done|]. unfold reserved, book_of at 1, in_tob. cbn. rewrite lookup_omap.
  setoid_rewrite lookup_empty.
  destruct (foldl _ _ _ !! user) as [l|] eqn:El; cbn.
  - apply (foldl_delete_lookup _ _ _ _ _ eq_refl) in El as [El Hu].
    pose proof (retain_nonempty_elem (fun p => negb (bool_decide (pending_hash p ∈ orders))) l p) as Hr.
    unfold book_of. rewrite El. cbn. rewrite negb_true_iff, bool_decide_eq_false in Hr.
    destruct (retain_nonempty _ l); cbn; set_solver.
  - split; [intros [?%not_elem_of_nil|?]; naive_solver|]. intros (Hp & Hu & _). exfalso.
    unfold book_of in Hp. destruct (pending_book_actions ua !! user) as [l|] eqn:E; cbn in Hp;
      [|by apply not_elem_of_nil in Hp].
    rewrite (proj2 (foldl_delete_lookup _ _ users user l eq_refl)) in El; done.
Qed.

(** ** Examples *)

(** A chain where every account holds 1000 of every token, outside and inside
    Angstrom, and approved [approval] of it. *)
Definition sample_chain (approval : nat) : StateFetchUtils.
Proof.
  refine {|
    is_valid_nonce := fun _ _ => Ok true;
    fetch_approval_balance_for_token := fun _ _ => Ok (Some (Z.min (Z.of_nat approval) u256_max));
    fetch_balance_for_token := fun _ _ => Ok 1000;
    fetch_token_balance_in_angstrom := fun _ _ => Ok 1000
  |}.
  - intros _ _ v [= <-]. unfold u256_max. lia.
  - intros _ _ v [= <-]. unfold u256_max. lia.
  - intros _ _ v [= <-]. unfold u256_max. lia.
Defined.

Definition sample_info : UserOrderPoolInfo := {| upi_token := 2; upi_is_bid := true; upi_pool_id := 9 |}.

Section examples.
#[local] Existing Instance arith_Z.
#[local] Existing Instance sample_hasher.
#[local] Existing Instance insertion_sort.

Abbreviation no_rewards := (fun (_ : AllOrders) (_ : UserOrderPoolInfo) =>
  @Ret (result (u128 * u128) UserAccountVerificationError) (Ok (0, 0))) (only parsing).

(** The standing order 7 of user 4, paying 100 out of the balance in Angstrom. *)
Definition sample_order : AllOrders := sample_standing 7 4 const_1e27 10.

Lemma sample_order_range : order_range sample_order.
Proof.
  split; [vm_compute; split; discriminate|]. split; [vm_compute; split; discriminate|].
  intros lp [= <-]. vm_compute. discriminate.
Qed.

Lemma new_accounts_ok : accounts_ok new_accounts /\ funds_ok new_accounts.
Proof. split; [split|]; apply map_Forall_empty. Qed.

(** The accounts and the stored order after [sample_order] is verified. *)
Definition sample_verified (approval : nat)
    : option (UserAccounts * OrderWithStorageData AllOrders) :=
  match @verify_order _ _ _ _ (sample_chain approval) new_accounts sample_order sample_info 1 false
    no_rewards with
  | Ret (ua, Ok st) => Some (ua, st)
  | _ => None
  end.

Lemma reachable_accounts_ok_witness :
  match sample_verified 500 with Some (ua, _) => accounts_ok ua /\ funds_ok ua | None => False end.
Proof.
  unfold sample_verified.
  destruct (@verify_order _ _ _ _ (sample_chain 500) new_accounts sample_order sample_info 1 false
    no_rewards) as [[ua [st|e]]|] eqn:E; [|vm_compute in E; discriminate..].
  apply (@reachable_accounts_ok _ _ (sample_chain 500) AllOrders _ ua).
  eapply (@reach_verify _ _ (sample_chain 500) AllOrders _ new_accounts sample_order);
    [constructor|exact sample_order_range|exact E].
Defined.



Lemma internal_order_invalidates_itself_witness :
  match sample_verified 50 with Some (_, st) => 7 ∈ invalidates st | None => False end.
Proof.
  unfold sample_verified.
  destruct (@verify_order _ _ _ _ (sample_chain 50) new_accounts sample_order sample_info 1 false
    no_rewards) as [[ua [st|e]]|] eqn:E; [|vm_compute in E; discriminate..].
  assert (is_currently_valid st = None) as Hcv by (vm_compute in E; injection E as <- <-; reflexivity).
  assert (known ua 4 2 50 1000 1000) as Hk.
  { vm_compute in E; injection E as <- <-. eexists. split; [vm_compute; reflexivity|].
    split; [|split]; vm_compute; reflexivity. }
  apply (@internal_order_invalidates_itself _ _ (sample_chain 50) AllOrders _ new_accounts
    sample_order sample_info 1 false no_rewards ua st 100 50 1000 1000 (proj1 new_accounts_ok)
    (proj2 new_accounts_ok) sample_order_range eq_refl eq_refl E Hcv); [reflexivity|exact Hk|lia].
Defined.

Lemma cancel_order_exact_witness :
  match sample_verified 500 with
  | Some (ua, _) => book_of ua 4 <> [] /\
      forall p, reserved (fst (cancel_order ua 4 7)) 4 p -> pending_hash p <> 7
  | None => False
  end.
Proof.
  unfold sample_verified.
  destruct (@verify_order _ _ _ _ (sample_chain 500) new_accounts sample_order sample_info 1 false
    no_rewards) as [[ua [st|e]]|] eqn:E; [|vm_compute in E; discriminate..].
  assert (book_of ua 4 <> []) as Hb by (vm_compute in E; injection E as <- <-; discriminate).
  assert (pending_tob_actions ua = ∅) as Ht by (vm_compute in E; injection E as <- <-; reflexivity).
  split; [exact Hb|]. intros p Hp.
  apply (cancel_order_exact ua 4 7 4 p) in Hp as [_ Hp]; [by apply Hp|].
  intros q q' _ (m & t & l & Hm & _). rewrite Ht in Hm. by apply lookup_empty_Some in Hm.
Defined.
End examples.
