(* ===== verification/Threads.v ===== *)
(** * Orders verified at the same time

    The validator runs up to [MAX_VALIDATION_PER_ADDR] verifications of the orders
    of one user on a pool of worker threads, and they share the three maps of
    [UserAccounts].  Here [UserAccountProcessor::verify_order] of
    [order/state/account/mod.rs] is a task that advances by one access to a map
    at a time, and tasks, new orders and cancellations interleave in any order.
    A [DashMap] runs an access under the lock of the entry, so an access is
    atomic; a method of [UserAccounts] that makes several accesses is not. *)

From Stdlib Require Import Sorted.
From S2P Require Import Prelude Ray Orders Accounts.
Open Scope Z_scope.

Section tasks.
Context `{AL : ArithLib} `{SL : SortLib} {T : Type} `{RP : RawPoolOrder T}.
Implicit Types (ua seen : UserAccounts) (conf todo : list PendingUserAction).

(** The arguments of [verify_order]. *)
Record Job := {
  job_order : T;
  job_info : UserOrderPoolInfo;
  job_block : u64;
  job_reval : bool;
  job_rewards : T -> UserOrderPoolInfo -> outcome (result (u128 * u128) UserAccountVerificationError)
}.
Implicit Types (j : Job).

(** Where a task stands: what it has read so far and which access comes next.
    [conf] are the conflicting orders that it found, [r0] and [r1] the rewards,
    [seen] the accounts at the time it read the known funds and the
    top-of-block orders, [loaded] whether it has loaded the funds. *)
Inductive Stage :=
| Start
| ClearTob
| Checking
| Cancelling (conf todo : list PendingUserAction)
| CancelTob (conf : list PendingUserAction) (p : PendingUserAction) (todo : list PendingUserAction)
| LiveFunds (conf : list PendingUserAction) (r0 r1 : u128) (loaded : bool)
| LiveBook (conf : list PendingUserAction) (r0 r1 : u128) (seen : UserAccounts)
| Loading (conf : list PendingUserAction) (r0 r1 : u128)
| Reserving (conf : list PendingUserAction) (r0 r1 : u128) (live : LiveState)
| ReportFunds (conf : list PendingUserAction) (r0 : u128)
| ReportBook (conf : list PendingUserAction) (r0 : u128) (seen : UserAccounts)
| Finished (r : result (OrderWithStorageData T) UserAccountVerificationError).

(** The known funds and the top-of-block orders as they were, and the book as it
    is now: what [iter_of_tob_and_book] sees, which takes the two entries one
    after the other. *)
Definition seen_with_book seen ua : UserAccounts := with_book seen (pending_book_actions ua).

(** The respend method, the hook and the conflicting orders, up to the first
    order that is cancelled. *)
Definition check_conflicts `{SF : StateFetchUtils} j ua : Stage :=
  let o := job_order j in
  match check_respend o (job_block j) with
  | Err e => Finished (Err e)
  | Ok _ =>
      if has_hook o then Finished (Err NonEmptyHook)
      else
        let conflicting := respend_conflicts ua (from o) (respend_avoidance_strategy o) in
        if existsb (fun p => pending_hash p <=? order_hash o) conflicting
        then Finished (Err (DuplicateNonce (order_hash o)))
        else Cancelling conflicting conflicting
  end.

(** [try_fetch_live_pending_state] for the order of the task. *)
Definition live_state_of j ua (r1 : u128) : option LiveState :=
  try_fetch_live_pending_state ua (from (job_order j)) (upi_token (job_info j))
    (upi_pool_id (job_info j)) (validation_priority (job_order j) (Some r1)).

(** [can_support_order] and, when there are funds, the push of the reservation. *)
Definition reserve j ua conf (r0 r1 : u128) (live : LiveState) : outcome (UserAccounts * Stage) :=
  let o := job_order j in
  supported ← can_support_order live o (job_info j) (Some r1);
  match supported with
  | Ok action => Ret (push_pending_action ua (is_tob o) (from o) action, ReportFunds conf r0)
  | Err e =>
      if is_tob o then Ret (ua, Finished (Err e))
      else
        stored ← into_order_storage_with_data o (job_block j) (Some e) true (job_info j)
          (pending_hash <$> conf) r0;
        Ret (ua, Finished (Ok stored))
  end.

(** The second half of [insert_pending_user_action] and the answer. *)
Definition report j conf (r0 : u128) ua : outcome Stage :=
  let o := job_order j in
  invalid ← fetch_all_invalidated_orders ua (from o) (upi_token (job_info j));
  stored ← into_order_storage_with_data o (job_block j) None true (job_info j)
    (invalid ++ (pending_hash <$> conf)) r0;
  Ret (Finished (Ok stored)).

(** One access to the maps, and what the task computes up to the next one. *)
Definition advance `{SF : StateFetchUtils} j (s : Stage) ua : outcome (UserAccounts * Stage) :=
  let o := job_order j in
  let user := from o in
  match s with
  | Start =>
      if job_reval j then
        let '(ua, res) := try_cancel_book_order ua user (order_hash o) in
        Ret (ua, if res then Checking else ClearTob)
      else Ret (ua, Checking)
  | ClearTob => Ret (fst (try_cancel_tob_order ua user (order_hash o)), Checking)
  | Checking => Ret (ua, check_conflicts j ua)
  | Cancelling conf (p :: todo) =>
      let '(ua, res) := try_cancel_book_order ua user (pending_hash p) in
      Ret (ua, if res then Cancelling conf todo else CancelTob conf p todo)
  | CancelTob conf p todo =>
      Ret (fst (try_cancel_tob_order ua user (pending_hash p)), Cancelling conf todo)
  | Cancelling conf [] =>
      rewards ← job_rewards j o (job_info j);
      Ret (ua, match rewards with
               | Err e => Finished (Err e)
               | Ok (r0, r1) => LiveFunds conf r0 r1 false
               end)
  | LiveFunds conf r0 r1 loaded =>
      Ret (ua, match live_state_of j ua r1, loaded with
               | Some _, _ => LiveBook conf r0 r1 ua
               | None, false => Loading conf r0 r1
               | None, true => Finished (Err (CouldNotFetch
                   "after loading state for a address, the state wasn't found. this should be impossible"%string))
               end)
  | LiveBook conf r0 r1 seen =>
      live ← unwrap (live_state_of j (seen_with_book seen ua) r1);
      Ret (ua, Reserving conf r0 r1 live)
  | Loading conf r0 r1 =>
      let '(ua, res) := load_state_for ua user (upi_token (job_info j)) in
      Ret (ua, match res with
               | Err e => Finished (Err (CouldNotFetch e))
               | Ok _ => LiveFunds conf r0 r1 true
               end)
  | Reserving conf r0 r1 live => reserve j ua conf r0 r1 live
  | ReportFunds conf r0 => Ret (ua, ReportBook conf r0 ua)
  | ReportBook conf r0 seen =>
      s ← report j conf r0 (seen_with_book seen ua);
      Ret (ua, s)
  | Finished r => Ret (ua, Finished r)
  end.

(** A task that runs alone. *)
Fixpoint run_alone `{SF : StateFetchUtils} (fuel : nat) j (s : Stage) ua
    : outcome (UserAccounts * Stage) :=
  match fuel with
  | O => Ret (ua, s)
  | S fuel => '(ua, s) ← advance j s ua; run_alone fuel j s ua
  end.

(** A task whose [n]-th access finds the accounts [env n] and the chain
    [chain n], whatever the others did to them. *)
Fixpoint run_among (n : nat) (env : nat -> UserAccounts) (chain : nat -> StateFetchUtils)
    j (s : Stage) : outcome Stage :=
  match n with
  | O => Ret s
  | S n =>
      '(_, s) ← advance (SF := chain O) j s (env O);
      run_among n (fun i => env (S i)) (fun i => chain (S i)) j s
  end.

Definition is_finished (s : Stage) : bool := match s with Finished _ => true | _ => false end.

(** ** Tasks that share the accounts *)

Record Shared := { shared_accounts : UserAccounts; shared_tasks : list (Job * Stage) }.

(** A task makes an access, an order arrives, the validator handles one of the
    two accesses of a cancellation, or it moves to a new block, which the order
    pool asks for once the validations that it started are answered. *)
Inductive shared_step : Shared -> Shared -> Prop :=
| step_advance (SF : StateFetchUtils) ua ts i j s ua' s' :
    ts !! i = Some (j, s) -> advance j s ua = Ret (ua', s') ->
    shared_step {| shared_accounts := ua; shared_tasks := ts |}
      {| shared_accounts := ua'; shared_tasks := <[i := (j, s')]> ts |}
| step_arrive ua ts j :
    shared_step {| shared_accounts := ua; shared_tasks := ts |}
      {| shared_accounts := ua; shared_tasks := ts ++ [(j, Start)] |}
| step_cancel_book ua ts user hash :
    shared_step {| shared_accounts := ua; shared_tasks := ts |}
      {| shared_accounts := fst (try_cancel_book_order ua user hash); shared_tasks := ts |}
| step_cancel_tob ua ts user hash :
    shared_step {| shared_accounts := ua; shared_tasks := ts |}
      {| shared_accounts := fst (try_cancel_tob_order ua user hash); shared_tasks := ts |}
| step_block ua ts users orders :
    Forall (fun t => is_finished (snd t) = true) ts ->
    shared_step {| shared_accounts := ua; shared_tasks := ts |}
      {| shared_accounts := new_block ua users orders; shared_tasks := ts |}.
End tasks.
Arguments Job : clear implicits.
Arguments Stage : clear implicits.
Arguments Shared : clear implicits.
