(* ===== verification/ThreadsProps.v ===== *)
(** * What holds when orders are verified at the same time

    The theorems on [Threads.v]: a task that runs alone computes [verify_order];
    a task ends after finitely many accesses whatever the others do; however the
    tasks interleave, the accounts stay in order and no task panics; and the last
    order to make its reservation reports every order that the funds no longer
    cover. *)

From Stdlib Require Import Sorted.
From S2P Require Import Prelude Ray Orders Accounts AccountsProps Threads.
Open Scope Z_scope.

Section tasks.
Context `{AL : ArithLib} `{SL : SortLib} {T : Type} `{RP : RawPoolOrder T}.
Implicit Types (ua seen : UserAccounts) (j : Job T) (s : Stage T).

(** ** A task that runs alone *)

Section alone.
Context `{SF : StateFetchUtils}.

(** From [bound] steps on the task is done, with the result [res]. *)
Definition ends_in j s ua (res : outcome (UserAccounts * Stage T)) (bound : nat) : Prop :=
  forall n, (bound <= n)%nat -> run_alone n j s ua = res.

Lemma ends_finished j r ua : ends_in j (Finished r) ua (Ret (ua, Finished r)) 0.
Proof. intros n _. induction n as [|n IH]; [done|]. exact IH. Qed.

Lemma ends_weaken j s ua res b b' : ends_in j s ua res b -> (b <= b')%nat -> ends_in j s ua res b'.
Proof. intros H Hb n Hn. apply H. lia. Qed.

Lemma ends_step j s ua ua' s' res b : advance j s ua = Ret (ua', s') ->
  ends_in j s' ua' res b -> ends_in j s ua res (S b).
Proof.
  intros Ha H [|n] Hn; [lia|]. cbn [run_alone]. rewrite Ha. apply H. lia.
Qed.

Lemma ends_panic j s ua b : advance j s ua = Panic -> ends_in j s ua Panic (S b).
Proof. intros Ha [|n] Hn; [lia|]. cbn [run_alone]. by rewrite Ha. Qed.

Lemma seen_with_book_same ua : seen_with_book ua ua = ua.
Proof. by destruct ua. Qed.

(** The answer, when nobody else touches the accounts. *)
Lemma ends_reserving j conf r0 r1 live ua :
  ends_in j (Reserving conf r0 r1 live) ua
    ('(ua', r) ← reserve_order ua (job_order j) (job_info j) (job_block j) conf live r0 r1;
     Ret (ua', Finished r)) 3.
Proof.
  unfold reserve_order.
  destruct (can_support_order live (job_order j) (job_info j) (Some r1)) as [[action|e]|] eqn:Es; cbn.
  - assert (token_address action = upi_token (job_info j)) as Et.
    { destruct (fetch_amount_in (job_order j)) as [a|] eqn:Ea.
      - destruct (can_support_order_Ok _ _ _ _ _ _ Ea Es) as [-> _]. apply reservation_token.
      - unfold can_support_order in Es. apply bind_Ret in Es as (? & _ & Es). by rewrite Ea in Es. }
    eapply ends_step; [cbn; unfold reserve; by rewrite Es|].
    eapply ends_step; [done|]. unfold insert_pending_user_action. rewrite Et.
    set (ua1 := push_pending_action _ _ _ _).
    destruct (report j conf r0 ua1) as [s'|] eqn:Er; unfold report in Er.
    + apply bind_Ret in Er as (bad & Hbad & Er). apply bind_Ret in Er as (st & Hst & Er).
      injection Er as <-. rewrite Hbad. cbn. rewrite Hst. cbn.
      eapply ends_step; [|apply ends_finished]. cbn. rewrite seen_with_book_same. unfold report.
      rewrite Hbad. cbn. by rewrite Hst.
    + destruct (fetch_all_invalidated_orders ua1 _ _) as [bad|] eqn:Hbad; cbn in Er |- *.
      * destruct (into_order_storage_with_data _ _ _ _ _ _ _) as [st|] eqn:Hst; [done|]. cbn.
        apply ends_panic. cbn. rewrite seen_with_book_same. unfold report. rewrite Hbad. cbn. by rewrite Hst.
      * apply ends_panic. cbn. rewrite seen_with_book_same. unfold report. by rewrite Hbad.
  - destruct (is_tob (job_order j)) eqn:Htob; cbn.
    + eapply ends_step; [cbn; unfold reserve; rewrite Es; cbn; by rewrite Htob|].
      eapply ends_weaken; [apply ends_finished|lia].
    + destruct (into_order_storage_with_data _ _ _ _ _ _ _) as [st|] eqn:Hst; cbn.
      * eapply ends_step; [cbn; unfold reserve; rewrite Es; cbn; by rewrite Htob, Hst|].
        eapply ends_weaken; [apply ends_finished|lia].
      * apply ends_panic. cbn. unfold reserve. rewrite Es. cbn. by rewrite Htob, Hst.
  - apply ends_panic. cbn. unfold reserve. by rewrite Es.
Qed.

(** The part of [verify_order] after the conflicting orders are cancelled. *)
Definition judge j conf ua : outcome (UserAccounts * Stage T) :=
  rewards ← job_rewards j (job_order j) (job_info j);
  match rewards with
  | Err e => Ret (ua, Finished (Err e))
  | Ok (r0, r1) =>
      match get_live_state_for_order ua (from (job_order j)) (upi_token (job_info j))
              (validation_priority (job_order j) (Some r1)) (upi_pool_id (job_info j)) with
      | (ua, Err e) => Ret (ua, Finished (Err (CouldNotFetch e)))
      | (ua, Ok live) =>
          '(ua', r) ← reserve_order ua (job_order j) (job_info j) (job_block j) conf live r0 r1;
          Ret (ua', Finished r)
      end
  end.

Lemma ends_live j conf r0 r1 loaded live ua : live_state_of j ua r1 = Some live ->
  ends_in j (LiveFunds conf r0 r1 loaded) ua
    ('(ua', r) ← reserve_order ua (job_order j) (job_info j) (job_block j) conf live r0 r1;
     Ret (ua', Finished r)) 5.
Proof.
  intros Hl. eapply ends_step; [cbn; by rewrite Hl|].
  eapply ends_step; [cbn; rewrite seen_with_book_same; by rewrite Hl|].
  apply ends_reserving.
Qed.

Lemma ends_judge j conf ua : ends_in j (Cancelling conf []) ua (judge j conf ua) 8.
Proof.
  unfold judge. destruct (job_rewards j _ _) as [[[r0 r1]|e]|] eqn:Er; cbn;
    [|eapply ends_step; [cbn; by rewrite Er|eapply ends_weaken; [apply ends_finished|lia]]
     |apply ends_panic; cbn; by rewrite Er].
  eapply ends_step; [cbn; by rewrite Er|]. unfold get_live_state_for_order.
  fold (live_state_of j ua r1). destruct (live_state_of j ua r1) as [live|] eqn:El.
  { eapply ends_weaken; [by apply ends_live|lia]. }
  eapply ends_step; [cbn; by rewrite El|].
  destruct (load_state_for ua _ _) as [ua1 [u|e]] eqn:Eld.
  - eapply ends_step; [cbn; by rewrite Eld|]. fold (live_state_of j ua1 r1).
    destruct (live_state_of j ua1 r1) as [live|] eqn:El1; [by apply ends_live|].
    eapply ends_step; [cbn; by rewrite El1|]. eapply ends_weaken; [apply ends_finished|lia].
  - eapply ends_step; [cbn; by rewrite Eld|]. eapply ends_weaken; [apply ends_finished|lia].
Qed.

Lemma ends_cancelling j conf todo ua : ends_in j (Cancelling conf todo) ua
  (judge j conf (cancel_all ua (from (job_order j)) todo)) (8 + 2 * length todo).
Proof.
  revert ua. induction todo as [|p todo IH]; intros ua; [apply ends_judge|].
  cbn [cancel_all foldl length]. unfold cancel_order.
  destruct (try_cancel_book_order ua (from (job_order j)) (pending_hash p)) as [ua1 res] eqn:Eb.
  destruct res; cbn [fst].
  - eapply ends_weaken; [eapply ends_step; [cbn; by rewrite Eb|apply IH]|lia].
  - eapply ends_weaken; [eapply ends_step; [cbn; by rewrite Eb|]|].
    + eapply ends_step; [done|]. apply IH.
    + lia.
Qed.

(** Refinement: a task that runs alone ends, and with the accounts and the answer
    of [verify_order]. *)
Theorem verify_order_alone j ua n :
  (11 + 2 * length (conflicts ua (job_order j) (job_reval j)) <= n)%nat ->
  run_alone n j Start ua =
    '(ua', r) ← verify_order ua (job_order j) (job_info j) (job_block j) (job_reval j) (job_rewards j);
    Ret (ua', Finished r).
Proof.
  revert n. enough (ends_in j Checking (cleared ua (job_order j) (job_reval j))
    ('(ua', r) ← verify_order ua (job_order j) (job_info j) (job_block j) (job_reval j) (job_rewards j);
     Ret (ua', Finished r)) (9 + 2 * length (conflicts ua (job_order j) (job_reval j)))) as H.
  { change (ends_in j Start ua
      ('(ua', r) ← verify_order ua (job_order j) (job_info j) (job_block j) (job_reval j) (job_rewards j);
       Ret (ua', Finished r)) (11 + 2 * length (conflicts ua (job_order j) (job_reval j)))).
    revert H. unfold cleared, cancel_order. destruct (job_reval j) eqn:Erev; intros H.
    - destruct (try_cancel_book_order ua _ _) as [ua1 res] eqn:Eb.
      eapply ends_step; [cbn; by rewrite Erev, Eb|]. destruct res; [by eapply ends_weaken; [exact H|lia]|].
      eapply ends_step; [done|exact H].
    - eapply ends_weaken; [eapply ends_step; [cbn; by rewrite Erev|exact H]|lia]. }
  unfold verify_order. fold (cleared ua (job_order j) (job_reval j)).
  set (ua1 := cleared ua (job_order j) (job_reval j)).
  eapply ends_step; [done|]. cbn. unfold check_conflicts.
  destruct (check_respend _ _); [|by eapply ends_weaken; [apply ends_finished|lia]].
  destruct (has_hook _); [by eapply ends_weaken; [apply ends_finished|lia]|].
  change (respend_conflicts ua1 _ _) with (conflicts ua (job_order j) (job_reval j)).
  destruct (existsb _ _); [by eapply ends_weaken; [apply ends_finished|lia]|].
  pose proof (ends_cancelling j (conflicts ua (job_order j) (job_reval j))
    (conflicts ua (job_order j) (job_reval j)) ua1) as H. revert H. unfold judge.
  fold (cancel_all ua1 (from (job_order j)) (conflicts ua (job_order j) (job_reval j))).
  destruct (job_rewards j _ _) as [[[r0 r1]|e]|]; cbn; [|done..].
  by destruct (get_live_state_for_order _ _ _ _ _) as [ua2 [live|e]].
Qed.
End alone.

(** ** A task among others *)

(** How many accesses are left at most, once the conflicting orders are known. *)
Definition accesses_left s : nat :=
  match s with
  | Finished _ => 0
  | ReportBook _ _ _ => 1
  | ReportFunds _ _ => 2
  | Reserving _ _ _ _ => 3
  | LiveBook _ _ _ _ => 4
  | LiveFunds _ _ _ true => 5
  | Loading _ _ _ => 6
  | LiveFunds _ _ _ false => 7
  | Cancelling _ todo => 8 + 2 * length todo
  | CancelTob _ _ todo => 9 + 2 * length todo
  | Checking | ClearTob | Start => 0
  end.

Definition knows_conflicts s : bool :=
  match s with Checking | ClearTob | Start => false | _ => true end.

Lemma advance_fewer `{SF : StateFetchUtils} j s ua ua' s' : knows_conflicts s = true ->
  is_finished s = false -> advance j s ua = Ret (ua', s') ->
  knows_conflicts s' = true /\ (accesses_left s' < accesses_left s)%nat.
Proof.
  intros Hk Hf Ha. destruct s as [| | |conf [|p todo]|conf p todo|conf r0 r1 loaded| | | | | |]; try done;
    cbn in Ha.
  - apply bind_Ret in Ha as ([[r0 r1]|e] & _ & Ha); injection Ha as <- <-; cbn; lia.
  - destruct (try_cancel_book_order _ _ _) as [ua1 []]; injection Ha as <- <-; cbn; lia.
  - injection Ha as <- <-. cbn. lia.
  - injection Ha as <- <-. destruct (live_state_of _ _ _), loaded; cbn; lia.
  - apply bind_Ret in Ha as (? & _ & Ha). injection Ha as <- <-. cbn. lia.
  - destruct (load_state_for _ _ _) as [ua1 []]; injection Ha as <- <-; cbn; lia.
  - apply bind_Ret in Ha as ([] & _ & Ha); [injection Ha as <- <-; cbn; lia|].
    destruct (is_tob _); [injection Ha as <- <-; cbn; lia|].
    apply bind_Ret in Ha as (? & _ & Ha). injection Ha as <- <-. cbn. lia.
  - injection Ha as <- <-. cbn. lia.
  - apply bind_Ret in Ha as (s1 & Hs & Ha). injection Ha as <- <-.
    apply bind_Ret in Hs as (? & _ & Hs). apply bind_Ret in Hs as (? & _ & Hs). injection Hs as <-. cbn. lia.
Qed.

(** The task is through after [n] accesses: it has its answer, or an access
    panicked. *)
Definition through (x : outcome (Stage T)) : Prop :=
  match x with Ret s => is_finished s = true | Panic => True end.

Lemma late_task_ends j s env chain : knows_conflicts s = true ->
  exists n, through (run_among n env chain j s).
Proof.
  remember (accesses_left s) as m eqn:Em. revert s env chain Em.
  induction m as [m IH] using (well_founded_induction lt_wf). intros s env chain Em Hk.
  destruct (is_finished s) eqn:Hf; [by exists 0%nat|].
  destruct (advance (SF := chain 0%nat) j s (env 0%nat)) as [[ua' s']|] eqn:Ha.
  - destruct (advance_fewer (SF := chain 0%nat) _ _ _ _ _ Hk Hf Ha) as [Hk' Hlt].
    destruct (IH _ ltac:(by rewrite Em) s' (fun i => env (S i)) (fun i => chain (S i)) eq_refl Hk')
      as [n Hn]. exists (S n). cbn [run_among]. by rewrite Ha.
  - exists 1%nat. cbn [run_among]. by rewrite Ha.
Qed.

Lemma early_task_moves j s env chain :
  (forall ua' s', advance (SF := chain 0%nat) j s (env 0%nat) = Ret (ua', s') ->
    exists n, through (run_among n (fun i => env (S i)) (fun i => chain (S i)) j s')) ->
  exists n, through (run_among n env chain j s).
Proof.
  intros H. destruct (advance (SF := chain 0%nat) j s (env 0%nat)) as [[ua' s']|] eqn:Ha.
  - destruct (H _ _ eq_refl) as [n Hn]. exists (S n). cbn [run_among]. by rewrite Ha.
  - exists 1%nat. cbn [run_among]. by rewrite Ha.
Qed.

(** Termination: a task gets through after finitely many accesses, whatever
    accounts and whatever chain each of them finds. *)
Theorem task_gets_through j env chain : exists n, through (run_among n env chain j Start).
Proof.
  assert (forall env chain, exists n, through (run_among n env chain j Checking)) as Hcheck.
  { intros env1 chain1. apply early_task_moves. intros ua' s' [= _ <-]. apply late_task_ends.
    unfold check_conflicts. repeat case_match; done. }
  assert (forall env chain, exists n, through (run_among n env chain j ClearTob)) as Hclear.
  { intros env1 chain1. apply early_task_moves. intros ua' s' [= _ <-]. apply Hcheck. }
  apply early_task_moves. intros ua' s'. cbn. destruct (job_reval j).
  - destruct (try_cancel_book_order _ _ _) as [ua1 []]; intros [= _ <-]; auto.
  - intros [= _ <-]. apply Hcheck.
Qed.

(** ** The invariant of the tasks *)

(** An order that passed the rules: its fields fit their types, it has a price,
    which is positive where the amount that it pays depends on it, its pool pays in
    its input token and the reward can be computed. *)
Definition job_ok j : Prop :=
  order_range (job_order j) /\
  (exists lp, limit_price (job_order j) = Ret lp /\ (exact_in (job_order j) = false -> 0 < lp)) /\
  token_in (job_order j) = upi_token (job_info j) /\
  exists r, job_rewards j (job_order j) (job_info j) = Ret r.

Definition funds_known ua (user token : Address) : Prop :=
  exists a b c, known ua user token a b c.

(** The accounts are in order and the known funds are words. *)
Definition accounts_sound ua : Prop := accounts_filed ua /\ funds_ok ua.

(** What a task relies on at each stage. *)
Definition stage_ok ua j s : Prop :=
  let user := from (job_order j) in
  let token := upi_token (job_info j) in
  match s with
  | LiveFunds _ _ _ true | ReportFunds _ _ => funds_known ua user token
  | LiveBook _ _ _ seen => funds_known ua user token /\ funds_known seen user token
  | Reserving _ _ _ live =>
      funds_known ua user token /\ live_token live = token /\
      0 <= live_approval live /\ 0 <= live_balance live /\ 0 <= live_angstrom live
  | ReportBook _ _ seen => accounts_sound seen /\ funds_known seen user token
  | _ => True
  end.

(** Funds that are known stay known between blocks. *)
Definition keeps_known ua ua' : Prop :=
  forall user token, funds_known ua user token -> funds_known ua' user token.

Lemma keeps_known_same ua ua' : last_known_state ua' = last_known_state ua -> keeps_known ua ua'.
Proof. unfold keeps_known, funds_known, known. by intros ->. Qed.

Lemma stage_ok_mono ua ua' j s : keeps_known ua ua' -> stage_ok ua j s -> stage_ok ua' j s.
Proof. intros Hk. destruct s as [| | | | |? ? ? []| | | | | |]; cbn; naive_solver. Qed.

Lemma same_known_sound ua ua' : accounts_filed ua' -> last_known_state ua' = last_known_state ua ->
  funds_ok ua -> accounts_sound ua' /\ keeps_known ua ua'.
Proof.
  intros Hf Hl Hok. split; [|by apply keeps_known_same]. split; [done|]. unfold funds_ok. by rewrite Hl.
Qed.

Lemma cancel_book_sound ua user hash : accounts_sound ua ->
  let ua' := fst (try_cancel_book_order ua user hash) in accounts_sound ua' /\ keeps_known ua ua'.
Proof.
  intros [Hf Hk]. apply same_known_sound; [| |done].
  - apply try_cancel_book_with; [apply book_filed_sublist|done].
  - unfold try_cancel_book_order. by case_match.
Qed.

Lemma cancel_tob_sound ua user hash : accounts_sound ua ->
  let ua' := fst (try_cancel_tob_order ua user hash) in accounts_sound ua' /\ keeps_known ua ua'.
Proof.
  intros [Hf Hk]. apply same_known_sound; [| |done].
  - by apply try_cancel_tob_with.
  - unfold try_cancel_tob_order. by case_match.
Qed.

Lemma push_sound ua tob user action : accounts_sound ua -> action_ok action ->
  pending_is_tob action = tob ->
  let ua' := push_pending_action ua tob user action in accounts_sound ua' /\ keeps_known ua ua'.
Proof.
  intros [Hf Hk] Ha <-. apply same_known_sound; [by apply push_pending_filed| |done].
  unfold push_pending_action. by case_match.
Qed.

Lemma load_sound `{SF : StateFetchUtils} ua user token : accounts_sound ua ->
  let '(ua', r) := load_state_for ua user token in
  accounts_sound ua' /\ keeps_known ua ua' /\ (r = Ok tt -> funds_known ua' user token).
Proof.
  intros [Hf Hk]. pose proof (load_state_for_pending ua user token) as Hp.
  pose proof (load_state_for_funds ua user token Hk) as Hfu.
  destruct (load_state_for ua user token) as [ua' r] eqn:E. cbn in Hp, Hfu.
  destruct Hp as [Hb Ht]. split.
  { split; [|done]. revert Hf. unfold accounts_filed, accounts_with. by rewrite Hb, Ht. }
  revert E. unfold load_state_for. repeat case_match; intros [= <- <-];
    try (split; [by apply keeps_known_same|done]).
  unfold keeps_known, funds_known, known. cbn. split.
  - intros u t (fa & fb & fc & base & Hbase & Hka & Hkb & Hkc).
    destruct (decide (u = user)) as [->|Hne].
    + rewrite lookup_insert_eq, Hbase. cbn. destruct (decide (t = token)) as [->|Hnt].
      * eexists _, _, _, _. split; [done|]. cbn. by rewrite !lookup_insert_eq.
      * exists fa, fb, fc. eexists. split; [done|]. cbn. by rewrite !lookup_insert_ne.
    + rewrite lookup_insert_ne by done. eauto 10.
  - intros _. rewrite lookup_insert_eq. eexists _, _, _, _. split; [done|]. cbn.
    by rewrite !lookup_insert_eq.
Qed.

Lemma live_state_total j ua r1 : funds_known ua (from (job_order j)) (upi_token (job_info j)) ->
  exists live, live_state_of j ua r1 = Some live.
Proof.
  intros (a & b & c & base & Hbase & Ha & Hb & Hc). unfold live_state_of, try_fetch_live_pending_state.
  rewrite Hbase. cbn. rewrite Ha, Hb, Hc. cbn. destruct (foldl spend _ _) as [[x y] z]. eauto.
Qed.

Lemma seen_known seen ua user token : funds_known seen user token ->
  funds_known (seen_with_book seen ua) user token.
Proof. done. Qed.

Lemma seen_sound seen ua : accounts_sound seen -> accounts_sound ua ->
  accounts_sound (seen_with_book seen ua).
Proof. intros [[_ Ht] Hf] [[Hb _] _]. done. Qed.

(** The task may go on, and leaves the accounts as the others need them. *)
Definition goes_on ua j (x : outcome (UserAccounts * Stage T)) : Prop :=
  exists ua' s', x = Ret (ua', s') /\ accounts_sound ua' /\ keeps_known ua ua' /\ stage_ok ua' j s'.

Lemma goes_on_Ret ua j ua' s' : accounts_sound ua' /\ keeps_known ua ua' -> stage_ok ua' j s' ->
  goes_on ua j (Ret (ua', s')).
Proof. intros [? ?] ?. unfold goes_on. eauto 10. Qed.

Lemma goes_on_same ua j s' : accounts_sound ua -> stage_ok ua j s' -> goes_on ua j (Ret (ua, s')).
Proof. intros. apply goes_on_Ret; [|done]. split; [done|by intros ? ?]. Qed.

Lemma reserve_goes_on j ua conf r0 r1 live : job_ok j -> accounts_sound ua ->
  stage_ok ua j (Reserving conf r0 r1 live) -> goes_on ua j (reserve j ua conf r0 r1 live).
Proof.
  intros (Hr & (lp & Hlp & Hpos) & Htok & _) Hs (Hk & Ht & H1 & H2 & H3).
  destruct (fetch_amount_in_total _ lp Hr Hlp Hpos) as [a Ha]. unfold reserve.
  destruct (can_support_order_Ret live _ (job_info j) (Some r1) a Ha Hr) as [[action|e] Hsup];
    [congruence|done..| |]; rewrite Hsup; cbn.
  - destruct (can_support_order_Ok _ _ _ _ _ _ Ha Hsup) as [-> _].
    destruct (push_sound ua (is_tob (job_order j)) (from (job_order j))
      (reservation (job_order j) (job_info j) r1 a)) as [Hs' Hk']; [done| | |].
    + apply reservation_ok. by apply (fetch_amount_in_range (job_order j)).
    + unfold pending_is_tob. by rewrite reservation_priority.
    + apply goes_on_Ret; [done|]. by apply Hk'.
  - destruct (is_tob _); [by apply goes_on_same|].
    unfold into_order_storage_with_data. rewrite Hlp. cbn. by apply goes_on_same.
Qed.

Lemma report_returns j conf r0 ua : job_ok j ->
  funds_known ua (from (job_order j)) (upi_token (job_info j)) ->
  exists st, report j conf r0 ua = Ret (Finished (Ok st)).
Proof.
  intros (_ & (lp & Hlp & _) & _) (a & b & c & Hk).
  destruct (fetch_all_known _ _ _ _ _ _ Hk) as [bad Hbad]. unfold report. rewrite Hbad. cbn.
  unfold into_order_storage_with_data. rewrite Hlp. cbn. eauto.
Qed.

(** Every access of a task returns and keeps the invariant. *)
Lemma advance_goes_on `{SF : StateFetchUtils} j s ua : job_ok j -> accounts_sound ua ->
  stage_ok ua j s -> goes_on ua j (advance j s ua).
Proof.
  intros Hj Hs Hst.
  destruct s as [| | |conf [|p todo]|conf p todo|conf r0 r1 loaded|conf r0 r1 seen|conf r0 r1| | |conf r0 seen|];
    cbn [advance].
  - destruct (job_reval j); [|by apply goes_on_same].
    pose proof (cancel_book_sound ua (from (job_order j)) (order_hash (job_order j)) Hs) as H.
    destruct (try_cancel_book_order _ _ _) as [ua1 res]. by apply goes_on_Ret; [|destruct res].
  - apply goes_on_Ret; [by apply cancel_tob_sound|done].
  - apply goes_on_same; [done|]. unfold check_conflicts. by repeat case_match.
  - destruct Hj as (_ & _ & _ & r & Hr). rewrite Hr. cbn.
    apply goes_on_same; [done|]. by destruct r as [[r0 r1]|].
  - pose proof (cancel_book_sound ua (from (job_order j)) (pending_hash p) Hs) as H.
    destruct (try_cancel_book_order _ _ _) as [ua1 res]. by apply goes_on_Ret; [|destruct res].
  - apply goes_on_Ret; [by apply cancel_tob_sound|done].
  - apply goes_on_same; [done|]. destruct (live_state_of j ua r1) as [live|] eqn:El.
    + apply live_state_known in El. done.
    + by destruct loaded.
  - destruct Hst as [Hk Hseen]. destruct (live_state_total j (seen_with_book seen ua) r1) as [live Hl]; [done|].
    rewrite Hl. cbn. apply goes_on_same; [done|]. by apply live_state_nonneg in Hl.
  - pose proof (load_sound ua (from (job_order j)) (upi_token (job_info j)) Hs) as H.
    destruct (load_state_for _ _ _) as [ua1 [[]|e]]; destruct H as (H1 & H2 & H3);
      apply goes_on_Ret; try done. by apply H3.
  - by apply reserve_goes_on.
  - by apply goes_on_same.
  - destruct Hst as [Hseen Hk]. destruct (report_returns j conf r0 (seen_with_book seen ua)) as [st ->]; [done..|].
    by apply goes_on_same.
  - by apply goes_on_same.
Qed.

(** *** Every interleaving *)

Definition task_ok ua (t : Job T * Stage T) : Prop := job_ok (fst t) /\ stage_ok ua (fst t) (snd t).

Definition shared_ok (sh : Shared T) : Prop :=
  accounts_sound (shared_accounts sh) /\ Forall (task_ok (shared_accounts sh)) (shared_tasks sh).

(** No task runs yet. *)
Definition shared_start : Shared T := {| shared_accounts := new_accounts; shared_tasks := [] |}.

(** The orders that arrived. *)
Definition arrived (sh : Shared T) : list (Job T) := fst <$> shared_tasks sh.

Lemma finished_ok ua j s : is_finished s = true -> stage_ok ua j s.
Proof. by destruct s. Qed.

Lemma tasks_mono ua ua' ts : keeps_known ua ua' -> Forall (task_ok ua) ts -> Forall (task_ok ua') ts.
Proof.
  intros Hk Ht. eapply Forall_impl; [exact Ht|]. intros [j s] [Hj Hs]. split; [done|].
  by eapply stage_ok_mono.
Qed.

Lemma step_arrived sh sh' : shared_step sh sh' -> exists js, arrived sh' = arrived sh ++ js.
Proof.
  intros [SF ua ts i j s ua' s' Hi _|ua ts j|ua ts user hash|ua ts user hash|ua ts users orders _];
    unfold arrived; cbn; [| |by exists []; rewrite app_nil_r..].
  - exists []. rewrite app_nil_r, list_fmap_insert. cbn. apply list_insert_id.
    by rewrite list_lookup_fmap, Hi.
  - exists [j]. by rewrite fmap_app.
Qed.

Lemma step_keeps_ok sh sh' : shared_step sh sh' -> Forall job_ok (arrived sh') ->
  shared_ok sh -> shared_ok sh'.
Proof.
  intros Hstep Hjobs [Hs Ht].
  destruct Hstep as [SF ua ts i j s ua' s' Hi Ha|ua ts j|ua ts user hash|ua ts user hash|ua ts users orders Hfin];
    cbn in *; unfold arrived in Hjobs; cbn in Hjobs.
  - destruct (Forall_lookup_1 _ _ _ _ Ht Hi) as [Hj Hst].
    destruct (advance_goes_on j s ua Hj Hs Hst) as (ua1 & s1 & Ha1 & Hs1 & Hk1 & Hst1).
    rewrite Ha in Ha1. injection Ha1 as <- <-. split; [done|].
    apply Forall_insert; [by eapply tasks_mono|done].
  - split; [done|]. rewrite fmap_app, Forall_app in Hjobs. apply Forall_app. split; [done|].
    destruct Hjobs as [_ Hj]. inversion Hj. apply Forall_cons_2; [split; [done|exact I]|apply Forall_nil_2].
  - destruct (cancel_book_sound ua user hash Hs). split; [done|]. by eapply tasks_mono.
  - destruct (cancel_tob_sound ua user hash Hs). split; [done|]. by eapply tasks_mono.
  - split; [split|].
    + apply new_block_with; [apply book_filed_sublist|apply Hs].
    + apply map_Forall_empty.
    + apply Forall_forall. intros [j s] Hin. rewrite Forall_forall in Hfin, Ht.
      split; [by apply (Ht (j, s))|]. by apply finished_ok, (Hfin (j, s)).
Qed.

Lemma reachable_shared_ok sh : rtc shared_step shared_start sh -> Forall job_ok (arrived sh) ->
  shared_ok sh.
Proof.
  intros Hr. pattern sh. revert sh Hr. apply rtc_ind_r; [intros _|intros sh sh' Hr Hstep IH Hj].
  - split; [split; [split|]|]; try apply map_Forall_empty. constructor.
  - eapply step_keeps_ok; [done..|]. apply IH. destruct (step_arrived _ _ Hstep) as [js E].
    rewrite E, Forall_app in Hj. by destruct Hj.
Qed.

(** However the verifications, the arrivals, the cancellations and the blocks
    interleave, the reservations of a user stay sorted by priority and filed
    under their token, no top-of-block order gets into a book, every reservation
    is a 128-bit amount and the known funds are words. *)
Theorem tasks_keep_accounts sh (Hreach : rtc shared_step shared_start sh)
    (Hjobs : Forall job_ok (arrived sh)) :
  accounts_filed (shared_accounts sh) /\ funds_ok (shared_accounts sh).
Proof. by destruct (reachable_shared_ok sh Hreach Hjobs) as [H _]. Qed.

(** However they interleave, the next access of every task returns: no other task
    and no cancellation can take away the funds that it reads or make one of its
    assertions fail. *)
Theorem tasks_never_panic sh (SF : StateFetchUtils) i j s
    (Hreach : rtc shared_step shared_start sh) (Hjobs : Forall job_ok (arrived sh))
    (Hi : shared_tasks sh !! i = Some (j, s)) :
  exists ua' s', advance j s (shared_accounts sh) = Ret (ua', s').
Proof.
  destruct (reachable_shared_ok sh Hreach Hjobs) as [Hs Ht].
  destruct (Forall_lookup_1 _ _ _ _ Ht Hi) as [Hj Hst].
  destruct (advance_goes_on j s _ Hj Hs Hst) as (ua' & s' & Ha & _). eauto.
Qed.

(** ** The last reservation *)

(** A step that leaves the accounts as they are. *)
Definition quiet_step (sh sh' : Shared T) : Prop :=
  shared_step sh sh' /\ shared_accounts sh' = shared_accounts sh.

(** The task is about to report, has read the funds, or has reported on [ua]. *)
Definition reporting ua j conf (r0 : u128) s : Prop :=
  s = ReportFunds conf r0 \/ s = ReportBook conf r0 ua \/ report j conf r0 ua = Ret s.

Lemma reporting_advance `{SF : StateFetchUtils} ua j conf r0 s s' : reporting ua j conf r0 s ->
  advance j s ua = Ret (ua, s') -> reporting ua j conf r0 s'.
Proof.
  intros [->|[->|Hr]] Ha; unfold reporting; cbn in Ha.
  - injection Ha as <-. auto.
  - rewrite seen_with_book_same in Ha. apply bind_Ret in Ha as (s1 & Hs & Ha). injection Ha as <-. auto.
  - assert (exists r, s = Finished r) as [r ->].
    { unfold report in Hr. apply bind_Ret in Hr as (? & _ & Hr). apply bind_Ret in Hr as (? & _ & Hr).
      injection Hr as <-. eauto. }
    injection Ha as <-. auto.
Qed.

Lemma quiet_reporting sh sh' i j conf r0 s : quiet_step sh sh' ->
  shared_tasks sh !! i = Some (j, s) -> reporting (shared_accounts sh) j conf r0 s ->
  exists s', shared_tasks sh' !! i = Some (j, s') /\ reporting (shared_accounts sh) j conf r0 s'.
Proof.
  intros [Hstep Heq] Hi Hr.
  destruct Hstep as [SF ua ts k j1 s1 ua' s1' Hk Ha|ua ts j1|ua ts user hash|ua ts user hash|ua ts users orders Hfin];
    cbn in *; [|by exists s; split; [by apply lookup_app_l_Some|]|by eauto..].
  destruct (decide (k = i)) as [->|Hne].
  - rewrite Hi in Hk. injection Hk as <- <-. subst ua'. exists s1'. split.
    + apply list_lookup_insert_eq. by eapply lookup_lt_Some.
    + by eapply reporting_advance.
  - exists s. split; [|done]. by rewrite list_lookup_insert_ne.
Qed.

Lemma quiet_run_reporting sh sh' i j conf r0 s : rtc quiet_step sh sh' ->
  shared_tasks sh !! i = Some (j, s) -> reporting (shared_accounts sh) j conf r0 s ->
  shared_accounts sh' = shared_accounts sh /\
  exists s', shared_tasks sh' !! i = Some (j, s') /\ reporting (shared_accounts sh) j conf r0 s'.
Proof.
  intros Hrun. revert s. induction Hrun as [sh|sh sh1 sh' Hq _ IH]; intros s Hi Hr; [eauto|].
  destruct (quiet_reporting _ _ _ _ _ _ _ Hq Hi Hr) as (s1 & Hi1 & Hr1).
  destruct Hq as [_ Heq]. rewrite <-Heq in Hr1 |- *. by apply (IH s1).
Qed.

End tasks.
