(* ===== verification/ThreadsExamples.v ===== *)
(** * Interleavings of concrete orders

    Two orders of one user that are verified at the same time: the schedules on
    which the theorems of [ThreadsProps.v] are applied, and one on which both
    orders are accepted although they use the same nonce. *)

From Stdlib Require Import Sorted.
From S2P Require Import Prelude Ray Orders Samples Accounts AccountsProps Threads ThreadsProps.
Open Scope Z_scope.

Section examples.
#[local] Existing Instance arith_Z.
#[local] Existing Instance sample_hasher.
#[local] Existing Instance insertion_sort.

Definition sample_job (hash : B256) : Job AllOrders :=
  {| job_order := sample_standing hash 4 const_1e27 10; job_info := sample_info; job_block := 1;
     job_reval := false; job_rewards := fun _ _ => Ret (Ok (0, 0)) |}.

Section schedules.
(** What the user approved; the orders are over 100 each. *)
Context (approval : nat).

(** The tasks named by the schedule make their next access, one after the other. *)
Fixpoint run_schedule (schedule : list nat) (sh : Shared AllOrders) : option (Shared AllOrders) :=
  match schedule with
  | [] => Some sh
  | i :: schedule =>
      '(j, s) ← shared_tasks sh !! i;
      match advance (SF := sample_chain approval) j s (shared_accounts sh) with
      | Ret (ua, s) => run_schedule schedule
          {| shared_accounts := ua; shared_tasks := <[i := (j, s)]> (shared_tasks sh) |}
      | Panic => None
      end
  end.

Lemma run_schedule_steps schedule sh sh' : run_schedule schedule sh = Some sh' ->
  rtc shared_step sh sh'.
Proof.
  revert sh. induction schedule as [|i schedule IH]; intros [ua ts] Hrun; cbn [run_schedule] in Hrun.
  { by injection Hrun as ->. }
  apply bind_Some in Hrun as ([j s] & Hi & Hrun). cbn [shared_tasks shared_accounts] in *.
  destruct (advance (SF := sample_chain approval) j s ua) as [[ua' s']|] eqn:Ha; [|done].
  eapply rtc_l; [|by apply IH]. by apply (step_advance (sample_chain approval) ua ts i j s).
Qed.

Lemma run_schedule_quiet i sh sh' : run_schedule [i] sh = Some sh' ->
  shared_accounts sh' = shared_accounts sh -> quiet_step sh sh'.
Proof.
  intros Hrun Heq. split; [|done]. destruct sh as [ua ts]. cbn [run_schedule] in Hrun.
  apply bind_Some in Hrun as ([j s] & Hi & Hrun). cbn [shared_tasks shared_accounts] in *.
  destruct (advance (SF := sample_chain approval) j s ua) as [[ua' s']|] eqn:Ha; [|done].
  injection Hrun as <-. by apply (step_advance (sample_chain approval) ua ts i j s).
Qed.

(** The orders 7 and 8 of user 4 have arrived. *)
Definition two_orders : Shared AllOrders :=
  {| shared_accounts := new_accounts;
     shared_tasks := [(sample_job 7, Start); (sample_job 8, Start)] |}.

Lemma two_orders_arrive : rtc shared_step shared_start two_orders.
Proof.
  eapply rtc_l; [apply (step_arrive new_accounts [] (sample_job 7))|].
  eapply rtc_l; [apply (step_arrive new_accounts [(sample_job 7, Start)] (sample_job 8))|].
  apply rtc_refl.
Qed.

Lemma sample_job_ok hash : job_ok (sample_job hash).
Proof.
  split; [|split; [|split; [done|by eexists]]].
  - split; [vm_compute; split; discriminate|]. split; [vm_compute; split; discriminate|].
    intros lp [= <-]. vm_compute. discriminate.
  - eexists. split; [reflexivity|]. by vm_compute.
Qed.

Lemma scheduled_arrived schedule sh : run_schedule schedule two_orders = Some sh ->
  Forall job_ok (arrived sh).
Proof.
  assert (forall sh0, run_schedule schedule sh0 = Some sh -> arrived sh = arrived sh0) as H.
  { induction schedule as [|i schedule IH]; intros [ua ts] Hrun; cbn [run_schedule] in Hrun.
    { by injection Hrun as ->. }
    apply bind_Some in Hrun as ([j s] & Hi & Hrun). cbn [shared_tasks shared_accounts] in *.
    destruct (advance (SF := sample_chain approval) j s ua) as [[ua' s']|]; [|done]. rewrite (IH _ Hrun). unfold arrived.
    cbn. rewrite list_fmap_insert. apply list_insert_id. by rewrite list_lookup_fmap, Hi. }
  intros Hrun. rewrite (H _ Hrun). repeat apply Forall_cons_2; try apply sample_job_ok. apply Forall_nil_2.
Qed.

End schedules.

(** Both orders look for conflicts before either of them has made its
    reservation. *)
Definition racing : list nat := concat (repeat [0%nat; 1%nat] 10).

Definition answered (sh : Shared AllOrders) : list (option (B256 * bool * list B256)) :=
  (fun t => match snd t with
            | Finished (Ok st) => Some (order_hash (order st),
                bool_decide (is_currently_valid st = None), invalidates st)
            | _ => None
            end) <$> shared_tasks sh.

(** Two orders of a user with the same nonce, verified at the same time, are both
    accepted, neither reports the other, and the book then uses the nonce twice. *)
Lemma nonce_used_twice : exists sh, rtc shared_step shared_start sh /\ Forall job_ok (arrived sh) /\
  answered sh = [Some (7, true, []); Some (8, true, [])] /\
  nonces (book_of (shared_accounts sh) 4) = [1; 1].
Proof.
  destruct (run_schedule 500 racing two_orders) as [sh|] eqn:E; [|by vm_compute in E].
  exists sh. split; [|split; [|split]].
  - etrans; [apply two_orders_arrive|]. by apply (run_schedule_steps 500 racing).
  - by apply (scheduled_arrived 500 racing).
  - vm_compute in E. injection E as <-. vm_compute. reflexivity.
  - vm_compute in E. injection E as <-. vm_compute. reflexivity.
Qed.

Lemma tasks_keep_accounts_witness :
  match run_schedule 150 racing two_orders with
  | Some sh => accounts_filed (shared_accounts sh) /\ funds_ok (shared_accounts sh)
  | None => False
  end.
Proof.
  destruct (run_schedule 150 racing two_orders) as [sh|] eqn:E; [|by vm_compute in E].
  apply (tasks_keep_accounts sh); [|by apply (scheduled_arrived 150 racing)].
  etrans; [apply two_orders_arrive|]. by apply (run_schedule_steps 150 racing).
Defined.

Lemma tasks_never_panic_witness :
  match run_schedule 150 racing two_orders with
  | Some sh => exists j s ua' s', shared_tasks sh !! 1%nat = Some (j, s) /\
      advance (SF := sample_chain 150) j s (shared_accounts sh) = Ret (ua', s')
  | None => False
  end.
Proof.
  destruct (run_schedule 150 racing two_orders) as [sh|] eqn:E; [|by vm_compute in E].
  destruct (shared_tasks sh !! 1%nat) as [[j s]|] eqn:Ei;
    [|vm_compute in E; injection E as <-; by vm_compute in Ei].
  destruct (tasks_never_panic sh (sample_chain 150) 1 j s) as (ua' & s' & Ha);
    [|by apply (scheduled_arrived 150 racing)|exact Ei|exists j, s, ua', s'; exact (conj eq_refl Ha)].
  etrans; [apply two_orders_arrive|]. by apply (run_schedule_steps 150 racing).
Defined.

Lemma verify_order_alone_witness :
  run_alone (SF := sample_chain 150) 11 (sample_job 7) Start new_accounts =
    '(ua', r) ← verify_order (H0 := sample_chain 150) new_accounts (job_order (sample_job 7)) sample_info 1 false
      (job_rewards (sample_job 7));
    Ret (ua', Finished r).
Proof. apply (verify_order_alone (SF := sample_chain 150) (sample_job 7) new_accounts 11). vm_compute. lia. Defined.

End examples.
