(* ===== verification/Fetch.v ===== *)
(** * The state of the chain

    The model of [order/state/db_state_utils] ([mod.rs], [nonces.rs],
    [balances.rs], [approvals.rs], [finders.rs]) and of [order/state/config.rs] of
    [crates/validation]: the storage slots that nonces, balances and approvals are
    read from, the search for the slot of a token, and [FetchUtils], which the
    accounts read the chain through.  The database and the EVM are outside the
    repository: the class [EvmLib]. *)

From S2P Require Import Prelude.
Open Scope Z_scope.

(** Keccak over bytes, the database, and the calls of a token in the EVM with some
    of its storage replaced, from the address of the caller: a panic where the
    code unwraps what the EVM returns, an error where it reports one. *)
Class EvmLib : Type := {
  keccak256 : list Z -> B256;
  storage_ref : Address -> U256 -> result U256 string;
  load_account : Address -> result unit string;
  balance_of_call : Address -> gmap U256 U256 -> Address -> outcome (result U256 string);
  allowance_call : Address -> gmap U256 U256 -> Address -> Address -> outcome (result U256 string);
  keccak256_word : forall bytes, 0 <= keccak256 bytes <= u256_max;
  storage_ref_word : forall a slot w, storage_ref a slot = Ok w -> 0 <= w <= u256_max
}.

(** [Result::ok]. *)
Definition ok {A E} (r : result A E) : option A :=
  match r with Ok a => Some a | Err _ => None end.

(** An address in a word of its own. *)
Definition address_word (a : Address) : list Z := repeat 0 12 ++ to_be_bytes 20 a.

Section fetch.
Context `{EL : EvmLib}.

(** ** Nonces *)

Definition ANGSTROM_NONCE_SLOT_CONST : list Z := [0xda; 0xa0; 0x50; 0xe9].

(** The array that [Nonces::get_nonce_word_slot] hashes. *)
Definition nonce_word_bytes (user : Address) (nonce : u64) : list Z :=
  to_be_bytes 20 user ++ ANGSTROM_NONCE_SLOT_CONST ++ take 7 (to_be_bytes 8 nonce).

Definition get_nonce_word_slot (user : Address) (nonce : u64) : B256 :=
  keccak256 (nonce_word_bytes user nonce).

(** [Nonces::is_valid_nonce]; [nonce as u8] keeps the low byte. *)
Definition nonce_is_valid (angstrom_address user : Address) (nonce : u64) : outcome bool :=
  word ← unwrap (ok (storage_ref angstrom_address (get_nonce_word_slot user nonce)));
  let flag := Z.shiftl 1 (nonce mod 256) in
  Ret (Z.land (Z.lxor word flag) flag =? flag).

(** ** Slots *)

Inductive HashMethod := Solidity | Vyper.
Definition is_solidity (m : HashMethod) : bool := match m with Solidity => true | Vyper => false end.

Record TokenBalanceSlot := {
  bs_token : Address;
  bs_hash_method : HashMethod;
  bs_slot_index : Z
}.

Record TokenApprovalSlot := {
  as_token : Address;
  as_hash_method : HashMethod;
  as_slot_index : Z
}.

Definition new_balance_slot (token : Address) (slot_index : Z) : TokenBalanceSlot :=
  {| bs_token := token; bs_hash_method := Solidity; bs_slot_index := slot_index |}.
Definition new_approval_slot (token : Address) (slot_index : Z) : TokenApprovalSlot :=
  {| as_token := token; as_hash_method := Solidity; as_slot_index := slot_index |}.

Definition unsupported : string := "current type of contract hashing is not supported".

Definition generate_balance_slot (s : TokenBalanceSlot) (owner : Address) : result U256 string :=
  if negb (is_solidity (bs_hash_method s)) then Err unsupported
  else Ok (keccak256 (address_word owner ++ repeat 0 31 ++ [bs_slot_index s])).

Definition load_balance (s : TokenBalanceSlot) (owner : Address) : result U256 string :=
  match generate_balance_slot s owner with
  | Err e => Err e
  | Ok slot =>
      match storage_ref (bs_token s) slot with
      | Ok w => Ok w
      | Err _ => Err "failed to load balance slot"%string
      end
  end.

Definition generate_approval_slot (s : TokenApprovalSlot) (user contract : Address) : result U256 string :=
  if negb (is_solidity (as_hash_method s)) then Err unsupported
  else
    let inner_hash := keccak256 (address_word user ++ repeat 0 31 ++ [as_slot_index s]) in
    Ok (keccak256 (address_word contract ++ to_be_bytes 32 inner_hash)).

Definition load_approval_amount (s : TokenApprovalSlot) (user contract : Address) : result U256 string :=
  if negb (is_solidity (as_hash_method s)) then Err unsupported
  else
    match generate_approval_slot s user contract with
    | Err e => Err e
    | Ok slot =>
        match storage_ref (as_token s) slot with
        | Ok w => Ok w
        | Err _ => Err "failed to load approval slot"%string
        end
    end.

(** ** The search for the slot of a token *)

Definition probe_value : U256 := 123456789.

(** [(probe, offset as u64).abi_encode()] and the slots that are probed. *)
Definition probe_balance_slot (probe : Address) (offset : u64) : U256 :=
  keccak256 (address_word probe ++ to_be_bytes 32 offset).
Definition probe_approval_slot (user contract : Address) (offset : u64) : U256 :=
  keccak256 (address_word contract ++
    to_be_bytes 32 (keccak256 (address_word user ++ to_be_bytes 32 offset))).

(** The rest of the loop of [find_slot_offset_for_balance]: the values written for
    the offsets before stay in the database. *)
Fixpoint find_balance_from (token probe : Address) (written : gmap U256 U256) (offsets : list u64)
    : outcome (result u64 string) :=
  match offsets with
  | [] => Ret (Err "was not able to find balance offset"%string)
  | offset :: offsets =>
      match load_account token with
      | Err e => Ret (Err e)
      | Ok _ =>
          let written := <[probe_balance_slot probe offset := probe_value]> written in
          returned ← balance_of_call token written probe;
          match returned with
          | Err e => Ret (Err e)
          | Ok v => if v =? probe_value then Ret (Ok offset)
                    else find_balance_from token probe written offsets
          end
      end
  end.

(** The loop of [find_slot_offset_for_approval], which unwraps the write. *)
Fixpoint find_approval_from (token probe_user probe_contract : Address) (written : gmap U256 U256)
    (offsets : list u64) : outcome (result u64 string) :=
  match offsets with
  | [] => Ret (Err "was not able to find approval offset"%string)
  | offset :: offsets =>
      _ ← unwrap (ok (load_account token));
      let written := <[probe_approval_slot probe_user probe_contract offset := probe_value]> written in
      returned ← allowance_call token written probe_user probe_contract;
      match returned with
      | Err e => Ret (Err e)
      | Ok v => if v =? probe_value then Ret (Ok offset)
                else find_approval_from token probe_user probe_contract written offsets
      end
  end.

(** The first 100 offsets. *)
Definition probe_offsets : list u64 := Z.of_nat <$> seq 0 100.

Definition find_slot_offset_for_balance (token probe : Address) : outcome (result u64 string) :=
  find_balance_from token probe ∅ probe_offsets.
Definition find_slot_offset_for_approval (token probe_user probe_contract : Address)
    : outcome (result u64 string) :=
  find_approval_from token probe_user probe_contract ∅ probe_offsets.

(** ** Balances *)

Record Balances := {
  tokens : gmap Address TokenBalanceSlot;
  bal_angstrom : Address
}.

(** The slot of the token, which is looked for when it is not known yet;
    [probe] is the random address of the search. *)
Definition balance_slot_of (b : Balances) (token probe : Address)
    : outcome (Balances * result TokenBalanceSlot string) :=
  match tokens b !! token with
  | Some slot => Ret (b, Ok slot)
  | None =>
      found ← find_slot_offset_for_balance token probe;
      Ret (match found with
           | Err e => (b, Err e)
           | Ok offset =>
               let slot := new_balance_slot token (offset mod 256) in
               ({| tokens := <[token := slot]> (tokens b); bal_angstrom := bal_angstrom b |}, Ok slot)
           end)
  end.

Definition balances_fetch (b : Balances) (user token probe : Address)
    : outcome (Balances * result U256 string) :=
  '(b, slot) ← balance_slot_of b token probe;
  Ret (b, match slot with
          | Err e => Err e
          | Ok slot => Ok (default 0 (ok (load_balance slot user)))
          end).

Abbreviation Overrides := (gmap Address (gmap U256 U256)) (only parsing).

(** The value of a slot, an override first. *)
Definition read_with_overrides (overrides : Overrides) (token : Address) (slot : U256) : option U256 :=
  match overrides !! token ≫= fun slots => slots !! slot with
  | Some s_override => Some s_override
  | None => ok (storage_ref token slot)
  end.

Definition balances_fetch_overrides (b : Balances) (user token probe : Address) (overrides : Overrides)
    : outcome (Balances * result (option U256) string) :=
  '(b, slot) ← balance_slot_of b token probe;
  Ret (b, match slot with
          | Err e => Err e
          | Ok slot => Ok (slot_addr ← ok (generate_balance_slot slot user);
                           read_with_overrides overrides token slot_addr)
          end).

Definition ANGSTROM_BALANCE_SLOT_OFFSET : Z := 5.

(** [Balances::fetch_balance_in_angstrom]. *)
Definition fetch_balance_in_angstrom (angstrom_address user token : Address) : U256 :=
  let token_slot := keccak256 (address_word token ++ to_be_bytes 32 ANGSTROM_BALANCE_SLOT_OFFSET) in
  let final_slot := keccak256 (address_word user ++ to_be_bytes 32 token_slot) in
  default 0 (ok (storage_ref angstrom_address final_slot)).

(** ** Approvals *)

Record Approvals := {
  app_angstrom : Address;
  slots : gmap Address TokenApprovalSlot
}.

Definition approval_slot_of (a : Approvals) (token probe_user probe_contract : Address)
    : outcome (Approvals * result TokenApprovalSlot string) :=
  match slots a !! token with
  | Some slot => Ret (a, Ok slot)
  | None =>
      found ← find_slot_offset_for_approval token probe_user probe_contract;
      Ret (match found with
           | Err e => (a, Err e)
           | Ok offset =>
               let slot := new_approval_slot token (offset mod 256) in
               ({| app_angstrom := app_angstrom a; slots := <[token := slot]> (slots a) |}, Ok slot)
           end)
  end.

Definition approvals_fetch (a : Approvals) (user token probe_user probe_contract : Address)
    : outcome (Approvals * result (option U256) string) :=
  '(a, slot) ← approval_slot_of a token probe_user probe_contract;
  Ret (a, match slot with
          | Err e => Err e
          | Ok slot => Ok (ok (load_approval_amount slot user (app_angstrom a)))
          end).

Definition approvals_fetch_overrides (a : Approvals) (user token probe_user probe_contract : Address)
    (overrides : Overrides) : outcome (Approvals * result (option U256) string) :=
  '(a, slot) ← approval_slot_of a token probe_user probe_contract;
  Ret (a, match slot with
          | Err e => Err e
          | Ok slot => Ok (slot_addr ← ok (generate_approval_slot slot user (app_angstrom a));
                           read_with_overrides overrides token slot_addr)
          end).

(** ** [FetchUtils] *)

Record FetchUtils := {
  approvals : Approvals;
  balances : Balances;
  nonces_of : Address
}.

(** [FetchUtils::new]. *)
Definition new_fetch (angstrom_address : Address) : FetchUtils :=
  {| approvals := {| app_angstrom := angstrom_address; slots := ∅ |};
     balances := {| tokens := ∅; bal_angstrom := angstrom_address |};
     nonces_of := angstrom_address |}.

(** The methods of [StateFetchUtils] for [FetchUtils]; the random addresses of a
    search are arguments. *)
Definition fetch_is_valid_nonce (fu : FetchUtils) (user : Address) (nonce : u64)
    : outcome (result bool string) :=
  valid ← nonce_is_valid (nonces_of fu) user nonce;
  Ret (Ok valid).

Definition fetch_approval (fu : FetchUtils) (user token probe_user probe_contract : Address)
    : outcome (FetchUtils * result (option U256) string) :=
  '(a, r) ← approvals_fetch (approvals fu) user token probe_user probe_contract;
  Ret ({| approvals := a; balances := balances fu; nonces_of := nonces_of fu |}, r).

Definition fetch_balance (fu : FetchUtils) (user token probe : Address)
    : outcome (FetchUtils * result U256 string) :=
  '(b, r) ← balances_fetch (balances fu) user token probe;
  Ret ({| approvals := approvals fu; balances := b; nonces_of := nonces_of fu |}, r).

Definition fetch_angstrom (fu : FetchUtils) (user token : Address) : result U256 string :=
  Ok (fetch_balance_in_angstrom (bal_angstrom (balances fu)) user token).
End fetch.
