(* ===== verification/FetchProps.v ===== *)
(** * What is read from the chain

    The theorems on [Fetch.v]: a nonce is valid exactly when its bit is not set, and
    different nonces have different bits; the slot of a token with Solidity
    mappings is found, and what is then read for a user is what the token itself
    reports; [FetchUtils] keeps the promises that the accounts rely on. *)

From S2P Require Import Prelude Ray Orders Accounts Fetch.
Open Scope Z_scope.

Section bytes.

Lemma to_be_bytes_inj n a b : 0 <= a < 2 ^ (8 * Z.of_nat n) -> 0 <= b < 2 ^ (8 * Z.of_nat n) ->
  to_be_bytes n a = to_be_bytes n b -> a = b.
Proof.
  intros Ha Hb E. apply (f_equal from_be) in E. rewrite !from_to_bytes, !Z.mod_small in E by done. done.
Qed.

Lemma to_be_bytes_zero n : to_be_bytes n 0 = repeat 0 n.
Proof.
  induction n as [|n IH]; [done|]. cbn [to_be_bytes]. rewrite Z.div_0_l, Z.mod_0_l, IH by done.
  by rewrite <-repeat_cons.
Qed.

(** The word of a number below 256. *)
Lemma to_be_bytes_low n v : 0 <= v < 256 -> to_be_bytes (S n) v = repeat 0 n ++ [v].
Proof.
  intros Hv. cbn [to_be_bytes]. by rewrite Z.div_small, Z.mod_small, to_be_bytes_zero.
Qed.
End bytes.

Section props.
Context `{EL : EvmLib}.

(** ** Nonces *)

Lemma flag_unset w k : 0 <= k ->
  (Z.land (Z.lxor w (Z.shiftl 1 k)) (Z.shiftl 1 k) =? Z.shiftl 1 k) = negb (Z.testbit w k).
Proof.
  intros Hk. rewrite Z.shiftl_1_l.
  assert (Z.land (Z.lxor w (2 ^ k)) (2 ^ k) = if Z.testbit w k then 0 else 2 ^ k) as ->.
  { apply Z.bits_inj'. intros n Hn. rewrite Z.land_spec, Z.lxor_spec, Z.pow2_bits_eqb by done.
    destruct (Z.eqb_spec k n) as [->|Hne].
    - destruct (Z.testbit w n); cbn; [by rewrite Z.bits_0|]. by rewrite Z.pow2_bits_true.
    - rewrite andb_false_r. destruct (Z.testbit w k); [by rewrite Z.bits_0|].
      by rewrite Z.pow2_bits_false. }
  pose proof (Z.pow_pos_nonneg 2 k ltac:(lia) Hk).
  destruct (Z.testbit w k); cbn [negb]; [apply Z.eqb_neq; lia|apply Z.eqb_refl].
Qed.

(** A nonce is valid exactly when its bit of the word in storage is not set. *)
Lemma nonce_valid_iff angstrom user nonce valid :
  nonce_is_valid angstrom user nonce = Ret valid <->
  exists word, storage_ref angstrom (get_nonce_word_slot user nonce) = Ok word /\
    valid = negb (Z.testbit word (nonce mod 256)).
Proof.
  unfold nonce_is_valid. pose proof (Z.mod_pos_bound nonce 256 ltac:(lia)).
  destruct (storage_ref _ _) as [w|e]; cbn [ok unwrap mbind outcome_bind].
  - rewrite flag_unset by lia. split; [intros [= <-]; eauto|]. by intros (w' & [= <-] & ->).
  - split; [done|]. by intros (w & [=] & _).
Qed.

Lemma nonce_word_nonce user nonce : nonce_word_bytes user nonce =
  to_be_bytes 20 user ++ ANGSTROM_NONCE_SLOT_CONST ++ to_be_bytes 7 (nonce / 256).
Proof.
  unfold nonce_word_bytes. change (to_be_bytes 8 nonce) with (to_be_bytes 7 (nonce / 256) ++ [nonce mod 256]).
  rewrite take_app_le by (by rewrite to_be_bytes_length). by rewrite take_ge by (by rewrite to_be_bytes_length).
Qed.

(** Different nonces, of one user or of two, are kept in different bits: the
    bytes that are hashed and the position of the bit determine user and nonce. *)
Lemma nonce_bits_distinct user user' nonce nonce' :
  0 <= user < 2 ^ 160 -> 0 <= user' < 2 ^ 160 -> 0 <= nonce <= u64_max -> 0 <= nonce' <= u64_max ->
  nonce_word_bytes user nonce = nonce_word_bytes user' nonce' -> nonce mod 256 = nonce' mod 256 ->
  user = user' /\ nonce = nonce'.
Proof.
  intros Hu Hu' Hn Hn' E Hmod. rewrite !nonce_word_nonce in E.
  apply app_inj_1 in E as [Eu E]; [|by rewrite !to_be_bytes_length].
  apply app_inv_head in E. apply to_be_bytes_inj in Eu; [|done..].
  unfold u64_max in *. apply to_be_bytes_inj in E.
  - split; [done|]. rewrite (Z.div_mod nonce 256), (Z.div_mod nonce' 256) by lia. lia.
  - split; [apply Z.div_pos; lia|]. apply Z.div_lt_upper_bound; lia.
  - split; [apply Z.div_pos; lia|]. apply Z.div_lt_upper_bound; lia.
Qed.

(** ** The slot of a token *)

(** The word of a slot with some of the storage replaced. *)
Definition slot_with (token : Address) (written : gmap U256 U256) (slot : U256) : result U256 string :=
  match written !! slot with Some v => Ok v | None => storage_ref token slot end.

(** The token keeps balances, or allowances, in a Solidity mapping at [offset] and
    answers from it. *)
Definition solidity_balances (token : Address) (offset : u64) : Prop :=
  forall written who, balance_of_call token written who =
    Ret (slot_with token written (probe_balance_slot who offset)).
Definition solidity_allowances (token : Address) (offset : u64) : Prop :=
  forall written who spender, allowance_call token written who spender =
    Ret (slot_with token written (probe_approval_slot who spender offset)).

Lemma probe_offsets_lookup (i : nat) : (i < 100)%nat -> probe_offsets !! i = Some (Z.of_nat i).
Proof. intros Hi. unfold probe_offsets. rewrite list_lookup_fmap, lookup_seq_lt by done. done. Qed.

Section search.
Context (token : Address) (loads : load_account token = Ok tt).

(** The search from offset [i] on, when no slot that was written is the right
    one. *)
Lemma find_balance_ends probe (n : nat) v :
  solidity_balances token (Z.of_nat n) ->
  (forall o : nat, (o < n)%nat -> probe_balance_slot probe (Z.of_nat o) <> probe_balance_slot probe (Z.of_nat n)) ->
  storage_ref token (probe_balance_slot probe (Z.of_nat n)) = Ok v -> v <> probe_value ->
  forall k i written, (i + k = n)%nat -> written !! probe_balance_slot probe (Z.of_nat n) = None ->
  forall m, (k < m)%nat ->
    find_balance_from token probe written (Z.of_nat <$> seq i m) = Ret (Ok (Z.of_nat n)).
Proof.
  intros Hsol Hdist Hv Hne k. induction k as [|k IH]; intros i written Hi Hw [|m] Hm; try lia;
    cbn [seq fmap list_fmap find_balance_from]; rewrite loads, Hsol; cbn [mbind outcome_bind].
  - replace i with n by lia. unfold slot_with. by rewrite lookup_insert_eq.
  - unfold slot_with. rewrite lookup_insert_ne by (apply Hdist; lia). rewrite Hw, Hv.
    rewrite (proj2 (Z.eqb_neq _ _)) by done. apply IH; [lia| |lia].
    by rewrite lookup_insert_ne by (apply Hdist; lia).
Qed.

Lemma find_approval_ends user contract (n : nat) v :
  solidity_allowances token (Z.of_nat n) ->
  (forall o : nat, (o < n)%nat ->
    probe_approval_slot user contract (Z.of_nat o) <> probe_approval_slot user contract (Z.of_nat n)) ->
  storage_ref token (probe_approval_slot user contract (Z.of_nat n)) = Ok v -> v <> probe_value ->
  forall k i written, (i + k = n)%nat -> written !! probe_approval_slot user contract (Z.of_nat n) = None ->
  forall m, (k < m)%nat ->
    find_approval_from token user contract written (Z.of_nat <$> seq i m) = Ret (Ok (Z.of_nat n)).
Proof.
  intros Hsol Hdist Hv Hne k. induction k as [|k IH]; intros i written Hi Hw [|m] Hm; try lia;
    cbn [seq fmap list_fmap find_approval_from]; rewrite loads; cbn [ok unwrap mbind outcome_bind];
    rewrite Hsol; cbn [mbind outcome_bind].
  - replace i with n by lia. unfold slot_with. by rewrite lookup_insert_eq.
  - unfold slot_with. rewrite lookup_insert_ne by (apply Hdist; lia). rewrite Hw, Hv.
    rewrite (proj2 (Z.eqb_neq _ _)) by done. apply IH; [lia| |lia].
    by rewrite lookup_insert_ne by (apply Hdist; lia).
Qed.
End search.

(** ** What is read for a user *)

(** The slot of a user in a found mapping is the one that was probed. *)
Lemma generated_balance_slot token offset user : 0 <= offset < 256 ->
  generate_balance_slot (new_balance_slot token offset) user = Ok (probe_balance_slot user offset).
Proof.
  intros Ho. unfold generate_balance_slot, probe_balance_slot. cbn [bs_hash_method new_balance_slot is_solidity negb].
  by rewrite (to_be_bytes_low 31) by done.
Qed.

Lemma generated_approval_slot token offset user contract : 0 <= offset < 256 ->
  generate_approval_slot (new_approval_slot token offset) user contract =
    Ok (probe_approval_slot user contract offset).
Proof.
  intros Ho. unfold generate_approval_slot, probe_approval_slot.
  cbn [as_hash_method new_approval_slot is_solidity negb as_slot_index].
  by rewrite (to_be_bytes_low 31 offset) by done.
Qed.

(** The cached slots of a token are those of its mappings. *)
Definition balance_cache_ok (token : Address) (b : Balances) : Prop :=
  forall slot, tokens b !! token = Some slot -> exists offset, 0 <= offset < 100 /\
    slot = new_balance_slot token offset /\ solidity_balances token offset.
Definition approval_cache_ok (token : Address) (a : Approvals) : Prop :=
  forall slot, slots a !! token = Some slot -> exists offset, 0 <= offset < 100 /\
    slot = new_approval_slot token offset /\ solidity_allowances token offset.

Definition caches_ok (token : Address) (fu : FetchUtils) : Prop :=
  balance_cache_ok token (balances fu) /\ approval_cache_ok token (approvals fu).

(** The random addresses of the search meet no collision: the slots probed before
    the right one are others, and the right one does not hold the value that is
    looked for. *)
Definition good_probe (token : Address) (slot_at : u64 -> U256) (n : nat) : Prop :=
  (forall o : nat, (o < n)%nat -> slot_at (Z.of_nat o) <> slot_at (Z.of_nat n)) /\
  exists v, storage_ref token (slot_at (Z.of_nat n)) = Ok v /\ v <> probe_value.

(** What the search relies on, as [finders.rs] says of the tokens: the token can be
    loaded and keeps its balances and its allowances unpacked in Solidity mappings
    among its first 100 slots; and the random addresses meet no collision. *)
Record supported (token probe probe_user probe_contract : Address) : Prop := {
  sup_loads : load_account token = Ok tt;
  sup_balances : exists n, (n < 100)%nat /\ solidity_balances token (Z.of_nat n) /\
    good_probe token (probe_balance_slot probe) n;
  sup_allowances : exists n, (n < 100)%nat /\ solidity_allowances token (Z.of_nat n) /\
    good_probe token (probe_approval_slot probe_user probe_contract) n
}.

Lemma balance_slot_found b token probe u c : balance_cache_ok token b -> supported token probe u c ->
  exists b' offset, balance_slot_of b token probe = Ret (b', Ok (new_balance_slot token offset)) /\
    bal_angstrom b' = bal_angstrom b /\ balance_cache_ok token b' /\ 0 <= offset < 100 /\
    solidity_balances token offset.
Proof.
  intros Hc [Hl (n & Hn & Hsol & Hd & v & Hv & Hne) _]. unfold balance_slot_of.
  destruct (tokens b !! token) as [slot|] eqn:Et.
  - destruct (Hc _ Et) as (o & Ho & -> & Hs). eauto 10.
  - assert (find_slot_offset_for_balance token probe = Ret (Ok (Z.of_nat n))) as ->
      by (apply (find_balance_ends token Hl probe n v Hsol Hd Hv Hne n 0); [lia|done|lia]).
    cbn. rewrite Z.mod_small by lia. eexists _, (Z.of_nat n). split; [done|]. split; [done|].
    split; [|split; [lia|done]]. intros slot. cbn. rewrite lookup_insert_eq. intros [= <-].
    exists (Z.of_nat n). split; [lia|done].
Qed.

Lemma approval_slot_found a token p probe_user probe_contract : approval_cache_ok token a ->
  supported token p probe_user probe_contract ->
  exists a' offset,
    approval_slot_of a token probe_user probe_contract = Ret (a', Ok (new_approval_slot token offset)) /\
    app_angstrom a' = app_angstrom a /\ approval_cache_ok token a' /\ 0 <= offset < 100 /\
    solidity_allowances token offset.
Proof.
  intros Hc [Hl _ (n & Hn & Hsol & Hd & v & Hv & Hne)]. unfold approval_slot_of.
  destruct (slots a !! token) as [slot|] eqn:Et.
  - destruct (Hc _ Et) as (o & Ho & -> & Hs). eauto 10.
  - assert (find_slot_offset_for_approval token probe_user probe_contract = Ret (Ok (Z.of_nat n))) as ->
      by (apply (find_approval_ends token Hl probe_user probe_contract n v Hsol Hd Hv Hne n 0); [lia|done|lia]).
    cbn. rewrite Z.mod_small by lia. eexists _, (Z.of_nat n). split; [done|]. split; [done|].
    split; [|split; [lia|done]]. intros slot. cbn. rewrite lookup_insert_eq. intros [= <-].
    exists (Z.of_nat n). split; [lia|done].
Qed.

Lemma balance_reported b user token probe u c : balance_cache_ok token b -> supported token probe u c ->
  exists b' v, balances_fetch b user token probe = Ret (b', Ok v) /\ bal_angstrom b' = bal_angstrom b /\
    balance_cache_ok token b' /\ forall w, balance_of_call token ∅ user = Ret (Ok w) -> v = w.
Proof.
  intros Hc Hs. destruct (balance_slot_found b token probe u c Hc Hs) as (b' & o & Hf & Ha & Hc' & Ho & Hsol).
  unfold balances_fetch. rewrite Hf. cbn [mbind outcome_bind]. eexists b', _. split; [done|].
  split; [done|]. split; [done|]. intros w. rewrite Hsol. unfold slot_with, load_balance.
  rewrite generated_balance_slot, lookup_empty by lia. cbn [bs_token new_balance_slot].
  by intros [= ->].
Qed.

Lemma approval_reported a user token p probe_user probe_contract : approval_cache_ok token a ->
  supported token p probe_user probe_contract ->
  exists a' v, approvals_fetch a user token probe_user probe_contract = Ret (a', Ok v) /\
    app_angstrom a' = app_angstrom a /\ approval_cache_ok token a' /\
    forall w, allowance_call token ∅ user (app_angstrom a) = Ret (Ok w) -> v = Some w.
Proof.
  intros Hc Hs. destruct (approval_slot_found a token p probe_user probe_contract Hc Hs)
    as (a' & o & Hf & Ha & Hc' & Ho & Hsol).
  unfold approvals_fetch. rewrite Hf. cbn [mbind outcome_bind]. eexists a', _. split; [done|].
  split; [done|]. split; [done|]. intros w. rewrite Hsol, Ha. unfold slot_with, load_approval_amount.
  cbn [as_hash_method new_approval_slot is_solidity negb]. fold (new_approval_slot token o).
  rewrite generated_approval_slot, lookup_empty by lia. cbn [as_token new_approval_slot].
  by intros [= ->].
Qed.

(** The ways in which the caches come about: fetches of any tokens, those of
    [token] with random addresses that meet no collision. *)
Inductive fetched (token : Address) : FetchUtils -> Prop :=
| fetched_new angstrom : fetched token (new_fetch angstrom)
| fetched_balance fu user t p fu' r : fetched token fu -> (t = token -> exists u c, supported token p u c) ->
    fetch_balance fu user t p = Ret (fu', r) -> fetched token fu'
| fetched_approval fu user t u c fu' r : fetched token fu -> (t = token -> exists p, supported token p u c) ->
    fetch_approval fu user t u c = Ret (fu', r) -> fetched token fu'.

Lemma balance_slot_other b t p b' r token : balance_slot_of b t p = Ret (b', r) -> t <> token ->
  tokens b' !! token = tokens b !! token.
Proof.
  unfold balance_slot_of. destruct (tokens b !! t); [by intros [= <- _]|].
  intros ([o|e] & _ & H)%bind_Ret Hne; injection H as <- _; [|done]. by apply lookup_insert_ne.
Qed.

Lemma approval_slot_other a t u c a' r token : approval_slot_of a t u c = Ret (a', r) -> t <> token ->
  slots a' !! token = slots a !! token.
Proof.
  unfold approval_slot_of. destruct (slots a !! t); [by intros [= <- _]|].
  intros ([o|e] & _ & H)%bind_Ret Hne; injection H as <- _; [|done]. by apply lookup_insert_ne.
Qed.

Lemma fetched_caches token fu : fetched token fu -> caches_ok token fu.
Proof.
  induction 1 as [angstrom|fu user t p fu' r _ [Hb Ha] Hs H|fu user t u c fu' r _ [Hb Ha] Hs H].
  - split; intros slot; cbn; by rewrite lookup_empty.
  - apply bind_Ret in H as ([b' r'] & H & [= <- _]). apply bind_Ret in H as ([b1 slot] & H & [= <- _]). split; [cbn|done].
    destruct (decide (t = token)) as [->|Hne].
    + destruct (Hs eq_refl) as (u & c & Hsup).
      destruct (balance_slot_found _ token p u c Hb Hsup) as (b2 & o & Hf & _ & Hc & _). rewrite H in Hf. by injection Hf as <- _.
    + intros s. rewrite (balance_slot_other _ _ _ _ _ _ H Hne). apply Hb.
  - apply bind_Ret in H as ([a' r'] & H & [= <- _]). apply bind_Ret in H as ([a1 slot] & H & [= <- _]). split; [done|cbn].
    destruct (decide (t = token)) as [->|Hne].
    + destruct (Hs eq_refl) as (p & Hsup).
      destruct (approval_slot_found _ token p u c Ha Hsup) as (a2 & o & Hf & _ & Hc & _). rewrite H in Hf. by injection Hf as <- _.
    + intros s. rewrite (approval_slot_other _ _ _ _ _ _ _ H Hne). apply Ha.
Qed.

(** ** The interface of the accounts *)

Lemma load_balance_word slot user : 0 <= default 0 (ok (load_balance slot user)) <= u256_max.
Proof.
  unfold load_balance. destruct (generate_balance_slot slot user); [|cbn; unfold u256_max; lia].
  destruct (storage_ref _ _) eqn:E; cbn; [by eapply storage_ref_word|unfold u256_max; lia].
Qed.

Lemma load_approval_word slot user contract v : ok (load_approval_amount slot user contract) = Some v ->
  0 <= v <= u256_max.
Proof.
  unfold load_approval_amount. destruct (negb _); [done|].
  destruct (generate_approval_slot _ _ _); [|done]. destruct (storage_ref _ _) eqn:E; [|done].
  intros [= <-]. by eapply storage_ref_word.
Qed.

(** What [FetchUtils] answers, whatever it does to its caches; a panic ends the
    task that asked, which is no answer either. *)
Definition answer_of {S A} (r : outcome (S * result A string)) : result A string :=
  match r with Ret (_, a) => a | Panic => Err "panicked"%string end.

(** [StateFetchUtils] for [FetchUtils]: what is read are words. *)
Definition fetch_utils (fu : FetchUtils) (probe probe_user probe_contract : Address) : StateFetchUtils.
Proof.
  refine {|
    is_valid_nonce := fun user nonce => match fetch_is_valid_nonce fu user nonce with
      | Ret r => r | Panic => Err "panicked"%string end;
    fetch_approval_balance_for_token := fun user token =>
      answer_of (fetch_approval fu user token probe_user probe_contract);
    fetch_balance_for_token := fun user token => answer_of (fetch_balance fu user token probe);
    fetch_token_balance_in_angstrom := fetch_angstrom fu
  |}.
  - intros user token v. unfold fetch_approval, approvals_fetch.
    destruct (approval_slot_of _ _ _ _) as [[a [slot|e]]|]; cbn; [|done..]. intros [= H].
    by eapply load_approval_word.
  - intros user token v. unfold fetch_balance, balances_fetch.
    destruct (balance_slot_of _ _ _) as [[b [slot|e]]|]; cbn; [|done..]. intros [= <-].
    apply load_balance_word.
  - intros user token v. unfold fetch_angstrom, fetch_balance_in_angstrom. intros [= <-].
    destruct (storage_ref _ _) eqn:E; cbn; [by eapply storage_ref_word|unfold u256_max; lia].
Defined.

(** C34. For a token that keeps its balances and its allowances unpacked in Solidity
    mappings among its first 100 slots, the accounts judge an order on what the
    token says: reading through [FetchUtils], after any fetches of any tokens, the
    state that is loaded for a user and the token holds the balance that [balanceOf]
    returns and the approval of Angstrom that [allowance] returns.  The random
    addresses of the searches for this token must not collide: the slot looked for
    is not one that was probed before and does not hold the value that is looked
    for. *)
Theorem loaded_funds_reported fu (ua : UserAccounts) user token probe probe_user probe_contract
    balance approval (Hc : fetched token fu) (Hs : supported token probe probe_user probe_contract)
    (Hb : balance_of_call token ∅ user = Ret (Ok balance))
    (Ha : allowance_call token ∅ user (app_angstrom (approvals fu)) = Ret (Ok approval)) :
  exists ua' base,
    load_state_for (H := fetch_utils fu probe probe_user probe_contract) ua user token = (ua', Ok tt) /\
    last_known_state ua' !! user = Some base /\
    base_balance base !! token = Some balance /\ base_approval base !! token = Some approval.
Proof.
  apply fetched_caches in Hc.
  destruct (balance_reported _ user token probe probe_user probe_contract (proj1 Hc) Hs)
    as (b' & v & Hf & _ & _ & Hv). destruct (approval_reported _ user token probe probe_user probe_contract
    (proj2 Hc) Hs) as (a' & v' & Hf' & _ & _ & Hv').
  rewrite (Hv _ Hb) in Hf. rewrite (Hv' _ Ha) in Hf'.
  assert (answer_of (fetch_balance fu user token probe) = Ok balance) as E1
    by (unfold fetch_balance; by rewrite Hf).
  assert (answer_of (fetch_approval fu user token probe_user probe_contract) = Ok (Some approval)) as E2
    by (unfold fetch_approval; by rewrite Hf').
  unfold load_state_for. cbn [fetch_approval_balance_for_token fetch_balance_for_token
    fetch_token_balance_in_angstrom fetch_utils]. rewrite E1, E2. cbn.
  eexists _, _. split; [done|]. cbn. rewrite lookup_insert_eq. split; [done|]. cbn.
  by rewrite !lookup_insert_eq.
Qed.
End props.

(** ** Examples *)

(** A hash that keeps the two words of its input apart, a storage of small words,
    and a token with its balances at slot 3 and its allowances at slot 4. *)
Definition sample_keccak (bytes : list Z) : B256 :=
  (1000 * from_be (take 32 bytes) + from_be (drop 32 bytes)) mod 2 ^ 256.
Definition sample_storage (_ : Address) (slot : U256) : result U256 string := Ok (slot mod 1000).
Definition sample_call (written : gmap U256 U256) (slot : U256) : outcome (result U256 string) :=
  Ret (match written !! slot with Some v => Ok v | None => sample_storage 0 slot end).

Definition sample_chain_evm : EvmLib.
Proof.
  refine {|
    keccak256 := sample_keccak;
    storage_ref := sample_storage;
    load_account := fun _ => Ok tt;
    balance_of_call := fun _ written who =>
      sample_call written (sample_keccak (address_word who ++ to_be_bytes 32 3));
    allowance_call := fun _ written who spender =>
      sample_call written (sample_keccak (address_word spender ++
        to_be_bytes 32 (sample_keccak (address_word who ++ to_be_bytes 32 4))))
  |}.
  - intros bytes. unfold sample_keccak, u256_max. pose proof (Z.mod_pos_bound
      (1000 * from_be (take 32 bytes) + from_be (drop 32 bytes)) (2 ^ 256) ltac:(lia)). lia.
  - intros a slot w [= <-]. unfold u256_max. pose proof (Z.mod_pos_bound slot 1000 ltac:(lia)). lia.
Defined.

Section examples.
#[local] Existing Instance sample_chain_evm.

Lemma sample_balances token : solidity_balances token 3.
Proof.
  intros written who. unfold slot_with, probe_balance_slot.
  cbn [keccak256 storage_ref balance_of_call sample_chain_evm]. unfold sample_call. reflexivity.
Qed.

Lemma sample_allowances token : solidity_allowances token 4.
Proof.
  intros written who spender. unfold slot_with, probe_approval_slot.
  cbn [keccak256 storage_ref allowance_call sample_chain_evm]. unfold sample_call. reflexivity.
Qed.

Lemma sample_supported token : supported token 11 12 13.
Proof.
  split; [done| |].
  - exists 3%nat. split; [lia|]. split; [exact (sample_balances token)|]. split.
    + intros [|[|[|o]]] Ho; [vm_compute; discriminate..|lia].
    + eexists. split; [reflexivity|]. vm_compute. discriminate.
  - exists 4%nat. split; [lia|]. split; [exact (sample_allowances token)|]. split.
    + intros [|[|[|[|o]]]] Ho; [vm_compute; discriminate..|lia].
    + eexists. split; [reflexivity|]. vm_compute. discriminate.
Qed.

Lemma loaded_funds_reported_witness : exists ua' base,
  load_state_for (H := fetch_utils (new_fetch 77) 11 12 13) new_accounts 5 2 = (ua', Ok tt) /\
  last_known_state ua' !! 5 = Some base /\
  base_balance base !! 2 = Some 3 /\ base_approval base !! 2 = Some 4.
Proof.
  apply (loaded_funds_reported (new_fetch 77) new_accounts 5 2 11 12 13 3 4 (fetched_new 2 77)
    (sample_supported 2)); vm_compute; reflexivity.
Defined.
End examples.
