(* ===== verification/StateValidation.v ===== *)
(** * The validation of one order

    The model of [order/state/mod.rs] and [order/state/pools/mod.rs] of
    [crates/validation] and of the pool configuration store that they read
    ([contract_payloads/angstrom/mod.rs]), of the gas of an order
    ([order/sim/mod.rs], [order/sim/gas.rs], [order/mod.rs]) and of the task that
    validates one order ([order/order_validator.rs]): the signature, the rules,
    the lookup of the pool, the accounts and the gas. *)

From S2P Require Import Prelude Ray Orders Samples Subscribers TokenPricing Rules Accounts AccountsProps.
Open Scope Z_scope.

(** ** The pool configuration store *)

Record AngPoolConfigEntry := {
  pool_partial_key : Z;
  tick_spacing : Z;
  fee_in_e6 : Z;
  store_index : Z
}.

Record PoolKey := {
  currency0 : Address;
  currency1 : Address;
  pk_fee : Z;
  tickSpacing : Z;
  pk_hooks : Address
}.

(** Keccak over the ABI encoding of a pair of addresses and of a pool key. *)
Class PoolHasher : Type := {
  keccak_pair : Address -> Address -> B256;
  keccak_pool_key : PoolKey -> PoolId
}.

(** The entries by partial key. *)
Abbreviation AngstromPoolConfigStore := (gmap Z AngPoolConfigEntry) (only parsing).

Section store.
Context `{PH : PoolHasher}.
Implicit Types (s : AngstromPoolConfigStore).

(** Bytes 5 to 32 of the hash, its low 27 bytes. *)
Definition derive_store_key asset0 asset1 : Z := keccak_pair asset0 asset1 mod 2 ^ 216.

Definition get_entry s asset0 asset1 : option AngPoolConfigEntry :=
  s !! derive_store_key asset0 asset1.

Definition new_pool s asset0 asset1 (pool : AngPoolConfigEntry) : AngstromPoolConfigStore :=
  <[derive_store_key asset0 asset1 := pool]> s.

(** [if v.store_index > index { v.store_index -= 1 }]. *)
Definition close_gap (index : Z) (v : AngPoolConfigEntry) : AngPoolConfigEntry :=
  if index <? store_index v then
    {| pool_partial_key := pool_partial_key v; tick_spacing := tick_spacing v;
       fee_in_e6 := fee_in_e6 v; store_index := store_index v - 1 |}
  else v.

Definition remove_pair s asset0 asset1 : AngstromPoolConfigStore :=
  let key := derive_store_key asset0 asset1 in
  match s !! key with
  | None => s
  | Some entry => close_gap (store_index entry) <$> delete key s
  end.

(** [U24::from], which panics when the value does not fit. *)
Definition u24_from (v : Z) : outcome Z := if v <? 2 ^ 24 then Ret v else Panic.

(** [AngstromPoolsTracker::get_poolid]. *)
Definition get_poolid (angstrom_address : Address) s (addr1 addr2 : Address)
    : outcome (option PoolId) :=
  let '(addr1, addr2) := if addr2 <? addr1 then (addr2, addr1) else (addr1, addr2) in
  match get_entry s addr1 addr2 with
  | None => Ret None
  | Some entry =>
      fee ← u24_from (fee_in_e6 entry);
      Ret (Some (keccak_pool_key {| currency0 := addr1; currency1 := addr2; pk_fee := fee;
        tickSpacing := tick_spacing entry; pk_hooks := angstrom_address |}))
  end.

Definition fetch_pool_info_for_order {T} `{RawPoolOrder T} (angstrom_address : Address) s (o : T)
    : outcome (option UserOrderPoolInfo) :=
  id ← get_poolid angstrom_address s (token_in o) (token_out o);
  Ret (match id with
       | None => None
       | Some pool_id =>
           Some {| upi_pool_id := pool_id; upi_is_bid := raw_is_bid o; upi_token := token_in o |}
       end).

(** The indices of the store are the numbers below the count of its entries, each
    used once; the contract addresses the entries by them. *)
Definition dense s : Prop :=
  (forall k e, s !! k = Some e -> 0 <= store_index e < Z.of_nat (size s)) /\
  (forall k1 k2 e1 e2, s !! k1 = Some e1 -> s !! k2 = Some e2 ->
    store_index e1 = store_index e2 -> k1 = k2).

Lemma close_gap_index i e : store_index (close_gap i e) =
  if i <? store_index e then store_index e - 1 else store_index e.
Proof. unfold close_gap. by destruct (i <? _). Qed.

(** Removing a pair keeps the indices of the other pools dense, and removes
    the pair alone. *)
Theorem remove_pair_dense s asset0 asset1 (Hd : dense s) :
  dense (remove_pair s asset0 asset1) /\
  dom (remove_pair s asset0 asset1) = dom s ∖ {[derive_store_key asset0 asset1]}.
Proof.
  destruct Hd as [Hr Hi]. unfold remove_pair.
  destruct (s !! derive_store_key asset0 asset1) as [e|] eqn:E.
  2: { split; [done|]. apply not_elem_of_dom in E. set_solver. }
  split; [|by rewrite dom_fmap_L, dom_delete_L].
  assert (size (close_gap (store_index e) <$> delete (derive_store_key asset0 asset1) s) =
    pred (size s)) as Hsize by (by rewrite map_size_fmap, map_size_delete_Some).
  assert (size s <> 0%nat) by (intros Hz%map_size_empty_inv; by subst).
  assert (forall k v, delete (derive_store_key asset0 asset1) s !! k = Some v ->
    s !! k = Some v /\ store_index v <> store_index e) as Hother.
  { intros k v [Hne Hk]%lookup_delete_Some. split; [done|]. intros Heq. apply Hne. by eapply Hi. }
  pose proof (Hr _ _ E). split.
  - intros k v' Hk. rewrite lookup_fmap in Hk. apply fmap_Some in Hk as (v & [Hv Hne]%Hother & ->).
    rewrite Hsize, close_gap_index. pose proof (Hr _ _ Hv).
    destruct (Z.ltb_spec (store_index e) (store_index v)); lia.
  - intros k1 k2 v1' v2' H1 H2. rewrite lookup_fmap in H1, H2.
    apply fmap_Some in H1 as (v1 & [Hv1 Hn1]%Hother & ->).
    apply fmap_Some in H2 as (v2 & [Hv2 Hn2]%Hother & ->).
    rewrite !close_gap_index. intros Heq. apply (Hi _ _ _ _ Hv1 Hv2).
    destruct (Z.ltb_spec (store_index e) (store_index v1)),
      (Z.ltb_spec (store_index e) (store_index v2)); lia.
Qed.

Lemma get_poolid_total angstrom s a b :
  (forall k e, s !! k = Some e -> fee_in_e6 e < 2 ^ 24) ->
  exists id, get_poolid angstrom s a b = Ret id.
Proof.
  intros Hfee. unfold get_poolid. destruct (if b <? a then (b, a) else (a, b)) as [x y].
  destruct (get_entry s x y) as [e|] eqn:E; [|eauto].
  unfold u24_from. rewrite (proj2 (Z.ltb_lt _ _)); [cbn; eauto|]. by apply (Hfee (derive_store_key x y)).
Qed.

(** The pool of an order does not depend on the direction of the swap. *)
Theorem get_poolid_either_way angstrom s (a b : Address) :
  get_poolid angstrom s a b = get_poolid angstrom s b a.
Proof.
  unfold get_poolid. destruct (Z.ltb_spec b a), (Z.ltb_spec a b); try done; [lia|].
  by replace a with b by lia.
Qed.
End store.

(** ** Handling an order *)

Section handle.
Context `{AL : ArithLib} `{OH : OrderHasher} `{SR : SqrtRatios} `{SL : SortLib} `{SF : StateFetchUtils}
  `{PH : PoolHasher}.

(** [StateValidation]: the pools that are known and the accounts. *)
Record StateValidation := {
  angstrom_address : Address;
  pool_store : AngstromPoolConfigStore;
  user_accounts : UserAccounts
}.

Definition with_accounts (sv : StateValidation) ua : StateValidation :=
  {| angstrom_address := angstrom_address sv; pool_store := pool_store sv; user_accounts := ua |}.

(** [StateValidation::new_block] and [cancel_order]. *)
Definition sv_new_block (sv : StateValidation) (completed_orders : list B256)
    (address_changes : list Address) : StateValidation :=
  with_accounts sv (new_block (user_accounts sv) address_changes completed_orders).
Definition sv_cancel_order (sv : StateValidation) (user : Address) (hash : B256) : StateValidation :=
  with_accounts sv (fst (cancel_order (user_accounts sv) user hash)).

Section order.
Context {T : Type} `{RP : RawPoolOrder T} (is_valid_signature : T -> bool) (into : T -> AllOrders).
Implicit Types (o : T).

Definition handle_orders (sv : StateValidation) o (block : u64) (is_revalidating : bool)
    (tob_rewards : T -> UserOrderPoolInfo -> outcome (result (u128 * u128) UserAccountVerificationError))
    : outcome (StateValidation * OrderValidationResults) :=
  let hash := order_hash o in
  if negb (is_valid_signature o) then Ret (sv, Invalid hash InvalidSignature)
  else
    checked ← validate o;
    match checked with
    | Err e => Ret (sv, Invalid hash e)
    | Ok _ =>
        found ← fetch_pool_info_for_order (angstrom_address sv) (pool_store sv) o;
        match found with
        | None => Ret (sv, Invalid hash InvalidPool)
        | Some info =>
            '(ua, res) ← verify_order (user_accounts sv) o info block is_revalidating tob_rewards;
            match res with
            | Ok stored =>
                valid ← unwrap (try_map_inner (fun inner => Some (into inner)) stored);
                Ret (with_accounts sv ua, Valid valid)
            | Err e => Ret (with_accounts sv ua, Invalid hash (StateError e))
            end
        end
    end.
End order.

(** The closure of [StateValidation::handle_tob_order]: the reward and the reward
    in the input token; [calculate_rewards] is the simulation of the swap on the
    synced pool. *)
Definition searcher_rewards (calculate_rewards : PoolId -> TopOfBlockOrder -> result u128 string)
    (conversion_rate : Ray) (o : TopOfBlockOrder) (info : UserOrderPoolInfo)
    : outcome (result (u128 * u128) UserAccountVerificationError) :=
  match calculate_rewards (upi_pool_id info) o with
  | Err e => Ret (Err (InvalidToBSwap e))
  | Ok total_reward =>
      rewards_in_token_in ←
        (if raw_is_bid o then quantity conversion_rate total_reward false else Ret total_reward);
      Ret (Ok (total_reward, rewards_in_token_in))
  end.

(** [StateValidation::handle_tob_order]. *)
Definition handle_tob_order (is_valid_signature : TopOfBlockOrder -> bool)
    (calculate_rewards : PoolId -> TopOfBlockOrder -> result u128 string)
    (sv : StateValidation) (o : TopOfBlockOrder) (block : u64) (conversion_rate : Ray)
    : outcome (StateValidation * OrderValidationResults) :=
  handle_orders is_valid_signature TOB sv o block false
    (searcher_rewards calculate_rewards conversion_rate).

(** ** Gas *)

Definition gas_of_tob_order (o : TopOfBlockOrder) (wei_price : u128) : u64 :=
  let '(internal, normal) := tob_gas_at wei_price in
  if use_internal o then internal else normal.

Definition gas_of_book_order (o : AllOrders) : u64 :=
  if use_internal o then BOOK_GAS_INTERNAL else BOOK_GAS.

(** [GasReturn]: the units of gas and the gas in the first token, and an error
    that parks the order. *)
Definition GasReturn : Type := u64 * U256 * option UserAccountVerificationError.

(** The tokens of an order, the smaller address first. *)
Definition sorted_tokens {T} `{RawPoolOrder T} (o : T) : Address * Address :=
  if token_in o <? token_out o then (token_in o, token_out o) else (token_out o, token_in o).

Definition calculate_tob_gas (o : TopOfBlockOrder) (conversion : TokenPriceGenerator)
    : outcome (result GasReturn string) :=
  let gas_in_wei := gas_of_tob_order o (base_wei conversion) in
  let '(token0, token1) := sorted_tokens o in
  quoted ← get_eth_conversion_price conversion token0 token1 gas_in_wei;
  Ret (match quoted with
       | None => Err "failed to get conversion price"%string
       | Some gas_token_0 =>
           if max_gas_token_0 o <? gas_token_0 then
             Err "tob order doesn't have enough gas for target block"%string
           else Ok (gas_in_wei, gas_token_0, None)
       end).

Definition calculate_user_gas (o : AllOrders) (conversion : TokenPriceGenerator)
    : outcome (result GasReturn string) :=
  let gas_in_wei := gas_of_book_order o in
  let '(token0, token1) := sorted_tokens o in
  quoted ← get_eth_conversion_price conversion token0 token1 gas_in_wei;
  Ret (match quoted with
       | None => Err "failed to get conversion price"%string
       | Some gas_token_0 =>
           Ok (gas_in_wei, gas_token_0,
             if max_gas_token_0 o <? gas_token_0
             then Some (AccountNotEnoughGas gas_token_0 (max_gas_token_0 o)) else None)
       end).

(** The assignments of [map_and_process]: the gas is added, and an error parks the
    order unless it is parked already. *)
Definition charge {T} (o : OrderWithStorageData T) (g : GasReturn) : OrderWithStorageData T :=
  let '(units, used, possible_error) := g in
  Build_OrderWithStorageData (order o)
    {| price := price (priority_data o); volume := volume (priority_data o);
       gas := u256_wrap (gas (priority_data o) + used); gas_units := units |}
    (invalidates o) (pool_id o)
    (match is_currently_valid o with None => possible_error | e => e end)
    (is_bid o) (is_valid o) (valid_block o) (order_id o) (tob_reward o) (cancel_requested o).

Definition map_and_process {Old New} (o : OrderWithStorageData Old)
    (map_new : Old -> outcome New) (map_old : New -> Old)
    (calculate_function : New -> outcome (result GasReturn string))
    : outcome (result (OrderWithStorageData Old) string) :=
  inner ← map_new (order o);
  mapped ← unwrap (try_map_inner (fun _ => Some inner) o);
  calculated ← calculate_function (order mapped);
  match calculated with
  | Err e => Ret (Err e)
  | Ok g =>
      out ← unwrap (try_map_inner (fun n => Some (map_old n)) (charge mapped g));
      Ret (Ok out)
  end.

Definition add_gas_cost_or_invalidate (self : OrderValidationResults)
    (token_price : TokenPriceGenerator) (is_limit : bool) : outcome OrderValidationResults :=
  match self with
  | Valid o =>
      res ←
        (if is_limit then
           map_and_process o Ret id (fun o => calculate_user_gas o token_price)
         else
           map_and_process o (fun o => match o with TOB s => Ret s | _ => Panic end) TOB
             (fun o => calculate_tob_gas o token_price));
      Ret (match res with
           | Err _ => Invalid (order_hash (order o)) NotEnoughGas
           | Ok finalized => Valid finalized
           end)
  | _ => Ret self
  end.

(** ** The validation task *)

Section task.
Context (valid_order : AllOrders -> bool) (valid_tob : TopOfBlockOrder -> bool)
  (calculate_rewards : PoolId -> TopOfBlockOrder -> result u128 string).

(** [OrderOrigin::is_revalidating]. *)
Definition is_revalidating (origin : OrderOrigin) : bool :=
  match origin with ReValidation => true | _ => false end.

(** The task that [OrderValidator::validate_order] spawns; the result goes to the
    channel of the request. *)
Definition validate_order (sv : StateValidation) (block : u64) (token_conversion : TokenPriceGenerator)
    (o : AllOrders) (origin : OrderOrigin) : outcome (StateValidation * OrderValidationResults) :=
  match o with
  | TOB t =>
      let '(t0, t1) := if token_out t <? token_in t then (token_out t, token_in t)
                       else (token_in t, token_out t) in
      rate ← conversion_rate_of_pair token_conversion t0 t1;
      '(sv, results) ← handle_tob_order valid_tob calculate_rewards sv t block (default 0 rate);
      results ← add_gas_cost_or_invalidate results token_conversion false;
      Ret (sv, results)
  | _ =>
      '(sv, results) ← handle_orders valid_order id sv o block (is_revalidating origin)
        (fun _ _ => Ret (Ok (0, 0)));
      results ← add_gas_cost_or_invalidate results token_conversion true;
      Ret (sv, results)
  end.
End task.

(** ** What a valid result means *)

Section order_theorems.
Context {T : Type} `{RP : RawPoolOrder T} (is_valid_signature : T -> bool) (into : T -> AllOrders).
Implicit Types (o : T).

Lemma handle_orders_Valid sv o block reval rewards sv' valid :
  handle_orders is_valid_signature into sv o block reval rewards = Ret (sv', Valid valid) ->
  is_valid_signature o = true /\ validate o = Ret (Ok tt) /\
  exists info ua' stored,
    fetch_pool_info_for_order (angstrom_address sv) (pool_store sv) o = Ret (Some info) /\
    verify_order (user_accounts sv) o info block reval rewards = Ret (ua', Ok stored) /\
    sv' = with_accounts sv ua' /\ try_map_inner (fun inner => Some (into inner)) stored = Some valid.
Proof.
  unfold handle_orders. destruct (is_valid_signature o); [|done]. cbn [negb].
  intros ([[]|] & Hc & H)%bind_Ret; [|done]. apply bind_Ret in H as ([info|] & Hf & H); [|done].
  apply bind_Ret in H as ([ua' [stored|]] & Hv & H); [|done].
  apply bind_Ret in H as (v & Hm & H). injection H as <- <-.
  split; [done|]. split; [done|]. exists info, ua', stored.
  destruct (try_map_inner _ stored); [|done]. by injection Hm as ->.
Qed.

Lemma fetch_pool_info_token angstrom s o info :
  fetch_pool_info_for_order angstrom s o = Ret (Some info) -> upi_token info = token_in o.
Proof.
  unfold fetch_pool_info_for_order. intros ([id|] & _ & H)%bind_Ret; [|done]. by injection H as <-.
Qed.

Lemma verify_order_stored ua o info block reval rewards ua' st :
  verify_order ua o info block reval rewards = Ret (ua', Ok st) ->
  order st = o /\ pool_id st = upi_pool_id info /\ valid_block st = block /\
  gas (priority_data st) = 0.
Proof.
  intros [(e & [=] & _)|(r0 & r1 & ua2 & ls & _ & _ & Hres)]%verify_order_inv.
  unfold reserve_order in Hres. apply bind_Ret in Hres as ([action|e] & _ & H).
  - apply bind_Ret in H as ([ua1 bad] & _ & H). apply bind_Ret in H as (st' & Hst & H).
    injection H as _ <-. apply bind_Ret in Hst as (lp & _ & Hst). by injection Hst as <-.
  - destruct (is_tob o); [done|]. apply bind_Ret in H as (st' & Hst & H).
    injection H as _ <-. apply bind_Ret in Hst as (lp & _ & Hst). by injection Hst as <-.
Qed.

(** No order is reported valid without a valid signature, without passing
    the rules, or without a pool of its two tokens; the result carries the order
    and the pool. *)
Theorem valid_order_checked sv o (block : u64) reval rewards sv' valid
    (Hh : handle_orders is_valid_signature into sv o block reval rewards = Ret (sv', Valid valid)) :
  is_valid_signature o = true /\ validate o = Ret (Ok tt) /\ order valid = into o /\
  get_poolid (angstrom_address sv) (pool_store sv) (token_in o) (token_out o) =
    Ret (Some (pool_id valid)) /\ valid_block valid = block.
Proof.
  apply handle_orders_Valid in Hh as (Hs & Hr & info & ua' & stored & Hf & Hv & _ & Hm).
  destruct (verify_order_stored _ _ _ _ _ _ _ _ Hv) as (Ho & Hp & Hb & _).
  injection Hm as <-. cbn. rewrite Ho, Hp. split; [done|]. split; [done|]. split; [done|].
  split; [|done]. unfold fetch_pool_info_for_order in Hf.
  apply bind_Ret in Hf as ([id|] & Hid & Hf); [|done]. injection Hf as <-. done.
Qed.

(** Handling a user order returns whenever its rules do: with fees of 24
    bits in the store, neither the lookup of the pool nor the accounts panic. *)
Theorem handle_orders_returns sv o (block : u64) reval rewards checked
    (Hr : order_range o) (Htob : is_tob o = false) (Hc : validate o = Ret checked)
    (Hfee : forall k e, pool_store sv !! k = Some e -> fee_in_e6 e < 2 ^ 24)
    (Hrew : forall info, exists r, rewards o info = Ret r) :
  exists sv' r, handle_orders is_valid_signature into sv o block reval rewards = Ret (sv', r).
Proof.
  unfold handle_orders. destruct (is_valid_signature o); [|cbn; eauto]. rewrite Hc. cbn.
  destruct checked as [[]|e]; [|eauto].
  destruct (get_poolid_total (angstrom_address sv) (pool_store sv) (token_in o) (token_out o) Hfee) as [id Hid].
  destruct (fetch_pool_info_for_order _ _ o) as [[info|]|] eqn:Ef; cbn; [|eauto|].
  2: { unfold fetch_pool_info_for_order in Ef. by rewrite Hid in Ef. }
  destruct (validate_price o Htob Hc) as (lp & Hlp & Hne).
  destruct (Hrew info) as [r Hri]. pose proof (proj2 (proj2 Hr) lp Hlp).
  assert (exists ua' res, verify_order (user_accounts sv) o info block reval rewards = Ret (ua', res))
    as (ua' & res & ->).
  { eapply verify_order_total; [done|done|lia|by symmetry; eapply fetch_pool_info_token|done]. }
  cbn. destruct res; cbn; eauto.
Qed.
End order_theorems.

(** ** The gas of a valid order *)

Section task_theorems.
Context (valid_order : AllOrders -> bool) (valid_tob : TopOfBlockOrder -> bool)
  (calculate_rewards : PoolId -> TopOfBlockOrder -> result u128 string).

(** The quote that a user order is charged. *)
Definition user_quote (tc : TokenPriceGenerator) (o : AllOrders) : outcome (option u128) :=
  get_eth_conversion_price tc (fst (sorted_tokens o)) (snd (sorted_tokens o)) (gas_of_book_order o).

Lemma calculate_user_gas_quote tc o : calculate_user_gas o tc =
  (quoted ← user_quote tc o;
   Ret (match quoted with
        | None => Err "failed to get conversion price"%string
        | Some q => Ok (gas_of_book_order o, q,
            if max_gas_token_0 o <? q
            then Some (AccountNotEnoughGas q (max_gas_token_0 o)) else None)
        end)).
Proof. unfold calculate_user_gas, user_quote. by destruct (sorted_tokens o). Qed.

Lemma map_and_process_limit (o : OrderWithStorageData AllOrders) f : map_and_process o Ret id f =
  (calculated ← f (order o);
   match calculated with
   | Err e => Ret (Err e)
   | Ok g => Ret (Ok (charge o g))
   end).
Proof.
  destruct o as [x pd inv pid cv bid va vb oid tr cr]. cbn.
  destruct (f x) as [[[[u g] e]|e]|]; done.
Qed.

Lemma validate_order_limit sv block tc (o : AllOrders) origin : is_tob o = false ->
  validate_order valid_order valid_tob calculate_rewards sv block tc o origin =
    ('(sv, results) ← handle_orders valid_order id sv o block (is_revalidating origin)
       (fun _ _ => Ret (Ok (0, 0)));
     results ← add_gas_cost_or_invalidate results tc true;
     Ret (sv, results)).
Proof. by destruct o. Qed.

(** A user order that is reported valid and not parked was quoted the gas it
    is charged, and the quote is within the gas that its user allows. *)
Theorem validated_order_pays_gas sv (block : u64) tc (o : AllOrders) origin sv' st q
    (Htob : is_tob o = false)
    (Hv : validate_order valid_order valid_tob calculate_rewards sv block tc o origin =
      Ret (sv', Valid st))
    (Hcv : is_currently_valid st = None) (Hq : user_quote tc o = Ret (Some q)) (Hq0 : 0 <= q <= u128_max) :
  order st = o /\ gas (priority_data st) = q /\ gas_units (priority_data st) = gas_of_book_order o /\
  q <= max_gas_token_0 o.
Proof.
  rewrite validate_order_limit in Hv by done.
  apply bind_Ret in Hv as ([sv1 res] & Hh & Hv). apply bind_Ret in Hv as (res' & Ha & Hv).
  injection Hv as <- ->. destruct res as [o1|?|?]; [|done..].
  apply handle_orders_Valid in Hh as (_ & _ & info & ua' & stored & _ & Hver & _ & Hm).
  destruct (verify_order_stored _ _ _ _ _ _ _ _ Hver) as (Ho & _ & _ & Hg). injection Hm as <-.
  cbn [add_gas_cost_or_invalidate] in Ha. rewrite map_and_process_limit, calculate_user_gas_quote in Ha.
  cbn [order id] in Ha. rewrite Ho, Hq in Ha. cbn [mbind outcome_bind] in Ha. injection Ha as <-.
  cbn [charge is_currently_valid order priority_data gas gas_units] in Hcv |- *.
  rewrite Hg. split; [done|]. split.
  { unfold u256_wrap. rewrite Z.add_0_l. apply Z.mod_small. unfold u128_max in *. lia. }
  split; [done|]. destruct (is_currently_valid stored); [done|].
  destruct (max_gas_token_0 o <? q) eqn:El; [|by apply Z.ltb_ge in El].
  cbn in El. by rewrite El in Hcv.
Qed.

(** An order that has funds but no quote for its gas is reported invalid,
    and the funds that it reserved stay reserved. *)
Theorem unquoted_order_keeps_reservation sv (block : u64) tc (o : AllOrders) origin sv' st
    (Hok : accounts_ok (user_accounts sv)) (Hf : funds_ok (user_accounts sv)) (Hr : order_range o)
    (Htob : is_tob o = false)
    (Hh : handle_orders valid_order id sv o block (is_revalidating origin)
      (fun _ _ => Ret (Ok (0, 0))) = Ret (sv', Valid st))
    (Hcv : is_currently_valid st = None) (Hq : user_quote tc o = Ret None) :
  validate_order valid_order valid_tob calculate_rewards sv block tc o origin =
    Ret (sv', Invalid (order_hash o) NotEnoughGas) /\
  exists p, p ∈ book_of (user_accounts sv') (from o) /\ pending_hash p = order_hash o.
Proof.
  pose proof Hh as Hh'.
  apply handle_orders_Valid in Hh' as (_ & _ & info & ua' & stored & _ & Hver & -> & Hm).
  destruct (verify_order_stored _ _ _ _ _ _ _ _ Hver) as (Ho & _). injection Hm as <-. split.
  - rewrite validate_order_limit, Hh by done. cbn [mbind outcome_bind add_gas_cost_or_invalidate].
    rewrite map_and_process_limit, calculate_user_gas_quote. cbn [order id]. rewrite Ho, Hq. done.
  - destruct (accepted_inv _ _ _ _ _ _ _ _ Hok Hf Hr Hver Hcv)
      as (ua2 & ls & bid & am & bad & _ & _ & _ & _ & _ & Hi & _).
    exists (reservation o info bid am). cbn.
    split; [|unfold pending_hash; by rewrite reservation_priority].
    apply accepted_in_book in Hi; [|done]. by apply elem_of_List_filter in Hi as [? _].
Qed.
End task_theorems.
End handle.

(** ** Examples *)

(** Hashes that distinguish the sample pools. *)
Definition sample_pool_hasher : PoolHasher := {|
  keccak_pair := fun a b => 1000 * a + b;
  keccak_pool_key := fun k => 1000 * currency0 k + currency1 k
|}.

Definition sample_entry (index : Z) : AngPoolConfigEntry :=
  {| pool_partial_key := 0; tick_spacing := 10; fee_in_e6 := 3000; store_index := index |}.

(** The pools of the tokens 1 and 2 and of the tokens 1 and 3. *)
Definition sample_store : AngstromPoolConfigStore :=
  {[ 1002 := sample_entry 0; 1003 := sample_entry 1 ]}.

Section examples.
#[local] Existing Instance arith_Z.
#[local] Existing Instance iter_by_encoding.
#[local] Existing Instance sample_hasher.
#[local] Existing Instance uniswap_ratios.
#[local] Existing Instance insertion_sort.
#[local] Existing Instance sample_pool_hasher.

Lemma sample_store_lookup k e : sample_store !! k = Some e ->
  k = 1002 /\ e = sample_entry 0 \/ k = 1003 /\ e = sample_entry 1.
Proof.
  unfold sample_store. intros [[<- <-]|[_ H]]%lookup_insert_Some; [by left|].
  apply lookup_singleton_Some in H as [<- <-]. by right.
Qed.

Lemma remove_pair_dense_witness : dense (remove_pair sample_store 1 2).
Proof.
  apply (remove_pair_dense sample_store 1 2). split.
  - intros k e [[_ ->]|[_ ->]]%sample_store_lookup; vm_compute; split; congruence.
  - intros k1 k2 e1 e2 [[-> ->]|[-> ->]]%sample_store_lookup [[-> ->]|[-> ->]]%sample_store_lookup; done.
Defined.

Definition sample_state : StateValidation :=
  {| angstrom_address := 77; pool_store := sample_store; user_accounts := new_accounts |}.

(** The result of handling [sample_order] on a chain with enough approval. *)
Definition sample_handled : option (StateValidation * OrderWithStorageData AllOrders) :=
  match @handle_orders _ _ _ (sample_chain 500) _ _ _ (fun _ => true) id sample_state sample_order 1
    false (fun _ _ => Ret (Ok (0, 0))) with
  | Ret (sv, Valid st) => Some (sv, st)
  | _ => None
  end.

Lemma valid_order_checked_witness :
  match sample_handled with
  | Some (_, st) => get_poolid 77 sample_store 2 1 = Ret (Some (pool_id st))
  | None => False
  end.
Proof.
  unfold sample_handled.
  destruct (@handle_orders _ _ _ (sample_chain 500) _ _ _ (fun _ => true) id sample_state sample_order 1
    false (fun _ _ => Ret (Ok (0, 0)))) as [[sv [st|?|?]]|] eqn:E; [|vm_compute in E; discriminate..].
  apply (@valid_order_checked _ _ _ (sample_chain 500) _ _ _ (fun _ => true) id sample_state
    sample_order 1 false (fun _ _ => Ret (Ok (0, 0))) sv st E).
Defined.

Lemma handle_orders_returns_witness : exists sv r,
  @handle_orders _ _ _ (sample_chain 500) _ _ _ (fun _ => true) id sample_state sample_order 1
    false (fun _ _ => Ret (Ok (0, 0))) = Ret (sv, r).
Proof.
  apply (@handle_orders_returns _ _ _ (sample_chain 500) _ _ _ (fun _ => true) id sample_state
    sample_order 1 false (fun _ _ => Ret (Ok (0, 0))) (Ok tt)).
  - exact sample_order_range.
  - reflexivity.
  - vm_compute. reflexivity.
  - intros k e [[_ ->]|[_ ->]]%sample_store_lookup; vm_compute; reflexivity.
  - intros info. exists (Ok (0, 0)). reflexivity.
Defined.

Definition no_swap (_ : PoolId) (_ : TopOfBlockOrder) : result u128 string := Ok 0.

(** Gas is paid in token 2, of which one unit of token 1 buys many, at one gwei,
    which a gas price of zero stands for. *)
Definition cheap_prices : TokenPriceGenerator := {|
  uniswap_pools := ∅;
  prev_prices := {[ 9 := [{| pp_token0 := 1; pp_token1 := 2; price_1_over_0 := 10 ^ 13 * const_1e27 |}] ]};
  pair_to_pool := {[ (1, 2) := 9 ]};
  base_gas_token := 2; blocks_to_avg_price := 15; base_wei := 0; current_block := 1
|}.

(** Gas is paid in a token without a pool. *)
Definition no_prices : TokenPriceGenerator := {|
  uniswap_pools := ∅; prev_prices := ∅; pair_to_pool := ∅;
  base_gas_token := 5; blocks_to_avg_price := 15; base_wei := 0; current_block := 1
|}.

Lemma validated_order_pays_gas_witness :
  match validate_order (SF := sample_chain 500) (fun _ => true) (fun _ => true) no_swap
    sample_state 1 cheap_prices sample_order Local with
  | Ret (_, Valid st) => gas (priority_data st) = 6
  | _ => False
  end.
Proof.
  destruct (validate_order (SF := sample_chain 500) (fun _ => true) (fun _ => true) no_swap
    sample_state 1 cheap_prices sample_order Local) as [[sv [st|?|?]]|] eqn:E;
    [|vm_compute in E; discriminate..].
  apply (validated_order_pays_gas (SF := sample_chain 500) (fun _ => true) (fun _ => true) no_swap
    sample_state 1 cheap_prices sample_order Local sv st 6).
  - reflexivity.
  - exact E.
  - vm_compute in E. injection E as <- <-. reflexivity.
  - vm_compute. reflexivity.
  - unfold u128_max. lia.
Defined.

Lemma unquoted_order_keeps_reservation_witness :
  match sample_handled with
  | Some (sv, _) => exists p, p ∈ book_of (user_accounts sv) 4 /\ pending_hash p = 7
  | None => False
  end.
Proof.
  unfold sample_handled.
  destruct (@handle_orders _ _ _ (sample_chain 500) _ _ _ (fun _ => true) id sample_state sample_order 1
    false (fun _ _ => Ret (Ok (0, 0)))) as [[sv [st|?|?]]|] eqn:E; [|vm_compute in E; discriminate..].
  assert (is_currently_valid st = None) as Hcv by (vm_compute in E; injection E as <- <-; reflexivity).
  apply (unquoted_order_keeps_reservation (SF := sample_chain 500) (fun _ => true) (fun _ => true)
    no_swap sample_state 1 no_prices sample_order Local sv st (proj1 new_accounts_ok)
    (proj2 new_accounts_ok) sample_order_range eq_refl E Hcv).
  vm_compute. reflexivity.
Defined.
End examples.
