(* ===== verification/LeaderSelection.v ===== *)
(** * Leader selection

    The model of [crates/consensus/src/leader_selection.rs]: the weighted round
    robin that picks the leader of a block.  The validators are a [HashSet] whose
    elements are equal when their addresses are, so a map from addresses. *)

From S2P Require Import Prelude Ray Orders.
Open Scope Z_scope.

Abbreviation i64 := Z (only parsing).
Abbreviation BlockNumber := Z (only parsing).

Definition i64_wrap (z : Z) : Z := (z + 2 ^ 63) mod 2 ^ 64 - 2 ^ 63.
Definition i64_min : Z := - 2 ^ 63.
Definition i64_max : Z := 2 ^ 63 - 1.

Definition ONE_E3 : u64 := 1000.
Definition PENALTY_FACTOR : u64 := 1125.

(** ** Validators *)

Record AngstromValidator := {
  peer_id : Address;
  voting_power : u64;
  v_priority : i64
}.

(** [AngstromValidator::new]. *)
Definition new_validator (name : Address) (power : u64) : AngstromValidator :=
  {| peer_id := name; voting_power := u64_wrap (power * ONE_E3); v_priority := 0 |}.

Definition set_priority (v : AngstromValidator) (p : i64) : AngstromValidator :=
  {| peer_id := peer_id v; voting_power := voting_power v; v_priority := p |}.

Record WeightedRoundRobin := {
  validators : gmap Address AngstromValidator;
  new_joiner_penalty_factor : u64;
  block_number : BlockNumber;
  last_proposer : option Address
}.

Implicit Types (w : WeightedRoundRobin) (v : AngstromValidator).

Definition set_validators w vs : WeightedRoundRobin :=
  {| validators := vs; new_joiner_penalty_factor := new_joiner_penalty_factor w;
     block_number := block_number w; last_proposer := last_proposer w |}.
Definition set_last_proposer w p : WeightedRoundRobin :=
  {| validators := validators w; new_joiner_penalty_factor := new_joiner_penalty_factor w;
     block_number := block_number w; last_proposer := p |}.
Definition set_block_number w b : WeightedRoundRobin :=
  {| validators := validators w; new_joiner_penalty_factor := new_joiner_penalty_factor w;
     block_number := b; last_proposer := last_proposer w |}.

(** [HashSet::insert], which keeps an equal element that is there. *)
Definition insert_validator (vs : gmap Address AngstromValidator) v : gmap Address AngstromValidator :=
  match vs !! peer_id v with Some _ => vs | None => <[peer_id v := v]> vs end.

(** [WeightedRoundRobin::new]. *)
Definition new_round_robin (vs : list AngstromValidator) (start_block : BlockNumber)
    : WeightedRoundRobin :=
  {| validators := foldl insert_validator ∅ vs; new_joiner_penalty_factor := PENALTY_FACTOR;
     block_number := start_block; last_proposer := None |}.

(** ** Words *)

Definition u64_sum (l : list Z) : u64 := foldl (fun a b => u64_wrap (a + b)) 0 l.
Definition i64_sum (l : list Z) : i64 := foldl (fun a b => i64_wrap (a + b)) 0 l.

(** [i64] division rounds towards zero; it panics on a zero divisor and when the
    quotient does not fit. *)
Definition i64_divides (a b : i64) : bool := negb (b =? 0) && negb ((a =? i64_min) && (b =? -1)).
Definition i64_div (a b : i64) : outcome i64 :=
  if i64_divides a b then Ret (Z.quot a b) else Panic.

(** [Iterator::max_by], the last of several maximal elements. *)
Definition max_by {A} (cmp : A -> A -> comparison) (l : list A) : option A :=
  match l with
  | [] => None
  | x :: l' => Some (foldl (fun m y => match cmp m y with Gt => m | _ => y end) x l')
  end.

(** [WeightedRoundRobin::priority]. *)
Definition priority (a b : AngstromValidator) : comparison :=
  then_with (v_priority a ?= v_priority b) (peer_id a ?= peer_id b).

Section selection.
Context `{HI : HashIter}.

Definition total_voting_power w : u64 := u64_sum (voting_power <$> hm_values (validators w)).

(** ** One round *)

Definition proposer_selection w : outcome (WeightedRoundRobin * Address) :=
  let total := total_voting_power w in
  let vs := (fun v => set_priority v (i64_wrap (v_priority v + i64_wrap (voting_power v))))
    <$> validators w in
  proposer ← unwrap (max_by priority (hm_values vs));
  let proposer := set_priority proposer (i64_wrap (v_priority proposer - i64_wrap total)) in
  Ret (set_validators w (<[peer_id proposer := proposer]> vs), peer_id proposer).

Definition center_priorities w : outcome WeightedRoundRobin :=
  avg_priority ← i64_div (i64_sum (v_priority <$> hm_values (validators w)))
    (i64_wrap (Z.of_nat (size (validators w))));
  Ret (set_validators w
    ((fun v => set_priority v (i64_wrap (v_priority v - avg_priority))) <$> validators w)).

Definition scale_priorities w : outcome WeightedRoundRobin :=
  let priorities := v_priority <$> hm_values (validators w) in
  let max_priority := foldl Z.max i64_min priorities in
  let min_priority := foldl Z.min i64_max priorities in
  let diff := i64_wrap (max_priority - min_priority) in
  let threshold := i64_wrap (2 * i64_wrap (total_voting_power w)) in
  if threshold <? diff then
    scale ← i64_div (i64_wrap (diff * ONE_E3)) threshold;
    (* the closure panics when the division of one validator does *)
    if forallb (fun p => i64_divides (i64_wrap (p * ONE_E3)) scale) priorities then
      Ret (set_validators w
        ((fun v => set_priority v (Z.quot (i64_wrap (v_priority v * ONE_E3)) scale))
          <$> validators w))
    else Panic
  else Ret w.

Definition one_round w : outcome (WeightedRoundRobin * Address) :=
  w ← center_priorities w;
  w ← scale_priorities w;
  '(w, leader) ← proposer_selection w;
  Ret (set_last_proposer w (Some leader), leader).

(** ** The leader of a block *)

(** [for _ in 0..rounds_to_catchup]. *)
Fixpoint catchup (rounds : nat) w (leader : option Address)
    : outcome (WeightedRoundRobin * option Address) :=
  match rounds with
  | O => Ret (w, leader)
  | S rounds' =>
      '(w, l) ← one_round w;
      catchup rounds' w (Some l)
  end.

Definition choose_proposer w (block : BlockNumber) : outcome (WeightedRoundRobin * option Address) :=
  if block =? block_number w then
    match last_proposer w with
    | Some p => Ret (w, Some p)
    | None =>
        '(w, p) ← proposer_selection w;
        Ret (set_last_proposer w (Some p), Some p)
    end
  else
    '(w, leader) ← catchup (Z.to_nat (u64_wrap (block - block_number w))) w None;
    Ret (set_block_number w block, leader).

(** ** Joining and leaving *)

Definition remove_validator w (peer : Address) : WeightedRoundRobin :=
  set_validators w (delete peer (validators w)).

Definition add_validator w (peer : Address) (power : u64) : WeightedRoundRobin :=
  let v := new_validator peer power in
  let total := total_voting_power w in
  let penalty := u64_wrap (new_joiner_penalty_factor w * total) / ONE_E3 in
  set_validators w (insert_validator (validators w)
    (set_priority v (i64_wrap (v_priority v - i64_wrap penalty)))).
End selection.

(** ** Sums and maxima do not depend on the order of iteration *)

Lemma i64_wrap_add a b : i64_wrap (i64_wrap a + b) = i64_wrap (a + b).
Proof.
  unfold i64_wrap. f_equal.
  replace ((a + 2 ^ 63) mod 2 ^ 64 - 2 ^ 63 + b + 2 ^ 63) with ((a + 2 ^ 63) mod 2 ^ 64 + b) by lia.
  rewrite Zplus_mod_idemp_l. f_equal. lia.
Qed.

Lemma i64_wrap_small z : i64_min <= z <= i64_max -> i64_wrap z = z.
Proof. unfold i64_min, i64_max, i64_wrap. intros. rewrite Z.mod_small; lia. Qed.

Lemma u64_sum_eq l : u64_sum l = u64_wrap (zsum l).
Proof. apply (wrap_sum u64_wrap l 0), u64_wrap_add. Qed.

Lemma i64_sum_eq l : i64_sum l = i64_wrap (zsum l).
Proof. apply (wrap_sum i64_wrap l 0), i64_wrap_add. Qed.

Section order.
Context {A : Type} (cmp : A -> A -> comparison).
Hypothesis (cmp_opp : forall a b, cmp b a = CompOpp (cmp a b)) (cmp_tr : cmp_trans cmp).

Lemma cmp_refl_ a : cmp a a <> Gt.
Proof. pose proof (cmp_opp a a). destruct (cmp a a); done. Qed.

Definition better (m y : A) : A := match cmp m y with Gt => m | _ => y end.

Lemma better_spec x z : (better x z = x \/ better x z = z) /\
  cmp x (better x z) <> Gt /\ cmp z (better x z) <> Gt.
Proof.
  unfold better. pose proof (cmp_refl_ x). pose proof (cmp_refl_ z).
  destruct (cmp x z) eqn:E; [naive_solver congruence..|].
  split; [by left|]. split; [done|]. by rewrite cmp_opp, E.
Qed.

Lemma max_by_from x l : foldl better x l ∈ x :: l /\
  forall y, y ∈ x :: l -> cmp y (foldl better x l) <> Gt.
Proof.
  revert x. induction l as [|z l IH]; intros x; cbn [foldl].
  - split; [left|]. intros y ->%list_elem_of_singleton. apply cmp_refl_.
  - destruct (IH (better x z)) as [Hin Hmax]. destruct (better_spec x z) as (Hor & Hx & Hz).
    pose proof (Hmax (better x z) ltac:(left)) as Hb. split.
    + apply elem_of_cons in Hin as [->|Hin]; [destruct Hor as [->| ->]; set_solver|set_solver].
    + intros y [->|[->|Hy]%elem_of_cons]%elem_of_cons.
      * by destruct (cmp_tr x (better x z) (foldl better (better x z) l)).
      * by destruct (cmp_tr z (better x z) (foldl better (better x z) l)).
      * apply Hmax. by right.
Qed.

Lemma max_by_spec l m : max_by cmp l = Some m -> m ∈ l /\ forall y, y ∈ l -> cmp y m <> Gt.
Proof. destruct l as [|x l]; [done|]. intros [= <-]. apply max_by_from. Qed.

Lemma max_by_perm l1 l2 : l1 ≡ₚ l2 ->
  (forall a b, a ∈ l1 -> b ∈ l1 -> cmp a b = Eq -> a = b) -> max_by cmp l1 = max_by cmp l2.
Proof.
  intros Hp Heq. destruct (max_by cmp l1) as [m1|] eqn:E1, (max_by cmp l2) as [m2|] eqn:E2; [|..|done].
  - apply max_by_spec in E1 as [H1 M1], E2 as [H2 M2]. f_equal. apply Heq; [done|by rewrite Hp|].
    pose proof (M2 m1 ltac:(by rewrite <-Hp)). pose proof (M1 m2 ltac:(by rewrite Hp)) as M.
    rewrite cmp_opp in M. destruct (cmp m1 m2); done.
  - destruct l2; [|done]. by apply Permutation_nil_r in Hp; subst.
  - destruct l1; [|done]. by apply Permutation_nil_l in Hp; subst.
Qed.
End order.

Lemma priority_opp a b : priority b a = CompOpp (priority a b).
Proof. unfold priority. by rewrite then_with_opp, <-!Z.compare_antisym. Qed.

Lemma priority_trans : cmp_trans priority.
Proof. unfold priority. apply cmp_trans_then; apply cmp_trans_on. Qed.

Lemma priority_Eq a b : priority a b = Eq -> peer_id a = peer_id b.
Proof. unfold priority. rewrite then_with_Eq, !Z.compare_eq_iff. by intros []. Qed.

Lemma foldl_perm {A B} (f : B -> A -> B) (b : B) (l1 l2 : list A) :
  (forall b x y, f (f b x) y = f (f b y) x) -> l1 ≡ₚ l2 -> foldl f b l1 = foldl f b l2.
Proof.
  intros Hf Hp. revert b. induction Hp as [|x l1 l2 _ IH|x y l|l1 l2 l3 _ IH1 _ IH2]; intros b; cbn.
  - done.
  - apply IH.
  - by rewrite Hf.
  - by rewrite IH1.
Qed.

Lemma hm_values_perm {K V} `{Countable K} (H1 H2 : HashIter) (m : gmap K V) :
  @hm_values H1 K V _ _ m ≡ₚ @hm_values H2 K V _ _ m.
Proof. unfold hm_values. f_equiv. by rewrite !hm_iter_perm. Qed.

(** ** Agreement of the nodes *)

(** Every validator is filed under its address. *)
Definition well_filed w : Prop := map_Forall (fun k v => peer_id v = k) (validators w).

Lemma well_filed_fmap w f : well_filed w -> (forall v, peer_id (f v) = peer_id v) ->
  map_Forall (fun k v => peer_id v = k) (f <$> validators w).
Proof.
  intros Hw Hf k v Hv. rewrite lookup_fmap in Hv. apply fmap_Some in Hv as (v0 & Hv & ->).
  rewrite Hf. by apply Hw.
Qed.

Section agreement.
Context (H1 H2 : HashIter).

Lemma total_voting_power_agrees w : @total_voting_power H1 w = @total_voting_power H2 w.
Proof. unfold total_voting_power. rewrite !u64_sum_eq. by rewrite (hm_values_perm H1 H2). Qed.

Lemma max_by_agrees vs : map_Forall (fun k v => peer_id v = k) vs ->
  max_by priority (@hm_values H1 _ _ _ _ vs) = max_by priority (@hm_values H2 _ _ _ _ vs).
Proof.
  intros Hw. apply max_by_perm; [apply priority_opp|apply priority_trans|apply hm_values_perm|].
  intros a b [ka Ha]%elem_of_hm_values [kb Hb]%elem_of_hm_values Heq%priority_Eq.
  pose proof (Hw _ _ Ha). pose proof (Hw _ _ Hb). congruence.
Qed.

Lemma proposer_selection_agrees w : well_filed w ->
  @proposer_selection H1 w = @proposer_selection H2 w.
Proof.
  intros Hw. unfold proposer_selection. rewrite total_voting_power_agrees, max_by_agrees; [done|].
  by apply well_filed_fmap.
Qed.

Lemma center_priorities_agrees w : @center_priorities H1 w = @center_priorities H2 w.
Proof. unfold center_priorities. rewrite !i64_sum_eq. by rewrite (hm_values_perm H1 H2). Qed.

Lemma scale_priorities_agrees w : @scale_priorities H1 w = @scale_priorities H2 w.
Proof.
  unfold scale_priorities. rewrite total_voting_power_agrees.
  pose proof (fmap_Permutation v_priority _ _ (hm_values_perm H1 H2 (validators w))) as Hp.
  rewrite (foldl_perm Z.max i64_min _ _ ltac:(lia) Hp), (foldl_perm Z.min i64_max _ _ ltac:(lia) Hp).
  destruct (_ <? _); [|done]. destruct (i64_div _ _) as [scale|]; [|done]. cbn.
  assert (forall l1 l2 (f : Z -> bool), l1 ≡ₚ l2 -> forallb f l1 = forallb f l2) as Hall.
  { intros l1 l2 f. induction 1; cbn; try congruence. by rewrite !andb_assoc, (andb_comm (f _)). }
  by rewrite (Hall _ _ _ Hp).
Qed.

Lemma center_well_filed w w' : @center_priorities H1 w = Ret w' -> well_filed w -> well_filed w'.
Proof. intros (a & _ & H)%bind_Ret Hw. injection H as <-. by apply well_filed_fmap. Qed.

Lemma scale_well_filed w w' : @scale_priorities H1 w = Ret w' -> well_filed w -> well_filed w'.
Proof.
  unfold scale_priorities. destruct (_ <? _); [|by intros [= <-]].
  intros (s & _ & H)%bind_Ret Hw. destruct (forallb _ _); [|done]. injection H as <-.
  by apply well_filed_fmap.
Qed.

Lemma selection_well_filed w w' l : @proposer_selection H1 w = Ret (w', l) -> well_filed w -> well_filed w'.
Proof.
  intros (p & Hp & H)%bind_Ret Hw. injection H as <- _. cbn.
  apply map_Forall_insert_2; [done|]. by apply well_filed_fmap.
Qed.

Lemma one_round_agrees w : well_filed w -> @one_round H1 w = @one_round H2 w.
Proof.
  intros Hw. unfold one_round. rewrite center_priorities_agrees.
  destruct (@center_priorities H2 w) as [w1|] eqn:E1; [|done]. cbn.
  rewrite <-center_priorities_agrees in E1. pose proof (center_well_filed _ _ E1 Hw) as Hw1.
  rewrite scale_priorities_agrees. destruct (@scale_priorities H2 w1) as [w2|] eqn:E2; [|done]. cbn.
  rewrite <-scale_priorities_agrees in E2. pose proof (scale_well_filed _ _ E2 Hw1) as Hw2.
  by rewrite proposer_selection_agrees.
Qed.

Lemma one_round_well_filed w w' l : @one_round H1 w = Ret (w', l) -> well_filed w -> well_filed w'.
Proof.
  intros (w1 & E1 & H)%bind_Ret Hw. apply bind_Ret in H as (w2 & E2 & H).
  apply bind_Ret in H as ([w3 l3] & E3 & H). injection H as <- _.
  apply (selection_well_filed _ _ _ E3), (scale_well_filed _ _ E2), (center_well_filed _ _ E1), Hw.
Qed.

Lemma catchup_agrees n w l : well_filed w -> @catchup H1 n w l = @catchup H2 n w l.
Proof.
  revert w l. induction n as [|n IH]; intros w l Hw; cbn; [done|]. rewrite <-one_round_agrees by done.
  destruct (@one_round H1 w) as [[w1 l1]|] eqn:E; [|done]. cbn. apply IH. by eapply one_round_well_filed.
Qed.

Lemma catchup_well_filed n w l w' l' : @catchup H1 n w l = Ret (w', l') -> well_filed w -> well_filed w'.
Proof.
  revert w l. induction n as [|n IH]; intros w l H Hw; cbn in H; [by injection H as <- _|].
  apply bind_Ret in H as ([w1 l1] & E & H). eapply IH; [done|]. by eapply one_round_well_filed.
Qed.

Lemma choose_proposer_agrees w b : well_filed w -> @choose_proposer H1 w b = @choose_proposer H2 w b.
Proof.
  intros Hw. unfold choose_proposer. destruct (b =? _).
  - by rewrite proposer_selection_agrees.
  - by rewrite catchup_agrees.
Qed.

Lemma choose_well_filed w b w' l : @choose_proposer H1 w b = Ret (w', l) -> well_filed w -> well_filed w'.
Proof.
  unfold choose_proposer. intros H Hw. destruct (b =? _).
  - destruct (last_proposer w); [by injection H as <- _|].
    apply bind_Ret in H as ([w1 l1] & E & H). injection H as <- _. by apply (selection_well_filed _ _ _ E).
  - apply bind_Ret in H as ([w1 l1] & E & H). injection H as <- _. by apply (catchup_well_filed _ _ _ _ _ E).
Qed.
End agreement.

Lemma insert_validator_well_filed vs v : map_Forall (fun k v => peer_id v = k) vs ->
  map_Forall (fun k v => peer_id v = k) (insert_validator vs v).
Proof. intros Hw. unfold insert_validator. case_match; [done|]. by apply map_Forall_insert_2. Qed.

Lemma new_round_robin_well_filed vs start : well_filed (new_round_robin vs start).
Proof.
  unfold well_filed, new_round_robin. cbn.
  assert (forall m, map_Forall (fun k v => peer_id v = k) m ->
    map_Forall (fun k v => peer_id v = k) (foldl insert_validator m vs)) as H.
  { induction vs as [|v vs IH]; intros m Hm; cbn; [done|]. apply IH. by apply insert_validator_well_filed. }
  apply H, map_Forall_empty.
Qed.

(** What the chain makes a node do. *)
Inductive leader_op :=
| Choose (b : BlockNumber)
| Join (peer : Address) (power : u64)
| Leave (peer : Address).

(** The leaders that a node chooses along the way. *)
Fixpoint run_ops `{HashIter} w (ops : list leader_op) : outcome (WeightedRoundRobin * list (option Address)) :=
  match ops with
  | [] => Ret (w, [])
  | Choose b :: ops' =>
      '(w, l) ← choose_proposer w b;
      '(w, ls) ← run_ops w ops';
      Ret (w, l :: ls)
  | Join peer power :: ops' => run_ops (add_validator w peer power) ops'
  | Leave peer :: ops' => run_ops (remove_validator w peer) ops'
  end.

(** C10. All nodes choose the same leaders: whatever the order in which two nodes
    iterate over their hash sets, the same blocks, joins and leaves give the same
    leaders and the same priorities. *)
Theorem nodes_agree_on_leaders (H1 H2 : HashIter) vs start ops :
  @run_ops H1 (new_round_robin vs start) ops = @run_ops H2 (new_round_robin vs start) ops.
Proof.
  pose proof (new_round_robin_well_filed vs start) as Hw.
  generalize dependent (new_round_robin vs start). induction ops as [|[b|peer power|peer] ops IH];
    intros w Hw; cbn; [done|..].
  - rewrite <-(choose_proposer_agrees H1 H2) by done.
    destruct (@choose_proposer H1 w b) as [[w1 l1]|] eqn:E; [|done]. cbn.
    rewrite IH; [done|]. exact (choose_well_filed H1 w b w1 l1 E Hw).
  - unfold add_validator. rewrite (total_voting_power_agrees H1 H2). apply IH.
    by apply insert_validator_well_filed.
  - apply IH. by apply map_Forall_delete.
Qed.

(** ** The chosen leader *)

Section leader.
Context `{HI : HashIter}.

(** What a validator brings into a selection. *)
Definition weight v : i64 := i64_wrap (v_priority v + i64_wrap (voting_power v)).

Definition boosted w : gmap Address AngstromValidator :=
  (fun v => set_priority v (weight v)) <$> validators w.

Lemma proposer_selection_inv w w' l : proposer_selection w = Ret (w', l) ->
  exists p, max_by priority (hm_values (boosted w)) = Some p /\ l = peer_id p /\
    validators w' = <[peer_id p := set_priority p
      (i64_wrap (v_priority p - i64_wrap (total_voting_power w)))]> (boosted w).
Proof.
  intros (p & Hp & H)%bind_Ret. injection H as <- <-. exists p.
  destruct (max_by priority _) eqn:E; [|done]. injection Hp as ->. done.
Qed.

(** The leader of a round is the validator of the largest priority after
    every priority has grown by its voting power; of several the one with the
    largest address. *)
Theorem leader_has_largest_priority w w' l (Hw : well_filed w)
    (Hs : proposer_selection w = Ret (w', l)) :
  exists v, validators w !! l = Some v /\
    forall k v', validators w !! k = Some v' ->
      weight v' < weight v \/ weight v' = weight v /\ k <= l.
Proof.
  apply proposer_selection_inv in Hs as (p & Hp & -> & _).
  apply max_by_spec in Hp as [Hin Hmax]; [|apply priority_opp|apply priority_trans].
  apply elem_of_hm_values in Hin as [k Hk]. unfold boosted in Hk. rewrite lookup_fmap in Hk.
  apply fmap_Some in Hk as (v & Hv & ->). cbn. rewrite (Hw _ _ Hv). exists v. split; [done|].
  intros k' v' Hv'. specialize (Hmax (set_priority v' (weight v'))).
  assert (set_priority v' (weight v') ∈ hm_values (boosted w)) as Hin'.
  { apply elem_of_hm_values. exists k'. unfold boosted. by rewrite lookup_fmap, Hv'. }
  specialize (Hmax Hin'). unfold priority in Hmax. cbn in Hmax.
  rewrite (Hw _ _ Hv), (Hw _ _ Hv') in Hmax.
  destruct (Z.compare_spec (weight v') (weight v)); cbn in Hmax; [|by left|done].
  right. split; [done|]. apply Z.compare_ngt_iff in Hmax. lia.
Qed.

(** ** Catching up *)

Lemma catchup_split n1 n2 w l : catchup (n1 + n2) w l =
  ('(w, l) ← catchup n1 w l; catchup n2 w l).
Proof.
  revert w l. induction n1 as [|n1 IH]; intros w l; cbn; [done|].
  destruct (one_round w) as [[w1 l1]|]; [|done]. cbn. apply IH.
Qed.

Lemma one_round_block w w' l : one_round w = Ret (w', l) -> block_number w' = block_number w.
Proof.
  intros (w1 & E1 & H)%bind_Ret. apply bind_Ret in H as (w2 & E2 & H).
  apply bind_Ret in H as ([w3 l3] & E3 & H). injection H as <- _.
  apply bind_Ret in E1 as (a & _ & E1). injection E1 as <-.
  apply bind_Ret in E3 as (p & _ & E3). injection E3 as <- _.
  unfold scale_priorities in E2. destruct (_ <? _); [|by injection E2 as <-].
  apply bind_Ret in E2 as (s & _ & E2). destruct (forallb _ _); [|done]. by injection E2 as <-.
Qed.

(** The rounds do not look at the block number. *)
Lemma one_round_set_block w b : one_round (set_block_number w b) =
  ('(w', l) ← one_round w; Ret (set_block_number w' b, l)).
Proof.
  unfold one_round, center_priorities.
  destruct w as [vs pf bn lp]. cbn [validators set_block_number].
  destruct (i64_div _ _) as [a|]; [|done]. cbn [mbind outcome_bind].
  unfold set_validators. cbn [validators new_joiner_penalty_factor block_number last_proposer].
  set (vs1 := _ <$> vs). unfold scale_priorities, total_voting_power. cbn [validators].
  destruct (_ <? _); cbn [mbind outcome_bind].
  - destruct (i64_div _ _) as [s|]; [|done]. cbn [mbind outcome_bind].
    destruct (forallb _ _); [|done]. cbn [mbind outcome_bind].
    unfold proposer_selection, total_voting_power. cbn [validators set_validators].
    by destruct (max_by _ _).
  - unfold proposer_selection, total_voting_power. cbn [validators set_validators].
    by destruct (max_by _ _).
Qed.

Lemma catchup_set_block n w b l : catchup n (set_block_number w b) l =
  ('(w', l) ← catchup n w l; Ret (set_block_number w' b, l)).
Proof.
  revert w l. induction n as [|n IH]; intros w l; cbn; [done|]. rewrite one_round_set_block.
  destruct (one_round w) as [[w1 l1]|]; [|done]. cbn. apply IH.
Qed.

Lemma catchup_leader n w l1 l2 : (0 < n)%nat -> catchup n w l1 = catchup n w l2.
Proof. destruct n; [lia|]. done. Qed.

(** A node that slept through blocks catches up: choosing the leader of a
    later block at once gives the leader and the state of choosing the leaders of
    the blocks before it as well. *)
Theorem catching_up_is_stepping w b1 b2 w1 l1
    (Hb1 : block_number w < b1 < b2) (Hb2 : b2 - block_number w < 2 ^ 64)
    (Hc : choose_proposer w b1 = Ret (w1, l1)) :
  choose_proposer w1 b2 = choose_proposer w b2.
Proof.
  unfold choose_proposer in Hc. rewrite (proj2 (Z.eqb_neq b1 (block_number w))) in Hc by lia.
  apply bind_Ret in Hc as ([w0 l0] & E & Hc). injection Hc as <- <-.
  unfold choose_proposer. cbn [block_number set_block_number].
  rewrite (proj2 (Z.eqb_neq b2 b1)), (proj2 (Z.eqb_neq b2 (block_number w))) by lia.
  unfold u64_wrap in *. rewrite Z.mod_small in E by lia. rewrite !Z.mod_small by lia.
  replace (Z.to_nat (b2 - block_number w)) with
    (Z.to_nat (b1 - block_number w) + Z.to_nat (b2 - b1))%nat by lia.
  rewrite catchup_split, E. cbn [mbind outcome_bind]. rewrite catchup_set_block.
  rewrite (catchup_leader _ w0 None l0) by lia. by destruct (catchup _ w0 l0) as [[]|].
Qed.

(** ** Conservation *)

Definition priorities w : list i64 := v_priority <$> hm_values (validators w).

Lemma hm_values_insert (m : gmap Address AngstromValidator) k v v' : m !! k = Some v ->
  v' :: hm_values (delete k m) ≡ₚ hm_values (<[k := v']> m).
Proof.
  intros Hk. unfold hm_values. rewrite !hm_iter_perm.
  rewrite <-insert_delete_eq, map_to_list_insert by apply lookup_delete_eq. done.
Qed.

Lemma hm_values_delete (m : gmap Address AngstromValidator) k v : m !! k = Some v ->
  v :: hm_values (delete k m) ≡ₚ hm_values m.
Proof. intros Hk. rewrite (hm_values_insert m k v v Hk). by rewrite insert_id. Qed.

Lemma hm_values_fmap {V W} (f : V -> W) (m : gmap Address V) :
  hm_values (f <$> m) ≡ₚ f <$> hm_values m.
Proof.
  unfold hm_values. rewrite !hm_iter_perm, map_to_list_fmap.
  rewrite <-!list_fmap_compose. f_equiv.
Qed.

Lemma i64_wrap_eq z : exists k, i64_wrap z = z + k * 2 ^ 64.
Proof.
  exists (- ((z + 2 ^ 63) / 2 ^ 64)). unfold i64_wrap.
  pose proof (Z.div_mod (z + 2 ^ 63) (2 ^ 64)). lia.
Qed.

Lemma u64_wrap_eq z : exists k, u64_wrap z = z + k * 2 ^ 64.
Proof. exists (- (z / 2 ^ 64)). unfold u64_wrap. pose proof (Z.div_mod z (2 ^ 64)). lia. Qed.

Lemma i64_wrap_congr x y k : x = y + k * 2 ^ 64 -> i64_wrap x = i64_wrap y.
Proof.
  intros ->. unfold i64_wrap. f_equal.
  replace (y + k * 2 ^ 64 + 2 ^ 63) with (y + 2 ^ 63 + k * 2 ^ 64) by lia. by rewrite Z_mod_plus_full.
Qed.

Lemma zsum_weights l : exists k,
  zsum (weight <$> l) = zsum (v_priority <$> l) + zsum (voting_power <$> l) + k * 2 ^ 64.
Proof.
  induction l as [|v l [k IH]]; [by exists 0|].
  destruct (i64_wrap_eq (voting_power v)) as [k1 E1].
  destruct (i64_wrap_eq (v_priority v + i64_wrap (voting_power v))) as [k2 E2].
  exists (k + k1 + k2). rewrite !fmap_cons. cbn [zsum]. fold (weight v) in E2. lia.
Qed.

(** A selection hands the voting power that it adds to the validators to the
    leader as a debt: the sum of the priorities does not change. *)
Theorem selection_conserves_priority w w' l (Hw : well_filed w)
    (Hs : proposer_selection w = Ret (w', l)) :
  i64_sum (priorities w') = i64_sum (priorities w).
Proof.
  apply proposer_selection_inv in Hs as (p & Hp & _ & Hvs).
  apply max_by_spec in Hp as [Hin _]; [|apply priority_opp|apply priority_trans].
  apply elem_of_hm_values in Hin as [k Hk].
  assert (peer_id p = k) as Hpk by (by apply (well_filed_fmap w _ Hw) in Hk).
  unfold priorities. rewrite !i64_sum_eq, Hvs, Hpk, <-(hm_values_insert _ _ _ _ Hk), fmap_cons.
  cbn [zsum].
  assert (v_priority p + zsum (v_priority <$> hm_values (delete k (boosted w))) =
    zsum (weight <$> hm_values (validators w))) as Hsum.
  { pose proof (hm_values_delete (boosted w) k p Hk) as Hd.
    apply (fmap_Permutation v_priority), zsum_perm in Hd. cbn in Hd. rewrite Hd.
    unfold boosted. rewrite hm_values_fmap, <-list_fmap_compose. done. }
  destruct (zsum_weights (hm_values (validators w))) as [k1 E1].
  destruct (i64_wrap_eq (v_priority p - i64_wrap (total_voting_power w))) as [k2 E2].
  destruct (i64_wrap_eq (total_voting_power w)) as [k3 E3].
  destruct (u64_wrap_eq (zsum (voting_power <$> hm_values (validators w)))) as [k4 E4].
  rewrite <-u64_sum_eq in E4. fold (total_voting_power w) in E4.
  apply (i64_wrap_congr _ _ (k1 + k2 - k3 - k4)). cbn [v_priority set_priority]. lia.
Qed.

(** ** Bounds *)

Lemma foldl_max_spec l a : (forall x, x ∈ l -> x <= foldl Z.max a l) /\ a <= foldl Z.max a l /\
  (foldl Z.max a l = a \/ foldl Z.max a l ∈ l).
Proof.
  revert a. induction l as [|y l IH]; intros a; cbn [foldl].
  { split; [by intros x ?%not_elem_of_nil|]. split; [lia|by left]. }
  destruct (IH (Z.max a y)) as (H1 & H2 & H3). split; [|split; [lia|]].
  - intros x [->|Hx]%elem_of_cons; [lia|by apply H1].
  - destruct H3 as [H3|H3]; [|right; by right].
    destruct (Z.max_spec a y) as [[_ E]|[_ E]]; rewrite E in *; [right; rewrite H3; left|by left].
Qed.

Lemma foldl_min_spec l a : (forall x, x ∈ l -> foldl Z.min a l <= x) /\ foldl Z.min a l <= a /\
  (foldl Z.min a l = a \/ foldl Z.min a l ∈ l).
Proof.
  revert a. induction l as [|y l IH]; intros a; cbn [foldl].
  { split; [by intros x ?%not_elem_of_nil|]. split; [lia|by left]. }
  destruct (IH (Z.min a y)) as (H1 & H2 & H3). split; [|split; [lia|]].
  - intros x [->|Hx]%elem_of_cons; [lia|by apply H1].
  - destruct H3 as [H3|H3]; [|right; by right].
    destruct (Z.min_spec a y) as [[_ E]|[_ E]]; rewrite E in *; [by left|right; rewrite H3; left].
Qed.

(** The truncated average lies between the smallest and the largest element. *)
Lemma average_between l lo hi : l <> [] -> (forall x, x ∈ l -> lo <= x <= hi) ->
  lo <= Z.quot (zsum l) (Z.of_nat (length l)) <= hi.
Proof.
  intros Hne Hl. pose proof (zsum_bounds l lo hi Hl) as [H1 H2].
  assert (0 < Z.of_nat (length l)) as Hn by (destruct l; [done|cbn; lia]).
  split.
  - destruct (Z.le_gt_cases 0 (zsum l)).
    + rewrite Z.quot_div_nonneg by lia. apply Z.div_le_lower_bound; lia.
    + rewrite <-(Z.opp_involutive (zsum l)), Z.quot_opp_l, Z.quot_div_nonneg by lia.
      enough (- zsum l / Z.of_nat (length l) <= - lo) by lia. apply Z.div_le_upper_bound; lia.
  - destruct (Z.le_gt_cases 0 (zsum l)).
    + rewrite Z.quot_div_nonneg by lia. apply Z.div_le_upper_bound; lia.
    + rewrite <-(Z.opp_involutive (zsum l)), Z.quot_opp_l, Z.quot_div_nonneg by lia.
      enough (- hi <= - zsum l / Z.of_nat (length l)) by lia. apply Z.div_le_lower_bound; lia.
Qed.

(** The bounds that keep the arithmetic of a round inside 64 bits. *)
Record round_ok w : Prop := {
  ok_some : validators w <> ∅;
  ok_few : Z.of_nat (size (validators w)) <= 4096;
  ok_power : map_Forall (fun _ v => 0 <= voting_power v) (validators w);
  ok_total : 0 < zsum (voting_power <$> hm_values (validators w)) <= 2 ^ 48;
  ok_priority : map_Forall (fun _ v => - 2 ^ 50 <= v_priority v <= 2 ^ 50) (validators w)
}.

Definition power_sum w : Z := zsum (voting_power <$> hm_values (validators w)).

Lemma elem_of_priorities w x : x ∈ priorities w <->
  exists k v, validators w !! k = Some v /\ x = v_priority v.
Proof.
  unfold priorities. rewrite list_elem_of_fmap. setoid_rewrite elem_of_hm_values. naive_solver.
Qed.

Lemma length_priorities w : length (priorities w) = size (validators w).
Proof.
  unfold priorities, hm_values. rewrite !length_fmap. rewrite (Permutation_length (hm_iter_perm _)).
  apply length_map_to_list.
Qed.

Lemma priorities_nonempty w : validators w <> ∅ -> priorities w <> [].
Proof.
  intros Hne Hnil. apply Hne, map_size_empty_inv. by rewrite <-length_priorities, Hnil.
Qed.

Lemma total_small w : round_ok w -> total_voting_power w = power_sum w.
Proof.
  intros [_ _ _ Ht _]. unfold total_voting_power, power_sum. rewrite u64_sum_eq. unfold u64_wrap.
  apply Z.mod_small. lia.
Qed.

(** The same validators with the same powers. *)
Definition same_powers w w' : Prop := voting_power <$> validators w' = voting_power <$> validators w.

Lemma same_powers_fmap w f : same_powers w (set_validators w ((fun v => set_priority v (f v)) <$> validators w)).
Proof. unfold same_powers. cbn. by rewrite <-map_fmap_compose. Qed.

Lemma same_powers_trans w1 w2 w3 : same_powers w1 w2 -> same_powers w2 w3 -> same_powers w1 w3.
Proof. unfold same_powers. congruence. Qed.

Lemma same_powers_sum w w' : same_powers w w' -> power_sum w' = power_sum w.
Proof. unfold power_sum, same_powers. intros H. by rewrite <-!hm_values_fmap, H. Qed.

Lemma same_powers_ok w w' : same_powers w w' -> round_ok w ->
  (forall x, x ∈ priorities w' -> - 2 ^ 50 <= x <= 2 ^ 50) -> round_ok w'.
Proof.
  intros Hs [H1 H2 H3 H4 _] Hp. pose proof (same_powers_sum _ _ Hs) as Hsum. unfold power_sum in Hsum.
  unfold same_powers in Hs. split.
  - rewrite <-(fmap_empty_iff voting_power), Hs. by rewrite fmap_empty_iff.
  - by rewrite <-(map_size_fmap voting_power), Hs, map_size_fmap.
  - intros k v Hv. assert ((voting_power <$> validators w') !! k = Some (voting_power v)) as Hl
      by (by rewrite lookup_fmap, Hv).
    rewrite Hs, lookup_fmap in Hl. apply fmap_Some in Hl as (v0 & Hv0 & ->). exact (H3 k v0 Hv0).
  - by rewrite Hsum.
  - intros k v Hv. apply Hp, elem_of_priorities. eauto.
Qed.

(** Centring leaves a priority on either side of zero. *)
Lemma center_ok w : round_ok w -> exists w', center_priorities w = Ret w' /\ same_powers w w' /\
  (forall x, x ∈ priorities w' -> - 2 ^ 51 <= x <= 2 ^ 51) /\
  (exists x, x ∈ priorities w' /\ x <= 0) /\ (exists x, x ∈ priorities w' /\ 0 <= x).
Proof.
  intros Hok. pose proof Hok as [Hne Hfew _ _ Hp].
  pose proof (priorities_nonempty w Hne) as Hnil.
  assert (forall x, x ∈ priorities w -> - 2 ^ 50 <= x <= 2 ^ 50) as Hb
    by (intros x (k & v & Hv & ->)%elem_of_priorities; by apply (Hp k)).
  set (n := Z.of_nat (size (validators w))) in *.
  assert (0 < n) by (pose proof (proj2 (map_size_non_empty_iff _) Hne); lia).
  pose proof (average_between _ _ _ Hnil Hb) as Havg. rewrite length_priorities in Havg. fold n in Havg.
  pose proof (zsum_bounds _ _ _ Hb) as Hsum. rewrite length_priorities in Hsum. fold n in Hsum.
  set (avg := Z.quot (zsum (priorities w)) n) in *.
  exists (set_validators w ((fun v => set_priority v (i64_wrap (v_priority v - avg))) <$> validators w)).
  assert (forall x, x ∈ priorities (set_validators w ((fun v => set_priority v
    (i64_wrap (v_priority v - avg))) <$> validators w)) <-> exists y, y ∈ priorities w /\ x = y - avg) as Hel.
  { intros x. rewrite elem_of_priorities. cbn. setoid_rewrite lookup_fmap.
    setoid_rewrite elem_of_priorities. split.
    - intros (k & v & (v0 & Hv & ->)%fmap_Some & ->). exists (v_priority v0). split; [eauto|].
      cbn. pose proof (Hp k v0 Hv) as Hv'. cbn in Hv'. apply i64_wrap_small. unfold i64_min, i64_max. lia.
    - intros (y & (k & v & Hv & ->) & ->). eexists k, _. rewrite Hv. split; [done|]. cbn.
      pose proof (Hp k v Hv) as Hv'. cbn in Hv'. symmetry. apply i64_wrap_small. unfold i64_min, i64_max. lia. }
  split; [|split; [apply same_powers_fmap|split; [|split]]].
  - unfold center_priorities. rewrite i64_sum_eq. fold (priorities w). fold n.
    rewrite !i64_wrap_small by (unfold i64_min, i64_max; nia).
    unfold i64_div, i64_divides. rewrite (proj2 (Z.eqb_neq n 0)), (proj2 (Z.eqb_neq n (-1))) by lia.
    by rewrite andb_false_r.
  - intros x (y & Hy & ->)%Hel. specialize (Hb y Hy). lia.
  - destruct (foldl_min_spec (priorities w) i64_max) as (Hmin & _ & Hor).
    assert (foldl Z.min i64_max (priorities w) ∈ priorities w) as Hin.
    { destruct Hor as [E|]; [|done]. destruct (priorities w) as [|y l] eqn:El; [done|].
      pose proof (Hmin y ltac:(left)). pose proof (Hb y ltac:(left)). unfold i64_max in *. lia. }
    exists (foldl Z.min i64_max (priorities w) - avg). split; [apply Hel; eauto|].
    pose proof (average_between (priorities w) (foldl Z.min i64_max (priorities w)) (2 ^ 50) Hnil) as Ha.
    rewrite length_priorities in Ha. fold n avg in Ha. apply Z.le_sub_0, Ha.
    intros x Hx. split; [by apply Hmin|by apply Hb].
  - destruct (foldl_max_spec (priorities w) i64_min) as (Hmax & _ & Hor).
    assert (foldl Z.max i64_min (priorities w) ∈ priorities w) as Hin.
    { destruct Hor as [E|]; [|done]. destruct (priorities w) as [|y l] eqn:El; [done|].
      pose proof (Hmax y ltac:(left)). pose proof (Hb y ltac:(left)). unfold i64_min in *. lia. }
    exists (foldl Z.max i64_min (priorities w) - avg). split; [apply Hel; eauto|].
    pose proof (average_between (priorities w) (- 2 ^ 50) (foldl Z.max i64_min (priorities w)) Hnil) as Ha.
    rewrite length_priorities in Ha. fold n avg in Ha. apply Z.le_0_sub, Ha.
    intros x Hx. split; [by apply Hb|by apply Hmax].
Qed.

Lemma quot_abs a b c : 0 < b -> Z.abs a <= c * b -> Z.abs (Z.quot a b) <= c.
Proof.
  intros Hb Ha. rewrite <-Z.quot_abs, (Z.abs_eq b), Z.quot_div_nonneg by lia.
  apply Z.div_le_upper_bound; lia.
Qed.

(** Scaling brings the priorities within three times the total voting power. *)
Lemma scale_ok w : 0 < power_sum w <= 2 ^ 48 -> total_voting_power w = power_sum w ->
  (forall x, x ∈ priorities w -> - 2 ^ 51 <= x <= 2 ^ 51) ->
  (exists x, x ∈ priorities w /\ x <= 0) -> (exists x, x ∈ priorities w /\ 0 <= x) ->
  exists w', scale_priorities w = Ret w' /\ same_powers w w' /\
    forall x, x ∈ priorities w' -> Z.abs x <= 3 * power_sum w.
Proof.
  intros HT Htot Hb (x1 & Hx1 & Hn1) (x2 & Hx2 & Hn2). unfold scale_priorities.
  fold (priorities w). rewrite Htot.
  destruct (foldl_max_spec (priorities w) i64_min) as (Hmax & _ & HM).
  destruct (foldl_min_spec (priorities w) i64_max) as (Hmin & _ & Hm).
  set (M := foldl Z.max i64_min (priorities w)) in *. set (m := foldl Z.min i64_max (priorities w)) in *.
  set (T := power_sum w) in *.
  assert (0 <= M <= 2 ^ 51) by (pose proof (Hmax _ Hx2); destruct HM as [->|HM%Hb]; unfold i64_min in *; lia).
  assert (- 2 ^ 51 <= m <= 0) by (pose proof (Hmin _ Hx1); destruct Hm as [->|Hm%Hb]; unfold i64_max in *; lia).
  assert (forall x, x ∈ priorities w -> Z.abs x <= M - m) as Habs
    by (intros x Hx; pose proof (Hmax _ Hx); pose proof (Hmin _ Hx); lia).
  unfold ONE_E3. rewrite !i64_wrap_small by (rewrite ?i64_wrap_small; unfold i64_min, i64_max; lia).
  destruct (Z.ltb_spec (2 * T) (M - m)) as [Hlt|Hle].
  2: { exists w. split; [done|]. split; [done|]. intros x Hx. specialize (Habs x Hx). lia. }
  unfold i64_div. assert (i64_divides ((M - m) * 1000) (2 * T) = true) as ->.
  { unfold i64_divides. rewrite (proj2 (Z.eqb_neq (2 * T) 0)), (proj2 (Z.eqb_neq (2 * T) (-1))) by lia.
    by rewrite andb_false_r. }
  cbn [mbind outcome_bind]. set (s := Z.quot ((M - m) * 1000) (2 * T)).
  assert (1000 <= s /\ (M - m) * 1000 < 2 * T * s + 2 * T) as [Hs1 Hs2].
  { subst s. rewrite Z.quot_div_nonneg by lia. split; [apply Z.div_le_lower_bound; lia|].
    pose proof (Z.mul_succ_div_gt ((M - m) * 1000) (2 * T)). lia. }
  assert (forallb (fun p => i64_divides (i64_wrap (p * 1000)) s) (priorities w) = true) as ->.
  { apply forallb_forall. intros x _. unfold i64_divides.
    rewrite (proj2 (Z.eqb_neq s 0)), (proj2 (Z.eqb_neq s (-1))) by lia. by rewrite andb_false_r. }
  eexists. split; [reflexivity|]. split; [apply same_powers_fmap|].
  intros x (k & v & Hv & ->)%elem_of_priorities. cbn in Hv. rewrite lookup_fmap in Hv.
  apply fmap_Some in Hv as (v0 & Hv & ->). cbn.
  assert (v_priority v0 ∈ priorities w) as Hin by (apply elem_of_priorities; eauto).
  pose proof (Habs _ Hin). pose proof (Hb _ Hin).
  rewrite i64_wrap_small by (unfold i64_min, i64_max; lia). apply quot_abs; nia.
Qed.

Lemma power_le_sum w k v : map_Forall (fun _ v => 0 <= voting_power v) (validators w) ->
  validators w !! k = Some v -> 0 <= voting_power v <= power_sum w.
Proof.
  intros Hp Hk. split; [by apply (Hp k)|]. unfold power_sum.
  rewrite <-(hm_values_delete _ _ _ Hk), fmap_cons. cbn [zsum].
  enough (0 <= zsum (voting_power <$> hm_values (delete k (validators w)))) by lia.
  apply zsum_nonneg. intros x (v' & -> & [k' Hv']%elem_of_hm_values)%list_elem_of_fmap.
  apply lookup_delete_Some in Hv' as [_ Hv']. by apply (Hp k').
Qed.

Lemma max_by_some {A} (cmp : A -> A -> comparison) l : l <> [] -> exists m, max_by cmp l = Some m.
Proof. destruct l; [done|]. intros _. by eexists. Qed.

(** A selection moves a priority by at most the total voting power. *)
Lemma selection_ok w : round_ok w -> well_filed w ->
  (forall x, x ∈ priorities w -> Z.abs x <= 3 * power_sum w) ->
  exists w' l, proposer_selection w = Ret (w', l) /\ same_powers w w' /\
    forall x, x ∈ priorities w' -> Z.abs x <= 4 * power_sum w.
Proof.
  intros Hok Hw Hb. pose proof Hok as [Hne _ Hpow HT _]. fold (power_sum w) in HT.
  assert (forall k v, boosted w !! k = Some v -> peer_id v = k /\
    - 3 * power_sum w <= v_priority v <= 4 * power_sum w) as Hbo.
  { intros k v Hv. unfold boosted in Hv. rewrite lookup_fmap in Hv.
    apply fmap_Some in Hv as (v0 & Hv & ->). split; [exact (Hw _ _ Hv)|].
    pose proof (power_le_sum w k v0 Hpow Hv).
    assert (v_priority v0 ∈ priorities w) as Hin by (apply elem_of_priorities; eauto).
    specialize (Hb _ Hin). unfold weight. cbn [v_priority set_priority].
    rewrite !i64_wrap_small; rewrite ?i64_wrap_small; unfold i64_min, i64_max; lia. }
  destruct (max_by_some priority (hm_values (boosted w))) as [p Hp].
  { intros Hnil. apply (f_equal length) in Hnil. unfold hm_values in Hnil.
    rewrite length_fmap, (Permutation_length (hm_iter_perm _)), length_map_to_list in Hnil.
    unfold boosted in Hnil. rewrite map_size_fmap in Hnil. by apply map_size_empty_inv in Hnil. }
  pose proof Hp as Hp'. apply max_by_spec in Hp' as [[k Hk]%elem_of_hm_values _];
    [|apply priority_opp|apply priority_trans]. destruct (Hbo _ _ Hk) as [Hid Hpb].
  eexists _, _. split.
  { unfold proposer_selection. fold weight. change (_ <$> validators w) with (boosted w).
    rewrite Hp. reflexivity. }
  cbn [validators set_validators]. split.
  - unfold same_powers. cbn. rewrite Hid, fmap_insert. cbn. rewrite insert_id.
    + unfold boosted. by rewrite <-map_fmap_compose.
    + by rewrite lookup_fmap, Hk.
  - intros x (k' & v & Hv & ->)%elem_of_priorities. cbn in Hv. rewrite Hid in Hv.
    apply lookup_insert_Some in Hv as [[<- <-]|[_ Hv]]; [|apply Hbo in Hv; lia].
    cbn [v_priority set_priority]. rewrite (total_small w Hok).
    rewrite !i64_wrap_small; rewrite ?i64_wrap_small; unfold i64_min, i64_max; lia.
Qed.

Lemma one_round_ok w : round_ok w -> well_filed w -> exists w' l, one_round w = Ret (w', l) /\
  round_ok w' /\ well_filed w' /\ same_powers w w' /\
  forall x, x ∈ priorities w' -> Z.abs x <= 4 * power_sum w.
Proof.
  intros Hok Hw. pose proof (ok_total w Hok) as HT. fold (power_sum w) in HT.
  destruct (center_ok w Hok) as (w1 & E1 & S1 & B1 & N1 & P1).
  pose proof (same_powers_sum _ _ S1) as T1.
  assert (total_voting_power w1 = power_sum w1) as Ht1.
  { unfold total_voting_power. rewrite u64_sum_eq. fold (power_sum w1). apply Z.mod_small. lia. }
  destruct (scale_ok w1) as (w2 & E2 & S2 & B2); [by rewrite T1|done..|].
  rewrite T1 in B2. pose proof (same_powers_trans _ _ _ S1 S2) as S12.
  pose proof (same_powers_sum _ _ S12) as T2.
  assert (well_filed w2) as W2 by (eapply scale_well_filed; [done|]; by eapply center_well_filed).
  assert (round_ok w2) as Ok2 by (apply (same_powers_ok w); [done..|]; intros x Hx%B2; lia).
  destruct (selection_ok w2 Ok2 W2) as (w3 & l & E3 & S3 & B3); [by rewrite T2|].
  rewrite T2 in B3. exists (set_last_proposer w3 (Some l)), l.
  assert (well_filed w3) as W3 by (by eapply selection_well_filed).
  unfold one_round. rewrite E1. cbn. rewrite E2. cbn. rewrite E3. split; [done|].
  pose proof (same_powers_trans _ _ _ S12 S3) as S.
  split; [|done]. apply (same_powers_ok w); [done..|]. intros x Hx%B3. lia.
Qed.

Lemma catchup_ok n w l : round_ok w -> well_filed w -> exists w' l', catchup n w l = Ret (w', l') /\
  round_ok w' /\ well_filed w' /\ same_powers w w' /\ (n <> O -> is_Some l') /\
  (n <> O -> forall x, x ∈ priorities w' -> Z.abs x <= 4 * power_sum w).
Proof.
  revert w l. induction n as [|n IH]; intros w l Hok Hw; cbn [catchup]; [by exists w, l|].
  destruct (one_round_ok w Hok Hw) as (w1 & l1 & -> & Hok1 & Hw1 & Hs1 & Hb1). cbn.
  destruct (IH w1 (Some l1) Hok1 Hw1) as (w2 & l2 & E2 & Hok2 & Hw2 & Hs2 & Hl2 & Hb2).
  exists w2, l2. rewrite E2. split; [done|]. split; [done|]. split; [done|].
  split; [by eapply same_powers_trans|]. rewrite <-(same_powers_sum _ _ Hs1).
  destruct n as [|n]; [|split; intros _; [by apply Hl2|by apply Hb2]].
  injection E2 as <- <-. split; intros _; [by eexists|]. by rewrite (same_powers_sum _ _ Hs1).
Qed.

(** With at most 4096 validators whose powers add up to at most 2^48 (after
    the factor of a thousand) the arithmetic never overflows and never divides by
    zero: a leader is chosen for every later block, and afterwards no priority
    exceeds four times the total power, however many blocks were skipped. *)
Theorem choose_proposer_bounded w block (Hok : round_ok w) (Hw : well_filed w)
    (Hb : block_number w < block < block_number w + 2 ^ 64) :
  exists w' l, choose_proposer w block = Ret (w', Some l) /\ round_ok w' /\
    power_sum w' = power_sum w /\ forall x, x ∈ priorities w' -> Z.abs x <= 4 * power_sum w.
Proof.
  unfold choose_proposer. rewrite (proj2 (Z.eqb_neq _ _)) by lia. unfold u64_wrap.
  rewrite Z.mod_small by lia. set (n := Z.to_nat _). assert (n <> O) as Hn by lia.
  destruct (catchup_ok n w None Hok Hw) as (w' & l & -> & Hok' & Hw' & Hs & [l' ->] & Hp); [done|].
  exists (set_block_number w' block), l'. split; [done|].
  split; [by destruct Hok'|]. split; [by apply (same_powers_sum w w')|]. by apply Hp.
Qed.
End leader.

(** ** Examples *)

Section examples.
Local Existing Instance iter_by_encoding.

Definition two_validators : WeightedRoundRobin :=
  new_round_robin [new_validator 1 100; new_validator 2 100] 5.

Lemma two_validators_filed : well_filed two_validators.
Proof. apply new_round_robin_well_filed. Qed.

Lemma leader_has_largest_priority_witness : exists w' v,
  proposer_selection two_validators = Ret (w', 2) /\ validators two_validators !! 2 = Some v.
Proof.
  destruct (proposer_selection two_validators) as [[w' l]|] eqn:E; [|vm_compute in E; discriminate].
  assert (l = 2) as -> by (vm_compute in E; injection E as <- <-; reflexivity).
  destruct (leader_has_largest_priority _ _ _ two_validators_filed E) as (v & Hv & _). by exists w', v.
Defined.

Lemma catching_up_is_stepping_witness : exists w1 l1,
  choose_proposer two_validators 7 = Ret (w1, l1) /\
  choose_proposer w1 9 = choose_proposer two_validators 9.
Proof.
  destruct (choose_proposer two_validators 7) as [[w1 l1]|] eqn:E; [|vm_compute in E; discriminate].
  exists w1, l1. split; [done|]. apply (catching_up_is_stepping _ 7 9 w1 l1); cbn; [lia|lia|exact E].
Defined.

Lemma selection_conserves_priority_witness : exists w' l,
  proposer_selection two_validators = Ret (w', l) /\
  i64_sum (priorities w') = i64_sum (priorities two_validators).
Proof.
  destruct (proposer_selection two_validators) as [[w' l]|] eqn:E; [|vm_compute in E; discriminate].
  exists w', l. split; [done|]. exact (selection_conserves_priority _ _ _ two_validators_filed E).
Defined.

Lemma two_validators_ok : round_ok two_validators.
Proof.
  split.
  - by intros H%(f_equal (lookup 1)).
  - by vm_compute.
  - apply map_Forall_to_list. repeat constructor; by vm_compute.
  - split; by vm_compute.
  - apply map_Forall_to_list. repeat constructor; by vm_compute.
Qed.

Lemma choose_proposer_bounded_witness : exists w' l,
  choose_proposer two_validators 1000005 = Ret (w', Some l) /\ round_ok w'.
Proof.
  destruct (choose_proposer_bounded two_validators 1000005 two_validators_ok two_validators_filed)
    as (w' & l & H & Hok & _); [by cbn; lia|]. exists w', l. split; [exact H|exact Hok].
Defined.

(** The block at which the round robin starts is an exception to
    catching up: asking for its leader runs a selection that a node which starts
    with a later block does not run, and from then on the two nodes disagree. *)
Theorem start_block_diverges : exists w5 l5 w6 w6',
  choose_proposer two_validators 5 = Ret (w5, Some l5) /\
  choose_proposer w5 6 = Ret (w6, Some 1) /\
  choose_proposer two_validators 6 = Ret (w6', Some 2).
Proof.
  destruct (choose_proposer two_validators 5) as [[w5 [l5|]]|] eqn:E5; [|vm_compute in E5; discriminate..].
  destruct (choose_proposer two_validators 6) as [[w6' l6]|] eqn:E6; [|vm_compute in E6; discriminate].
  assert (l6 = Some 2) as -> by (vm_compute in E6; injection E6 as <- <-; reflexivity).
  destruct (choose_proposer w5 6) as [[w6 l]|] eqn:E;
    [|vm_compute in E5; injection E5 as <- <-; vm_compute in E; discriminate].
  assert (l = Some 1) as ->.
  { vm_compute in E5. injection E5 as <- <-. vm_compute in E. by injection E as <- <-. }
  exists w5, l5, w6, w6'. split; [reflexivity|]. split; [exact E|reflexivity].
Qed.
End examples.
