(* ===== verification/SlotClock.v ===== *)
(** * The slot clock

    The model of [crates/types/src/consensus/slot_clock.rs]: the slots of the beacon
    chain, counted from its genesis.  A [Duration] is its number of nanoseconds;
    the time of the system clock, which may fail to be read, is an argument. *)

From S2P Require Import Prelude Ray.
Open Scope Z_scope.

Abbreviation Duration := Z (only parsing).
Abbreviation Slot := Z (only parsing).
Abbreviation u32 := Z (only parsing).

Definition DURATION_MAX : Duration := (2 ^ 64 - 1) * 10 ^ 9 + 999999999.

Definition from_secs (s : u64) : Duration := s * 10 ^ 9.
Definition from_millis (ms : u64) : Duration := ms * 10 ^ 6.
Definition as_millis (d : Duration) : Z := d / 10 ^ 6.
Definition as_secs (d : Duration) : Z := d / 10 ^ 9.

Definition duration_checked_sub (a b : Duration) : option Duration :=
  if a <? b then None else Some (a - b).
Definition duration_checked_add (a b : Duration) : option Duration :=
  if a + b <=? DURATION_MAX then Some (a + b) else None.
Definition duration_checked_mul (a : Duration) (n : u32) : option Duration :=
  if a * n <=? DURATION_MAX then Some (a * n) else None.
Definition duration_saturating_sub (a b : Duration) : Duration := Z.max 0 (a - b).

(** ** The clock *)

Record ManualSlotClock := {
  genesis_slot : Slot;
  genesis_duration : Duration;
  current_time : Duration;
  slot_duration : Duration
}.

Implicit Type c : ManualSlotClock.

(** [ManualSlotClock::new]. *)
Definition new_clock (genesis : Slot) (genesis_time slot : Duration) : outcome ManualSlotClock :=
  if as_millis slot =? 0 then Panic
  else Ret {| genesis_slot := genesis; current_time := genesis_time;
              genesis_duration := genesis_time; slot_duration := slot |}.

Definition new_with_chain_id (chain_id : u64) : outcome (option ManualSlotClock) :=
  if chain_id =? 1 then Some <$> new_clock 0 (from_secs 1606824023) (from_secs 12)
  else if chain_id =? 11155111 then Some <$> new_clock 0 (from_secs 1655733600) (from_secs 12)
  else Ret None.

Definition set_current_time c (d : Duration) : ManualSlotClock :=
  {| genesis_slot := genesis_slot c; genesis_duration := genesis_duration c;
     current_time := d; slot_duration := slot_duration c |}.

Definition slot_of c (now : Duration) : option Slot :=
  if genesis_duration c <=? now then
    Some (u64_wrap (u64_wrap (as_millis (now - genesis_duration c) / as_millis (slot_duration c)) +
      genesis_slot c))
  else None.

Definition start_of c (slot : Slot) : option Duration :=
  if slot <? genesis_slot c then None
  else
    let slot := slot - genesis_slot c in
    if slot <? 2 ^ 32 then
      unadjusted_slot_duration ← duration_checked_mul (slot_duration c) slot;
      duration_checked_add (genesis_duration c) unadjusted_slot_duration
    else None.

Definition duration_to_slot c (slot : Slot) (now : Duration) : option Duration :=
  start ← start_of c slot;
  duration_checked_sub start now.

Definition duration_to_next_slot_from c (now : Duration) : option Duration :=
  if now <? genesis_duration c then duration_checked_sub (genesis_duration c) now
  else
    slot ← slot_of c now;
    duration_to_slot c (u64_wrap (slot + 1)) now.

(** [ManualSlotClock::now], [is_prior_to_genesis] and [duration_to_next_slot]. *)
Definition clock_now c : option Slot := slot_of c (current_time c).
Definition is_prior_to_genesis c : bool := current_time c <? genesis_duration c.
Definition now_or_genesis c : option Slot :=
  if is_prior_to_genesis c then Some (genesis_slot c) else clock_now c.
Definition duration_to_next_slot c : option Duration := duration_to_next_slot_from c (current_time c).

(** [set_slot]: the panics are those of [expect] and of the sum and product of
    durations. *)
Definition set_slot c (slot : u64) : outcome ManualSlotClock :=
  if slot <? genesis_slot c then Panic
  else
    let slots_since_genesis := slot - genesis_slot c in
    if slots_since_genesis <? 2 ^ 32 then
      d ← unwrap (duration_checked_mul (slot_duration c) slots_since_genesis);
      t ← unwrap (duration_checked_add (genesis_duration c) d);
      Ret (set_current_time c t)
    else Panic.

Definition advance_time c (d : Duration) : outcome ManualSlotClock :=
  t ← unwrap (duration_checked_add (current_time c) d);
  Ret (set_current_time c t).

Definition advance_slot c : outcome ManualSlotClock :=
  slot ← unwrap (clock_now c);
  set_slot c (u64_wrap (slot + 1)).

(** The remainder panics for slots shorter than a second. *)
Definition seconds_from_current_slot_start c : outcome (option Duration) :=
  match duration_checked_sub (current_time c) (genesis_duration c) with
  | None => Ret None
  | Some d =>
      if as_secs (slot_duration c) =? 0 then Panic
      else Ret (Some (from_secs (as_secs d mod as_secs (slot_duration c))))
  end.

Definition millis_from_current_slot_start c : option Duration :=
  d ← duration_checked_sub (current_time c) (genesis_duration c);
  Some (from_millis (u64_wrap (as_millis d mod as_millis (slot_duration c)))).

(** [freeze_at]. *)
Definition freeze_at c (d : Duration) : outcome ManualSlotClock :=
  c' ← new_clock (genesis_slot c) (genesis_duration c) (slot_duration c);
  Ret (set_current_time c' d).

(** ** The clock of the system *)

(** [SystemTimeSlotClock] reads [SystemTime::now()], [None] before the epoch. *)
Definition system_now c (now : option Duration) : option Slot := now ≫= slot_of c.
Definition system_duration_to_next_slot c (now : option Duration) : option Duration :=
  now ≫= duration_to_next_slot_from c.

(** How far into its slot the round machine starts, in [RoundStateMachine::new] and
    [reset_round]. *)
Definition elapsed_time c (now : option Duration) : outcome Duration :=
  next_slot_duration ← unwrap (system_duration_to_next_slot c now);
  unwrap (duration_checked_sub (slot_duration c) next_slot_duration).

(** [SharedRoundState::slot_offset_ms]. *)
Definition slot_offset_ms c (now : option Duration) : u64 :=
  let next_slot_duration := default (slot_duration c) (system_duration_to_next_slot c now) in
  u64_wrap (as_millis (duration_saturating_sub (slot_duration c) next_slot_duration)).

(** ** Slots partition time *)

(** A clock whose slots are whole milliseconds. *)
Record clock_ok c : Prop := {
  ok_genesis_slot : 0 <= genesis_slot c;
  ok_genesis : 0 <= genesis_duration c;
  ok_slot : exists ms, 0 < ms /\ slot_duration c = ms * 10 ^ 6
}.

(** The number of slots between genesis and [now]. *)
Definition slot_index c (now : Duration) : Z := (now - genesis_duration c) / slot_duration c.

(** The next slot is in the range that the clock can count. *)
Definition countable_slot c (i : Z) : Prop :=
  0 <= i < 2 ^ 32 /\ genesis_slot c + i < 2 ^ 64 /\
  genesis_duration c + slot_duration c * i <= DURATION_MAX.

Lemma millis_index c x : clock_ok c -> as_millis x / as_millis (slot_duration c) = x / slot_duration c.
Proof.
  intros [_ _ (ms & Hms & ->)]. unfold as_millis. rewrite Z.div_mul by lia.
  rewrite Z.div_div by lia. f_equal. lia.
Qed.

Lemma slot_pos c : clock_ok c -> 0 < slot_duration c.
Proof. intros [_ _ (ms & Hms & ->)]. lia. Qed.

Lemma slot_of_index c now : clock_ok c -> genesis_duration c <= now ->
  countable_slot c (slot_index c now) -> slot_of c now = Some (genesis_slot c + slot_index c now).
Proof.
  intros Hok Hg (Hi & Hs & _). pose proof (ok_genesis_slot c Hok). unfold slot_of.
  rewrite (proj2 (Z.leb_le _ _)) by done. rewrite millis_index by done. fold (slot_index c now).
  unfold u64_wrap. rewrite (Z.mod_small (slot_index c now)) by lia. rewrite Z.mod_small by lia.
  f_equal. lia.
Qed.

Lemma start_of_index c i : clock_ok c -> countable_slot c i ->
  start_of c (genesis_slot c + i) = Some (genesis_duration c + slot_duration c * i).
Proof.
  intros Hok (Hi & Hs & Hd). pose proof (ok_genesis c Hok). unfold start_of.
  rewrite (proj2 (Z.ltb_ge _ _)) by lia.
  replace (genesis_slot c + i - genesis_slot c) with i by lia.
  rewrite (proj2 (Z.ltb_lt _ _)) by lia. unfold duration_checked_mul.
  rewrite (proj2 (Z.leb_le _ _)) by lia. cbn. unfold duration_checked_add.
  by rewrite (proj2 (Z.leb_le _ _)) by lia.
Qed.

Lemma now_in_slot c now : clock_ok c -> genesis_duration c <= now ->
  genesis_duration c + slot_duration c * slot_index c now <= now <
  genesis_duration c + slot_duration c * (slot_index c now + 1).
Proof.
  intros Hok Hg. pose proof (slot_pos c Hok). unfold slot_index.
  pose proof (Z.div_mod (now - genesis_duration c) (slot_duration c)).
  pose proof (Z.mod_pos_bound (now - genesis_duration c) (slot_duration c)). lia.
Qed.

Lemma countable_pred c i : clock_ok c -> 0 <= i -> countable_slot c (i + 1) -> countable_slot c i.
Proof. intros Hok Hi (H1 & H2 & H3). pose proof (slot_pos c Hok). unfold countable_slot in *. nia. Qed.

Lemma duration_to_next_index c now : clock_ok c -> genesis_duration c <= now ->
  countable_slot c (slot_index c now + 1) ->
  duration_to_next_slot_from c now =
    Some (genesis_duration c + slot_duration c * (slot_index c now + 1) - now).
Proof.
  intros Hok Hg Hc. pose proof (slot_pos c Hok). pose proof (ok_genesis_slot c Hok).
  assert (0 <= slot_index c now) by (apply Z.div_pos; lia).
  pose proof (countable_pred c _ Hok ltac:(eassumption) Hc) as Hc'.
  unfold duration_to_next_slot_from. rewrite (proj2 (Z.ltb_ge _ _)) by done.
  rewrite slot_of_index by done. cbn. unfold duration_to_slot.
  replace (u64_wrap (genesis_slot c + slot_index c now + 1)) with (genesis_slot c + (slot_index c now + 1)).
  2: { unfold u64_wrap. destruct Hc as (? & ? & ?). rewrite Z.mod_small; lia. }
  rewrite start_of_index by done. cbn. unfold duration_checked_sub.
  pose proof (now_in_slot c now Hok Hg). by rewrite (proj2 (Z.ltb_ge _ _)) by lia.
Qed.

(** The slots partition the time since genesis: the present lies in the slot
    that the clock reports, the next slot is ahead by at most the length of a slot,
    and the round machine starts with the time since the slot began. *)
Theorem slots_partition_time c now (Hok : clock_ok c) (Hg : genesis_duration c <= now)
    (Hc : countable_slot c (slot_index c now + 1)) :
  exists slot start next, slot_of c now = Some slot /\ start_of c slot = Some start /\
    start <= now < start + slot_duration c /\
    start_of c (slot + 1) = Some (start + slot_duration c) /\
    duration_to_next_slot_from c now = Some next /\ 0 < next <= slot_duration c /\
    now + next = start + slot_duration c /\
    elapsed_time c (Some now) = Ret (now - start).
Proof.
  pose proof (slot_pos c Hok). assert (0 <= slot_index c now) by (apply Z.div_pos; lia).
  pose proof (countable_pred c _ Hok ltac:(eassumption) Hc) as Hc'.
  pose proof (now_in_slot c now Hok Hg). pose proof (duration_to_next_index c now Hok Hg Hc) as Hn.
  eexists _, _, _. split; [by apply slot_of_index|]. split; [by apply start_of_index|]. split; [lia|].
  split; [rewrite <-Z.add_assoc, start_of_index by done; f_equal; lia|].
  split; [exact Hn|]. split; [lia|]. split; [lia|].
  unfold elapsed_time, system_duration_to_next_slot. cbn [mbind option_bind]. rewrite Hn.
  cbn [unwrap mbind outcome_bind]. unfold duration_checked_sub.
  rewrite (proj2 (Z.ltb_ge _ _)) by lia. cbn [unwrap]. f_equal. lia.
Qed.

(** Setting the clock to a slot makes it report that slot, and the following
    one after [advance_slot]. *)
Theorem set_slot_reports c c' slot (Hok : clock_ok c) (Hs : 0 <= slot < 2 ^ 64)
    (H : set_slot c slot = Ret c') : clock_now c' = Some slot.
Proof.
  pose proof (slot_pos c Hok). pose proof (ok_genesis_slot c Hok). unfold set_slot in H.
  destruct (Z.ltb_spec slot (genesis_slot c)) as [|Hge]; [done|].
  destruct (Z.ltb_spec (slot - genesis_slot c) (2 ^ 32)) as [Hlt|]; [|done].
  set (i := slot - genesis_slot c) in *.
  apply bind_Ret in H as (d & Hd & H). unfold duration_checked_mul in Hd.
  destruct (Z.leb_spec (slot_duration c * i) DURATION_MAX); [|done]. injection Hd as <-.
  apply bind_Ret in H as (t & Ht & H). unfold duration_checked_add in Ht.
  destruct (Z.leb_spec (genesis_duration c + slot_duration c * i) DURATION_MAX); [|done].
  injection Ht as <-. injection H as <-. unfold clock_now. cbn [current_time set_current_time].
  assert (slot_index c (genesis_duration c + slot_duration c * i) = i) as Hi.
  { unfold slot_index. replace (_ + _ - _) with (i * slot_duration c) by lia. by apply Z.div_mul; lia. }
  assert (0 <= slot_duration c * i) by (apply Z.mul_nonneg_nonneg; lia).
  change (slot_of (set_current_time c _) ?t) with (slot_of c t).
  rewrite slot_of_index; [rewrite Hi; f_equal; lia|done|lia|]. rewrite Hi.
  split; [lia|]. split; [lia|done].
Qed.

(** ** Examples *)

Definition mainnet_clock : ManualSlotClock :=
  {| genesis_slot := 0; genesis_duration := from_secs 1606824023;
     current_time := from_secs 1606824023; slot_duration := from_secs 12 |}.

Lemma mainnet_clock_is : new_with_chain_id 1 = Ret (Some mainnet_clock).
Proof. reflexivity. Qed.

Lemma mainnet_clock_ok : clock_ok mainnet_clock.
Proof. split; [done..|]. exists 12000. split; [lia|reflexivity]. Qed.

Lemma slots_partition_time_witness : exists next,
  duration_to_next_slot_from mainnet_clock (from_secs 1606824040) = Some next /\ 0 < next.
Proof.
  destruct (slots_partition_time mainnet_clock (from_secs 1606824040) mainnet_clock_ok)
    as (slot & start & next & _ & _ & _ & _ & Hn & Hb & _); [by vm_compute|by vm_compute|].
  exists next. split; [exact Hn|apply Hb].
Defined.

Lemma set_slot_reports_witness : exists c', set_slot mainnet_clock 9000000 = Ret c' /\
  clock_now c' = Some 9000000.
Proof.
  destruct (set_slot mainnet_clock 9000000) as [c'|] eqn:E; [|vm_compute in E; discriminate].
  exists c'. split; [reflexivity|]. apply (set_slot_reports mainnet_clock _ _ mainnet_clock_ok); [lia|exact E].
Defined.
