(* ===== verification/WaitTrigger.v ===== *)
(** * When the pre-proposal is built

    The model of [crates/consensus/src/rounds/preproposal_wait_trigger.rs]: the timer
    that ends the collection of bids, and how it adapts from round to round.
    Instants are nanoseconds of the monotonic clock; the jitter that [Clone] adds is
    an argument. *)

From S2P Require Import Prelude Ray SlotClock.
Open Scope Z_scope.

Abbreviation Instant := Z (only parsing).

Definition TARGET_SUBMISSION_TIME_POST_MAX : Duration := from_millis 200.
Definition SCALING_REM_ADJUSTMENT : Z := 10.

Record ConsensusTimingConfig := {
  min_wait_duration_ms : u64;
  max_wait_duration_ms : u64
}.

Implicit Types (cfg : ConsensusTimingConfig).

(** [ConsensusTimingConfig::is_valid], which the binary asserts at its start. *)
Definition timing_is_valid cfg : bool := min_wait_duration_ms cfg <? max_wait_duration_ms cfg.

Definition min_wait_time_ms cfg : Duration := from_millis (min_wait_duration_ms cfg).
Definition max_wait_time_ms cfg : Duration := from_millis (max_wait_duration_ms cfg).

(** The default configuration. *)
Definition default_timing : ConsensusTimingConfig :=
  {| min_wait_duration_ms := 8000; max_wait_duration_ms := 9000 |}.

Record PreProposalWaitTrigger := {
  wait_duration : Duration;
  start_instant : Instant;
  wt_config : ConsensusTimingConfig
}.

Implicit Types (t : PreProposalWaitTrigger).

(** [LastRoundInfo]. *)
Record LastRoundInfo := { time_to_complete : Duration }.

(** The logistic function, in floating point with [exp] of the platform's
    mathematics library: the argument of the final [clamp], in nanoseconds. *)
Class Sigmoid : Type := { sigmoid : ConsensusTimingConfig -> Duration -> Duration }.

Definition with_wait t (d : Duration) : PreProposalWaitTrigger :=
  {| wait_duration := d; start_instant := start_instant t; wt_config := wt_config t |}.

Definition new_trigger cfg (now : Instant) : PreProposalWaitTrigger :=
  {| wait_duration := min_wait_time_ms cfg; start_instant := now; wt_config := cfg |}.

(** [Clone::clone], with the time and a jitter of 3 to 40 milliseconds. *)
Definition clone_trigger t (now : Instant) (jitter : u64) : PreProposalWaitTrigger :=
  {| wait_duration := wait_duration t + from_millis jitter; start_instant := now;
     wt_config := wt_config t |}.

Definition reset_before_submission t : PreProposalWaitTrigger :=
  with_wait t (duration_saturating_sub (wait_duration t) TARGET_SUBMISSION_TIME_POST_MAX).

Section trigger.
Context `{SG : Sigmoid}.

(** The difference of the bounds and [f64::clamp] panic when they are crossed. *)
Definition sigmoid_clamp cfg (x : Duration) : outcome Duration :=
  if max_wait_time_ms cfg <? min_wait_time_ms cfg then Panic
  else Ret (Z.min (max_wait_time_ms cfg) (Z.max (min_wait_time_ms cfg) (sigmoid cfg x))).

Definition adjusted_wait t (info : LastRoundInfo) : Duration :=
  let base := max_wait_time_ms (wt_config t) + TARGET_SUBMISSION_TIME_POST_MAX in
  if time_to_complete info <? base then
    wait_duration t + (base - time_to_complete info) / SCALING_REM_ADJUSTMENT
  else
    duration_saturating_sub (wait_duration t)
      ((time_to_complete info - base) * SCALING_REM_ADJUSTMENT).

Definition update_wait_duration_base t (info : LastRoundInfo) : outcome PreProposalWaitTrigger :=
  d ← sigmoid_clamp (wt_config t) (adjusted_wait t info);
  Ret (with_wait t d).

(** [update_for_new_round]: the updated template and the timer of the round. *)
Definition update_for_new_round t (info : option LastRoundInfo) (slot_elapsed_time : Duration)
    (now : Instant) (jitter : u64) : outcome (PreProposalWaitTrigger * PreProposalWaitTrigger) :=
  t ← match info with Some info => update_wait_duration_base t info | None => Ret t end;
  let this := clone_trigger t now jitter in
  Ret (t, with_wait this (duration_saturating_sub (wait_duration this) slot_elapsed_time)).

(** [Future::poll]: [ticks] are the times read at the ticks of the interval that are
    ready. *)
Definition poll_trigger t (ticks : list Instant) : bool :=
  existsb (fun now => wait_duration t <? now - start_instant t) ticks.

(** ** Bounds *)

(** The time at which a round ends its bids is bounded: after feedback from a
    round the template lies within the configured bounds, and the timer of the
    round fires at the first tick later than the template and the jitter, counted
    from the start of the slot. *)
Theorem round_timer_bounds t info elapsed now jitter (Hcfg : timing_is_valid (wt_config t) = true)
    (H0 : 0 <= min_wait_duration_ms (wt_config t)) (Hj : 3 <= jitter <= 40) (He : 0 <= elapsed) :
  exists t' timer, update_for_new_round t (Some info) elapsed now jitter = Ret (t', timer) /\
    min_wait_time_ms (wt_config t) <= wait_duration t' <= max_wait_time_ms (wt_config t) /\
    wait_duration timer <= max_wait_time_ms (wt_config t) + from_millis 40 /\
    (forall tick, poll_trigger timer [tick] = true <->
      now + Z.max 0 (wait_duration t' + from_millis jitter - elapsed) < tick).
Proof.
  assert (min_wait_time_ms (wt_config t) < max_wait_time_ms (wt_config t)) as Hlt.
  { apply Z.ltb_lt in Hcfg. unfold min_wait_time_ms, max_wait_time_ms, from_millis. lia. }
  unfold update_for_new_round, update_wait_duration_base, sigmoid_clamp.
  rewrite (proj2 (Z.ltb_ge _ _)) by lia. cbn [mbind outcome_bind].
  eexists _, _. split; [reflexivity|]. cbn [wait_duration with_wait clone_trigger].
  split; [lia|]. unfold duration_saturating_sub. split.
  - unfold max_wait_time_ms, min_wait_time_ms, from_millis in *. lia.
  - intros tick. unfold poll_trigger. cbn [existsb wait_duration start_instant with_wait clone_trigger].
    rewrite orb_false_r, Z.ltb_lt. lia.
Qed.

Fixpoint resets (n : nat) t : PreProposalWaitTrigger :=
  match n with O => t | S n' => resets n' (reset_before_submission t) end.

Lemma resets_wait n t : wait_duration (resets n t) =
  match n with O => wait_duration t | _ => Z.max 0 (wait_duration t - Z.of_nat n * from_millis 200) end.
Proof.
  revert t. induction n as [|n IH]; intros t; [done|]. cbn [resets]. rewrite IH.
  unfold reset_before_submission, duration_saturating_sub, TARGET_SUBMISSION_TIME_POST_MAX.
  cbn [wait_duration with_wait]. unfold from_millis. destruct n; lia.
Qed.

(** Every round that a leader loses before its submission shortens the wait by
    200 milliseconds, with no lower bound but zero: the configured minimum does not
    limit it. *)
Theorem resets_leave_the_bounds n t (Hn : (0 < n)%nat) :
  wait_duration (resets n t) = Z.max 0 (wait_duration t - Z.of_nat n * from_millis 200).
Proof. rewrite resets_wait. by destruct n; [lia|]. Qed.
End trigger.

(** ** Examples *)

Definition sample_sigmoid : Sigmoid := {| sigmoid := fun cfg x => x |}.

Section examples.
Local Existing Instance sample_sigmoid.

Lemma round_timer_bounds_witness : exists t' timer,
  update_for_new_round (new_trigger default_timing 0) (Some {| time_to_complete := from_secs 7 |})
    (from_secs 1) 5 20 = Ret (t', timer) /\ wait_duration t' <= from_secs 9.
Proof.
  destruct (round_timer_bounds (new_trigger default_timing 0) {| time_to_complete := from_secs 7 |}
    (from_secs 1) 5 20) as (t' & timer & H & Hb & _); [reflexivity|cbn; lia|lia|vm_compute; discriminate|].
  exists t', timer. split; [exact H|]. apply Hb.
Defined.

Lemma resets_leave_the_bounds_witness :
  wait_duration (resets 10 (new_trigger default_timing 0)) = from_secs 6.
Proof. rewrite (resets_leave_the_bounds 10 (new_trigger default_timing 0)); [reflexivity|lia]. Defined.
End examples.
