(* ===== verification/BlockSync.v ===== *)
(** * Block synchronisation

    The model of [crates/types/src/block_sync.rs]: the modules of a node sign off on
    each block and each reorg, and the node goes on when all of them have.  Wakers
    are left out.  First the operations as they run when no other thread interrupts
    them; then the steps of a sign-off, between which no lock is held and other
    threads run, and what holds however these steps interleave. *)

From S2P Require Import Prelude Ray.
From stdpp Require Import strings.
Open Scope Z_scope.

Inductive GlobalBlockState :=
| Processing (block : u64)
| PendingReorg (first last : u64)
| PendingProgression (block : u64).

(** Equality of sign-offs ignores the waker; a reorg carries nothing else. *)
Inductive SignOffState :=
| ReadyForNextBlock (block : u64)
| HandledReorg.

#[export] Instance GlobalBlockState_eq_dec : EqDecision GlobalBlockState.
Proof. solve_decision. Defined.
#[export] Instance SignOffState_eq_dec : EqDecision SignOffState.
Proof. solve_decision. Defined.

Record GlobalBlockSync := {
  pending_state : list GlobalBlockState;
  sync_block_number : u64;
  registered_modules : gmap string (list SignOffState);
  joining_modules : gset string;
  all_modules_registered : bool
}.

Implicit Types (s : GlobalBlockSync) (module : string) (check : SignOffState).

Definition new_sync (block : u64) : GlobalBlockSync :=
  {| pending_state := []; sync_block_number := block; registered_modules := ∅; joining_modules := ∅;
     all_modules_registered := false |}.

Definition set_pending s p : GlobalBlockSync :=
  {| pending_state := p; sync_block_number := sync_block_number s;
     registered_modules := registered_modules s; joining_modules := joining_modules s;
     all_modules_registered := all_modules_registered s |}.
Definition set_block s b : GlobalBlockSync :=
  {| pending_state := pending_state s; sync_block_number := b;
     registered_modules := registered_modules s; joining_modules := joining_modules s;
     all_modules_registered := all_modules_registered s |}.
Definition set_modules s m : GlobalBlockSync :=
  {| pending_state := pending_state s; sync_block_number := sync_block_number s;
     registered_modules := m; joining_modules := joining_modules s;
     all_modules_registered := all_modules_registered s |}.
Definition set_joining s j : GlobalBlockSync :=
  {| pending_state := pending_state s; sync_block_number := sync_block_number s;
     registered_modules := registered_modules s; joining_modules := j;
     all_modules_registered := all_modules_registered s |}.

Definition clear s : GlobalBlockSync := set_pending s [].

Definition finalize_modules s : GlobalBlockSync :=
  {| pending_state := pending_state s; sync_block_number := sync_block_number s;
     registered_modules := registered_modules s; joining_modules := joining_modules s;
     all_modules_registered := true |}.

Definition has_proposal s : bool := negb (bool_decide (pending_state s = [])).
Definition can_operate s : bool := negb (has_proposal s).
Definition fetch_current_proposal s : option GlobalBlockState := head (pending_state s).

(** ** The producer *)

Definition front_is (q : list SignOffState) check : bool := bool_decide (head q = Some check).

(** [Iterator::all] over the entries, whose order does not matter. *)
Definition all_modules s (f : list SignOffState -> bool) : bool :=
  bool_decide (map_Forall (fun _ q => f q = true) (registered_modules s)).

Definition is_transitioning s (expected : u64) : bool :=
  negb (all_modules s (fun q => front_is q (ReadyForNextBlock expected))) &&
  all_modules_registered s &&
  negb (all_modules s (fun q => bool_decide (q = []))).

(** The end of [new_block], under the lock on the pending states. *)
Definition enqueue_block s (block : u64) : GlobalBlockSync :=
  if bool_decide (last (pending_state s) = Some (PendingProgression block)) then s
  else set_pending s (pending_state s ++ [PendingProgression block]).

(** [new_block]; [None] while it spins. *)
Definition new_block s (block : u64) : option GlobalBlockSync :=
  if is_transitioning s (u64_wrap (block - 1)) then None else Some (enqueue_block s block).

(** [reorg]; the maximum of an empty range panics. *)
Definition reorg s (first last : u64) : outcome (option GlobalBlockSync) :=
  if last <? first then Panic
  else if is_transitioning s last then Ret None
  else Ret (Some (set_pending s (pending_state s ++ [PendingReorg first last]))).

(** ** The consumers *)

Definition register s module : outcome GlobalBlockSync :=
  if all_modules_registered s then Ret s
  else
    match registered_modules s !! module with
    | Some _ => Panic
    | None =>
        Ret (set_joining (set_modules s (<[module := []]> (registered_modules s)))
          ({[module]} ∪ joining_modules s))
    end.

(** [entry(module).and_modify(push_back)]. *)
Definition push_sign_off s module check : GlobalBlockSync :=
  set_joining (set_modules s (alter (fun q => q ++ [check]) module (registered_modules s)))
    (joining_modules s ∖ {[module]}).

Definition all_signed s check : bool := all_modules s (fun q => front_is q check).

(** [pop_front().unwrap()] of every queue. *)
Definition reset_sign_offs s : outcome GlobalBlockSync :=
  if all_modules s (fun q => negb (bool_decide (q = []))) then
    Ret (set_modules s (tail <$> registered_modules s))
  else Panic.

(** The end of a sign-off on a block, once all modules have signed. *)
Definition pop_block s : option GlobalBlockSync :=
  match pending_state s with
  | [] => None
  | new_state :: rest =>
      let s := set_pending s rest in
      Some (match new_state with PendingProgression b => set_block s b | _ => s end)
  end.

Definition pop_reorg s : option GlobalBlockSync :=
  match pending_state s with [] => None | _ :: rest => Some (set_pending s rest) end.

Definition finish s check (pop : GlobalBlockSync -> option GlobalBlockSync) : outcome GlobalBlockSync :=
  if all_signed s check then
    match pop s with
    | None => Ret s
    | Some s => reset_sign_offs s
    end
  else Ret s.

(** The two sign-offs, each as a call that no other thread interrupts: what
    [uninterrupted_sign_off] makes of the steps below. *)
Definition sign_off_reorg s module (first last : u64) : outcome GlobalBlockSync :=
  if bool_decide (pending_state s = []) then Panic
  else if negb (bool_decide (PendingReorg first last ∈ pending_state s)) then Panic
  else finish (push_sign_off s module HandledReorg) HandledReorg pop_reorg.

Definition sign_off_on_block s module (block : u64) : outcome GlobalBlockSync :=
  if negb (bool_decide (PendingProgression block ∈ pending_state s)) then
    if bool_decide (module ∈ joining_modules s) && (block <=? sync_block_number s) then Ret s
    else Panic
  else finish (push_sign_off s module (ReadyForNextBlock block)) (ReadyForNextBlock block) pop_block.

Definition signature_of (p : GlobalBlockState) : SignOffState :=
  match p with PendingProgression b => ReadyForNextBlock b | _ => HandledReorg end.

Definition sign_off s module (p : GlobalBlockState) : outcome GlobalBlockSync :=
  match p with
  | PendingProgression b => sign_off_on_block s module b
  | PendingReorg a b => sign_off_reorg s module a b
  | Processing _ => Panic
  end.

Definition pop_of (p : GlobalBlockState) : GlobalBlockSync -> option GlobalBlockSync :=
  match p with PendingProgression _ => pop_block | _ => pop_reorg end.

(** ** The steps of a sign-off *)

(** Where a thread is in a call.  Between two steps it holds no lock: after the look
    at what is pending, after it has left the joining modules, after the push of its
    signature, at each entry of the two iterations, after the removal. *)
Inductive stage :=
| Idle
| ToCompare (p : GlobalBlockState)
| ToJoin (p : GlobalBlockState)
| ToPush (p : GlobalBlockState)
| ToCheck (p : GlobalBlockState)
| Checking (p : GlobalBlockState) (todo : list string) (transition : bool)
| ToPop (p : GlobalBlockState)
| Resetting (todo : list string).

#[export] Instance stage_eq_dec : EqDecision stage.
Proof. solve_decision. Defined.

(** The first look of a call at what is pending. *)
Definition look s module (p : GlobalBlockState) : outcome stage :=
  match p with
  | PendingProgression block =>
      if bool_decide (p ∈ pending_state s) then Ret (ToJoin p)
      else if bool_decide (module ∈ joining_modules s) && (block <=? sync_block_number s) then Ret Idle
      else Panic
  | PendingReorg _ _ => if bool_decide (pending_state s = []) then Panic else Ret (ToCompare p)
  | Processing _ => Panic
  end.

(** The next step; [order] is the order in which an iteration that it starts visits
    the modules. *)
Definition thread_step (order : list string) s module (t : stage) : outcome (GlobalBlockSync * stage) :=
  match t with
  | Idle => Ret (s, Idle)
  | ToCompare p => if bool_decide (p ∈ pending_state s) then Ret (s, ToJoin p) else Panic
  | ToJoin p => Ret (set_joining s (joining_modules s ∖ {[module]}), ToPush p)
  | ToPush p =>
      Ret (set_modules s (alter (fun q => q ++ [signature_of p]) module (registered_modules s)), ToCheck p)
  | ToCheck p => Ret (s, Checking p order true)
  | Checking p (k :: todo) transition =>
      Ret (s, Checking p todo (transition &&
        from_option (fun q => front_is q (signature_of p)) true (registered_modules s !! k)))
  | Checking p [] transition => Ret (s, if transition then ToPop p else Idle)
  | ToPop p =>
      match pop_of p s with None => Ret (s, Idle) | Some s => Ret (s, Resetting order) end
  | Resetting (k :: todo) =>
      match registered_modules s !! k with
      | Some [] => Panic
      | Some (_ :: q) => Ret (set_modules s (<[k := q]> (registered_modules s)), Resetting todo)
      | None => Ret (s, Resetting todo)
      end
  | Resetting [] => Ret (s, Idle)
  end.

(** ** The node and its modules *)

(** The synchronisation, where the thread of each module is, all that has been
    announced, and on how many of the announcements each module has signed off. *)
Record SyncSystem := {
  sys_sync : GlobalBlockSync;
  sys_threads : gmap string stage;
  sys_announced : list GlobalBlockState;
  sys_signed : gmap string nat
}.

Implicit Types (sys : SyncSystem) (th : gmap string stage) (p : GlobalBlockState).

Definition stage_of th module : stage := default Idle (th !! module).

(** From its first look at the queues until it has reset them. *)
Definition in_section (t : stage) : bool :=
  match t with Checking _ _ _ | ToPop _ | Resetting _ => true | _ => false end.

Definition no_section th : Prop := forall module, in_section (stage_of th module) = false.

(** A module signs off on the announcements in order; one that has just joined may
    also do so on a block that was completed before. *)
Definition may_call sys module p : Prop :=
  (exists n, sys_signed sys !! module = Some n /\ sys_announced sys !! n = Some p) \/
  (exists block, p = PendingProgression block /\ ~ p ∈ pending_state (sys_sync sys) /\
    module ∈ joining_modules (sys_sync sys) /\ block <= sync_block_number (sys_sync sys)).

Definition grown s s' : list GlobalBlockState := drop (length (pending_state s)) (pending_state s').

Inductive sync_step sys : SyncSystem -> Prop :=
| step_register module s' : register (sys_sync sys) module = Ret s' -> no_section (sys_threads sys) ->
    sync_step sys {| sys_sync := s'; sys_threads := sys_threads sys; sys_announced := sys_announced sys;
      sys_signed := if all_modules_registered (sys_sync sys) then sys_signed sys
        else <[module := (length (sys_announced sys) - length (pending_state (sys_sync sys)))%nat]>
          (sys_signed sys) |}
| step_finalize :
    sync_step sys {| sys_sync := finalize_modules (sys_sync sys); sys_threads := sys_threads sys;
      sys_announced := sys_announced sys; sys_signed := sys_signed sys |}
| step_block block : let s' := enqueue_block (sys_sync sys) block in
    sync_step sys {| sys_sync := s'; sys_threads := sys_threads sys;
      sys_announced := sys_announced sys ++ grown (sys_sync sys) s'; sys_signed := sys_signed sys |}
| step_reorg first last : first <= last ->
    let s' := set_pending (sys_sync sys) (pending_state (sys_sync sys) ++ [PendingReorg first last]) in
    sync_step sys {| sys_sync := s'; sys_threads := sys_threads sys;
      sys_announced := sys_announced sys ++ grown (sys_sync sys) s'; sys_signed := sys_signed sys |}
| step_call module p t : stage_of (sys_threads sys) module = Idle -> may_call sys module p ->
    look (sys_sync sys) module p = Ret t ->
    sync_step sys {| sys_sync := sys_sync sys; sys_threads := <[module := t]> (sys_threads sys);
      sys_announced := sys_announced sys; sys_signed := sys_signed sys |}
| step_thread module order s' t' : let t := stage_of (sys_threads sys) module in
    order ≡ₚ elements (dom (registered_modules (sys_sync sys))) ->
    thread_step order (sys_sync sys) module t = Ret (s', t') ->
    (forall p, t = ToCheck p -> no_section (sys_threads sys)) ->
    sync_step sys {| sys_sync := s'; sys_threads := <[module := t']> (sys_threads sys);
      sys_announced := sys_announced sys;
      sys_signed := match t with ToPush _ => alter S module (sys_signed sys) | _ => sys_signed sys end |}.

Definition new_system (block : u64) : SyncSystem :=
  {| sys_sync := new_sync block; sys_threads := ∅; sys_announced := []; sys_signed := ∅ |}.

(** The states that a node started at [block] can get to when the sections of its
    threads do not overlap. *)
Inductive sync_reach (block : u64) : SyncSystem -> Prop :=
| sreach_new : sync_reach block (new_system block)
| sreach_step sys sys' : sync_reach block sys -> sync_step sys sys' -> sync_reach block sys'.

(** ** The invariant *)

(** The block number after an entry is done. *)
Definition latest (b : u64) p : u64 := match p with PendingProgression b' => b' | _ => b end.

(** A queue holds the signatures of its module on what is pending, and one more while
    it is still to be reset. *)
Definition queue_ok s (don : list GlobalBlockState) (todo : list string) (k : string) (q : list SignOffState)
    (n : nat) : Prop :=
  exists j, n = (length don + j)%nat /\ (j <= length (pending_state s))%nat /\
    (k ∈ todo -> exists y, q = y :: take j (signature_of <$> pending_state s)) /\
    (~ k ∈ todo -> q = take j (signature_of <$> pending_state s)).

Definition stage_ok s (an : list GlobalBlockState) (sg : gmap string nat) module (t : stage) : Prop :=
  match t with
  | Idle => True
  | ToCompare p | ToJoin p | ToPush p => exists n, sg !! module = Some n /\ an !! n = Some p
  | ToCheck _ => is_Some (sg !! module)
  | Checking p todo transition => is_Some (sg !! module) /\
      (transition = true -> forall k q, registered_modules s !! k = Some q -> ~ k ∈ todo ->
        head q = Some (signature_of p))
  | ToPop p => is_Some (sg !! module) /\
      forall k q, registered_modules s !! k = Some q -> head q = Some (signature_of p)
  | Resetting todo => NoDup todo /\ forall k, k ∈ todo -> is_Some (registered_modules s !! k)
  end.

(** Nobody waits in vain: a module has yet to sign the oldest pending entry, or it has
    just done so and its thread is going to find that all have. *)
Definition waits_with p (t : stage) : Prop := t = ToCheck p \/ exists l, t = Checking p l true.

Definition held_by th (w m : string) : Prop := w = m \/ exists p, stage_of th w = ToCheck p.

Definition plain (t : stage) : bool := match t with ToPop _ | Resetting _ => false | _ => true end.

Record barrier s th (don : list GlobalBlockState) (sg : gmap string nat) : Prop := {
  bar_pop : forall m p, stage_of th m = ToPop p -> exists w, sg !! w = Some (S (length don)) /\ held_by th w m;
  bar_reset : forall m l, stage_of th m = Resetting l -> exists w, sg !! w = Some (length don) /\ held_by th w m;
  bar_plain : (forall m, plain (stage_of th m) = true) ->
    registered_modules s = ∅ \/ (exists w, sg !! w = Some (length don)) \/
    exists w p, sg !! w = Some (S (length don)) /\ waits_with p (stage_of th w) /\
      signature_of <$> head (pending_state s) = Some (signature_of p)
}.

Record sys_ok (block : u64) (don : list GlobalBlockState) (todo : list string) s th
    (an : list GlobalBlockState) (sg : gmap string nat) : Prop := {
  ok_done : an = don ++ pending_state s;
  ok_number : sync_block_number s = foldl latest block don;
  ok_kinds : forall b, ~ Processing b ∈ an;
  ok_dom : forall m, is_Some (registered_modules s !! m) <-> is_Some (sg !! m);
  ok_queue : forall m q n, registered_modules s !! m = Some q -> sg !! m = Some n -> queue_ok s don todo m q n;
  ok_sole : forall m m', in_section (stage_of th m) = true -> in_section (stage_of th m') = true -> m = m';
  ok_stage : forall m, stage_ok s an sg m (stage_of th m);
  ok_todo : forall m l, stage_of th m = Resetting l -> l = todo;
  ok_reset : todo <> [] -> exists m, stage_of th m = Resetting todo;
  ok_barrier : barrier s th don sg
}.

Arguments ok_done {_ _ _ _ _ _ _}.
Arguments ok_number {_ _ _ _ _ _ _}.
Arguments ok_kinds {_ _ _ _ _ _ _}.
Arguments ok_dom {_ _ _ _ _ _ _}.
Arguments ok_queue {_ _ _ _ _ _ _}.
Arguments ok_sole {_ _ _ _ _ _ _}.
Arguments ok_stage {_ _ _ _ _ _ _}.
Arguments ok_todo {_ _ _ _ _ _ _}.
Arguments ok_reset {_ _ _ _ _ _ _}.
Arguments ok_barrier {_ _ _ _ _ _ _}.

Section invariant.
Context (block : u64) (don : list GlobalBlockState) (todo : list string) (s : GlobalBlockSync)
  (th : gmap string stage) (an : list GlobalBlockState) (sg : gmap string nat).
Context (Hok : sys_ok block don todo s th an sg).

Lemma stage_insert m t k : stage_of (<[m := t]> th) k = if decide (k = m) then t else stage_of th k.
Proof.
  unfold stage_of. destruct (decide (k = m)) as [->|Hne]; [by rewrite lookup_insert_eq|by rewrite lookup_insert_ne].
Qed.

(** What a module has to sign next is pending. *)
Lemma next_pending m n p : sg !! m = Some n -> an !! n = Some p -> p ∈ pending_state s.
Proof using Hok.
  intros Hn Hp. destruct (proj2 (ok_dom Hok m) (mk_is_Some _ _ Hn)) as [q Hq].
  destruct (ok_queue Hok m q n Hq Hn) as (j & -> & _).
  rewrite (ok_done Hok), lookup_app_r in Hp by lia. by eapply list_elem_of_lookup_2.
Qed.

(** All queues are filled: they start with the signature on the oldest entry. *)
Lemma filled_front p0 rest k q : pending_state s = p0 :: rest -> todo = [] ->
  registered_modules s !! k = Some q -> q <> [] -> head q = Some (signature_of p0).
Proof using Hok.
  intros E Et Hq Hne. destruct (proj1 (ok_dom Hok k) (mk_is_Some _ _ Hq)) as [n Hn].
  destruct (ok_queue Hok k q n Hq Hn) as (j & _ & _ & _ & H). rewrite Et, E in H.
  specialize (H (not_elem_of_nil _)). subst q. by destruct j.
Qed.

Lemma no_reset_todo : (forall m, plain (stage_of th m) = true) -> todo = [].
Proof using Hok.
  intros H. destruct todo as [|k l] eqn:E; [done|]. destruct (ok_reset Hok ltac:(done)) as [m Hm].
  specialize (H m). by rewrite Hm in H.
Qed.

Lemma move_sole m t' : (in_section t' = true -> in_section (stage_of th m) = true \/ no_section th) ->
  forall k k', in_section (stage_of (<[m := t']> th) k) = true ->
    in_section (stage_of (<[m := t']> th) k') = true -> k = k'.
Proof using Hok.
  intros Ht k k'. rewrite !stage_insert.
  destruct (decide (k = m)) as [->|Hk], (decide (k' = m)) as [->|Hk']; intros H1 H2; [done| | |by apply (ok_sole Hok)].
  - destruct (Ht H1) as [H|H]; [by apply (ok_sole Hok)|]. by rewrite H in H2.
  - destruct (Ht H2) as [H|H]; [by apply (ok_sole Hok)|]. by rewrite H in H1.
Qed.

(** A step that leaves the oldest entry to those who held it. *)
Lemma move_held m t' w k : held_by th w k -> in_section (stage_of th k) = true -> k <> m ->
  (forall p, stage_of th m = ToCheck p -> t' = ToCheck p \/ no_section th) -> held_by (<[m := t']> th) w k.
Proof.
  intros [->|[p Hp]] Hk Hne Hc; [by left|]. right. destruct (decide (w = m)) as [->|Hw].
  - destruct (Hc p Hp) as [->|H]; [|by rewrite H in Hk]. exists p. by rewrite stage_insert, decide_True.
  - exists p. by rewrite stage_insert, decide_False.
Qed.

Lemma move_barrier m t' : plain (stage_of th m) = true -> plain t' = true ->
  (forall p, stage_of th m = ToCheck p -> t' = ToCheck p \/ no_section th) ->
  (forall p, waits_with p (stage_of th m) -> (forall k, plain (stage_of th k) = true) ->
    signature_of <$> head (pending_state s) = Some (signature_of p) ->
    waits_with p t' \/ exists w, sg !! w = Some (length don)) ->
  barrier s (<[m := t']> th) don sg.
Proof using Hok.
  intros Hp Hp' Hc Hw. destruct (ok_barrier Hok) as [H1 H2 H3]. split.
  - intros k p. rewrite stage_insert. destruct (decide (k = m)) as [->|Hne]; [by intros ->|]. intros Hk.
    destruct (H1 k p Hk) as (w & Hn & Hh). exists w. split; [done|]. apply move_held; try done. by rewrite Hk.
  - intros k l. rewrite stage_insert. destruct (decide (k = m)) as [->|Hne]; [by intros ->|]. intros Hk.
    destruct (H2 k l Hk) as (w & Hn & Hh). exists w. split; [done|]. apply move_held; try done. by rewrite Hk.
  - intros Hall. assert (forall k, plain (stage_of th k) = true) as Hall'.
    { intros k. destruct (decide (k = m)) as [->|Hne]; [done|]. specialize (Hall k).
      by rewrite stage_insert, decide_False in Hall. }
    destruct (H3 Hall') as [H|[H|(w & p & Hn & Hs & Hq)]]; [by left|by right; left|]. right.
    destruct (decide (w = m)) as [->|Hne].
    + destruct (Hw p Hs Hall' Hq) as [H|H]; [|by left]. right. exists m, p. by rewrite stage_insert, decide_True.
    + right. exists w, p. by rewrite stage_insert, decide_False.
Qed.

(** A step that changes nothing but where the thread is. *)
Lemma move_ok m t' : plain (stage_of th m) = true -> plain t' = true -> stage_ok s an sg m t' ->
  (in_section t' = true -> in_section (stage_of th m) = true \/ no_section th) ->
  (forall p, waits_with p (stage_of th m) -> (forall k, plain (stage_of th k) = true) ->
    signature_of <$> head (pending_state s) = Some (signature_of p) ->
    waits_with p t' \/ exists w, sg !! w = Some (length don)) ->
  (forall p, stage_of th m = ToCheck p -> t' = ToCheck p \/ no_section th) ->
  sys_ok block don todo s (<[m := t']> th) an sg.
Proof using Hok.
  intros Hp Hp' Hst Hsec Hw Hc. pose proof (move_barrier m t' Hp Hp' Hc Hw). pose proof (move_sole m t' Hsec).
  split; try apply Hok; try done.
  - intros k. rewrite stage_insert. destruct (decide (k = m)) as [->|]; [done|apply (ok_stage Hok)].
  - intros k l. rewrite stage_insert. destruct (decide (k = m)) as [->|]; [by intros ->|apply (ok_todo Hok)].
  - intros (k & Hk)%(ok_reset Hok). exists k. rewrite stage_insert.
    destruct (decide (k = m)) as [->|]; [by rewrite Hk in Hp|done].
Qed.

Lemma look_ok m p : stage_of th m = Idle ->
  may_call {| sys_sync := s; sys_threads := th; sys_announced := an; sys_signed := sg |} m p ->
  exists t', look s m p = Ret t' /\ sys_ok block don todo s (<[m := t']> th) an sg.
Proof using Hok.
  intros Hm [(n & Hn & Hp)|(b & -> & Hb & Hj & Hle)]; cbn in *.
  - pose proof (next_pending m n p Hn Hp) as Hin.
    assert (forall t', t' = ToJoin p \/ t' = ToCompare p -> sys_ok block don todo s (<[m := t']> th) an sg) as H.
    { intros t' Ht. apply move_ok; rewrite ?Hm; try done; destruct Ht as [-> | ->]; try done; cbn; try by exists n.
      all: intros p' [?|[? ?]]; done. }
    destruct p as [b|a b|b]; cbn.
    + destruct (ok_kinds Hok b). by eapply list_elem_of_lookup_2.
    + rewrite bool_decide_eq_false_2 by (intros E; rewrite E in Hin; by apply not_elem_of_nil in Hin). eauto.
    + rewrite bool_decide_eq_true_2 by done. eauto.
  - rewrite bool_decide_eq_false_2, bool_decide_eq_true_2, (proj2 (Z.leb_le _ _)) by done. exists Idle. split; [done|].
    apply move_ok; rewrite ?Hm; try done. intros p' [?|[? ?]]; done.
Qed.

(** A thread whose stage waits for nothing moves on. *)
Lemma compare_ok m p : stage_of th m = ToCompare p ->
  p ∈ pending_state s /\ sys_ok block don todo s (<[m := ToJoin p]> th) an sg.
Proof using Hok.
  intros Hm. pose proof (ok_stage Hok m) as Hs. rewrite Hm in Hs. split.
  - destruct Hs as (n & Hn & Hp). by eapply next_pending.
  - apply move_ok; rewrite ?Hm; try done. intros p' [?|[? ?]]; done.
Qed.

Lemma join_ok m p j : stage_of th m = ToJoin p ->
  sys_ok block don todo (set_joining s j) (<[m := ToPush p]> th) an sg.
Proof using Hok.
  intros Hm. pose proof (ok_stage Hok m) as Hs. rewrite Hm in Hs.
  assert (sys_ok block don todo s (<[m := ToPush p]> th) an sg) as H.
  { apply move_ok; rewrite ?Hm; try done. intros p' [?|[? ?]]; done. }
  destruct H as [H1 H2 H3 H4 H5 H6 H7 H8 H9 [B1 B2 B3]]. constructor; try assumption. by constructor.
Qed.

Lemma in_order k (order : list string) : order ≡ₚ elements (dom (registered_modules s)) ->
  k ∈ order <-> is_Some (registered_modules s !! k).
Proof. intros ->. by rewrite elem_of_elements, elem_of_dom. Qed.

Lemma start_ok m p order : stage_of th m = ToCheck p -> order ≡ₚ elements (dom (registered_modules s)) ->
  no_section th -> sys_ok block don todo s (<[m := Checking p order true]> th) an sg.
Proof using Hok.
  intros Hm Ho Hsec. pose proof (ok_stage Hok m) as Hs. rewrite Hm in Hs.
  apply move_ok; rewrite ?Hm; auto.
  - split; [done|]. intros _ k q Hq []. apply (in_order k order Ho). eauto.
  - intros p' [[= <-]|[? ?]]; [|done]. left. right. eauto.
Qed.

(** A queue that does not start with the signature on the oldest entry is empty. *)
Lemma unsigned p k q : registered_modules s !! k = Some q -> todo = [] ->
  signature_of <$> head (pending_state s) = Some (signature_of p) -> head q <> Some (signature_of p) ->
  sg !! k = Some (length don).
Proof using Hok.
  intros Hq Ht Hp Hne. destruct (proj1 (ok_dom Hok k) (mk_is_Some _ _ Hq)) as [n Hn].
  destruct (ok_queue Hok k q n Hq Hn) as (j & -> & _ & _ & H). rewrite Ht in H.
  specialize (H (not_elem_of_nil _)). destruct (pending_state s) as [|p0 rest]; [done|]. injection Hp as Hp.
  destruct j as [|j]; [by rewrite Nat.add_0_r in Hn|]. subst q. cbn in Hne. congruence.
Qed.

Lemma check_ok m p k l tr : stage_of th m = Checking p (k :: l) tr ->
  sys_ok block don todo s (<[m := Checking p l (tr &&
    from_option (fun q => front_is q (signature_of p)) true (registered_modules s !! k))]> th) an sg.
Proof using Hok.
  intros Hm. pose proof (ok_stage Hok m) as Hs. rewrite Hm in Hs. destruct Hs as [Hsg Hf].
  apply move_ok; rewrite ?Hm; try done; [|by left|].
  - split; [done|]. intros [Htr Hk]%andb_true_iff k' q Hq Hl. destruct (decide (k' = k)) as [->|Hne].
    + rewrite Hq in Hk. by apply bool_decide_eq_true in Hk.
    + apply (Hf Htr k' q Hq). by intros [?|?]%elem_of_cons.
  - intros p' [?|[l' [= -> <- ->]]] Hall Hp; [done|]. cbn.
    destruct (registered_modules s !! k) as [q|] eqn:Hq; cbn; [|left; right; eauto].
    unfold front_is. case_bool_decide as Hh; [left; right; eauto|]. right. exists k.
    apply (unsigned p' k q); auto using no_reset_todo.
Qed.

Lemma unsettled_ok m p : stage_of th m = Checking p [] false -> sys_ok block don todo s (<[m := Idle]> th) an sg.
Proof using Hok.
  intros Hm. apply move_ok; rewrite ?Hm; try done. intros p' [?|[l' ?]]; done.
Qed.

(** Only one thread is in its section. *)
Lemma others_plain m k : in_section (stage_of th m) = true -> k <> m -> in_section (stage_of th k) = false.
Proof using Hok.
  intros Hm Hne. destruct (in_section (stage_of th k)) eqn:E; [|done]. by destruct Hne; apply (ok_sole Hok).
Qed.

Lemma settled_ok m p : stage_of th m = Checking p [] true -> sys_ok block don todo s (<[m := ToPop p]> th) an sg.
Proof using Hok.
  intros Hm. pose proof (ok_stage Hok m) as Hs. rewrite Hm in Hs. destruct Hs as [Hsg Hf].
  assert (forall k q, registered_modules s !! k = Some q -> head q = Some (signature_of p)) as Hf'
    by (intros k q Hq; apply (Hf eq_refl k q Hq); apply not_elem_of_nil).
  assert (in_section (stage_of th m) = true) as Hin by (by rewrite Hm).
  assert (forall k, plain (stage_of th k) = true) as Hall.
  { intros k. destruct (decide (k = m)) as [->|Hne]; [by rewrite Hm|].
    pose proof (others_plain m k Hin Hne). by destruct (stage_of th k). }
  pose proof (no_reset_todo Hall) as Ht.
  split; try apply Hok; try (apply move_sole; by left).
  - intros k. rewrite stage_insert. destruct (decide (k = m)) as [->|]; [by split|apply (ok_stage Hok)].
  - intros k l. rewrite stage_insert. destruct (decide (k = m)) as [->|]; [done|apply (ok_todo Hok)].
  - by rewrite Ht.
  - split.
    + intros k p'. rewrite stage_insert. destruct (decide (k = m)) as [->|Hne]; cycle 1.
      { intros Hk. specialize (Hall k). by rewrite Hk in Hall. }
      intros _. destruct (bar_plain _ _ _ _ (ok_barrier Hok) Hall) as [H|[(w & Hw)|(w & p0 & Hw & Hs & _)]].
      * apply (ok_dom Hok) in Hsg as [q Hq]. by rewrite H in Hq.
      * destruct (proj2 (ok_dom Hok w) (mk_is_Some _ _ Hw)) as [q Hq]. apply Hf' in Hq as Hq'.
        destruct (ok_queue Hok w q _ Hq Hw) as (j & Hj & _ & _ & H). assert (j = 0%nat) as -> by lia.
        rewrite Ht in H. by rewrite (H (not_elem_of_nil _)) in Hq'.
      * exists w. split; [done|]. destruct (decide (w = m)) as [->|Hne]; [by left|]. right. exists p0.
        rewrite stage_insert, decide_False by done. destruct Hs as [Hs|[l Hs]]; [done|].
        pose proof (others_plain m w Hin Hne) as Hf1. by rewrite Hs in Hf1.
    + intros k l. rewrite stage_insert. destruct (decide (k = m)) as [->|Hne]; [done|].
      intros Hk. specialize (Hall k). by rewrite Hk in Hall.
    + intros H. specialize (H m). by rewrite stage_insert, decide_True in H.
Qed.

Definition pushed m p : GlobalBlockSync :=
  set_modules s (alter (fun q => q ++ [signature_of p]) m (registered_modules s)).

Lemma pushed_inv m p k q : registered_modules (pushed m p) !! k = Some q ->
  exists q0, registered_modules s !! k = Some q0 /\ (k = m /\ q = q0 ++ [signature_of p] \/ k <> m /\ q = q0).
Proof.
  cbn. destruct (decide (k = m)) as [->|Hne].
  - rewrite lookup_alter_eq. intros (q0 & Hq0 & ->)%fmap_Some. eauto.
  - rewrite lookup_alter_ne by done. eauto.
Qed.

Lemma pushed_queue m p k q n : (exists n0, sg !! m = Some n0 /\ an !! n0 = Some p) ->
  registered_modules (pushed m p) !! k = Some q -> alter S m sg !! k = Some n ->
  queue_ok (pushed m p) don todo k q n.
Proof using Hok.
  intros (n0 & Hn0 & Hp) (q0 & Hq0 & [[-> ->]|[Hne ->]])%pushed_inv; cycle 1.
  { rewrite lookup_alter_ne by done. apply (ok_queue Hok k q0 n Hq0). }
  rewrite lookup_alter_eq, Hn0. intros [= <-]. destruct (ok_queue Hok m q0 n0 Hq0 Hn0) as (j & -> & Hj & H1 & H2).
  rewrite (ok_done Hok), lookup_app_r in Hp by lia. replace (_ - _)%nat with j in Hp by lia.
  pose proof (lookup_lt_Some _ _ _ Hp). exists (S j). cbn. split; [lia|]. split; [lia|].
  rewrite (take_S_r _ _ (signature_of p)) by (by rewrite list_lookup_fmap, Hp).
  split; [intros (y & ->)%H1; by exists y|by intros ->%H2].
Qed.

Lemma pushed_front m p k q x : registered_modules (pushed m p) !! k = Some q ->
  (forall q0, registered_modules s !! k = Some q0 -> head q0 = Some x) -> head q = Some x.
Proof.
  intros (q0 & Hq0 & [[-> ->]|[Hne ->]])%pushed_inv H; apply H in Hq0; [|done]. by destruct q0.
Qed.

Lemma push_stages m p k : stage_of th m = ToPush p -> (exists n0, sg !! m = Some n0 /\ an !! n0 = Some p) ->
  stage_ok (pushed m p) an (alter S m sg) k (stage_of (<[m := ToCheck p]> th) k).
Proof using Hok.
  intros Hm (n0 & Hn0 & Hp). rewrite stage_insert. destruct (decide (k = m)) as [->|Hne].
  { cbn. rewrite lookup_alter_eq, Hn0. eauto. }
  pose proof (ok_stage Hok k) as Hs. destruct (stage_of th k) as [|p'|p'|p'|p'|p' l tr|p'|l]; cbn in *;
    rewrite ?lookup_alter_ne by done; try done.
  - destruct Hs as [H1 H2]. split; [done|]. intros Htr k' q Hq Hl. eapply pushed_front; [exact Hq|]. intros q0 Hq0.
    by apply (H2 Htr k').
  - destruct Hs as [H1 H2]. split; [done|]. intros k' q Hq. eapply pushed_front; [exact Hq|]. eauto.
  - destruct Hs as [H1 H2]. split; [done|]. intros k' Hk'. destruct (H2 k' Hk') as [q Hq].
    destruct (decide (k' = m)) as [->|]; [rewrite lookup_alter_eq, Hq; eauto|rewrite lookup_alter_ne by done; eauto].
Qed.

Lemma push_held m p w k : stage_of th m = ToPush p -> held_by th w k -> in_section (stage_of th k) = true ->
  held_by (<[m := ToCheck p]> th) w k /\ alter S m sg !! w = sg !! w.
Proof.
  intros Hm Hh Hk. assert (k <> m) as Hne by (intros ->; by rewrite Hm in Hk).
  split; [apply move_held; try done; rewrite Hm; done|]. apply lookup_alter_ne. intros <-.
  destruct Hh as [->|[p' Hp']]; [done|congruence].
Qed.

Lemma push_barrier m p : stage_of th m = ToPush p -> (exists n0, sg !! m = Some n0 /\ an !! n0 = Some p) ->
  barrier (pushed m p) (<[m := ToCheck p]> th) don (alter S m sg).
Proof using Hok.
  intros Hm (n0 & Hn0 & Hp). destruct (ok_barrier Hok) as [H1 H2 H3]. split.
  - intros k p'. rewrite stage_insert. destruct (decide (k = m)) as [->|Hne]; [done|]. intros Hk.
    destruct (H1 k p' Hk) as (w & Hn & Hh). exists w.
    destruct (push_held m p w k Hm Hh ltac:(by rewrite Hk)) as [Hh' ->]. done.
  - intros k l. rewrite stage_insert. destruct (decide (k = m)) as [->|Hne]; [done|]. intros Hk.
    destruct (H2 k l Hk) as (w & Hn & Hh). exists w.
    destruct (push_held m p w k Hm Hh ltac:(by rewrite Hk)) as [Hh' ->]. done.
  - intros Hall. assert (forall k, plain (stage_of th k) = true) as Hall'.
    { intros k. destruct (decide (k = m)) as [->|Hne]; [by rewrite Hm|]. specialize (Hall k).
      by rewrite stage_insert, decide_False in Hall. }
    right. destruct (H3 Hall') as [H|[(w & Hw)|(w & p' & Hn & Hs & Hq)]].
    + destruct (proj2 (ok_dom Hok m) (mk_is_Some _ _ Hn0)) as [q Hq]. by rewrite H in Hq.
    + destruct (decide (w = m)) as [->|Hne]; [|left; exists w; by rewrite lookup_alter_ne].
      right. exists m, p. rewrite lookup_alter_eq, Hw. split; [done|]. split.
      { left. by rewrite stage_insert, decide_True. }
      assert (n0 = length don) as -> by congruence. rewrite (ok_done Hok), lookup_app_r, Nat.sub_diag in Hp by lia.
      cbn. destruct (pending_state s); [done|]. by injection Hp as ->.
    + assert (w <> m) as Hne by (intros ->; destruct Hs as [Hs|[l Hs]]; congruence). right. exists w, p'.
      by rewrite lookup_alter_ne, stage_insert, decide_False by done.
Qed.

Lemma push_ok m p : stage_of th m = ToPush p ->
  sys_ok block don todo (pushed m p) (<[m := ToCheck p]> th) an (alter S m sg).
Proof using Hok.
  intros Hm. pose proof (ok_stage Hok m) as Hs. rewrite Hm in Hs. cbn in Hs.
  split; try apply Hok.
  - intros k. cbn. destruct (decide (k = m)) as [->|]; [|rewrite !lookup_alter_ne by done; apply (ok_dom Hok)].
    rewrite !lookup_alter_eq, !fmap_is_Some. apply (ok_dom Hok).
  - intros k q n. by apply pushed_queue.
  - apply move_sole. done.
  - intros k. by apply push_stages.
  - intros k l. rewrite stage_insert. destruct (decide (k = m)) as [->|]; [done|apply (ok_todo Hok)].
  - intros (k & Hk)%(ok_reset Hok). exists k. rewrite stage_insert.
    destruct (decide (k = m)) as [->|]; [congruence|done].
  - by apply push_barrier.
Qed.

(** The thread that found all signatures removes the entry they are on. *)
Lemma pop_of_first p : todo = [] -> registered_modules s <> ∅ ->
  (forall k q, registered_modules s !! k = Some q -> head q = Some (signature_of p)) ->
  exists p0 rest, pending_state s = p0 :: rest /\
    pop_of p s = Some (set_block (set_pending s rest) (latest (sync_block_number s) p0)) /\
    forall k q n, registered_modules s !! k = Some q -> sg !! k = Some n ->
      exists j, n = (length don + S j)%nat /\ (j <= length rest)%nat /\
        q = signature_of p0 :: take j (signature_of <$> rest).
Proof using Hok.
  intros Ht (k0 & q0 & Hk0)%map_choose Hf.
  assert (forall k q n, registered_modules s !! k = Some q -> sg !! k = Some n ->
    exists j, n = (length don + S j)%nat /\ (S j <= length (pending_state s))%nat /\
      q = take (S j) (signature_of <$> pending_state s)) as Hq.
  { intros k q n Hq Hn. destruct (ok_queue Hok k q n Hq Hn) as (j & -> & Hj & _ & H).
    rewrite Ht in H. specialize (H (not_elem_of_nil _)). apply Hf in Hq.
    destruct j as [|j]; [by rewrite H in Hq|]. by exists j. }
  destruct (proj1 (ok_dom Hok k0) (mk_is_Some _ _ Hk0)) as [n0 Hn0].
  destruct (Hq k0 q0 n0 Hk0 Hn0) as (j0 & _ & Hj0 & E0). apply Hf in Hk0 as Hh.
  destruct (pending_state s) as [|p0 rest] eqn:Ep; cbn in Hj0; [lia|]. exists p0, rest. split; [done|].
  rewrite E0 in Hh. cbn in Hh. injection Hh as Hsig. split.
  - pose proof (ok_kinds Hok) as Hk. rewrite (ok_done Hok), Ep in Hk.
    destruct p, p0; try done; cbn; unfold pop_block, pop_reorg; rewrite Ep; cbn in *; try done; by destruct s.
  - intros k q n Hq1 Hn. destruct (Hq k q n Hq1 Hn) as (j & -> & Hj & ->). cbn in Hj. exists j. split_and!; [done|lia|done].
Qed.

Lemma section_todo m : in_section (stage_of th m) = true -> plain (stage_of th m) = true \/
  (exists p, stage_of th m = ToPop p) -> todo = [].
Proof using Hok.
  intros Hin Hp. destruct todo as [|k l] eqn:E; [done|]. destruct (ok_reset Hok ltac:(done)) as [m' Hm'].
  assert (m' = m) as -> by (apply (ok_sole Hok); by rewrite ?Hm'). rewrite Hm' in Hp. by destruct Hp as [|[? ?]].
Qed.

Lemma pop_step_ok m p order : stage_of th m = ToPop p -> order ≡ₚ elements (dom (registered_modules s)) ->
  exists don' s', pop_of p s = Some s' /\
    sys_ok block don' order s' (<[m := Resetting order]> th) an sg.
Proof using Hok.
  intros Hm Ho. pose proof (ok_stage Hok m) as Hs. rewrite Hm in Hs. destruct Hs as [Hsg Hf].
  assert (in_section (stage_of th m) = true) as Hin by (by rewrite Hm).
  destruct (pop_of_first p) as (p0 & rest & Ep & Epop & Hq);
    [by apply (section_todo m); eauto| |done|].
  { apply (ok_dom Hok) in Hsg as [q Hq]. intros E. by rewrite E in Hq. }
  exists (don ++ [p0]). eexists. split; [exact Epop|]. split; cbn; try apply Hok.
  - by rewrite (ok_done Hok), Ep, <-app_assoc.
  - by rewrite foldl_app, (ok_number Hok).
  - intros k q n Hk Hn. destruct (Hq k q n Hk Hn) as (j & -> & Hj & ->). exists j. rewrite length_app. cbn.
    split; [lia|]. split; [done|]. split; [by eexists|]. intros []. apply (in_order k order Ho). eauto.
  - apply move_sole. auto.
  - intros k. rewrite stage_insert. destruct (decide (k = m)) as [->|]; [|apply (ok_stage Hok k)]. split; cbn.
    + rewrite Ho. apply NoDup_elements.
    + intros k. apply (in_order k order Ho).
  - intros k l. rewrite stage_insert. destruct (decide (k = m)) as [->|Hne]; [by intros [= <-]|].
    intros Hk. pose proof (others_plain m k Hin Hne) as H. by rewrite Hk in H.
  - intros _. exists m. by rewrite stage_insert, decide_True.
  - split.
    + intros k p'. rewrite stage_insert. destruct (decide (k = m)) as [->|Hne]; [done|].
      intros Hk. pose proof (others_plain m k Hin Hne) as H. by rewrite Hk in H.
    + intros k l. rewrite stage_insert. destruct (decide (k = m)) as [->|Hne]; cycle 1.
      { intros Hk. pose proof (others_plain m k Hin Hne) as H. by rewrite Hk in H. }
      intros _. destruct (bar_pop _ _ _ _ (ok_barrier Hok) m p Hm) as (w & Hw & Hh). exists w.
      rewrite length_app, Nat.add_1_r. split; [done|]. destruct Hh as [->|[p' Hp']]; [by left|]. right. exists p'.
      rewrite stage_insert, decide_False; [done|]. intros ->. congruence.
    + intros H. specialize (H m). by rewrite stage_insert, decide_True in H.
Qed.

Lemma reset_barrier s' m l : (exists l0, stage_of th m = Resetting l0) -> barrier s' (<[m := Resetting l]> th) don sg.
Proof using Hok.
  intros [l0 Hm]. assert (in_section (stage_of th m) = true) as Hin by (by rewrite Hm). split.
  - intros k p'. rewrite stage_insert. destruct (decide (k = m)) as [->|Hne]; [done|].
    intros Hk. pose proof (others_plain m k Hin Hne) as H. by rewrite Hk in H.
  - intros k l'. rewrite stage_insert. destruct (decide (k = m)) as [->|Hne]; cycle 1.
    { intros Hk. pose proof (others_plain m k Hin Hne) as H. by rewrite Hk in H. }
    intros _. destruct (bar_reset _ _ _ _ (ok_barrier Hok) m l0 Hm) as (w & Hw & Hh). exists w. split; [done|].
    destruct Hh as [->|[p' Hp']]; [by left|]. right. exists p'.
    rewrite stage_insert, decide_False; [done|]. intros ->. congruence.
  - intros H. specialize (H m). by rewrite stage_insert, decide_True in H.
Qed.

Lemma reset_ok m k l : stage_of th m = Resetting (k :: l) ->
  exists y q, registered_modules s !! k = Some (y :: q) /\
    sys_ok block don l (set_modules s (<[k := q]> (registered_modules s))) (<[m := Resetting l]> th) an sg.
Proof using Hok.
  intros Hm. pose proof (ok_stage Hok m) as Hs. rewrite Hm in Hs. destruct Hs as [[Hkl Hnd]%NoDup_cons Hreg].
  assert (in_section (stage_of th m) = true) as Hin by (by rewrite Hm).
  pose proof (ok_todo Hok m _ Hm) as Et. destruct (Hreg k (list_elem_of_here _ _)) as [q0 Hq0].
  destruct (proj1 (ok_dom Hok k) (mk_is_Some _ _ Hq0)) as [n0 Hn0].
  destruct (ok_queue Hok k q0 n0 Hq0 Hn0) as (j & En & Hj & H & _). rewrite <-Et in H.
  destruct (H (list_elem_of_here _ _)) as [y ->]. exists y. eexists. split; [exact Hq0|]. split; cbn; try apply Hok.
  - intros k'. destruct (decide (k' = k)) as [->|Hne].
    + rewrite lookup_insert_eq, <-(ok_dom Hok), Hq0. split; eauto.
    + rewrite lookup_insert_ne by done. apply (ok_dom Hok).
  - intros k' q n Hq Hn. destruct (decide (k' = k)) as [->|Hne].
    + rewrite lookup_insert_eq in Hq. injection Hq as <-. exists j. cbn. by assert (n = n0) as -> by congruence.
    + rewrite lookup_insert_ne in Hq by done. destruct (ok_queue Hok k' q n Hq Hn) as (j' & -> & Hj' & H1 & H2).
      rewrite <-Et in H1, H2. exists j'. split_and!; try done; cbn; [intros Hl; apply H1; by right|].
      intros Hl. apply H2. by intros [?|?]%elem_of_cons.
  - apply move_sole. auto.
  - intros k'. rewrite stage_insert. destruct (decide (k' = m)) as [->|Hne].
    + split; [done|]. intros k'' Hk''. cbn. rewrite lookup_insert_is_Some'. right. apply Hreg. by right.
    + pose proof (others_plain m k' Hin Hne) as Hf. pose proof (ok_stage Hok k') as Hst.
      by destruct (stage_of th k').
  - intros k' l'. rewrite stage_insert. destruct (decide (k' = m)) as [->|Hne]; [by intros [= <-]|].
    intros Hk. pose proof (others_plain m k' Hin Hne) as Hf. by rewrite Hk in Hf.
  - intros _. exists m. by rewrite stage_insert, decide_True.
  - apply reset_barrier. eauto.
Qed.

Lemma leave_ok m : stage_of th m = Resetting [] -> sys_ok block don todo s (<[m := Idle]> th) an sg.
Proof using Hok.
  intros Hm. assert (in_section (stage_of th m) = true) as Hin by (by rewrite Hm).
  assert (forall k, in_section (stage_of (<[m := Idle]> th) k) = false) as Hno.
  { intros k. rewrite stage_insert. destruct (decide (k = m)) as [->|Hne]; [done|by apply (others_plain m)]. }
  split; try apply Hok.
  - intros k k' Hk. by rewrite Hno in Hk.
  - intros k. rewrite stage_insert. destruct (decide (k = m)) as [->|]; [done|apply (ok_stage Hok)].
  - intros k l Hk. specialize (Hno k). by rewrite Hk in Hno.
  - by rewrite <-(ok_todo Hok m _ Hm).
  - split.
    + intros k p Hk. specialize (Hno k). by rewrite Hk in Hno.
    + intros k l Hk. specialize (Hno k). by rewrite Hk in Hno.
    + intros _. right. left. destruct (bar_reset _ _ _ _ (ok_barrier Hok) m [] Hm) as (w & Hw & _). by exists w.
Qed.

Lemma announced_ok p : (forall b, p <> Processing b) ->
  sys_ok block don todo (set_pending s (pending_state s ++ [p])) th (an ++ [p]) sg.
Proof using Hok.
  intros Hp. split; try apply Hok; cbn.
  - by rewrite (ok_done Hok), app_assoc.
  - intros b [H|H%list_elem_of_singleton]%elem_of_app; [by apply (ok_kinds Hok b)|by apply (Hp b)].
  - intros m q n Hq Hn. destruct (ok_queue Hok m q n Hq Hn) as (j & -> & Hj & H1 & H2). exists j. cbn.
    rewrite length_app, fmap_app, take_app_le by (by rewrite length_fmap). split_and!; try done. lia.
  - intros m. pose proof (ok_stage Hok m) as Hs. destruct (stage_of th m); cbn in *; try done;
      destruct Hs as (n & Hn & Hl); exists n; split; try done; by apply lookup_app_l_Some.
  - destruct (ok_barrier Hok) as [H1 H2 H3]. split; [done|done|]. intros Hall.
    destruct (H3 Hall) as [H|[H|(w & p' & Hn & Hs & Hq)]]; [by left|by right; left|]. right. right.
    exists w, p'. cbn. destruct (pending_state s); [done|by split_and!].
Qed.

Lemma registered_ok m j : registered_modules s !! m = None -> no_section th ->
  sys_ok block don todo (set_joining (set_modules s (<[m := []]> (registered_modules s))) j) th an
    (<[m := length don]> sg).
Proof using Hok.
  intros Hm Hno. assert (sg !! m = None) as Hsg.
  { destruct (sg !! m) as [n|] eqn:E; [|done]. destruct (proj2 (ok_dom Hok m) (mk_is_Some _ _ E)) as [q Hq]. congruence. }
  assert (todo = []) as Ht.
  { apply no_reset_todo. intros k. specialize (Hno k). by destruct (stage_of th k). }
  split; try apply Hok; cbn.
  - intros k. destruct (decide (k = m)) as [->|]; [rewrite !lookup_insert_eq; split; eauto|].
    rewrite !lookup_insert_ne by done. apply (ok_dom Hok).
  - intros k q n. destruct (decide (k = m)) as [->|]; cycle 1.
    { rewrite !lookup_insert_ne by done. apply (ok_queue Hok). }
    rewrite !lookup_insert_eq. intros [= <-] [= <-]. exists 0%nat. split; [lia|]. split; [lia|].
    split; [|done]. rewrite Ht. by intros ?%not_elem_of_nil.
  - intros k. pose proof (ok_stage Hok k) as Hs. specialize (Hno k).
    destruct (decide (k = m)) as [->|]; destruct (stage_of th _); cbn in *; try done;
      rewrite ?Hsg in Hs; rewrite ?lookup_insert_ne by done; try done.
    all: first [by destruct Hs as (n & Hn & _)|by destruct Hs].
  - split.
    + intros k p Hk. specialize (Hno k). by rewrite Hk in Hno.
    + intros k l Hk. specialize (Hno k). by rewrite Hk in Hno.
    + intros _. right. left. exists m. by rewrite lookup_insert_eq.
Qed.
End invariant.

Definition system_ok (block : u64) sys : Prop :=
  exists don todo, sys_ok block don todo (sys_sync sys) (sys_threads sys) (sys_announced sys) (sys_signed sys).

Lemma new_system_ok block : system_ok block (new_system block).
Proof.
  exists [], []. split; cbn; try done.
  - intros b. apply not_elem_of_nil.
  - intros m. rewrite !lookup_empty. done.
  - split; try done. by left.
Qed.

Lemma grown_app s p : grown s (set_pending s (pending_state s ++ [p])) = [p].
Proof. unfold grown. cbn. by rewrite drop_app_length. Qed.

Lemma call_ok block sys module p : system_ok block sys -> stage_of (sys_threads sys) module = Idle ->
  may_call sys module p -> exists t, look (sys_sync sys) module p = Ret t /\
  system_ok block {| sys_sync := sys_sync sys; sys_threads := <[module := t]> (sys_threads sys);
    sys_announced := sys_announced sys; sys_signed := sys_signed sys |}.
Proof.
  intros (don & todo & Hok) Hm Hc. destruct sys as [s th an sg]. cbn in *.
  destruct (look_ok _ _ _ _ _ _ _ Hok module p Hm Hc) as (t & Ht & H). exists t. split; [done|]. by exists don, todo.
Qed.

(** A step of a thread never panics, and keeps the invariant. *)
Lemma step_ok block sys module order : let t := stage_of (sys_threads sys) module in system_ok block sys ->
  order ≡ₚ elements (dom (registered_modules (sys_sync sys))) ->
  exists s' t', thread_step order (sys_sync sys) module t = Ret (s', t') /\
  ((forall p, t = ToCheck p -> no_section (sys_threads sys)) ->
   system_ok block {| sys_sync := s'; sys_threads := <[module := t']> (sys_threads sys);
      sys_announced := sys_announced sys;
      sys_signed := match t with ToPush _ => alter S module (sys_signed sys) | _ => sys_signed sys end |}).
Proof.
  intros t (don & todo & Hok) Ho. destruct sys as [s th an sg]. subst t. cbn in *.
  destruct (stage_of th module) as [|p|p|p|p|p [|k l] tr|p|[|k l]] eqn:Hm; cbn.
  - eexists _, _. split; [done|]. exists don, todo. apply (move_ok _ _ _ _ _ _ _ Hok); rewrite ?Hm; try done; auto.
  - destruct (compare_ok _ _ _ _ _ _ _ Hok module p Hm) as [Hp H]. rewrite bool_decide_eq_true_2 by done.
    eexists _, _. split; [done|]. by exists don, todo.
  - eexists _, _. split; [done|]. exists don, todo. by apply (join_ok _ _ _ _ _ _ _ Hok).
  - eexists _, _. split; [done|]. exists don, todo. by apply (push_ok _ _ _ _ _ _ _ Hok).
  - eexists _, _. split; [done|]. intros Hs. exists don, todo. by eapply (start_ok _ _ _ _ _ _ _ Hok); eauto.
  - eexists _, _. split; [done|]. exists don, todo.
    destruct tr; [by apply (settled_ok _ _ _ _ _ _ _ Hok)|by eapply (unsettled_ok _ _ _ _ _ _ _ Hok); eauto].
  - eexists _, _. split; [done|]. exists don, todo. by apply (check_ok _ _ _ _ _ _ _ Hok).
  - destruct (pop_step_ok _ _ _ _ _ _ _ Hok module p order Hm Ho) as (don' & s' & -> & H).
    eexists _, _. split; [done|]. by exists don', order.
  - eexists _, _. split; [done|]. exists don, todo. by apply (leave_ok _ _ _ _ _ _ _ Hok).
  - destruct (reset_ok _ _ _ _ _ _ _ Hok module k l Hm) as (y & q & -> & H).
    eexists _, _. split; [done|]. by exists don, l.
Qed.

Lemma sync_step_ok block sys sys' : system_ok block sys -> sync_step sys sys' -> system_ok block sys'.
Proof.
  intros H Hs. destruct Hs as [module s' Hr Hno| |b s'|a b Hab s'|module p t Hm Hc Hl|module order s' t' t Ho Ht Hs].
  - destruct H as (don & todo & H). unfold register in Hr.
    destruct (all_modules_registered (sys_sync sys)); [injection Hr as <-; by exists don, todo|].
    destruct (registered_modules (sys_sync sys) !! module) eqn:E; [done|]. injection Hr as <-. exists don, todo. cbn.
    replace (_ - _)%nat with (length don); [by apply registered_ok|]. rewrite (ok_done H), length_app. lia.
  - destruct H as (don & todo & [H1 H2 H3 H4 H5 H6 H7 H8 H9 [B1 B2 B3]]). exists don, todo.
    constructor; try assumption. by constructor.
  - destruct H as (don & todo & H). exists don, todo. subst s'. cbn. unfold enqueue_block. case_bool_decide.
    + unfold grown. by rewrite drop_all, app_nil_r.
    + rewrite grown_app. by apply announced_ok.
  - destruct H as (don & todo & H). exists don, todo. subst s'. cbn. rewrite grown_app. by apply announced_ok.
  - destruct (call_ok block sys module p H Hm Hc) as (t' & E & H'). rewrite Hl in E. by injection E as ->.
  - destruct (step_ok block sys module order H Ho) as (s1 & t1 & E & H'). fold t in E, H'. rewrite Ht in E.
    injection E as -> ->. by apply H'.
Qed.

Lemma sync_reach_ok block sys : sync_reach block sys -> system_ok block sys.
Proof. induction 1; [apply new_system_ok|by eapply sync_step_ok]. Qed.

(** C27. Modules that sign off on the announced blocks and reorgs in order, as long as
    no two of their threads are at the same time between the first look at the queues
    and the reset of these, and none registers meanwhile: however the single steps of
    their calls interleave with each other and with new blocks and reorgs, no step
    panics, an entry is done only when all modules have signed off on it, the block
    number is that of the last block that is done, and when no call is running some
    module has yet to sign the oldest pending entry. *)
Theorem reachable_sync_never_panics block sys (Hr : sync_reach block sys) :
  (forall module p, stage_of (sys_threads sys) module = Idle -> may_call sys module p ->
    look (sys_sync sys) module p <> Panic) /\
  (forall module order, order ≡ₚ elements (dom (registered_modules (sys_sync sys))) ->
    thread_step order (sys_sync sys) module (stage_of (sys_threads sys) module) <> Panic) /\
  exists don, sys_announced sys = don ++ pending_state (sys_sync sys) /\
    sync_block_number (sys_sync sys) = foldl latest block don /\
    (forall module, is_Some (registered_modules (sys_sync sys) !! module) ->
      exists n, sys_signed sys !! module = Some n /\ (length don <= n)%nat) /\
    ((forall module, stage_of (sys_threads sys) module = Idle) -> registered_modules (sys_sync sys) <> ∅ ->
      exists module, sys_signed sys !! module = Some (length don)).
Proof.
  apply sync_reach_ok in Hr as H. split; [|split].
  - intros module p Hm Hc. by destruct (call_ok block sys module p H Hm Hc) as (t & -> & _).
  - intros module order Ho. by destruct (step_ok block sys module order H Ho) as (s' & t' & -> & _).
  - destruct H as (don & todo & H). exists don. split; [apply H|]. split; [apply H|]. split.
    + intros module [q Hq]. destruct (proj1 (ok_dom H module) (mk_is_Some _ _ Hq)) as [n Hn]. exists n.
      split; [done|]. destruct (ok_queue H module q n Hq Hn) as (j & -> & _). lia.
    + intros Hidle Hne. destruct (bar_plain _ _ _ _ (ok_barrier H)) as [E|[Hw|(w & p & _ & Hs & _)]]; [|done|done|].
      { intros m. by rewrite Hidle. }
      rewrite Hidle in Hs. by destruct Hs as [?|[? ?]].
Qed.

(** ** A call that no other thread interrupts *)

Fixpoint thread_steps (n : nat) (order : list string) s module (t : stage) : outcome (GlobalBlockSync * stage) :=
  match n with
  | O => Ret (s, t)
  | S n' => '(s, t) ← thread_step order s module t; thread_steps n' order s module t
  end.

Lemma idle_steps n order s module : thread_steps n order s module Idle = Ret (s, Idle).
Proof. by induction n. Qed.

Lemma check_steps n order s module p l tr :
  thread_steps (length l + n) order s module (Checking p l tr) =
  thread_steps n order s module (Checking p [] (tr &&
    forallb (fun k => from_option (fun q => front_is q (signature_of p)) true (registered_modules s !! k)) l)).
Proof.
  revert tr. induction l as [|k l IH]; intros tr; [by rewrite andb_true_r|]. cbn. rewrite IH. by rewrite andb_assoc.
Qed.

Lemma all_modules_order s f order : order ≡ₚ elements (dom (registered_modules s)) ->
  forallb (fun k => from_option f true (registered_modules s !! k)) order = all_modules s f.
Proof.
  intros Ho. apply eq_true_iff_eq. unfold all_modules. rewrite forallb_forall, bool_decide_eq_true. split.
  - intros H k q Hq. specialize (H k). rewrite Hq in H. apply H, list_elem_of_In, (in_order s k order Ho). eauto.
  - intros H k _. destruct (registered_modules s !! k) as [q|] eqn:E; [|done]. by apply (H k q).
Qed.

Definition reset_one (m : gmap string (list SignOffState)) (k : string) : gmap string (list SignOffState) :=
  alter tail k m.

Lemma reset_steps n order s module l : NoDup l ->
  thread_steps (length l + n) order s module (Resetting l) =
  if forallb (fun k => from_option (fun q => negb (bool_decide (q = []))) true (registered_modules s !! k)) l then
    thread_steps n order (set_modules s (foldl reset_one (registered_modules s) l)) module (Resetting [])
  else Panic.
Proof.
  revert s. induction l as [|k l IH]; intros s; [by destruct s|]. intros [Hk Hl]%NoDup_cons. cbn.
  assert (forall s', (forall k', k' ∈ l -> registered_modules s' !! k' = registered_modules s !! k') ->
    forallb (fun k => from_option (fun q => negb (bool_decide (q = []))) true (registered_modules s' !! k)) l =
    forallb (fun k => from_option (fun q => negb (bool_decide (q = []))) true (registered_modules s !! k)) l) as Hext.
  { intros s' H. apply eq_true_iff_eq. rewrite !forallb_forall. split; intros Hf k' Hk'; apply Hf in Hk' as Hv;
      by rewrite H in * by (by apply list_elem_of_In). }
  destruct (registered_modules s !! k) as [[|x q]|] eqn:E; cbn; [done| |].
  - rewrite IH by done. rewrite Hext.
    + replace (reset_one (registered_modules s) k) with (<[k := q]> (registered_modules s)); [done|].
      unfold reset_one. apply map_eq. intros k'. destruct (decide (k' = k)) as [->|Hne].
      * by rewrite lookup_insert_eq, lookup_alter_eq, E.
      * by rewrite lookup_insert_ne, lookup_alter_ne.
    + intros k' Hk'. cbn. rewrite lookup_insert_ne; [done|]. by intros ->.
  - rewrite IH by done. replace (reset_one (registered_modules s) k) with (registered_modules s); [done|].
    unfold reset_one. apply map_eq. intros k'. destruct (decide (k' = k)) as [->|Hne].
    + by rewrite lookup_alter_eq, E.
    + by rewrite lookup_alter_ne.
Qed.

Lemma reset_all s order : order ≡ₚ elements (dom (registered_modules s)) ->
  foldl reset_one (registered_modules s) order = tail <$> registered_modules s.
Proof.
  intros Ho. assert (NoDup order) as Hnd by (rewrite Ho; apply NoDup_elements).
  assert (forall m k, foldl reset_one m order !! k = if decide (k ∈ order) then tail <$> m !! k else m !! k) as H.
  { clear Ho. induction order as [|k0 l IH]; intros m k; [by rewrite decide_False by apply not_elem_of_nil|].
    apply NoDup_cons in Hnd as [Hk Hl]. cbn. rewrite IH by done. unfold reset_one. destruct (decide (k = k0)) as [->|Hne].
    - rewrite decide_False, decide_True by (done || by left). apply lookup_alter_eq.
    - rewrite lookup_alter_ne by done. destruct (decide (k ∈ l)) as [Hin|Hout].
      + by rewrite decide_True by (by right).
      + rewrite decide_False; [done|]. by intros [?|?]%elem_of_cons. }
  apply map_eq. intros k. rewrite H, lookup_fmap. case_decide as Hk; [done|].
  rewrite (in_order s k order Ho) in Hk. by destruct (registered_modules s !! k) as [q|]; [destruct Hk; eauto|].
Qed.

Lemma pop_of_modules p s s' : pop_of p s = Some s' -> registered_modules s' = registered_modules s.
Proof.
  destruct p; cbn; unfold pop_block, pop_reorg; destruct (pending_state s) as [|p0 rest]; try done.
  1-2: by intros [= <-]. by intros [= <-]; destruct p0.
Qed.

Lemma finish_steps n order s module p : order ≡ₚ elements (dom (registered_modules s)) ->
  thread_steps (3 + (length order + (2 + (length order + S n)))) order s module (ToJoin p) =
  (s' ← finish (push_sign_off s module (signature_of p)) (signature_of p) (pop_of p); Ret (s', Idle)).
Proof.
  intros Ho. set (s1 := push_sign_off s module (signature_of p)).
  assert (order ≡ₚ elements (dom (registered_modules s1))) as Ho1 by (cbn; by rewrite dom_alter_L).
  change (thread_steps (length order + (2 + (length order + S n))) order s1 module (Checking p order true) =
    (s' ← finish s1 (signature_of p) (pop_of p); Ret (s', Idle))).
  rewrite check_steps. rewrite (all_modules_order s1 (fun q => front_is q (signature_of p)) order Ho1).
  change (2 + (length order + S n))%nat with (S (S (length order + S n))).
  unfold finish, all_signed. cbn [andb thread_steps thread_step mbind outcome_bind].
  destruct (all_modules s1 _); [|apply idle_steps]. cbn [thread_step].
  destruct (pop_of p s1) as [s2|] eqn:E; cbn [mbind outcome_bind]; [|apply idle_steps].
  apply pop_of_modules in E. rewrite <-E in Ho1.
  rewrite reset_steps by (rewrite Ho1; apply NoDup_elements).
  rewrite (all_modules_order s2 _ order Ho1). unfold reset_sign_offs.
  destruct (all_modules s2 _); [|done]. rewrite (reset_all s2 order Ho1). cbn. apply idle_steps.
Qed.

(** The steps of a sign-off that no other thread interrupts are the sign-off. *)
Theorem uninterrupted_sign_off s module p order (Ho : order ≡ₚ elements (dom (registered_modules s))) :
  (t ← look s module p; thread_steps (7 + 2 * length order) order s module t)
  = (s' ← sign_off s module p; Ret (s', Idle)).
Proof.
  destruct p as [b|a b|b]; [done| |]; cbn [look sign_off].
  - unfold sign_off_reorg. case_bool_decide; [done|]. cbn [mbind outcome_bind].
    replace (7 + 2 * length order)%nat with (S (3 + (length order + (2 + (length order + 1)))))%nat by lia.
    cbn [thread_steps thread_step]. case_bool_decide; [|done]. by apply finish_steps.
  - unfold sign_off_on_block. case_bool_decide; cbn [negb mbind outcome_bind].
    + replace (7 + 2 * length order)%nat with (3 + (length order + (2 + (length order + 2))))%nat by lia.
      by apply finish_steps.
    + destruct (_ && _); [|done]. apply idle_steps.
Qed.

(** ** Overlapping sections *)

(** A schedule: which thread takes a step, or the producer a block. *)
Inductive sync_event :=
| Thread (module : string)
| Producer (block : u64).

Fixpoint run_schedule (order : list string) s th (l : list sync_event)
    : outcome (GlobalBlockSync * gmap string stage) :=
  match l with
  | [] => Ret (s, th)
  | Thread module :: l' =>
      '(s, t) ← thread_step order s module (stage_of th module);
      run_schedule order s (<[module := t]> th) l'
  | Producer block :: l' =>
      run_schedule order (default s (new_block s block)) th l'
  end.

Definition panics {A} (o : outcome A) : bool := match o with Panic => true | Ret _ => false end.

Definition two_modules : GlobalBlockSync :=
  {| pending_state := [PendingProgression 11]; sync_block_number := 10;
     registered_modules := <["Consensus"%string := []]> {["OrderPool"%string := []]};
     joining_modules := {["Consensus"%string; "OrderPool"%string]}; all_modules_registered := true |}.

Definition both_names : list string := ["Consensus"; "OrderPool"]%string.

Definition both_sign : gmap string stage :=
  <["Consensus"%string := ToJoin (PendingProgression 11)]> {["OrderPool"%string := ToJoin (PendingProgression 11)]}.

(** Both modules push and check before either pops; meanwhile the producer, which
    was waiting for the sign-offs on block 11, announces block 12. *)
Definition race : list sync_event :=
  let both n := concat (replicate n [Thread "Consensus"; Thread "OrderPool"]%string) in
  both 6%nat ++ [Producer 12; Thread "Consensus"; Thread "OrderPool"]%string ++
  replicate 3 (Thread "Consensus"%string).

(** The check and the removal of the pending entry are not one step: two modules
    that sign off on a block at the same time can both find all signatures, and
    remove two entries.  Then a block that no module has signed off on becomes the
    current one, and the slower thread panics on an empty queue. *)
Theorem concurrent_sign_off_skips_block : exists s th,
  run_schedule both_names two_modules both_sign race = Ret (s, th) /\
  sync_block_number s = 12 /\ pending_state s = [] /\
  map_Forall (fun _ q => q = []) (registered_modules s) /\
  stage_of th "OrderPool" = Resetting both_names /\
  thread_step both_names s "OrderPool" (Resetting both_names) = Panic.
Proof.
  assert (match run_schedule both_names two_modules both_sign race with
    | Ret (s, th) => bool_decide (sync_block_number s = 12 /\ pending_state s = [] /\
        map_Forall (fun _ q => q = []) (registered_modules s) /\
        stage_of th "OrderPool" = Resetting both_names)
          && panics (thread_step both_names s "OrderPool" (Resetting both_names))
    | Panic => false
    end = true) as H by (vm_compute; reflexivity).
  destruct (run_schedule both_names two_modules both_sign race) as [[s th]|]; [|discriminate].
  apply andb_true_iff in H as [(H1 & H2 & H3 & H4)%bool_decide_eq_true H5].
  exists s, th. split_and!; try done. by destruct (thread_step both_names s "OrderPool" (Resetting both_names)).
Qed.

(** ** An example *)

(** A system driven by hand: the next step of a thread, and a call. *)
Definition names sys : list string := elements (dom (registered_modules (sys_sync sys))).

Definition advance (module : string) sys : SyncSystem :=
  let t := stage_of (sys_threads sys) module in
  match thread_step (names sys) (sys_sync sys) module t with
  | Ret (s', t') =>
      {| sys_sync := s'; sys_threads := <[module := t']> (sys_threads sys); sys_announced := sys_announced sys;
         sys_signed := match t with ToPush _ => alter S module (sys_signed sys) | _ => sys_signed sys end |}
  | Panic => sys
  end.

Definition call (module : string) p sys : SyncSystem :=
  match look (sys_sync sys) module p with
  | Ret t => {| sys_sync := sys_sync sys; sys_threads := <[module := t]> (sys_threads sys);
                sys_announced := sys_announced sys; sys_signed := sys_signed sys |}
  | Panic => sys
  end.

Definition may_advance (module : string) sys : bool :=
  negb (panics (thread_step (names sys) (sys_sync sys) module (stage_of (sys_threads sys) module))) &&
  match stage_of (sys_threads sys) module with
  | ToCheck _ => bool_decide (map_Forall (fun _ t => in_section t = false) (sys_threads sys))
  | _ => true
  end.

Lemma advance_reach block sys module : sync_reach block sys -> may_advance module sys = true ->
  sync_reach block (advance module sys).
Proof.
  intros Hr [Hp Hs]%andb_true_iff. unfold advance.
  destruct (thread_step _ _ _ _) as [[s' t']|] eqn:E; [|done]. apply (sreach_step block sys); [done|].
  apply (step_thread sys module (names sys)); [done|done|]. intros p Hp'. rewrite Hp' in Hs.
  apply bool_decide_eq_true in Hs. intros k. unfold stage_of. destruct (sys_threads sys !! k) eqn:Ek; [|done].
  by apply (Hs k).
Qed.

Lemma call_reach block sys module p n : sync_reach block sys ->
  stage_of (sys_threads sys) module = Idle -> sys_signed sys !! module = Some n ->
  sys_announced sys !! n = Some p -> sync_reach block (call module p sys).
Proof.
  intros Hr Hm Hn Hp. unfold call. destruct (look _ _ _) as [t|] eqn:E; [|done].
  apply (sreach_step block sys); [done|]. apply (step_call sys module p); [done| |done]. left. by exists n.
Qed.

Fixpoint advances (l : list string) sys : SyncSystem :=
  match l with [] => sys | m :: l' => advances l' (advance m sys) end.
Fixpoint may_advances (l : list string) sys : bool :=
  match l with [] => true | m :: l' => may_advance m sys && may_advances l' (advance m sys) end.

Lemma advances_reach block l sys : sync_reach block sys -> may_advances l sys = true ->
  sync_reach block (advances l sys).
Proof.
  revert sys. induction l as [|m l IH]; intros sys Hr; [done|]. intros [H1 H2]%andb_true_iff.
  apply IH; [by apply advance_reach|done].
Qed.

(** Two modules that have registered, and block 11. *)
Definition started : SyncSystem :=
  {| sys_sync := two_modules; sys_threads := ∅; sys_announced := [PendingProgression 11];
     sys_signed := <["Consensus"%string := 0%nat]> {["OrderPool"%string := 0%nat]} |}.

Definition joined (l : list string) (all : bool) : SyncSystem :=
  {| sys_sync := {| pending_state := []; sync_block_number := 10;
                    registered_modules := foldr (fun m => <[m := []]>) ∅ l; joining_modules := list_to_set l;
                    all_modules_registered := all |};
     sys_threads := ∅; sys_announced := []; sys_signed := foldr (fun m => <[m := 0%nat]>) ∅ l |}.

Lemma joined_step m l : foldr (fun m => <[m := []]>) (∅ : gmap string (list SignOffState)) l !! m = None ->
  sync_step (joined l false) (joined (m :: l) false).
Proof.
  intros H. apply (step_register (joined l false) m); [|done]. unfold register. cbn. by rewrite H.
Qed.

Lemma started_reach : sync_reach 10 started.
Proof.
  apply (sreach_step 10 (joined both_names true)); [|exact (step_block (joined both_names true) 11)].
  apply (sreach_step 10 (joined both_names false)); [|exact (step_finalize (joined both_names false))].
  apply (sreach_step 10 (joined ["OrderPool"%string] false)); [|by apply joined_step].
  apply (sreach_step 10 (joined [] false)); [apply sreach_new|by apply joined_step].
Qed.

(** Both modules sign; the thread of the first one finds both signatures, and while
    it resets the queues that of the second one has not looked at them yet. *)
Definition sample_run : SyncSystem :=
  let block := PendingProgression 11 in
  advances ["Consensus"; "OrderPool"; "Consensus"; "OrderPool"; "Consensus"; "Consensus"; "Consensus"; "Consensus";
    "Consensus"; "Consensus"]%string (call "OrderPool" block (call "Consensus" block started)).

Lemma sample_run_reach : sync_reach 10 sample_run.
Proof.
  apply advances_reach; [|vm_compute; reflexivity].
  apply (call_reach 10 _ _ _ 0); [|vm_compute; reflexivity..].
  apply (call_reach 10 _ _ _ 0); [exact started_reach|vm_compute; reflexivity..].
Qed.

Lemma reachable_sync_never_panics_witness :
  sync_block_number (sys_sync sample_run) = 11 /\ pending_state (sys_sync sample_run) = [] /\
  stage_of (sys_threads sample_run) "Consensus" = Resetting ["Consensus"%string] /\
  stage_of (sys_threads sample_run) "OrderPool" = ToCheck (PendingProgression 11) /\
  thread_step (names sample_run) (sys_sync sample_run) "Consensus" (Resetting ["Consensus"%string]) <> Panic.
Proof.
  split; [vm_compute; reflexivity|]. split; [vm_compute; reflexivity|]. split; [vm_compute; reflexivity|].
  split; [vm_compute; reflexivity|].
  assert (stage_of (sys_threads sample_run) "Consensus" = Resetting ["Consensus"%string]) as <- by (vm_compute; reflexivity).
  apply (reachable_sync_never_panics 10 sample_run sample_run_reach). reflexivity.
Defined.
