(* ===== verification/Eth.v ===== *)
(** * Events of the chain

    The model of [crates/eth/src/manager.rs] and of [crates/types/src/traits/chain_ext.rs]:
    what a node reads from a new block or from a reorg and tells its modules.
    The decoding of logs and of bundles is that of libraries. *)

From Stdlib Require Import Sorted.
From S2P Require Import Prelude Ray Orders StateValidation BlockSync.
Open Scope Z_scope.

Abbreviation Bytes := (list Z) (only parsing).
Abbreviation Channel := nat (only parsing).

(** ** Chains *)

(** What [alloy] decodes from a log, and what is in the call data of a bundle. *)
Class ChainLib : Type := {
  LogData : Type;
  decode_node_removed : LogData -> option Address;
  decode_node_added : LogData -> option Address;
  decode_pool_removed : LogData -> option (Address * Address * Z * Z);
  decode_pool_configured : LogData -> option (Address * Address * Z * Z);
  decode_transfer : LogData -> option (Address * Address);
  decode_approval : LogData -> option (Address * Address);
  Bundle : Type;
  decode_execute_call : Bytes -> option Bytes;
  pade_decode_bundle : Bytes -> option Bundle;
  bundle_order_hashes : Bundle -> u64 -> list B256;
  bundle_accounts : Bundle -> u64 -> list Address
}.

Inductive EthEvent :=
| NewBlock (block : u64)
| NewBlockTransitions (block : u64) (filled_orders : list B256) (address_changeset : list Address)
| ReorgedOrders (orders : list B256) (first last : u64)
| FinalizedBlock (block : u64)
| NewPool (pool : PoolKey)
| RemovedPool (pool : PoolKey)
| AddedNode (node : Address)
| RemovedNode (node : Address).

Definition MAX_REORG_DEPTH : u64 := 150.

Section eth.
Context `{HI : HashIter} `{PH : PoolHasher} `{CL : ChainLib}.

Record Log := { log_address : Address; log_data : LogData }.
Record Receipt := { receipt_success : bool; receipt_logs : list Log }.
Record Transaction := { tx_to : option Address; tx_input : Bytes }.
Record Block := {
  block_number_of : u64;
  block_hash_of : B256;
  block_transactions : list Transaction;
  block_receipts : list Receipt
}.

(** A segment of the chain, which is not empty: its last block and the blocks before
    it. *)
Record Chain := {
  chain_before : list Block;
  chain_tip : Block
}.

Definition chain_blocks (c : Chain) : list Block := chain_before c ++ [chain_tip c].

Implicit Types (c : Chain).

Definition tip_number c : u64 := block_number_of (chain_tip c).
Definition tip_transactions c : list Transaction := block_transactions (chain_tip c).
Definition tip_receipts c : list Receipt := block_receipts (chain_tip c).

Definition successful_tip_transactions c : list Transaction :=
  omap (fun '(tx, r) => if receipt_success r then Some tx else None)
    (zip (tip_transactions c) (tip_receipts c)).

(** The blocks from [start] on, and the numbers at which two chains differ, compared
    position by position. *)
Definition recent_blocks c (start : u64) : list Block :=
  filter (fun b => start <= block_number_of b) (chain_blocks c).

Definition differing (old new : list Block) : list u64 :=
  (block_number_of ∘ snd) <$> filter (fun x => block_hash_of x.1 <> block_hash_of x.2) (zip old new).

Definition reorged_range (old new : Chain) : option (u64 * u64) :=
  let start := u64_wrap (tip_number new - MAX_REORG_DEPTH) in
  let range := differing (recent_blocks old start) (recent_blocks new start) in
  match head range, last range with
  | Some first, Some last => Some (first, last)
  | _, _ => None
  end.

(** ** The task *)

Record EthDataCleanser := {
  angstrom_address : Address;
  periphery_address : Address;
  event_listeners : list Channel;
  angstrom_tokens : gmap Address Z;
  eth_block_sync : GlobalBlockSync;
  pool_store : AngstromPoolConfigStore;
  node_set : gset Address
}.

Implicit Types (e : EthDataCleanser) (open : Channel -> bool) (ev : EthEvent).

Definition with_listeners e l : EthDataCleanser :=
  {| angstrom_address := angstrom_address e; periphery_address := periphery_address e;
     event_listeners := l; angstrom_tokens := angstrom_tokens e; eth_block_sync := eth_block_sync e;
     pool_store := pool_store e; node_set := node_set e |}.
Definition with_tokens e t : EthDataCleanser :=
  {| angstrom_address := angstrom_address e; periphery_address := periphery_address e;
     event_listeners := event_listeners e; angstrom_tokens := t; eth_block_sync := eth_block_sync e;
     pool_store := pool_store e; node_set := node_set e |}.
Definition with_sync e s : EthDataCleanser :=
  {| angstrom_address := angstrom_address e; periphery_address := periphery_address e;
     event_listeners := event_listeners e; angstrom_tokens := angstrom_tokens e; eth_block_sync := s;
     pool_store := pool_store e; node_set := node_set e |}.
Definition with_store e s : EthDataCleanser :=
  {| angstrom_address := angstrom_address e; periphery_address := periphery_address e;
     event_listeners := event_listeners e; angstrom_tokens := angstrom_tokens e;
     eth_block_sync := eth_block_sync e; pool_store := s; node_set := node_set e |}.
Definition with_nodes e s : EthDataCleanser :=
  {| angstrom_address := angstrom_address e; periphery_address := periphery_address e;
     event_listeners := event_listeners e; angstrom_tokens := angstrom_tokens e;
     eth_block_sync := eth_block_sync e; pool_store := pool_store e; node_set := s |}.

(** [event_listeners.retain(|e| e.send(event.clone()).is_ok())]: [open] tells which
    receivers still exist. *)
Definition send_events open e ev : EthDataCleanser * list (Channel * EthEvent) :=
  let kept := filter (fun l => open l = true) (event_listeners e) in
  (with_listeners e kept, (fun l => (l, ev)) <$> kept).

(** [on_command] with [SubscribeEthNetworkEvents]. *)
Definition subscribe_network_events e (tx : Channel) : EthDataCleanser :=
  with_listeners e (event_listeners e ++ [tx]).

(** [*self.angstrom_tokens.entry(asset).or_default()], which inserts a zero. *)
Definition token_count e (asset : Address) : EthDataCleanser * Z :=
  let n := default 0 (angstrom_tokens e !! asset) in
  (with_tokens e (<[asset := n]> (angstrom_tokens e)), n).

Definition drop_token_if_one e (asset : Address) (n : Z) : EthDataCleanser :=
  if n =? 1 then with_tokens e (delete asset (angstrom_tokens e)) else e.

Definition add_token e (asset : Address) : EthDataCleanser :=
  with_tokens e (<[asset := default 0 (angstrom_tokens e !! asset) + 1]> (angstrom_tokens e)).

(** One log of the periphery contract. *)
Definition apply_log open e (log : Log) : EthDataCleanser * list (Channel * EthEvent) :=
  match decode_node_removed (log_data log) with
  | Some node => send_events open (with_nodes e (node_set e ∖ {[node]})) (RemovedNode node)
  | None =>
  match decode_node_added (log_data log) with
  | Some node => send_events open (with_nodes e ({[node]} ∪ node_set e)) (AddedNode node)
  | None =>
  match decode_pool_removed (log_data log) with
  | Some (asset0, asset1, fee, spacing) =>
      let e := with_store e (remove_pair (pool_store e) asset0 asset1) in
      let '(e, t0) := token_count e asset0 in
      let '(e, t1) := token_count e asset1 in
      let e := drop_token_if_one e asset0 t0 in
      let e := drop_token_if_one e asset1 t1 in
      send_events open e (RemovedPool {| currency0 := asset0; currency1 := asset1; pk_fee := fee;
        tickSpacing := spacing; pk_hooks := angstrom_address e |})
  | None =>
  match decode_pool_configured (log_data log) with
  | Some (asset0, asset1, fee, spacing) =>
      let entry := {| pool_partial_key := derive_store_key asset0 asset1; tick_spacing := spacing;
        fee_in_e6 := fee; store_index := Z.of_nat (size (pool_store e)) |} in
      let e := with_store e (new_pool (pool_store e) asset0 asset1 entry) in
      let e := add_token (add_token e asset0) asset1 in
      send_events open e (NewPool {| currency0 := asset0; currency1 := asset1; pk_fee := fee;
        tickSpacing := spacing; pk_hooks := angstrom_address e |})
  | None => (e, [])
  end end end end.

Fixpoint apply_logs open e (logs : list Log) : EthDataCleanser * list (Channel * EthEvent) :=
  match logs with
  | [] => (e, [])
  | log :: logs' =>
      let '(e, out) := apply_log open e log in
      let '(e, out') := apply_logs open e logs' in
      (e, out ++ out')
  end.

(** The logs of the successful receipts of the last block. *)
Definition tip_logs c : list Log :=
  filter (fun r => receipt_success r = true) (tip_receipts c) ≫= receipt_logs.

Definition apply_periphery_logs open e c : EthDataCleanser * list (Channel * EthEvent) :=
  apply_logs open e (filter (fun l => log_address l = periphery_address e) (tip_logs c)).

(** The bundles that landed in the last block. *)
Definition landed_bundles e c : list Bundle :=
  omap (fun tx => encoded ← decode_execute_call (tx_input tx); pade_decode_bundle encoded)
    (filter (fun tx => tx_to tx = Some (angstrom_address e)) (successful_tip_transactions c)).

Definition fetch_filled_order e c : list B256 :=
  landed_bundles e c ≫= (fun b => bundle_order_hashes b (tip_number c)).

(** [Itertools::unique], which keeps the first of equal elements. *)
Fixpoint unique (seen : list Address) (l : list Address) : list Address :=
  match l with
  | [] => []
  | x :: l' => if bool_decide (x ∈ seen) then unique seen l' else x :: unique (x :: seen) l'
  end.

Definition touched (d : LogData) : list Address :=
  match decode_transfer d with
  | Some (a, b) => [a; b]
  | None => match decode_approval d with Some (a, b) => [a; b] | None => [] end
  end.

Definition get_eoa e c : list Address :=
  unique []
    ((filter (fun l => is_Some (angstrom_tokens e !! log_address l)) (tip_logs c) ≫=
        (fun l => touched (log_data l))) ++
     (landed_bundles e c ≫= (fun b => bundle_accounts b (tip_number c)))).

(** [handle_commit]; [None] while the block sync spins. *)
Definition handle_commit open e (new : Chain) : option (EthDataCleanser * list (Channel * EthEvent)) :=
  let '(e, out1) := apply_periphery_logs open e new in
  let tip := tip_number new in
  s ← new_block (eth_block_sync e) tip;
  let e := with_sync e s in
  let filled_orders := fetch_filled_order e new in
  let eoas := get_eoa e new in
  let '(e, out2) := send_events open e (NewBlock tip) in
  let '(e, out3) := send_events open e (NewBlockTransitions tip filled_orders eoas) in
  Some (e, out1 ++ out2 ++ out3).

(** [handle_reorg]; the accounts that it collects as well are not used. *)
Definition handle_reorg open e (old new : Chain)
    : outcome (option (EthDataCleanser * list (Channel * EthEvent))) :=
  let '(e, out1) := apply_periphery_logs open e new in
  let tip := tip_number new in
  let '(first, last) := default (tip, tip) (reorged_range old new) in
  r ← reorg (eth_block_sync e) first last;
  Ret (match r with
       | None => None
       | Some s =>
           let e := with_sync e s in
           let old_filled : gset B256 := list_to_set (fetch_filled_order e old) in
           let new_filled : gset B256 := list_to_set (fetch_filled_order e new) in
           let difference := filter (fun h => h ∉ new_filled) (hs_iter old_filled) in
           let '(e, out2) := send_events open e (ReorgedOrders difference first last) in
           Some (e, out1 ++ out2)
       end).

(** [spawn] tells the listeners the nodes that exist. *)
Definition announce_nodes open e : EthDataCleanser * list (Channel * EthEvent) :=
  foldl (fun '(e, out) n => let '(e, out') := send_events open e (AddedNode n) in (e, out ++ out'))
    (e, []) (hs_iter (node_set e)).

(** ** What the modules are told *)

Lemma send_events_spec open e ev e' out : send_events open e ev = (e', out) ->
  event_listeners e' = filter (fun l => open l = true) (event_listeners e) /\
  out = (fun l => (l, ev)) <$> event_listeners e' /\ eth_block_sync e' = eth_block_sync e /\
  angstrom_address e' = angstrom_address e /\ angstrom_tokens e' = angstrom_tokens e /\
  pool_store e' = pool_store e /\ node_set e' = node_set e.
Proof. by intros [= <- <-]. Qed.

Lemma new_block_pending s block s' : new_block s block = Some s' ->
  last (pending_state s') = Some (PendingProgression block) /\
  registered_modules s' = registered_modules s.
Proof.
  unfold new_block, enqueue_block. destruct (is_transitioning _ _); [done|]. case_bool_decide; intros [= <-]; [done|].
  cbn. by rewrite last_snoc.
Qed.

(** The events that a listener gets. *)
Definition events_for (l : Channel) (out : list (Channel * EthEvent)) : list EthEvent :=
  snd <$> filter (fun x => x.1 = l) out.

Lemma events_for_app l out1 out2 : events_for l (out1 ++ out2) = events_for l out1 ++ events_for l out2.
Proof. unfold events_for. by rewrite filter_app, fmap_app. Qed.

Lemma events_for_send l (ls : list Channel) ev : NoDup ls ->
  events_for l ((fun x => (x, ev)) <$> ls) = if decide (l ∈ ls) then [ev] else [].
Proof.
  unfold events_for. induction 1 as [|x ls Hx _ IH]; [by rewrite decide_False by apply not_elem_of_nil|].
  rewrite fmap_cons, filter_cons. cbn. destruct (decide (x = l)) as [->|Hne].
  - rewrite fmap_cons, IH. rewrite decide_False by done. by rewrite decide_True by left.
  - rewrite IH. destruct (decide (l ∈ ls)).
    + by rewrite decide_True by (by right).
    + rewrite decide_False; [done|]. rewrite elem_of_cons. naive_solver.
Qed.

Definition quiet (ev : EthEvent) : bool :=
  match ev with NewBlock _ | NewBlockTransitions _ _ _ | ReorgedOrders _ _ _ => false | _ => true end.

(** Logs of the periphery contract touch neither the sync nor the address, and send
    only events on nodes and pools. *)
Lemma apply_log_frame open e log e' out : apply_log open e log = (e', out) ->
  eth_block_sync e' = eth_block_sync e /\ angstrom_address e' = angstrom_address e /\
  (NoDup (event_listeners e) -> NoDup (event_listeners e')) /\
  Forall (fun x => quiet x.2 = true) out.
Proof.
  assert (forall e0 ev e1 out1, send_events open e0 ev = (e1, out1) -> quiet ev = true ->
    eth_block_sync e0 = eth_block_sync e -> angstrom_address e0 = angstrom_address e ->
    event_listeners e0 = event_listeners e ->
    eth_block_sync e1 = eth_block_sync e /\ angstrom_address e1 = angstrom_address e /\
    (NoDup (event_listeners e) -> NoDup (event_listeners e1)) /\
    Forall (fun x => quiet x.2 = true) out1) as Hsend.
  { intros e0 ev e1 out1 (E1 & E2 & E3 & E4 & _)%send_events_spec Hq H1 H2 H3.
    rewrite E3, E4, E1, H1, H2, H3. split_and!; [done..| |].
    - intros Hnd. by apply NoDup_filter.
    - rewrite E2. apply Forall_fmap, Forall_forall. by intros x _. }
  unfold apply_log. destruct (decode_node_removed _); [intros H; by eapply Hsend|].
  destruct (decode_node_added _); [intros H; by eapply Hsend|].
  destruct (decode_pool_removed _) as [[[[a0 a1] fee] sp]|].
  { cbn [token_count]. intros H. eapply Hsend; [exact H|done|..]; unfold drop_token_if_one;
      by destruct (_ =? 1), (_ =? 1). }
  destruct (decode_pool_configured _) as [[[[a0 a1] fee] sp]|]; [intros H; by eapply Hsend|].
  intros [= <- <-]. by split_and!.
Qed.

Lemma apply_logs_frame open e logs e' out : apply_logs open e logs = (e', out) ->
  eth_block_sync e' = eth_block_sync e /\ angstrom_address e' = angstrom_address e /\
  (NoDup (event_listeners e) -> NoDup (event_listeners e')) /\
  Forall (fun x => quiet x.2 = true) out.
Proof.
  revert e out. induction logs as [|log logs IH]; intros e out H; cbn in H.
  { injection H as <- <-. by split_and!. }
  destruct (apply_log open e log) as [e1 out1] eqn:E1. destruct (apply_logs open e1 logs) as [e2 out2] eqn:E2.
  injection H as <- <-. apply apply_log_frame in E1 as (A1 & A2 & A3 & A4).
  apply IH in E2 as (B1 & B2 & B3 & B4). split_and!; [congruence..| |].
  - auto.
  - by apply Forall_app.
Qed.

(** On a new block every module that listens is told of the block after the
    changes of nodes and pools, and then of its transitions, in this order; and by
    the time it is told, the block is pending in the block sync, so that its
    sign-off is not rejected. *)
Theorem commit_announced_in_order open e new e' out l (Hc : handle_commit open e new = Some (e', out))
    (Hnd : NoDup (event_listeners e)) (Hl : l ∈ event_listeners e') :
  exists changes filled eoas,
    events_for l out = changes ++ [NewBlock (tip_number new); NewBlockTransitions (tip_number new) filled eoas] /\
    forallb quiet changes = true /\
    last (pending_state (eth_block_sync e')) = Some (PendingProgression (tip_number new)).
Proof.
  unfold handle_commit in Hc. destruct (apply_periphery_logs open e new) as [e1 out1] eqn:E1.
  destruct (new_block (eth_block_sync e1) (tip_number new)) as [s|] eqn:Es; [|done]. cbn [mbind option_bind] in Hc.
  destruct (send_events open (with_sync e1 s) (NewBlock _)) as [e2 out2] eqn:E2.
  destruct (send_events open e2 _) as [e3 out3] eqn:E3. injection Hc as <- <-.
  apply apply_logs_frame in E1 as (_ & _ & Hnd1 & Hq).
  apply send_events_spec in E2 as (L2 & O2 & S2 & _). apply send_events_spec in E3 as (L3 & O3 & S3 & _).
  assert (NoDup (event_listeners e2)) as N2 by (rewrite L2; apply NoDup_filter, Hnd1, Hnd).
  assert (NoDup (event_listeners e3)) as N3 by (rewrite L3; by apply NoDup_filter).
  assert (l ∈ event_listeners e2) as Hl2 by (rewrite L3 in Hl; by apply list_elem_of_filter in Hl as []).
  exists (events_for l out1), (fetch_filled_order (with_sync e1 s) new), (get_eoa (with_sync e1 s) new).
  split; [|split].
  - rewrite !events_for_app, O2, O3, !events_for_send, !decide_True by done. done.
  - apply forallb_forall. intros ev Hev%list_elem_of_In. unfold events_for in Hev.
    apply list_elem_of_fmap in Hev as (x & -> & [_ Hx]%list_elem_of_filter).
    by eapply Forall_forall in Hq.
  - rewrite S3, S2. cbn. by apply new_block_pending in Es as [].
Qed.

(** The orders that a block reports as filled are those of the bundles in the
    successful transactions of its last block to the contract, and a reorg gives
    back those that the old tip filled and the new tip does not. *)
Theorem reorg_returns_unfilled open e old new e' out (H : handle_reorg open e old new = Ret (Some (e', out)))
    l (Hnd : NoDup (event_listeners e)) (Hl : l ∈ event_listeners e') :
  exists orders first last, ReorgedOrders orders first last ∈ events_for l out /\
    (forall h, h ∈ orders <-> h ∈ fetch_filled_order e old /\ h ∉ fetch_filled_order e new) /\
    PendingReorg first last ∈ pending_state (eth_block_sync e').
Proof.
  unfold handle_reorg in H. destruct (apply_periphery_logs open e new) as [e1 out1] eqn:E1.
  destruct (default (tip_number new, tip_number new) (reorged_range old new)) as [first last].
  apply bind_Ret in H as (r & Hr & H). destruct r as [s|]; [|done].
  destruct (send_events open (with_sync e1 s) _) as [e2 out2] eqn:E2. injection H as <- <-.
  apply apply_logs_frame in E1 as (_ & Haddr & Hnd1 & _). apply send_events_spec in E2 as (L2 & O2 & S2 & _).
  assert (forall c, fetch_filled_order (with_sync e1 s) c = fetch_filled_order e c) as Hf.
  { intros c. unfold fetch_filled_order, landed_bundles. cbn. by rewrite Haddr. }
  eexists _, first, last. split; [|split].
  - rewrite events_for_app, elem_of_app. right. rewrite O2, events_for_send.
    + rewrite decide_True by done. left.
    + rewrite L2. by apply NoDup_filter, Hnd1.
  - intros h. rewrite !Hf, list_elem_of_filter, elem_of_hs_iter, !elem_of_list_to_set. tauto.
  - rewrite S2. cbn. unfold reorg in Hr. destruct (_ <? _); [done|].
    destruct (is_transitioning _ _); [done|]. injection Hr as <-. cbn. apply elem_of_app. right. left.
Qed.

(** ** The tables *)

(** Configuring a pool that is new keeps the indices of the store dense; the
    index of a pool that is configured again is set to the number of pools, which
    no pool of the contract has. *)
Theorem configured_pool_index open e log a0 a1 fee sp e' out (Hd : dense (pool_store e))
    (Hlog : decode_node_removed (log_data log) = None /\ decode_node_added (log_data log) = None /\
      decode_pool_removed (log_data log) = None /\
      decode_pool_configured (log_data log) = Some (a0, a1, fee, sp))
    (H : apply_log open e log = (e', out)) :
  (pool_store e !! derive_store_key a0 a1 = None -> dense (pool_store e')) /\
  (is_Some (pool_store e !! derive_store_key a0 a1) ->
    store_index <$> pool_store e' !! derive_store_key a0 a1 = Some (Z.of_nat (size (pool_store e'))) /\
    ~ dense (pool_store e')).
Proof.
  destruct Hlog as (L1 & L2 & L3 & L4). unfold apply_log in H. rewrite L1, L2, L3, L4 in H.
  apply send_events_spec in H as (_ & _ & _ & _ & _ & E & _). cbn in E. rewrite E. unfold new_pool.
  set (k := derive_store_key a0 a1). set (s := pool_store e) in *. split.
  - intros Hk. destruct Hd as [H1 H2]. split.
    + intros k' v. rewrite map_size_insert_None by done.
      intros [[<- <-]|[_ Hv]]%lookup_insert_Some; cbn; [lia|]. pose proof (H1 _ _ Hv). lia.
    + intros k1 k2 v1 v2 Hv1 Hv2 Hi.
      apply lookup_insert_Some in Hv1 as [[<- <-]|[_ Hv1]], Hv2 as [[<- <-]|[_ Hv2]]; cbn in Hi.
      * done.
      * pose proof (H1 _ _ Hv2). lia.
      * pose proof (H1 _ _ Hv1). lia.
      * by eapply H2.
  - intros Hk. rewrite lookup_insert_eq, map_size_insert. cbn.
    destruct Hk as [v Hv]. rewrite Hv. cbn. split; [done|]. intros [H1 _].
    pose proof (H1 k _ (lookup_insert_eq s k _)) as Hlt. rewrite map_size_insert, Hv in Hlt. cbn in Hlt. lia.
Qed.

(** A token stays in the table when one of several pools that use it goes: its
    count is not lowered, so that it is still there, with the same count, after the
    last of them. *)
Theorem removed_pool_keeps_count open e log a0 a1 fee sp e' out n
    (Hlog : decode_node_removed (log_data log) = None /\ decode_node_added (log_data log) = None /\
      decode_pool_removed (log_data log) = Some (a0, a1, fee, sp))
    (H : apply_log open e log = (e', out)) (Hne : a0 <> a1)
    (Hn : angstrom_tokens e !! a0 = Some n) (H1 : n <> 1) :
  angstrom_tokens e' !! a0 = Some n.
Proof.
  destruct Hlog as (L1 & L2 & L3). unfold apply_log in H. rewrite L1, L2, L3 in H.
  cbn [token_count angstrom_tokens with_tokens with_store] in H. rewrite Hn in H.
  change (default 0 (Some n)) with n in H.
  apply send_events_spec in H as (_ & _ & _ & _ & E & _). rewrite E. unfold drop_token_if_one.
  rewrite (proj2 (Z.eqb_neq n 1)) by done. destruct (_ =? 1); cbn.
  - rewrite lookup_delete_ne, lookup_insert_ne by done. by rewrite lookup_insert_eq.
  - by rewrite lookup_insert_ne, lookup_insert_eq by done.
Qed.

(** Only the last block of a segment is read: the fills, the accounts and the nodes
    and pools of the blocks before it are never reported. *)
Lemma blocks_before_tip_ignored open e before before' tip :
  handle_commit open e {| chain_before := before; chain_tip := tip |} =
  handle_commit open e {| chain_before := before'; chain_tip := tip |}.
Proof. reflexivity. Qed.

(** ** The range of a reorg *)

Definition increasing (l : list Block) : Prop := StronglySorted (fun x y => block_number_of x < block_number_of y) l.

Lemma increasing_filter P `{forall x, Decision (P x)} l : increasing l -> increasing (filter P l).
Proof.
  induction 1 as [|x l Hl IH Hx]; [constructor|]. rewrite filter_cons. destruct (decide (P x)); [|done].
  constructor; [done|]. apply Forall_forall. intros y [_ Hy]%list_elem_of_filter.
  by eapply Forall_forall in Hx.
Qed.

(** The positions that are compared end with the shorter list. *)
Lemma zip_before_last {A} (old new : list A) x t : (length old < length new)%nat ->
  x ∈ zip old new -> last new = Some t -> exists l, new = l ++ [t] /\ x.2 ∈ l.
Proof.
  intros Hlen Hx Ht. apply last_Some in Ht as [l ->]. exists l. split; [done|].
  apply list_elem_of_lookup in Hx as [j Hj]. apply lookup_zip_with_Some in Hj as (a & b & -> & Ha & Hb).
  cbn. rewrite lookup_app_l in Hb; [by eapply list_elem_of_lookup_2|].
  apply lookup_lt_Some in Ha. rewrite length_app in Hlen. cbn in Hlen. lia.
Qed.

(** When the new segment has more blocks than the old one, as after most
    reorgs, the range that is announced ends before the new tip: the modules that
    take its end as the current block stay behind the chain. *)
Theorem reorg_range_stops_short (old new : Chain) first last
    (Hinc : increasing (chain_blocks new)) (Htip : 150 <= tip_number new < 2 ^ 64)
    (Hlen : (length (recent_blocks old (tip_number new - 150)) <
             length (recent_blocks new (tip_number new - 150)))%nat)
    (H : reorged_range old new = Some (first, last)) : last < tip_number new.
Proof.
  unfold reorged_range in H.
  assert (u64_wrap (tip_number new - MAX_REORG_DEPTH) = tip_number new - 150) as Hs
    by (unfold u64_wrap, MAX_REORG_DEPTH; rewrite Z.mod_small; lia).
  rewrite Hs in H. destruct (head _); [|done]. destruct (list.last _) as [n|] eqn:El; [|done].
  injection H as -> ->. apply last_Some_elem_of in El. unfold differing in El.
  apply list_elem_of_fmap in El as (x & -> & [_ Hx]%list_elem_of_filter). cbn.
  assert (list.last (recent_blocks new (tip_number new - 150)) = Some (chain_tip new)) as Hlast.
  { unfold recent_blocks, chain_blocks. rewrite filter_app, filter_cons.
    rewrite decide_True by (unfold tip_number; lia). rewrite filter_nil. apply last_snoc. }
  destruct (zip_before_last _ _ _ _ Hlen Hx Hlast) as (l & Hl & Hin).
  assert (increasing (l ++ [chain_tip new])) as Hi by (rewrite <-Hl; by apply increasing_filter).
  clear -Hi Hin. induction l as [|y l IH]; [by apply not_elem_of_nil in Hin|].
  apply StronglySorted_inv in Hi as [Hi Hy]. apply elem_of_cons in Hin as [->|Hin]; [|by apply IH].
  eapply Forall_forall in Hy; [exact Hy|]. apply elem_of_app. right. left.
Qed.
End eth.

(** ** Examples *)

(** A log is its own decoding: a node that joins, a pool that is configured or
    removed, or something else. *)
Inductive sample_log :=
| SNode (node : Address)
| SConfigured (a0 a1 : Address)
| SRemoved (a0 a1 : Address)
| SOther.

Definition sample_chain_lib : ChainLib := {|
  LogData := sample_log;
  decode_node_removed := fun _ => None;
  decode_node_added := fun d => match d with SNode n => Some n | _ => None end;
  decode_pool_removed := fun d => match d with SRemoved a b => Some (a, b, 3000, 10) | _ => None end;
  decode_pool_configured := fun d => match d with SConfigured a b => Some (a, b, 3000, 10) | _ => None end;
  decode_transfer := fun _ => None;
  decode_approval := fun _ => None;
  Bundle := list Z;
  decode_execute_call := Some;
  pade_decode_bundle := Some;
  bundle_order_hashes := fun b _ => b;
  bundle_accounts := fun _ _ => []
|}.

Section examples.
Local Existing Instances iter_by_encoding sample_pool_hasher sample_chain_lib.

Definition sample_cleanser : EthDataCleanser :=
  {| angstrom_address := 77; periphery_address := 88; event_listeners := [1; 2]%nat;
     angstrom_tokens := <[1 := 2]> {[2 := 1]}; eth_block_sync := new_sync 10;
     pool_store := {[derive_store_key 1 2 := sample_entry 0]}; node_set := ∅ |}.

Definition sample_log_of (d : sample_log) : Log := {| log_address := 88; log_data := (d : @LogData sample_chain_lib) |}.

Definition sample_block (n hash : Z) (fills : list Z) (logs : list sample_log) : Block :=
  {| block_number_of := n; block_hash_of := hash;
     block_transactions := [{| tx_to := Some 77; tx_input := fills |}];
     block_receipts := [{| receipt_success := true;
       receipt_logs := List.map sample_log_of logs |}] |}.

Definition segment (before : list Block) (tip : Block) : Chain := {| chain_before := before; chain_tip := tip |}.

Definition everyone (l : Channel) : bool := true.

Lemma commit_announced_in_order_witness : exists e' out,
  handle_commit everyone sample_cleanser (segment [] (sample_block 11 5 [31] [SNode 9])) = Some (e', out) /\
  exists changes filled eoas,
    events_for 1%nat out = changes ++ [NewBlock 11; NewBlockTransitions 11 filled eoas].
Proof.
  destruct (handle_commit everyone sample_cleanser (segment [] (sample_block 11 5 [31] [SNode 9])))
    as [[e' out]|] eqn:E; [|vm_compute in E; discriminate].
  exists e', out. split; [reflexivity|].
  destruct (commit_announced_in_order _ _ _ _ _ 1%nat E) as (changes & filled & eoas & H & _).
  - cbn. repeat constructor; set_solver.
  - vm_compute in E. injection E as <- <-. left.
  - exists changes, filled, eoas. exact H.
Defined.

Lemma reorg_returns_unfilled_witness : exists e' out orders first last,
  handle_reorg everyone sample_cleanser (segment [] (sample_block 200 5 [31; 32] []))
    (segment [] (sample_block 200 6 [32] [])) = Ret (Some (e', out)) /\
  ReorgedOrders orders first last ∈ events_for 1%nat out.
Proof.
  destruct (handle_reorg everyone sample_cleanser (segment [] (sample_block 200 5 [31; 32] []))
    (segment [] (sample_block 200 6 [32] []))) as [[[e' out]|]|] eqn:E; [|vm_compute in E; discriminate..].
  destruct (reorg_returns_unfilled _ _ _ _ _ _ E 1%nat) as (orders & first & last & H & _).
  - cbn. repeat constructor; set_solver.
  - vm_compute in E. injection E as <- <-. left.
  - exists e', out, orders, first, last. split; [reflexivity|exact H].
Defined.

Lemma sample_cleanser_dense : dense (pool_store sample_cleanser).
Proof.
  assert (forall k v, pool_store sample_cleanser !! k = Some v ->
    derive_store_key 1 2 = k /\ sample_entry 0 = v) as Hs
    by (intros k v; cbn [pool_store sample_cleanser]; by rewrite lookup_singleton_Some).
  split.
  - intros k v [_ <-]%Hs. vm_compute. split; [discriminate|reflexivity].
  - intros k1 k2 v1 v2 [<- _]%Hs [<- _]%Hs. done.
Qed.

Lemma configured_pool_index_witness : exists e' out,
  apply_log everyone sample_cleanser (sample_log_of (SConfigured 1 2)) = (e', out) /\
  ~ dense (pool_store e').
Proof.
  destruct (apply_log everyone sample_cleanser (sample_log_of (SConfigured 1 2)))
    as [e' out] eqn:E.
  exists e', out. split; [reflexivity|].
  apply (configured_pool_index everyone sample_cleanser
    (sample_log_of (SConfigured 1 2)) 1 2 3000 10 e' out sample_cleanser_dense); [done|exact E|].
  by eexists.
Defined.

Lemma removed_pool_keeps_count_witness : exists e' out,
  apply_log everyone sample_cleanser (sample_log_of (SRemoved 1 2)) = (e', out) /\
  angstrom_tokens e' !! 1 = Some 2.
Proof.
  destruct (apply_log everyone sample_cleanser (sample_log_of (SRemoved 1 2)))
    as [e' out] eqn:E.
  exists e', out. split; [reflexivity|].
  by apply (removed_pool_keeps_count everyone sample_cleanser
    (sample_log_of (SRemoved 1 2)) 1 2 3000 10 e' out 2).
Defined.

Definition old_segment : Chain := segment [] (sample_block 200 5 [] []).
Definition new_segment : Chain := segment [sample_block 200 6 [] []] (sample_block 201 7 [] []).

Lemma reorg_range_stops_short_witness : reorged_range old_segment new_segment = Some (200, 200) /\
  200 < tip_number new_segment.
Proof.
  assert (reorged_range old_segment new_segment = Some (200, 200)) as H by (vm_compute; reflexivity).
  split; [exact H|]. apply (reorg_range_stops_short old_segment new_segment 200 200); [|cbn; lia| |exact H].
  - repeat constructor.
  - vm_compute. lia.
Defined.
End examples.
