(* ===== verification/ConsensusTypes.v ===== *)
(** * Consensus messages

    The model of [crates/types/primitives/src/consensus] and of the solutions of
    [crates/types/primitives/src/orders]: the pre-proposals, their aggregations and
    the proposals that the validators sign and exchange, and how they are
    checked. *)

From S2P Require Import Prelude Ray Orders Samples Storage.
Open Scope Z_scope.

Abbreviation BlockNumber := Z (only parsing).
Abbreviation PeerId := Z (only parsing).
Abbreviation u32 := Z (only parsing).
Abbreviation Bytes := (list Z) (only parsing).

Record Signature := {
  sig_r : U256;
  sig_s : U256;
  sig_y_parity : bool
}.

(** ** Solutions *)

Inductive OrderFillState :=
| Unfilled
| CompleteFill
| PartialFill (volume : u128)
| Killed.

Record OrderOutcome := {
  oo_id : OrderId;
  oo_outcome : OrderFillState
}.

Inductive NetAmmOrder :=
| Buy (t0 t1 : u128)
| Sell (t0 t1 : u128).

Record PoolSolution := {
  sol_id : PoolId;
  sol_ucp : Ray;
  sol_searcher : option (OrderWithStorageData TopOfBlockOrder);
  sol_amm_quantity : option NetAmmOrder;
  sol_limit : list OrderOutcome;
  sol_reward_t0 : u128;
  sol_fee : u32
}.

(** ** Messages *)

Record PreProposal := {
  pp_block_height : BlockNumber;
  pp_source : PeerId;
  pp_limit : list B256;
  pp_searcher : list B256;
  pp_signature : Signature
}.

Record PreProposalAggregation := {
  agg_block_height : BlockNumber;
  agg_source : PeerId;
  agg_pre_proposals : list PreProposal;
  agg_signature : Signature
}.

Record Proposal := {
  prop_block_height : BlockNumber;
  prop_source : PeerId;
  prop_preproposals : list PreProposalAggregation;
  prop_solutions : list PoolSolution;
  prop_signature : Signature
}.

Inductive ConsensusRoundName :=
| RBidAggregation
| RFinalization
| RPreProposalAggregation
| RPreProposal
| RProposal.

(** [ConsensusRoundName::is_closed]. *)
Definition is_closed (r : ConsensusRoundName) : bool :=
  match r with RBidAggregation => false | _ => true end.

Inductive StromConsensusEvent :=
| EPreProposal (peer : Address) (p : PreProposal)
| EPreProposalAgg (peer : Address) (a : PreProposalAggregation)
| EProposal (peer : Address) (p : Proposal)
| EBundleUnlockAttestation (peer : Address) (block : u64) (bytes : Bytes).

(** [StromConsensusEvent::sender] and [StromConsensusEvent::block_height]. *)
Definition sender (e : StromConsensusEvent) : Address :=
  match e with
  | EPreProposal peer _ | EPreProposalAgg peer _ | EProposal peer _
  | EBundleUnlockAttestation peer _ _ => peer
  end.

Definition event_block_height (e : StromConsensusEvent) : BlockNumber :=
  match e with
  | EPreProposal _ p => pp_block_height p
  | EPreProposalAgg _ a => agg_block_height a
  | EProposal _ p => prop_block_height p
  | EBundleUnlockAttestation _ block _ => block
  end.

(** ** Equality and hashing *)

#[export] Instance Signature_eq_dec : EqDecision Signature.
Proof. solve_decision. Defined.

#[export] Instance Signature_countable : Countable Signature.
Proof.
  refine (inj_countable' (fun x => (sig_r x, sig_s x, sig_y_parity x))
    (fun '(a, b, c) => Build_Signature a b c) _). by intros [].
Defined.

#[export] Instance PreProposal_eq_dec : EqDecision PreProposal.
Proof. solve_decision. Defined.

#[export] Instance PreProposal_countable : Countable PreProposal.
Proof.
  refine (inj_countable' (fun x => (pp_block_height x, pp_source x, pp_limit x, pp_searcher x,
    pp_signature x)) (fun '(a, b, c, d, e) => Build_PreProposal a b c d e) _). by intros [].
Defined.

#[export] Instance PreProposalAggregation_eq_dec : EqDecision PreProposalAggregation.
Proof. solve_decision. Defined.

#[export] Instance PreProposalAggregation_countable : Countable PreProposalAggregation.
Proof.
  refine (inj_countable' (fun x => (agg_block_height x, agg_source x, agg_pre_proposals x,
    agg_signature x)) (fun '(a, b, c, d) => Build_PreProposalAggregation a b c d) _). by intros [].
Defined.

#[export] Instance OrderFillState_eq_dec : EqDecision OrderFillState.
Proof. solve_decision. Defined.
#[export] Instance OrderOutcome_eq_dec : EqDecision OrderOutcome.
Proof. solve_decision. Defined.
#[export] Instance NetAmmOrder_eq_dec : EqDecision NetAmmOrder.
Proof. solve_decision. Defined.
#[export] Instance OrderMeta_eq_dec : EqDecision OrderMeta.
Proof. solve_decision. Defined.
#[export] Instance TopOfBlockOrder_eq_dec : EqDecision TopOfBlockOrder.
Proof. solve_decision. Defined.
#[export] Instance UserOrderPoolInfo_eq_dec : EqDecision UserOrderPoolInfo.
Proof. solve_decision. Defined.
#[export] Instance UserAccountVerificationError_eq_dec : EqDecision UserAccountVerificationError.
Proof. solve_decision. Defined.
#[export] Instance OrderWithStorageData_eq_dec `{EqDecision T} : EqDecision (OrderWithStorageData T).
Proof. solve_decision. Defined.
#[export] Instance PoolSolution_eq_dec : EqDecision PoolSolution.
Proof. solve_decision. Defined.

(** ** Signing *)

(** What the messages use of [bincode] (the encodings of a height, of hashes, of
    pre-proposals, of aggregations and of solutions), of [alloy] and of [k256]: the
    hash of bytes, the signature of a hash with a key, which may fail, the key that
    a signature of a hash was made with, and the address and the identifier of a
    key.  A signature made with a key recovers to its public key; its two numbers
    have 256 bits and an address 160. *)
Class ConsensusCrypto : Type := {
  bincode_height : u64 -> Bytes;
  bincode_hashes : list B256 -> Bytes;
  bincode_pre_proposals : list PreProposal -> Bytes;
  bincode_aggregations : list PreProposalAggregation -> Bytes;
  bincode_solutions : list PoolSolution -> Bytes;
  peer_id_bytes : PeerId -> Bytes;
  keccak256 : Bytes -> B256;
  SecretKey : Type;
  VerifyingKey : Type;
  pubkey : SecretKey -> VerifyingKey;
  public_key_to_peer_id : VerifyingKey -> PeerId;
  from_public_key : VerifyingKey -> Address;
  sign_hash_sync : SecretKey -> B256 -> option Signature;
  recover_from_prehash : Signature -> B256 -> option VerifyingKey;
  recover_signed : forall sk h s, sign_hash_sync sk h = Some s ->
    recover_from_prehash s h = Some (pubkey sk);
  sign_range : forall sk h s, sign_hash_sync sk h = Some s ->
    0 <= sig_r s < 2 ^ 256 /\ 0 <= sig_s s < 2 ^ 256;
  from_public_key_range : forall k, 0 <= from_public_key k < 2 ^ 160
}.

Section messages.
Context `{CC : ConsensusCrypto}.

(** [AngstromSigner], and [AngstromSigner::new] with a key of the local signer. *)
Record AngstromSigner := {
  signer_id : PeerId;
  signer_key : SecretKey
}.

Definition new_signer (sk : SecretKey) : AngstromSigner :=
  {| signer_id := public_key_to_peer_id (pubkey sk); signer_key := sk |}.

Definition signer_address (s : AngstromSigner) : Address := from_public_key (pubkey (signer_key s)).

Definition recover_address_from_prehash (s : Signature) (h : B256) : option Address :=
  from_public_key <$> recover_from_prehash s h.

(** [sign_payload] of the three messages: [sign_hash_sync(..).unwrap()]. *)
Definition sign_payload (sk : AngstromSigner) (payload : Bytes) : outcome Signature :=
  unwrap (sign_hash_sync (signer_key sk) (keccak256 payload)).

(** *** Pre-proposals *)

Definition pp_serialize_payload (block_height : BlockNumber) (limit searcher : list B256) : Bytes :=
  bincode_height block_height ++ bincode_hashes limit ++ bincode_hashes searcher.

Definition pp_payload (p : PreProposal) : Bytes :=
  pp_serialize_payload (pp_block_height p) (pp_limit p) (pp_searcher p).

Definition generate_pre_proposal (ethereum_height : BlockNumber) (sk : AngstromSigner)
    (limit searcher : list B256) : outcome PreProposal :=
  signature ← sign_payload sk (pp_serialize_payload ethereum_height limit searcher);
  Ret {| pp_block_height := ethereum_height; pp_source := signer_id sk; pp_limit := limit;
         pp_searcher := searcher; pp_signature := signature |}.

(** [PreProposal::new], over the hashes of the orders themselves. *)
Definition new_pre_proposal `{AL : ArithLib} `{OH : OrderHasher} (ethereum_height : BlockNumber) (sk : AngstromSigner)
    (orders : Storage.OrderSet) : outcome PreProposal :=
  generate_pre_proposal ethereum_height sk
    ((fun o => order_hash (order o)) <$> Storage.limit orders)
    ((fun o => order_hash (order o)) <$> Storage.searcher orders).

Definition pp_recover_address (p : PreProposal) : option Address :=
  recover_address_from_prehash (pp_signature p) (keccak256 (pp_payload p)).

Definition pp_is_valid (p : PreProposal) (block_height : BlockNumber) : bool :=
  match recover_from_prehash (pp_signature p) (keccak256 (pp_payload p)) with
  | None => false
  | Some source =>
      (public_key_to_peer_id source =? pp_source p) && (pp_block_height p =? block_height)
  end.

(** *** Aggregations *)

Definition agg_serialize_payload (block_height : BlockNumber) (pre_proposals : list PreProposal)
    : Bytes :=
  bincode_height block_height ++ bincode_pre_proposals pre_proposals.

Definition agg_payload (a : PreProposalAggregation) : Bytes :=
  agg_serialize_payload (agg_block_height a) (agg_pre_proposals a).

Definition new_aggregation (block_height : BlockNumber) (sk : AngstromSigner)
    (pre_proposals : list PreProposal) : outcome PreProposalAggregation :=
  signature ← sign_payload sk (agg_serialize_payload block_height pre_proposals);
  Ret {| agg_block_height := block_height; agg_source := signer_id sk;
         agg_pre_proposals := pre_proposals; agg_signature := signature |}.

Definition agg_recover_signer (a : PreProposalAggregation) : option Address :=
  recover_address_from_prehash (agg_signature a) (keccak256 (agg_payload a)).

Definition agg_is_valid (a : PreProposalAggregation) (block_height : BlockNumber)
    (two_thirds : nat) : bool :=
  if negb (forallb (fun p => pp_is_valid p block_height) (agg_pre_proposals a)) then false
  else if (length (agg_pre_proposals a) <? two_thirds)%nat then false
  else
    match recover_from_prehash (agg_signature a) (keccak256 (agg_payload a)) with
    | None => false
    | Some source => public_key_to_peer_id source =? agg_source a
    end.

Definition agg_searcher_order_hashes (a : PreProposalAggregation) : list B256 :=
  agg_pre_proposals a ≫= pp_searcher.

Definition agg_limit_order_hashes (a : PreProposalAggregation) : list B256 :=
  agg_pre_proposals a ≫= pp_limit.

(** *** Proposals *)

(** [solutions.sort_by_key(|sol| sol.id)], a stable sort; [PoolSolution]'s order,
    which [sort] uses, is the same. *)
Fixpoint insert_solution (x : PoolSolution) (l : list PoolSolution) : list PoolSolution :=
  match l with
  | [] => [x]
  | y :: l' => if sol_id x <=? sol_id y then x :: l else y :: insert_solution x l'
  end.

Definition sort_solutions (l : list PoolSolution) : list PoolSolution := foldr insert_solution [] l.

Definition prop_payload_of (block_height : BlockNumber) (source : PeerId)
    (preproposals : list PreProposalAggregation) (solutions : list PoolSolution) : Bytes :=
  bincode_height block_height ++ peer_id_bytes source ++
  bincode_aggregations preproposals ++ bincode_solutions solutions.

Definition prop_payload (p : Proposal) : Bytes :=
  prop_payload_of (prop_block_height p) (prop_source p) (prop_preproposals p) (prop_solutions p).

Definition generate_proposal (ethereum_height : BlockNumber) (sk : AngstromSigner)
    (preproposals : list PreProposalAggregation) (solutions : list PoolSolution) : outcome Proposal :=
  let solutions := sort_solutions solutions in
  sig ← sign_payload sk (prop_payload_of ethereum_height (signer_id sk) preproposals solutions);
  Ret {| prop_block_height := ethereum_height; prop_source := signer_id sk;
         prop_preproposals := preproposals; prop_solutions := solutions; prop_signature := sig |}.

Definition prop_recover_signer (p : Proposal) : option Address :=
  recover_address_from_prehash (prop_signature p) (keccak256 (prop_payload p)).

Definition prop_is_valid (p : Proposal) (ethereum_height : BlockNumber) (two_thirds : nat) : bool :=
  if negb (forallb (fun a => agg_is_valid a ethereum_height two_thirds) (prop_preproposals p)) then
    false
  else
    match recover_from_prehash (prop_signature p) (keccak256 (prop_payload p)) with
    | None => false
    | Some source => public_key_to_peer_id source =? prop_source p
    end.

(** [unique_by(|proposal| proposal.source)], which keeps the first of each source. *)
Fixpoint unique_by_source (seen : list PeerId) (l : list PreProposal) : list PreProposal :=
  match l with
  | [] => []
  | p :: l' =>
      if bool_decide (pp_source p ∈ seen) then unique_by_source seen l'
      else p :: unique_by_source (pp_source p :: seen) l'
  end.

Definition flattened_pre_proposals (p : Proposal) : list PreProposal :=
  unique_by_source [] (prop_preproposals p ≫= agg_pre_proposals).

Definition prop_searcher_order_hashes (p : Proposal) : list B256 :=
  prop_preproposals p ≫= agg_searcher_order_hashes.

Definition prop_limit_order_hashes (p : Proposal) : list B256 :=
  prop_preproposals p ≫= agg_limit_order_hashes.
End messages.

(** ** Attestations of empty blocks *)

(** What [AttestAngstromBlockEmpty] uses of [alloy]: the EIP-712 hash of the
    struct under the domain of the contract, and the bytes of an address and of a
    signature with their inverses. *)
Class AttestationCodec : Type := {
  eip712_signing_hash : u64 -> B256;
  address_bytes : Address -> Bytes;
  address_from_slice : Bytes -> Address;
  signature_bytes : Signature -> Bytes;
  signature_from_raw : Bytes -> option Signature;
  address_bytes_length a : length (address_bytes a) = 20%nat;
  address_round_trip a : 0 <= a < 2 ^ 160 -> address_from_slice (address_bytes a) = a;
  signature_bytes_length s : length (signature_bytes s) = 65%nat;
  signature_round_trip s : 0 <= sig_r s < 2 ^ 256 -> 0 <= sig_s s < 2 ^ 256 ->
    signature_from_raw (signature_bytes s) = Some s
}.

Section attestation.
Context `{CC : ConsensusCrypto} `{AC : AttestationCodec}.

Definition sign_attestation (target_block : u64) (signer : AngstromSigner) : outcome Bytes :=
  sig ← unwrap (sign_hash_sync (signer_key signer) (eip712_signing_hash target_block));
  Ret (signature_bytes sig).

Definition sign_and_encode (target_block : u64) (signer : AngstromSigner) : outcome Bytes :=
  sig ← unwrap (sign_hash_sync (signer_key signer) (eip712_signing_hash target_block));
  Ret (address_bytes (signer_address signer) ++ signature_bytes sig).

Definition is_valid_attestation (target_block : u64) (bytes : Bytes) : bool :=
  if negb (length bytes =? 85)%nat then false
  else
    let node_address := address_from_slice (take 20 bytes) in
    match signature_from_raw (drop 20 bytes) with
    | None => false
    | Some sig =>
        match recover_address_from_prehash sig (eip712_signing_hash target_block) with
        | None => false
        | Some recovered_addr => node_address =? recovered_addr
        end
    end.
End attestation.

(** ** What is signed is accepted *)

Section roundtrips.
Context `{CC : ConsensusCrypto}.

(** A signer whose identifier is that of its key, as [AngstromSigner::new] makes
    it. *)
Definition signer_ok (s : AngstromSigner) : Prop :=
  signer_id s = public_key_to_peer_id (pubkey (signer_key s)).

Lemma sign_payload_recovers sk payload s : sign_payload sk payload = Ret s ->
  recover_from_prehash s (keccak256 payload) = Some (pubkey (signer_key sk)).
Proof.
  unfold sign_payload. destruct (sign_hash_sync _ _) eqn:E; [|done]. intros [= ->].
  by apply recover_signed.
Qed.

Lemma generated_pre_proposal_valid height sk limit searcher p : signer_ok sk ->
  generate_pre_proposal height sk limit searcher = Ret p ->
  pp_is_valid p height = true /\ pp_recover_address p = Some (signer_address sk) /\
  pp_limit p = limit /\ pp_searcher p = searcher.
Proof.
  intros Hs (sig & Hsig & H)%bind_Ret. injection H as <-. apply sign_payload_recovers in Hsig.
  unfold pp_is_valid, pp_recover_address, recover_address_from_prehash, pp_payload. cbn.
  rewrite Hsig. cbn. by rewrite Hs, !Z.eqb_refl.
Qed.

Lemma new_aggregation_valid height sk pps a two_thirds : signer_ok sk ->
  new_aggregation height sk pps = Ret a ->
  (forall p, p ∈ pps -> pp_is_valid p height = true) -> (two_thirds <= length pps)%nat ->
  agg_is_valid a height two_thirds = true /\ agg_recover_signer a = Some (signer_address sk) /\
  agg_pre_proposals a = pps.
Proof.
  intros Hs (sig & Hsig & H)%bind_Ret Hv Hlen. injection H as <-. apply sign_payload_recovers in Hsig.
  unfold agg_is_valid, agg_recover_signer, recover_address_from_prehash, agg_payload.
  cbn [agg_pre_proposals agg_block_height agg_signature agg_source].
  rewrite Hsig. cbn [fmap option_fmap option_map]. rewrite Hs, Z.eqb_refl. split; [|done].
  assert (forallb (fun p => pp_is_valid p height) pps = true) as ->
    by (apply forallb_forall; intros p Hp; apply Hv; by apply list_elem_of_In).
  cbn [negb]. by rewrite (proj2 (Nat.ltb_ge _ _)).
Qed.

Lemma generated_proposal_valid height sk aggs sols p two_thirds : signer_ok sk ->
  generate_proposal height sk aggs sols = Ret p ->
  (forall a, a ∈ aggs -> agg_is_valid a height two_thirds = true) ->
  prop_is_valid p height two_thirds = true /\ prop_recover_signer p = Some (signer_address sk) /\
  prop_preproposals p = aggs /\ prop_solutions p = sort_solutions sols.
Proof.
  intros Hs (sig & Hsig & H)%bind_Ret Hv. injection H as <-. apply sign_payload_recovers in Hsig.
  unfold prop_is_valid, prop_recover_signer, recover_address_from_prehash, prop_payload. cbn.
  rewrite Hsig. cbn. rewrite Hs, Z.eqb_refl. split; [|done].
  assert (forallb (fun a => agg_is_valid a height two_thirds) aggs = true) as ->; [|done].
  apply forallb_forall. intros a Ha. apply Hv. by apply list_elem_of_In.
Qed.

Lemma attestation_valid `{AC : AttestationCodec} target_block signer bytes :
  sign_and_encode target_block signer = Ret bytes -> is_valid_attestation target_block bytes = true.
Proof.
  intros Hs. apply bind_Ret in Hs as (sig & Hsig & H). injection H as <-.
  destruct (sign_hash_sync _ _) as [s|] eqn:E; [|done]. injection Hsig as ->.
  pose proof (sign_range _ _ _ E) as [Hr1 Hr2]. unfold is_valid_attestation.
  rewrite length_app, address_bytes_length, signature_bytes_length. cbn [Nat.eqb Nat.add negb].
  rewrite take_app_length', drop_app_length' by (by rewrite address_bytes_length).
  rewrite signature_round_trip by done. unfold recover_address_from_prehash.
  rewrite (recover_signed _ _ _ E). cbn. unfold signer_address.
  rewrite address_round_trip by apply from_public_key_range. apply Z.eqb_refl.
Qed.

(** An attestation that a node signs for a block is a valid attestation of
    that block. *)
Theorem attestation_round_trip `{AC : AttestationCodec} target_block signer bytes
    (Hs : sign_and_encode target_block signer = Ret bytes) :
  is_valid_attestation target_block bytes = true.
Proof. by eapply attestation_valid. Qed.
End roundtrips.

(** ** A sample library *)

Definition sample_pp_bytes (p : PreProposal) : Bytes :=
  [pp_block_height p; pp_source p; Z.of_nat (length (pp_limit p))] ++ pp_limit p ++
  [Z.of_nat (length (pp_searcher p))] ++ pp_searcher p ++
  [sig_r (pp_signature p); sig_s (pp_signature p)].

Definition sample_agg_bytes (a : PreProposalAggregation) : Bytes :=
  [agg_block_height a; agg_source a; Z.of_nat (length (agg_pre_proposals a))] ++
  (agg_pre_proposals a ≫= sample_pp_bytes) ++ [sig_r (agg_signature a); sig_s (agg_signature a)].

(** Keys are numbers, and a signature consists of the hash and the key. *)
Definition sample_sign (sk : Z) (h : B256) : option Signature :=
  if (0 <=? sk) && (sk <? 2 ^ 256) then
    Some {| sig_r := h mod 2 ^ 256; sig_s := sk; sig_y_parity := true |}
  else None.

Definition sample_recover (s : Signature) (h : B256) : option Z :=
  if sig_r s =? h mod 2 ^ 256 then Some (sig_s s) else None.

Lemma sample_recover_sign sk h s : sample_sign sk h = Some s -> sample_recover s h = Some sk.
Proof.
  unfold sample_sign, sample_recover. destruct (_ && _); [|done]. intros [= <-]. cbn [sig_r sig_s].
  by rewrite Z.eqb_refl.
Qed.

Lemma sample_sign_range sk h s : sample_sign sk h = Some s ->
  0 <= sig_r s < 2 ^ 256 /\ 0 <= sig_s s < 2 ^ 256.
Proof.
  unfold sample_sign. destruct (Z.leb_spec 0 sk), (Z.ltb_spec sk (2 ^ 256)); try done.
  intros [= <-]. cbn [sig_r sig_s]. split; [|done]. apply Z.mod_pos_bound. lia.
Qed.

Lemma sample_address_range (k : Z) : 0 <= k mod 2 ^ 160 < 2 ^ 160.
Proof. apply Z.mod_pos_bound. lia. Qed.

Definition sample_crypto : ConsensusCrypto := {|
  bincode_height := fun h => [h];
  bincode_hashes := fun l => Z.of_nat (length l) :: l;
  bincode_pre_proposals := fun l => Z.of_nat (length l) :: (l ≫= sample_pp_bytes);
  bincode_aggregations := fun l => Z.of_nat (length l) :: (l ≫= sample_agg_bytes);
  bincode_solutions := fun l => Z.of_nat (length l) :: (sol_id <$> l);
  peer_id_bytes := fun i => [i];
  keccak256 := fun l => foldl (fun a b => (a * 31 + b) mod 2 ^ 256) 7 l;
  SecretKey := Z;
  VerifyingKey := Z;
  pubkey := id;
  public_key_to_peer_id := id;
  from_public_key := fun k => k mod 2 ^ 160;
  sign_hash_sync := sample_sign;
  recover_from_prehash := sample_recover;
  recover_signed := sample_recover_sign;
  sign_range := sample_sign_range;
  from_public_key_range := sample_address_range
|}.

Fixpoint be_bytes (n : nat) (z : Z) : Bytes :=
  match n with O => [] | S n' => be_bytes n' (z / 256) ++ [z mod 256] end.

Definition of_be_bytes (l : Bytes) : Z := foldl (fun a b => a * 256 + b) 0 l.

Lemma be_bytes_length n z : length (be_bytes n z) = n.
Proof. revert z. induction n as [|n IH]; intros z; cbn; [done|]. rewrite length_app, IH. cbn. lia. Qed.

Lemma of_be_bytes_be_bytes n z : 0 <= z < 256 ^ Z.of_nat n -> of_be_bytes (be_bytes n z) = z.
Proof.
  unfold of_be_bytes. revert z. induction n as [|n IH]; intros z Hz; cbn [be_bytes].
  - cbn in *. lia.
  - rewrite Nat2Z.inj_succ, Z.pow_succ_r in Hz by lia. rewrite foldl_app, IH; cbn [foldl].
    + pose proof (Z.div_mod z 256). lia.
    + split; [apply Z.div_pos; lia|]. apply Z.div_lt_upper_bound; lia.
Qed.

Definition sample_signature_bytes (s : Signature) : Bytes :=
  be_bytes 32 (sig_r s) ++ be_bytes 32 (sig_s s) ++ [if sig_y_parity s then 28 else 27].

Definition sample_from_raw (l : Bytes) : option Signature :=
  Some {| sig_r := of_be_bytes (take 32 l); sig_s := of_be_bytes (take 32 (drop 32 l));
          sig_y_parity := bool_decide (drop 64 l = [28]) |}.

Lemma sample_address_round_trip a : 0 <= a < 2 ^ 160 -> of_be_bytes (be_bytes 20 a) = a.
Proof. intros Ha. by apply (of_be_bytes_be_bytes 20). Qed.

Lemma sample_signature_length s : length (sample_signature_bytes s) = 65%nat.
Proof. unfold sample_signature_bytes. by rewrite !length_app, !be_bytes_length. Qed.

Lemma sample_signature_round_trip s : 0 <= sig_r s < 2 ^ 256 -> 0 <= sig_s s < 2 ^ 256 ->
  sample_from_raw (sample_signature_bytes s) = Some s.
Proof.
  destruct s as [r s v]. intros Hr Hs. unfold sample_from_raw, sample_signature_bytes.
  cbn [sig_r sig_s sig_y_parity] in *.
  rewrite (drop_app_length' _ _ 32) by (by rewrite be_bytes_length).
  rewrite !take_app_length' by (by rewrite be_bytes_length).
  rewrite (of_be_bytes_be_bytes 32 r), (of_be_bytes_be_bytes 32 s) by done.
  assert (drop 64 (be_bytes 32 r ++ be_bytes 32 s ++ [if v then 28 else 27]) = [if v then 28 else 27])
    as ->; [|by destruct v].
  rewrite app_assoc. apply drop_app_length'. by rewrite length_app, !be_bytes_length.
Qed.

Definition sample_codec : AttestationCodec := {|
  eip712_signing_hash := fun b => b;
  address_bytes := be_bytes 20;
  address_from_slice := of_be_bytes;
  signature_bytes := sample_signature_bytes;
  signature_from_raw := sample_from_raw;
  address_bytes_length := be_bytes_length 20;
  address_round_trip := sample_address_round_trip;
  signature_bytes_length := sample_signature_length;
  signature_round_trip := sample_signature_round_trip
|}.

Section examples.
Local Existing Instances sample_crypto sample_codec.

Lemma attestation_round_trip_witness : exists bytes,
  sign_and_encode 8 (new_signer (5 : @SecretKey sample_crypto)) = Ret bytes /\
  is_valid_attestation 8 bytes = true.
Proof.
  destruct (sign_and_encode 8 (new_signer (5 : @SecretKey sample_crypto))) as [bytes|] eqn:E;
    [|vm_compute in E; discriminate].
  exists bytes. split; [done|]. exact (attestation_round_trip 8 _ bytes E).
Defined.
End examples.
