(* ===== verification/Rounds.v ===== *)
(** * The rounds of consensus

    The model of [crates/consensus/src/rounds]: the state machine of one validator,
    from the collection of bids over the pre-proposals and their aggregations to
    the proposal of the leader and its verification.  Wakers and metrics have no
    effect on the state and are left out; what a poll finds ready (ticks of the
    timer, the result of the matching engine, the result of the submission) is an
    argument of the poll. *)

From S2P Require Import Prelude Ray Orders Storage StateValidation LeaderSelection SlotClock.
From S2P Require Import WaitTrigger ConsensusTypes.
Open Scope Z_scope.

Abbreviation BundleGasDetails := Z (only parsing).

(** The types that the machine passes on without looking inside: the snapshot of a
    pool and the encoded bundle. *)
Class RoundLib : Type := {
  BaselinePoolState : Type;
  AngstromBundle : Type
}.

Inductive ConsensusMessage :=
| StateChange (name : ConsensusRoundName)
| PropagatePreProposal (p : PreProposal)
| PropagatePreProposalAgg (a : PreProposalAggregation)
| PropagateProposal (p : Proposal)
| PropagateEmptyBlockAttestation (bytes : Bytes).

(** [ConsensusMessage::searcher_order_hashes], [limit_order_hashes]. *)
Definition msg_searcher_order_hashes (m : ConsensusMessage) : list B256 :=
  match m with
  | PropagatePreProposal p => pp_searcher p
  | PropagatePreProposalAgg a => agg_searcher_order_hashes a
  | PropagateProposal p => prop_searcher_order_hashes p
  | StateChange _ | PropagateEmptyBlockAttestation _ => []
  end.

Definition msg_limit_order_hashes (m : ConsensusMessage) : list B256 :=
  match m with
  | PropagatePreProposal p => pp_limit p
  | PropagatePreProposalAgg a => agg_limit_order_hashes a
  | PropagateProposal p => prop_limit_order_hashes p
  | StateChange _ | PropagateEmptyBlockAttestation _ => []
  end.

Inductive ConsensusRoundEvent :=
| EvNoop
| EvPropagatePreProposal
| EvPropagatePreProposalAgg
| EvPropagateProposal
| EvPropagateEmptyBlockAttestation.

Definition round_event (m : ConsensusMessage) : ConsensusRoundEvent :=
  match m with
  | StateChange _ => EvNoop
  | PropagatePreProposal _ => EvPropagatePreProposal
  | PropagatePreProposalAgg _ => EvPropagatePreProposalAgg
  | PropagateProposal _ => EvPropagateProposal
  | PropagateEmptyBlockAttestation _ => EvPropagateEmptyBlockAttestation
  end.

Section rounds.
Context `{AL : ArithLib} `{OH : OrderHasher} `{HI : HashIter} `{PH : PoolHasher}.
Context `{CC : ConsensusCrypto} `{AC : AttestationCodec} `{SG : Sigmoid} `{RL : RoundLib}.

(** [AngstromBundle::from_proposal]: the bundle of a proposal, if it can be
    encoded. Bundle.v models it; these theorems hold for any such function. *)
Abbreviation Snapshots := (gmap PoolId (Address * Address * BaselinePoolState * Z)) (only parsing).
Context (from_proposal : Proposal -> Storage.OrderSet -> BundleGasDetails -> Snapshots ->
  outcome (option AngstromBundle)).

(** ** The shared state *)

Record UniswapAngstromRegistry := {
  registry_pools : gmap PoolId PoolKey;
  angstrom_config_store : AngstromPoolConfigStore
}.

Definition get_ang_entry (r : UniswapAngstromRegistry) (id : PoolId) : option AngPoolConfigEntry :=
  uni_entry ← registry_pools r !! id;
  get_entry (angstrom_config_store r) (currency0 uni_entry) (currency1 uni_entry).

(** [uniswap_pools] holds for each pool what its [fetch_pool_snapshot] returns. *)
Record SharedRoundState := {
  block_height : BlockNumber;
  signer : AngstromSigner;
  round_leader : Address;
  round_validators : list AngstromValidator;
  order_storage : Storage.OrderStorage;
  pool_registry : UniswapAngstromRegistry;
  uniswap_pools : gmap PoolId (option (Address * Address * BaselinePoolState));
  messages : list ConsensusMessage;
  consensus_config : ConsensusTimingConfig
}.

Implicit Types (h : SharedRoundState).

Definition new_shared (height : BlockNumber) (storage : Storage.OrderStorage) (sk : AngstromSigner)
    (leader : Address) (vs : list AngstromValidator) (registry : UniswapAngstromRegistry)
    (pools : gmap PoolId (option (Address * Address * BaselinePoolState)))
    (config : ConsensusTimingConfig) : SharedRoundState :=
  {| block_height := height; signer := sk; round_leader := leader; round_validators := vs;
     order_storage := storage; pool_registry := registry; uniswap_pools := pools;
     messages := []; consensus_config := config |}.

Definition set_messages h l : SharedRoundState :=
  {| block_height := block_height h; signer := signer h; round_leader := round_leader h;
     round_validators := round_validators h; order_storage := order_storage h;
     pool_registry := pool_registry h; uniswap_pools := uniswap_pools h; messages := l;
     consensus_config := consensus_config h |}.

Definition set_round h (height : BlockNumber) (leader : Address) : SharedRoundState :=
  {| block_height := height; signer := signer h; round_leader := leader;
     round_validators := round_validators h; order_storage := order_storage h;
     pool_registry := pool_registry h; uniswap_pools := uniswap_pools h; messages := messages h;
     consensus_config := consensus_config h |}.

Definition propagate_message h (m : ConsensusMessage) : SharedRoundState :=
  set_messages h (messages h ++ [m]).

Definition i_am_leader h : bool := round_leader h =? signer_address (signer h).

(** [(2 * self.validators.len()).div_ceil(3)]. *)
Definition two_thirds_of_validation_set h : nat := ((2 * length (round_validators h) + 2) / 3)%nat.

Definition fetch_pool_snapshot h : Snapshots :=
  map_imap (fun key pool =>
    '(token_a, token_b, snapshot) ← pool;
    entry ← get_ang_entry (pool_registry h) key;
    Some (token_a, token_b, snapshot, store_index entry mod 2 ^ 16)) (uniswap_pools h).

(** [fold] of [*acc.entry(order).or_insert(0) += 1]. *)
Definition count_orders (input : list B256) : gmap B256 nat :=
  foldl (fun acc o => <[o := S (default 0%nat (acc !! o))]> acc) ∅ input.

Definition filter_quorum_orders h (input : list B256) : list B256 :=
  (filter (fun x => two_thirds_of_validation_set h <= x.2)%nat (hm_iter (count_orders input))).*1.

(** [OrderSet::into_book_and_searcher]. *)
Definition into_book_and_searcher (orders : Storage.OrderSet) (valid_limit valid_searcher : list B256)
    : list (OrderWithStorageData AllOrders) * list (OrderWithStorageData TopOfBlockOrder) :=
  (filter (fun o => id_hash (order_id o) ∈ valid_limit) (Storage.limit orders),
   filter (fun o => id_hash (order_id o) ∈ valid_searcher) (Storage.searcher orders)).

(** The better of two top-of-block orders of a pool. *)
Definition replaces (new current : OrderWithStorageData TopOfBlockOrder) : bool :=
  (tob_reward current <? tob_reward new) ||
  ((tob_reward new =? tob_reward current) && (id_hash (order_id new) <? id_hash (order_id current))).

Definition unique_searchers (l : list (OrderWithStorageData TopOfBlockOrder))
    : gmap PoolId (OrderWithStorageData TopOfBlockOrder) :=
  foldl (fun acc o =>
    match acc !! pool_id o with
    | None => <[pool_id o := o]> acc
    | Some current => if replaces o current then <[pool_id o := o]> acc else acc
    end) ∅ l.

(** What [matching_engine_output] hands to [solve_pools]. *)
Record EngineRequest := {
  req_limit : list (OrderWithStorageData AllOrders);
  req_searcher : list (OrderWithStorageData TopOfBlockOrder);
  req_snapshots : Snapshots
}.

Definition matching_engine_output h (aggs : gset PreProposalAggregation) : outcome EngineRequest :=
  let pre_proposals := hs_iter aggs ≫= agg_pre_proposals in
  let valid_limit := filter_quorum_orders h (pre_proposals ≫= pp_limit) in
  let valid_searcher := filter_quorum_orders h (pre_proposals ≫= pp_searcher) in
  orders ← Storage.get_all_orders_with_ingoing_cancellations (order_storage h);
  let '(limit, searcher) := into_book_and_searcher orders valid_limit valid_searcher in
  Ret {| req_limit := limit; req_searcher := hm_values (unique_searchers searcher);
         req_snapshots := fetch_pool_snapshot h |}.

(** ** Messages from the network *)

Definition valid_peers h : list Address := peer_id <$> round_validators h.

Definition handle_proposal_verification {Pro} `{Countable Pro} (into : Pro -> ConsensusMessage) h
    (proposal : Pro) (proposal_set : gset Pro) (valid : Pro -> BlockNumber -> bool)
    : SharedRoundState * gset Pro :=
  if negb (valid proposal (block_height h)) then (h, proposal_set)
  else if negb (bool_decide (proposal ∈ proposal_set)) then
    (propagate_message h (into proposal), {[proposal]} ∪ proposal_set)
  else (h, proposal_set).

Definition pre_proposal_valid h (p : PreProposal) (block : BlockNumber) : bool :=
  let valid_sig := pp_is_valid p block in
  match pp_recover_address p with
  | None => false
  | Some peer_id => valid_sig && bool_decide (peer_id ∈ valid_peers h)
  end.

Definition handle_pre_proposal h (p : PreProposal) (set : gset PreProposal)
    : SharedRoundState * gset PreProposal :=
  handle_proposal_verification PropagatePreProposal h p set (pre_proposal_valid h).

Definition aggregation_valid h (a : PreProposalAggregation) (block : BlockNumber) : bool :=
  let valid_sig := agg_is_valid a block (two_thirds_of_validation_set h) in
  match agg_recover_signer a with
  | None => false
  | Some peer_id => valid_sig && bool_decide (peer_id ∈ valid_peers h)
  end.

Definition handle_pre_proposal_aggregation h (a : PreProposalAggregation)
    (set : gset PreProposalAggregation) : SharedRoundState * gset PreProposalAggregation :=
  handle_proposal_verification PropagatePreProposalAgg h a set (aggregation_valid h).

Definition verify_proposal h (p : Proposal) : SharedRoundState * option Proposal :=
  match prop_recover_signer p with
  | None => (h, None)
  | Some signer =>
      if negb (round_leader h =? signer) then (h, None)
      else if prop_is_valid p (block_height h) (two_thirds_of_validation_set h) then
        (propagate_message h (PropagateProposal p), Some p)
      else (h, None)
  end.

(** ** The states *)

Record BidAggregationState := {
  ba_received_pre_proposals : gset PreProposal;
  ba_pre_proposals_aggregation : gset PreProposalAggregation;
  ba_proposal : option Proposal;
  ba_start_time : Instant;
  ba_transition_timeout : PreProposalWaitTrigger
}.

Record PreProposalState := {
  ps_pre_proposals : gset PreProposal;
  ps_pre_proposals_aggregation : gset PreProposalAggregation;
  ps_proposal : option Proposal;
  ps_trigger_time : Instant
}.

Record PreProposalAggregationState := {
  pa_pre_proposals_aggregation : gset PreProposalAggregation;
  pa_proposal : option Proposal;
  pa_trigger_time : Instant
}.

(** What the submission task was given. *)
Record Submission := {
  sub_bundle : option AngstromBundle;
  sub_target_block : u64
}.

Record ProposalState := {
  pr_matching_engine_future : option EngineRequest;
  pr_submission_future : option Submission;
  pr_pre_proposal_aggs : list PreProposalAggregation;
  pr_proposal : option Proposal;
  pr_last_round_info : option LastRoundInfo;
  pr_trigger_time : Instant
}.

(** The verification future compares the engine's answer to the request with the
    solutions of the proposal. *)
Record FinalizationState := {
  fi_request : EngineRequest;
  fi_solutions : list PoolSolution;
  fi_completed : bool
}.

Inductive ConsensusState :=
| BidAggregation (s : BidAggregationState)
| PreProposing (s : PreProposalState)
| Aggregating (s : PreProposalAggregationState)
| Proposing (s : ProposalState)
| Finalizing (s : FinalizationState).

Definition state_name (s : ConsensusState) : ConsensusRoundName :=
  match s with
  | BidAggregation _ => RBidAggregation
  | PreProposing _ => RPreProposal
  | Aggregating _ => RPreProposalAggregation
  | Proposing _ => RProposal
  | Finalizing _ => RFinalization
  end.

(** *** Construction *)

Definition new_bid_aggregation (timeout : PreProposalWaitTrigger) (now : Instant) : BidAggregationState :=
  {| ba_received_pre_proposals := ∅; ba_pre_proposals_aggregation := ∅; ba_proposal := None;
     ba_start_time := now; ba_transition_timeout := timeout |}.

Definition new_pre_proposal_state h (pre_proposals : gset PreProposal)
    (aggs : gset PreProposalAggregation) (trigger_time : Instant)
    : outcome (SharedRoundState * PreProposalState) :=
  orders ← Storage.get_all_orders (order_storage h);
  my_preproposal ← new_pre_proposal (block_height h) (signer h) orders;
  Ret (propagate_message h (PropagatePreProposal my_preproposal),
       {| ps_pre_proposals := {[my_preproposal]} ∪ pre_proposals;
          ps_pre_proposals_aggregation := aggs; ps_proposal := None;
          ps_trigger_time := trigger_time |}).

Definition new_aggregation_state h (pre_proposals : gset PreProposal)
    (aggs : gset PreProposalAggregation) (trigger_time : Instant)
    : outcome (SharedRoundState * PreProposalAggregationState) :=
  _ ← Storage.get_all_orders (order_storage h);
  my_aggregation ← new_aggregation (block_height h) (signer h) (hs_iter pre_proposals);
  Ret (propagate_message h (PropagatePreProposalAgg my_aggregation),
       {| pa_pre_proposals_aggregation := {[my_aggregation]} ∪ aggs; pa_proposal := None;
          pa_trigger_time := trigger_time |}).

Definition new_proposal_state h (aggs : gset PreProposalAggregation) (trigger_time : Instant)
    : outcome ProposalState :=
  _ ← Storage.get_all_orders (order_storage h);
  request ← matching_engine_output h aggs;
  Ret {| pr_matching_engine_future := Some request; pr_submission_future := None;
         pr_pre_proposal_aggs := hs_iter aggs; pr_proposal := None; pr_last_round_info := None;
         pr_trigger_time := trigger_time |}.

Definition new_finalization h (p : Proposal) : outcome FinalizationState :=
  _ ← Storage.get_all_orders (order_storage h);
  request ← matching_engine_output h (list_to_set (prop_preproposals p));
  Ret {| fi_request := request; fi_solutions := prop_solutions p; fi_completed := false |}.

(** *** Messages *)

Definition on_consensus_message h (s : ConsensusState) (m : StromConsensusEvent)
    : SharedRoundState * ConsensusState :=
  match s, m with
  | BidAggregation b, EPreProposal _ p =>
      let '(h, set) := handle_pre_proposal h p (ba_received_pre_proposals b) in
      (h, BidAggregation {| ba_received_pre_proposals := set;
            ba_pre_proposals_aggregation := ba_pre_proposals_aggregation b;
            ba_proposal := ba_proposal b; ba_start_time := ba_start_time b;
            ba_transition_timeout := ba_transition_timeout b |})
  | BidAggregation b, EPreProposalAgg _ a =>
      let '(h, set) := handle_pre_proposal_aggregation h a (ba_pre_proposals_aggregation b) in
      (h, BidAggregation {| ba_received_pre_proposals := ba_received_pre_proposals b;
            ba_pre_proposals_aggregation := set;
            ba_proposal := ba_proposal b; ba_start_time := ba_start_time b;
            ba_transition_timeout := ba_transition_timeout b |})
  | BidAggregation b, EProposal _ p =>
      match verify_proposal h p with
      | (h, Some p) =>
          (h, BidAggregation {| ba_received_pre_proposals := ba_received_pre_proposals b;
                ba_pre_proposals_aggregation := ba_pre_proposals_aggregation b;
                ba_proposal := Some p; ba_start_time := ba_start_time b;
                ba_transition_timeout := ba_transition_timeout b |})
      | (h, None) => (h, s)
      end
  | PreProposing b, EPreProposal _ p =>
      let '(h, set) := handle_pre_proposal h p (ps_pre_proposals b) in
      (h, PreProposing {| ps_pre_proposals := set;
            ps_pre_proposals_aggregation := ps_pre_proposals_aggregation b;
            ps_proposal := ps_proposal b; ps_trigger_time := ps_trigger_time b |})
  | PreProposing b, EPreProposalAgg _ a =>
      let '(h, set) := handle_pre_proposal_aggregation h a (ps_pre_proposals_aggregation b) in
      (h, PreProposing {| ps_pre_proposals := ps_pre_proposals b;
            ps_pre_proposals_aggregation := set;
            ps_proposal := ps_proposal b; ps_trigger_time := ps_trigger_time b |})
  | PreProposing b, EProposal _ p =>
      match verify_proposal h p with
      | (h, Some p) =>
          (h, PreProposing {| ps_pre_proposals := ps_pre_proposals b;
                ps_pre_proposals_aggregation := ps_pre_proposals_aggregation b;
                ps_proposal := Some p; ps_trigger_time := ps_trigger_time b |})
      | (h, None) => (h, s)
      end
  | Aggregating b, EPreProposalAgg _ a =>
      let '(h, set) := handle_pre_proposal_aggregation h a (pa_pre_proposals_aggregation b) in
      (h, Aggregating {| pa_pre_proposals_aggregation := set; pa_proposal := pa_proposal b;
            pa_trigger_time := pa_trigger_time b |})
  | Aggregating b, EProposal _ p =>
      match verify_proposal h p with
      | (h, Some p) =>
          (h, Aggregating {| pa_pre_proposals_aggregation := pa_pre_proposals_aggregation b;
                pa_proposal := Some p; pa_trigger_time := pa_trigger_time b |})
      | (h, None) => (h, s)
      end
  | _, _ => (h, s)
  end.

(** *** Polling *)

(** The result of one submission, and of the whole task: the answers of the
    endpoints, or [None] when the submission failed, with the transactions of the
    target block. *)
Record TxSubmissionResult := {
  tx_hash : option B256;
  tx_success : bool
}.

Definition submission_landed (result : option (list TxSubmissionResult)) (block_txs : list B256) : bool :=
  match result with
  | None => false
  | Some all_results =>
      let successful_tx_hashes : gset B256 :=
        list_to_set (omap tx_hash (filter (fun r => tx_success r = true) all_results)) in
      if bool_decide (successful_tx_hashes = ∅) then existsb tx_success all_results
      else existsb (fun t => bool_decide (t ∈ successful_tx_hashes)) block_txs
  end.

Abbreviation MatchingResult := (result (list PoolSolution * BundleGasDetails) string) (only parsing).

(** What one poll finds: the time, the ready ticks of the timer, the answer of the
    matching engine and that of the submission task, [Some None] when the task was
    cancelled. *)
Record PollInput := {
  in_now : Instant;
  in_ticks : list Instant;
  in_engine : option MatchingResult;
  in_submission : option (option (option (list TxSubmissionResult) * list B256))
}.

Inductive PollTransition :=
| Pending
| RoundOver
| Next (s : ConsensusState).

Definition bid_aggregation_poll h (b : BidAggregationState) (i : PollInput)
    : outcome (SharedRoundState * BidAggregationState * PollTransition) :=
  match ba_proposal b with
  | Some p =>
      f ← new_finalization h p;
      Ret (h, {| ba_received_pre_proposals := ba_received_pre_proposals b;
                 ba_pre_proposals_aggregation := ba_pre_proposals_aggregation b;
                 ba_proposal := None; ba_start_time := ba_start_time b;
                 ba_transition_timeout := ba_transition_timeout b |}, Next (Finalizing f))
  | None =>
      if poll_trigger (ba_transition_timeout b) (in_ticks i) then
        _ ← Storage.get_all_orders (order_storage h);
        '(h, s) ← new_pre_proposal_state h (ba_received_pre_proposals b)
          (ba_pre_proposals_aggregation b) (ba_start_time b);
        Ret (h, {| ba_received_pre_proposals := ∅; ba_pre_proposals_aggregation := ∅;
                   ba_proposal := None; ba_start_time := ba_start_time b;
                   ba_transition_timeout := ba_transition_timeout b |}, Next (PreProposing s))
      else Ret (h, b, Pending)
  end.

Definition pre_proposal_poll h (b : PreProposalState)
    : outcome (SharedRoundState * PreProposalState * PollTransition) :=
  match ps_proposal b with
  | Some p =>
      f ← new_finalization h p;
      Ret (h, {| ps_pre_proposals := ps_pre_proposals b;
                 ps_pre_proposals_aggregation := ps_pre_proposals_aggregation b;
                 ps_proposal := None; ps_trigger_time := ps_trigger_time b |}, Next (Finalizing f))
  | None =>
      if (two_thirds_of_validation_set h <=? size (ps_pre_proposals b))%nat then
        '(h, s) ← new_aggregation_state h (ps_pre_proposals b) (ps_pre_proposals_aggregation b)
          (ps_trigger_time b);
        Ret (h, {| ps_pre_proposals := ∅; ps_pre_proposals_aggregation := ∅; ps_proposal := None;
                   ps_trigger_time := ps_trigger_time b |}, Next (Aggregating s))
      else Ret (h, b, Pending)
  end.

Definition aggregation_poll h (b : PreProposalAggregationState)
    : outcome (SharedRoundState * PreProposalAggregationState * PollTransition) :=
  match pa_proposal b with
  | Some p =>
      f ← new_finalization h p;
      Ret (h, {| pa_pre_proposals_aggregation := pa_pre_proposals_aggregation b;
                 pa_proposal := None; pa_trigger_time := pa_trigger_time b |}, Next (Finalizing f))
  | None =>
      if (two_thirds_of_validation_set h <=? size (pa_pre_proposals_aggregation b))%nat &&
          i_am_leader h then
        s ← new_proposal_state h (pa_pre_proposals_aggregation b) (pa_trigger_time b);
        Ret (h, {| pa_pre_proposals_aggregation := ∅; pa_proposal := None;
                   pa_trigger_time := pa_trigger_time b |}, Next (Proposing s))
      else Ret (h, b, Pending)
  end.

(** [try_build_proposal]: the metrics' counts of fills are left out. *)
Definition try_build_proposal h (b : ProposalState) (now : Instant) (result : MatchingResult)
    : outcome (SharedRoundState * ProposalState * bool) :=
  let info := Some {| time_to_complete := Z.max 0 (now - pr_trigger_time b) |} in
  let target_block := u64_wrap (block_height h + 1) in
  match result with
  | Err _ =>
      Ret (h, {| pr_matching_engine_future := pr_matching_engine_future b;
                 pr_submission_future := pr_submission_future b;
                 pr_pre_proposal_aggs := pr_pre_proposal_aggs b; pr_proposal := pr_proposal b;
                 pr_last_round_info := info; pr_trigger_time := pr_trigger_time b |}, false)
  | Ok (pool_solution, gas_info) =>
      proposal ← generate_proposal (block_height h) (signer h) (pr_pre_proposal_aggs b) pool_solution;
      let snapshot := fetch_pool_snapshot h in
      all_orders ← Storage.get_all_orders (order_storage h);
      possible_bundle ← from_proposal proposal all_orders gas_info snapshot;
      attestation ← match possible_bundle with
                    | None => sign_and_encode target_block (signer h)
                    | Some _ => Ret []
                    end;
      Ret (propagate_message h (PropagateEmptyBlockAttestation attestation),
           {| pr_matching_engine_future := pr_matching_engine_future b;
              pr_submission_future :=
                Some {| sub_bundle := possible_bundle; sub_target_block := target_block |};
              pr_pre_proposal_aggs := pr_pre_proposal_aggs b; pr_proposal := Some proposal;
              pr_last_round_info := info; pr_trigger_time := pr_trigger_time b |}, true)
  end.

Definition set_engine (b : ProposalState) r : ProposalState :=
  {| pr_matching_engine_future := r; pr_submission_future := pr_submission_future b;
     pr_pre_proposal_aggs := pr_pre_proposal_aggs b; pr_proposal := pr_proposal b;
     pr_last_round_info := pr_last_round_info b; pr_trigger_time := pr_trigger_time b |}.

Definition set_submission (b : ProposalState) r : ProposalState :=
  {| pr_matching_engine_future := pr_matching_engine_future b; pr_submission_future := r;
     pr_pre_proposal_aggs := pr_pre_proposal_aggs b; pr_proposal := pr_proposal b;
     pr_last_round_info := pr_last_round_info b; pr_trigger_time := pr_trigger_time b |}.

Definition set_proposal (b : ProposalState) p : ProposalState :=
  {| pr_matching_engine_future := pr_matching_engine_future b;
     pr_submission_future := pr_submission_future b;
     pr_pre_proposal_aggs := pr_pre_proposal_aggs b; pr_proposal := p;
     pr_last_round_info := pr_last_round_info b; pr_trigger_time := pr_trigger_time b |}.

(** The part of [poll_transition] that polls the matching engine; [false] when the
    round ends because the proposal could not be built. *)
Definition poll_engine h (b : ProposalState) (i : PollInput)
    : outcome (SharedRoundState * ProposalState * bool) :=
  match pr_matching_engine_future b with
  | None => Ret (h, b, true)
  | Some _ =>
      match in_engine i with
      | Some result => try_build_proposal h (set_engine b None) (in_now i) result
      | None => Ret (h, b, true)
      end
  end.

(** The part that polls the submission. *)
Definition poll_submission h (b : ProposalState) (i : PollInput)
    : outcome (SharedRoundState * ProposalState * PollTransition) :=
  match pr_submission_future b with
  | None => Ret (h, b, Pending)
  | Some _ =>
      match in_submission i with
      | None => Ret (h, b, Pending)
      | Some task =>
          let b := set_submission b None in
          let transaction_landed :=
            match task with Some (r, txs) => submission_landed r txs | None => false end in
          if transaction_landed then
            proposal ← unwrap (pr_proposal b);
            Ret (propagate_message h (PropagateProposal proposal), set_proposal b None, RoundOver)
          else Ret (h, b, RoundOver)
      end
  end.

Definition proposal_poll h (b : ProposalState) (i : PollInput)
    : outcome (SharedRoundState * ProposalState * PollTransition) :=
  '(h, b, built) ← poll_engine h b i;
  if (built : bool) then poll_submission h b i else Ret (h, b, RoundOver).

(** The verification: both lists are sorted and compared element by element. *)
Definition verify_solutions (proposed : list PoolSolution) (output : MatchingResult) : bool :=
  match output with
  | Err _ => false
  | Ok (solution, _) =>
      forallb (fun '(p, v) => bool_decide (p = v))
        (zip (sort_solutions proposed) (sort_solutions solution))
  end.

(** The poll and the result that it logs. *)
Definition finalization_poll (b : FinalizationState) (i : PollInput)
    : FinalizationState * PollTransition * option bool :=
  if fi_completed b then (b, RoundOver, None)
  else
    match in_engine i with
    | Some output =>
        ({| fi_request := fi_request b; fi_solutions := fi_solutions b; fi_completed := true |},
         RoundOver, Some (verify_solutions (fi_solutions b) output))
    | None => (b, Pending, None)
    end.

Definition poll_transition h (s : ConsensusState) (i : PollInput)
    : outcome (SharedRoundState * ConsensusState * PollTransition) :=
  match s with
  | BidAggregation b => '(h, b, t) ← bid_aggregation_poll h b i; Ret (h, BidAggregation b, t)
  | PreProposing b => '(h, b, t) ← pre_proposal_poll h b; Ret (h, PreProposing b, t)
  | Aggregating b => '(h, b, t) ← aggregation_poll h b; Ret (h, Aggregating b, t)
  | Proposing b => '(h, b, t) ← proposal_poll h b i; Ret (h, Proposing b, t)
  | Finalizing b => let '(b, t, _) := finalization_poll b i in Ret (h, Finalizing b, t)
  end.

(** [last_round_info], which takes the information. *)
Definition last_round_info (s : ConsensusState) : option LastRoundInfo :=
  match s with Proposing b => pr_last_round_info b | _ => None end.

(** ** The machine *)

Record RoundStateMachine := {
  current_state : ConsensusState;
  consensus_wait_duration : PreProposalWaitTrigger;
  shared_state : SharedRoundState;
  slot_clock : ManualSlotClock
}.

Implicit Types (m : RoundStateMachine).

(** [wall] is the time of the system clock, [now] that of the monotonic one. *)
Definition new_machine h (clock : ManualSlotClock) (wall : option Duration) (now : Instant)
    (jitter : u64) : outcome RoundStateMachine :=
  let trigger := new_trigger (consensus_config h) now in
  elapsed ← elapsed_time clock wall;
  '(trigger, timer) ← update_for_new_round trigger None elapsed now jitter;
  Ret {| current_state := BidAggregation (new_bid_aggregation timer now);
         consensus_wait_duration := trigger; shared_state := h; slot_clock := clock |}.

Definition current_leader m : Address := round_leader (shared_state m).
Definition timing m : ConsensusTimingConfig := consensus_config (shared_state m).
Definition is_auction_closed m : bool := is_closed (state_name (current_state m)).

Definition reset_round m (new_block : u64) (new_leader : Address) (wall : option Duration)
    (now : Instant) (jitter : u64) : outcome RoundStateMachine :=
  elapsed ← elapsed_time (slot_clock m) wall;
  let info := last_round_info (current_state m) in
  let trigger :=
    if negb (bool_decide (is_Some info)) && i_am_leader (shared_state m) then
      reset_before_submission (consensus_wait_duration m)
    else consensus_wait_duration m in
  '(trigger, timer) ← update_for_new_round trigger info elapsed now jitter;
  Ret {| current_state := BidAggregation (new_bid_aggregation timer now);
         consensus_wait_duration := trigger;
         shared_state := set_round (shared_state m) new_block new_leader;
         slot_clock := slot_clock m |}.

Definition set_shared m h s : RoundStateMachine :=
  {| current_state := s; consensus_wait_duration := consensus_wait_duration m; shared_state := h;
     slot_clock := slot_clock m |}.

Definition handle_message m (event : StromConsensusEvent) : RoundStateMachine :=
  let '(h, s) := on_consensus_message (shared_state m) (current_state m) event in
  set_shared m h s.

(** [Stream::poll_next]; [None] is [Poll::Pending]. *)
Definition poll_next m (i : PollInput) : outcome (RoundStateMachine * option ConsensusMessage) :=
  match messages (shared_state m) with
  | message :: rest =>
      Ret (set_shared m (set_messages (shared_state m) rest) (current_state m), Some message)
  | [] =>
      '(h, s, t) ← poll_transition (shared_state m) (current_state m) i;
      match t with
      | Next s' => Ret (set_shared m h s', Some (StateChange (state_name s')))
      | _ => Ret (set_shared m h s, None)
      end
  end.
End rounds.
