(* ===== verification/RoundsProps.v ===== *)
(** * Correctness of the rounds

    What a validator stores and signs during a round is valid, its messages are
    accepted by the others, the states follow each other in one direction and the
    polling of a round ends.  Then what reaches the matching engine, and how the
    leader's proposal is verified. *)

From Stdlib Require Import Sorted.
From S2P Require Import Prelude Ray Orders Storage StateValidation LeaderSelection SlotClock.
From S2P Require Import WaitTrigger ConsensusTypes Rounds.
Open Scope Z_scope.

Section props.
Context `{AL : ArithLib} `{OH : OrderHasher} `{HI : HashIter} `{PH : PoolHasher}.
Context `{CC : ConsensusCrypto} `{AC : AttestationCodec} `{SG : Sigmoid} `{RL : RoundLib}.
Context (from_proposal : Proposal -> Storage.OrderSet -> Z ->
  gmap PoolId (Address * Address * BaselinePoolState * Z) -> outcome (option AngstromBundle)).

Implicit Types (h : SharedRoundState) (m : RoundStateMachine) (s : ConsensusState) (i : PollInput).

(** ** Validity of what is stored *)

(** The address belongs to a validator or to this node. *)
Definition known_signer h (a : Address) : Prop :=
  a ∈ valid_peers h \/ a = signer_address (signer h).

Definition pp_ok h (p : PreProposal) : Prop :=
  pp_is_valid p (block_height h) = true /\
  exists a, pp_recover_address p = Some a /\ known_signer h a.

Definition agg_ok h (a : PreProposalAggregation) : Prop :=
  agg_is_valid a (block_height h) (two_thirds_of_validation_set h) = true /\
  exists addr, agg_recover_signer a = Some addr /\ known_signer h addr.

Definition prop_ok h (p : Proposal) : Prop :=
  prop_is_valid p (block_height h) (two_thirds_of_validation_set h) = true /\
  prop_recover_signer p = Some (round_leader h).

Definition collected_ok h (pps : gset PreProposal) (aggs : gset PreProposalAggregation)
    (p : option Proposal) : Prop :=
  set_Forall (pp_ok h) pps /\ set_Forall (agg_ok h) aggs /\ (forall q, p = Some q -> prop_ok h q).

Definition proposing_ok h (b : ProposalState) : Prop :=
  i_am_leader h = true /\ (two_thirds_of_validation_set h <= length (pr_pre_proposal_aggs b))%nat /\
  NoDup (pr_pre_proposal_aggs b) /\ (forall a, a ∈ pr_pre_proposal_aggs b -> agg_ok h a) /\
  (is_Some (pr_submission_future b) -> is_Some (pr_proposal b)) /\
  (forall p, pr_proposal b = Some p -> prop_ok h p /\ prop_preproposals p = pr_pre_proposal_aggs b).

Definition state_ok h s : Prop :=
  match s with
  | BidAggregation b =>
      collected_ok h (ba_received_pre_proposals b) (ba_pre_proposals_aggregation b) (ba_proposal b)
  | PreProposing b =>
      collected_ok h (ps_pre_proposals b) (ps_pre_proposals_aggregation b) (ps_proposal b)
  | Aggregating b => collected_ok h ∅ (pa_pre_proposals_aggregation b) (pa_proposal b)
  | Proposing b => proposing_ok h b
  | Finalizing _ => True
  end.

(** The parts of the shared state that a round depends on. *)
Definition same_round h h' : Prop :=
  block_height h' = block_height h /\ signer h' = signer h /\ round_leader h' = round_leader h /\
  round_validators h' = round_validators h.

Lemma same_round_refl h : same_round h h.
Proof. done. Qed.

Lemma same_round_messages h l : same_round h (set_messages h l).
Proof. done. Qed.

Lemma same_round_propagate h x : same_round h (propagate_message h x).
Proof. done. Qed.

Hint Resolve same_round_refl same_round_messages same_round_propagate : core.

Lemma same_round_state h h' s : same_round h h' -> state_ok h s -> state_ok h' s.
Proof.
  intros (E1 & E2 & E3 & E4).
  assert (two_thirds_of_validation_set h' = two_thirds_of_validation_set h) as E5
    by (unfold two_thirds_of_validation_set; by rewrite E4).
  assert (forall a, known_signer h a -> known_signer h' a) as Hk
    by (intros a; unfold known_signer, valid_peers; by rewrite E2, E4).
  assert (forall p, pp_ok h p -> pp_ok h' p) as H1.
  { intros p [Hv (a & Ha & Hka)]. split; [by rewrite E1|]. eauto. }
  assert (forall p, agg_ok h p -> agg_ok h' p) as H2.
  { intros p [Hv (a & Ha & Hka)]. split; [by rewrite E1, E5|]. eauto. }
  assert (forall p, prop_ok h p -> prop_ok h' p) as H3.
  { intros p [Hv Ha]. split; [by rewrite E1, E5|]. by rewrite E3. }
  assert (forall x y z, collected_ok h x y z -> collected_ok h' x y z) as H4.
  { intros x y z (Hx & Hy & Hz). split; [|split]; [intros p Hp; by apply H1, Hx|intros p Hp; by apply H2, Hy|].
    intros q Hq. by apply H3, Hz. }
  destruct s; cbn; [by apply H4..| |done].
  intros (Ha & Hb & Hc & Hd & He & Hf). split; [|split; [by rewrite E5|split; [done|split; [|split; [done|]]]]].
  - unfold i_am_leader. by rewrite E2, E3.
  - intros a Hin. by apply H2, Hd.
  - intros p Hp. destruct (Hf p Hp). by split; [apply H3|].
Qed.

(** ** Messages from the network *)

Lemma handle_verification_spec {Pro} `{Countable Pro} into h (x : Pro) set valid h' set' :
  handle_proposal_verification into h x set valid = (h', set') ->
  same_round h h' /\ set' ⊆ {[x]} ∪ set /\ set ⊆ set' /\
  (x ∈ set' -> x ∈ set \/ valid x (block_height h) = true).
Proof.
  unfold handle_proposal_verification.
  destruct (valid x (block_height h)) eqn:E; cbn; [|intros [= <- <-]; set_solver].
  case_bool_decide; cbn; intros [= <- <-]; [set_solver|]. set_solver.
Qed.

Lemma handle_pre_proposal_ok h p set h' set' : handle_pre_proposal h p set = (h', set') ->
  set_Forall (pp_ok h) set -> same_round h h' /\ set_Forall (pp_ok h) set'.
Proof.
  intros (Hs & Hsub & _ & Hx)%handle_verification_spec Hset. split; [done|]. intros q Hq.
  pose proof (Hsub q Hq) as [->%elem_of_singleton|Hin]%elem_of_union; [|by apply Hset].
  destruct (Hx Hq) as [Hin|Hv]; [by apply Hset|]. unfold pre_proposal_valid in Hv.
  destruct (pp_recover_address p) as [a|] eqn:E; [|done]. apply andb_true_iff in Hv as [Hv Ha].
  split; [done|]. exists a. split; [done|]. left. by apply bool_decide_eq_true in Ha.
Qed.

Lemma handle_aggregation_ok h a set h' set' : handle_pre_proposal_aggregation h a set = (h', set') ->
  set_Forall (agg_ok h) set -> same_round h h' /\ set_Forall (agg_ok h) set'.
Proof.
  intros (Hs & Hsub & _ & Hx)%handle_verification_spec Hset. split; [done|]. intros q Hq.
  pose proof (Hsub q Hq) as [->%elem_of_singleton|Hin]%elem_of_union; [|by apply Hset].
  destruct (Hx Hq) as [Hin|Hv]; [by apply Hset|]. unfold aggregation_valid in Hv.
  destruct (agg_recover_signer a) as [x|] eqn:E; [|done]. apply andb_true_iff in Hv as [Hv Ha].
  split; [done|]. exists x. split; [done|]. left. by apply bool_decide_eq_true in Ha.
Qed.

Lemma verify_proposal_spec h p : (verify_proposal h p).2 = Some p /\ prop_ok h p /\
    (verify_proposal h p).1 = propagate_message h (PropagateProposal p) \/
  verify_proposal h p = (h, None) /\ ~ prop_ok h p.
Proof.
  unfold verify_proposal, prop_ok. destruct (prop_recover_signer p) as [a|] eqn:E; [|right; naive_solver].
  destruct (Z.eqb_spec (round_leader h) a) as [->|Hne]; cbn; [|right; naive_solver].
  destruct (prop_is_valid _ _ _) eqn:Ev; [left|right]; naive_solver.
Qed.

Lemma on_consensus_message_ok h s e h' s' : on_consensus_message h s e = (h', s') ->
  state_ok h s -> same_round h h' /\ state_ok h s' /\ state_name s' = state_name s.
Proof.
  destruct s as [b|b|b|b|b], e as [peer p|peer a|peer p|peer bl bytes]; cbn [on_consensus_message];
    try (intros [= <- <-] Hs; by split_and!).
  all: try (destruct (handle_pre_proposal h p _) as [h1 set] eqn:E; intros [= <- <-] (H1 & H2 & H3);
    destruct (handle_pre_proposal_ok _ _ _ _ _ E H1); by split_and!).
  all: try (destruct (handle_pre_proposal_aggregation h a _) as [h1 set] eqn:E;
    intros [= <- <-] (H1 & H2 & H3); destruct (handle_aggregation_ok _ _ _ _ _ E H2); by split_and!).
  all: destruct (verify_proposal_spec h p) as [(E2 & Hp & E1)|[E _]].
  all: try (rewrite E; intros [= <- <-] Hs; by split_and!).
  all: destruct (verify_proposal h p) as [h1 q]; cbn in E1, E2; subst h1 q; intros [= <- <-] (H1 & H2 & H3).
  all: split_and!; [done..| |done]; cbn; split_and!; [done..|]; by intros q [= <-].
Qed.

(** ** Transitions *)

Lemma own_pre_proposal_ok h p orders : signer_ok (signer h) ->
  new_pre_proposal (block_height h) (signer h) orders = Ret p -> pp_ok h p.
Proof.
  intros Hs (Hv & Ha & _)%generated_pre_proposal_valid; [|done]. split; [done|].
  exists (signer_address (signer h)). split; [done|by right].
Qed.

Lemma pp_ok_valid h p : pp_ok h p -> pp_is_valid p (block_height h) = true.
Proof. by intros []. Qed.

Lemma own_aggregation_ok h a (pps : gset PreProposal) : signer_ok (signer h) ->
  new_aggregation (block_height h) (signer h) (hs_iter pps) = Ret a ->
  set_Forall (pp_ok h) pps -> (two_thirds_of_validation_set h <= size pps)%nat -> agg_ok h a.
Proof.
  intros Hs Hn Hpps Hsize.
  destruct (new_aggregation_valid _ _ _ _ (two_thirds_of_validation_set h) Hs Hn) as (Hv & Ha & _).
  - intros p Hp%elem_of_hs_iter. by apply pp_ok_valid, Hpps.
  - by rewrite hs_iter_length.
  - split; [done|]. exists (signer_address (signer h)). split; [done|by right].
Qed.

Lemma new_pre_proposal_state_ok h pps aggs t h' b : signer_ok (signer h) ->
  new_pre_proposal_state h pps aggs t = Ret (h', b) -> collected_ok h pps aggs None ->
  same_round h h' /\ state_ok h (PreProposing b).
Proof.
  intros Hs (orders & Ho & H)%bind_Ret (H1 & H2 & H3). apply bind_Ret in H as (p & Hp & H).
  injection H as <- <-. split; [done|]. split_and!; [|done..].
  apply set_Forall_union; [|done]. apply set_Forall_singleton. by eapply own_pre_proposal_ok.
Qed.

Lemma new_aggregation_state_ok h pps aggs t h' b : signer_ok (signer h) ->
  new_aggregation_state h pps aggs t = Ret (h', b) -> collected_ok h pps aggs None ->
  (two_thirds_of_validation_set h <= size pps)%nat ->
  same_round h h' /\ state_ok h (Aggregating b).
Proof.
  intros Hs (orders & Ho & H)%bind_Ret (H1 & H2 & H3) Hsize. apply bind_Ret in H as (a & Ha & H).
  injection H as <- <-. split; [done|]. split_and!; [done| |done].
  apply set_Forall_union; [|done]. apply set_Forall_singleton. by eapply own_aggregation_ok.
Qed.

Lemma new_proposal_state_ok h aggs t b : new_proposal_state h aggs t = Ret b ->
  set_Forall (agg_ok h) aggs -> (two_thirds_of_validation_set h <= size aggs)%nat ->
  i_am_leader h = true -> state_ok h (Proposing b).
Proof.
  intros (orders & Ho & H)%bind_Ret Haggs Hsize Hl. apply bind_Ret in H as (r & Hr & H).
  injection H as <-. split_and!; cbn; [done|by rewrite hs_iter_length|apply hs_iter_NoDup| |by intros []|done].
  intros a Ha%elem_of_hs_iter. by apply Haggs.
Qed.

Lemma i_am_leader_eq h : i_am_leader h = true -> round_leader h = signer_address (signer h).
Proof. apply Z.eqb_eq. Qed.

Lemma try_build_proposal_ok h b now r h' b' built : signer_ok (signer h) ->
  try_build_proposal from_proposal h b now r = Ret (h', b', built) -> proposing_ok h b ->
  same_round h h' /\ proposing_ok h b'.
Proof.
  intros Hs H (H1 & H2 & H3 & H4 & H5 & H6). unfold try_build_proposal in H.
  destruct r as [[sols gas]|e]; [|injection H as <- <- <-; split; [done|by split_and!]].
  apply bind_Ret in H as (p & Hp & H). apply bind_Ret in H as (orders & _ & H).
  apply bind_Ret in H as (bundle & _ & H). apply bind_Ret in H as (att & _ & H). injection H as <- <- <-. split; [done|].
  destruct (generated_proposal_valid _ _ _ _ _ (two_thirds_of_validation_set h) Hs Hp)
    as (Hv & Ha & Hag & _); [intros a Hin; by apply H4|].
  split_and!; cbn; [done..|by intros _|]. intros q [= <-]. split; [|done]. split; [done|].
  by rewrite (i_am_leader_eq h H1).
Qed.

Lemma proposal_poll_ok h b i h' b' t : signer_ok (signer h) ->
  proposal_poll from_proposal h b i = Ret (h', b', t) -> proposing_ok h b ->
  same_round h h' /\ proposing_ok h b' /\ (t = Pending \/ t = RoundOver).
Proof.
  intros Hs ([[h1 b1] built] & He & H)%bind_Ret Hok.
  assert (same_round h h1 /\ proposing_ok h b1) as [Hr1 Hok1].
  { unfold poll_engine in He. destruct (pr_matching_engine_future b); [|by injection He as <- <- <-].
    destruct (in_engine i) as [r|]; [|by injection He as <- <- <-].
    by eapply try_build_proposal_ok. }
  destruct built; [|injection H as <- <- <-; by split_and!; [..|right]].
  unfold poll_submission in H. destruct (pr_submission_future b1); [|injection H as <- <- <-; by split_and!; [..|left]].
  destruct (in_submission i) as [task|]; [|injection H as <- <- <-; by split_and!; [..|left]].
  destruct Hok1 as (H1 & H2 & H3 & H4 & H5 & H6).
  destruct (match task with Some (r, txs) => submission_landed r txs | None => false end).
  - apply bind_Ret in H as (p & _ & H). injection H as <- <- <-. split_and!; [done..| |by right].
    split_and!; cbn; [done..|by intros []|done].
  - injection H as <- <- <-. split_and!; [done..| |by right]. split_and!; cbn; [done..|by intros []|done].
Qed.

Lemma poll_transition_ok h s i h' s' t : signer_ok (signer h) ->
  poll_transition from_proposal h s i = Ret (h', s', t) -> state_ok h s ->
  same_round h h' /\ state_ok h s' /\ (forall s2, t = Next s2 -> state_ok h s2).
Proof.
  intros Hs. destruct s as [b|b|b|b|b]; cbn [poll_transition].
  - intros ([[h1 b1] t1] & Hp & H)%bind_Ret (H1 & H2 & H3). injection H as <- <- <-.
    unfold bid_aggregation_poll in Hp. destruct (ba_proposal b) as [p|] eqn:Ep.
    { apply bind_Ret in Hp as (f & _ & H). injection H as <- <- <-. split_and!; [done..|].
      by intros s2 [= <-]. }
    destruct (poll_trigger _ _); [|injection Hp as <- <- <-; split_and!; [done..|by cbn; rewrite Ep|done]].
    apply bind_Ret in Hp as (? & _ & H). apply bind_Ret in H as ([h2 s2] & Hn & H). injection H as <- <- <-.
    destruct (new_pre_proposal_state_ok _ _ _ _ _ _ Hs Hn) as [Hr Hok]; [by split_and!|].
    split_and!; [done..|]. by intros s3 [= <-].
  - intros ([[h1 b1] t1] & Hp & H)%bind_Ret (H1 & H2 & H3). injection H as <- <- <-.
    unfold pre_proposal_poll in Hp. destruct (ps_proposal b) as [p|] eqn:Ep.
    { apply bind_Ret in Hp as (f & _ & H). injection H as <- <- <-. split_and!; [done..|].
      by intros s2 [= <-]. }
    destruct (Nat.leb_spec (two_thirds_of_validation_set h) (size (ps_pre_proposals b)));
      [|injection Hp as <- <- <-; split_and!; [done..|by cbn; rewrite Ep|done]].
    apply bind_Ret in Hp as ([h2 s2] & Hn & H'). injection H' as <- <- <-.
    destruct (new_aggregation_state_ok _ _ _ _ _ _ Hs Hn) as [Hr Hok]; [by split_and!|done|].
    split_and!; [done..|]. by intros s3 [= <-].
  - intros ([[h1 b1] t1] & Hp & H)%bind_Ret (H1 & H2 & H3). injection H as <- <- <-.
    unfold aggregation_poll in Hp. destruct (pa_proposal b) as [p|] eqn:Ep.
    { apply bind_Ret in Hp as (f & _ & H). injection H as <- <- <-. split_and!; [done..|].
      by intros s2 [= <-]. }
    destruct (Nat.leb_spec (two_thirds_of_validation_set h) (size (pa_pre_proposals_aggregation b)));
      cbn [andb] in Hp; [|injection Hp as <- <- <-; split_and!; [done..|by cbn; rewrite Ep|done]].
    destruct (i_am_leader h) eqn:El; [|injection Hp as <- <- <-; split_and!; [done..|by cbn; rewrite Ep|done]].
    apply bind_Ret in Hp as (s2 & Hn & H'). injection H' as <- <- <-.
    pose proof (new_proposal_state_ok _ _ _ _ Hn H2 H El). split_and!; [done..|]. by intros s3 [= <-].
  - intros ([[h1 b1] t1] & Hp & H)%bind_Ret Hok. injection H as <- <- <-.
    destruct (proposal_poll_ok _ _ _ _ _ _ Hs Hp Hok) as (Hr & Hok' & [-> | ->]); by split_and!.
  - destruct (finalization_poll b i) as [[b1 t1] r] eqn:E. intros [= <- <- <-] _. split_and!; [done..|].
    unfold finalization_poll in E. destruct (fi_completed b); [|destruct (in_engine i)]; by injection E as <- <- <-.
Qed.

Lemma poll_next_ok m i m' out : signer_ok (signer (shared_state m)) ->
  poll_next from_proposal m i = Ret (m', out) -> state_ok (shared_state m) (current_state m) ->
  same_round (shared_state m) (shared_state m') /\ state_ok (shared_state m') (current_state m').
Proof.
  intros Hs H Hok. unfold poll_next in H. destruct (messages (shared_state m)) as [|x l].
  - apply bind_Ret in H as ([[h1 s1] t] & Hp & H).
    destruct (poll_transition_ok _ _ _ _ _ _ Hs Hp Hok) as (Hr & Hok1 & Hnext).
    destruct t as [| |s2]; injection H as <- <-; cbn; split; try done; eapply same_round_state; eauto.
  - injection H as <- <-. split; [done|]. cbn. by eapply same_round_state; [|exact Hok].
Qed.

Lemma reset_round_spec m block leader wall now j m' : reset_round m block leader wall now j = Ret m' ->
  exists timer, current_state m' = BidAggregation (new_bid_aggregation timer now) /\
    shared_state m' = set_round (shared_state m) block leader /\ slot_clock m' = slot_clock m.
Proof.
  intros (e & _ & H)%bind_Ret. apply bind_Ret in H as ([t timer] & _ & H). injection H as <-.
  by exists timer.
Qed.

(** ** Reachable machines *)

(** The other components change the order storage and the pools at any time. *)
Definition set_environment m (st : Storage.OrderStorage)
    (pools : gmap PoolId (option (Address * Address * BaselinePoolState))) : RoundStateMachine :=
  let h := shared_state m in
  set_shared m {| block_height := block_height h; signer := signer h; round_leader := round_leader h;
    round_validators := round_validators h; order_storage := st; pool_registry := pool_registry h;
    uniswap_pools := pools; messages := messages h; consensus_config := consensus_config h |}
    (current_state m).

Inductive machine_step : RoundStateMachine -> RoundStateMachine -> Prop :=
| step_message m e : machine_step m (handle_message m e)
| step_poll m i m' out : poll_next from_proposal m i = Ret (m', out) -> machine_step m m'
| step_reset m block leader wall now jitter m' :
    reset_round m block leader wall now jitter = Ret m' -> machine_step m m'
| step_environment m st pools : machine_step m (set_environment m st pools).

Inductive machine_reach : RoundStateMachine -> Prop :=
| reach_new h clock wall now jitter m :
    signer_ok (signer h) -> messages h = [] -> new_machine h clock wall now jitter = Ret m ->
    machine_reach m
| reach_step m m' : machine_reach m -> machine_step m m' -> machine_reach m'.

Lemma empty_collected_ok h : collected_ok h ∅ ∅ None.
Proof. by split_and!; [apply set_Forall_empty..|]. Qed.

Lemma machine_step_ok m m' : machine_step m m' ->
  signer_ok (signer (shared_state m)) /\ state_ok (shared_state m) (current_state m) ->
  signer_ok (signer (shared_state m')) /\ state_ok (shared_state m') (current_state m').
Proof.
  intros [m1 e|m1 i m2 out Hp|m1 block leader wall now j m2 Hr|m1 st pools] [Hs Hok].
  - unfold handle_message. destruct (on_consensus_message _ _ _) as [h' s'] eqn:E. cbn.
    destruct (on_consensus_message_ok _ _ _ _ _ E Hok) as (Hr & Hok' & _).
    split; [by destruct Hr as (_ & -> & _)|]. by eapply same_round_state.
  - destruct (poll_next_ok _ _ _ _ Hs Hp Hok) as [Hr Hok']. split; [by destruct Hr as (_ & -> & _)|done].
  - apply reset_round_spec in Hr as (timer & -> & -> & _). split; [done|]. apply empty_collected_ok.
  - split; [done|]. by eapply same_round_state; [|exact Hok].
Qed.

Lemma machine_reach_ok m : machine_reach m ->
  signer_ok (signer (shared_state m)) /\ state_ok (shared_state m) (current_state m).
Proof.
  induction 1 as [h clock wall now j m Hs _ Hn|m m' _ IH Hstep].
  - apply bind_Ret in Hn as (e & _ & H). apply bind_Ret in H as ([t timer] & _ & H).
    injection H as <-. split; [done|]. apply empty_collected_ok.
  - by eapply machine_step_ok.
Qed.

(** C5. Whatever messages arrive, whatever the engine answers and however often
    the round is reset, a validator holds only pre-proposals and aggregations that
    are valid for its current block and signed by a validator or itself, and only a
    proposal of the current leader; it is in the proposal state only as the leader
    with two thirds of different valid aggregations. *)
Theorem reachable_state_valid m (Hm : machine_reach m) :
  state_ok (shared_state m) (current_state m).
Proof. by apply machine_reach_ok. Qed.

(** ** The messages of a validator are accepted by the others *)

(** Another node in the same round, which knows this node as a validator. *)
Definition peer_of h hB : Prop :=
  block_height hB = block_height h /\ round_leader hB = round_leader h /\
  round_validators hB = round_validators h /\ signer_address (signer h) ∈ valid_peers hB.

(** What the checks of the other node say of a message. *)
Definition accepted hB (x : ConsensusMessage) : Prop :=
  match x with
  | StateChange _ => True
  | PropagatePreProposal p => pre_proposal_valid hB p (block_height hB) = true
  | PropagatePreProposalAgg a => aggregation_valid hB a (block_height hB) = true
  | PropagateProposal p => (verify_proposal hB p).2 = Some p
  | PropagateEmptyBlockAttestation bytes =>
      bytes = [] \/ is_valid_attestation (u64_wrap (block_height hB + 1)) bytes = true
  end.

Lemma peer_two_thirds h hB : peer_of h hB ->
  two_thirds_of_validation_set hB = two_thirds_of_validation_set h.
Proof. intros (_ & _ & E & _). unfold two_thirds_of_validation_set. by rewrite E. Qed.

Lemma own_pre_proposal_accepted h hB p orders : signer_ok (signer h) -> peer_of h hB ->
  new_pre_proposal (block_height h) (signer h) orders = Ret p -> accepted hB (PropagatePreProposal p).
Proof.
  intros Hs (E1 & E2 & E3 & E4) (Hv & Ha & _)%generated_pre_proposal_valid; [|done]. cbn.
  unfold pre_proposal_valid. rewrite Ha, E1, Hv. by apply bool_decide_eq_true.
Qed.

Lemma own_aggregation_accepted h hB a (pps : gset PreProposal) : signer_ok (signer h) -> peer_of h hB ->
  new_aggregation (block_height h) (signer h) (hs_iter pps) = Ret a ->
  set_Forall (pp_ok h) pps -> (two_thirds_of_validation_set h <= size pps)%nat ->
  accepted hB (PropagatePreProposalAgg a).
Proof.
  intros Hs Hp Hn Hpps Hsize. pose proof (peer_two_thirds h hB Hp) as Ht. destruct Hp as (E1 & E2 & E3 & E4).
  destruct (new_aggregation_valid _ _ _ _ (two_thirds_of_validation_set h) Hs Hn) as (Hv & Ha & _).
  - intros p Hp%elem_of_hs_iter. by apply pp_ok_valid, Hpps.
  - by rewrite hs_iter_length.
  - cbn. unfold aggregation_valid. rewrite Ha, E1, Ht, Hv. by apply bool_decide_eq_true.
Qed.

Lemma prop_ok_accepted h hB p : peer_of h hB -> prop_ok h p -> accepted hB (PropagateProposal p).
Proof.
  intros Hp [Hv Ha]. pose proof (peer_two_thirds h hB Hp) as Ht. destruct Hp as (E1 & E2 & _). cbn.
  destruct (verify_proposal_spec hB p) as [[Hacc _]|[_ Hno]]; [done|]. destruct Hno. unfold prop_ok.
  by rewrite E1, E2, Ht.
Qed.

Lemma try_build_accepted h hB b now r h' b' built : peer_of h hB ->
  try_build_proposal from_proposal h b now r = Ret (h', b', built) -> messages h = [] ->
  forall x, x ∈ messages h' -> accepted hB x.
Proof.
  intros Hp H Hm. unfold try_build_proposal in H. destruct r as [[sols gas]|e].
  2: { injection H as <- <- <-. rewrite Hm. by intros x ?%not_elem_of_nil. }
  apply bind_Ret in H as (p & _ & H). apply bind_Ret in H as (orders & _ & H).
  apply bind_Ret in H as (bundle & _ & H). apply bind_Ret in H as (att & Hatt & H). injection H as <- <- <-. cbn. rewrite Hm.
  intros x ->%list_elem_of_singleton. cbn. destruct bundle; [injection Hatt as <-; by left|].
  right. destruct Hp as (-> & _). by eapply attestation_valid.
Qed.

Lemma proposal_poll_accepted h hB b i h' b' t : signer_ok (signer h) -> peer_of h hB ->
  proposal_poll from_proposal h b i = Ret (h', b', t) -> proposing_ok h b -> messages h = [] ->
  forall x, x ∈ messages h' -> accepted hB x.
Proof.
  intros Hs Hp ([[h1 b1] built] & He & H)%bind_Ret Hok Hm.
  assert (proposing_ok h b1 /\ forall x, x ∈ messages h1 -> accepted hB x) as [Hok1 Hacc].
  { unfold poll_engine in He. destruct (pr_matching_engine_future b).
    2: { injection He as <- <- <-. rewrite Hm. split; [done|]. by intros x ?%not_elem_of_nil. }
    destruct (in_engine i) as [r|].
    2: { injection He as <- <- <-. rewrite Hm. split; [done|]. by intros x ?%not_elem_of_nil. }
    split; [by eapply try_build_proposal_ok in He as []|]. by eapply try_build_accepted. }
  destruct built; [|by injection H as <- <- <-].
  unfold poll_submission in H. destruct (pr_submission_future b1); [|by injection H as <- <- <-].
  destruct (in_submission i) as [task|]; [|by injection H as <- <- <-].
  destruct (match task with Some (r, txs) => submission_landed r txs | None => false end);
    [|by injection H as <- <- <-].
  apply bind_Ret in H as (p & Hu & H). injection H as <- <- <-. cbn.
  intros x [Hx| ->%list_elem_of_singleton]%elem_of_app; [by apply Hacc|].
  apply (prop_ok_accepted h); [done|]. destruct Hok1 as (_ & _ & _ & _ & _ & H6). cbn in Hu.
  destruct (pr_proposal b1) as [q|] eqn:Eq; [|done]. injection Hu as ->. by apply H6.
Qed.

Lemma poll_transition_accepted h hB s i h' s' t : signer_ok (signer h) -> peer_of h hB ->
  poll_transition from_proposal h s i = Ret (h', s', t) -> state_ok h s -> messages h = [] ->
  forall x, x ∈ messages h' -> accepted hB x.
Proof.
  intros Hs HB H Hok Hm. assert (forall x, x ∈ messages h -> accepted hB x) as H0
    by (rewrite Hm; by intros x ?%not_elem_of_nil).
  destruct s as [b|b|b|b|b]; cbn [poll_transition] in H; [..|destruct (finalization_poll b i) as [[? ?] ?];
    by injection H as <- <- <-].
  all: apply bind_Ret in H as ([[h1 b1] t1] & Hp & H); injection H as <- <- <-.
  - unfold bid_aggregation_poll in Hp. destruct (ba_proposal b) as [p|].
    { apply bind_Ret in Hp as (f & _ & H). by injection H as <- <- <-. }
    destruct (poll_trigger _ _); [|by injection Hp as <- <- <-].
    apply bind_Ret in Hp as (os & _ & H). apply bind_Ret in H as ([h2 s2] & Hn & H). injection H as <- <- <-.
    apply bind_Ret in Hn as (orders & _ & H). apply bind_Ret in H as (p & Hp & H). injection H as <- <-.
    cbn. rewrite Hm. intros x ->%list_elem_of_singleton. by eapply own_pre_proposal_accepted.
  - unfold pre_proposal_poll in Hp. destruct (ps_proposal b) as [p|].
    { apply bind_Ret in Hp as (f & _ & H). by injection H as <- <- <-. }
    destruct (Nat.leb_spec (two_thirds_of_validation_set h) (size (ps_pre_proposals b)));
      [|by injection Hp as <- <- <-].
    apply bind_Ret in Hp as ([h2 s2] & Hn & H'). injection H' as <- <- <-.
    apply bind_Ret in Hn as (os & _ & H'). apply bind_Ret in H' as (a & Ha & H'). injection H' as <- <-.
    cbn. rewrite Hm. intros x ->%list_elem_of_singleton. destruct Hok as (Hpps & _).
    by eapply own_aggregation_accepted.
  - unfold aggregation_poll in Hp. destruct (pa_proposal b) as [p|].
    { apply bind_Ret in Hp as (f & _ & H). by injection H as <- <- <-. }
    destruct (_ && _); [|by injection Hp as <- <- <-].
    apply bind_Ret in Hp as (s2 & Hn & H'). by injection H' as <- <- <-.
  - by eapply proposal_poll_accepted.
Qed.

(** Honest validators understand each other: every message that a node queues
    in a poll (its pre-proposal, its aggregation, its proposal, its attestation)
    passes the checks of every node that is in the same round and knows the same
    validators. *)
Theorem own_messages_accepted m i m' out hB (Hm : machine_reach m)
    (Hempty : messages (shared_state m) = []) (Hp : poll_next from_proposal m i = Ret (m', out))
    (HB : peer_of (shared_state m) hB) :
  forall x, x ∈ messages (shared_state m') -> accepted hB x.
Proof.
  apply machine_reach_ok in Hm as [Hs Hok]. unfold poll_next in Hp. rewrite Hempty in Hp.
  apply bind_Ret in Hp as ([[h1 s1] t] & Hp & H).
  pose proof (poll_transition_accepted _ _ _ _ _ _ _ Hs HB Hp Hok Hempty) as Hacc.
  by destruct t; injection H as <- <-.
Qed.

(** ** A round goes forward, and its polling ends *)

Definition rank (r : ConsensusRoundName) : nat :=
  match r with
  | RBidAggregation => 0
  | RPreProposal => 1
  | RPreProposalAggregation => 2
  | RProposal => 3
  | RFinalization => 4
  end.

(** How many messages and transitions a state can still give. *)
Definition remaining s : nat :=
  match s with
  | BidAggregation _ => 7
  | PreProposing _ => 5
  | Aggregating _ => 3
  | Proposing b =>
      match pr_matching_engine_future b with Some _ => 2 | None => 0 end +
      match pr_submission_future b with Some _ => 1 | None => 0 end
  | Finalizing _ => 0
  end.

Definition potential m : nat :=
  (length (messages (shared_state m)) + remaining (current_state m))%nat.

Lemma proposal_poll_remaining h b i h' b' t : proposal_poll from_proposal h b i = Ret (h', b', t) ->
  (length (messages h') + remaining (Proposing b') <= length (messages h) + remaining (Proposing b))%nat /\
  (t = Pending \/ t = RoundOver).
Proof.
  intros ([[h1 b1] built] & He & H)%bind_Ret.
  assert (length (messages h1) + remaining (Proposing b1) <=
    length (messages h) + remaining (Proposing b))%nat as H1.
  { unfold poll_engine in He. destruct (pr_matching_engine_future b) as [r|] eqn:Er;
      [|by injection He as <- <- <-; cbn; rewrite Er; lia].
    destruct (in_engine i) as [[[sols gas]|e]|]; [| |by injection He as <- <- <-].
    - cbn in He. apply bind_Ret in He as (p & _ & He). apply bind_Ret in He as (os & _ & He).
      apply bind_Ret in He as (bd & _ & He). apply bind_Ret in He as (att & _ & He). injection He as <- <- <-. cbn. rewrite Er, length_app. cbn. lia.
    - injection He as <- <- <-. cbn. rewrite Er. destruct (pr_submission_future b); lia. }
  destruct built; [|injection H as <- <- <-; split; [done|by right]].
  unfold poll_submission in H. destruct (pr_submission_future b1) as [sub|] eqn:Es;
    [|injection H as <- <- <-; split; [done|by left]].
  destruct (in_submission i) as [task|]; [|injection H as <- <- <-; split; [done|by left]].
  cbn in H1. rewrite Es in H1.
  destruct (match task with Some (r, txs) => submission_landed r txs | None => false end).
  - apply bind_Ret in H as (p & _ & H). injection H as <- <- <-. split; [|by right]. cbn.
    rewrite length_app. cbn. lia.
  - injection H as <- <- <-. split; [|by right]. cbn. lia.
Qed.

Lemma poll_transition_remaining h s i h' s' t : poll_transition from_proposal h s i = Ret (h', s', t) ->
  match t with
  | Next s2 => (length (messages h') + remaining s2 < length (messages h) + remaining s)%nat /\
      (rank (state_name s) < rank (state_name s2))%nat
  | _ => (length (messages h') + remaining s' <= length (messages h) + remaining s)%nat /\
      state_name s' = state_name s
  end.
Proof.
  destruct s as [b|b|b|b|b]; cbn [poll_transition].
  - intros ([[h1 b1] t1] & Hp & H)%bind_Ret. injection H as <- <- <-. unfold bid_aggregation_poll in Hp.
    destruct (ba_proposal b). { apply bind_Ret in Hp as (f & _ & H). injection H as <- <- <-. cbn. lia. }
    destruct (poll_trigger _ _); [|by injection Hp as <- <- <-].
    apply bind_Ret in Hp as (os & _ & H). apply bind_Ret in H as ([h2 s2] & Hn & H). injection H as <- <- <-.
    apply bind_Ret in Hn as (orders & _ & H). apply bind_Ret in H as (p & _ & H). injection H as <- <-.
    cbn. rewrite length_app. cbn. lia.
  - intros ([[h1 b1] t1] & Hp & H)%bind_Ret. injection H as <- <- <-. unfold pre_proposal_poll in Hp.
    destruct (ps_proposal b). { apply bind_Ret in Hp as (f & _ & H). injection H as <- <- <-. cbn. lia. }
    destruct (_ <=? _)%nat; [|by injection Hp as <- <- <-].
    apply bind_Ret in Hp as ([h2 s2] & Hn & H). injection H as <- <- <-.
    apply bind_Ret in Hn as (orders & _ & H). apply bind_Ret in H as (p & _ & H). injection H as <- <-.
    cbn. rewrite length_app. cbn. lia.
  - intros ([[h1 b1] t1] & Hp & H)%bind_Ret. injection H as <- <- <-. unfold aggregation_poll in Hp.
    destruct (pa_proposal b). { apply bind_Ret in Hp as (f & _ & H). injection H as <- <- <-. cbn. lia. }
    destruct (_ && _); [|by injection Hp as <- <- <-].
    apply bind_Ret in Hp as (s2 & Hn & H). injection H as <- <- <-.
    apply bind_Ret in Hn as (orders & _ & H). apply bind_Ret in H as (r & _ & H). injection H as <-.
    cbn. lia.
  - intros ([[h1 b1] t1] & Hp & H)%bind_Ret. injection H as <- <- <-.
    by destruct (proposal_poll_remaining _ _ _ _ _ _ Hp) as [Hle [-> | ->]].
  - unfold finalization_poll. destruct (fi_completed b); [by intros [= <- <- <-]|].
    destruct (in_engine i); by intros [= <- <- <-].
Qed.

Lemma poll_next_potential m i m' out : poll_next from_proposal m i = Ret (m', out) ->
  (potential m' + match out with Some _ => 1 | None => 0 end <= potential m)%nat.
Proof.
  unfold poll_next, potential. destruct (messages (shared_state m)) as [|x l] eqn:El.
  - intros ([[h1 s1] t] & Hp & H)%bind_Ret. apply poll_transition_remaining in Hp. rewrite El in Hp.
    destruct t; injection H as <- <-; cbn in *; destruct Hp; lia.
  - intros [= <- <-]. cbn. lia.
Qed.

(** Polling again and again: the messages that the polls return. *)
Fixpoint poll_all m (inputs : list PollInput) : outcome (RoundStateMachine * list ConsensusMessage) :=
  match inputs with
  | [] => Ret (m, [])
  | i :: rest =>
      '(m, out) ← poll_next from_proposal m i;
      '(m, outs) ← poll_all m rest;
      Ret (m, match out with Some x => x :: outs | None => outs end)
  end.

(** A round is finite: however often a machine is polled and whatever the polls
    find, the messages it returns are at most those that it has queued and seven
    more, so that the loop that drains the machine ends. *)
Theorem polling_ends m inputs m' outs (H : poll_all m inputs = Ret (m', outs)) :
  (length outs <= length (messages (shared_state m)) + 7)%nat.
Proof.
  assert (length outs + potential m' <= potential m)%nat as Hle.
  { revert m outs H. induction inputs as [|i l IH]; intros m outs H; cbn in H.
    - injection H as <- <-. cbn. lia.
    - apply bind_Ret in H as ([m1 out] & Hp & H). apply bind_Ret in H as ([m2 outs'] & Hr & H).
      injection H as -> <-. apply poll_next_potential in Hp. apply IH in Hr. destruct out; cbn; lia. }
  unfold potential in Hle.
  assert (remaining (current_state m) <= 7)%nat; [|lia].
  destruct (current_state m) as [b|b|b|b|b]; cbn; try lia. destruct (pr_matching_engine_future b), (pr_submission_future b); lia.
Qed.

(** The announcements of state changes among the messages. *)
Definition announced (outs : list ConsensusMessage) : list ConsensusRoundName :=
  omap (fun x => match x with StateChange r => Some r | _ => None end) outs.

(** What happens to a machine between two resets. *)
Inductive round_action :=
| APoll (i : PollInput)
| AMessage (e : StromConsensusEvent)
| AEnvironment (st : Storage.OrderStorage)
    (pools : gmap PoolId (option (Address * Address * BaselinePoolState))).

Fixpoint run_round m (acts : list round_action) : outcome (RoundStateMachine * list ConsensusMessage) :=
  match acts with
  | [] => Ret (m, [])
  | APoll i :: rest =>
      '(m, out) ← poll_next from_proposal m i;
      '(m, outs) ← run_round m rest;
      Ret (m, match out with Some x => x :: outs | None => outs end)
  | AMessage e :: rest => run_round (handle_message m e) rest
  | AEnvironment st pools :: rest => run_round (set_environment m st pools) rest
  end.

Lemma run_round_reach acts m m' outs : machine_reach m -> run_round m acts = Ret (m', outs) -> machine_reach m'.
Proof.
  revert m outs. induction acts as [|[i|e|st pools] acts IH]; intros m outs Hm H; cbn [run_round] in H.
  - by injection H as <- <-.
  - apply bind_Ret in H as ([m1 out] & Hp & H). apply bind_Ret in H as ([m2 outs'] & Hr & H).
    injection H as -> <-. eapply IH; [|exact Hr]. eapply reach_step; [exact Hm|]. by eapply step_poll.
  - eapply IH; [|exact H]. eapply reach_step; [exact Hm|]. apply step_message.
  - eapply IH; [|exact H]. eapply reach_step; [exact Hm|]. apply step_environment.
Qed.

Definition no_announcement (l : list ConsensusMessage) : Prop := announced l = [].

Lemma announced_app l1 l2 : announced (l1 ++ l2) = announced l1 ++ announced l2.
Proof. apply omap_app. Qed.

Lemma verification_silent {Pro} `{Countable Pro} into h (x : Pro) set valid h' set' :
  announced [into x] = [] -> handle_proposal_verification into h x set valid = (h', set') ->
  announced (messages h') = announced (messages h).
Proof.
  intros Hi. unfold handle_proposal_verification. destruct (negb _); [by intros [= <- <-]|].
  destruct (negb _); intros [= <- <-]; [|done]. cbn [messages propagate_message set_messages].
  by rewrite announced_app, Hi, app_nil_r.
Qed.

Lemma on_consensus_message_silent h s e h' s' : on_consensus_message h s e = (h', s') ->
  announced (messages h') = announced (messages h) /\ state_name s' = state_name s.
Proof.
  destruct s as [b|b|b|b|b], e as [peer p|peer a|peer p|peer bl bytes]; cbn [on_consensus_message];
    try (by intros [= <- <-]).
  all: try (destruct (handle_pre_proposal h p _) as [h1 set] eqn:E; intros [= <- <-];
    split; [by eapply verification_silent in E|done]).
  all: try (destruct (handle_pre_proposal_aggregation h a _) as [h1 set] eqn:E; intros [= <- <-];
    split; [by eapply verification_silent in E|done]).
  all: destruct (verify_proposal_spec h p) as [(E2 & _ & E1)|[E _]]; [|rewrite E; by intros [= <- <-]].
  all: destruct (verify_proposal h p) as [h1 q]; cbn in E1, E2; subst h1 q; intros [= <- <-]; split; [|done].
  all: cbn [messages propagate_message set_messages]; by rewrite announced_app, app_nil_r.
Qed.

Lemma proposal_poll_silent h b i h' b' t : proposal_poll from_proposal h b i = Ret (h', b', t) ->
  announced (messages h') = announced (messages h).
Proof.
  intros ([[h1 b1] built] & He & H)%bind_Ret.
  assert (announced (messages h1) = announced (messages h)) as <-.
  { unfold poll_engine in He. destruct (pr_matching_engine_future b) as [r|]; [|by injection He as <- <- <-].
    destruct (in_engine i) as [[[sols gas]|e]|]; [| |by injection He as <- <- <-].
    - cbn in He. apply bind_Ret in He as (p & _ & He). apply bind_Ret in He as (os & _ & He).
      apply bind_Ret in He as (bd & _ & He). apply bind_Ret in He as (att & _ & He). injection He as <- <- <-.
      cbn [messages propagate_message set_messages]. by rewrite announced_app, app_nil_r.
    - by injection He as <- <- <-. }
  destruct built; [|by injection H as <- <- <-].
  unfold poll_submission in H. destruct (pr_submission_future b1); [|by injection H as <- <- <-].
  destruct (in_submission i) as [task|]; [|by injection H as <- <- <-].
  destruct (match task with Some (r, txs) => submission_landed r txs | None => false end).
  - apply bind_Ret in H as (p & _ & H). injection H as <- <- <-.
    cbn [messages propagate_message set_messages]. by rewrite announced_app, app_nil_r.
  - by injection H as <- <- <-.
Qed.

Lemma poll_transition_silent h s i h' s' t : poll_transition from_proposal h s i = Ret (h', s', t) ->
  announced (messages h') = announced (messages h).
Proof.
  destruct s as [b|b|b|b|b]; cbn [poll_transition];
    [..|destruct (finalization_poll b i) as [[? ?] ?]; by intros [= <- <- <-]].
  all: intros ([[h1 b1] t1] & Hp & H)%bind_Ret; injection H as <- <- <-.
  - unfold bid_aggregation_poll in Hp.
    destruct (ba_proposal b). { apply bind_Ret in Hp as (f & _ & H). by injection H as <- <- <-. }
    destruct (poll_trigger _ _); [|by injection Hp as <- <- <-].
    apply bind_Ret in Hp as (os & _ & H). apply bind_Ret in H as ([h2 s2] & Hn & H). injection H as <- <- <-.
    apply bind_Ret in Hn as (orders & _ & H). apply bind_Ret in H as (p & _ & H). injection H as <- <-.
    cbn [messages propagate_message set_messages]. by rewrite announced_app, app_nil_r.
  - unfold pre_proposal_poll in Hp.
    destruct (ps_proposal b). { apply bind_Ret in Hp as (f & _ & H). by injection H as <- <- <-. }
    destruct (_ <=? _)%nat; [|by injection Hp as <- <- <-].
    apply bind_Ret in Hp as ([h2 s2] & Hn & H). injection H as <- <- <-.
    apply bind_Ret in Hn as (orders & _ & H). apply bind_Ret in H as (p & _ & H). injection H as <- <-.
    cbn [messages propagate_message set_messages]. by rewrite announced_app, app_nil_r.
  - unfold aggregation_poll in Hp.
    destruct (pa_proposal b). { apply bind_Ret in Hp as (f & _ & H). by injection H as <- <- <-. }
    destruct (_ && _); [|by injection Hp as <- <- <-].
    apply bind_Ret in Hp as (s2 & Hn & H). by injection H as <- <- <-.
  - by eapply proposal_poll_silent.
Qed.

(** Between two resets the round only goes forward: the states that a machine
    announces come in the order of the protocol, each at most once, after the state
    it was in. *)
Theorem rounds_go_forward m acts m' outs (Hq : no_announcement (messages (shared_state m)))
    (H : run_round m acts = Ret (m', outs)) :
  StronglySorted lt (rank <$> (state_name (current_state m) :: announced outs)).
Proof.
  revert m outs Hq H. induction acts as [|[i|e|st pools] acts IH]; intros m outs Hq H; cbn [run_round] in H.
  - injection H as <- <-. repeat constructor.
  - apply bind_Ret in H as ([m1 out] & Hp & H). apply bind_Ret in H as ([m2 outs'] & Hr & H).
    injection H as -> <-. unfold poll_next in Hp.
    destruct (messages (shared_state m)) as [|x l] eqn:El.
    + apply bind_Ret in Hp as ([[h1 s1] t] & Hp & H). pose proof (poll_transition_silent _ _ _ _ _ _ Hp) as Hs.
      rewrite El in Hs. apply poll_transition_remaining in Hp. destruct t as [| |s2].
      * injection H as <- <-. apply IH in Hr; [|done]. cbn in Hr. by destruct Hp as [_ <-].
      * injection H as <- <-. apply IH in Hr; [|done]. cbn in Hr. by destruct Hp as [_ <-].
      * injection H as <- <-. apply IH in Hr; [|done]. cbn in Hr. destruct Hp as [_ Hlt]. cbn.
        constructor; [done|]. apply StronglySorted_inv in Hr as [_ Hall]. constructor; [done|].
        eapply Forall_impl; [exact Hall|]. cbn. lia.
    + injection Hp as <- <-. unfold no_announcement in Hq. cbn in Hq.
      apply IH in Hr; [cbn in Hr|]; destruct x; done.
  - unfold handle_message in H. destruct (on_consensus_message _ _ _) as [h1 s1] eqn:E.
    apply on_consensus_message_silent in E as [E1 <-]. apply IH in H; [done|].
    unfold no_announcement. cbn. by rewrite E1.
  - by apply IH in H.
Qed.
End props.
