(* ===== verification/RoundsEngine.v ===== *)
(** * What reaches the matching engine

    The orders of a round: which orders have a quorum, which top-of-block order
    of a pool is passed on, and how the answer of the engine is compared with the
    leader's proposal.  Then the runs in which the checks are weaker than they
    read. *)

From Stdlib Require Import Sorted.
From S2P Require Import Prelude Ray Orders Samples Storage StateValidation LeaderSelection.
From S2P Require Import SlotClock WaitTrigger ConsensusTypes Rounds RoundsProps.
Open Scope Z_scope.

(** ** Counting *)

(** How often a hash occurs. *)
Definition votes (x : B256) (l : list B256) : nat := count_occ Z.eq_dec l x.

Lemma votes_app x l1 l2 : votes x (l1 ++ l2) = (votes x l1 + votes x l2)%nat.
Proof. apply count_occ_app. Qed.

Lemma votes_pos x l : (0 < votes x l)%nat <-> x ∈ l.
Proof. rewrite list_elem_of_In. unfold votes. rewrite (count_occ_In Z.eq_dec). split; lia. Qed.

Lemma count_orders_snoc l x : count_orders (l ++ [x]) =
  <[x := S (default 0%nat (count_orders l !! x))]> (count_orders l).
Proof. unfold count_orders. by rewrite foldl_app. Qed.

Lemma count_orders_spec l x : default 0%nat (count_orders l !! x) = votes x l /\
  (is_Some (count_orders l !! x) <-> x ∈ l).
Proof.
  induction l as [|y l [IH1 IH2]] using rev_ind.
  - split; [done|]. unfold count_orders. cbn. rewrite lookup_empty.
    split; [by intros []|by intros ?%not_elem_of_nil].
  - rewrite count_orders_snoc, votes_app, elem_of_app, list_elem_of_singleton.
    destruct (decide (x = y)) as [->|Hne].
    + rewrite lookup_insert_eq. cbn. rewrite IH1. unfold votes at 3. cbn.
      destruct (Z.eq_dec y y); [|done]. split; [lia|]. split; [by right|by eexists].
    + rewrite lookup_insert_ne by done. rewrite IH1. unfold votes at 3. cbn.
      destruct (Z.eq_dec y x); [congruence|]. split; [lia|]. rewrite IH2. naive_solver.
Qed.

Section engine.
Context `{AL : ArithLib} `{OH : OrderHasher} `{HI : HashIter} `{PH : PoolHasher}.
Context `{CC : ConsensusCrypto} `{AC : AttestationCodec} `{SG : Sigmoid} `{RL : RoundLib}.
Context (from_proposal : Proposal -> Storage.OrderSet -> Z ->
  gmap PoolId (Address * Address * BaselinePoolState * Z) -> outcome (option AngstromBundle)).

Implicit Types (h : SharedRoundState) (m : RoundStateMachine) (s : ConsensusState) (i : PollInput).
Implicit Types (o : OrderWithStorageData TopOfBlockOrder).

Lemma elem_of_filter_quorum h l x : x ∈ filter_quorum_orders h l <->
  x ∈ l /\ (two_thirds_of_validation_set h <= votes x l)%nat.
Proof.
  unfold filter_quorum_orders. rewrite list_elem_of_fmap. destruct (count_orders_spec l x) as [Hv Hin].
  split.
  - intros ([y n] & -> & [Hle Hy%elem_of_hm_iter]%list_elem_of_filter). cbn in *.
    rewrite Hy in Hv, Hin. cbn in Hv. split; [apply Hin; by eexists|]. by rewrite <-Hv.
  - intros [[n Hn]%Hin Hle]. exists (x, n). split; [done|]. apply list_elem_of_filter. cbn.
    rewrite Hn in Hv. cbn in Hv. split; [by rewrite Hv|]. by apply elem_of_hm_iter.
Qed.

(** ** One top-of-block order per pool *)

(** [o'] is strictly better than [o]. *)
Definition better_searcher o' o : Prop :=
  tob_reward o < tob_reward o' \/
  tob_reward o' = tob_reward o /\ id_hash (order_id o') < id_hash (order_id o).

Lemma replaces_better o' o : replaces o' o = true <-> better_searcher o' o.
Proof.
  unfold replaces, better_searcher. rewrite orb_true_iff, andb_true_iff, !Z.ltb_lt, Z.eqb_eq. done.
Qed.

Lemma unique_searchers_snoc l o : unique_searchers (l ++ [o]) =
  match unique_searchers l !! pool_id o with
  | None => <[pool_id o := o]> (unique_searchers l)
  | Some current =>
      if replaces o current then <[pool_id o := o]> (unique_searchers l) else unique_searchers l
  end.
Proof. unfold unique_searchers. by rewrite foldl_app. Qed.

(** The map holds for each pool of the list an order that no other of the pool
    beats. *)
Lemma unique_searchers_spec l pool :
  match unique_searchers l !! pool with
  | None => forall o, o ∈ l -> pool_id o <> pool
  | Some b => b ∈ l /\ pool_id b = pool /\ forall o, o ∈ l -> pool_id o = pool -> ~ better_searcher o b
  end.
Proof.
  induction l as [|o l IH] using rev_ind.
  { unfold unique_searchers. cbn. rewrite lookup_empty. by intros o ?%not_elem_of_nil. }
  rewrite unique_searchers_snoc.
  assert (forall x, x ∈ l ++ [o] <-> x ∈ l \/ x = o) as Hin
    by (intros x; by rewrite elem_of_app, list_elem_of_singleton).
  destruct (decide (pool_id o = pool)) as [Hp|Hp].
  - subst pool. destruct (unique_searchers l !! pool_id o) as [b|] eqn:Eb.
    + destruct IH as (Hb & Hpb & Hbest). destruct (replaces o b) eqn:Er.
      * rewrite lookup_insert_eq. apply replaces_better in Er. split; [apply Hin; by right|]. split; [done|].
        intros o' [Ho'| ->]%Hin Hp' Hbad; [|unfold better_searcher in Hbad; lia].
        apply (Hbest o' Ho' Hp'). unfold better_searcher in *. lia.
      * rewrite Eb. split; [apply Hin; by left|]. split; [done|].
        intros o' [Ho'| ->]%Hin Hp'; [by apply Hbest|]. rewrite <-replaces_better. by rewrite Er.
    + rewrite lookup_insert_eq. split; [apply Hin; by right|]. split; [done|].
      intros o' [Ho'| ->]%Hin Hp'; [by destruct (IH o' Ho')|]. unfold better_searcher. lia.
  - assert (match unique_searchers l !! pool_id o with
      | None => <[pool_id o := o]> (unique_searchers l)
      | Some current => if replaces o current then <[pool_id o := o]> (unique_searchers l)
                        else unique_searchers l end !! pool = unique_searchers l !! pool) as ->.
    { destruct (unique_searchers l !! pool_id o); [destruct (replaces _ _)|];
        by rewrite ?lookup_insert_ne. }
    destruct (unique_searchers l !! pool) as [b|]; [|intros o' [Ho'| ->]%Hin; [by apply IH|done]].
    destruct IH as (Hb & Hpb & Hbest). split; [apply Hin; by left|]. split; [done|].
    intros o' [Ho'| ->]%Hin Hp'; [by apply Hbest|done].
Qed.

(** The votes of a set of aggregations, over all their pre-proposals. *)
Definition agg_votes (hashes : PreProposal -> list B256) (aggs : gset PreProposalAggregation) x : nat :=
  votes x ((hs_iter aggs ≫= agg_pre_proposals) ≫= hashes).

(** C19. What the matching engine solves: of the orders in storage, those of the
    book whose hash occurs in at least two thirds as many pre-proposals of the
    aggregations as there are validators, and for each pool the one top-of-block
    order with such a quorum that has the highest reward, the lowest hash among
    equal rewards. *)
Theorem engine_request_exact h aggs orders req
    (Ho : Storage.get_all_orders_with_ingoing_cancellations (order_storage h) = Ret orders)
    (Hreq : matching_engine_output h aggs = Ret req) :
  let quorum f x := (two_thirds_of_validation_set h <= agg_votes f aggs x /\ 0 < agg_votes f aggs x)%nat in
  (forall b, b ∈ req_limit req <->
    b ∈ Storage.limit orders /\ quorum pp_limit (id_hash (order_id b))) /\
  (forall o, o ∈ req_searcher req ->
    o ∈ Storage.searcher orders /\ quorum pp_searcher (id_hash (order_id o)) /\
    forall o', o' ∈ Storage.searcher orders -> quorum pp_searcher (id_hash (order_id o')) ->
      pool_id o' = pool_id o -> ~ better_searcher o' o) /\
  (forall o, o ∈ Storage.searcher orders -> quorum pp_searcher (id_hash (order_id o)) ->
    exists b, b ∈ req_searcher req /\ pool_id b = pool_id o) /\
  NoDup (pool_id <$> req_searcher req).
Proof.
  intros quorum. unfold matching_engine_output in Hreq. rewrite Ho in Hreq. injection Hreq as <-.
  cbn [req_limit req_searcher].
  assert (forall f x, x ∈ filter_quorum_orders h ((hs_iter aggs ≫= agg_pre_proposals) ≫= f) <-> quorum f x) as Hq.
  { intros f x. rewrite elem_of_filter_quorum, <-votes_pos. unfold quorum, agg_votes. lia. }
  set (l := filter _ (Storage.searcher orders)).
  assert (forall o, o ∈ l <-> o ∈ Storage.searcher orders /\ quorum pp_searcher (id_hash (order_id o))) as Hl.
  { intros o. unfold l. rewrite list_elem_of_filter, Hq. tauto. }
  split; [|split; [|split]].
  - intros b. rewrite list_elem_of_filter, Hq. tauto.
  - intros o [pool Hpool]%elem_of_hm_values. pose proof (unique_searchers_spec l pool) as Hs.
    rewrite Hpool in Hs. destruct Hs as ([Hin Hqo]%Hl & <- & Hbest). split; [done|]. split; [done|].
    intros o' Ho' Hqo' Hp. apply Hbest; [|done]. by apply Hl.
  - intros o Hin Hqo. pose proof (unique_searchers_spec l (pool_id o)) as Hs.
    destruct (unique_searchers l !! pool_id o) as [b|] eqn:Eb.
    + exists b. destruct Hs as (_ & Hp & _). split; [apply elem_of_hm_values; eauto|done].
    + destruct (Hs o); [by apply Hl|done].
  - assert (pool_id <$> hm_values (unique_searchers l) = hm_keys (unique_searchers l)) as ->;
      [|apply NoDup_hm_keys].
    unfold hm_values, hm_keys. rewrite <-list_fmap_compose. apply list_fmap_ext.
    intros j [k v] Hk%list_elem_of_lookup_2. apply elem_of_hm_iter in Hk.
    pose proof (unique_searchers_spec l k) as Hs. rewrite Hk in Hs. cbn. by destruct Hs as (_ & ? & _).
Qed.

Lemma votes_bind {A} x (f : A -> list B256) (l : list A) (n : nat) :
  (forall a, a ∈ l -> (n <= votes x (f a))%nat) -> (n * length l <= votes x (l ≫= f))%nat.
Proof.
  induction l as [|a l IH]; intros Hl; [cbn; lia|]. rewrite bind_cons, votes_app. cbn [length].
  pose proof (Hl a ltac:(left)). assert (n * length l <= votes x (l ≫= f))%nat; [|lia].
  apply IH. intros b Hb. apply Hl. by right.
Qed.

Lemma bind_assoc_list {A B C} (l : list A) (f : A -> list B) (g : B -> list C) :
  (l ≫= f) ≫= g = l ≫= (fun a => f a ≫= g).
Proof. induction l as [|a l IH]; [done|]. by rewrite !bind_cons, bind_app, IH. Qed.

(** The quorum of an order counts the aggregations that repeat it, not the
    validators that have seen it: an order in the pre-proposal of one validator
    passes as soon as two thirds of the validators have received that
    pre-proposal. *)
Theorem one_vote_becomes_quorum h (aggs : gset PreProposalAggregation) p x
    (Hp : set_Forall (fun a => p ∈ agg_pre_proposals a) aggs) (Hx : x ∈ pp_limit p)
    (Hn : (0 < two_thirds_of_validation_set h <= size aggs)%nat) :
  x ∈ filter_quorum_orders h ((hs_iter aggs ≫= agg_pre_proposals) ≫= pp_limit).
Proof.
  assert (size aggs <= votes x ((hs_iter aggs ≫= agg_pre_proposals) ≫= pp_limit))%nat as Hv.
  { rewrite bind_assoc_list, <-(hs_iter_length aggs), <-Nat.mul_1_l at 1.
    apply votes_bind. intros a Ha%elem_of_hs_iter. apply votes_pos.
    apply list_elem_of_bind. exists p. split; [done|by apply Hp]. }
  apply elem_of_filter_quorum. split; [|lia]. apply votes_pos. lia.
Qed.

(** ** Verification of the leader's proposal *)

Definition id_le (x y : PoolSolution) : Prop := sol_id x <= sol_id y.

Lemma insert_solution_perm x l : insert_solution x l ≡ₚ x :: l.
Proof.
  induction l as [|y l IH]; cbn; [done|]. destruct (_ <=? _); [done|]. rewrite IH. by rewrite Permutation_swap.
Qed.

Lemma sort_solutions_cons x l : sort_solutions (x :: l) = insert_solution x (sort_solutions l).
Proof. done. Qed.

Lemma sort_solutions_perm l : sort_solutions l ≡ₚ l.
Proof. induction l as [|x l IH]; [done|]. by rewrite sort_solutions_cons, insert_solution_perm, IH. Qed.

Lemma insert_solution_sorted x l : StronglySorted id_le l -> StronglySorted id_le (insert_solution x l).
Proof.
  induction 1 as [|y l Hl IH Hy]; cbn; [repeat constructor|].
  destruct (Z.leb_spec (sol_id x) (sol_id y)).
  - constructor; [by constructor|]. constructor; [done|]. eapply Forall_impl; [exact Hy|].
    unfold id_le. lia.
  - constructor; [done|]. rewrite insert_solution_perm. constructor; [unfold id_le; lia|done].
Qed.

Lemma sort_solutions_sorted l : StronglySorted id_le (sort_solutions l).
Proof.
  induction l as [|x l IH]; [constructor|]. rewrite sort_solutions_cons. by apply insert_solution_sorted.
Qed.

Lemma sort_solutions_fixed l : StronglySorted id_le l -> sort_solutions l = l.
Proof.
  induction 1 as [|x l Hl IH Hx]; [done|]. rewrite sort_solutions_cons, IH. destruct l as [|y l]; cbn; [done|].
  apply Forall_cons in Hx as [Hxy _].
  by rewrite (proj2 (Z.leb_le _ _) Hxy).
Qed.

Lemma sorted_take n l : StronglySorted id_le l -> StronglySorted id_le (take n l).
Proof.
  intros Hl. revert n. induction Hl as [|x l Hl IH Hx]; intros [|n]; cbn; constructor; [done|].
  by apply Forall_take.
Qed.

Lemma zip_equal (l1 l2 : list PoolSolution) : length l1 = length l2 ->
  forallb (fun '(p, v) => bool_decide (p = v)) (zip l1 l2) = true <-> l1 = l2.
Proof.
  revert l2. induction l1 as [|x l1 IH]; intros [|y l2] Hlen; try done. cbn in *.
  rewrite andb_true_iff, bool_decide_eq_true, IH by lia. naive_solver.
Qed.

Lemma zip_prefix (l : list PoolSolution) n :
  forallb (fun '(p, v) => bool_decide (p = v)) (zip (take n l) l) = true.
Proof.
  revert n. induction l as [|x l IH]; intros [|n]; try done. cbn.
  rewrite bool_decide_eq_true_2 by done. apply IH.
Qed.

Lemma sort_solutions_length l : length (sort_solutions l) = length l.
Proof. by rewrite sort_solutions_perm. Qed.

(** A proposal with as many solutions as the engine of the verifying node finds
    passes exactly when the solutions are the same, in whatever order. *)
Theorem verification_exact proposed solutions gas (Hlen : length proposed = length solutions) :
  verify_solutions proposed (Ok (solutions, gas)) = true <->
  sort_solutions proposed = sort_solutions solutions.
Proof. unfold verify_solutions. apply zip_equal. by rewrite !sort_solutions_length. Qed.

(** The leader may leave out solutions without being noticed: the comparison
    stops at the end of the shorter list, so that every proposal that holds only
    the first of the expected solutions, or none, passes. *)
Theorem truncated_proposal_verifies solutions gas n :
  verify_solutions (take n (sort_solutions solutions)) (Ok (solutions, gas)) = true.
Proof.
  unfold verify_solutions. rewrite (sort_solutions_fixed (take n _)).
  - apply zip_prefix.
  - apply sorted_take, sort_solutions_sorted.
Qed.

(** The comparison includes data of the node itself: when the user's
    cancellation of a top-of-block order has reached the verifying node and not the
    leader, the leader's solution does not pass. *)
Theorem cancellation_fails_verification sol o gas (Hc : cancel_requested o = false) :
  verify_solutions
    [{| sol_id := sol_id sol; sol_ucp := sol_ucp sol; sol_searcher := Some o;
        sol_amm_quantity := sol_amm_quantity sol; sol_limit := sol_limit sol;
        sol_reward_t0 := sol_reward_t0 sol; sol_fee := sol_fee sol |}]
    (Ok ([{| sol_id := sol_id sol; sol_ucp := sol_ucp sol; sol_searcher := Some (set_cancel_requested o);
        sol_amm_quantity := sol_amm_quantity sol; sol_limit := sol_limit sol;
        sol_reward_t0 := sol_reward_t0 sol; sol_fee := sol_fee sol |}], gas)) = false.
Proof.
  unfold verify_solutions. cbn. rewrite bool_decide_eq_false_2; [done|]. intros [= He].
  apply (f_equal cancel_requested) in He. by rewrite Hc in He.
Qed.

(** ** Publication *)

(** The leader publishes its proposal only when its submission has landed: a
    poll of the proposal state queues the proposal only after the submission task
    has reported a transaction of the bundle in the target block, or a successful
    attestation. *)
Theorem proposal_published_after_landing h b i h' b' t p
    (H : proposal_poll from_proposal h b i = Ret (h', b', t))
    (Hnew : ~ PropagateProposal p ∈ messages h) (Hp : PropagateProposal p ∈ messages h') :
  exists results txs, in_submission i = Some (Some (results, txs)) /\
    submission_landed results txs = true /\ t = RoundOver /\ pr_proposal b' = None.
Proof.
  apply bind_Ret in H as ([[h1 b1] built] & He & H).
  assert (~ PropagateProposal p ∈ messages h1) as Hn1.
  { unfold poll_engine in He. destruct (pr_matching_engine_future b) as [r|]; [|by injection He as <- <- <-].
    destruct (in_engine i) as [[[sols gas]|e]|]; [| |by injection He as <- <- <-].
    - cbn in He. apply bind_Ret in He as (q & _ & He). apply bind_Ret in He as (os & _ & He).
      apply bind_Ret in He as (bd & _ & He). apply bind_Ret in He as (att & _ & He). injection He as <- <- <-. cbn.
      by intros [?|?%list_elem_of_singleton]%elem_of_app.
    - by injection He as <- <- <-. }
  destruct built; [|by injection H as <- <- <-].
  unfold poll_submission in H. destruct (pr_submission_future b1); [|by injection H as <- <- <-].
  destruct (in_submission i) as [[[r txs]|]|]; [|by injection H as <- <- <-..].
  destruct (submission_landed r txs) eqn:El; [|by injection H as <- <- <-].
  apply bind_Ret in H as (q & _ & H). injection H as <- <- <-. by exists r, txs.
Qed.

(** In every block for which the leader has a bundle it broadcasts an
    attestation of an empty block as well, with no bytes, which no node accepts. *)
Theorem bundle_sends_empty_attestation h b now solutions gas h' b' built bundle
    (H : try_build_proposal from_proposal h b now (Ok (solutions, gas)) = Ret (h', b', built))
    (Hb : sub_bundle <$> pr_submission_future b' = Some (Some bundle)) block :
  messages h' = messages h ++ [PropagateEmptyBlockAttestation []] /\ is_valid_attestation block [] = false.
Proof.
  apply bind_Ret in H as (p & _ & H). apply bind_Ret in H as (os & _ & H).
  apply bind_Ret in H as (bd & _ & H). apply bind_Ret in H as (att & Hatt & H).
  injection H as <- <- <-. cbn in Hb. injection Hb as Hb.
  rewrite Hb in Hatt. injection Hatt as <-. done.
Qed.

(** ** Repeated messages *)

(** A pre-proposal or an aggregation that a node has already handled changes
    nothing: it is stored and propagated once. *)
Theorem duplicate_ignored m e (He : match e with EProposal _ _ => False | _ => True end) :
  handle_message (handle_message m e) e = handle_message m e.
Proof.
  assert (forall Pro `{Countable Pro} into h (x : Pro) set valid valid' h' set',
    handle_proposal_verification into h x set valid = (h', set') ->
    (forall b, valid' x b = valid x b) ->
    handle_proposal_verification into h' x set' valid' = (h', set')) as Hidem.
  { clear. intros Pro ? ? into h x set valid valid' h' set' E Hv. unfold handle_proposal_verification in E |- *.
    destruct (valid x (block_height h)) eqn:Ev; cbn in E.
    - case_bool_decide; cbn in E; injection E as <- <-; cbn; rewrite Hv, Ev; cbn.
      + by rewrite bool_decide_eq_true_2.
      + rewrite bool_decide_eq_true_2 by set_solver. done.
    - injection E as <- <-. by rewrite Hv, Ev. }
  assert (forall h p set h' set', handle_pre_proposal h p set = (h', set') ->
    handle_pre_proposal h' p set' = (h', set')) as H1.
  { intros h p set h' set' E. eapply Hidem; [exact E|]. intros b. unfold pre_proposal_valid, valid_peers.
    by apply handle_verification_spec in E as ((_ & _ & _ & ->) & _). }
  assert (forall h a set h' set', handle_pre_proposal_aggregation h a set = (h', set') ->
    handle_pre_proposal_aggregation h' a set' = (h', set')) as H2.
  { intros h a set h' set' E. eapply Hidem; [exact E|]. intros b.
    unfold aggregation_valid, valid_peers, two_thirds_of_validation_set.
    by apply handle_verification_spec in E as ((_ & _ & _ & ->) & _). }
  destruct m as [s w h c]. unfold handle_message. cbn [shared_state current_state].
  destruct s as [b|b|b|b|b], e as [peer p|peer a|peer p|peer bl bytes]; try done; cbn [on_consensus_message].
  all: try (destruct (handle_pre_proposal h p _) as [h1 set] eqn:E; cbn; apply H1 in E; by rewrite E).
  all: destruct (handle_pre_proposal_aggregation h a _) as [h1 set] eqn:E; cbn; apply H2 in E; by rewrite E.
Qed.

(** A proposal that arrives again before the machine is polled is propagated
    again, once for every copy. *)
Theorem proposal_propagated_again h b peer p (Hp : prop_ok h p) :
  let '(h1, s1) := on_consensus_message h (Aggregating b) (EProposal peer p) in
  let '(h2, s2) := on_consensus_message h1 s1 (EProposal peer p) in
  s2 = s1 /\ messages h2 = messages h ++ [PropagateProposal p; PropagateProposal p].
Proof.
  cbn. destruct (verify_proposal_spec from_proposal h p) as [(E2 & _ & E1)|[_ Hno]]; [|done].
  destruct (verify_proposal h p) as [h1 q]. cbn in E1, E2. subst h1 q.
  destruct (verify_proposal_spec from_proposal (propagate_message h (PropagateProposal p)) p) as [(E2 & _ & E1)|[_ Hno]];
    [|done]. cbn. destruct (verify_proposal (propagate_message h (PropagateProposal p)) p) as [h1 q].
  cbn in E1, E2. subst h1 q. split; [done|]. cbn. by rewrite <-app_assoc.
Qed.
End engine.
