(* ===== verification/RoundsExamples.v ===== *)
(** * Examples of rounds

    Four validators with sample keys; runs of the machine of the first, which is
    the leader.  They instantiate the theorems on rounds and show a run in which
    one validator supplies the quorum of two. *)

From Stdlib Require Import Sorted.
From S2P Require Import Prelude Ray Orders Samples Storage StateValidation LeaderSelection.
From S2P Require Import SlotClock WaitTrigger ConsensusTypes Rounds RoundsProps RoundsEngine.
Open Scope Z_scope.

Definition sample_round_lib : RoundLib := {| BaselinePoolState := unit; AngstromBundle := unit |}.

(** Whether a computation returns. *)
Definition returns {A} (o : outcome A) : bool := match o with Ret _ => true | Panic => false end.

Section examples.
Local Existing Instances arith_Z sample_hasher iter_by_encoding sample_pool_hasher sample_crypto
  sample_codec sample_sigmoid sample_round_lib.

Definition sample_bundle (p : Proposal) (orders : Storage.OrderSet) (gas : Z)
    (snapshots : gmap PoolId (Address * Address * @BaselinePoolState sample_round_lib * Z))
    : outcome (option (@AngstromBundle sample_round_lib)) := Ret (Some tt).

Definition key (n : Z) : AngstromSigner := new_signer (n : @SecretKey sample_crypto).

Definition four_validators : list AngstromValidator :=
  [new_validator 1 100; new_validator 2 100; new_validator 3 100; new_validator 4 100].

Definition node (n leader : Z) : SharedRoundState :=
  new_shared 100 (Storage.new [7]) (key n) leader four_validators
    {| registry_pools := ∅; angstrom_config_store := ∅ |} ∅ default_timing.

Definition default_machine (o : outcome RoundStateMachine) : RoundStateMachine :=
  match o with
  | Ret m => m
  | Panic => {| current_state := BidAggregation (new_bid_aggregation (new_trigger default_timing 0) 0);
      consensus_wait_duration := new_trigger default_timing 0; shared_state := node 1 1;
      slot_clock := mainnet_clock |}
  end.

(** The machine of the first validator, started ten seconds into a slot. *)
Definition start : RoundStateMachine :=
  default_machine (new_machine (node 1 1) mainnet_clock (Some (from_secs 1606824033)) 0 20).

Lemma start_is : new_machine (node 1 1) mainnet_clock (Some (from_secs 1606824033)) 0 20 = Ret start.
Proof.
  assert (returns (new_machine (node 1 1) mainnet_clock (Some (from_secs 1606824033)) 0 20) = true) as H
    by (vm_compute; reflexivity).
  unfold start. by destruct (new_machine _ _ _ _ _).
Qed.

Lemma start_reach : machine_reach sample_bundle start.
Proof. eapply reach_new; [..|apply start_is]; done. Qed.

Definition signed_pre_proposal (n : Z) (limit : list B256) : PreProposal :=
  match generate_pre_proposal 100 (key n) limit [] with
  | Ret p => p
  | Panic => {| pp_block_height := 0; pp_source := 0; pp_limit := []; pp_searcher := [];
                pp_signature := {| sig_r := 0; sig_s := 0; sig_y_parity := false |} |}
  end.

(** A poll with a tick at [t] seconds and nothing else ready. *)
Definition tick (t : Z) : PollInput :=
  {| in_now := from_secs t; in_ticks := [from_secs t]; in_engine := None; in_submission := None |}.

Definition four_round (p q : PreProposal) : list round_action :=
  [AMessage (EPreProposal 2 p); AMessage (EPreProposal 3 q); APoll (tick 1); APoll (tick 1);
   APoll (tick 1); APoll (tick 1); APoll (tick 1); APoll (tick 1)].

Definition run_to (acts : list round_action) : RoundStateMachine * list ConsensusMessage :=
  match run_round sample_bundle start acts with Ret x => x | Panic => (start, []) end.

Definition honest : list round_action :=
  four_round (signed_pre_proposal 2 [11]) (signed_pre_proposal 3 [11]).

Lemma run_to_is acts : returns (run_round sample_bundle start acts) = true ->
  run_round sample_bundle start acts = Ret (run_to acts).
Proof. unfold run_to. by destruct (run_round sample_bundle start acts). Qed.

Lemma honest_runs : run_round sample_bundle start honest = Ret (run_to honest).
Proof. apply run_to_is. vm_compute. reflexivity. Qed.

Lemma honest_announces : announced (run_to honest).2 = [RPreProposal; RPreProposalAggregation].
Proof. vm_compute. reflexivity. Qed.

Lemma reachable_state_valid_witness : exists m, machine_reach sample_bundle m /\
  state_name (current_state m) = RPreProposalAggregation /\ state_ok (shared_state m) (current_state m).
Proof.
  exists (run_to honest).1.
  assert (machine_reach sample_bundle (run_to honest).1) as Hm.
  { eapply (run_round_reach sample_bundle honest start _ (run_to honest).2); [apply start_reach|]. rewrite honest_runs.
    by destruct (run_to honest). }
  split; [exact Hm|]. split; [vm_compute; reflexivity|]. exact (reachable_state_valid _ _ Hm).
Defined.

Lemma honest_reach acts : returns (run_round sample_bundle start acts) = true ->
  machine_reach sample_bundle (run_to acts).1.
Proof.
  intros Hr%run_to_is. eapply (run_round_reach sample_bundle acts start _ (run_to acts).2); [apply start_reach|].
  rewrite Hr. by destruct (run_to acts).
Qed.

(** The machine before the poll that makes its pre-proposal, and another node. *)
Lemma own_messages_accepted_witness : exists m' out,
  poll_next sample_bundle start (tick 1) = Ret (m', out) /\
  forall x, x ∈ messages (shared_state m') -> accepted (node 2 1) x.
Proof.
  destruct (poll_next sample_bundle start (tick 1)) as [[m' out]|] eqn:E.
  2: { assert (returns (poll_next sample_bundle start (tick 1)) = true) as H by (vm_compute; reflexivity).
       rewrite E in H. discriminate. }
  exists m', out. split; [reflexivity|].
  apply (own_messages_accepted sample_bundle start (tick 1) m' out (node 2 1) start_reach);
    [reflexivity|exact E|].
  split; [reflexivity|]. split; [reflexivity|]. split; [reflexivity|].
  apply (bool_decide_unpack _). vm_compute. exact I.
Defined.

Lemma polling_ends_witness : exists m' outs,
  poll_all sample_bundle start [tick 1; tick 1; tick 1] = Ret (m', outs) /\ (length outs <= 7)%nat.
Proof.
  destruct (poll_all sample_bundle start [tick 1; tick 1; tick 1]) as [[m' outs]|] eqn:E.
  2: { assert (returns (poll_all sample_bundle start [tick 1; tick 1; tick 1]) = true) as H
         by (vm_compute; reflexivity). rewrite E in H. discriminate. }
  exists m', outs. split; [reflexivity|]. exact (polling_ends sample_bundle start _ m' outs E).
Defined.

Lemma rounds_go_forward_witness : exists m' outs,
  run_round sample_bundle start honest = Ret (m', outs) /\
  StronglySorted lt (rank <$> (RBidAggregation :: announced outs)).
Proof.
  exists (run_to honest).1, (run_to honest).2.
  assert (run_round sample_bundle start honest = Ret ((run_to honest).1, (run_to honest).2)) as H
    by (rewrite honest_runs; by destruct (run_to honest)).
  split; [exact H|]. exact (rounds_go_forward sample_bundle start honest _ _ eq_refl H).
Defined.

(** ** One validator, two votes *)

Definition equivocating : list round_action :=
  four_round (signed_pre_proposal 2 [11]) (signed_pre_proposal 2 [11; 12]).

(** Pre-proposals are counted, not their signers: a validator that signs two
    different pre-proposals supplies two of the three that a set of four validators
    needs, and the node aggregates them. *)
Theorem equivocation_reaches_quorum : exists a,
  PropagatePreProposalAgg a ∈ (run_to equivocating).2 /\
  length (round_validators (shared_state start)) = 4%nat /\
  two_thirds_of_validation_set (shared_state start) = 3%nat /\
  agg_is_valid a 100 3 = true /\
  Forall (fun p => pp_recover_address p = Some 1 \/ pp_recover_address p = Some 2) (agg_pre_proposals a).
Proof.
  assert (exists a, last (run_to equivocating).2 = Some (PropagatePreProposalAgg a)) as [a Ha].
  { destruct (last (run_to equivocating).2) as [[| |a| |]|] eqn:E; [..|by exists a| | |].
    all: assert (option_map round_event (last (run_to equivocating).2) = Some EvPropagatePreProposalAgg) as H
      by (vm_compute; reflexivity); rewrite E in H; discriminate. }
  exists a. split; [by apply last_Some_elem_of|]. split; [reflexivity|]. split; [reflexivity|].
  set (test := fun x => match x with
    | Some (PropagatePreProposalAgg a) => agg_is_valid a 100 3 && forallb (fun p => bool_decide
        (pp_recover_address p = Some 1 \/ pp_recover_address p = Some 2)) (agg_pre_proposals a)
    | _ => false end).
  assert (test (last (run_to equivocating).2) = true) as H by (vm_compute; reflexivity).
  rewrite Ha in H. apply andb_true_iff in H as [H1 H2]. split; [done|].
  apply Forall_forall. intros p Hp. apply forallb_forall with (x := p) in H2; [|by apply list_elem_of_In].
  by apply bool_decide_eq_true in H2.
Qed.

(** ** Orders and solutions *)

Definition signed_aggregation (n : Z) (pps : list PreProposal) : PreProposalAggregation :=
  match new_aggregation 100 (key n) pps with
  | Ret a => a
  | Panic => {| agg_block_height := 0; agg_source := 0; agg_pre_proposals := [];
                agg_signature := {| sig_r := 0; sig_s := 0; sig_y_parity := false |} |}
  end.

(** Three aggregations that all hold the pre-proposal of the second validator. *)
Definition three_aggregations : gset PreProposalAggregation :=
  list_to_set ((fun n => signed_aggregation n [signed_pre_proposal 2 [11]]) <$> [1; 2; 3]).

Lemma one_vote_becomes_quorum_witness :
  11 ∈ filter_quorum_orders (node 1 1) ((hs_iter three_aggregations ≫= agg_pre_proposals) ≫= pp_limit).
Proof.
  apply (one_vote_becomes_quorum (node 1 1) three_aggregations (signed_pre_proposal 2 [11])).
  - intros a Ha. apply elem_of_list_to_set, list_elem_of_fmap in Ha as (n & -> & Hn).
    rewrite !elem_of_cons in Hn. destruct Hn as [->|[->|[->|[]%not_elem_of_nil]]];
      apply (bool_decide_unpack _); vm_compute; exact I.
  - apply (bool_decide_unpack _). vm_compute. exact I.
  - assert (size three_aggregations = 3%nat) as -> by (vm_compute; reflexivity). cbn. lia.
Defined.

Definition empty_solution (pool : PoolId) : PoolSolution :=
  {| sol_id := pool; sol_ucp := 0; sol_searcher := None; sol_amm_quantity := None; sol_limit := [];
     sol_reward_t0 := 0; sol_fee := 0 |}.

Lemma verification_exact_witness :
  verify_solutions [empty_solution 2; empty_solution 1] (Ok ([empty_solution 1; empty_solution 2], 5)) = true.
Proof.
  apply (verification_exact [empty_solution 2; empty_solution 1] [empty_solution 1; empty_solution 2] 5);
    reflexivity.
Defined.

Definition with_searcher (o : OrderWithStorageData TopOfBlockOrder) : PoolSolution :=
  {| sol_id := 7; sol_ucp := 0; sol_searcher := Some o; sol_amm_quantity := None; sol_limit := [];
     sol_reward_t0 := 0; sol_fee := 0 |}.

Lemma cancellation_fails_verification_witness :
  verify_solutions [with_searcher (sample_searcher 21 9 7 3)]
    (Ok ([with_searcher (set_cancel_requested (sample_searcher 21 9 7 3))], 5)) = false.
Proof.
  exact (cancellation_fails_verification (empty_solution 7) (sample_searcher 21 9 7 3) 5 eq_refl).
Defined.

(** The first node with a book order and a top-of-block order in storage. *)
Definition stocked : SharedRoundState :=
  new_shared 100 Storage.sample_storage (key 1) 1 four_validators
    {| registry_pools := ∅; angstrom_config_store := ∅ |} ∅ default_timing.

Lemma engine_request_exact_witness : exists orders req,
  matching_engine_output stocked three_aggregations = Ret req /\
  forall b, b ∈ req_limit req -> b ∈ Storage.limit orders.
Proof.
  destruct (Storage.get_all_orders_with_ingoing_cancellations (order_storage stocked)) as [orders|] eqn:Eo.
  2: { assert (returns (Storage.get_all_orders_with_ingoing_cancellations (order_storage stocked)) = true) as H
         by (vm_compute; reflexivity). rewrite Eo in H. discriminate. }
  destruct (matching_engine_output stocked three_aggregations) as [req|] eqn:Er.
  2: { assert (returns (matching_engine_output stocked three_aggregations) = true) as H
         by (vm_compute; reflexivity). rewrite Er in H. discriminate. }
  exists orders, req. split; [reflexivity|].
  destruct (engine_request_exact stocked three_aggregations orders req Eo Er) as [H _].
  intros b Hb. by apply H.
Defined.

(** ** The leader's proposal *)

Definition signed_proposal : Proposal :=
  match generate_proposal 100 (key 1) [] [] with
  | Ret p => p
  | Panic => {| prop_block_height := 0; prop_source := 0; prop_preproposals := []; prop_solutions := [];
                prop_signature := {| sig_r := 0; sig_s := 0; sig_y_parity := false |} |}
  end.

Definition submitting : ProposalState :=
  {| pr_matching_engine_future := None;
     pr_submission_future := Some {| sub_bundle := Some tt; sub_target_block := 101 |};
     pr_pre_proposal_aggs := []; pr_proposal := Some signed_proposal;
     pr_last_round_info := None; pr_trigger_time := 0 |}.

Definition landed : PollInput :=
  {| in_now := 0; in_ticks := []; in_engine := None;
     in_submission := Some (Some (Some [{| tx_hash := Some 5; tx_success := true |}], [4; 5])) |}.

Lemma proposal_published_after_landing_witness : exists results txs,
  in_submission landed = Some (Some (results, txs)) /\ submission_landed results txs = true.
Proof.
  destruct (proposal_published_after_landing sample_bundle (node 1 1) submitting landed
    (propagate_message (node 1 1) (PropagateProposal signed_proposal))
    (set_proposal (set_submission submitting None) None) RoundOver signed_proposal)
    as (results & txs & H1 & H2 & _).
  - reflexivity.
  - cbn. apply not_elem_of_nil.
  - cbn. left.
  - exists results, txs. split; [exact H1|exact H2].
Defined.

Definition building : ProposalState :=
  {| pr_matching_engine_future := None; pr_submission_future := None; pr_pre_proposal_aggs := [];
     pr_proposal := None; pr_last_round_info := None; pr_trigger_time := 0 |}.

Lemma bundle_sends_empty_attestation_witness : exists h' b' built,
  try_build_proposal sample_bundle (node 1 1) building 0 (Ok ([], 5)) = Ret (h', b', built) /\
  messages h' = [PropagateEmptyBlockAttestation []].
Proof.
  destruct (try_build_proposal sample_bundle (node 1 1) building 0 (Ok ([], 5))) as [[[h' b'] built]|] eqn:E.
  2: { assert (returns (try_build_proposal sample_bundle (node 1 1) building 0 (Ok ([], 5))) = true) as H
         by (vm_compute; reflexivity). rewrite E in H. discriminate. }
  exists h', b', built. split; [reflexivity|].
  apply (bundle_sends_empty_attestation sample_bundle (node 1 1) building 0 [] 5 h' b' built tt E); [|exact 0].
  apply bind_Ret in E as (p & _ & H). apply bind_Ret in H as (os & _ & H).
  apply bind_Ret in H as (bundle & Hb & H). apply bind_Ret in H as (att & _ & H).
  injection H as <- <- <-. injection Hb as <-. reflexivity.
Defined.

Lemma duplicate_ignored_witness :
  let e := EPreProposal 2 (signed_pre_proposal 2 [11]) in
  handle_message (handle_message start e) e = handle_message start e.
Proof. exact (duplicate_ignored start (EPreProposal 2 (signed_pre_proposal 2 [11])) I). Defined.

Lemma proposal_propagated_again_witness :
  prop_ok (node 2 1) signed_proposal /\
  let b := {| pa_pre_proposals_aggregation := ∅; pa_proposal := None; pa_trigger_time := 0 |} in
  let '(h1, s1) := on_consensus_message (node 2 1) (Aggregating b) (EProposal 1 signed_proposal) in
  let '(h2, s2) := on_consensus_message h1 s1 (EProposal 1 signed_proposal) in
  s2 = s1 /\ messages h2 = [PropagateProposal signed_proposal; PropagateProposal signed_proposal].
Proof.
  assert (prop_ok (node 2 1) signed_proposal) as Hp by (split; vm_compute; reflexivity).
  split; [exact Hp|].
  exact (proposal_propagated_again sample_bundle (node 2 1)
    {| pa_pre_proposals_aggregation := ∅; pa_proposal := None; pa_trigger_time := 0 |} 1 signed_proposal Hp).
Defined.
End examples.
