(* ===== verification/Manager.v ===== *)
(** * The consensus manager

    The model of [crates/consensus/src/manager.rs] and of the requests of
    [crates/consensus/src/lib.rs]: the task that drives leader selection, the block
    synchronisation and the round machine from the events of the chain, of the
    network and of the RPC.  What it sends is returned as a list of effects; whether
    a subscriber's bounded channel accepts a message is an argument. *)

From S2P Require Import Prelude Ray Orders Samples Storage StateValidation LeaderSelection.
From S2P Require Import SlotClock WaitTrigger BlockSync Eth ConsensusTypes Rounds RoundsProps.
From S2P Require Import RoundsExamples.
Open Scope Z_scope.

Definition MODULE_NAME : string := "Consensus".

(** [StromMessage], the messages of consensus. *)
Inductive StromMessage :=
| PrePropose (p : PreProposal)
| PreProposeAgg (a : PreProposalAggregation)
| Propose (p : Proposal)
| BundleUnlockAttestation (block : u64) (bytes : Bytes).

Inductive ConsensusSubscriptionRequestKind := Attestations | RoundEventOrders.

#[export] Instance kind_eq_dec : EqDecision ConsensusSubscriptionRequestKind.
Proof. solve_decision. Defined.
#[export] Instance kind_countable : Countable ConsensusSubscriptionRequestKind.
Proof.
  refine (inj_countable' (fun k => match k with Attestations => true | RoundEventOrders => false end)
    (fun b : bool => if b then Attestations else RoundEventOrders) _). by intros [].
Defined.

Record ConsensusRoundOrderHashes := {
  roh_round : ConsensusRoundEvent;
  roh_limit : gset B256;
  roh_searcher : gset B256
}.

Inductive ConsensusSubscriptionData :=
| DAttestations (bytes : Bytes) (block : u64)
| DRoundEventOrders (hashes : ConsensusRoundOrderHashes).

(** A request, with the channel of the answer or of the subscription. *)
Inductive ConsensusRequest :=
| CurrentLeader (tx : Channel)
| CurrentConsensusState (tx : Channel)
| SubscribeAttestations (tx : Channel)
| SubscribeRoundEventOrders (tx : Channel)
| Timing (tx : Channel)
| IsRoundClosed (tx : Channel).

Definition subscription_kind (r : ConsensusRequest) : option ConsensusSubscriptionRequestKind :=
  match r with
  | SubscribeAttestations _ => Some Attestations
  | SubscribeRoundEventOrders _ => Some RoundEventOrders
  | _ => None
  end.

(** What the manager sends. *)
Inductive Effect :=
| Broadcast (m : StromMessage)
| StateUpdate (r : ConsensusRoundName)
| ToSubscriber (tx : Channel) (d : ConsensusSubscriptionData)
| ReplyLeader (tx : Channel) (leader : Address) (block : u64)
| ReplyValidators (tx : Channel) (vs : gmap Address AngstromValidator) (block : u64)
| ReplyTiming (tx : Channel) (cfg : ConsensusTimingConfig) (block : u64)
| ReplyClosed (tx : Channel) (closed : bool) (block : u64).

Section manager.
Context `{AL : ArithLib} `{OH : OrderHasher} `{HI : HashIter} `{PH : PoolHasher}.
Context `{CC : ConsensusCrypto} `{AC : AttestationCodec} `{SG : Sigmoid} `{RL : RoundLib}.
Context (from_proposal : Proposal -> Storage.OrderSet -> Z ->
  gmap PoolId (Address * Address * BaselinePoolState * Z) -> outcome (option AngstromBundle)).

Abbreviation Subscribers := (gmap ConsensusSubscriptionRequestKind (list Channel)) (only parsing).

Record ConsensusManager := {
  current_height : BlockNumber;
  leader_selection : WeightedRoundRobin;
  consensus_round_state : RoundStateMachine;
  block_sync : GlobalBlockSync;
  state_updates : bool;
  subscribers : Subscribers;
  broadcasted_messages : list StromConsensusEvent
}.

Implicit Types (c : ConsensusManager) (accepts : Channel -> bool).

Definition set_machine c m : ConsensusManager :=
  {| current_height := current_height c; leader_selection := leader_selection c;
     consensus_round_state := m; block_sync := block_sync c; state_updates := state_updates c;
     subscribers := subscribers c; broadcasted_messages := broadcasted_messages c |}.

Definition set_subscribers c s : ConsensusManager :=
  {| current_height := current_height c; leader_selection := leader_selection c;
     consensus_round_state := consensus_round_state c; block_sync := block_sync c;
     state_updates := state_updates c; subscribers := s;
     broadcasted_messages := broadcasted_messages c |}.

Definition set_leaders c w : ConsensusManager :=
  {| current_height := current_height c; leader_selection := w;
     consensus_round_state := consensus_round_state c; block_sync := block_sync c;
     state_updates := state_updates c; subscribers := subscribers c;
     broadcasted_messages := broadcasted_messages c |}.

(** The clocks that a reset of the round reads. *)
Record Clocks := {
  wall : option Duration;
  now : Instant;
  jitter : u64
}.

(** ** Construction *)

Definition new_manager (sk : AngstromSigner) (vs : list AngstromValidator)
    (storage : Storage.OrderStorage) (deploy_block height : BlockNumber)
    (registry : UniswapAngstromRegistry)
    (pools : gmap PoolId (option (Address * Address * BaselinePoolState)))
    (sync : GlobalBlockSync) (updates : bool) (config : ConsensusTimingConfig)
    (clock : ManualSlotClock) (t : Clocks) : outcome ConsensusManager :=
  '(w, leader) ← choose_proposer (new_round_robin vs deploy_block) height;
  leader ← unwrap leader;
  sync ← register sync MODULE_NAME;
  m ← new_machine (new_shared height storage sk leader vs registry pools config) clock
    (wall t) (now t) (jitter t);
  Ret {| current_height := height; leader_selection := w; consensus_round_state := m;
         block_sync := sync; state_updates := updates; subscribers := ∅; broadcasted_messages := [] |}.

(** ** Subscriptions *)

Definition add_subscription (subs : Subscribers) (kind : ConsensusSubscriptionRequestKind)
    (tx : Channel) : Subscribers :=
  <[kind := default [] (subs !! kind) ++ [tx]]> subs.

(** [subs.retain(|tx| tx.try_send(..).is_ok())]. *)
Definition send_all accepts (d : ConsensusSubscriptionData) (subs : list Channel)
    : list Channel * list Effect :=
  let kept := filter (fun tx => accepts tx = true) subs in
  (kept, (fun tx => ToSubscriber tx d) <$> kept).

Definition send_kind accepts (subs : Subscribers) kind (d : ConsensusSubscriptionData)
    : Subscribers * list Effect :=
  match subs !! kind with
  | None => (subs, [])
  | Some l => let '(kept, effects) := send_all accepts d l in (<[kind := kept]> subs, effects)
  end.

Definition subscription_send_attestations accepts (subs : Subscribers) (bytes : Bytes) (block : u64)
    : Subscribers * list Effect :=
  send_kind accepts subs Attestations (DAttestations bytes block).

Definition order_hashes (m : ConsensusMessage) : ConsensusRoundOrderHashes :=
  {| roh_round := round_event m; roh_limit := list_to_set (msg_limit_order_hashes m);
     roh_searcher := list_to_set (msg_searcher_order_hashes m) |}.

Definition subscription_send_round_event accepts (subs : Subscribers) (m : ConsensusMessage)
    : Subscribers * list Effect :=
  send_kind accepts subs RoundEventOrders (DRoundEventOrders (order_hashes m)).

(** ** Events *)

(** The new height, and the block sync after the sign-off; [None] for the events
    that do not reset the round. *)
Definition resets_round c (e : EthEvent) : outcome (option (BlockNumber * GlobalBlockSync)) :=
  match e with
  | NewBlock block =>
      s ← sign_off_on_block (block_sync c) MODULE_NAME block;
      Ret (Some (block, s))
  | ReorgedOrders _ first last =>
      s ← sign_off_reorg (block_sync c) MODULE_NAME first last;
      Ret (Some (last, s))
  | _ => Ret None
  end.

Definition on_blockchain_state c (e : EthEvent) (t : Clocks) : outcome (ConsensusManager * list Effect) :=
  r ← resets_round c e;
  match r with
  | None =>
      Ret (match e with
           | AddedNode node => set_leaders c (add_validator (leader_selection c) node 100)
           | RemovedNode node => set_leaders c (remove_validator (leader_selection c) node)
           | _ => c
           end, [])
  | Some (height, sync) =>
      '(w, leader) ← choose_proposer (leader_selection c) height;
      round_leader ← unwrap leader;
      m ← reset_round (consensus_round_state c) height round_leader (wall t) (now t) (jitter t);
      Ret ({| current_height := height; leader_selection := w; consensus_round_state := m;
              block_sync := sync; state_updates := state_updates c; subscribers := subscribers c;
              broadcasted_messages := [] |},
           if state_updates c then [StateUpdate RBidAggregation] else [])
  end.

Definition handle_request c (r : ConsensusRequest) : ConsensusManager * list Effect :=
  match r with
  | CurrentLeader tx => (c, [ReplyLeader tx (current_leader (consensus_round_state c)) (current_height c)])
  | CurrentConsensusState tx =>
      (c, [ReplyValidators tx (validators (leader_selection c)) (current_height c)])
  | SubscribeAttestations tx =>
      (set_subscribers c (add_subscription (subscribers c) Attestations tx), [])
  | SubscribeRoundEventOrders tx =>
      (set_subscribers c (add_subscription (subscribers c) RoundEventOrders tx), [])
  | Timing tx => (c, [ReplyTiming tx (timing (consensus_round_state c)) (current_height c)])
  | IsRoundClosed tx =>
      (c, [ReplyClosed tx (is_auction_closed (consensus_round_state c)) (current_height c)])
  end.

Definition on_network_event c accepts (e : StromConsensusEvent) : ConsensusManager * list Effect :=
  if negb (current_height c =? event_block_height e) then (c, [])
  else
    let '(c, effects) :=
      match e with
      | EBundleUnlockAttestation _ block bytes =>
          if is_valid_attestation (u64_wrap (block + 1)) bytes then
            let '(subs, effects) :=
              subscription_send_attestations accepts (subscribers c) bytes (current_height c) in
            (set_subscribers c subs, effects)
          else (c, [])
      | _ => (c, [])
      end in
    (set_machine c (handle_message (consensus_round_state c) e), effects).

Definition on_round_event c accepts (m : ConsensusMessage) : ConsensusManager * list Effect :=
  let '(c, effects) :=
    match m with
    | StateChange state => (c, if state_updates c then [StateUpdate state] else [])
    | PropagateProposal p => (c, [Broadcast (Propose p)])
    | PropagatePreProposal p => (c, [Broadcast (PrePropose p)])
    | PropagatePreProposalAgg a => (c, [Broadcast (PreProposeAgg a)])
    | PropagateEmptyBlockAttestation p =>
        let '(subs, effects) :=
          subscription_send_attestations accepts (subscribers c) p (current_height c) in
        (set_subscribers c subs, effects ++ [Broadcast (BundleUnlockAttestation (current_height c) p)])
    end in
  let '(subs, effects') := subscription_send_round_event accepts (subscribers c) m in
  (set_subscribers c subs, effects ++ effects').

(** ** The poll *)

Fixpoint on_chain_events c (l : list (EthEvent * Clocks)) : outcome (ConsensusManager * list Effect) :=
  match l with
  | [] => Ret (c, [])
  | (e, t) :: l' =>
      '(c, eff) ← on_blockchain_state c e t;
      '(c, eff') ← on_chain_events c l';
      Ret (c, eff ++ eff')
  end.

Fixpoint on_requests c (l : list ConsensusRequest) : ConsensusManager * list Effect :=
  match l with
  | [] => (c, [])
  | r :: l' =>
      let '(c, eff) := handle_request c r in
      let '(c, eff') := on_requests c l' in
      (c, eff ++ eff')
  end.

Fixpoint on_network_events c accepts (l : list StromConsensusEvent) : ConsensusManager * list Effect :=
  match l with
  | [] => (c, [])
  | e :: l' =>
      let '(c, eff) := on_network_event c accepts e in
      let '(c, eff') := on_network_events c accepts l' in
      (c, eff ++ eff')
  end.

(** [while let Poll::Ready(Some(msg)) = consensus_round_state.poll_next_unpin(cx)];
    the inputs are what the polls find, one after the other. *)
Fixpoint drain_rounds (fuel : nat) c accepts (inputs : nat -> PollInput)
    : outcome (option (ConsensusManager * list Effect)) :=
  match fuel with
  | O => Ret None
  | S fuel' =>
      '(m, out) ← poll_next from_proposal (consensus_round_state c) (inputs 0%nat);
      let c := set_machine c m in
      match out with
      | None => Ret (Some (c, []))
      | Some msg =>
          let '(c, eff) := on_round_event c accepts msg in
          r ← drain_rounds fuel' c accepts (fun n => inputs (S n));
          Ret (match r with Some (c, eff') => Some (c, eff ++ eff') | None => None end)
      end
  end.

(** The fuel that draining the machine needs at most. *)
Definition drain_fuel c : nat := (length (messages (shared_state (consensus_round_state c))) + 8)%nat.

Record ManagerInput := {
  mi_chain : list (EthEvent * Clocks);
  mi_requests : list ConsensusRequest;
  mi_network : list StromConsensusEvent;
  mi_accepts : Channel -> bool;
  mi_polls : nat -> PollInput
}.

Definition poll c (i : ManagerInput) : outcome (option (ConsensusManager * list Effect)) :=
  '(c, eff1) ← on_chain_events c (mi_chain i);
  let '(c, eff2) := on_requests c (mi_requests i) in
  if can_operate (block_sync c) then
    let '(c, eff3) := on_network_events c (mi_accepts i) (mi_network i) in
    r ← drain_rounds (drain_fuel c) c (mi_accepts i) (mi_polls i);
    Ret (match r with
         | Some (c, eff4) => Some (c, eff1 ++ eff2 ++ eff3 ++ eff4)
         | None => None
         end)
  else Ret (Some (c, eff1 ++ eff2)).

(** ** The poll returns *)

Lemma on_round_event_machine c accepts m :
  consensus_round_state (on_round_event c accepts m).1 = consensus_round_state c /\
  block_sync (on_round_event c accepts m).1 = block_sync c.
Proof.
  unfold on_round_event. destruct m.
  all: try (destruct (subscription_send_round_event _ _ _); done).
  destruct (subscription_send_attestations _ _ _ _). cbn.
  by destruct (subscription_send_round_event _ _ _).
Qed.

Lemma drain_rounds_returns fuel c accepts inputs :
  (potential (consensus_round_state c) < fuel)%nat ->
  drain_rounds fuel c accepts inputs <> Ret None.
Proof.
  revert c inputs. induction fuel as [|fuel IH]; intros c inputs Hf; [lia|]. cbn [drain_rounds].
  destruct (poll_next _ _ _) as [[m out]|] eqn:E; [|done]. cbn [mbind outcome_bind].
  apply poll_next_potential in E. destruct out as [msg|]; [|done].
  destruct (on_round_event_machine (set_machine c m) accepts msg) as [Hm _].
  destruct (on_round_event (set_machine c m) accepts msg) as [c' eff]. cbn in Hm.
  specialize (IH c' (fun n => inputs (S n))). rewrite Hm in IH.
  destruct (drain_rounds fuel c' accepts _) as [[[c2 e2]|]|]; try done. by destruct IH; [lia|].
Qed.

Lemma remaining_le s : (remaining s <= 7)%nat.
Proof.
  destruct s as [b|b|b|b|b]; cbn; try lia.
  destruct (pr_matching_engine_future b), (pr_submission_future b); lia.
Qed.

(** A poll of the manager ends: the loop over the round machine stops after at
    most the queued messages and eight more polls, whatever these find. *)
Theorem manager_poll_returns c i : poll c i <> Ret None.
Proof.
  unfold poll. destruct (on_chain_events c (mi_chain i)) as [[c1 eff1]|]; [|done]. cbn [mbind outcome_bind].
  destruct (on_requests c1 (mi_requests i)) as [c2 eff2].
  destruct (can_operate (block_sync c2)); [|done].
  destruct (on_network_events c2 (mi_accepts i) (mi_network i)) as [c3 eff3].
  pose proof (drain_rounds_returns (drain_fuel c3) c3 (mi_accepts i) (mi_polls i)) as H.
  destruct (drain_rounds _ _ _ _) as [[[c4 eff4]|]|]; try done. destruct H; [|done].
  unfold potential, drain_fuel. pose proof (remaining_le (current_state (consensus_round_state c3))). lia.
Qed.

(** ** Consistency *)

Inductive manager_step : ConsensusManager -> ConsensusManager -> Prop :=
| mstep_chain c e t c' eff : on_blockchain_state c e t = Ret (c', eff) -> manager_step c c'
| mstep_request c r : manager_step c (handle_request c r).1
| mstep_network c accepts e : manager_step c (on_network_event c accepts e).1
| mstep_round c accepts i m msg : poll_next from_proposal (consensus_round_state c) i = Ret (m, Some msg) ->
    manager_step c (on_round_event (set_machine c m) accepts msg).1
| mstep_pending c i m : poll_next from_proposal (consensus_round_state c) i = Ret (m, None) ->
    manager_step c (set_machine c m)
| mstep_sync c s : manager_step c {| current_height := current_height c;
    leader_selection := leader_selection c; consensus_round_state := consensus_round_state c;
    block_sync := s; state_updates := state_updates c; subscribers := subscribers c;
    broadcasted_messages := broadcasted_messages c |}
| mstep_environment c st pools :
    manager_step c (set_machine c (set_environment (consensus_round_state c) st pools)).

(** Managers that started with the validators [vs]. *)
Inductive manager_reach (vs : list AngstromValidator) : ConsensusManager -> Prop :=
| mreach_new sk storage deploy height registry pools sync updates config clock t c :
    signer_ok sk ->
    new_manager sk vs storage deploy height registry pools sync updates config clock t = Ret c ->
    manager_reach vs c
| mreach_step c c' : manager_reach vs c -> manager_step c c' -> manager_reach vs c'.

Definition consistent vs c : Prop :=
  machine_reach from_proposal (consensus_round_state c) /\
  block_height (shared_state (consensus_round_state c)) = current_height c /\
  last_proposer (leader_selection c) = Some (current_leader (consensus_round_state c)) /\
  round_validators (shared_state (consensus_round_state c)) = vs.

Lemma one_round_last w w' l : one_round w = Ret (w', l) -> last_proposer w' = Some l.
Proof.
  intros (w1 & _ & H)%bind_Ret. apply bind_Ret in H as (w2 & _ & H).
  apply bind_Ret in H as ([w3 l3] & _ & H). by injection H as <- <-.
Qed.

Lemma catchup_last n w l w' l' : catchup n w l = Ret (w', Some l') -> l = None \/ last_proposer w = l ->
  last_proposer w' = Some l'.
Proof.
  revert w l. induction n as [|n IH]; intros w l H Hl; cbn in H.
  - injection H as <- ->. by destruct Hl.
  - apply bind_Ret in H as ([w1 l1] & E & H). eapply IH; [exact H|]. right. by eapply one_round_last.
Qed.

Lemma choose_proposer_last w b w' l : choose_proposer w b = Ret (w', Some l) -> last_proposer w' = Some l.
Proof.
  unfold choose_proposer. destruct (_ =? _).
  - destruct (last_proposer w) eqn:E; [by intros [= <- <-]|].
    intros ([w1 l1] & _ & H)%bind_Ret. by injection H as <- <-.
  - intros ([w1 l1] & E & H)%bind_Ret. injection H as <- ->. cbn. eapply catchup_last; [exact E|by left].
Qed.

Lemma poll_next_round m i m' out : machine_reach from_proposal m ->
  poll_next from_proposal m i = Ret (m', out) ->
  machine_reach from_proposal m' /\ same_round (shared_state m) (shared_state m').
Proof.
  intros Hm Hp. split; [eapply reach_step; [exact Hm|by eapply step_poll]|].
  destruct (machine_reach_ok _ m Hm). by eapply poll_next_ok.
Qed.

Lemma handle_message_round m e : machine_reach from_proposal m ->
  machine_reach from_proposal (handle_message m e) /\
  same_round (shared_state m) (shared_state (handle_message m e)).
Proof.
  intros Hm. split; [eapply reach_step; [exact Hm|by apply step_message]|].
  destruct (machine_reach_ok _ m Hm) as [_ Hok]. unfold handle_message.
  destruct (on_consensus_message _ _ _) as [h s] eqn:E. by eapply on_consensus_message_ok in E as [].
Qed.

Lemma set_machine_consistent vs c m : consistent vs c -> machine_reach from_proposal m ->
  same_round (shared_state (consensus_round_state c)) (shared_state m) -> consistent vs (set_machine c m).
Proof.
  intros (H1 & H2 & H3 & H4) Hm (E1 & _ & E3 & E4). unfold consistent, current_leader in *. cbn.
  by rewrite E1, E3, E4.
Qed.

Lemma on_blockchain_state_consistent vs c e t c' eff : on_blockchain_state c e t = Ret (c', eff) ->
  consistent vs c -> consistent vs c'.
Proof.
  intros (r & Hr & H)%bind_Ret (H1 & H2 & H3 & H4). destruct r as [[height sync]|].
  - apply bind_Ret in H as ([w leader] & Hw & H). apply bind_Ret in H as (l & Hl & H).
    apply bind_Ret in H as (m & Hm & H). injection H as <- _. destruct leader as [l'|]; [|done].
    injection Hl as ->. pose proof (reset_round_spec _ _ _ _ _ _ _ Hm) as (timer & _ & E & _).
    unfold consistent, current_leader. cbn. rewrite E. cbn. split_and!; [|done|by eapply choose_proposer_last|done].
    eapply reach_step; [exact H1|by eapply step_reset].
  - injection H as <- _. destruct e; by split_and!.
Qed.

Lemma manager_step_consistent vs c c' : manager_step c c' -> consistent vs c -> consistent vs c'.
Proof.
  intros [c1 e t c2 eff H|c1 r|c1 accepts e|c1 accepts i m msg H|c1 i m H|c1 s|c1 st pools] Hc.
  - by eapply on_blockchain_state_consistent.
  - destruct r; cbn; done.
  - unfold on_network_event. destruct (negb _); [done|]. destruct Hc as (H1 & Hrest).
    destruct (handle_message_round (consensus_round_state c1) e H1) as [Hm Hs].
    destruct e as [| | |peer block bytes]; try (by apply set_machine_consistent).
    destruct (is_valid_attestation _ _); [|by apply set_machine_consistent].
    destruct (subscription_send_attestations _ _ _ _) as [subs effs].
    by apply (set_machine_consistent vs (set_subscribers c1 subs)).
  - destruct Hc as (H1 & Hrest). destruct (poll_next_round _ _ _ _ H1 H) as [Hm Hs].
    assert (consistent vs (set_machine c1 m)) as Hc' by (by apply set_machine_consistent).
    unfold on_round_event. destruct msg.
    all: try (destruct (subscription_send_round_event _ _ _); exact Hc').
    destruct (subscription_send_attestations _ _ _ _). cbn.
    destruct (subscription_send_round_event _ _ _). exact Hc'.
  - destruct Hc as (H1 & Hrest). destruct (poll_next_round _ _ _ _ H1 H) as [Hm Hs].
    by apply set_machine_consistent.
  - exact Hc.
  - apply set_machine_consistent; [done| |done]. eapply reach_step; [apply Hc|apply step_environment].
Qed.

Lemma manager_reach_consistent vs c : manager_reach vs c -> consistent vs c.
Proof.
  induction 1 as [sk storage deploy height registry pools sync updates config clock t c Hs Hn|c c' _ IH Hstep].
  - apply bind_Ret in Hn as ([w leader] & Hw & H). apply bind_Ret in H as (l & Hl & H).
    apply bind_Ret in H as (s & _ & H). apply bind_Ret in H as (m & Hm & H). injection H as <-.
    destruct leader as [l'|]; [|done]. injection Hl as ->.
    assert (shared_state m = new_shared height storage sk l vs registry pools config) as E.
    { apply bind_Ret in Hm as (e & _ & H). apply bind_Ret in H as ([t1 t2] & _ & H). by injection H as <-. }
    unfold consistent, current_leader. cbn. rewrite E. split_and!; [|done|by eapply choose_proposer_last|done].
    eapply reach_new; [..|exact Hm]; done.
  - by eapply manager_step_consistent.
Qed.

(** The parts of the manager agree at all times: the round machine runs for the
    block of the manager and with the leader that leader selection chose last, and
    all it stores is valid for that block. *)
Theorem manager_consistent vs c (Hc : manager_reach vs c) :
  block_height (shared_state (consensus_round_state c)) = current_height c /\
  last_proposer (leader_selection c) = Some (current_leader (consensus_round_state c)) /\
  state_ok (shared_state (consensus_round_state c)) (current_state (consensus_round_state c)).
Proof.
  apply manager_reach_consistent in Hc as (H1 & H2 & H3 & _). split_and!; [done..|].
  by apply (machine_reach_ok from_proposal).
Qed.

(** The round machine does not learn of nodes that join or leave: whatever
    happens, it checks signers and counts quorums against the validators of the
    start, while leader selection follows the changes. *)
Theorem round_validators_fixed vs c node t c' eff (Hc : manager_reach vs c)
    (H : on_blockchain_state c (AddedNode node) t = Ret (c', eff)) :
  round_validators (shared_state (consensus_round_state c')) = vs /\
  is_Some (validators (leader_selection c') !! node).
Proof.
  split.
  - eapply manager_reach_consistent. eapply mreach_step; [exact Hc|]. by eapply mstep_chain.
  - injection H as <- <-. cbn. unfold insert_validator. cbn.
    destruct (validators (leader_selection c) !! node) eqn:E; [by rewrite E|]. by rewrite lookup_insert_eq.
Qed.

(** Messages that the machine has queued survive the reset of the round: they
    are broadcast in the next block, an attestation under the number of that
    block. *)
Theorem queue_survives_reset c block t c' eff (H : on_blockchain_state c (NewBlock block) t = Ret (c', eff)) :
  messages (shared_state (consensus_round_state c')) = messages (shared_state (consensus_round_state c)) /\
  current_height c' = block /\
  forall accepts bytes, Broadcast (BundleUnlockAttestation block bytes) ∈
    (on_round_event c' accepts (PropagateEmptyBlockAttestation bytes)).2.
Proof.
  apply bind_Ret in H as (r & Hr & H). apply bind_Ret in Hr as (s & _ & Hr). injection Hr as <-.
  apply bind_Ret in H as ([w leader] & _ & H). apply bind_Ret in H as (l & _ & H).
  apply bind_Ret in H as (m & Hm & H). injection H as <- _. cbn [consensus_round_state current_height].
  apply reset_round_spec in Hm as (timer & _ & E & _). rewrite E. split_and!; [done..|].
  intros accepts bytes. unfold on_round_event. cbn [current_height].
  destruct (subscription_send_attestations _ _ _ _) as [subs effs]. cbn.
  destruct (subscription_send_round_event _ _ _) as [subs' effs']. cbn.
  rewrite !elem_of_app. left. right. left.
Qed.
End manager.

(** ** Examples *)

Section examples.
Local Existing Instances arith_Z sample_hasher iter_by_encoding sample_pool_hasher sample_crypto
  sample_codec sample_sigmoid sample_round_lib.

Definition noon : Clocks := {| wall := Some (from_secs 1606824033); now := 0; jitter := 20 |}.

(** The manager of the first of four validators, fifty blocks after deployment. *)
Definition start_manager : outcome ConsensusManager :=
  new_manager (key 1) four_validators (Storage.new [7]) 50 100
    {| registry_pools := ∅; angstrom_config_store := ∅ |} ∅ (new_sync 100) true default_timing
    mainnet_clock noon.

(** The same, with a block that the producer has announced. *)
Definition announced_block (c : ConsensusManager) : ConsensusManager :=
  {| current_height := current_height c; leader_selection := leader_selection c;
     consensus_round_state := consensus_round_state c;
     block_sync := {| pending_state := [PendingProgression 101]; sync_block_number := 100;
       registered_modules := {[MODULE_NAME := []]}; joining_modules := ∅; all_modules_registered := true |};
     state_updates := state_updates c; subscribers := subscribers c;
     broadcasted_messages := broadcasted_messages c |}.

Lemma start_manager_returns : exists c, start_manager = Ret c /\
  returns (on_blockchain_state (announced_block c) (NewBlock 101) noon) = true.
Proof.
  assert (match start_manager with
    | Ret c => returns (on_blockchain_state (announced_block c) (NewBlock 101) noon)
    | Panic => false end = true) as H by (vm_compute; reflexivity).
  destruct start_manager as [c|]; [|discriminate]. exists c. split; [reflexivity|exact H].
Qed.

Lemma start_manager_reach c : start_manager = Ret c -> manager_reach sample_bundle four_validators c.
Proof. intros H. eapply mreach_new; [|exact H]. reflexivity. Qed.

Lemma manager_consistent_witness : exists c, manager_reach sample_bundle four_validators c /\
  block_height (shared_state (consensus_round_state c)) = current_height c.
Proof.
  destruct start_manager_returns as (c & Hc & _). exists c.
  pose proof (start_manager_reach c Hc) as Hr. split; [exact Hr|].
  exact (proj1 (manager_consistent sample_bundle four_validators c Hr)).
Defined.

Lemma round_validators_fixed_witness : exists c c', manager_reach sample_bundle four_validators c /\
  on_blockchain_state c (AddedNode 9) noon = Ret (c', []) /\
  round_validators (shared_state (consensus_round_state c')) = four_validators.
Proof.
  destruct start_manager_returns as (c & Hc & _).
  exists c, (set_leaders c (add_validator (leader_selection c) 9 100)).
  pose proof (start_manager_reach c Hc) as Hr. split; [exact Hr|]. split; [reflexivity|].
  exact (proj1 (round_validators_fixed sample_bundle four_validators c 9 noon _ [] Hr eq_refl)).
Defined.

Lemma queue_survives_reset_witness : exists c c' eff,
  on_blockchain_state c (NewBlock 101) noon = Ret (c', eff) /\ current_height c' = 101.
Proof.
  destruct start_manager_returns as (c & _ & Hn).
  destruct (on_blockchain_state (announced_block c) (NewBlock 101) noon) as [[c' eff]|] eqn:E; [|discriminate].
  exists (announced_block c), c', eff. split; [exact E|].
  exact (proj1 (proj2 (queue_survives_reset (announced_block c) 101 noon c' eff E))).
Defined.
End examples.
