(* ===== verification/Pool.v ===== *)
(** * The pool and its swaps

    The model of [crates/types/src/uni_structure]: the liquidity of a Uniswap pool
    ([liquidity_base.rs]), the swap over its ticks ([pool_swap.rs]), the pool state
    of a block ([mod.rs]) and the reward of a top-of-block order
    ([crates/types/src/traits/tob.rs]).  The tick mathematics of
    [uniswap_v3_math] is the class [TickLib].  [at_sqrt_price] is not called by
    the node and left out. *)

From S2P Require Import Prelude Ray Orders Samples Rules.
Open Scope Z_scope.

Abbreviation i32 := Z (only parsing).
Abbreviation I256 := Z (only parsing).
Abbreviation SqrtPriceX96 := Z (only parsing).

(** ** Signed words *)

Definition i32_wrap (z : Z) : i32 := (z + 2 ^ 31) mod 2 ^ 32 - 2 ^ 31.
Definition i128_wrap (z : Z) : Z := (z + 2 ^ 127) mod 2 ^ 128 - 2 ^ 127.
Definition i256_wrap (z : Z) : I256 := (z + 2 ^ 255) mod 2 ^ 256 - 2 ^ 255.
Definition i256_max : Z := 2 ^ 255 - 1.
Definition i256_min : Z := - 2 ^ 255.

(** [I256::from_raw], [saturating_add] and [saturating_sub]. *)
Definition i256_from_raw (u : U256) : I256 := if u <=? i256_max then u else u - 2 ^ 256.
Definition i256_sat (z : Z) : I256 := Z.max i256_min (Z.min z i256_max).

(** ** The tick mathematics

    What the swap relies on: the next initialised tick lies in the direction of
    the swap, the price of a tick is defined for the valid ticks and grows with
    the tick, the tick of a price is the greatest one whose price is not higher,
    and a swap step moves the price towards its target, takes no more than what
    remains, and takes all of it when it does not reach the target. *)
Class TickLib : Type := {
  MIN_TICK : i32;
  MAX_TICK : i32;
  get_sqrt_ratio_at_tick : i32 -> option U256;
  get_tick_at_sqrt_ratio : U256 -> option i32;
  next_initialized_tick_within_one_word : gmap Z U256 -> i32 -> i32 -> bool -> option (i32 * bool);
  compute_swap_step : U256 -> U256 -> u128 -> I256 -> Z -> option (U256 * U256 * U256 * U256);
  tick_range : - 2 ^ 31 < MIN_TICK /\ MIN_TICK <= MAX_TICK /\ MAX_TICK < 2 ^ 31 - 1;
  ratio_defined : forall t, is_Some (get_sqrt_ratio_at_tick t) <-> MIN_TICK <= t <= MAX_TICK;
  ratio_mono : forall t t' r r', t <= t' -> get_sqrt_ratio_at_tick t = Some r ->
    get_sqrt_ratio_at_tick t' = Some r' -> r <= r';
  tick_of_ratio : forall p t, get_tick_at_sqrt_ratio p = Some t ->
    MIN_TICK <= t <= MAX_TICK /\
    (forall r, get_sqrt_ratio_at_tick t = Some r -> r <= p) /\
    (forall r, get_sqrt_ratio_at_tick (t + 1) = Some r -> p <= r);
  next_tick_progress : forall bitmap tick spacing lte t init,
    next_initialized_tick_within_one_word bitmap tick spacing lte = Some (t, init) ->
    if lte then t <= tick else tick < t;
  step_price : forall p target liq rem fee q i o f,
    compute_swap_step p target liq rem fee = Some (q, i, o, f) ->
    Z.min p target <= q <= Z.max p target;
  step_amounts : forall p target liq rem fee q i o f,
    compute_swap_step p target liq rem fee = Some (q, i, o, f) ->
    0 <= i /\ 0 <= o /\ 0 <= f /\ (0 <= rem -> i + f <= rem) /\ (rem < 0 -> o <= - rem);
  step_consumed : forall p target liq rem fee q i o f,
    compute_swap_step p target liq rem fee = Some (q, i, o, f) -> q <> target ->
    (0 <= rem -> i + f = rem) /\ (rem < 0 -> o = - rem)
}.

Inductive PoolError :=
| DirectionDiverges
| OutOfLoadedTicks
| LiquidityUnderflow
| TickMath
| NotEnoughOutput
| NotEnoughInput.

(** ** Liquidity *)

Record TickInfo := {
  liquidity_gross : u128;
  liquidity_net : Z;
  initialized : bool
}.

Record BaselineLiquidity := {
  base_tick_spacing : i32;
  start_tick : i32;
  start_sqrt_price : SqrtPriceX96;
  start_liquidity : u128;
  base_initialized_ticks : gmap i32 TickInfo;
  base_tick_bitmap : gmap Z U256
}.

Record LiquidityAtPoint := {
  tick_spacing : i32;
  current_tick : i32;
  current_sqrt_price : SqrtPriceX96;
  current_liquidity : u128;
  max_tick_init : i32;
  min_tick_init : i32;
  initialized_ticks : gmap i32 TickInfo;
  tick_bitmap : gmap Z U256
}.

Definition set_tick (l : LiquidityAtPoint) (t : i32) : LiquidityAtPoint :=
  {| tick_spacing := tick_spacing l; current_tick := t;
     current_sqrt_price := current_sqrt_price l; current_liquidity := current_liquidity l;
     max_tick_init := max_tick_init l; min_tick_init := min_tick_init l;
     initialized_ticks := initialized_ticks l; tick_bitmap := tick_bitmap l |}.

Definition set_liquidity (l : LiquidityAtPoint) (q : u128) : LiquidityAtPoint :=
  {| tick_spacing := tick_spacing l; current_tick := current_tick l;
     current_sqrt_price := current_sqrt_price l; current_liquidity := q;
     max_tick_init := max_tick_init l; min_tick_init := min_tick_init l;
     initialized_ticks := initialized_ticks l; tick_bitmap := tick_bitmap l |}.

Definition set_sqrt_price (l : LiquidityAtPoint) (p : U256) : LiquidityAtPoint :=
  {| tick_spacing := tick_spacing l; current_tick := current_tick l;
     current_sqrt_price := p; current_liquidity := current_liquidity l;
     max_tick_init := max_tick_init l; min_tick_init := min_tick_init l;
     initialized_ticks := initialized_ticks l; tick_bitmap := tick_bitmap l |}.

(** [keys().min()] and [keys().max()]. *)
Definition list_min (l : list Z) : option Z :=
  match l with [] => None | x :: l' => Some (foldl Z.min x l') end.
Definition list_max (l : list Z) : option Z :=
  match l with [] => None | x :: l' => Some (foldl Z.max x l') end.

Lemma list_max_elem (l : list Z) x : list_max l = Some x -> x ∈ l.
Proof.
  destruct l as [|y l]; [done|]. cbn. intros [= <-]. revert y.
  induction l as [|z l IH]; cbn; intros y; [left|].
  destruct (Z.max_spec y z) as [[_ ->]|[_ ->]]; specialize (IH z) as Hz; specialize (IH y) as Hy;
    set_solver.
Qed.

(** ** Swaps *)

Record PoolSwap := {
  liquidity : LiquidityAtPoint;
  target_price : option SqrtPriceX96;
  target_amount : I256;
  direction : bool;
  swap_fee : Z
}.

Record PoolSwapStep := {
  end_tick : i32;
  step_init : bool;
  step_liquidity : u128;
  d_t0 : u128;
  d_t1 : u128
}.

Record PoolSwapResult := {
  result_fee : Z;
  start_price : SqrtPriceX96;
  result_start_tick : i32;
  end_price : SqrtPriceX96;
  result_end_tick : i32;
  total_d_t0 : u128;
  total_d_t1 : u128;
  steps : list PoolSwapStep;
  end_liquidity : LiquidityAtPoint
}.

(** The variables of the swap loop. *)
Record SwapState := {
  loop_liquidity : LiquidityAtPoint;
  amount_remaining : I256;
  sqrt_price_x96 : U256;
  loop_steps : list PoolSwapStep
}.

Section pool.
Context `{HI : HashIter} `{AL : ArithLib} `{OH : OrderHasher} `{SR : SqrtRatios} `{TL : TickLib}.
Implicit Types (l : LiquidityAtPoint) (s : SwapState) (r : PoolSwapResult).

Definition current (b : BaselineLiquidity) : LiquidityAtPoint :=
  {| tick_spacing := base_tick_spacing b;
     current_tick := start_tick b;
     current_sqrt_price := start_sqrt_price b;
     current_liquidity := start_liquidity b;
     max_tick_init := default MAX_TICK (list_max (hm_keys (base_initialized_ticks b)));
     min_tick_init := default MIN_TICK (list_min (hm_keys (base_initialized_ticks b)));
     initialized_ticks := base_initialized_ticks b;
     tick_bitmap := base_tick_bitmap b |}.

Definition min_sqrt_price l : outcome SqrtPriceX96 :=
  unwrap (get_sqrt_ratio_at_tick (i32_wrap (min_tick_init l + 1))).
Definition max_sqrt_price l : outcome SqrtPriceX96 :=
  unwrap (get_sqrt_ratio_at_tick (i32_wrap (max_tick_init l - 1))).

Definition next_tick l (dir : bool) : option (i32 * bool) :=
  next_initialized_tick_within_one_word (tick_bitmap l) (current_tick l) (tick_spacing l) dir.

Definition get_to_next_initialized_tick_within_one_word l (dir : bool)
    : result (i32 * u128 * bool) PoolError :=
  match next_tick l dir with
  | None => Err TickMath
  | Some (tick_next, init) =>
      if (max_tick_init l <? tick_next) || (tick_next <? min_tick_init l)
      then Err OutOfLoadedTicks
      else Ok (tick_next, current_liquidity l, init)
  end.

(** Crossing an initialised tick adds its net liquidity, with the sign of the
    direction. *)
Definition cross_tick l (tick_next : i32) (dir : bool) : result LiquidityAtPoint PoolError :=
  let liq_net := match initialized_ticks l !! tick_next with
    | Some info => if dir then i128_wrap (- liquidity_net info) else liquidity_net info
    | None => 0
    end in
  if liq_net <? 0 then
    if current_liquidity l <? Z.abs liq_net then Err LiquidityUnderflow
    else Ok (set_liquidity l (current_liquidity l - Z.abs liq_net))
  else Ok (set_liquidity l (u128_wrap (current_liquidity l + Z.abs liq_net))).

Definition move_to_next_tick l (sqrt_price : U256) (dir full_range sqrt_moved : bool)
    : result LiquidityAtPoint PoolError :=
  match next_tick l dir with
  | None => Err TickMath
  | Some (tick_next, init) =>
      if full_range then
        match (if init then cross_tick l tick_next dir else Ok l) with
        | Err e => Err e
        | Ok l' => Ok (set_tick l' (if dir then i32_wrap (tick_next - 1) else tick_next))
        end
      else if sqrt_moved then
        match get_tick_at_sqrt_ratio sqrt_price with
        | None => Err TickMath
        | Some t => Ok (set_tick l t)
        end
      else Ok l
  end.

(** [sqrt_price_limit_x96]. *)
Definition price_limit (ps : PoolSwap) : U256 :=
  match target_price ps with
  | Some p => p
  | None => if direction ps then MIN_SQRT_RATIO + 1 else MAX_SQRT_RATIO - 1
  end.

(** What a step leaves to swap, from what it took, paid out and charged. *)
Definition remaining_after (exact_input : bool) (rem : I256) (amount_in amount_out fee_amount : U256)
    : I256 :=
  if exact_input then
    i256_sat (i256_sat (rem - i256_from_raw amount_in) - i256_from_raw fee_amount)
  else i256_sat (rem + i256_from_raw amount_out).

(** The body of the loop. *)
Definition swap_step (limit : U256) (dir exact_input : bool) (fee : Z) s
    : outcome (result SwapState PoolError) :=
  match get_to_next_initialized_tick_within_one_word (loop_liquidity s) dir with
  | Err e => Ret (Err e)
  | Ok (next, liq, init) =>
      match get_sqrt_ratio_at_tick next with
      | None => Ret (Err TickMath)
      | Some price_next =>
          let target :=
            if (dir && (price_next <? limit)) || (negb dir && (limit <? price_next))
            then limit else price_next in
          match compute_swap_step (sqrt_price_x96 s) target liq (amount_remaining s) fee with
          | None => Ret (Err TickMath)
          | Some (price, amount_in, amount_out, fee_amount) =>
              let rem := remaining_after exact_input (amount_remaining s) amount_in amount_out
                fee_amount in
              q_in ← uint_to_u128 amount_in;
              q_out ← uint_to_u128 amount_out;
              match move_to_next_tick (loop_liquidity s) price dir (price =? price_next)
                (negb (price =? sqrt_price_x96 s)) with
              | Err e => Ret (Err e)
              | Ok l' =>
                  Ret (Ok {| loop_liquidity := l'; amount_remaining := rem;
                             sqrt_price_x96 := price;
                             loop_steps := loop_steps s ++
                               [{| end_tick := next; step_init := init; step_liquidity := liq;
                                   d_t0 := if dir then q_in else q_out;
                                   d_t1 := if dir then q_out else q_in |}] |})
              end
          end
      end
  end.

Definition swap_done (limit : U256) s : bool :=
  (amount_remaining s =? 0) || (sqrt_price_x96 s =? limit).

(** The loop, [None] when the fuel is used up. *)
Fixpoint swap_loop (fuel : nat) (limit : U256) (dir exact_input : bool) (fee : Z) s
    : option (outcome (result SwapState PoolError)) :=
  if swap_done limit s then Some (Ret (Ok s))
  else match fuel with
  | O => None
  | S fuel' =>
      match swap_step limit dir exact_input fee s with
      | Ret (Ok s') => swap_loop fuel' limit dir exact_input fee s'
      | r => Some r
      end
  end.

(** Every round but the last moves to another tick between the current one and
    the end of the loaded range. *)
Definition ticks_ahead l (dir : bool) : nat :=
  Z.to_nat (if dir then current_tick l - min_tick_init l + 1
            else max_tick_init l - current_tick l).

Definition swap_fuel l (dir : bool) : nat := S (ticks_ahead l dir).

Definition initial_state (ps : PoolSwap) : SwapState :=
  {| loop_liquidity := liquidity ps; amount_remaining := target_amount ps;
     sqrt_price_x96 := current_sqrt_price (liquidity ps); loop_steps := [] |}.

(** [steps.iter().fold(...)]. *)
Definition total (f : PoolSwapStep -> u128) (l : list PoolSwapStep) : u128 :=
  foldl (fun a b => u128_wrap (a + b)) 0 (f <$> l).

Definition swap_result (ps : PoolSwap) s : PoolSwapResult :=
  let l := set_sqrt_price (loop_liquidity s) (sqrt_price_x96 s) in
  {| result_fee := swap_fee ps;
     start_price := current_sqrt_price (liquidity ps);
     result_start_tick := current_tick (liquidity ps);
     end_price := current_sqrt_price l;
     result_end_tick := current_tick l;
     total_d_t0 := total d_t0 (loop_steps s);
     total_d_t1 := total d_t1 (loop_steps s);
     steps := loop_steps s;
     end_liquidity := l |}.

Definition swap_run (ps : PoolSwap) : option (outcome (result SwapState PoolError)) :=
  swap_loop (swap_fuel (liquidity ps) (direction ps)) (price_limit ps) (direction ps)
    (0 <? target_amount ps) (swap_fee ps) (initial_state ps).

Definition swap (ps : PoolSwap) : outcome (result PoolSwapResult PoolError) :=
  if direction ps &&
     match target_price ps with
     | Some p => current_sqrt_price (liquidity ps) <? p
     | None => false
     end
  then Ret (Err DirectionDiverges)
  else
    match swap_run ps with
    | Some (Ret (Ok s)) => Ret (Ok (swap_result ps s))
    | Some (Ret (Err e)) => Ret (Err e)
    | Some Panic => Panic
    | None => Panic
    end.

Definition swap_to_amount r (amount : I256) (dir : bool) : outcome (result PoolSwapResult PoolError) :=
  swap {| liquidity := end_liquidity r; target_price := None; direction := dir;
          target_amount := amount; swap_fee := 0 |}.

Definition zero_for_one r : bool := end_price r <? start_price r.
Definition t0_signed r : I256 := if zero_for_one r then - total_d_t0 r else total_d_t0 r.
Definition t1_signed r : I256 := if zero_for_one r then total_d_t1 r else - total_d_t1 r.
Definition input r : u128 := if zero_for_one r then total_d_t0 r else total_d_t1 r.
Definition output r : u128 := if zero_for_one r then total_d_t1 r else total_d_t0 r.

(** The amount that takes the price to the limit, found by one swap, is the input
    of a second one. *)
Definition swap_to_price r (limit : SqrtPriceX96) : outcome (result PoolSwapResult PoolError) :=
  let dir := limit <=? end_price r in
  res ← swap {| liquidity := end_liquidity r; target_price := Some limit; direction := dir;
                target_amount := i256_max; swap_fee := 0 |};
  match res with
  | Err e => Ret (Err e)
  | Ok p => swap_to_amount r (if dir then total_d_t0 p else total_d_t1 p) dir
  end.

(** ** The pool of a block *)

Record BaselinePoolState := {
  pool_liquidity : BaselineLiquidity;
  pool_block : u64;
  pool_fee : Z
}.

Definition noop (b : BaselinePoolState) : PoolSwapResult :=
  let l := pool_liquidity b in
  {| result_fee := pool_fee b;
     start_price := start_sqrt_price l; result_start_tick := start_tick l;
     end_price := start_sqrt_price l; result_end_tick := start_tick l;
     total_d_t0 := 0; total_d_t1 := 0; steps := [];
     end_liquidity := current l |}.

Definition swap_current_with_amount (b : BaselinePoolState) (amount : I256) (dir : bool)
    : outcome (result PoolSwapResult PoolError) :=
  swap {| liquidity := current (pool_liquidity b); target_amount := amount; target_price := None;
          direction := dir; swap_fee := 0 |}.

(** ** The reward of a top-of-block order *)

Definition checked_sub (a b : u128) (e : PoolError) : result u128 PoolError :=
  if a <? b then Err e else Ok (a - b).

(** The swap of a bid, which takes the whole input; what it gives beyond the
    quantity of the order is the reward. *)
Definition bid_reward (b : BaselinePoolState) (quantity_in quantity_out : u128)
    : outcome (result (PoolSwapResult * u128) PoolError) :=
  res ← swap_current_with_amount b quantity_in false;
  Ret match res with
  | Err e => Err e
  | Ok r => match checked_sub (total_d_t0 r) quantity_out NotEnoughOutput with
            | Ok leftover => Ok (r, leftover)
            | Err e => Err e
            end
  end.

(** The input an ask needs for its output; the rest of it is the reward. *)
Definition ask_cost (b : BaselinePoolState) (quantity_in quantity_out : u128)
    : outcome (result (u128 * u128) PoolError) :=
  res ← swap_current_with_amount b (- quantity_out) true;
  Ret match res with
  | Err e => Err e
  | Ok r => match checked_sub quantity_in (total_d_t0 r) NotEnoughInput with
            | Ok leftover => Ok (total_d_t0 r, leftover)
            | Err e => Err e
            end
  end.

Definition calc_vec_and_reward (tob : OrderWithStorageData TopOfBlockOrder) (b : BaselinePoolState)
    : outcome (result (PoolSwapResult * u128) PoolError) :=
  let t := order tob in
  if is_bid tob then bid_reward b (tob_quantity_in t) (tob_quantity_out t)
  else
    c ← ask_cost b (tob_quantity_in t) (tob_quantity_out t);
    match c with
    | Err e => Ret (Err e)
    | Ok (cost, leftover) =>
        res ← swap_current_with_amount b cost true;
        Ret match res with Err e => Err e | Ok r => Ok (r, leftover) end
    end.

Definition get_auction_bid (t : TopOfBlockOrder) (b : BaselinePoolState)
    : outcome (result u128 PoolError) :=
  if raw_is_bid t then
    res ← bid_reward b (tob_quantity_in t) (tob_quantity_out t);
    Ret match res with Err e => Err e | Ok (_, leftover) => Ok leftover end
  else
    res ← ask_cost b (tob_quantity_in t) (tob_quantity_out t);
    Ret match res with Err e => Err e | Ok (_, leftover) => Ok leftover end.

(** ** The loop *)

(** The target of one step. *)
Definition step_target (limit price_next : U256) (dir : bool) : U256 :=
  if (dir && (price_next <? limit)) || (negb dir && (limit <? price_next))
  then limit else price_next.

Lemma swap_step_inv limit dir exact fee s s' :
  swap_step limit dir exact fee s = Ret (Ok s') ->
  exists next init price_next i o f,
    next_tick (loop_liquidity s) dir = Some (next, init) /\
    min_tick_init (loop_liquidity s) <= next <= max_tick_init (loop_liquidity s) /\
    get_sqrt_ratio_at_tick next = Some price_next /\
    compute_swap_step (sqrt_price_x96 s) (step_target limit price_next dir)
      (current_liquidity (loop_liquidity s)) (amount_remaining s) fee
      = Some (sqrt_price_x96 s', i, o, f) /\
    amount_remaining s' = remaining_after exact (amount_remaining s) i o f /\
    move_to_next_tick (loop_liquidity s) (sqrt_price_x96 s') dir (sqrt_price_x96 s' =? price_next)
      (negb (sqrt_price_x96 s' =? sqrt_price_x96 s)) = Ok (loop_liquidity s') /\
    exists q_in q_out, uint_to_u128 i = Ret q_in /\ uint_to_u128 o = Ret q_out /\
      loop_steps s' = loop_steps s ++
        [{| end_tick := next; step_init := init;
            step_liquidity := current_liquidity (loop_liquidity s);
            d_t0 := if dir then q_in else q_out; d_t1 := if dir then q_out else q_in |}].
Proof.
  unfold swap_step, get_to_next_initialized_tick_within_one_word, step_target.
  destruct (next_tick _ dir) as [[next init]|] eqn:Hn; [|done].
  destruct (Z.ltb_spec (max_tick_init (loop_liquidity s)) next); [done|].
  destruct (Z.ltb_spec next (min_tick_init (loop_liquidity s))); [done|]. cbn [orb].
  destruct (get_sqrt_ratio_at_tick next) as [price_next|] eqn:Hr; [|done].
  destruct (compute_swap_step _ _ _ _ _) as [[[[price i] o] f]|] eqn:Hc; [|done].
  intros (q_in & Hi & H')%bind_Ret. apply bind_Ret in H' as (q_out & Ho & H').
  destruct (move_to_next_tick _ _ _ _ _) as [l'|] eqn:Hm; [|done].
  injection H' as <-. cbn. exists next, init, price_next, i, o, f.
  repeat (split; [done || lia|]). exists q_in, q_out. done.
Qed.

(** What a move keeps. *)
Definition same_ticks l l' : Prop :=
  tick_spacing l' = tick_spacing l /\ tick_bitmap l' = tick_bitmap l /\
  initialized_ticks l' = initialized_ticks l /\
  min_tick_init l' = min_tick_init l /\ max_tick_init l' = max_tick_init l.

Lemma move_same_ticks l p dir full moved l' :
  move_to_next_tick l p dir full moved = Ok l' -> same_ticks l l'.
Proof.
  unfold move_to_next_tick, cross_tick, same_ticks.
  destruct (next_tick l dir) as [[t init]|]; [|done].
  intros H. repeat case_match; simplify_eq/=; done.
Qed.

(** Where a move ends, and with which liquidity. *)
Lemma move_full l p dir moved l' t init :
  next_tick l dir = Some (t, init) -> move_to_next_tick l p dir true moved = Ok l' ->
  current_tick l' = (if dir then i32_wrap (t - 1) else t) /\
  (init = false -> current_liquidity l' = current_liquidity l).
Proof.
  unfold move_to_next_tick. intros ->.
  destruct init; cbn; [|by intros [= <-]].
  unfold cross_tick. intros H. repeat case_match; simplify_eq/=; done.
Qed.

Lemma move_within l p dir moved l' :
  move_to_next_tick l p dir false moved = Ok l' ->
  current_liquidity l' = current_liquidity l /\
  (current_tick l' = current_tick l /\ moved = false \/
   get_tick_at_sqrt_ratio p = Some (current_tick l') /\ moved = true).
Proof.
  unfold move_to_next_tick. destruct (next_tick l dir) as [[t init]|]; [|done].
  destruct moved; [|by intros [= <-]; auto].
  destruct (get_tick_at_sqrt_ratio p) eqn:E; [|done]. intros [= <-]. auto.
Qed.

(** ** The amounts of a step *)

(** What remains has the sign the swap started with. *)
Definition rem_ok (exact : bool) (rem : I256) : Prop :=
  if exact then 0 <= rem <= i256_max else i256_min < rem <= 0.

Lemma remaining_exact rem i o f : 0 <= i -> 0 <= f -> i + f <= rem -> rem <= i256_max ->
  remaining_after true rem i o f = rem - i - f.
Proof.
  intros. unfold remaining_after, i256_from_raw, i256_sat.
  assert (i256_min < 0 < i256_max) by (unfold i256_min, i256_max; lia).
  rewrite !(proj2 (Z.leb_le _ _)) by lia. lia.
Qed.

Lemma remaining_out rem i o f : 0 <= o <= - rem -> i256_min < rem ->
  remaining_after false rem i o f = rem + o.
Proof.
  intros. unfold remaining_after, i256_from_raw, i256_sat.
  assert (o <= i256_max) by (unfold i256_min, i256_max in *; lia).
  rewrite (proj2 (Z.leb_le _ _)) by lia. lia.
Qed.

(** A step takes no more than what remains, and ends the swap unless it reaches
    its target. *)
Lemma step_remaining limit dir exact fee s s' :
  swap_step limit dir exact fee s = Ret (Ok s') -> rem_ok exact (amount_remaining s) ->
  amount_remaining s <> 0 ->
  exists next init price_next q_in q_out,
    next_tick (loop_liquidity s) dir = Some (next, init) /\
    get_sqrt_ratio_at_tick next = Some price_next /\
    rem_ok exact (amount_remaining s') /\ 0 <= q_in /\ 0 <= q_out /\
    (if exact then amount_remaining s' <= amount_remaining s - q_in
     else amount_remaining s' = amount_remaining s + q_out) /\
    (amount_remaining s' = 0 \/ sqrt_price_x96 s' = step_target limit price_next dir) /\
    loop_steps s' = loop_steps s ++
      [{| end_tick := next; step_init := init;
          step_liquidity := current_liquidity (loop_liquidity s);
          d_t0 := if dir then q_in else q_out; d_t1 := if dir then q_out else q_in |}].
Proof.
  intros (next & init & pn & i & o & f & Hn & Hb & Hr & Hc & Hrem & _ & qi & qo & Hi & Ho & Hs)%swap_step_inv
    Hok Hne.
  destruct (step_amounts _ _ _ _ _ _ _ _ _ Hc) as (H1 & H2 & H3 & H4 & H5).
  assert (qi = i) as ->.
  { destruct (decide (i <= u128_max)); [rewrite uint_to_u128_fits in Hi by lia; congruence|].
    rewrite uint_to_u128_large in Hi by lia. done. }
  assert (qo = o) as ->.
  { destruct (decide (o <= u128_max)); [rewrite uint_to_u128_fits in Ho by lia; congruence|].
    rewrite uint_to_u128_large in Ho by lia. done. }
  exists next, init, pn, i, o. do 2 (split; [done|]).
  assert (sqrt_price_x96 s' <> step_target limit pn dir ->
    (0 <= amount_remaining s -> i + f = amount_remaining s) /\
    (amount_remaining s < 0 -> o = - amount_remaining s)) as Hall.
  { intros Hq. exact (step_consumed _ _ _ _ _ _ _ _ _ Hc Hq). }
  unfold rem_ok in *. destruct exact; rewrite Hrem.
  - rewrite remaining_exact by lia. do 3 (split; [lia|]). split; [lia|]. split; [|done].
    destruct (decide (sqrt_price_x96 s' = step_target limit pn dir)); [by right|].
    left. destruct Hall as [Ha _]; [done|]. specialize (Ha ltac:(lia)). lia.
  - rewrite remaining_out by lia. do 3 (split; [lia|]). split; [lia|]. split; [|done].
    destruct (decide (sqrt_price_x96 s' = step_target limit pn dir)); [by right|].
    left. destruct Hall as [_ Ha]; [done|]. specialize (Ha ltac:(lia)). lia.
Qed.

(** ** Termination *)

(** The loaded ticks are ticks of the pool. *)
Definition ticks_ok l : Prop := MIN_TICK <= min_tick_init l /\ max_tick_init l <= MAX_TICK.

Lemma i32_wrap_small z : - 2 ^ 31 <= z < 2 ^ 31 -> i32_wrap z = z.
Proof. unfold i32_wrap. intros. rewrite Z.mod_small; lia. Qed.

Lemma step_target_cases limit pn dir :
  step_target limit pn dir = limit \/ step_target limit pn dir = pn.
Proof. unfold step_target. case_match; auto. Qed.

Lemma same_ticks_ok l l' : same_ticks l l' -> ticks_ok l -> ticks_ok l'.
Proof. unfold ticks_ok. intros (_ & _ & _ & -> & ->). done. Qed.

(** The tick a full step moves to. *)
Lemma full_step_tick l p dir moved l' next init : ticks_ok l ->
  next_tick l dir = Some (next, init) -> min_tick_init l <= next <= max_tick_init l ->
  move_to_next_tick l p dir true moved = Ok l' ->
  current_tick l' = (if dir then next - 1 else next) /\
  (if dir then next <= current_tick l else current_tick l < next).
Proof.
  intros [Hmin Hmax] Hn Hb [Ht _]%(move_full _ _ _ _ _ _ _ Hn).
  split; [|exact (next_tick_progress _ _ _ _ _ _ Hn)].
  rewrite Ht. destruct dir; [|done]. apply i32_wrap_small. pose proof tick_range. lia.
Qed.

Lemma step_progress limit dir exact fee s s' :
  swap_step limit dir exact fee s = Ret (Ok s') -> ticks_ok (loop_liquidity s) ->
  rem_ok exact (amount_remaining s) -> amount_remaining s <> 0 ->
  ticks_ok (loop_liquidity s') /\ rem_ok exact (amount_remaining s') /\
  (swap_done limit s' = true \/
   (ticks_ahead (loop_liquidity s') dir < ticks_ahead (loop_liquidity s) dir)%nat).
Proof.
  intros Hs Hok Hrem Hne.
  destruct (step_remaining _ _ _ _ _ _ Hs Hrem Hne) as
    (next & init & pn & qi & qo & Hn & Hr & Hrem' & _ & _ & _ & Hend & _).
  apply swap_step_inv in Hs as (next' & init' & pn' & i & o & f & Hn' & Hb & Hr' & _ & _ & Hm & _).
  rewrite Hn in Hn'. injection Hn' as <- <-. rewrite Hr in Hr'. injection Hr' as <-.
  pose proof (move_same_ticks _ _ _ _ _ _ Hm) as Hsame.
  split; [by eapply same_ticks_ok|]. split; [done|]. unfold swap_done.
  destruct Hend as [->|Hq]; [by left|].
  destruct (step_target_cases limit pn dir) as [E|E]; rewrite E in Hq.
  { left. rewrite Hq, Z.eqb_refl. by rewrite orb_true_r. }
  right. rewrite Hq, Z.eqb_refl in Hm.
  destruct (full_step_tick _ _ _ _ _ _ _ Hok Hn Hb Hm) as [Ht Hlt].
  unfold ticks_ahead. destruct Hsame as (_ & _ & _ & -> & ->). rewrite Ht. destruct dir; lia.
Qed.

Lemma swap_loop_total fuel limit dir exact fee s :
  ticks_ok (loop_liquidity s) -> rem_ok exact (amount_remaining s) ->
  (ticks_ahead (loop_liquidity s) dir < fuel)%nat ->
  is_Some (swap_loop fuel limit dir exact fee s).
Proof.
  revert s. induction fuel as [|fuel IH]; intros s Hok Hrem Hf; [lia|]. cbn [swap_loop].
  destruct (swap_done limit s) eqn:Hd; [done|].
  apply orb_false_iff in Hd as [Hd _]. apply Z.eqb_neq in Hd.
  destruct (swap_step limit dir exact fee s) as [[s'|]|] eqn:Hs; [|done..].
  destruct (step_progress _ _ _ _ _ _ Hs Hok Hrem Hd) as (Hok' & Hrem' & [Hdone|Hlt]).
  - destruct fuel; cbn [swap_loop]; by rewrite Hdone.
  - apply IH; [done..|lia].
Qed.

Lemma target_rem_ok z : i256_min < z <= i256_max -> rem_ok (0 <? z) z.
Proof. unfold rem_ok. intros. destruct (Z.ltb_spec 0 z); lia. Qed.

(** C35. A swap ends: whatever the ticks, the prices and the amount, the loop runs at
    most once per tick between the current one and the end of the loaded range. *)
Theorem swap_terminates ps (Hok : ticks_ok (liquidity ps))
    (Ha : i256_min < target_amount ps <= i256_max) :
  is_Some (swap_run ps).
Proof. apply swap_loop_total; [done|by apply target_rem_ok|]. cbn. unfold swap_fuel. lia. Qed.

(** ** What a swap does *)

(** The price lies in its tick, or on the edge that the swap just crossed. *)
Definition in_tick (t : i32) (p : U256) : Prop :=
  MIN_TICK - 1 <= t <= MAX_TICK /\
  (forall q, get_sqrt_ratio_at_tick t = Some q -> q <= p) /\
  (forall q, get_sqrt_ratio_at_tick (t + 1) = Some q -> p <= q).

(** From [p] towards [limit], in the direction of the swap. *)
Definition towards (dir : bool) (limit p : U256) : Prop := if dir then limit <= p else p <= limit.

Lemma target_towards limit dir s next init pn : ticks_ok (loop_liquidity s) ->
  in_tick (current_tick (loop_liquidity s)) (sqrt_price_x96 s) ->
  next_tick (loop_liquidity s) dir = Some (next, init) ->
  min_tick_init (loop_liquidity s) <= next <= max_tick_init (loop_liquidity s) ->
  get_sqrt_ratio_at_tick next = Some pn -> towards dir limit (sqrt_price_x96 s) ->
  towards dir limit (step_target limit pn dir) /\
  towards dir (step_target limit pn dir) (sqrt_price_x96 s).
Proof.
  intros [Hmin Hmax] (Hr & Hlo & Hhi) Hn Hb Hpn Hl.
  pose proof (next_tick_progress _ _ _ _ _ _ Hn) as Hprog.
  set (t := current_tick (loop_liquidity s)) in *. unfold towards, step_target in *.
  destruct dir; cbn [andb orb negb].
  - destruct (proj2 (ratio_defined t)) as [q Hq]; [lia|].
    pose proof (ratio_mono _ _ _ _ Hprog Hpn Hq). specialize (Hlo _ Hq).
    destruct (Z.ltb_spec pn limit); cbn [orb]; lia.
  - destruct (proj2 (ratio_defined (t + 1))) as [q Hq]; [lia|].
    pose proof (ratio_mono (t + 1) next q pn ltac:(lia) Hq Hpn). specialize (Hhi _ Hq).
    destruct (Z.ltb_spec limit pn); lia.
Qed.

Lemma in_tick_full l (dir : bool) next pn : ticks_ok l -> min_tick_init l <= next <= max_tick_init l ->
  get_sqrt_ratio_at_tick next = Some pn -> in_tick (if dir then next - 1 else next) pn.
Proof.
  intros [Hmin Hmax] Hb Hpn. unfold in_tick. destruct dir.
  - split; [lia|]. split; intros q Hq.
    + apply (ratio_mono (next - 1) next); [lia|done..].
    + rewrite Z.sub_add in Hq. assert (pn = q) by congruence. lia.
  - split; [lia|]. split; intros q Hq.
    + assert (pn = q) by congruence. lia.
    + apply (ratio_mono next (next + 1)); [lia|done..].
Qed.

Definition step_in (dir : bool) (x : PoolSwapStep) : u128 := if dir then d_t0 x else d_t1 x.
Definition step_out (dir : bool) (x : PoolSwapStep) : u128 := if dir then d_t1 x else d_t0 x.

(** The liquidity changes only behind a step that ends at an initialised tick. *)
Definition chained (l : list PoolSwapStep) (liq : u128) : Prop :=
  forall i x, l !! i = Some x -> step_init x = false ->
    default liq (step_liquidity <$> l !! S i) = step_liquidity x.

Definition amounts_ok (x : PoolSwapStep) : Prop :=
  0 <= d_t0 x <= u128_max /\ 0 <= d_t1 x <= u128_max.

Record swap_inv (dir exact : bool) (limit start : U256) (target : I256) (l0 : LiquidityAtPoint) s
    : Prop := {
  inv_ticks : ticks_ok (loop_liquidity s);
  inv_in : in_tick (current_tick (loop_liquidity s)) (sqrt_price_x96 s);
  inv_limit : towards dir limit (sqrt_price_x96 s);
  inv_start : towards dir (sqrt_price_x96 s) start;
  inv_rem : rem_ok exact (amount_remaining s);
  inv_amount : if exact then zsum (step_in dir <$> loop_steps s) + amount_remaining s <= target
    else amount_remaining s = target + zsum (step_out dir <$> loop_steps s);
  inv_chained : chained (loop_steps s) (current_liquidity (loop_liquidity s));
  inv_steps : Forall amounts_ok (loop_steps s);
  inv_same : same_ticks l0 (loop_liquidity s)
}.

Lemma chained_snoc (xs : list PoolSwapStep) liq x liq' : chained xs liq -> step_liquidity x = liq ->
  (step_init x = false -> liq' = step_liquidity x) -> chained (xs ++ [x]) liq'.
Proof.
  intros Hl Hx Hl' i y Hy Hinit. destruct (decide (i < length xs)%nat) as [Hi|Hi].
  - rewrite lookup_app_l in Hy by done. specialize (Hl i y Hy Hinit).
    destruct (decide (S i < length xs)%nat).
    + rewrite lookup_app_l by done. by destruct (lookup_lt_is_Some_2 xs (S i)) as [z Hz]; rewrite ?Hz in *.
    + rewrite lookup_ge_None_2 in Hl by lia. cbn in Hl.
      rewrite lookup_app_r by lia. replace (S i - length xs)%nat with 0%nat by lia. cbn. congruence.
  - assert (i = length xs) as -> by (apply lookup_lt_Some in Hy; rewrite length_app in Hy; cbn in Hy; lia).
    rewrite lookup_app_r, Nat.sub_diag in Hy by done. cbn in Hy. injection Hy as <-.
    rewrite lookup_ge_None_2 by (rewrite length_app; cbn; lia). cbn. by apply Hl'.
Qed.

Lemma same_ticks_trans l l' l'' : same_ticks l l' -> same_ticks l' l'' -> same_ticks l l''.
Proof. unfold same_ticks. intros (-> & -> & -> & -> & ->) (-> & -> & -> & -> & ->). done. Qed.

Lemma uint_to_u128_inv z q : 0 <= z -> uint_to_u128 z = Ret q -> q = z /\ z <= u128_max.
Proof.
  intros Hz Hq. destruct (decide (z <= u128_max)).
  - rewrite uint_to_u128_fits in Hq by lia. split; [congruence|done].
  - rewrite uint_to_u128_large in Hq by lia. done.
Qed.

(** The liquidity and the tick behind a step. *)
Lemma step_move limit dir exact fee s s' : swap_step limit dir exact fee s = Ret (Ok s') ->
  ticks_ok (loop_liquidity s) -> in_tick (current_tick (loop_liquidity s)) (sqrt_price_x96 s) ->
  same_ticks (loop_liquidity s) (loop_liquidity s') /\
  in_tick (current_tick (loop_liquidity s')) (sqrt_price_x96 s') /\
  forall next init, next_tick (loop_liquidity s) dir = Some (next, init) -> init = false ->
    current_liquidity (loop_liquidity s') = current_liquidity (loop_liquidity s).
Proof.
  intros (next & init & pn & i & o & f & Hn & Hb & Hpn & Hc & _ & Hm & _)%swap_step_inv Hok Hin.
  split; [by eapply move_same_ticks|].
  destruct (Z.eqb_spec (sqrt_price_x96 s') pn) as [E|E].
  - destruct (full_step_tick _ _ _ _ _ _ _ Hok Hn Hb Hm) as [Ht _].
    split; [rewrite Ht, E; by eapply in_tick_full|].
    intros n' i' Hn'. rewrite Hn in Hn'. injection Hn' as <- <-.
    by apply (move_full _ _ _ _ _ _ _ Hn Hm).
  - apply move_within in Hm as [Hliq Hm]. split; [|by intros].
    destruct Hm as [[-> Hp]|[Hp _]].
    + apply negb_false_iff, Z.eqb_eq in Hp. by rewrite Hp.
    + apply tick_of_ratio in Hp as (H1 & H2 & H3). split; [lia|done].
Qed.

Lemma swap_inv_step dir exact limit start target l0 fee s s' :
  swap_inv dir exact limit start target l0 s -> amount_remaining s <> 0 ->
  swap_step limit dir exact fee s = Ret (Ok s') ->
  swap_inv dir exact limit start target l0 s'.
Proof.
  intros [Hok Hin Hl Hst Hrem Ham Hch Hsteps Hsame] Hne Hs.
  destruct (step_progress _ _ _ _ _ _ Hs Hok Hrem Hne) as (Hok' & Hrem' & _).
  destruct (step_move _ _ _ _ _ _ Hs Hok Hin) as (Hsame' & Hin' & Hliq).
  destruct (step_remaining _ _ _ _ _ _ Hs Hrem Hne) as
    (next & init & pn & qi & qo & Hn & Hr & _ & Hqi & Hqo & Hamt & _ & Hsteps').
  apply swap_step_inv in Hs as (n' & i' & p' & i & o & f & Hn' & Hb & Hr' & Hc & _ & _ & qi' & qo' & Hi & Ho & Hsteps'').
  rewrite Hn in Hn'. injection Hn' as <- <-. rewrite Hr in Hr'. injection Hr' as <-.
  destruct (step_amounts _ _ _ _ _ _ _ _ _ Hc) as (Hi0 & Ho0 & _).
  apply uint_to_u128_inv in Hi as [-> Hi]; [|done]. apply uint_to_u128_inv in Ho as [-> Ho]; [|done].
  rewrite Hsteps' in Hsteps''. apply app_inj_2 in Hsteps'' as [_ [= E1 E2]]; [|done].
  assert (qi = i /\ qo = o) as [-> ->] by (destruct dir; done).
  destruct (target_towards limit dir s next init pn Hok Hin Hn Hb Hr Hl) as [Ht1 Ht2].
  pose proof (step_price _ _ _ _ _ _ _ _ _ Hc) as Hq.
  assert (towards dir limit (sqrt_price_x96 s') /\ towards dir (sqrt_price_x96 s') start) as [? ?].
  { unfold towards in *. destruct dir; lia. }
  split; try done.
  - rewrite Hsteps', !fmap_app, !zsum_app. cbn. unfold step_in, step_out in *. cbn.
    destruct exact, dir; cbn in *; lia.
  - rewrite Hsteps'. apply (chained_snoc _ _ _ _ Hch); [done|]. cbn. intros Hinit.
    exact (Hliq _ _ Hn Hinit).
  - rewrite Hsteps'. apply Forall_app. split; [done|]. constructor; [|constructor].
    unfold amounts_ok. cbn. destruct dir; lia.
  - by eapply same_ticks_trans.
Qed.

Lemma swap_loop_inv dir exact limit start target l0 fee fuel s s' :
  swap_inv dir exact limit start target l0 s ->
  swap_loop fuel limit dir exact fee s = Some (Ret (Ok s')) ->
  swap_inv dir exact limit start target l0 s' /\ swap_done limit s' = true.
Proof.
  revert s. induction fuel as [|fuel IH]; intros s Hinv; cbn [swap_loop];
    destruct (swap_done limit s) eqn:Hd; try (by intros [= <-]).
  destruct (swap_step limit dir exact fee s) as [[s1|]|] eqn:Hs; [|done..].
  apply IH. eapply swap_inv_step; [done| |done].
  apply orb_false_iff in Hd as [Hd _]. by apply Z.eqb_neq.
Qed.

(** A point of the pool whose price lies in its tick. *)
Definition pool_ok l : Prop := ticks_ok l /\ in_tick (current_tick l) (current_sqrt_price l).

Lemma swap_spec ps r : swap ps = Ret (Ok r) -> pool_ok (liquidity ps) ->
  towards (direction ps) (price_limit ps) (current_sqrt_price (liquidity ps)) ->
  i256_min < target_amount ps <= i256_max ->
  exists s, swap_inv (direction ps) (0 <? target_amount ps) (price_limit ps)
      (current_sqrt_price (liquidity ps)) (target_amount ps) (liquidity ps) s /\
    swap_done (price_limit ps) s = true /\ r = swap_result ps s.
Proof.
  unfold swap. intros Hr [Hok Hin] Hl Ha. case_match; [done|].
  destruct (swap_run ps) as [[[s|]|]|] eqn:Hs; [|done..]. injection Hr as <-. exists s.
  enough (swap_inv (direction ps) (0 <? target_amount ps) (price_limit ps)
    (current_sqrt_price (liquidity ps)) (target_amount ps) (liquidity ps) (initial_state ps)) as Hi.
  { destruct (swap_loop_inv _ _ _ _ _ _ _ _ _ _ Hi Hs). done. }
  split; cbn; try done.
  - unfold towards. destruct (direction ps); lia.
  - by apply target_rem_ok.
  - destruct (0 <? target_amount ps); lia.
Qed.

Lemma zsum_amounts (f : PoolSwapStep -> u128) xs :
  (forall x, amounts_ok x -> 0 <= f x) -> Forall amounts_ok xs -> 0 <= zsum (f <$> xs).
Proof.
  intros Hf Hxs. apply zsum_nonneg. intros q (x & -> & Hx)%list_elem_of_fmap.
  apply Hf. by eapply Forall_forall in Hxs.
Qed.

Lemma total_eq (f : PoolSwapStep -> u128) xs : total f xs = u128_wrap (zsum (f <$> xs)).
Proof. apply (wrap_sum u128_wrap _ 0), u128_wrap_add. Qed.

Lemma total_le (f : PoolSwapStep -> u128) xs : 0 <= zsum (f <$> xs) ->
  0 <= total f xs <= zsum (f <$> xs).
Proof.
  intros. rewrite total_eq. unfold u128_wrap.
  split; [by apply Z.mod_pos_bound|by apply Z.mod_le].
Qed.

Lemma step_in_nonneg dir x : amounts_ok x -> 0 <= step_in dir x.
Proof. unfold amounts_ok, step_in. destruct dir; lia. Qed.

Lemma step_out_nonneg dir x : amounts_ok x -> 0 <= step_out dir x.
Proof. unfold amounts_ok, step_out. destruct dir; lia. Qed.

(** What goes in and comes out of a swap in its direction. *)
Definition taken (dir : bool) r : u128 := if dir then total_d_t0 r else total_d_t1 r.
Definition given (dir : bool) r : u128 := if dir then total_d_t1 r else total_d_t0 r.

(** C24. A swap moves the price in its direction and never past its limit.  With an
    exact input it takes no more than that; with an exact output it gives no more
    than that, and exactly that when it does not stop at the limit.  It ends at a
    price that lies in its tick, so that the next swap can start there. *)
Theorem swap_keeps_its_terms ps r (Hr : swap ps = Ret (Ok r)) (Hok : pool_ok (liquidity ps))
    (Hl : towards (direction ps) (price_limit ps) (current_sqrt_price (liquidity ps)))
    (Ha : - u128_max <= target_amount ps <= i256_max) :
  let dir := direction ps in
  pool_ok (end_liquidity r) /\ current_sqrt_price (end_liquidity r) = end_price r /\
  towards dir (price_limit ps) (end_price r) /\ towards dir (end_price r) (start_price r) /\
  (0 < target_amount ps -> 0 <= taken dir r <= target_amount ps) /\
  (target_amount ps < 0 -> 0 <= given dir r <= - target_amount ps /\
    (end_price r <> price_limit ps -> given dir r = - target_amount ps)).
Proof.
  assert (i256_min < - u128_max) by (unfold i256_min, u128_max; lia).
  destruct (swap_spec ps r Hr Hok Hl ltac:(lia)) as (s & Hinv & Hd & ->).
  destruct Hinv as [H1 H2 H3 H4 H5 H6 _ H8 _]. cbn.
  pose proof (zsum_amounts _ _ (step_in_nonneg (direction ps)) H8) as Hin.
  pose proof (zsum_amounts _ _ (step_out_nonneg (direction ps)) H8) as Hout.
  assert (taken (direction ps) (swap_result ps s) = total (step_in (direction ps)) (loop_steps s)) as E1
    by (unfold taken, step_in; by destruct (direction ps)).
  assert (given (direction ps) (swap_result ps s) = total (step_out (direction ps)) (loop_steps s)) as E2
    by (unfold given, step_out; by destruct (direction ps)).
  rewrite E1, E2. pose proof (total_le _ _ Hin). pose proof (total_le _ _ Hout).
  do 4 (split; [done|]). split; intros Hsign.
  - rewrite (proj2 (Z.ltb_lt 0 _)) in H5, H6 by done. unfold rem_ok in H5. lia.
  - rewrite (proj2 (Z.ltb_ge 0 _)) in H5, H6 by lia. unfold rem_ok in H5. split; [lia|].
    intros Hne. apply orb_true_iff in Hd as [Hd%Z.eqb_eq|Hd%Z.eqb_eq]; [|done].
    rewrite total_eq, u128_wrap_small; lia.
Qed.

(** ** The reward of a top-of-block order *)

(** A pool whose price is in its tick and inside the bounds of the pool. *)
Definition baseline_ok (b : BaselinePoolState) : Prop :=
  pool_ok (current (pool_liquidity b)) /\
  MIN_SQRT_RATIO < start_sqrt_price (pool_liquidity b) < MAX_SQRT_RATIO.

Lemma swap_amount_taken b amount dir r : baseline_ok b -> 0 <= amount <= u128_max ->
  swap_current_with_amount b amount dir = Ret (Ok r) -> 0 <= taken dir r <= amount.
Proof.
  intros [Hok Hp] Ha Hr. destruct (decide (amount = 0)) as [->|Hne].
  - unfold swap_current_with_amount, swap in Hr. rewrite andb_false_r in Hr.
    injection Hr as <-. by destruct dir.
  - assert (u128_max <= i256_max) by (unfold u128_max, i256_max; lia).
    apply (swap_keeps_its_terms _ _ Hr); cbn; [done| |unfold u128_max in *; lia|lia].
    unfold towards, price_limit. cbn. destruct dir; lia.
Qed.

Lemma checked_sub_Ok a b e q : checked_sub a b e = Ok q -> q = a - b /\ b <= a.
Proof. unfold checked_sub. destruct (Z.ltb_spec a b); [done|]. intros [= <-]. lia. Qed.

(** The reward that the matcher and the bundle compute with the swap of a
    top-of-block order is the bid of the order in the auction, and the swap leaves
    room for it: a bid gets its output and the reward from the pool for at most
    its input, an ask pays the pool and the reward with at most its input. *)
Theorem auction_bid_balances tob b r reward
    (Hr : calc_vec_and_reward tob b = Ret (Ok (r, reward))) (Hb : baseline_ok b)
    (Hside : is_bid tob = raw_is_bid (order tob))
    (Hq : 0 <= tob_quantity_in (order tob) <= u128_max) :
  get_auction_bid (order tob) b = Ret (Ok reward) /\ 0 <= reward /\
  if is_bid tob then
    total_d_t1 r <= tob_quantity_in (order tob) /\
    total_d_t0 r = tob_quantity_out (order tob) + reward
  else total_d_t0 r + reward <= tob_quantity_in (order tob).
Proof.
  unfold calc_vec_and_reward, get_auction_bid in *. rewrite <-Hside. destruct (is_bid tob).
  - rewrite Hr. split; [done|]. unfold bid_reward in Hr.
    apply bind_Ret in Hr as (res & Hs & Hr). destruct res as [r'|]; [|done].
    destruct (checked_sub _ _ _) eqn:Hc; [|done]. injection Hr as <- <-.
    apply checked_sub_Ok in Hc as [-> Hc].
    pose proof (swap_amount_taken _ _ _ _ Hb Hq Hs). unfold taken in *. lia.
  - apply bind_Ret in Hr as (c & Hc & Hr). rewrite Hc. destruct c as [[cost left]|]; [|done].
    apply bind_Ret in Hr as (res & Hs & Hr). destruct res as [r'|]; [|done]. injection Hr as -> ->.
    split; [done|]. unfold ask_cost in Hc. apply bind_Ret in Hc as (res & Hs' & Hc).
    destruct res as [r''|]; [|done]. destruct (checked_sub _ _ _) eqn:Hsub; [|done].
    injection Hc as <- <-. apply checked_sub_Ok in Hsub as [-> Hsub].
    assert (0 <= total_d_t0 r'') as Hpos.
    { unfold swap_current_with_amount, swap in Hs'. case_match; [done|].
      destruct (swap_run _) as [[[s|]|]|]; [|done..]. injection Hs' as <-. cbn.
      rewrite total_eq. by apply Z.mod_pos_bound. }
    assert (0 <= total_d_t0 r'' <= u128_max) as Hbound by lia.
    pose proof (swap_amount_taken _ _ _ _ Hb Hbound Hs). unfold taken in *. lia.
Qed.

(** What the donations of a swap rely on. *)
Lemma swap_chained ps r : swap ps = Ret (Ok r) -> pool_ok (liquidity ps) ->
  towards (direction ps) (price_limit ps) (current_sqrt_price (liquidity ps)) ->
  i256_min < target_amount ps <= i256_max ->
  chained (steps r) (current_liquidity (end_liquidity r)).
Proof.
  intros Hr Hok Hl Ha. destruct (swap_spec ps r Hr Hok Hl Ha) as (s & Hinv & _ & ->).
  exact (inv_chained _ _ _ _ _ _ _ Hinv).
Qed.
End pool.

(** ** A small pool

    Twenty-one ticks, prices that are linear in the tick, every tick a stop, and a
    swap that pays one token for the other. *)

Definition sample_ratio (t : i32) : option U256 :=
  if (-10 <=? t) && (t <=? 10) then Some (100 + 10 * t) else None.

Definition sample_tick (p : U256) : option i32 :=
  if (0 <=? p) && (p <=? 200) then Some ((p - 100) / 10) else None.

Definition sample_next (bitmap : gmap Z U256) (tick spacing : i32) (lte : bool) : option (i32 * bool) :=
  let t := if lte then tick else tick + 1 in
  Some (t, bool_decide (is_Some (bitmap !! t))).

Definition sample_step (p target : U256) (liq : u128) (rem : I256) (fee : Z)
    : option (U256 * U256 * U256 * U256) :=
  let full := Z.abs (p - target) * liq in
  let toward d := if target <=? p then p - d else p + d in
  if liq <? 0 then None
  else if 0 <=? rem then
    if full <=? rem then Some (target, full, full, 0)
    else Some (toward (rem / liq), rem / liq * liq, rem / liq * liq, rem - rem / liq * liq)
  else
    let d := (- rem + liq - 1) / liq in
    if full <=? - rem then Some (target, full, full, 0)
    else Some (toward d, d * liq, - rem, 0).

Lemma sample_ratio_eq t : -10 <= t <= 10 -> sample_ratio t = Some (100 + 10 * t).
Proof.
  intros H. unfold sample_ratio. by rewrite !(proj2 (Z.leb_le _ _)) by lia.
Qed.

Lemma sample_ratio_inv t p : sample_ratio t = Some p -> -10 <= t <= 10 /\ p = 100 + 10 * t.
Proof.
  unfold sample_ratio. destruct (Z.leb_spec (-10) t), (Z.leb_spec t 10); cbn; try done.
  intros [= <-]. lia.
Qed.

(** The two ways a step can end. *)
Lemma sample_step_cases p target liq rem fee q i o f :
  sample_step p target liq rem fee = Some (q, i, o, f) ->
  0 <= liq /\
  (q = target /\ i = Z.abs (p - target) * liq /\ o = i /\ f = 0 /\ i <= Z.abs rem \/
   exists d, 0 <= d <= Z.abs (p - target) /\ q = (if target <=? p then p - d else p + d) /\
     i = d * liq /\
     (0 <= rem /\ o = i /\ f = rem - i /\ i <= rem /\ d < Z.abs (p - target) \/
      rem < 0 /\ o = - rem /\ f = 0 /\ i < - rem + liq)).
Proof.
  unfold sample_step. destruct (Z.ltb_spec liq 0); [done|]. intros Hs. split; [done|].
  destruct (Z.leb_spec 0 rem).
  - destruct (Z.leb_spec (Z.abs (p - target) * liq) rem); injection Hs as <- <- <- <-; [left; lia|].
    assert (0 < liq) by nia.
    right. exists (rem / liq). pose proof (Z.div_mod rem liq). pose proof (Z.mod_pos_bound rem liq).
    pose proof (Z.div_pos rem liq). repeat split; nia.
  - destruct (Z.leb_spec (Z.abs (p - target) * liq) (- rem)); injection Hs as <- <- <- <-; [left; lia|].
    assert (0 < liq) by nia.
    right. set (d := (- rem + liq - 1) / liq). exists d.
    pose proof (Z.div_mod (- rem + liq - 1) liq). pose proof (Z.mod_pos_bound (- rem + liq - 1) liq).
    pose proof (Z.div_pos (- rem + liq - 1) liq). fold d in H2, H4. repeat split; nia.
Qed.

Lemma sample_ratio_defined t : is_Some (sample_ratio t) <-> -10 <= t <= 10.
Proof.
  split; [intros [p Hp]; by apply sample_ratio_inv in Hp as [H _]|].
  intros H. rewrite sample_ratio_eq by done. by eexists.
Qed.

Lemma sample_ratio_mono t t' p p' : t <= t' -> sample_ratio t = Some p ->
  sample_ratio t' = Some p' -> p <= p'.
Proof. intros Ht [_ ->]%sample_ratio_inv [_ ->]%sample_ratio_inv. lia. Qed.

Lemma sample_tick_spec p t : sample_tick p = Some t -> -10 <= t <= 10 /\
  (forall q, sample_ratio t = Some q -> q <= p) /\ (forall q, sample_ratio (t + 1) = Some q -> p <= q).
Proof.
  unfold sample_tick. destruct (Z.leb_spec 0 p), (Z.leb_spec p 200); cbn; try done. intros [= <-].
  pose proof (Z.div_mod (p - 100) 10 ltac:(lia)). pose proof (Z.mod_pos_bound (p - 100) 10 ltac:(lia)).
  split; [lia|]. split; intros q [_ ->]%sample_ratio_inv; lia.
Qed.

Lemma sample_next_progress bitmap tick spacing (lte : bool) t init :
  sample_next bitmap tick spacing lte = Some (t, init) -> if lte then t <= tick else tick < t.
Proof. unfold sample_next. destruct lte; intros [= <- _]; lia. Qed.

Definition sample_ticks : TickLib.
Proof.
  refine {|
    MIN_TICK := -10; MAX_TICK := 10; get_sqrt_ratio_at_tick := sample_ratio;
    get_tick_at_sqrt_ratio := sample_tick;
    next_initialized_tick_within_one_word := sample_next; compute_swap_step := sample_step;
    ratio_defined := sample_ratio_defined; ratio_mono := sample_ratio_mono;
    tick_of_ratio := sample_tick_spec; next_tick_progress := sample_next_progress
  |}.
  - lia.
  - intros p target liq rem fee q i o f (Hl & [(-> & _)|(d & Hd & -> & _)])%sample_step_cases; [lia|].
    destruct (Z.leb_spec target p); lia.
  - intros p target liq rem fee q i o f (Hl & [(-> & -> & -> & -> & Hr)|(d & Hd & -> & -> & H)])%sample_step_cases;
      [nia|]. destruct H as [(H1 & -> & -> & H4 & _)|(H1 & -> & -> & H4)]; nia.
  - intros p target liq rem fee q i o f (Hl & [(-> & _)|(d & Hd & Hq & -> & H)])%sample_step_cases Hne; [done|].
    destruct H as [(H1 & -> & -> & H4 & _)|(H1 & -> & -> & H4)]; lia.
Defined.

(** Liquidity 5 between ticks -4 and 4, at tick 0 and price 105. *)
Definition sample_liquidity : BaselineLiquidity :=
  {| base_tick_spacing := 1; start_tick := 0; start_sqrt_price := 105; start_liquidity := 5;
     base_initialized_ticks := {[ -4 := {| liquidity_gross := 5; liquidity_net := 5; initialized := true |};
                                  2 := {| liquidity_gross := 3; liquidity_net := 3; initialized := true |};
                                  4 := {| liquidity_gross := 8; liquidity_net := -8; initialized := true |} ]};
     base_tick_bitmap := {[ -4 := 1; 2 := 1; 4 := 1 ]} |}.

Definition sample_pool : BaselinePoolState :=
  {| pool_liquidity := sample_liquidity; pool_block := 7; pool_fee := 0 |}.

Definition sample_ratios : SqrtRatios := {| MIN_SQRT_RATIO := 0; MAX_SQRT_RATIO := 200 |}.

Section pool_examples.
#[local] Existing Instance iter_by_encoding.
#[local] Existing Instance arith_Z.
#[local] Existing Instance sample_ratios.
#[local] Existing Instance sample_ticks.
#[local] Existing Instance sample_hasher.

Definition returned {A E} (o : outcome (result A E)) (a : A) : A :=
  match o with Ret (Ok a') => a' | _ => a end.
Definition succeeds {A E} (o : outcome (result A E)) : bool :=
  match o with Ret (Ok _) => true | _ => false end.

Lemma succeeds_returned {A E} (o : outcome (result A E)) a : succeeds o = true ->
  o = Ret (Ok (returned o a)).
Proof. by destruct o as [[]|]. Qed.

Definition sample_swap : PoolSwap :=
  {| liquidity := current sample_liquidity; target_price := None; target_amount := 100;
     direction := false; swap_fee := 0 |}.

Lemma in_sample_tick t p : -11 <= t <= 10 -> 100 + 10 * t <= p <= 110 + 10 * t -> in_tick t p.
Proof.
  intros Ht Hp. split; [done|]. split; intros q [_ ->]%sample_ratio_inv; lia.
Qed.

Lemma sample_pool_ok : pool_ok (current sample_liquidity).
Proof. split; [split; vm_compute; discriminate|]. apply in_sample_tick; cbn; lia. Qed.

Lemma swap_terminates_witness : is_Some (swap_run sample_swap).
Proof.
  apply (swap_terminates sample_swap); [apply sample_pool_ok|].
  split; [reflexivity|vm_compute; discriminate].
Defined.

Lemma swap_keeps_its_terms_witness :
  let r := returned (swap sample_swap) (noop sample_pool) in
  swap sample_swap = Ret (Ok r) /\ start_price r = 105 /\ end_price r = 123 /\ total_d_t1 r = 99 /\
  0 <= taken false r <= 100.
Proof.
  set (r := returned (swap sample_swap) (noop sample_pool)).
  assert (swap sample_swap = Ret (Ok r)) as Hr by (apply succeeds_returned; vm_compute; reflexivity).
  split; [exact Hr|]. split; [vm_compute; reflexivity|]. split; [vm_compute; reflexivity|].
  split; [vm_compute; reflexivity|].
  apply (swap_keeps_its_terms sample_swap r Hr sample_pool_ok).
  - vm_compute. discriminate.
  - split; vm_compute; discriminate.
  - reflexivity.
Defined.

Definition sample_top : OrderWithStorageData TopOfBlockOrder := sample_searcher 1 2 3 4.

Lemma auction_bid_balances_witness :
  let r := returned (calc_vec_and_reward sample_top sample_pool) (noop sample_pool, 0) in
  calc_vec_and_reward sample_top sample_pool = Ret (Ok r) /\ r.2 = 49 /\
  get_auction_bid (order sample_top) sample_pool = Ret (Ok 49) /\ 0 <= 49 /\
  total_d_t1 r.1 <= 100 /\ total_d_t0 r.1 = 50 + 49.
Proof.
  set (r := returned (calc_vec_and_reward sample_top sample_pool) (noop sample_pool, 0)).
  assert (calc_vec_and_reward sample_top sample_pool = Ret (Ok r)) as Hr
    by (apply succeeds_returned; vm_compute; reflexivity).
  assert (r.2 = 49) as Hreward by (vm_compute; reflexivity).
  split; [exact Hr|]. split; [exact Hreward|].
  apply (auction_bid_balances sample_top sample_pool r.1 49).
  - rewrite Hr, <-Hreward. by destruct r.
  - split; [apply sample_pool_ok|]. cbn. lia.
  - reflexivity.
  - split; [|vm_compute]; discriminate.
Defined.
End pool_examples.
