(* ===== verification/Donation.v ===== *)
(** * Donations to liquidity providers

    The model of [crates/types/src/uni_structure]: how a reward is spread over the
    ranges that a swap crossed ([reduce_ranges] and [t0_donation_vec] of
    [pool_swap.rs]), how the donations of two swaps are merged, and the reward
    updates they become ([donation.rs]; [RewardsUpdate] of
    [contract_payloads/rewards.rs]).  Keccak is the class [RewardHasher]. *)

From S2P Require Import Prelude Ray Orders Samples Rules Pool.
Open Scope Z_scope.

Record TickInterval := {
  lower_tick : option i32;
  upper_tick : option i32;
  range_liquidity : u128;
  range_t0 : u128;
  range_t1 : u128
}.

Inductive DonationType :=
| Below (high_tick : i32) (donation liquidity : u128)
| Above (low_tick : i32) (donation liquidity : u128)
| Current (final_tick : i32) (donation liquidity : u128).

Definition donation (d : DonationType) : u128 :=
  match d with Below _ q _ => q | Above _ q _ => q | Current _ q _ => q end.
Definition donation_liquidity (d : DonationType) : u128 :=
  match d with Below _ _ l => l | Above _ _ l => l | Current _ _ l => l end.
Definition donation_tick (d : DonationType) : i32 :=
  match d with Below t _ _ => t | Above t _ _ => t | Current t _ _ => t end.

(** [&DonationType + u128]. *)
Definition add_quantity (d : DonationType) (q : u128) : DonationType :=
  match d with
  | Below t d l => Below t (u128_wrap (d + q)) l
  | Above t d l => Above t (u128_wrap (d + q)) l
  | Current t d l => Current t (u128_wrap (d + q)) l
  end.

(** [&DonationType + &DonationType]: the right one, with both quantities. *)
Definition merge (entry i : DonationType) : DonationType := add_quantity i (donation entry).

Definition is_current (d : DonationType) : bool :=
  match d with Current _ _ _ => true | _ => false end.

Record DonationCalculation := {
  donations : list DonationType;
  calc_current_tick : i32;
  break_idx : nat;
  total_donated : u128
}.

Inductive RewardsUpdate :=
| MultiTick (update_start_tick : Z) (update_start_liquidity : u128) (quantities : list u128)
    (reward_checksum : Z)
| CurrentOnly (amount expected_liquidity : u128).

(** [RewardsUpdate::quantities]. *)
Definition update_quantities (u : RewardsUpdate) : list u128 :=
  match u with MultiTick _ _ qs _ => qs | CurrentOnly a _ => [a] end.

(** One round of the checksum: keccak over the hash so far, the liquidity and
    the 24-bit tick. *)
Class RewardHasher : Type := {
  keccak_step : U256 -> u128 -> Z -> U256
}.

Definition i24_wrap (z : Z) : Z := (z + 2 ^ 23) mod 2 ^ 24 - 2 ^ 23.

Section donation.
Context `{HI : HashIter} `{AL : ArithLib} `{SR : SqrtRatios} `{TL : TickLib} `{RH : RewardHasher}.
Implicit Types (r : PoolSwapResult) (x : TickInterval) (d : DonationType) (c : DonationCalculation).

(** ** Ranges of a swap *)

(** The variables of a batch: both amounts, the last tick, the liquidity and
    whether the tick is initialised. *)
Abbreviation Batch := (u128 * u128 * i32 * u128 * bool)%type (only parsing).

(** The inner loop: steps are combined until one ends at an initialised tick. *)
Fixpoint gather (acc : Batch) (i : list PoolSwapStep) : outcome (Batch * list PoolSwapStep) :=
  let '(t0, t1, tick, liq, init) := acc in
  if (init : bool) then Ret (acc, i)
  else match i with
  | [] => Ret (acc, [])
  | v :: i' =>
      if liq =? step_liquidity v then
        gather (u128_wrap (t0 + d_t0 v), u128_wrap (t1 + d_t1 v), end_tick v, liq, step_init v) i'
      else Panic
  end.

Definition interval (dir : bool) (last : option i32) (acc : Batch) : TickInterval :=
  let '(t0, t1, tick, liq, init) := acc in
  let final_tick := if (init : bool) then Some tick else None in
  {| lower_tick := if negb dir then last else final_tick;
     upper_tick := if negb dir then final_tick else last;
     range_liquidity := liq; range_t0 := t0; range_t1 := t1 |}.

(** [batching]: each batch takes at least one step, so the number of steps is
    fuel enough. *)
Fixpoint batches (fuel : nat) (dir : bool) (last : option i32) (i : list PoolSwapStep)
    : outcome (list TickInterval) :=
  match fuel, i with
  | S fuel', q :: i' =>
      '(acc, rest) ← gather (d_t0 q, d_t1 q, end_tick q, step_liquidity q, step_init q) i';
      let '(_, _, tick, _, _) := acc in
      rs ← batches fuel' dir (Some tick) rest;
      Ret (interval dir last acc :: rs)
  | _, _ => Ret []
  end.

Definition reduce_ranges r (dir : bool) : outcome (list TickInterval) :=
  batches (length (steps r)) dir None (steps r).

(** ** Spreading a donation *)

Definition avg_price x : outcome Ray := calc_price (range_t0 x) (range_t1 x).

(** The first loop: bring the ranges to one price, as far as the donation goes. *)
Fixpoint blob_loop (dir : bool) (rs : list TickInterval) (remaining : u128)
    (blob : option (u128 * u128)) : outcome (u128 * option (u128 * u128)) :=
  match rs with
  | [] => Ret (remaining, blob)
  | x :: rs' =>
      match blob with
      | None => blob_loop dir rs' remaining (Some (range_t0 x, range_t1 x))
      | Some (c_t0, c_t1) =>
          target_price ← avg_price x;
          target_t0 ← inverse_quantity target_price c_t1 dir;
          let step_cost := Z.abs (c_t0 - target_t0) in
          let increment := Z.min remaining step_cost in
          let c_t0' := if dir then u128_wrap (c_t0 + increment) else Z.max 0 (c_t0 - increment) in
          let remaining' := remaining - increment in
          if step_cost <=? remaining then
            blob_loop dir rs' remaining'
              (Some (u128_wrap (c_t0' + range_t0 x), u128_wrap (c_t1 + range_t1 x)))
          else Ret (remaining', Some (c_t0', c_t1))
      end
  end.

(** All that is left goes to the blob. *)
Definition finish_blob (dir : bool) (remaining c_t0 : u128) : u128 :=
  if dir then u128_wrap (c_t0 + remaining)
  else if Z.max 0 (c_t0 - remaining) =? 0 then 1 else Z.max 0 (c_t0 - remaining).

(** What a range gets to be at the filled price. *)
Definition range_donation (dir : bool) (filled : option Ray) (remaining : u128) x : outcome u128 :=
  match filled with
  | None => Ret 0
  | Some f =>
      target_t0 ← inverse_quantity f (range_t1 x) dir;
      Ret (Z.min remaining
        (if dir then Z.max 0 (target_t0 - range_t0 x) else Z.max 0 (range_t0 x - target_t0)))
  end.

(** The second loop; the last range is the current one. *)
Fixpoint donate (dir : bool) (filled : option Ray) (final_tick : i32) (rs : list TickInterval)
    (remaining : u128) : outcome (list DonationType) :=
  match rs with
  | [] => Ret []
  | x :: rs' =>
      q ← range_donation dir filled remaining x;
      d ← match rs' with
          | [] => Ret (Current final_tick q (range_liquidity x))
          | _ :: _ =>
              if dir then t ← unwrap (lower_tick x); Ret (Above t q (range_liquidity x))
              else t ← unwrap (upper_tick x); Ret (Below t q (range_liquidity x))
          end;
      ds ← donate dir filled final_tick rs' (remaining - q);
      Ret (d :: ds)
  end.

Definition t0_donation_vec r (total_donation : u128) : outcome (list DonationType) :=
  match steps r with
  | [] => Ret []
  | _ :: _ =>
      let dir := end_price r <=? start_price r in
      ranges ← reduce_ranges r dir;
      '(remaining, blob) ← blob_loop dir ranges total_donation None;
      filled ← match blob with
               | None => Ret None
               | Some (t0, t1) =>
                   f ← calc_price_generic (finish_blob dir remaining t0) t1 (negb dir);
                   Ret (Some f)
               end;
      donate dir filled (result_end_tick r) ranges total_donation
  end.

(** ** Merging donations *)

Definition sum_donations (ds : list DonationType) : u128 :=
  foldl (fun a b => u128_wrap (a + b)) 0 (donation <$> ds).

Definition from_vec (vec : list DonationType) : outcome DonationCalculation :=
  match vec with
  | [] => Ret {| donations := []; calc_current_tick := 0; break_idx := 0; total_donated := 0 |}
  | first :: _ =>
      _ ← assert (existsb is_current vec);
      let '(ds, idx) := match first with
        | Above _ _ _ => (reverse vec, 0%nat)
        | _ => (vec, (length vec - 1)%nat)
        end in
      Ret {| donations := ds; break_idx := idx;
             calc_current_tick := match last vec with Some (Current t _ _) => t | _ => 0 end;
             total_donated := sum_donations vec |}
  end.

(** The variables of [Add<&[DonationType]>]: the deque, the total, the pointer and
    the tick. *)
Definition add_one (acc : list DonationType * u128 * nat * i32) (i : DonationType)
    : list DonationType * u128 * nat * i32 :=
  let '(ds, total, rel_idx, tick) := acc in
  let total := u128_wrap (total + donation i) in
  let tick := match i with Current t _ _ => t | _ => tick end in
  match rel_idx with
  | O => (i :: ds, total, O, tick)
  | S k =>
      let ds := match ds !! k with
        | Some entry => <[k := merge entry i]> ds
        | None => ds ++ [i]
        end in
      (ds, total, match i with Above _ _ _ => k | Below _ _ _ => S (S k) | Current _ _ _ => S k end,
       tick)
  end.

Definition add_donations c (rhs : list DonationType) : DonationCalculation :=
  let '(ds, total, rel_idx, tick) :=
    foldl add_one (donations c, total_donated c, S (break_idx c), calc_current_tick c) rhs in
  {| donations := ds; total_donated := total; break_idx := (rel_idx - 1)%nat;
     calc_current_tick := tick |}.

(** ** Reward updates *)

Definition checksum_iter (ds : list DonationType) (len : nat) : Z :=
  Z.shiftr (foldl (fun acc '(t, l) => keccak_step acc l (i24_wrap t)) 0
    (zip (donation_tick <$> take (len - 1) ds) (donation_liquidity <$> drop 1 ds))) 96.

(** An update that starts at [d] and pays the quantities in the order of [ds]. *)
Definition multi_tick (d : DonationType) (qs : list u128) (sum : Z) : RewardsUpdate :=
  MultiTick (i24_wrap (donation_tick d)) (donation_liquidity d) qs sum.

(** [*last_q = 0]. *)
Definition clear_last (qs : list u128) : list u128 :=
  match qs with [] => [] | _ :: _ => take (length qs - 1) qs ++ [0] end.

Definition into_reward_updates c : outcome (RewardsUpdate * option RewardsUpdate) :=
  let ds := donations c in
  let len := length ds in
  match ds with
  | [] => Ret (CurrentOnly 0 0, None)
  | [d] => Ret (CurrentOnly (donation d) (donation_liquidity d), None)
  | _ =>
      if (break_idx c =? 0)%nat then
        d ← unwrap (ds !! (len - 1)%nat);
        Ret (multi_tick d (donation <$> reverse ds) (checksum_iter (reverse ds) len), None)
      else if (break_idx c =? len - 1)%nat then
        d ← unwrap (ds !! 0%nat);
        Ret (multi_tick d (donation <$> ds) (checksum_iter ds len), None)
      else
        _ ← assert (break_idx c <=? len)%nat;
        let self_and_above := drop (break_idx c) ds in
        cur ← unwrap (self_and_above !! 0%nat);
        let below := take (break_idx c) ds ++ [cur] in
        d ← unwrap (self_and_above !! (length self_and_above - 1)%nat);
        b ← unwrap (below !! 0%nat);
        Ret (multi_tick d (donation <$> reverse self_and_above)
               (checksum_iter self_and_above (length self_and_above)),
             Some (multi_tick b (clear_last (donation <$> below)) (checksum_iter below (length below))))
  end.

(** ** The ranges cover the steps *)

Lemma chained_tail y xs liq : chained (y :: xs) liq -> chained xs liq.
Proof. intros H i x Hx. exact (H (S i) x Hx). Qed.

Lemma chained_head y z xs liq : chained (y :: z :: xs) liq -> step_init y = false ->
  step_liquidity z = step_liquidity y.
Proof. intros H Hy. exact (H 0%nat y eq_refl Hy). Qed.

(** The amounts of a step are words. *)
Definition amounts_ok (v : PoolSwapStep) : Prop := 0 <= d_t0 v /\ 0 <= d_t1 v.

Lemma amounts_sums l : Forall amounts_ok l -> 0 <= zsum (d_t0 <$> l) /\ 0 <= zsum (d_t1 <$> l).
Proof. induction 1 as [|v l [H1 H2] _ IH]; cbn; lia. Qed.

Lemma gather_spec i L : forall t0 t1 tick liq (init : bool), chained i L -> Forall amounts_ok i ->
  (init = false -> forall v i', i = v :: i' -> step_liquidity v = liq) ->
  0 <= t0 -> t0 + zsum (d_t0 <$> i) <= u128_max -> 0 <= t1 -> t1 + zsum (d_t1 <$> i) <= u128_max ->
  exists used rest tick' init',
    gather (t0, t1, tick, liq, init) i =
      Ret (t0 + zsum (d_t0 <$> used), t1 + zsum (d_t1 <$> used), tick', liq, init', rest) /\
    i = used ++ rest /\ (init' = true \/ rest = []).
Proof.
  induction i as [|v i IH]; intros t0 t1 tick liq init Hch Hm Hliq H0 Hb0 H1 Hb1.
  - exists [], [], tick, init. cbn. rewrite !Z.add_0_r. destruct init; auto.
  - destruct init; cbn [gather].
    { exists [], (v :: i), tick, true. cbn. rewrite !Z.add_0_r. auto. }
    rewrite (Hliq eq_refl v i eq_refl), Z.eqb_refl.
    apply Forall_cons in Hm as [[Hv0 Hv1] Hm]. cbn in Hb0, Hb1.
    pose proof (amounts_sums i Hm) as [Hs0 Hs1]. rewrite !u128_wrap_small by lia.
    destruct (IH (t0 + d_t0 v) (t1 + d_t1 v) (end_tick v) liq (step_init v))
      as (used & rest & tick' & init' & -> & -> & Hend); try done; try lia; [by eapply chained_tail| |].
    { intros Hi y i' ->. rewrite (chained_head _ _ _ _ Hch Hi). by apply (Hliq eq_refl v (y :: i')). }
    exists (v :: used), rest, tick', init'. cbn. rewrite !Z.add_assoc. done.
Qed.

Lemma chained_drop xs ys liq : chained (xs ++ ys) liq -> chained ys liq.
Proof. induction xs; [done|]. intros H%chained_tail. auto. Qed.

(** A range that moved both tokens. *)
Definition range_ok x : Prop := 0 < range_t0 x /\ 0 < range_t1 x.

(** All ranges but the last end at an initialised tick. *)
Fixpoint edges (dir : bool) (rs : list TickInterval) : Prop :=
  match rs with
  | [] => True
  | x :: rs' => (rs' = [] \/ is_Some (if dir then lower_tick x else upper_tick x)) /\ edges dir rs'
  end.

Lemma batches_spec fuel dir L : forall last i, (length i <= fuel)%nat -> chained i L ->
  Forall amounts_ok i -> zsum (d_t0 <$> i) <= u128_max -> zsum (d_t1 <$> i) <= u128_max ->
  exists rs, batches fuel dir last i = Ret rs /\ edges dir rs /\
    (i <> [] -> rs <> []) /\
    zsum (range_t0 <$> rs) = zsum (d_t0 <$> i) /\ zsum (range_t1 <$> rs) = zsum (d_t1 <$> i).
Proof.
  induction fuel as [|fuel IH]; intros lst i Hf Hch Hm H0 H1.
  { destruct i; [|cbn in Hf; lia]. exists []. done. }
  destruct i as [|q i]; [by exists []|]. cbn [batches].
  apply Forall_cons in Hm as [[Hq0 Hq1] Hm]. cbn in H0, H1.
  destruct (gather_spec i L (d_t0 q) (d_t1 q) (end_tick q) (step_liquidity q) (step_init q))
    as (used & rest & tick & init & -> & -> & Hend); try done; try lia; [by eapply chained_tail| |].
  { intros Hi v i' ->. by apply (chained_head _ _ _ _ Hch). }
  cbn [mbind outcome_bind]. apply Forall_app in Hm as [Hm1 Hm2]. rewrite !fmap_app, !zsum_app in *.
  pose proof (amounts_sums _ Hm1). pose proof (amounts_sums _ Hm2).
  destruct (IH (Some tick) rest) as (rs & E & He & Hne & Hs0 & Hs1);
    [cbn in Hf; rewrite length_app in Hf; lia|by eapply chained_drop, chained_tail|done|lia..|].
  rewrite E.   eexists. split; [reflexivity|]. cbn. rewrite Hs0, Hs1, !fmap_app, !zsum_app.
  split; [|split; [done|lia]]. split; [|done].
  destruct Hend as [->| ->]; [right; by destruct dir|left]. destruct fuel; by injection E as <-.
Qed.

(** ** The donation is spread within its budget *)

Lemma ray_below_u128 : const_1e27 < u128_max.
Proof. by vm_compute. Qed.

#[local] Opaque const_1e27 u128_max.

Lemma price_pos t0 t1 up : 0 < t0 <= const_1e27 -> 0 < t1 <= u128_max ->
  exists f, calc_price_generic t0 t1 up = Ret f /\ 0 < f.
Proof.
  intros H0 H1. exists (div_to (t1 * const_1e27) t0 (rounding up)).
  split; [apply (from_quantities_eval t1 t0 up); lia|]. pose proof const_1e27_pos.
  destruct up; cbn [rounding].
  - pose proof (div_to_ceil_bounds (t1 * const_1e27) t0 ltac:(lia)). nia.
  - pose proof (div_to_floor_bounds (t1 * const_1e27) t0 ltac:(lia)). nia.
Qed.

Lemma inverse_quantity_total f q up : 0 < f -> 0 <= q ->
  exists t, inverse_quantity f q up = Ret t.
Proof. intros. rewrite inverse_quantity_eval by done. eauto. Qed.

(** The blob never holds more than what was swapped and donated. *)
Lemma blob_loop_spec (dir : bool) rs : forall rem (c0 c1 : Z), Forall range_ok rs -> 0 <= rem ->
  0 < c0 -> 0 < c1 -> rem + c0 + zsum (range_t0 <$> rs) <= const_1e27 ->
  c1 + zsum (range_t1 <$> rs) <= u128_max ->
  exists rem' (c0' c1' : Z), blob_loop dir rs rem (Some (c0, c1)) = Ret (rem', Some (c0', c1')) /\
    0 <= rem' /\ 0 <= c0' /\ (dir = true -> 0 < c0') /\ rem' + c0' <= const_1e27 /\
    0 < c1' <= u128_max.
Proof.
  pose proof ray_below_u128 as Hbig.
  induction rs as [|x rs IH]; intros rem c0 c1 Hrs Hrem H0 H1 Hb0 Hb1.
  { exists rem, c0, c1. cbn in *. split; [reflexivity|]. repeat split; lia. }
  apply Forall_cons in Hrs as [[Hx0 Hx1] Hrs]. cbn in Hb0, Hb1.
  assert (0 <= zsum (range_t0 <$> rs) /\ 0 <= zsum (range_t1 <$> rs)) as [Hs0 Hs1].
  { clear -Hrs. induction Hrs as [|y l [? ?] _ IH]; cbn; lia. }
  cbn [blob_loop]. unfold avg_price.
  destruct (price_pos (range_t0 x) (range_t1 x) true) as (f & Hf & Hpos); [lia..|].
  change (calc_price (range_t0 x) (range_t1 x)) with
    (calc_price_generic (range_t0 x) (range_t1 x) true). rewrite Hf. cbn [mbind outcome_bind].
  destruct (inverse_quantity_total f c1 dir Hpos) as [t Ht]; [lia|]. rewrite Ht.
  cbn [mbind outcome_bind]. set (cost := Z.abs (c0 - t)). set (inc := Z.min rem cost).
  assert (0 <= inc <= rem) by (unfold inc, cost; lia).
  set (c0' := if dir then u128_wrap (c0 + inc) else Z.max 0 (c0 - inc)).
  assert (0 <= c0' /\ (dir = true -> 0 < c0') /\ rem - inc + c0' <= rem + c0) as (Hc & Hd & Hsum).
  { unfold c0'. destruct dir; [rewrite u128_wrap_small by lia|]; lia. }
  destruct (Z.leb_spec cost rem).
  - rewrite !u128_wrap_small by lia. apply IH; first [assumption|lia].
  - exists (rem - inc), c0', c1. split; [reflexivity|]. repeat split; first [assumption|lia].
Qed.

Lemma range_donation_spec dir f rem x : 0 < f -> 0 <= rem -> 0 < range_t1 x ->
  exists q, range_donation dir (Some f) rem x = Ret q /\ 0 <= q <= rem.
Proof.
  intros Hf Hrem Hx. cbn [range_donation].
  destruct (inverse_quantity_total f (range_t1 x) dir Hf) as [t ->]; [lia|].
  eexists. split; [done|]. destruct dir; lia.
Qed.

(** Donations that lead to the current range from one side. *)
Definition oriented (dir : bool) (ds : list DonationType) : Prop :=
  exists side t q l, ds = side ++ [Current t q l] /\
    Forall (fun d => match d with
      | Above _ _ _ => dir = true | Below _ _ _ => dir = false | Current _ _ _ => False end) side.

Lemma donate_spec dir f tick rs : forall rem, Forall range_ok rs -> edges dir rs -> 0 < f -> 0 <= rem ->
  exists ds, donate dir (Some f) tick rs rem = Ret ds /\
    Forall (fun d => 0 <= donation d) ds /\ zsum (donation <$> ds) <= rem /\
    length ds = length rs /\
    (rs <> [] -> oriented dir ds /\ donation_tick <$> last ds = Some tick).
Proof.
  induction rs as [|x rs IH]; intros rem Hrs He Hf Hrem; [by exists []|].
  apply Forall_cons in Hrs as [[Hx0 Hx1] Hrs]. destruct He as [He1 He2]. cbn [donate].
  destruct (range_donation_spec dir f rem x Hf Hrem Hx1) as (q & Hq & Hqr).
  rewrite Hq. cbn [mbind outcome_bind].
  destruct (IH (rem - q) Hrs He2 Hf ltac:(lia)) as (ds & E & Hnn & Hsum & Hlen & Hor).
  destruct rs as [|y rs].
  - cbn in E. injection E as <-. cbn. eexists. split; [done|]. cbn.
    split; [by constructor; [cbn; lia|]|]. split; [lia|]. split; [done|]. intros _. split; [|done].
    by exists [], tick, q, (range_liquidity x).
  - destruct He1 as [?|[t Ht]]; [done|]. rewrite E.
    destruct (Hor ltac:(done)) as [(side & t' & q' & l' & -> & Hside) Hlast].
    exists ((if dir then Above t q (range_liquidity x) else Below t q (range_liquidity x))
      :: side ++ [Current t' q' l']).
    split; [by destruct dir; rewrite Ht|].
    split; [constructor; [destruct dir; cbn; lia|done]|].
    split; [rewrite fmap_cons; cbn [zsum]; destruct dir; cbn [donation]; lia|].
    split; [cbn; by rewrite Hlen|]. intros _. split.
    + eexists (_ :: side), t', q', l'. split; [done|]. constructor; [by destruct dir|done].
    + rewrite last_cons, last_snoc. rewrite last_snoc in Hlast. done.
Qed.

Lemma range_sums rs : Forall range_ok rs -> 0 <= zsum (range_t0 <$> rs) /\ 0 <= zsum (range_t1 <$> rs).
Proof. induction 1 as [|y l [? ?] _ IH]; cbn; lia. Qed.

Lemma donation_vec_spec r liq total (Hch : chained (steps r) liq) (Hm : Forall amounts_ok (steps r))
    (Hrs : forall rs, reduce_ranges r (end_price r <=? start_price r) = Ret rs -> Forall range_ok rs)
    (Ht : 0 <= total) (H0 : zsum (d_t0 <$> steps r) + total <= const_1e27)
    (H1 : zsum (d_t1 <$> steps r) <= u128_max) :
  exists ds, t0_donation_vec r total = Ret ds /\
    Forall (fun d => 0 <= donation d) ds /\ zsum (donation <$> ds) <= total /\
    (steps r = [] -> ds = []) /\
    (steps r <> [] -> oriented (end_price r <=? start_price r) ds /\
      donation_tick <$> last ds = Some (result_end_tick r)).
Proof.
  unfold t0_donation_vec. destruct (steps r) as [|v vs] eqn:Es; [exists []; cbn; repeat split; done || lia|].
  set (dir := end_price r <=? start_price r). pose proof ray_below_u128 as Hbig.
  pose proof (amounts_sums _ Hm) as [Hs0 Hs1]. unfold reduce_ranges in *. rewrite Es in Hrs |- *.
  destruct (batches_spec (length (v :: vs)) dir liq None (v :: vs))
    as (rs & Er & He & Hne & Hr0 & Hr1); try assumption; try lia.
  pose proof (Hrs _ Er) as Hok. clear Hrs. rewrite Er. cbn [mbind outcome_bind]. assert (v :: vs <> []) as Hvs by discriminate.
  destruct rs as [|x rs]; [destruct (Hne Hvs eq_refl)|]. cbn [blob_loop].
  pose proof Hok as [[Hx0 Hx1] Hrs]%Forall_cons. pose proof (range_sums _ Hrs). cbn in Hr0, Hr1, H0, H1.
  destruct (blob_loop_spec dir rs total (range_t0 x) (range_t1 x))
    as (rem & c0 & c1 & Eb & Hrem & Hc0 & Hcd & Hsum & Hc1); try assumption; try lia.
  rewrite Eb. cbn [mbind outcome_bind].
  assert (0 < finish_blob dir rem c0 <= const_1e27) as Hfb.
  { unfold finish_blob. destruct dir; [rewrite u128_wrap_small by lia; specialize (Hcd eq_refl); lia|].
    destruct (Z.eqb_spec (Z.max 0 (c0 - rem)) 0); pose proof const_1e27_pos; lia. }
  destruct (price_pos (finish_blob dir rem c0) c1 (negb dir) Hfb Hc1) as (f & Ef & Hf).
  rewrite Ef. cbn [mbind outcome_bind].
  destruct (donate_spec dir f (result_end_tick r) (x :: rs) total Hok He Hf Ht)
    as (ds & -> & Hnn & Hd & _ & Hor).
  exists ds. do 3 (split; [first [reflexivity|assumption]|]). split; [discriminate|]. intros _. apply Hor. discriminate.
Qed.

(** ** Merged donations are paid once *)

Abbreviation paid ds := (zsum (donation <$> ds)).
Definition payable (ds : list DonationType) : Prop := Forall (fun d => 0 <= donation d) ds.

Lemma payable_elem ds (x : Z) : payable ds -> x ∈ donation <$> ds -> 0 <= x.
Proof. intros H (d & -> & Hd)%list_elem_of_fmap. by eapply Forall_forall in H. Qed.

Lemma payable_nonneg ds : payable ds -> 0 <= paid ds.
Proof. intros H. apply zsum_nonneg. intros x. by apply payable_elem. Qed.

Lemma sum_donations_eq ds : payable ds -> paid ds <= u128_max -> sum_donations ds = paid ds.
Proof.
  intros Hp Hb. unfold sum_donations.
  rewrite (wrap_sum u128_wrap _ 0) by apply u128_wrap_add. apply u128_wrap_small.
  pose proof (payable_nonneg _ Hp). lia.
Qed.

(** The totals agree and the pointer is at an entry. *)
Record calc_ok c : Prop := {
  ok_payable : payable (donations c);
  ok_total_donated : total_donated c = paid (donations c);
  ok_break : (break_idx c <= length (donations c) - 1)%nat
}.

Lemma oriented_current dir ds : oriented dir ds -> existsb is_current ds = true.
Proof.
  intros (side & t & q & l & -> & _). rewrite existsb_app. cbn. by rewrite orb_true_r.
Qed.

Lemma from_vec_spec dir ds : oriented dir ds -> payable ds -> paid ds <= u128_max ->
  exists c, from_vec ds = Ret c /\ calc_ok c /\ total_donated c = paid ds.
Proof.
  intros Hor Hp Hb. pose proof (oriented_current _ _ Hor) as Hc.
  destruct ds as [|d ds]; [by exists {| donations := []; calc_current_tick := 0; break_idx := 0; total_donated := 0 |}|].
  unfold from_vec. rewrite Hc. cbn [assert mbind outcome_bind].
  assert (payable (reverse (d :: ds))) by (by apply Forall_reverse).
  assert (paid (reverse (d :: ds)) = paid (d :: ds)) as Hrev by (by rewrite reverse_Permutation).
  pose proof (sum_donations_eq _ Hp Hb) as Hsum.
  destruct d; (eexists; split; [reflexivity|]; split; [|exact Hsum]; split;
    cbn [donations total_donated break_idx]; try assumption; try (rewrite Hrev; exact Hsum);
    rewrite ?length_reverse; cbn; lia).
Qed.

(** The variables of the merge. *)
Definition merging (acc : list DonationType * u128 * nat * i32) : Prop :=
  let '(ds, total, rel, _) := acc in
  payable ds /\ total = paid ds /\ (rel <= S (length ds))%nat.

Lemma add_one_spec ds total rel tick i : merging (ds, total, rel, tick) -> 0 <= donation i ->
  total + donation i <= u128_max ->
  exists ds' rel' tick', add_one (ds, total, rel, tick) i = (ds', total + donation i, rel', tick') /\
    merging (ds', total + donation i, rel', tick') /\
    (is_current i = true -> (rel' - 1 < length ds')%nat).
Proof.
  intros (Hp & -> & Hrel) Hi Hb. pose proof (payable_nonneg _ Hp). unfold add_one, merging.
  rewrite u128_wrap_small by lia. destruct rel as [|k].
  { eexists _, _, _. split; [reflexivity|]. split; [|cbn; lia]. split; [by constructor|].
    split; [cbn; lia|cbn; lia]. }
  destruct (ds !! k) as [e|] eqn:Hk.
  - pose proof (list_lookup_fmap donation ds k) as Hf. rewrite Hk in Hf.
    assert (donation e ∈ donation <$> ds) as Hin by (by eapply list_elem_of_lookup_2).
    pose proof (payable_elem _ _ Hp Hin). pose proof (zsum_elem _ _ (fun q => payable_elem ds q Hp) Hin).
    assert (donation (merge e i) = donation i + donation e) as Hm
      by (unfold merge; destruct i; cbn in *; rewrite u128_wrap_small; lia).
    apply lookup_lt_Some in Hk. eexists _, _, _. split; [reflexivity|].
    rewrite length_insert, list_fmap_insert, (zsum_insert _ _ _ _ Hf), Hm.
    split; [split; [apply Forall_insert; [done|lia]|split; [lia|destruct i; lia]]|destruct i; cbn; lia].
  - apply lookup_ge_None in Hk. eexists _, _, _. split; [reflexivity|].
    rewrite fmap_app, zsum_app, length_app. cbn.
    split; [split; [apply Forall_app; by repeat constructor|split; [lia|destruct i; lia]]|destruct i; cbn; lia].
Qed.

Lemma add_fold w : forall ds total rel tick, merging (ds, total, rel, tick) -> payable w ->
  total + paid w <= u128_max ->
  exists ds' rel' tick', foldl add_one (ds, total, rel, tick) w = (ds', total + paid w, rel', tick') /\
    merging (ds', total + paid w, rel', tick').
Proof.
  induction w as [|i w IH]; intros ds total rel tick Hm Hw Hb.
  - exists ds, rel, tick. cbn. by rewrite Z.add_0_r.
  - apply Forall_cons in Hw as [Hi Hw]. cbn in Hb. pose proof (payable_nonneg _ Hw).
    destruct (add_one_spec ds total rel tick i Hm Hi ltac:(lia)) as (ds1 & rel1 & t1 & E & Hm1 & _).
    cbn [foldl]. rewrite E. destruct (IH ds1 _ rel1 t1 Hm1 Hw ltac:(lia)) as (ds2 & rel2 & t2 & E2 & Hm2).
    exists ds2, rel2, t2. cbn. rewrite Z.add_assoc. done.
Qed.

Lemma add_donations_ok c dir w : calc_ok c -> oriented dir w -> payable w ->
  total_donated c + paid w <= u128_max ->
  calc_ok (add_donations c w) /\ total_donated (add_donations c w) = total_donated c + paid w.
Proof.
  intros [Hp Ht Hbr] (side & t & q & l & -> & _) [Hs Hq]%Forall_app Hb.
  apply Forall_cons in Hq as [Hq _]. rewrite fmap_app, zsum_app in *. cbn in Hb, Hq |- *.
  pose proof (payable_nonneg _ Hs).
  assert (merging (donations c, total_donated c, S (break_idx c), calc_current_tick c)) as Hm.
  { split; [assumption|]. split; [assumption|]. lia. }
  destruct (add_fold side _ _ _ _ Hm Hs ltac:(lia)) as (ds1 & rel1 & t1 & E1 & Hm1).
  destruct (add_one_spec ds1 _ rel1 t1 (Current t q l) Hm1 Hq ltac:(cbn; lia))
    as (ds2 & rel2 & t2 & E2 & (Hp2 & Ht2 & _) & Hcur).
  unfold add_donations. rewrite foldl_app, E1. cbn [foldl]. rewrite E2. cbn in Ht2, Hcur |- *.
  split; [|lia]. split; cbn; [assumption|lia|]. specialize (Hcur eq_refl). lia.
Qed.

Lemma clear_last_sum qs q : zsum (clear_last (qs ++ [q])) = zsum qs.
Proof.
  unfold clear_last. destruct (qs ++ [q]) eqn:E; [by destruct qs|]. rewrite <-E, length_app.
  replace (length qs + length [q] - 1)%nat with (length qs) by (cbn; lia).
  rewrite take_app_length, zsum_app. cbn. lia.
Qed.

Lemma lookup_Some_lt {A} (l : list A) k : (k < length l)%nat -> exists y, l !! k = Some y.
Proof. intros H. destruct (lookup_lt_is_Some_2 l k H) as [y Hy]; eauto. Qed.

(** Both updates together pay what was donated. *)
Lemma into_reward_updates_spec c : calc_ok c ->
  exists u v, into_reward_updates c = Ret (u, v) /\
    zsum (update_quantities u) + zsum (from_option update_quantities [] v) = paid (donations c).
Proof.
  intros [_ _ Hbr]. unfold into_reward_updates.
  destruct (donations c) as [|d1 [|d2 ds]] eqn:Ed;
    [eexists _, _; (split; [reflexivity|cbn; lia])..|].
  rewrite <-Ed in *. assert (1 < length (donations c))%nat as Hlen by (rewrite Ed; cbn; lia).
  clear Ed. set (l := donations c) in *.
  destruct (Nat.eqb_spec (break_idx c) 0).
  { destruct (lookup_Some_lt l (length l - 1)) as [d ->]; [lia|]. eexists _, _. split; [reflexivity|].
    cbn. rewrite reverse_Permutation. lia. }
  destruct (Nat.eqb_spec (break_idx c) (length l - 1)).
  { destruct (lookup_Some_lt l 0) as [d ->]; [lia|]. eexists _, _. split; [reflexivity|]. cbn. lia. }
  rewrite (proj2 (Nat.leb_le _ _)) by lia. cbn [assert mbind outcome_bind].
  destruct (lookup_Some_lt (drop (break_idx c) l) 0) as [cur ->]; [rewrite length_drop; lia|].
  cbn [unwrap mbind outcome_bind].
  destruct (lookup_Some_lt (drop (break_idx c) l) (length (drop (break_idx c) l) - 1)) as [d ->];
    [rewrite length_drop; lia|].
  cbn [unwrap mbind outcome_bind].
  destruct (lookup_Some_lt (take (break_idx c) l ++ [cur]) 0) as [b ->]; [rewrite length_app; cbn; lia|].
  eexists _, _. split; [reflexivity|]. cbn -[clear_last].
  rewrite fmap_app. cbn [fmap list_fmap]. rewrite clear_last_sum, reverse_Permutation.
  rewrite <-(take_drop (break_idx c) l) at 3. rewrite fmap_app, zsum_app. lia.
Qed.

(** A swap of a pool to be rewarded: both tokens move in each of the ranges that its
    steps are combined to, and T0 with the reward stays within 10^27 units, so that
    no average price is rounded to 0. *)
Definition rewarded r (reward : u128) : Prop :=
  (exists ps, swap ps = Ret (Ok r) /\ pool_ok (liquidity ps) /\
    towards (direction ps) (price_limit ps) (current_sqrt_price (liquidity ps)) /\
    i256_min < target_amount ps <= i256_max) /\
  steps r <> [] /\ Forall amounts_ok (steps r) /\
  (forall rs, reduce_ranges r (end_price r <=? start_price r) = Ret rs -> Forall range_ok rs) /\ 0 <= reward /\
  zsum (d_t0 <$> steps r) + reward <= const_1e27 /\ zsum (d_t1 <$> steps r) <= u128_max.

Lemma rewarded_spread r reward : rewarded r reward ->
  exists ds, t0_donation_vec r reward = Ret ds /\ payable ds /\ paid ds <= reward /\
    exists dir, oriented dir ds.
Proof.
  intros ((ps & Hs & Hok & Hl & Ha) & Hne & Hm & Hrs & Hr & H0 & H1).
  pose proof (swap_chained ps r Hs Hok Hl Ha) as Hch.
  destruct (donation_vec_spec r _ reward Hch Hm Hrs Hr H0 H1) as (ds & E & Hp & Hsum & _ & Hor).
  exists ds. split; [exact E|]. split; [exact Hp|]. split; [exact Hsum|].
  exists (end_price r <=? start_price r). by apply Hor.
Qed.

(** C28. For a top-of-block swap and a book swap that take a step and move both tokens
    in each of the ranges they cross, each with at most 10^27 units of T0 moved and rewarded: the two rewards
    are each spread over the ranges of their swap within its amount, without a
    panic, and the updates sent to the contract pay the merged donations: every
    donated unit once, whichever ranges the two swaps share. *)
Theorem rewards_paid_once tob book (reward_tob reward_book : u128)
    (Htob : rewarded tob reward_tob) (Hbook : rewarded book reward_book)
    (Hsum : reward_tob + reward_book <= u128_max) :
  exists tob_d book_d c u v,
    t0_donation_vec tob reward_tob = Ret tob_d /\ t0_donation_vec book reward_book = Ret book_d /\
    from_vec tob_d = Ret c /\ into_reward_updates (add_donations c book_d) = Ret (u, v) /\
    zsum (update_quantities u) + zsum (from_option update_quantities [] v) = paid tob_d + paid book_d /\
    total_donated (add_donations c book_d) = paid tob_d + paid book_d /\
    paid tob_d <= reward_tob /\ paid book_d <= reward_book.
Proof.
  destruct (rewarded_spread _ _ Htob) as (td & E1 & Hp1 & Hs1 & dir1 & Ho1).
  destruct (rewarded_spread _ _ Hbook) as (bd & E2 & Hp2 & Hs2 & dir2 & Ho2).
  pose proof (payable_nonneg _ Hp1). pose proof (payable_nonneg _ Hp2).
  destruct (from_vec_spec dir1 td Ho1 Hp1 ltac:(lia)) as (c & E3 & Hc & Ht).
  destruct (add_donations_ok c dir2 bd Hc Ho2 Hp2 ltac:(lia)) as [Hc' Ht'].
  destruct (into_reward_updates_spec _ Hc') as (u & v & E4 & Hq).
  exists td, bd, c, u, v. rewrite (ok_total_donated _ Hc') in Ht'.
  split_and!; try assumption; [lia|]. rewrite (ok_total_donated _ Hc'). lia.
Qed.

(** A range that moves no T0 has no average price: a swap over such a range, other
    than its first one, cannot be rewarded. *)
Theorem empty_range_panics r total x y rs (Hne : steps r <> [])
    (Hr : reduce_ranges r (end_price r <=? start_price r) = Ret (x :: y :: rs)) (Hy : range_t0 y = 0) :
  t0_donation_vec r total = Panic.
Proof.
  unfold t0_donation_vec. destruct (steps r); [done|]. rewrite Hr. cbn [mbind outcome_bind blob_loop].
  unfold avg_price, calc_price, calc_price_inner. by rewrite Hy, div_round_zero.
Qed.

End donation.

(** ** An example *)

Definition sample_rewards : RewardHasher := {|
  keccak_step := fun acc l t => (31 * acc + 2 ^ 96 * (1000 * l + t + 500)) mod 2 ^ 256
|}.

Section donation_examples.
#[local] Existing Instance iter_by_encoding.
#[local] Existing Instance arith_Z.
#[local] Existing Instance sample_ratios.
#[local] Existing Instance sample_ticks.
#[local] Existing Instance sample_hasher.
#[local] Existing Instance sample_rewards.

Definition sample_tob_swap : PoolSwapResult := returned (swap sample_swap) (noop sample_pool).

Definition sample_back : PoolSwap :=
  {| liquidity := end_liquidity sample_tob_swap; target_price := None; target_amount := 60;
     direction := true; swap_fee := 0 |}.

Definition sample_book_swap : PoolSwapResult := returned (swap sample_back) (noop sample_pool).

(** The remaining conditions of [rewarded], evaluated. *)
Definition rewardedb (r : PoolSwapResult) (reward : u128) : bool :=
  negb (bool_decide (length (steps r) = 0%nat)) &&
  forallb (fun v => (0 <=? d_t0 v) && (0 <=? d_t1 v)) (steps r) &&
  match reduce_ranges r (end_price r <=? start_price r) with
  | Ret rs => forallb (fun x => (0 <? range_t0 x) && (0 <? range_t1 x)) rs
  | Panic => true
  end && (0 <=? reward) && (zsum (d_t0 <$> steps r) + reward <=? const_1e27) &&
  (zsum (d_t1 <$> steps r) <=? u128_max).

Lemma rewardedb_sound ps r reward : swap ps = Ret (Ok r) -> pool_ok (liquidity ps) ->
  towards (direction ps) (price_limit ps) (current_sqrt_price (liquidity ps)) ->
  i256_min < target_amount ps <= i256_max -> rewardedb r reward = true -> rewarded r reward.
Proof.
  intros Hs Hok Hl Ha. unfold rewardedb.
  rewrite !andb_true_iff, negb_true_iff, bool_decide_eq_false, !Z.leb_le, forallb_forall.
  intros (((((Hne & Hm) & Hrs) & Hr) & H0) & H1). split; [by exists ps|]. split; [by destruct (steps r)|].
  split; [|split; [|done]].
  - apply Forall_forall. intros v Hv%list_elem_of_In. apply Hm in Hv. by rewrite andb_true_iff, !Z.leb_le in Hv.
  - intros rs E. rewrite E, forallb_forall in Hrs. apply Forall_forall. intros x Hx%list_elem_of_In. apply Hrs in Hx.
    by rewrite andb_true_iff, !Z.ltb_lt in Hx.
Qed.

Lemma sample_tob_swap_is : swap sample_swap = Ret (Ok sample_tob_swap).
Proof. apply succeeds_returned. vm_compute. reflexivity. Qed.

Lemma sample_book_swap_is : swap sample_back = Ret (Ok sample_book_swap).
Proof. apply succeeds_returned. vm_compute. reflexivity. Qed.

Lemma sample_end_ok : pool_ok (end_liquidity sample_tob_swap).
Proof.
  split; [split; vm_compute; discriminate|].
  assert (current_tick (end_liquidity sample_tob_swap) = 2) as -> by (vm_compute; reflexivity).
  assert (current_sqrt_price (end_liquidity sample_tob_swap) = 123) as -> by (vm_compute; reflexivity).
  apply in_sample_tick; lia.
Qed.

Lemma rewards_paid_once_witness :
  rewarded sample_tob_swap 7 /\ rewarded sample_book_swap 11 /\
  exists tob_d book_d c u v,
    t0_donation_vec sample_tob_swap 7 = Ret tob_d /\ t0_donation_vec sample_book_swap 11 = Ret book_d /\
    from_vec tob_d = Ret c /\ into_reward_updates (add_donations c book_d) = Ret (u, v) /\
    zsum (update_quantities u) + zsum (from_option update_quantities [] v)
      = zsum (donation <$> tob_d) + zsum (donation <$> book_d) /\
    total_donated (add_donations c book_d) = zsum (donation <$> tob_d) + zsum (donation <$> book_d) /\
    zsum (donation <$> tob_d) <= 7 /\ zsum (donation <$> book_d) <= 11.
Proof.
  assert (rewarded sample_tob_swap 7) as H1.
  { apply (rewardedb_sound sample_swap); [exact sample_tob_swap_is|exact sample_pool_ok|..].
    - vm_compute. discriminate.
    - split; [reflexivity|vm_compute; discriminate].
    - vm_compute. reflexivity. }
  assert (rewarded sample_book_swap 11) as H2.
  { apply (rewardedb_sound sample_back); [exact sample_book_swap_is|exact sample_end_ok|..].
    - vm_compute. discriminate.
    - split; [reflexivity|vm_compute; discriminate].
    - vm_compute. reflexivity. }
  split; [exact H1|]. split; [exact H2|].
  apply (rewards_paid_once sample_tob_swap sample_book_swap 7 11 H1 H2).
  vm_compute. discriminate.
Defined.

(** A pool with no liquidity between two of its positions, and a swap that crosses
    from one to the other. *)
Definition gap_liquidity : BaselineLiquidity :=
  {| base_tick_spacing := 1; start_tick := 0; start_sqrt_price := 105; start_liquidity := 5;
     base_initialized_ticks := {[ -4 := {| liquidity_gross := 5; liquidity_net := 5; initialized := true |};
                                  2 := {| liquidity_gross := 5; liquidity_net := -5; initialized := true |};
                                  4 := {| liquidity_gross := 5; liquidity_net := 5; initialized := true |};
                                  6 := {| liquidity_gross := 5; liquidity_net := -5; initialized := true |} ]};
     base_tick_bitmap := {[ -4 := 1; 2 := 1; 4 := 1; 6 := 1 ]} |}.

Definition gap_swap : PoolSwap :=
  {| liquidity := current gap_liquidity; target_price := None; target_amount := 100;
     direction := false; swap_fee := 0 |}.

Definition gap_result : PoolSwapResult := returned (swap gap_swap) (noop sample_pool).

Definition gap_range (lo hi : option i32) (liq t0 t1 : u128) : TickInterval :=
  {| lower_tick := lo; upper_tick := hi; range_liquidity := liq; range_t0 := t0; range_t1 := t1 |}.

Lemma empty_range_panics_witness :
  swap gap_swap = Ret (Ok gap_result) /\ t0_donation_vec gap_result 7 = Panic.
Proof.
  split; [apply succeeds_returned; vm_compute; reflexivity|].
  apply (empty_range_panics gap_result 7 (gap_range None (Some 2) 5 75 75) (gap_range (Some 2) (Some 4) 0 0 0)
    [gap_range (Some 4) None 5 25 25]); [vm_compute; discriminate|vm_compute; reflexivity|reflexivity].
Defined.

(** Donations on both sides of the current range, and the ones above it alone. *)
Definition two_sided : DonationCalculation :=
  {| donations := [Below (-3) 1 10; Current 0 2 20; Above 3 3 30; Above 6 4 40];
     calc_current_tick := 0; break_idx := 1; total_donated := 10 |}.
Definition above_only : DonationCalculation :=
  {| donations := drop 1 (donations two_sided); calc_current_tick := 0; break_idx := 0;
     total_donated := 9 |}.

Definition checksum_of (o : outcome (RewardsUpdate * option RewardsUpdate)) : option Z :=
  match o with Ret (MultiTick _ _ _ sum, _) => Some sum | _ => None end.
Definition quantities_of (o : outcome (RewardsUpdate * option RewardsUpdate)) : option (list u128) :=
  match o with Ret (u, _) => Some (update_quantities u) | _ => None end.

(** With donations on both sides of the current range, the update for the ranges
    above it pays the same quantities as when there are none below, but carries
    another checksum: its ticks are not walked in the order of the quantities. *)
Theorem above_checksum_not_reversed :
  quantities_of (into_reward_updates two_sided) = quantities_of (into_reward_updates above_only) /\
  checksum_of (into_reward_updates two_sided) = Some (checksum_iter (donations above_only) 3) /\
  checksum_of (into_reward_updates above_only) = Some (checksum_iter (reverse (donations above_only)) 3) /\
  checksum_of (into_reward_updates two_sided) <> checksum_of (into_reward_updates above_only).
Proof.
  split; [vm_compute; reflexivity|]. split; [vm_compute; reflexivity|].
  split; [vm_compute; reflexivity|]. vm_compute. discriminate.
Qed.
End donation_examples.
