(* ===== verification/Book.v ===== *)
(** * The order book of a pool

    The model of [crates/matching-engine/src/book] ([mod.rs], [sort.rs]) and of
    [build_book] ([lib.rs]).  [slice::sort_by] is a stable sort, so its result is
    the one of insertion sort.  [book/order.rs] serves a matcher the node does not
    run and is left out. *)

From Stdlib Require Import Sorted.
From S2P Require Import Prelude Ray Orders Samples Rules Accounts Pool.
Open Scope Z_scope.

Abbreviation BookOrder := (OrderWithStorageData AllOrders) (only parsing).

(** ** Sorting *)

(** [sort_by]. *)
Definition sort_by {A} (cmp : A -> A -> comparison) (l : list A) : list A :=
  foldr (insert_sorted cmp) [] l.

Inductive SortStrategy := Unsorted | ByPriceByVolume | PricePartialVolume.

Record OrderBook := {
  book_id : PoolId;
  book_amm : option BaselinePoolState;
  bids : list BookOrder;
  asks : list BookOrder
}.

Section book.
Context `{HI : HashIter} `{AL : ArithLib} `{OH : OrderHasher} `{SR : SqrtRatios} `{TL : TickLib}.
Implicit Types (o a b : BookOrder) (bk : OrderBook).

Definition volume_cmp a b : comparison :=
  then_with (volume (priority_data a) ?= volume (priority_data b))
    (then_with (gas (priority_data a) ?= gas (priority_data b))
      (gas_units (priority_data a) ?= gas_units (priority_data b))).

Definition price_partial_volume a b : comparison :=
  then_with (price (priority_data a) ?= price (priority_data b))
    (then_with (bool_cmp (is_partial (order a)) (is_partial (order b))) (volume_cmp a b)).

Definition by_price_by_volume a b : comparison :=
  then_with (price (priority_data a) ?= price (priority_data b)) (volume_cmp a b).

(** [sort_bids] and [sort_asks] are the same function. *)
Definition sort_side (st : SortStrategy) (l : list BookOrder) : list BookOrder :=
  match st with
  | Unsorted => l
  | PricePartialVolume => sort_by price_partial_volume l
  | ByPriceByVolume => sort_by by_price_by_volume l
  end.

Definition new_book (id : PoolId) (amm : option BaselinePoolState) (bs ks : list BookOrder)
    (st : option SortStrategy) : OrderBook :=
  let strategy := default Unsorted st in
  {| book_id := id; book_amm := amm; bids := sort_side strategy bs; asks := sort_side strategy ks |}.

(** [OrderBook::default] with an id. *)
Definition empty_book (id : PoolId) : OrderBook :=
  {| book_id := id; book_amm := None; bids := []; asks := [] |}.

Definition all_orders bk : list BookOrder := bids bk ++ asks bk.

Definition is_empty_book bk : bool :=
  match bids bk, asks bk with [], [] => true | _, _ => false end.

(** [SqrtPriceX96::from(price).into()]. *)
Definition ray_of_sqrt (p : U256) : outcome Ray := convert_sqrtpricex96 p false.

Fixpoint traverse {A B} (f : A -> outcome B) (l : list A) : outcome (list B) :=
  match l with
  | [] => Ret []
  | x :: l' => y ← f x; ys ← traverse f l'; Ret (y :: ys)
  end.

Definition lowest_clearing_price bk : outcome Ray :=
  ps ← traverse (fun o => limit_price (order o)) (asks bk);
  match list_min ps with
  | Some p => Ret p
  | None => ray_of_sqrt (MIN_SQRT_RATIO + 1)
  end.

Definition highest_clearing_price bk : outcome Ray :=
  ps ← traverse (fun o => p ← limit_price (order o); inv_ray_round p true) (bids bk);
  match list_max ps with
  | Some p => Ret p
  | None => ray_of_sqrt (MAX_SQRT_RATIO - 1)
  end.

(** The key of a sort that reads limit prices; top-of-block orders are not in a
    book, and the others just return their price. *)
Definition limit_of o : U256 := match limit_price (order o) with Ret p => p | Panic => 0 end.

(** [build_book]: the set of orders arrives in the order of its iteration. *)
Definition build_book (id : PoolId) (amm : option BaselinePoolState) (orders : list BookOrder)
    : OrderBook :=
  let bs := sort_by (fun a b => limit_of b ?= limit_of a) (filter (fun o => is_bid o = true) orders) in
  let ks := sort_by (fun a b => limit_of a ?= limit_of b) (filter (fun o => is_bid o = false) orders) in
  new_book id amm bs ks (Some PricePartialVolume).

(** ** Sorted books *)

Lemma sort_by_perm {A} (cmp : A -> A -> comparison) l : sort_by cmp l ≡ₚ l.
Proof. induction l as [|x l IH]; cbn; [done|]. by rewrite insert_sorted_perm, IH. Qed.

Lemma sort_by_sorted {A} (cmp : A -> A -> comparison) l : total_cmp cmp ->
  StronglySorted (fun x y => cmp x y <> Gt) (sort_by cmp l).
Proof.
  intros Hc. induction l as [|x l IH]; cbn; [constructor|]. by apply insert_sorted_sorted.
Qed.

Lemma volume_cmp_total : total_cmp volume_cmp.
Proof.
  split; [|unfold volume_cmp; repeat apply cmp_trans_then; apply cmp_trans_on].
  intros a b. unfold volume_cmp. by rewrite !then_with_opp, <-!Z.compare_antisym.
Qed.

Lemma price_partial_volume_total : total_cmp price_partial_volume.
Proof.
  destruct volume_cmp_total as [Hopp Htr]. split.
  - intros a b. unfold price_partial_volume.
    unfold bool_cmp. by rewrite !then_with_opp, <-!Z.compare_antisym, <-Hopp.
  - unfold price_partial_volume. apply cmp_trans_then; [apply cmp_trans_on|].
    apply cmp_trans_then; [|exact Htr]. apply (cmp_trans_on (fun o => Z.b2z (is_partial (order o)))).
Qed.

(** The orders of a book are the orders it was built from, each on its side. *)
Lemma build_book_orders id amm orders :
  bids (build_book id amm orders) ≡ₚ filter (fun o => is_bid o = true) orders /\
  asks (build_book id amm orders) ≡ₚ filter (fun o => is_bid o = false) orders.
Proof. cbn. by rewrite !sort_by_perm. Qed.

Lemma build_book_sorted id amm orders :
  StronglySorted (fun a b => price_partial_volume a b <> Gt) (bids (build_book id amm orders)) /\
  StronglySorted (fun a b => price_partial_volume a b <> Gt) (asks (build_book id amm orders)).
Proof. cbn. split; apply sort_by_sorted, price_partial_volume_total. Qed.

Lemma sorted_before (l1 l2 l3 : list BookOrder) a b :
  StronglySorted (fun a b => price_partial_volume a b <> Gt) (l1 ++ a :: l2 ++ b :: l3) ->
  price_partial_volume a b <> Gt.
Proof.
  induction l1 as [|x l1 IH]; intros Hs; [|inversion Hs; auto].
  inversion Hs as [|? ? _ Hall]; subst. rewrite Forall_forall in Hall. apply Hall.
  apply elem_of_app. right. left.
Qed.

(** Among the orders of one side at one price the exact orders come first: a
    partial order is never followed by an exact one.  The comments of the sort
    and of the matcher say that partial orders come first. *)
Theorem exact_orders_first id amm orders l1 l2 l3 a b
    (Hs : bids (build_book id amm orders) = l1 ++ a :: l2 ++ b :: l3 \/
          asks (build_book id amm orders) = l1 ++ a :: l2 ++ b :: l3)
    (Hp : price (priority_data a) = price (priority_data b))
    (Ha : is_partial (order a) = true) :
  is_partial (order b) = true.
Proof.
  assert (price_partial_volume a b <> Gt) as Hc.
  { destruct (build_book_sorted id amm orders) as [H1 H2].
    destruct Hs as [Hs|Hs]; rewrite Hs in *; by eapply sorted_before. }
  unfold price_partial_volume in Hc. rewrite Hp, Z.compare_refl, Ha in Hc. cbn in Hc.
  by destruct (is_partial (order b)).
Qed.
End book.
