(* ===== verification/Uniswap.v ===== *)
(** * The pools of the chain

    The model of [crates/uniswap-v4/src/uniswap/pool.rs], of the loader
    ([pool_data_loader.rs]), of the conversions of [mod.rs] and of the registry of
    pools ([primitive/pool_state.rs]): how a pool is read from the chain, how its
    ticks and its bitmap are kept, and the simulation of a swap.  The calls to the
    chain are the class [ChainReader].  The prices as floating-point numbers and the
    decoding of logs, which nothing calls, are left out. *)

From S2P Require Import Prelude Ray Orders Samples Rules StateValidation Accounts Pool Donation Book.
Open Scope Z_scope.

(** ** Conversions *)

Definition MIN_I24 : Z := - 8388608.
Definition MAX_I24 : Z := 8388607.

(** [Signed::from_be_bytes]. *)
Definition signed_of_bytes (l : list Z) : Z :=
  let m := 2 ^ (8 * Z.of_nat (length l)) in
  let v := from_be l in
  if v <? m / 2 then v else v - m.

Definition i32_to_i24 (val : i32) : option Z :=
  if negb ((MIN_I24 <=? val) && (val <=? MAX_I24)) then None
  else
    let inner := i32_wrap (Z.abs val) in
    let new := signed_of_bytes (tl (to_be_bytes 4 inner)) in
    Some (if val <? 0 then i24_wrap (- new) else new).

Definition i128_to_i256 (value : Z) : I256 :=
  let value_bytes := to_be_bytes 16 value in
  let signed_byte := if Z.land (hd 0 value_bytes) 128 =? 128 then 255 else 0 in
  signed_of_bytes (repeat signed_byte 16 ++ value_bytes).

(** ** The registry *)

Record UniswapPoolRegistry := {
  reg_pools : gmap PoolId PoolKey;
  conversion_map : gmap PoolId PoolId
}.

(** The fee that marks a pool with a dynamic fee. *)
Definition with_fee (k : PoolKey) (fee : Z) : PoolKey :=
  {| currency0 := currency0 k; currency1 := currency1 k; pk_fee := fee; tickSpacing := tickSpacing k;
     pk_hooks := pk_hooks k |}.

Definition DYNAMIC_FEE : Z := 8388608.

(** ** The loader *)

Record TickData := {
  td_initialized : bool;
  td_tick : i32;
  td_liquidity_gross : u128;
  td_liquidity_net : Z
}.

#[global] Instance TickData_eq_dec : EqDecision TickData.
Proof. solve_decision. Defined.

Record PoolDataV4 := {
  token0Decimals : Z;
  token1Decimals : Z;
  v4_liquidity : u128;
  v4_sqrtPrice : U256;
  v4_tick : i32;
  v4_liquidityNet : Z
}.

Record PoolData := {
  tokenA : Address;
  tokenADecimals : Z;
  tokenB : Address;
  tokenBDecimals : Z;
  pd_liquidity : u128;
  pd_sqrtPrice : U256;
  pd_tick : i32;
  pd_tickSpacing : i32;
  pd_fee : Z;
  pd_liquidityNet : Z
}.

Record DataLoader := {
  private_address : PoolId;
  public_address : PoolId;
  pool_registry : option UniswapPoolRegistry;
  pool_manager : option Address
}.

(** The two calls that the loader makes at a block, [None] when one fails; a batch
    of ticks comes with the number of its entries that are valid. *)
Class ChainReader : Type := {
  call_pool_data : PoolId -> Address -> Address -> Address -> option u64 -> option PoolDataV4;
  call_tick_data : PoolId -> Address -> bool -> Z -> Z -> Z -> option u64 -> option (list TickData * U256)
}.

(** The documented arithmetic of a compressed tick: the word and the bit. *)
Class BitmapLib : Type := {
  position : i32 -> Z * Z;
  position_spec : forall t, MIN_I24 <= t <= MAX_I24 -> position t = (t / 256, t mod 256)
}.

Inductive UniPoolError :=
| PoolAlreadyInitialized
| PoolNotInitialized
| ConversionError (val : i32)
| ChainError.

Inductive SwapSimulationError :=
| SimTickMath
| SimLiquidityUnderflow
| InvalidSqrtPriceLimit
| ZeroAmountSpecified.

(** ** The pool *)

Record EnhancedUniswapPool := {
  initial_ticks_per_side : Z;
  data_loader : DataLoader;
  token0 : Address;
  token0_decimals : Z;
  token1 : Address;
  token1_decimals : Z;
  block_number : u64;
  pool_liq : u128;
  pool_liq_net : Z;
  pool_price : U256;
  book_fee : Z;
  pool_tick : i32;
  pool_spacing : i32;
  pool_bitmap : gmap Z U256;
  pool_ticks : gmap i32 TickInfo
}.

Definition set_ticks (p : EnhancedUniswapPool) bm ts : EnhancedUniswapPool :=
  {| initial_ticks_per_side := initial_ticks_per_side p; data_loader := data_loader p; token0 := token0 p;
     token0_decimals := token0_decimals p; token1 := token1 p; token1_decimals := token1_decimals p;
     block_number := block_number p; pool_liq := pool_liq p; pool_liq_net := pool_liq_net p;
     pool_price := pool_price p; book_fee := book_fee p; pool_tick := pool_tick p;
     pool_spacing := pool_spacing p; pool_bitmap := bm; pool_ticks := ts |}.

Section uniswap.
Context `{HI : HashIter} `{SR : SqrtRatios} `{TL : TickLib} `{CR : ChainReader} `{BL : BitmapLib}.
Implicit Types (p : EnhancedUniswapPool) (d : DataLoader) (block : option u64).

(** *** Reading the chain *)

Definition pool_fee_of d : outcome Z :=
  r ← unwrap (pool_registry d);
  k ← unwrap (reg_pools r !! public_address d);
  Ret (pk_fee k).

Definition load_pool_data d block : outcome (result PoolData UniPoolError) :=
  r ← unwrap (pool_registry d);
  k ← unwrap (reg_pools r !! public_address d);
  m ← unwrap (pool_manager d);
  Ret match call_pool_data (private_address d) m (currency0 k) (currency1 k) block with
      | None => Err ChainError
      | Some v =>
          Ok {| tokenA := currency0 k; tokenADecimals := token0Decimals v; tokenB := currency1 k;
                tokenBDecimals := token1Decimals v; pd_liquidity := v4_liquidity v;
                pd_sqrtPrice := v4_sqrtPrice v; pd_tick := v4_tick v; pd_tickSpacing := tickSpacing k;
                pd_fee := pk_fee k; pd_liquidityNet := v4_liquidityNet v |}
      end.

Definition load_tick_data d (tick : Z) (zero_for_one : bool) (num_ticks spacing : Z) block
    : outcome (result (list TickData) UniPoolError) :=
  m ← unwrap (pool_manager d);
  match call_tick_data (private_address d) m zero_for_one tick num_ticks spacing block with
  | None => Ret (Err ChainError)
  | Some (ticks, valid_to) =>
      _ ← assert (valid_to <=? u64_max);
      Ret (Ok (take (Z.to_nat (Z.min valid_to (Z.of_nat (length ticks)))) ticks))
  end.

Definition get_tick_data_batch_request p (tick_start : Z) (zero_for_one : bool) (num_ticks : Z) block
    : outcome (result (list TickData) UniPoolError) :=
  match i32_to_i24 (pool_spacing p) with
  | None => Ret (Err (ConversionError (pool_spacing p)))
  | Some spacing => load_tick_data (data_loader p) tick_start zero_for_one num_ticks spacing block
  end.

(** *** The ticks and their bitmap *)

Definition flip_tick_if_not_init (bm : gmap Z U256) (tick spacing : i32) : outcome (gmap Z U256) :=
  _ ← assert (negb (spacing =? 0));
  let '(word_pos, bit_pos) := position (Z.quot tick spacing) in
  let mask := Z.shiftl 1 bit_pos in
  Ret match bm !! word_pos with
      | Some word =>
          if Z.land (Z.lxor word mask) mask =? mask then <[word_pos := Z.lxor word mask]> bm else bm
      | None => <[word_pos := mask]> bm
      end.

Definition flip_tick (bm : gmap Z U256) (tick spacing : i32) : outcome (gmap Z U256) :=
  _ ← assert (negb (spacing =? 0));
  let '(word_pos, bit_pos) := position (Z.quot tick spacing) in
  let mask := Z.shiftl 1 bit_pos in
  Ret match bm !! word_pos with
      | Some word => <[word_pos := Z.lxor word mask]> bm
      | None => <[word_pos := mask]> bm
      end.

Definition info_of (td : TickData) : TickInfo :=
  {| liquidity_gross := td_liquidity_gross td; liquidity_net := td_liquidity_net td;
     initialized := td_initialized td |}.

(** [unique()] keeps the first of equal items. *)
Fixpoint unique (l : list TickData) : list TickData :=
  match l with
  | [] => []
  | x :: l' => x :: filter (fun y => y <> x) (unique l')
  end.

Definition tick_cmp (a b : TickData) : comparison := td_tick a ?= td_tick b.

Fixpoint insert_ticks p (l : list TickData) : outcome EnhancedUniswapPool :=
  match l with
  | [] => Ret p
  | td :: l' =>
      bm ← flip_tick_if_not_init (pool_bitmap p) (td_tick td) (pool_spacing p);
      insert_ticks (set_ticks p bm (<[td_tick td := info_of td]> (pool_ticks p))) l'
  end.

Definition apply_ticks p (fetched : list TickData) : outcome EnhancedUniswapPool :=
  insert_ticks p (filter (fun td => td_initialized td = true) (unique (sort_by tick_cmp fetched))).

(** *** Loading the ticks *)

Definition TICKS_PER_BATCH : Z := 25.

(** The batches of one direction, each from the last tick of the one before. *)
Fixpoint load_batches (n : nat) p block (dir : bool) (current : i32) (fetched : list TickData)
    : outcome (result (i32 * list TickData) UniPoolError) :=
  match n with
  | O => Ret (Ok (current, fetched))
  | S n' =>
      match i32_to_i24 current with
      | None => Ret (Err (ConversionError current))
      | Some start =>
          res ← get_tick_data_batch_request p start dir TICKS_PER_BATCH block;
          match res with
          | Err e => Ret (Err e)
          | Ok batch =>
              match (if dir then list_min (td_tick <$> batch) else list_max (td_tick <$> batch)) with
              | None => Ret (Ok (current, fetched))
              | Some next =>
                  if Z.of_nat (length batch) =? TICKS_PER_BATCH
                  then load_batches n' p block dir next (fetched ++ batch)
                  else Ret (Ok (next, fetched ++ batch))
              end
          end
      end
  end.

Definition batch_count p : nat := Z.to_nat ((initial_ticks_per_side p + TICKS_PER_BATCH - 1) / TICKS_PER_BATCH).

Definition load_ticks_in_direction p block (dir : bool)
    : outcome (result (i32 * i32 * list TickData) UniPoolError) :=
  _ ← assert (negb (pool_spacing p =? 0));
  let extra := if Z.rem (pool_tick p) (pool_spacing p) =? 0 then 1 else 0 in
  let span := i32_wrap (i32_wrap (pool_spacing p * initial_ticks_per_side p) - extra) in
  let start := i32_wrap (pool_tick p + (if dir then span else i32_wrap (- span))) in
  res ← load_batches (batch_count p) p block dir start [];
  Ret match res with
      | Err e => Err e
      | Ok (current, fetched) => Ok (start, current, fetched)
      end.

Definition data_is_populated p : bool := negb ((token0 p =? 0) || (token1 p =? 0)).

Definition sync_ticks p block : outcome (EnhancedUniswapPool * result unit UniPoolError) :=
  if negb (data_is_populated p) then Ret (p, Err PoolAlreadyInitialized)
  else
    let p := set_ticks p ∅ ∅ in
    asks ← load_ticks_in_direction p block true;
    bids ← load_ticks_in_direction p block false;
    match asks with
    | Err e => Ret (p, Err e)
    | Ok (_, _, asks) =>
        p ← apply_ticks p asks;
        match bids with
        | Err e => Ret (p, Err e)
        | Ok (_, _, bids) => p ← apply_ticks p bids; Ret (p, Ok tt)
        end
    end.

Definition populate_data p block : outcome (EnhancedUniswapPool * result unit UniPoolError) :=
  res ← load_pool_data (data_loader p) block;
  match res with
  | Err e => Ret (p, Err e)
  | Ok v =>
      fee ← pool_fee_of (data_loader p);
      Ret ({| initial_ticks_per_side := initial_ticks_per_side p; data_loader := data_loader p;
              token0 := tokenA v; token0_decimals := tokenADecimals v; token1 := tokenB v;
              token1_decimals := tokenBDecimals v; block_number := block_number p;
              pool_liq := pd_liquidity v; pool_liq_net := pd_liquidityNet v;
              pool_price := pd_sqrtPrice v; book_fee := fee; pool_tick := pd_tick v;
              pool_spacing := pd_tickSpacing v; pool_bitmap := pool_bitmap p; pool_ticks := pool_ticks p |},
           Ok tt)
  end.

(** [update_to_block], and [initialize], which is the same. *)
Definition update_to_block p block : outcome (EnhancedUniswapPool * result unit UniPoolError) :=
  '(p, res) ← populate_data p block;
  match res with
  | Err e => Ret (p, Err e)
  | Ok _ => sync_ticks p block
  end.

Definition initialize p block : outcome (EnhancedUniswapPool * result unit UniPoolError) := update_to_block p block.

Record TickRangeToLoad := {
  range_pool_id : PoolId;
  range_start_tick : i32;
  zfo : bool;
  tick_count : Z
}.

Definition range_end_tick (r : TickRangeToLoad) (spacing : i32) : i32 :=
  if zfo r then i32_wrap (range_start_tick r - i32_wrap (tick_count r * spacing))
  else i32_wrap (range_start_tick r + i32_wrap (tick_count r * spacing)).

Definition load_more_ticks p (r : TickRangeToLoad) block : outcome (EnhancedUniswapPool * result unit UniPoolError) :=
  match i32_to_i24 (range_start_tick r) with
  | None => Ret (p, Err (ConversionError (range_start_tick r)))
  | Some start =>
      res ← get_tick_data_batch_request p start (zfo r) (tick_count r) block;
      match res with
      | Err e => Ret (p, Err e)
      | Ok ticks => p ← apply_ticks p ticks; Ret (p, Ok tt)
      end
  end.

Definition fetch_lowest_tick p : outcome i32 := unwrap (list_min (hm_keys (pool_ticks p))).
Definition fetch_highest_tick p : outcome i32 := unwrap (list_max (hm_keys (pool_ticks p))).

Definition fetch_pool_snapshot p : result (Address * Address * BaselinePoolState) UniPoolError :=
  if negb (data_is_populated p) then Err PoolNotInitialized
  else Ok (token0 p, token1 p,
    {| pool_liquidity := {| base_tick_spacing := pool_spacing p; start_tick := pool_tick p;
         start_sqrt_price := pool_price p; start_liquidity := pool_liq p;
         base_initialized_ticks := pool_ticks p; base_tick_bitmap := pool_bitmap p |};
       pool_block := block_number p; pool_fee := book_fee p |}).

(** *** Liquidity changes *)

Definition empty_info : TickInfo := {| liquidity_gross := 0; liquidity_net := 0; initialized := false |}.

Definition gross_after (before : u128) (delta : Z) : u128 :=
  if delta <? 0 then Z.max 0 (before - Z.abs delta) else u128_wrap (before + Z.abs delta).

Definition update_tick (ts : gmap i32 TickInfo) (tick : i32) (delta : Z) (upper : bool) : gmap i32 TickInfo * bool :=
  let info := default empty_info (ts !! tick) in
  let before := liquidity_gross info in
  let after := gross_after before delta in
  let flipped := negb (Bool.eqb (after =? 0) (before =? 0)) in
  (<[tick := {| liquidity_gross := after;
                liquidity_net := if upper then i128_wrap (liquidity_net info - delta)
                                 else i128_wrap (liquidity_net info + delta);
                initialized := if before =? 0 then true else initialized info |}]> ts, flipped).

Definition flip_if (b : bool) (bm : gmap Z U256) (tick spacing : i32) : outcome (gmap Z U256) :=
  if b then flip_tick bm tick spacing else Ret bm.

Definition update_position p (lower upper : i32) (delta : Z) : outcome EnhancedUniswapPool :=
  if delta =? 0 then Ret p
  else
    let '(ts, flipped_lower) := update_tick (pool_ticks p) lower delta false in
    let '(ts, flipped_upper) := update_tick ts upper delta true in
    bm ← flip_if flipped_lower (pool_bitmap p) lower (pool_spacing p);
    bm ← flip_if flipped_upper bm upper (pool_spacing p);
    let ts := if (delta <? 0) && flipped_lower then delete lower ts else ts in
    let ts := if (delta <? 0) && flipped_upper then delete upper ts else ts in
    Ret (set_ticks p bm ts).

(** *** The simulation of a swap *)

Record SwapResult := {
  amount0 : I256;
  amount1 : I256;
  sim_end_price : U256;
  sim_end_liquidity : u128;
  sim_end_tick : i32
}.

Record SimState := {
  specified_remaining : I256;
  amount_calculated : I256;
  sim_price : U256;
  sim_tick : i32;
  sim_liquidity : u128
}.

(** The liquidity after an initialised tick. *)
Definition sim_cross p (zero_for_one : bool) (tick_next : i32) (liq : u128) : result u128 SwapSimulationError :=
  let net := match pool_ticks p !! tick_next with
    | Some info => if zero_for_one then i128_wrap (- liquidity_net info) else liquidity_net info
    | None => 0
    end in
  if net <? 0 then if liq <? Z.abs net then Err SimLiquidityUnderflow else Ok (liq - Z.abs net)
  else Ok (u128_wrap (liq + Z.abs net)).

(** The tick and the liquidity after a step from one price to another. *)
Definition sim_move p (zero_for_one init : bool) (tick_next : i32) (price_next price : U256) (s : SimState)
    : result (i32 * u128) SwapSimulationError :=
  if price =? price_next then
    match (if init then sim_cross p zero_for_one tick_next (sim_liquidity s) else Ok (sim_liquidity s)) with
    | Err e => Err e
    | Ok liq => Ok (if zero_for_one then i32_wrap (tick_next - 1) else tick_next, liq)
    end
  else if negb (price =? sim_price s) then
    match get_tick_at_sqrt_ratio price with
    | None => Err SimTickMath
    | Some t => Ok (t, sim_liquidity s)
    end
  else Ok (sim_tick s, sim_liquidity s).

Definition sim_step p (limit : U256) (zero_for_one exact_input : bool) (fee : Z) (s : SimState)
    : result SimState SwapSimulationError :=
  match next_initialized_tick_within_one_word (pool_bitmap p) (sim_tick s) (pool_spacing p) zero_for_one with
  | None => Err SimTickMath
  | Some (tick_next, init) =>
      let tick_next := Z.max MIN_TICK (Z.min tick_next MAX_TICK) in
      match get_sqrt_ratio_at_tick tick_next with
      | None => Err SimTickMath
      | Some price_next =>
          let target := if (zero_for_one && (price_next <? limit)) || (negb zero_for_one && (limit <? price_next))
                        then limit else price_next in
          match compute_swap_step (sim_price s) target (sim_liquidity s) (specified_remaining s) fee with
          | None => Err SimTickMath
          | Some (price, amount_in, amount_out, fee_amount) =>
              let paid := i256_from_raw (u256_wrap (amount_in + fee_amount)) in
              let '(rem, calc) :=
                if exact_input then
                  (i256_wrap (specified_remaining s - paid),
                   i256_wrap (amount_calculated s - i256_from_raw amount_out))
                else
                  (i256_wrap (specified_remaining s + i256_from_raw amount_out),
                   i256_wrap (amount_calculated s + paid)) in
              match sim_move p zero_for_one init tick_next price_next price s with
              | Err e => Err e
              | Ok (t, liq) =>
                  Ok {| specified_remaining := rem; amount_calculated := calc; sim_price := price;
                        sim_tick := t; sim_liquidity := liq |}
              end
          end
      end
  end.

Definition sim_done (limit : U256) (s : SimState) : bool :=
  (specified_remaining s =? 0) || (sim_price s =? limit).

(** The loop, [None] when the fuel is used up. *)
Fixpoint sim_loop (fuel : nat) p (limit : U256) (zero_for_one exact_input : bool) (fee : Z) (s : SimState)
    : option (result SimState SwapSimulationError) :=
  if sim_done limit s then Some (Ok s)
  else match fuel with
  | O => None
  | S fuel' =>
      match sim_step p limit zero_for_one exact_input fee s with
      | Ok s' => sim_loop fuel' p limit zero_for_one exact_input fee s'
      | Err e => Some (Err e)
      end
  end.

(** One round for each tick between the current one and the last, and two more. *)
Definition sim_fuel (zero_for_one : bool) (tick : i32) : nat :=
  Z.to_nat (if zero_for_one then tick - MIN_TICK + 3 else MAX_TICK - tick + 3).

Definition sim_start p (amount : I256) : SimState :=
  {| specified_remaining := amount; amount_calculated := 0; sim_price := pool_price p;
     sim_tick := pool_tick p; sim_liquidity := pool_liq p |}.

Definition limit_invalid p (zero_for_one : bool) (limit : U256) : bool :=
  if zero_for_one then (pool_price p <=? limit) || (limit <=? MIN_SQRT_RATIO)
  else (limit <=? pool_price p) || (MAX_SQRT_RATIO <=? limit).

(** [_simulate_swap]; the outer [option] is the fuel. *)
Definition simulate_swap_run p (token_in : Address) (amount : I256) (price_limit : option U256) (with_fee : bool)
    : option (result SwapResult SwapSimulationError) :=
  if amount =? 0 then Some (Err ZeroAmountSpecified)
  else
    let zero_for_one := token_in =? token0 p in
    let exact_input := 0 <? amount in
    let limit := default (if zero_for_one then MIN_SQRT_RATIO + 1 else MAX_SQRT_RATIO - 1) price_limit in
    if limit_invalid p zero_for_one limit then Some (Err InvalidSqrtPriceLimit)
    else
      match sim_loop (sim_fuel zero_for_one (pool_tick p)) p limit zero_for_one exact_input
              (if with_fee then book_fee p else 0) (sim_start p amount) with
      | None => None
      | Some (Err e) => Some (Err e)
      | Some (Ok s) =>
          let spent := i256_wrap (amount - specified_remaining s) in
          let '(a0, a1) := if Bool.eqb zero_for_one exact_input then (spent, amount_calculated s)
                           else (amount_calculated s, spent) in
          Some (Ok {| amount0 := a0; amount1 := a1; sim_end_price := sim_price s;
                      sim_end_liquidity := sim_liquidity s; sim_end_tick := sim_tick s |})
      end.

Definition simulate_swap p (token_in : Address) (amount : I256) (price_limit : option U256)
    : option (result (I256 * I256) SwapSimulationError) :=
  match simulate_swap_run p token_in amount price_limit false with
  | Some (Ok r) => Some (Ok (amount0 r, amount1 r))
  | Some (Err e) => Some (Err e)
  | None => None
  end.
End uniswap.
