(* ===== verification/UniswapProps.v ===== *)
(** * Correctness of the pools

    The conversions keep their values, the bitmap of a pool marks exactly the ticks
    it holds, a synchronised pool mirrors the chain, the simulation of a swap ends
    and agrees with the swap on a snapshot of the pool. *)

From S2P Require Import Prelude Ray Orders Samples Rules StateValidation Accounts Pool Donation Book Uniswap.
Open Scope Z_scope.

(** ** Conversions *)

Lemma from_be_acc l a : foldl (fun acc b => acc * 256 + b) a l = a * 2 ^ (8 * Z.of_nat (length l)) + from_be l.
Proof.
  revert a. induction l as [|x l IH]; intros a; [cbn; lia|]. unfold from_be. cbn [foldl length].
  rewrite IH, (IH (0 * 256 + x)). replace (8 * Z.of_nat (S (length l))) with (8 + 8 * Z.of_nat (length l)) by lia.
  rewrite Z.pow_add_r by lia. change (2 ^ 8) with 256. ring.
Qed.

Lemma from_be_concat l l' : from_be (l ++ l') = from_be l * 2 ^ (8 * Z.of_nat (length l')) + from_be l'.
Proof. unfold from_be at 1. rewrite foldl_app. apply from_be_acc. Qed.

Lemma bytes_hd n v : hd 0 (to_be_bytes (S n) v) = v / 2 ^ (8 * Z.of_nat n) mod 256.
Proof.
  revert v. induction n as [|n IH]; intros v; [cbn; by rewrite Z.div_1_r|].
  change (to_be_bytes (S (S n)) v) with (to_be_bytes (S n) (v / 256) ++ [v mod 256]).
  pose proof (to_be_bytes_length (S n) (v / 256)) as Hl. specialize (IH (v / 256)).
  destruct (to_be_bytes (S n) (v / 256)) as [|x l]; [done|]. cbn [hd app] in IH |- *. rewrite IH.
  rewrite Z.div_div by lia. do 2 f_equal. change 256 with (2 ^ 8). rewrite <- Z.pow_add_r by lia. f_equal. lia.
Qed.

Lemma high_byte_set b : 0 <= b < 256 -> (Z.land b 128 =? 128) = (128 <=? b).
Proof.
  intros Hb. assert (forall k, (k < 256)%nat -> (Z.land (Z.of_nat k) 128 =? 128) = (128 <=? Z.of_nat k)) as H.
  { intros k Hk. do 256 (destruct k as [|k]; [reflexivity|]). lia. }
  specialize (H (Z.to_nat b)). rewrite Z2Nat.id in H by lia. apply H. lia.
Qed.

Lemma sign_bytes v : - 2 ^ 127 <= v < 2 ^ 127 ->
  (Z.land (hd 0 (to_be_bytes 16 v)) 128 =? 128) = (v <? 0).
Proof.
  intros Hv. rewrite bytes_hd, high_byte_set by (apply Z.mod_pos_bound; lia).
  change (8 * Z.of_nat 15) with 120. destruct (Z.ltb_spec v 0) as [Hn|Hn].
  - assert (- 128 <= v / 2 ^ 120 < 0) by (split; [apply Z.div_le_lower_bound|apply Z.div_lt_upper_bound]; lia).
    apply Z.leb_le. rewrite <- (Z.mod_unique_pos (v / 2 ^ 120) 256 (-1) (v / 2 ^ 120 + 256)); lia.
  - assert (0 <= v / 2 ^ 120 < 128) by (split; [apply Z.div_pos|apply Z.div_lt_upper_bound]; lia).
    rewrite Z.mod_small by lia. apply Z.leb_gt. lia.
Qed.

Lemma i32_to_i24_exact v : i32_to_i24 v = if (MIN_I24 <=? v) && (v <=? MAX_I24) then Some v else None.
Proof.
  unfold i32_to_i24, MIN_I24, MAX_I24. destruct ((-8388608 <=? v) && (v <=? 8388607)) eqn:E; cbn [negb]; [|done].
  apply andb_true_iff in E as [E1%Z.leb_le E2%Z.leb_le]. f_equal.
  assert (i32_wrap (Z.abs v) = Z.abs v) as -> by (unfold i32_wrap; rewrite Z.mod_small; lia).
  pose proof (from_to_bytes 4 (Z.abs v)) as Hf. pose proof (bytes_hd 3 (Z.abs v)) as Hh.
  pose proof (to_be_bytes_length 4 (Z.abs v)) as Hl.
  destruct (to_be_bytes 4 (Z.abs v)) as [|x l]; [done|]. cbn [hd tl] in Hh |- *. injection Hl as Hl.
  change (x :: l) with ([x] ++ l) in Hf. rewrite from_be_concat, Hl in Hf.
  change (8 * Z.of_nat 3) with 24 in *. change (8 * Z.of_nat 4) with 32 in Hf.
  rewrite (Z.div_small (Z.abs v)) in Hh by lia. rewrite Z.mod_small in Hh by lia. subst x.
  rewrite (Z.mod_small (Z.abs v)) in Hf by lia.
  assert (from_be l = Z.abs v) as Hb by (rewrite <- Hf; unfold from_be; cbn; lia). clear Hf.
  unfold signed_of_bytes. rewrite Hl, Hb. change (8 * Z.of_nat 3) with 24. change (2 ^ 24 / 2) with 8388608. unfold i24_wrap.
  destruct (Z.ltb_spec (Z.abs v) 8388608), (Z.ltb_spec v 0); try lia.
  + rewrite Z.mod_small; lia.
  + assert (v = - 8388608) as -> by lia. reflexivity.
Qed.

Lemma i24_value v w : i32_to_i24 v = Some w -> w = v.
Proof. rewrite i32_to_i24_exact. destruct (_ && _); [by intros [= <-]|done]. Qed.

Lemma i128_to_i256_exact v : - 2 ^ 127 <= v < 2 ^ 127 -> i128_to_i256 v = v.
Proof.
  intros Hv. unfold i128_to_i256. rewrite sign_bytes by done. unfold signed_of_bytes.
  rewrite length_app, repeat_length, to_be_bytes_length, from_be_concat, to_be_bytes_length, from_to_bytes.
  change (8 * Z.of_nat (16 + 16)) with 256. change (8 * Z.of_nat 16) with 128.
  change (2 ^ 256 / 2) with (2 ^ 255).
  destruct (Z.ltb_spec v 0).
  + change (from_be (repeat 255 16)) with (2 ^ 128 - 1).
    rewrite <- (Z.mod_unique_pos v (2 ^ 128) (-1) (v + 2 ^ 128)) by lia.
    destruct (Z.ltb_spec ((2 ^ 128 - 1) * 2 ^ 128 + (v + 2 ^ 128)) (2 ^ 255)); lia.
  + change (from_be (repeat 0 16)) with 0. rewrite Z.mod_small by lia.
    destruct (Z.ltb_spec (0 * 2 ^ 128 + v) (2 ^ 255)); lia.
Qed.

Section uniswap_props.
Context `{HI : HashIter} `{SR : SqrtRatios} `{TL : TickLib} `{CR : ChainReader} `{BL : BitmapLib}.
Implicit Types (p : EnhancedUniswapPool) (bm : gmap Z U256) (ts : gmap i32 TickInfo) (td : TickData).

(** ** The bitmap *)

(** A tick of a pool: a multiple of its spacing that fits 24 bits. *)
Definition aligned (spacing t : i32) : Prop := 0 < spacing /\ (spacing | t) /\ MIN_I24 <= t <= MAX_I24.

Definition bit_at bm (spacing t : i32) : bool :=
  let '(w, b) := position (Z.quot t spacing) in
  match bm !! w with Some word => Z.testbit word b | None => false end.

Lemma aligned_position spacing t : aligned spacing t -> exists k, t = k * spacing /\
  position (Z.quot t spacing) = (k / 256, k mod 256).
Proof.
  intros (Hs & [k ->] & Hr). exists k. split; [done|]. rewrite Z.quot_mul by lia. apply position_spec.
  unfold MIN_I24, MAX_I24 in *. nia.
Qed.

Lemma mask_missing word b : 0 <= b ->
  (Z.land (Z.lxor word (Z.shiftl 1 b)) (Z.shiftl 1 b) =? Z.shiftl 1 b) = negb (Z.testbit word b).
Proof.
  intros Hb. rewrite Z.shiftl_1_l.
  assert (Z.testbit (Z.land (Z.lxor word (2 ^ b)) (2 ^ b)) b = negb (Z.testbit word b)) as Ht.
  { rewrite Z.land_spec, Z.lxor_spec, Z.pow2_bits_true by done. by destruct (Z.testbit word b). }
  destruct (Z.testbit word b) eqn:E; cbn in *; [apply Z.eqb_neq|apply Z.eqb_eq].
  - intros H. rewrite H, Z.pow2_bits_true in Ht by done. done.
  - apply Z.bits_inj'. intros i Hi. rewrite Z.land_spec, Z.lxor_spec, Z.pow2_bits_eqb by done.
    destruct (Z.eqb_spec b i) as [<-|]; [by rewrite E|]. by rewrite andb_false_r.
Qed.

Lemma flipped_bit word b b' : 0 <= b -> Z.testbit (Z.lxor word (Z.shiftl 1 b)) b' = xorb (Z.testbit word b') (b =? b').
Proof.
  intros Hb. rewrite Z.lxor_spec, Z.shiftl_1_l, Z.pow2_bits_eqb by done. done.
Qed.

(** What writing the flipped word does to the bits of the ticks. *)
Lemma insert_word_bit bm spacing t t' word : aligned spacing t -> aligned spacing t' ->
  let '(w, b) := position (Z.quot t spacing) in
  word = default 0 (bm !! w) ->
  bit_at (<[w := Z.lxor word (Z.shiftl 1 b)]> bm) spacing t' = xorb (bit_at bm spacing t') (bool_decide (t = t')).
Proof.
  intros (k & Ht & Hp)%aligned_position Ht'. pose proof Ht' as (k' & E' & Hp')%aligned_position.
  destruct Ht' as (Hs & _). rewrite Hp. intros ->. unfold bit_at. rewrite Hp'.
  pose proof (Z.mod_pos_bound k 256 ltac:(lia)). pose proof (Z.mod_pos_bound k' 256 ltac:(lia)).
  pose proof (Z.div_mod k 256 ltac:(lia)). pose proof (Z.div_mod k' 256 ltac:(lia)).
  assert (bool_decide (t = t') = bool_decide (k = k')) as ->.
  { subst t t'. apply bool_decide_ext. split; [nia|by intros ->]. }
  rewrite lookup_insert. destruct (decide (k / 256 = k' / 256)) as [E|E].
  - rewrite flipped_bit by lia. rewrite E. replace (k mod 256 =? k' mod 256) with (bool_decide (k = k')).
    2: { destruct (Z.eqb_spec (k mod 256) (k' mod 256)); [apply bool_decide_eq_true_2|apply bool_decide_eq_false_2]; lia. }
    destruct (bm !! (k' / 256)); [done|]. cbn [default]. by rewrite Z.testbit_0_l.
  - rewrite bool_decide_eq_false_2 by lia. by rewrite xorb_false_r.
Qed.

Lemma flip_tick_bit bm spacing t bm' : aligned spacing t -> flip_tick bm t spacing = Ret bm' ->
  forall t', aligned spacing t' -> bit_at bm' spacing t' = xorb (bit_at bm spacing t') (bool_decide (t = t')).
Proof.
  intros Ht (_ & _ & H)%bind_Ret t' Ht'.
  pose proof (insert_word_bit bm spacing t t') as Hi. destruct (position (Z.quot t spacing)) as [w b].
  injection H as <-. destruct (bm !! w) as [word|] eqn:E; [by rewrite (Hi word) by done|].
  rewrite <- (Hi 0) by done. by rewrite Z.lxor_0_l.
Qed.

Lemma flip_if_not_init_bit bm spacing t bm' : aligned spacing t -> flip_tick_if_not_init bm t spacing = Ret bm' ->
  forall t', aligned spacing t' -> bit_at bm' spacing t' = bit_at bm spacing t' || bool_decide (t = t').
Proof.
  intros Ht (_ & _ & H)%bind_Ret t' Ht'. pose proof Ht as (k & _ & Hp)%aligned_position.
  pose proof (insert_word_bit bm spacing t t') as Hi. rewrite Hp in Hi, H. injection H as <-.
  pose proof (Z.mod_pos_bound k 256 ltac:(lia)).
  assert (t = t' -> bit_at bm spacing t' = match bm !! (k / 256) with Some word => Z.testbit word (k mod 256) | None => false end)
    as Hb by (intros <-; unfold bit_at; by rewrite Hp).
  destruct (bm !! (k / 256)) as [word|] eqn:E.
  - rewrite mask_missing by lia. destruct (Z.testbit word (k mod 256)) eqn:Ew; cbn [negb].
    + case_bool_decide; [by rewrite Hb|by rewrite orb_false_r].
    + rewrite (Hi word) by done. case_bool_decide; [by rewrite Hb|]. by rewrite xorb_false_r, orb_false_r.
  - replace (Z.shiftl 1 (k mod 256)) with (Z.lxor 0 (Z.shiftl 1 (k mod 256))) by apply Z.lxor_0_l.
    rewrite (Hi 0) by done. case_bool_decide; [by rewrite Hb|]. by rewrite xorb_false_r, orb_false_r.
Qed.

(** The bitmap marks exactly the ticks that the pool holds. *)
Record bitmap_ok (spacing : i32) bm ts : Prop := {
  ticks_aligned : forall t, is_Some (ts !! t) -> aligned spacing t;
  bits_exact : forall t, aligned spacing t -> bit_at bm spacing t = bool_decide (is_Some (ts !! t))
}.

Lemma bitmap_ok_empty spacing : bitmap_ok spacing ∅ ∅.
Proof.
  split; intros t; rewrite lookup_empty; [by intros []|]. intros _. unfold bit_at.
  destruct (position _). rewrite lookup_empty. by rewrite bool_decide_eq_false_2 by (by intros []).
Qed.

Lemma bitmap_ok_insert spacing bm ts t info bm' : bitmap_ok spacing bm ts -> aligned spacing t ->
  flip_tick_if_not_init bm t spacing = Ret bm' -> bitmap_ok spacing bm' (<[t := info]> ts).
Proof.
  intros [Ha Hb] Ht Hf. split; intros t'.
  - destruct (decide (t = t')) as [<-|]; [done|]. rewrite lookup_insert_ne by done. apply Ha.
  - intros Ht'. rewrite (flip_if_not_init_bit _ _ _ _ Ht Hf), Hb by done.
    destruct (decide (t = t')) as [<-|Hne].
    + rewrite lookup_insert_eq. rewrite (bool_decide_eq_true_2 (t = t)) by done. rewrite orb_true_r.
      by rewrite bool_decide_eq_true_2 by eauto.
    + rewrite lookup_insert_ne by done. by rewrite (bool_decide_eq_false_2 (t = t')), orb_false_r.
Qed.

(** ** Loading ticks *)

Lemma elem_of_unique (l : list TickData) td : td ∈ unique l <-> td ∈ l.
Proof.
  induction l as [|x l IH]; [done|]. cbn [unique]. rewrite !elem_of_cons, list_elem_of_filter, IH.
  destruct (decide (td = x)); naive_solver.
Qed.

(** The items of a batch that are inserted. *)
Definition loaded (l : list TickData) td : Prop := td ∈ l /\ td_initialized td = true.

Lemma elem_of_inserted l td :
  td ∈ filter (fun x => td_initialized x = true) (unique (sort_by tick_cmp l)) <-> loaded l td.
Proof. unfold loaded. rewrite list_elem_of_filter, elem_of_unique, sort_by_perm. naive_solver. Qed.

(** A tick of the chain. *)
Definition on_chain (chain : gmap i32 TickInfo) td : Prop := chain !! td_tick td = Some (info_of td).

Lemma insert_ticks_inv chain l p p' : insert_ticks p l = Ret p' ->
  bitmap_ok (pool_spacing p) (pool_bitmap p) (pool_ticks p) ->
  (forall td, td ∈ l -> aligned (pool_spacing p) (td_tick td) /\ on_chain chain td) ->
  p' = set_ticks p (pool_bitmap p') (pool_ticks p') /\
  bitmap_ok (pool_spacing p) (pool_bitmap p') (pool_ticks p') /\
  forall t, pool_ticks p' !! t = if decide (t ∈ td_tick <$> l) then chain !! t else pool_ticks p !! t.
Proof.
  revert p. induction l as [|td l IH]; intros p; cbn [insert_ticks].
  - intros [= <-] Hok _. split; [by destruct p|]. split; [done|]. intros t.
    rewrite decide_False; [done|]. apply not_elem_of_nil.
  - intros (bm & Hf & H)%bind_Ret Hok Hl.
    destruct (Hl td) as [Ha Hc]; [by left|]. apply IH in H as (E & Hok' & Ht).
    + split; [rewrite E at 1; done|]. split; [done|]. intros t. rewrite Ht. cbn [set_ticks pool_ticks].
      rewrite fmap_cons. destruct (decide (t ∈ td_tick <$> l)); [by rewrite decide_True by (by right)|].
      destruct (decide (t = td_tick td)) as [->|Hne].
      * rewrite lookup_insert_eq, decide_True by (by left). done.
      * rewrite lookup_insert_ne, decide_False by (rewrite ?elem_of_cons; naive_solver). done.
    + cbn. by eapply bitmap_ok_insert.
    + cbn. intros td' Htd. apply Hl. by right.
Qed.

Lemma apply_ticks_inv chain p l p' : apply_ticks p l = Ret p' ->
  bitmap_ok (pool_spacing p) (pool_bitmap p) (pool_ticks p) ->
  (forall td, loaded l td -> aligned (pool_spacing p) (td_tick td) /\ on_chain chain td) ->
  p' = set_ticks p (pool_bitmap p') (pool_ticks p') /\
  bitmap_ok (pool_spacing p) (pool_bitmap p') (pool_ticks p') /\
  (forall td, loaded l td -> pool_ticks p' !! td_tick td = chain !! td_tick td) /\
  (forall t, pool_ticks p' !! t = pool_ticks p !! t \/ exists td, loaded l td /\ td_tick td = t).
Proof.
  intros H Hok Hl. apply (insert_ticks_inv chain) in H as (E & Hok' & Ht); [|done|].
  2: { intros td Htd%elem_of_inserted. by apply Hl. }
  split; [done|]. split; [done|]. split.
  - intros td Htd. rewrite Ht, decide_True; [done|]. apply list_elem_of_fmap. exists td.
    split; [done|]. by apply elem_of_inserted.
  - intros t. rewrite Ht. destruct (decide _) as [(td & -> & Htd)%list_elem_of_fmap|]; [|by left].
    right. exists td. split; [|done]. by apply elem_of_inserted.
Qed.

Lemma insert_ticks_bitmap l p p' : insert_ticks p l = Ret p' ->
  bitmap_ok (pool_spacing p) (pool_bitmap p) (pool_ticks p) ->
  (forall td, td ∈ l -> aligned (pool_spacing p) (td_tick td)) ->
  bitmap_ok (pool_spacing p) (pool_bitmap p') (pool_ticks p').
Proof.
  revert p. induction l as [|td l IH]; intros p; cbn [insert_ticks]; [by intros [= <-]|].
  intros (bm & Hf & H)%bind_Ret Hok Hl. apply IH in H; cbn in *; [done| |intros td' ?; apply Hl; by right].
  eapply bitmap_ok_insert; [done| |done]. apply Hl. by left.
Qed.

Lemma apply_ticks_bitmap l p p' : apply_ticks p l = Ret p' ->
  bitmap_ok (pool_spacing p) (pool_bitmap p) (pool_ticks p) ->
  (forall td, loaded l td -> aligned (pool_spacing p) (td_tick td)) ->
  bitmap_ok (pool_spacing p) (pool_bitmap p') (pool_ticks p').
Proof. intros H Hok Hl. eapply insert_ticks_bitmap; [done..|]. intros td Htd%elem_of_inserted. by apply Hl. Qed.

(** What the loader of a pool returns at a block is on the chain. *)
Definition reads_chain (id : PoolId) (block : option u64) (chain : gmap i32 TickInfo) : Prop :=
  forall m dir start n spacing ticks valid, call_tick_data id m dir start n spacing block = Some (ticks, valid) ->
  forall td, loaded ticks td -> on_chain chain td.

(** The call that a batch of ticks comes from. *)
Lemma batch_call p start dir n block batch : get_tick_data_batch_request p start dir n block = Ret (Ok batch) ->
  exists m ticks valid, call_tick_data (private_address (data_loader p)) m dir start n (pool_spacing p) block =
    Some (ticks, valid) /\ forall td, loaded batch td -> loaded ticks td.
Proof.
  intros H. unfold get_tick_data_batch_request, load_tick_data in H.
  destruct (i32_to_i24 _) as [sp|] eqn:Es; [|done]. apply i24_value in Es as ->.
  apply bind_Ret in H as (m & _ & H).
  destruct (call_tick_data _ _ _ _ _ _ _) as [[ticks valid]|] eqn:E; [|done].
  apply bind_Ret in H as (_ & _ & [= <-]). exists m, ticks, valid. split; [done|]. intros td [Htd Hi]. split; [|done].
  by eapply elem_of_sublist, sublist_take.
Qed.

Lemma batch_on_chain chain p start dir n block batch :
  reads_chain (private_address (data_loader p)) block chain ->
  get_tick_data_batch_request p start dir n block = Ret (Ok batch) ->
  forall td, loaded batch td -> on_chain chain td.
Proof. intros Hc (m & ticks & valid & E & Hl)%batch_call td Htd. eapply Hc; [exact E|by apply Hl]. Qed.

Lemma loaded_app l l' td : loaded (l ++ l') td <-> loaded l td \/ loaded l' td.
Proof. unfold loaded. rewrite elem_of_app. naive_solver. Qed.

(** What holds of the ticks of every batch holds of the ticks of a load. *)
Definition every_batch p block (P : TickData -> Prop) : Prop :=
  forall start dir n batch, get_tick_data_batch_request p start dir n block = Ret (Ok batch) ->
  forall td, loaded batch td -> P td.

Lemma load_batches_all P n p block dir current fetched current' fetched' : every_batch p block P ->
  load_batches n p block dir current fetched = Ret (Ok (current', fetched')) ->
  (forall td, loaded fetched td -> P td) -> forall td, loaded fetched' td -> P td.
Proof.
  intros Hc. revert current fetched. induction n as [|n IH]; intros current fetched; cbn [load_batches].
  - by intros [= <- <-].
  - destruct (i32_to_i24 current) as [start|]; [|done].
    intros ([batch|e] & Hb & H)%bind_Ret Hf; [|done].
    assert (forall td, loaded (fetched ++ batch) td -> P td) as Hfb.
    { intros td [?|?]%loaded_app; [auto|by eapply Hc]. }
    destruct (if dir then _ else _); [|by injection H as <- <-].
    destruct (_ =? _); [by eapply IH|by injection H as <- <-].
Qed.

Lemma load_direction_all P p block dir start current fetched : every_batch p block P ->
  load_ticks_in_direction p block dir = Ret (Ok (start, current, fetched)) ->
  forall td, loaded fetched td -> P td.
Proof.
  intros Hc (_ & _ & H)%bind_Ret. apply bind_Ret in H as ([[c f]|e] & H & [=]). subst.
  eapply load_batches_all; [done|exact H|]. by intros td [?%not_elem_of_nil _].
Qed.

(** What a pool holds after its ticks were read again. *)
Record mirrors (chain : gmap i32 TickInfo) (loads : list TickData) p : Prop := {
  mi_bitmap : bitmap_ok (pool_spacing p) (pool_bitmap p) (pool_ticks p);
  mi_values : pool_ticks p ⊆ chain;
  mi_loaded : forall t, is_Some (pool_ticks p !! t) <-> exists td, loaded loads td /\ td_tick td = t
}.

Lemma mirrors_apply chain loads p l p' : mirrors chain loads p -> apply_ticks p l = Ret p' ->
  (forall td, loaded l td -> aligned (pool_spacing p) (td_tick td) /\ on_chain chain td) ->
  p' = set_ticks p (pool_bitmap p') (pool_ticks p') /\ mirrors chain (loads ++ l) p'.
Proof.
  intros [Hb Hv Hl] H Hon. apply (apply_ticks_inv chain) in H as (E & Hb' & Hnew & Hold); [|done..].
  assert (pool_spacing p' = pool_spacing p) as Es by (by rewrite E).
  split; [done|]. split; [by rewrite Es|..].
  - apply map_subseteq_spec. intros t info Ht. destruct (Hold t) as [Eo|(td & Htd & <-)].
    + rewrite Eo in Ht. by eapply lookup_weaken.
    + by rewrite Hnew in Ht.
  - intros t. split.
    + intros Ht. destruct (Hold t) as [Eo|(td & Htd & <-)]; [|exists td; rewrite loaded_app; auto].
      rewrite Eo in Ht. apply Hl in Ht as (td & Htd & <-). exists td. rewrite loaded_app. auto.
    + intros (td & [Htd|Htd]%loaded_app & <-); [|rewrite Hnew by done; exists (info_of td); by apply Hon].
      destruct (Hold (td_tick td)) as [->|(td' & Htd' & Et)]; [apply Hl; eauto|].
      rewrite <- Et, Hnew by done. exists (info_of td'). by apply Hon.
Qed.

Lemma insert_ticks_frame l p p' : insert_ticks p l = Ret p' -> p' = set_ticks p (pool_bitmap p') (pool_ticks p').
Proof.
  revert p. induction l as [|td l IH]; intros p; cbn; [intros [= <-]; by destruct p|].
  intros (bm & _ & H%IH)%bind_Ret. by rewrite H at 1.
Qed.

Lemma sync_ticks_frame p block p' res : sync_ticks p block = Ret (p', res) ->
  p' = set_ticks p (pool_bitmap p') (pool_ticks p').
Proof.
  unfold sync_ticks. destruct (negb _); [intros [= <- _]; by destruct p|].
  intros (ra & _ & H)%bind_Ret. apply bind_Ret in H as (rb & _ & H).
  destruct ra as [[[? ?] la]|]; [|by injection H as <- _].
  apply bind_Ret in H as (q1 & H1%insert_ticks_frame & H).
  destruct rb as [[[? ?] lb]|]; [|injection H as <- _; by rewrite H1 at 1].
  apply bind_Ret in H as (q2 & H2%insert_ticks_frame & [= <- _]). rewrite H2 at 1. by rewrite H1.
Qed.

Lemma sync_ticks_inv chain p block p' : sync_ticks p block = Ret (p', Ok tt) ->
  every_batch p block (fun td => aligned (pool_spacing p) (td_tick td) /\ on_chain chain td) ->
  data_is_populated p = true /\ p' = set_ticks p (pool_bitmap p') (pool_ticks p') /\
  exists s c asks s' c' bids,
    load_ticks_in_direction (set_ticks p ∅ ∅) block true = Ret (Ok (s, c, asks)) /\
    load_ticks_in_direction (set_ticks p ∅ ∅) block false = Ret (Ok (s', c', bids)) /\
    mirrors chain (asks ++ bids) p'.
Proof.
  intros H Hc. unfold sync_ticks in H. destruct (data_is_populated p) eqn:Ed; [|done]. cbn [negb] in H.
  set (p0 := set_ticks p ∅ ∅) in *. apply bind_Ret in H as (ra & Ha & H). apply bind_Ret in H as (rb & Hb & H).
  destruct ra as [[[s c] asks]|e]; [|done]. apply bind_Ret in H as (p1 & H1 & H).
  destruct rb as [[[s' c'] bids]|e]; [|done]. apply bind_Ret in H as (p2 & H2 & [= <-]).
  assert (mirrors chain [] p0) as H0.
  { split; [apply bitmap_ok_empty|apply map_empty_subseteq|]. intros t. cbn. rewrite lookup_empty.
    split; [by intros []|]. by intros (td & [?%not_elem_of_nil _] & _). }
  apply (mirrors_apply chain [] p0) in H1 as (E1 & M1); [|done|].
  2: { eapply load_direction_all; [|exact Ha]. exact Hc. }
  apply (mirrors_apply chain asks p1) in H2 as (E2 & M2); [|done|].
  2: { rewrite E1. eapply load_direction_all; [|exact Hb]. exact Hc. }
  split; [done|]. split; [rewrite E2 at 1; by rewrite E1|]. by exists s, c, asks, s', c', bids.
Qed.

(** What bringing a pool to a block reads and writes. *)
Record updated p block p' (k : PoolKey) (v : PoolDataV4) : Prop := {
  up_key : exists r, pool_registry (data_loader p) = Some r /\ reg_pools r !! public_address (data_loader p) = Some k;
  up_call : exists m, pool_manager (data_loader p) = Some m /\
    call_pool_data (private_address (data_loader p)) m (currency0 k) (currency1 k) block = Some v;
  up_loader : data_loader p' = data_loader p;
  up_block : block_number p' = block_number p;
  up_pair : (token0 p', token1 p', pool_spacing p', book_fee p') = (currency0 k, currency1 k, tickSpacing k, pk_fee k);
  up_state : (pool_price p', pool_tick p', pool_liq p') = (v4_sqrtPrice v, v4_tick v, v4_liquidity v);
  up_live : data_is_populated p' = true;
  up_sync : exists q, set_ticks p' ∅ ∅ = set_ticks q ∅ ∅ /\ sync_ticks q block = Ret (p', Ok tt)
}.

Lemma update_inv p block p' : update_to_block p block = Ret (p', Ok tt) -> exists k v, updated p block p' k v.
Proof.
  unfold update_to_block, populate_data, load_pool_data. intros ([p1 res] & Hp & H)%bind_Ret.
  apply bind_Ret in Hp as (x & (r & Hr & Hx)%bind_Ret & Hp). apply bind_Ret in Hx as (k & Hk & Hx).
  apply bind_Ret in Hx as (m & Hm & [= <-]).
  destruct (call_pool_data _ _ _ _ _) as [v|] eqn:Ev; [|injection Hp as <- <-; done].
  apply bind_Ret in Hp as (fee & Hfee & [= <- <-]). unfold pool_fee_of in Hfee.
  rewrite Hr in Hfee. cbn [mbind outcome_bind] in Hfee. rewrite Hk in Hfee. injection Hfee as <-.
  apply unwrap_Ret in Hr, Hk, Hm. exists k, v. pose proof (sync_ticks_frame _ _ _ _ H) as E.
  split; try by rewrite E.
  - by exists r.
  - by exists m.
  - rewrite E. unfold sync_ticks in H. change (data_is_populated (set_ticks ?q _ _)) with (data_is_populated q).
    destruct (data_is_populated _); [done|]. by injection H.
  - eexists. split; [|exact H]. by rewrite E.
Qed.

(** C26. A pool that was brought to a block mirrors the chain.  Its tokens, spacing and
    fee are those of its key, its price, tick and liquidity those of the call at the
    block; the ticks it holds are the initialised ones that the two loads returned,
    each with its value on the chain; and its bitmap marks exactly these ticks.  The
    block number of the pool does not change. *)
Theorem updated_pool_mirrors_chain chain p block p'
    (H : update_to_block p block = Ret (p', Ok tt))
    (Hc : reads_chain (private_address (data_loader p)) block chain)
    (Hal : forall t, is_Some (chain !! t) -> aligned (pool_spacing p') t) :
  (exists r k m v, pool_registry (data_loader p) = Some r /\
    reg_pools r !! public_address (data_loader p) = Some k /\ pool_manager (data_loader p) = Some m /\
    call_pool_data (private_address (data_loader p)) m (currency0 k) (currency1 k) block = Some v /\
    (token0 p', token1 p', pool_spacing p', book_fee p') = (currency0 k, currency1 k, tickSpacing k, pk_fee k) /\
    (pool_price p', pool_tick p', pool_liq p') = (v4_sqrtPrice v, v4_tick v, v4_liquidity v)) /\
  (exists s c asks s' c' bids,
    load_ticks_in_direction (set_ticks p' ∅ ∅) block true = Ret (Ok (s, c, asks)) /\
    load_ticks_in_direction (set_ticks p' ∅ ∅) block false = Ret (Ok (s', c', bids)) /\
    mirrors chain (asks ++ bids) p') /\
  block_number p' = block_number p.
Proof.
  apply update_inv in H as (k & v & [(r & Hr & Hk) (m & Hm & Hv) Hl Hb Hp Hs _ (q & Eq & H)]).
  pose proof (sync_ticks_frame _ _ _ _ H) as E.
  assert (private_address (data_loader q) = private_address (data_loader p) /\ pool_spacing q = pool_spacing p')
    as [El Es].
  { rewrite <- Hl, E. done. }
  apply (sync_ticks_inv chain) in H as (_ & _ & s & c & asks & s' & c' & bids & Ha & Hb' & M);
    [|intros ???? Hq td Htd; assert (on_chain chain td) by (eapply batch_on_chain; [by rewrite El|done..]);
      split; [rewrite Es; apply Hal; by eexists|done]].
  split; [by exists r, k, m, v|]. split; [|done]. exists s, c, asks, s', c', bids. by rewrite Eq.
Qed.

(** The calls return ticks of the spacing that was asked for. *)
Definition aligned_reads : Prop :=
  forall id m dir start n spacing block ticks valid, call_tick_data id m dir start n spacing block = Some (ticks, valid) ->
  forall td, loaded ticks td -> aligned spacing (td_tick td).

Lemma batch_aligned p block : aligned_reads -> every_batch p block (fun td => aligned (pool_spacing p) (td_tick td)).
Proof. intros Hr ???? (m & ticks & valid & E & Hl)%batch_call td Htd. eapply Hr; [exact E|by apply Hl]. Qed.

Lemma sync_bitmap p block p' : aligned_reads -> sync_ticks p block = Ret (p', Ok tt) ->
  bitmap_ok (pool_spacing p') (pool_bitmap p') (pool_ticks p').
Proof.
  intros Hr H. assert (pool_spacing p' = pool_spacing p) as -> by (apply sync_ticks_frame in H; by rewrite H).
  unfold sync_ticks in H. destruct (negb _); [done|].
  apply bind_Ret in H as (ra & Ha & H). apply bind_Ret in H as (rb & Hb & H).
  destruct ra as [[[s c] asks]|e]; [|done]. apply bind_Ret in H as (p1 & H1 & H).
  destruct rb as [[[s' c'] bids]|e]; [|done]. apply bind_Ret in H as (p2 & H2 & [= <-]).
  assert (pool_spacing p1 = pool_spacing p) as E1 by (unfold apply_ticks in H1; apply insert_ticks_frame in H1; by rewrite H1).
  rewrite <- E1. eapply apply_ticks_bitmap; [exact H2|rewrite E1|rewrite E1].
  - eapply (apply_ticks_bitmap _ (set_ticks p ∅ ∅)); [exact H1|apply bitmap_ok_empty|].
    eapply load_direction_all; [|exact Ha]. exact (batch_aligned (set_ticks p ∅ ∅) block Hr).
  - eapply load_direction_all; [|exact Hb]. exact (batch_aligned (set_ticks p ∅ ∅) block Hr).
Qed.

Lemma insert_ticks_grow l p p' t : insert_ticks p l = Ret p' -> is_Some (pool_ticks p !! t) -> is_Some (pool_ticks p' !! t).
Proof.
  revert p. induction l as [|td l IH]; intros p; cbn [insert_ticks]; [by intros [= <-]|].
  intros (bm & _ & H)%bind_Ret Ht. eapply IH; [exact H|]. cbn. rewrite lookup_insert_is_Some. destruct (decide (td_tick td = t)); auto.
Qed.

(** Loading more ticks changes nothing but the ticks, loses none of them, and keeps
    the bitmap exact. *)
Lemma more_ticks_inv p r block p' : aligned_reads -> load_more_ticks p r block = Ret (p', Ok tt) ->
  bitmap_ok (pool_spacing p) (pool_bitmap p) (pool_ticks p) ->
  p' = set_ticks p (pool_bitmap p') (pool_ticks p') /\
  bitmap_ok (pool_spacing p) (pool_bitmap p') (pool_ticks p') /\
  forall t, is_Some (pool_ticks p !! t) -> is_Some (pool_ticks p' !! t).
Proof.
  intros Hr H Hok. unfold load_more_ticks in H. destruct (i32_to_i24 _); [|done].
  apply bind_Ret in H as ([ticks|e] & Hb & H); [|done]. apply bind_Ret in H as (p1 & H1 & [= <-]).
  split; [by eapply insert_ticks_frame|]. split; [|intros t; by eapply insert_ticks_grow].
  eapply apply_ticks_bitmap; [done..|]. by eapply batch_aligned.
Qed.

Lemma foldl_elem (f : Z -> Z -> Z) (l : list Z) x : (forall a b, f a b = a \/ f a b = b) ->
  foldl f x l ∈ x :: l.
Proof.
  intros Hf. revert x. induction l as [|y l IH]; intros x; cbn; [by left|].
  specialize (IH (f x y)). destruct (Hf x y) as [E|E]; rewrite E in IH |- *; set_solver.
Qed.

Lemma list_min_elem (l : list Z) m : list_min l = Some m -> m ∈ l.
Proof. destruct l; [done|]. cbn. intros [= <-]. apply foldl_elem. lia. Qed.
Lemma foldl_min_le (l : list Z) x y : y ∈ x :: l -> foldl Z.min x l <= y.
Proof.
  revert x. induction l as [|z l IH]; intros x; cbn; [by intros ->%list_elem_of_singleton|].
  rewrite !elem_of_cons. intros Hy. destruct (decide (y ∈ l)); [apply IH; by right|].
  transitivity (Z.min x z); [|destruct Hy as [->|[->|?]]; [lia..|done]].
  clear -l. generalize (Z.min x z).
  induction l as [|w l IH]; intros u; cbn; [done|]. etransitivity; [apply IH|lia].
Qed.
Lemma foldl_max_ge (l : list Z) x y : y ∈ x :: l -> y <= foldl Z.max x l.
Proof.
  revert x. induction l as [|z l IH]; intros x; cbn; [by intros ->%list_elem_of_singleton|].
  rewrite !elem_of_cons. intros Hy. destruct (decide (y ∈ l)); [apply IH; by right|].
  transitivity (Z.max x z); [destruct Hy as [->|[->|?]]; [lia..|done]|]. clear -l. generalize (Z.max x z).
  induction l as [|w l IH]; intros u; cbn; [done|]. etransitivity; [|apply IH]. lia.
Qed.

Lemma list_min_le (l : list Z) m t : list_min l = Some m -> t ∈ l -> m <= t.
Proof. destruct l; [done|]. cbn. intros [= <-]. apply foldl_min_le. Qed.
Lemma list_max_ge (l : list Z) m t : list_max l = Some m -> t ∈ l -> t <= m.
Proof. destruct l; [done|]. cbn. intros [= <-]. apply foldl_max_ge. Qed.

(** ** Updates do not fail *)

(** Every call for ticks of a pool succeeds, with ticks that fit 24 bits. *)
Definition calls_succeed p block : Prop :=
  forall m dir start n, pool_manager (data_loader p) = Some m -> exists ticks valid,
    call_tick_data (private_address (data_loader p)) m dir start n (pool_spacing p) block = Some (ticks, valid) /\
    valid <= u64_max /\ forall td, td ∈ ticks -> MIN_I24 <= td_tick td <= MAX_I24.

Lemma fits_i24 v : MIN_I24 <= v <= MAX_I24 -> i32_to_i24 v = Some v.
Proof. intros. rewrite i32_to_i24_exact. by rewrite !(proj2 (Z.leb_le _ _)) by lia. Qed.

Lemma batch_returns p start dir n block m : calls_succeed p block -> pool_manager (data_loader p) = Some m ->
  MIN_I24 <= pool_spacing p <= MAX_I24 -> exists batch, get_tick_data_batch_request p start dir n block = Ret (Ok batch) /\
    forall t, t ∈ td_tick <$> batch -> MIN_I24 <= t <= MAX_I24.
Proof.
  intros Hc Hm Hs. destruct (Hc m dir start n Hm) as (ticks & valid & E & Hv & Ht).
  unfold get_tick_data_batch_request, load_tick_data. rewrite fits_i24, Hm by done. cbn [unwrap mbind outcome_bind].
  rewrite E. unfold assert. rewrite (proj2 (Z.leb_le _ _)) by done. eexists. split; [done|].
  intros t (td & -> & Htd)%list_elem_of_fmap. apply Ht. by eapply elem_of_sublist, sublist_take.
Qed.

Lemma load_batches_returns n p block dir m current fetched : calls_succeed p block ->
  pool_manager (data_loader p) = Some m -> MIN_I24 <= pool_spacing p <= MAX_I24 -> MIN_I24 <= current <= MAX_I24 ->
  exists res, load_batches n p block dir current fetched = Ret (Ok res).
Proof.
  intros Hc Hm Hs. revert current fetched. induction n as [|n IH]; intros current fetched Hcur; cbn [load_batches]; [by eexists|].
  rewrite fits_i24 by done. destruct (batch_returns p current dir TICKS_PER_BATCH block m) as (batch & -> & Hb); [done..|].
  cbn [mbind outcome_bind].
  destruct (if dir then list_min (td_tick <$> batch) else list_max (td_tick <$> batch)) as [next|] eqn:E; [|by eexists].
  assert (MIN_I24 <= next <= MAX_I24) by (apply Hb; destruct dir; [by apply list_min_elem|by apply list_max_elem]).
  destruct (_ =? _); [by apply IH|by eexists].
Qed.

Lemma insert_ticks_returns l p : pool_spacing p <> 0 -> exists p', insert_ticks p l = Ret p'.
Proof.
  revert p. induction l as [|td l IH]; intros p Hs; cbn [insert_ticks]; [by eexists|].
  unfold flip_tick_if_not_init, assert. rewrite (proj2 (Z.eqb_neq _ _)) by done. cbn [negb mbind outcome_bind].
  destruct (position _). cbn [mbind outcome_bind]. by apply IH.
Qed.

(** The first tick that a direction asks for, when nothing overflows. *)
Lemma start_tick_value p (dir : bool) : 0 < pool_spacing p -> 0 <= initial_ticks_per_side p ->
  - 887272 <= pool_tick p <= 887272 -> pool_spacing p * initial_ticks_per_side p + 887272 <= MAX_I24 ->
  let extra := if Z.rem (pool_tick p) (pool_spacing p) =? 0 then 1 else 0 in
  let span := i32_wrap (i32_wrap (pool_spacing p * initial_ticks_per_side p) - extra) in
  MIN_I24 <= i32_wrap (pool_tick p + (if dir then span else i32_wrap (- span))) <= MAX_I24.
Proof.
  intros Hs Hn Ht Hf. unfold MIN_I24, MAX_I24 in *. pose proof (Z.mul_nonneg_nonneg (pool_spacing p) (initial_ticks_per_side p)).
  cbn. set (x := pool_spacing p * initial_ticks_per_side p) in *. set (e := if _ =? _ then 1 else 0).
  assert (0 <= e <= 1) by (unfold e; destruct (_ =? _); lia).
  rewrite (i32_wrap_small x), (i32_wrap_small (x - e)) by lia. destruct dir.
  - rewrite i32_wrap_small; lia.
  - rewrite (i32_wrap_small (- (x - e))), i32_wrap_small; lia.
Qed.

Lemma load_direction_returns p block dir m : calls_succeed p block -> pool_manager (data_loader p) = Some m ->
  0 < pool_spacing p -> 0 <= initial_ticks_per_side p -> - 887272 <= pool_tick p <= 887272 ->
  pool_spacing p <= MAX_I24 -> pool_spacing p * initial_ticks_per_side p + 887272 <= MAX_I24 ->
  exists s c l, load_ticks_in_direction p block dir = Ret (Ok (s, c, l)).
Proof.
  intros Hc Hm Hs Hn Ht Hmax Hf. unfold load_ticks_in_direction, assert.
  rewrite (proj2 (Z.eqb_neq (pool_spacing p) 0)) by lia. cbn [negb mbind outcome_bind].
  pose proof (start_tick_value p dir Hs Hn Ht Hf) as Hst. cbn zeta in Hst. set (start := i32_wrap _) in *.
  destruct (load_batches_returns (batch_count p) p block dir m start []) as [[c l] ->]; [done| |unfold MIN_I24; lia|done|].
  - done.
  - by eexists _, _, _.
Qed.

Lemma sync_returns p block m : data_is_populated p = true -> calls_succeed p block ->
  pool_manager (data_loader p) = Some m -> 0 < pool_spacing p -> 0 <= initial_ticks_per_side p ->
  - 887272 <= pool_tick p <= 887272 -> pool_spacing p <= MAX_I24 ->
  pool_spacing p * initial_ticks_per_side p + 887272 <= MAX_I24 -> exists p', sync_ticks p block = Ret (p', Ok tt).
Proof.
  intros Hp Hc Hm Hs Hn Ht Hmax Hf. unfold sync_ticks. rewrite Hp. cbn [negb].
  destruct (load_direction_returns (set_ticks p ∅ ∅) block true m) as (s & c & asks & ->); [done..|].
  destruct (load_direction_returns (set_ticks p ∅ ∅) block false m) as (s' & c' & bids & ->); [done..|].
  cbn [mbind outcome_bind]. unfold apply_ticks.
  destruct (insert_ticks_returns (filter (fun td => td_initialized td = true) (unique (sort_by tick_cmp asks)))
    (set_ticks p ∅ ∅)) as [p1 H1]; [cbn; lia|]. rewrite H1. cbn [mbind outcome_bind].
  destruct (insert_ticks_returns (filter (fun td => td_initialized td = true) (unique (sort_by tick_cmp bids))) p1)
    as [p2 ->]; [apply insert_ticks_frame in H1; rewrite H1; cbn; lia|]. by eexists.
Qed.

(** An update fails only when the chain does or when the ticks around the pool do
    not fit 24 bits: if the calls succeed and the ticks that are asked for on both
    sides of the current one fit, the pool is read, whatever it was before. *)
Theorem update_succeeds p block r k m v
    (Hr : pool_registry (data_loader p) = Some r) (Hk : reg_pools r !! public_address (data_loader p) = Some k)
    (Hm : pool_manager (data_loader p) = Some m)
    (Hv : call_pool_data (private_address (data_loader p)) m (currency0 k) (currency1 k) block = Some v)
    (Htok : currency0 k <> 0 /\ currency1 k <> 0) (Hn : 0 <= initial_ticks_per_side p)
    (Hs : 0 < tickSpacing k <= MAX_I24) (Ht : - 887272 <= v4_tick v <= 887272)
    (Hf : tickSpacing k * initial_ticks_per_side p + 887272 <= MAX_I24)
    (Hc : forall dir start n, exists ticks valid,
      call_tick_data (private_address (data_loader p)) m dir start n (tickSpacing k) block = Some (ticks, valid) /\
      valid <= u64_max /\ forall td, td ∈ ticks -> MIN_I24 <= td_tick td <= MAX_I24) :
  exists p', update_to_block p block = Ret (p', Ok tt).
Proof.
  unfold update_to_block, populate_data, load_pool_data, pool_fee_of. rewrite Hr. cbn [unwrap mbind outcome_bind].
  rewrite Hk. cbn [unwrap mbind outcome_bind]. rewrite Hm. cbn [unwrap mbind outcome_bind]. rewrite Hv.
  cbn [mbind outcome_bind]. eapply sync_returns; cbn; try done; try lia.
  - unfold data_is_populated. cbn. rewrite !(proj2 (Z.eqb_neq _ _)) by apply Htok. done.
  - intros m' dir start n. cbn. rewrite Hm. intros [= <-]. apply Hc.
Qed.

(** A pool whose ticks around the current one do not fit 24 bits cannot be read. *)
Lemma wide_spacing_fails p block m : data_is_populated p = true -> pool_manager (data_loader p) = Some m ->
  0 < pool_spacing p -> 0 < initial_ticks_per_side p <= 65535 -> 0 <= pool_tick p <= 887272 ->
  MAX_I24 + 1 < pool_spacing p * initial_ticks_per_side p < 2 ^ 30 ->
  exists p' t, sync_ticks p block = Ret (p', Err (ConversionError t)) \/ sync_ticks p block = Panic.
Proof.
  intros Hp Hm Hs Hn Ht Hw. unfold sync_ticks. rewrite Hp. cbn [negb].
  unfold MAX_I24 in Hw. set (x := pool_spacing p * initial_ticks_per_side p) in *.
  set (e := if Z.rem (pool_tick p) (pool_spacing p) =? 0 then 1 else 0).
  assert (0 <= e <= 1) by (unfold e; destruct (_ =? _); lia).
  assert (load_ticks_in_direction (set_ticks p ∅ ∅) block true = Ret (Err (ConversionError (pool_tick p + (x - e))))) as ->.
  { unfold load_ticks_in_direction, assert. cbn [set_ticks pool_spacing pool_tick initial_ticks_per_side].
    rewrite (proj2 (Z.eqb_neq (pool_spacing p) 0)) by lia. cbn [negb mbind outcome_bind]. fold x e.
    rewrite (i32_wrap_small x), (i32_wrap_small (x - e)), (i32_wrap_small (pool_tick p + (x - e))) by lia.
    assert (exists n, batch_count (set_ticks p ∅ ∅) = S n) as [n ->].
    { unfold batch_count, TICKS_PER_BATCH. cbn. exists (Z.to_nat ((initial_ticks_per_side p + 25 - 1) / 25 - 1)).
      assert (1 <= (initial_ticks_per_side p + 25 - 1) / 25) by (apply Z.div_le_lower_bound; lia). lia. }
    cbn [load_batches]. rewrite i32_to_i24_exact. unfold MIN_I24, MAX_I24.
    rewrite (proj2 (Z.leb_gt (pool_tick p + (x - e)) 8388607)) by lia. rewrite andb_false_r. done. }
  cbn [mbind outcome_bind].
  destruct (load_ticks_in_direction _ _ false); cbn [mbind outcome_bind]; [by eexists _, _; left|exists p, 0; by right].
Qed.

(** ** Liquidity changes *)

(** Every tick that is held has liquidity. *)
Definition liquid ts : Prop := forall t info, ts !! t = Some info -> 0 < liquidity_gross info <= u128_max.

(** The change of one tick of a position, with its bit and its removal. *)
Definition change_tick bm ts (spacing t : i32) (delta : Z) (upper : bool) : outcome (gmap Z U256 * gmap i32 TickInfo) :=
  let '(ts', flipped) := update_tick ts t delta upper in
  bm' ← flip_if flipped bm t spacing;
  Ret (bm', if (delta <? 0) && flipped then delete t ts' else ts').

(** A change that the chain accepts: what is added fits, what is removed is there. *)
Definition change_fits ts (t : i32) (delta : Z) : Prop :=
  let gross := liquidity_gross (default empty_info (ts !! t)) in
  delta <> 0 /\ 0 <= gross + delta <= u128_max.

Lemma change_tick_ok bm ts spacing t delta upper bm' ts' : bitmap_ok spacing bm ts -> liquid ts ->
  aligned spacing t -> change_fits ts t delta -> change_tick bm ts spacing t delta upper = Ret (bm', ts') ->
  bitmap_ok spacing bm' ts' /\ liquid ts' /\ (forall t', t' <> t -> ts' !! t' = ts !! t').
Proof.
  intros [Ha Hb] Hl Ht [Hd Hr] H. unfold change_tick, update_tick in H.
  set (info := default empty_info (ts !! t)) in *. set (g := liquidity_gross info) in *.
  assert (gross_after g delta = g + delta) as Eg.
  { unfold gross_after. destruct (Z.ltb_spec delta 0); [lia|]. unfold u128_wrap, u128_max in *. rewrite Z.mod_small; lia. }
  rewrite Eg in H.
  assert (is_Some (ts !! t) <-> g <> 0) as Hg.
  { unfold g, info. destruct (ts !! t) as [i|] eqn:E; cbn; [|split; [by intros []|done]].
    specialize (Hl t i E). split; [lia|eauto]. }
  assert (0 <= g) as Hg0 by (unfold g, info; destruct (ts !! t) as [i|] eqn:E; cbn; [specialize (Hl t i E)|]; lia).
  apply bind_Ret in H as (bm1 & Hf & [= <- <-]).
  assert (forall t', aligned spacing t' -> bit_at bm1 spacing t' =
    if decide (t = t') then negb (g + delta =? 0) else bit_at bm spacing t') as Hbit.
  { intros t' Ht'. unfold flip_if in Hf. destruct (decide (t = t')) as [<-|Hne].
    - specialize (Hb t Ht). destruct (Z.eqb_spec (g + delta) 0), (Z.eqb_spec g 0); cbn in Hf; try lia.
      + rewrite (flip_tick_bit _ _ _ _ Ht Hf), Hb by done. rewrite !bool_decide_eq_true_2 by (by rewrite ?Hg). done.
      + rewrite (flip_tick_bit _ _ _ _ Ht Hf), Hb by done.
        rewrite (bool_decide_eq_true_2 (t = t)), bool_decide_eq_false_2 by (by rewrite ?Hg; auto). done.
      + injection Hf as <-. rewrite Hb. by rewrite bool_decide_eq_true_2 by (by rewrite Hg).
    - destruct (negb _); [|by injection Hf as <-].
      by rewrite (flip_tick_bit _ _ _ _ Ht Hf), bool_decide_eq_false_2, xorb_false_r. }
  match goal with |- bitmap_ok _ _ ?x /\ _ => set (ts2 := x) end.
  assert (forall t', ts2 !! t' = if decide (t = t') then (if g + delta =? 0 then None else ts2 !! t) else ts !! t') as Hts.
  { intros t'. unfold ts2. destruct (decide (t = t')) as [<-|Hne].
    - destruct (Z.eqb_spec (g + delta) 0), (Z.eqb_spec g 0); cbn; try lia; destruct (Z.ltb_spec delta 0); cbn; try lia;
        rewrite ?lookup_delete_eq, ?lookup_insert_eq; done.
    - destruct (_ && _); rewrite ?lookup_delete_ne, ?lookup_insert_ne by done; done. }
  assert (g + delta <> 0 -> exists i, ts2 !! t = Some i /\ liquidity_gross i = g + delta) as Hin.
  { intros Hne. unfold ts2. destruct (Z.eqb_spec (g + delta) 0); [done|].
    destruct (Z.eqb_spec g 0); cbn; [destruct (Z.ltb_spec delta 0); [lia|]|]; rewrite ?andb_false_r;
      cbn; rewrite lookup_insert_eq; eauto. }
  split; [split; intros t'|split].
  - rewrite Hts. destruct (decide (t = t')) as [<-|]; [done|]. apply Ha.
  - intros Ht'. rewrite Hbit, Hts by done. destruct (decide (t = t')) as [<-|]; [|by apply Hb].
    destruct (Z.eqb_spec (g + delta) 0); cbn.
    + done.
    + destruct (Hin n) as (i & -> & _). by rewrite bool_decide_eq_true_2 by eauto.
  - intros t' i. rewrite Hts. destruct (decide (t = t')) as [<-|]; [|apply Hl].
    destruct (Z.eqb_spec (g + delta) 0); [done|]. destruct (Hin n) as (i' & -> & Ei). intros [= <-]. lia.
  - intros t' Hne. rewrite Hts. by rewrite decide_False by done.
Qed.

Lemma update_position_split p lower upper delta p' : lower <> upper -> delta <> 0 ->
  update_position p lower upper delta = Ret p' ->
  exists bm ts, change_tick (pool_bitmap p) (pool_ticks p) (pool_spacing p) lower delta false = Ret (bm, ts) /\
    change_tick bm ts (pool_spacing p) upper delta true = Ret (pool_bitmap p', pool_ticks p').
Proof.
  intros Hne Hd H. unfold update_position in H. rewrite (proj2 (Z.eqb_neq delta 0)) in H by done.
  destruct (update_tick (pool_ticks p) lower delta false) as [ts1 fl] eqn:El.
  destruct (update_tick ts1 upper delta true) as [ts2 fu] eqn:Eu.
  apply bind_Ret in H as (bm1 & H1 & H). apply bind_Ret in H as (bm2 & H2 & [= <-]).
  eexists _, _. unfold change_tick. rewrite El, H1. split; [reflexivity|].
  unfold update_tick in El, Eu. injection El as <- Efl. injection Eu as <- Efu.
  rewrite lookup_insert_ne in Efu |- * by done. unfold update_tick.
  set (ts1 := if (delta <? 0) && fl then _ else _).
  assert (ts1 !! upper = pool_ticks p !! upper) as Ets.
  { unfold ts1. destruct (_ && _); by rewrite ?lookup_delete_ne, lookup_insert_ne. }
  rewrite Ets, Efu, H2. cbn [mbind outcome_bind set_ticks pool_bitmap pool_ticks]. do 2 f_equal.
  unfold ts1. destruct ((delta <? 0) && fl); [|done]. by rewrite !(delete_insert_ne _ lower upper) by done.
Qed.

(** A change of a position that the chain accepts keeps the bitmap exact: a tick is
    marked as soon as it has liquidity and is unmarked and dropped with the last of
    it, and other ticks stay as they are. *)
Theorem position_change_keeps_bitmap p lower upper delta p' (Hne : lower <> upper)
    (Hb : bitmap_ok (pool_spacing p) (pool_bitmap p) (pool_ticks p)) (Hl : liquid (pool_ticks p))
    (Hlo : aligned (pool_spacing p) lower) (Hup : aligned (pool_spacing p) upper)
    (Hfl : change_fits (pool_ticks p) lower delta) (Hfu : change_fits (pool_ticks p) upper delta)
    (H : update_position p lower upper delta = Ret p') :
  bitmap_ok (pool_spacing p) (pool_bitmap p') (pool_ticks p') /\ liquid (pool_ticks p') /\
  forall t, t <> lower -> t <> upper -> pool_ticks p' !! t = pool_ticks p !! t.
Proof.
  apply update_position_split in H as (bm & ts & H1 & H2); [|done|by destruct Hfl].
  apply change_tick_ok in H1 as (Hb1 & Hl1 & E1); [|done..].
  apply change_tick_ok in H2 as (Hb2 & Hl2 & E2); [|done..|unfold change_fits; by rewrite E1 by done].
  split_and!; [done..|]. intros t Ht Ht'. by rewrite E2, E1.
Qed.

(** ** Snapshots *)

Definition in_range ts : Prop := forall t, is_Some (ts !! t) -> MIN_TICK <= t <= MAX_TICK.

Lemma snapshot_ticks_ok p t0 t1 b : in_range (pool_ticks p) -> fetch_pool_snapshot p = Ok (t0, t1, b) ->
  ticks_ok (current (pool_liquidity b)).
Proof.
  intros Hr H. unfold fetch_pool_snapshot in H. destruct (negb _); [done|]. injection H as _ _ <-.
  pose proof tick_range. split; cbn [current pool_liquidity min_tick_init max_tick_init base_initialized_ticks].
  - destruct (list_min _) as [m|] eqn:E; cbn; [|lia]. apply list_min_elem, elem_of_hm_keys in E. by apply Hr.
  - destruct (list_max _) as [m|] eqn:E; cbn; [|lia]. apply list_max_elem, elem_of_hm_keys in E. by apply Hr.
Qed.

(** ** The simulation of a swap *)

(** What a step leaves to swap in the simulation. *)
Definition sim_remaining (exact : bool) (rem : I256) (i o f : U256) : I256 :=
  if exact then i256_wrap (rem - i256_from_raw (u256_wrap (i + f))) else i256_wrap (rem + i256_from_raw o).

Definition sim_calculated (exact : bool) (calc : I256) (i o f : U256) : I256 :=
  if exact then i256_wrap (calc - i256_from_raw o) else i256_wrap (calc + i256_from_raw (u256_wrap (i + f))).

Definition clamp (t : i32) : i32 := Z.max MIN_TICK (Z.min t MAX_TICK).

Lemma sim_step_inv p limit dir exact fee s s' : sim_step p limit dir exact fee s = Ok s' ->
  exists next init pn i o f,
    next_initialized_tick_within_one_word (pool_bitmap p) (sim_tick s) (pool_spacing p) dir = Some (next, init) /\
    get_sqrt_ratio_at_tick (clamp next) = Some pn /\
    compute_swap_step (sim_price s) (step_target limit pn dir) (sim_liquidity s) (specified_remaining s) fee
      = Some (sim_price s', i, o, f) /\
    specified_remaining s' = sim_remaining exact (specified_remaining s) i o f /\
    amount_calculated s' = sim_calculated exact (amount_calculated s) i o f /\
    sim_move p dir init (clamp next) pn (sim_price s') s = Ok (sim_tick s', sim_liquidity s').
Proof.
  unfold sim_step, step_target. destruct (next_initialized_tick_within_one_word _ _ _ _) as [[next init]|]; [|done].
  fold (clamp next). destruct (get_sqrt_ratio_at_tick (clamp next)) as [pn|] eqn:Ep; [|done].
  destruct (compute_swap_step _ _ _ _ _) as [[[[q i] o] f]|] eqn:Ec; [|done].
  destruct (if exact then _ else _) as [rem calc] eqn:Er.
  destruct (sim_move _ _ _ _ _ _ _) as [[t liq]|] eqn:Em; [|done]. intros [= <-].
  exists next, init, pn, i, o, f. unfold sim_remaining, sim_calculated. split_and!; try done; destruct exact; by injection Er as <- <-.
Qed.

Lemma i256_wrap_small z : i256_min <= z <= i256_max -> i256_wrap z = z.
Proof. unfold i256_min, i256_max, i256_wrap. intros. rewrite Z.mod_small; lia. Qed.

Lemma from_raw_small z : z <= i256_max -> i256_from_raw z = z.
Proof. intros. unfold i256_from_raw. by rewrite (proj2 (Z.leb_le _ _)). Qed.

(** What remains is the same as in the swap of a snapshot. *)
Lemma sim_remaining_eq exact rem pr target liq fee q i o f : rem_ok exact rem -> rem <> 0 ->
  compute_swap_step pr target liq rem fee = Some (q, i, o, f) ->
  sim_remaining exact rem i o f = remaining_after exact rem i o f /\
  rem_ok exact (sim_remaining exact rem i o f) /\ (q <> target -> sim_remaining exact rem i o f = 0).
Proof.
  intros Hr Hne Hc. pose proof (step_amounts _ _ _ _ _ _ _ _ _ Hc) as (H1 & H2 & H3 & H4 & H5).
  pose proof (step_consumed _ _ _ _ _ _ _ _ _ Hc) as Hall.
  assert (i256_min = - 2 ^ 255 /\ i256_max = 2 ^ 255 - 1) as [Emin Emax] by done.
  unfold rem_ok, sim_remaining in *. destruct exact.
  - rewrite remaining_exact by lia. assert (u256_wrap (i + f) = i + f) as -> by (unfold u256_wrap; rewrite Z.mod_small; lia).
    rewrite from_raw_small, i256_wrap_small by lia. split; [lia|]. split; [lia|].
    intros Hq. specialize (Hall Hq). lia.
  - rewrite remaining_out by lia. rewrite from_raw_small, i256_wrap_small by lia. split; [lia|]. split; [lia|].
    intros Hq. specialize (Hall Hq). lia.
Qed.

(** The bounds between which the price of a simulation stays. *)
Definition limit_ok (dir : bool) (limit : U256) : Prop :=
  if dir then MIN_SQRT_RATIO < limit else limit < MAX_SQRT_RATIO.

Definition tick_ok (t : i32) : Prop := MIN_TICK - 1 <= t <= MAX_TICK.

Section simulation.
Context (Hmin : get_sqrt_ratio_at_tick MIN_TICK = Some MIN_SQRT_RATIO).
Context (Hmax : get_sqrt_ratio_at_tick MAX_TICK = Some MAX_SQRT_RATIO).

Lemma clamp_range t : MIN_TICK <= clamp t <= MAX_TICK.
Proof. unfold clamp. pose proof tick_range. lia. Qed.

Lemma sim_move_tick p dir init next pn price s t liq : sim_move p dir init (clamp next) pn price s = Ok (t, liq) ->
  tick_ok (sim_tick s) ->
  tick_ok t /\ (price = pn -> t = if dir then clamp next - 1 else clamp next).
Proof.
  intros H Ht. pose proof (clamp_range next). pose proof tick_range. unfold sim_move in H. unfold tick_ok in *.
  destruct (Z.eqb_spec price pn) as [Hp|Hp].
  - destruct (if init then _ else _); [|done]. injection H as <- _. destruct dir; [rewrite i32_wrap_small|]; lia.
  - split; [|done]. destruct (negb _); [|by injection H as <- _].
    destruct (get_tick_at_sqrt_ratio price) as [t'|] eqn:E; [|done]. injection H as <- _.
    apply tick_of_ratio in E as [? _]. lia.
Qed.

Lemma sim_progress p limit dir exact fee s s' : sim_step p limit dir exact fee s = Ok s' ->
  rem_ok exact (specified_remaining s) -> specified_remaining s <> 0 -> limit_ok dir limit ->
  towards dir limit (sim_price s) -> tick_ok (sim_tick s) ->
  rem_ok exact (specified_remaining s') /\ towards dir limit (sim_price s') /\ tick_ok (sim_tick s') /\
  (sim_done limit s' = true \/ if dir then sim_tick s' < sim_tick s else sim_tick s < sim_tick s').
Proof.
  intros (next & init & pn & i & o & f & Hn & Hr & Hc & Erem & _ & Hm)%sim_step_inv Hrem Hne Hl Ht Htick.
  destruct (sim_remaining_eq _ _ _ _ _ _ _ _ _ _ Hrem Hne Hc) as (_ & Hrem' & Hall). rewrite <- Erem in Hrem', Hall.
  pose proof (step_price _ _ _ _ _ _ _ _ _ Hc) as Hq. pose proof (next_tick_progress _ _ _ _ _ _ Hn) as Hprog.
  destruct (sim_move_tick _ _ _ _ _ _ _ _ _ Hm Htick) as [Htick' Hfull].
  assert (towards dir limit (sim_price s')) as Ht'.
  { unfold towards, step_target in *. destruct dir; cbn in Hq |- *.
    - destruct (Z.ltb_spec pn limit); cbn in Hq; lia.
    - destruct (Z.ltb_spec limit pn); cbn in Hq; lia. }
  split; [done|]. split; [done|]. split; [done|]. unfold sim_done.
  destruct (decide (sim_price s' = step_target limit pn dir)) as [E|E]; [|left; by rewrite Hall].
  destruct (step_target_cases limit pn dir) as [El|El]; rewrite El in E.
  { left. by rewrite E, Z.eqb_refl, orb_true_r. }
  right. rewrite (Hfull E). unfold clamp in *. unfold tick_ok, limit_ok, towards in *. rewrite E in Ht'.
  destruct dir.
  - destruct (decide (next < MIN_TICK)); [|lia].
    replace (Z.max MIN_TICK (Z.min next MAX_TICK)) with MIN_TICK in Hr by (pose proof tick_range; lia).
    rewrite Hmin in Hr. injection Hr as <-. lia.
  - destruct (decide (MAX_TICK < next)); [|lia].
    replace (Z.max MIN_TICK (Z.min next MAX_TICK)) with MAX_TICK in Hr by (pose proof tick_range; lia).
    rewrite Hmax in Hr. injection Hr as <-. lia.
Qed.

Definition rounds_left (dir : bool) (t : i32) : nat :=
  Z.to_nat (if dir then t - MIN_TICK + 2 else MAX_TICK - t + 1).

Lemma sim_loop_total fuel p limit dir exact fee s :
  rem_ok exact (specified_remaining s) -> limit_ok dir limit -> towards dir limit (sim_price s) ->
  tick_ok (sim_tick s) -> (rounds_left dir (sim_tick s) <= fuel)%nat -> is_Some (sim_loop fuel p limit dir exact fee s).
Proof.
  revert s. induction fuel as [|fuel IH]; intros s Hrem Hl Ht Htick Hf.
  - exfalso. unfold rounds_left, tick_ok in *. destruct dir; lia.
  - cbn [sim_loop]. destruct (sim_done limit s) eqn:Ed; [done|].
    destruct (sim_step p limit dir exact fee s) as [s'|e] eqn:Es; [|done].
    assert (specified_remaining s <> 0) as Hne by (apply orb_false_iff in Ed as [Ed _]; by apply Z.eqb_neq).
    destruct (sim_progress _ _ _ _ _ _ _ Es Hrem Hne Hl Ht Htick) as (Hrem' & Ht' & Htick' & [Hd|Hlt]).
    + destruct fuel; cbn [sim_loop]; by rewrite Hd.
    + apply IH; [done..|]. unfold rounds_left, tick_ok in *. destruct dir; lia.
Qed.

Lemma sim_loop_agree n n' p limit dir exact fee s a b : sim_loop n p limit dir exact fee s = Some a ->
  sim_loop n' p limit dir exact fee s = Some b -> a = b.
Proof.
  revert n' s. induction n as [|n IH]; intros [|n'] s; cbn [sim_loop]; destruct (sim_done limit s); try congruence.
  destruct (sim_step p limit dir exact fee s); [apply IH|congruence].
Qed.

Lemma sim_run_total p token_in amount price_limit fee : tick_ok (pool_tick p) -> i256_min < amount <= i256_max ->
  is_Some (simulate_swap_run p token_in amount price_limit fee).
Proof.
  intros Ht Ha. unfold simulate_swap_run. destruct (Z.eqb_spec amount 0); [done|].
  set (dir := token_in =? token0 p). set (limit := default _ price_limit).
  destruct (limit_invalid p dir limit) eqn:El; [done|].
  assert (limit_ok dir limit /\ towards dir limit (pool_price p)) as [Hl Ht'].
  { unfold limit_invalid, limit_ok, towards in *. destruct dir; apply orb_false_iff in El as [E1%Z.leb_gt E2%Z.leb_gt]; lia. }
  destruct (sim_loop_total (sim_fuel dir (pool_tick p)) p limit dir (0 <? amount) (if fee then book_fee p else 0)
    (sim_start p amount)) as [x Hx]; [by apply target_rem_ok|done..| |].
  { cbn. unfold rounds_left, sim_fuel. destruct dir; lia. }
  rewrite Hx. destruct x; [|done]. by destruct (Bool.eqb _ _).
Qed.

(** The simulation of a swap returns: whatever the bitmap, the limit and the
    amount, the loop runs at most once per tick between the current one and the last
    tick of the pool, and twice more. *)
Theorem simulation_ends p token_in amount price_limit fee (Ht : tick_ok (pool_tick p))
    (Ha : i256_min < amount <= i256_max) :
  is_Some (simulate_swap_run p token_in amount price_limit fee).
Proof. by apply sim_run_total. Qed.

(** ** The simulation and the swap of a snapshot *)

Lemma zsum_snoc {A} (f : A -> Z) l x : zsum (f <$> l ++ [x]) = zsum (f <$> l) + f x.
Proof. rewrite fmap_app, zsum_app. cbn. lia. Qed.

(** A state of the simulation and one of the swap of a snapshot of the pool. *)
Record agree p (amount : I256) (dir exact : bool) (s : SwapState) (x : SimState) : Prop := {
  ag_price : sim_price x = sqrt_price_x96 s;
  ag_tick : sim_tick x = current_tick (loop_liquidity s);
  ag_liq : sim_liquidity x = current_liquidity (loop_liquidity s);
  ag_rem : specified_remaining x = amount_remaining s;
  ag_ticks : initialized_ticks (loop_liquidity s) = pool_ticks p;
  ag_bitmap : tick_bitmap (loop_liquidity s) = pool_bitmap p;
  ag_spacing : tick_spacing (loop_liquidity s) = pool_spacing p;
  ag_out : if exact then exists k, amount_calculated x = - zsum (step_out dir <$> loop_steps s) + k * 2 ^ 256
           else amount_remaining s = amount + zsum (step_out dir <$> loop_steps s)
}.

Lemma move_agrees p l next init (dir : bool) pn price x l' :
  next_tick l dir = Some (next, init) -> MIN_TICK <= next <= MAX_TICK ->
  initialized_ticks l = pool_ticks p -> sim_tick x = current_tick l -> sim_liquidity x = current_liquidity l ->
  move_to_next_tick l price dir (price =? pn) (negb (price =? sim_price x)) = Ok l' ->
  sim_move p dir init next pn price x = Ok (current_tick l', current_liquidity l').
Proof.
  intros Hn Hr Ht Etick Eliq H. unfold move_to_next_tick in H. rewrite Hn in H. unfold sim_move.
  destruct (price =? pn).
  - destruct init.
    + unfold cross_tick in H. unfold sim_cross. rewrite Ht in H. rewrite Eliq.
      set (net := match pool_ticks p !! next with Some _ => _ | None => _ end) in *.
      destruct (net <? 0); [destruct (current_liquidity l <? Z.abs net); [done|]|]; injection H as <-; done.
    + injection H as <-. cbn. by rewrite Eliq.
  - destruct (negb (price =? sim_price x)); [|injection H as <-; by rewrite Etick, Eliq].
    destruct (get_tick_at_sqrt_ratio price); [|done]. injection H as <-. cbn. by rewrite Eliq.
Qed.

Context `{AL : ArithLib}.

Lemma i256_wrap_mod z : exists k, i256_wrap z = z + k * 2 ^ 256.
Proof.
  exists (- ((z + 2 ^ 255) / 2 ^ 256)). unfold i256_wrap.
  pose proof (Z.div_mod (z + 2 ^ 255) (2 ^ 256) ltac:(lia)). lia.
Qed.

Lemma step_agrees p amount limit (dir exact : bool) fee s x s' : agree p amount dir exact s x -> ticks_ok (loop_liquidity s) ->
  rem_ok exact (amount_remaining s) -> amount_remaining s <> 0 ->
  swap_step limit dir exact fee s = Ret (Ok s') ->
  exists x', sim_step p limit dir exact fee x = Ok x' /\ agree p amount dir exact s' x'.
Proof.
  intros [Ep Et El Er Eti Eb Esp Eo] [Hmi Hma] Hrem Hne H.
  apply swap_step_inv in H as (next & init & pn & i & o & f & Hn & Hb & Hr & Hc & Erem & Hm & qi & qo & Hi & Ho & Hst).
  pose proof (step_amounts _ _ _ _ _ _ _ _ _ Hc) as (H1 & H2 & H3 & _).
  apply uint_to_u128_inv in Ho as [-> Ho]; [|done].
  destruct (sim_remaining_eq _ _ _ _ _ _ _ _ _ _ Hrem Hne Hc) as (Eq & _ & _).
  pose proof (move_same_ticks _ _ _ _ _ _ Hm) as (Hs1 & Hs2 & Hs3 & _).
  rewrite <- Ep in Hm. apply (move_agrees p _ next init dir pn _ x) in Hm; [|exact Hn|lia|done..].
  unfold sim_step. rewrite Et, <- Eb, <- Esp. fold (next_tick (loop_liquidity s) dir). rewrite Hn.
  replace (Z.max MIN_TICK (Z.min next MAX_TICK)) with next by lia. rewrite Hr. fold (step_target limit pn dir).
  rewrite Ep, El, Er, Hc, Hm. destruct (if exact then _ else _) as [rem calc] eqn:Ec.
  eexists. split; [reflexivity|].
  assert (rem = amount_remaining s') as Erem'.
  { rewrite Erem, <- Eq. unfold sim_remaining. by destruct exact; injection Ec as <- _. }
  assert (zsum (step_out dir <$> loop_steps s') = zsum (step_out dir <$> loop_steps s) + o) as Hz.
  { rewrite Hst, zsum_snoc. f_equal. by destruct dir. }
  split; cbn; try done; [congruence..|]. rewrite Hz. destruct exact.
  - destruct Eo as [k Ek]. injection Ec as _ <-. rewrite from_raw_small by (unfold u128_max, i256_max in *; lia).
    destruct (i256_wrap_mod (amount_calculated x - o)) as [k' ->]. exists (k + k'). rewrite Ek. lia.
  - rewrite Erem, Eo, remaining_out; [lia| |unfold rem_ok in Hrem; lia].
    pose proof (step_amounts _ _ _ _ _ _ _ _ _ Hc). unfold rem_ok in Hrem. lia.
Qed.

Lemma loop_agrees p amount limit (dir exact : bool) fee n s x s' : agree p amount dir exact s x -> ticks_ok (loop_liquidity s) ->
  rem_ok exact (amount_remaining s) -> swap_loop n limit dir exact fee s = Some (Ret (Ok s')) ->
  exists x', sim_loop n p limit dir exact fee x = Some (Ok x') /\ agree p amount dir exact s' x'.
Proof.
  revert s x. induction n as [|n IH]; intros s x Ha Hok Hrem; cbn [swap_loop sim_loop].
  - assert (sim_done limit x = swap_done limit s) as -> by (unfold sim_done, swap_done; by destruct Ha as [-> _ _ -> _]).
    destruct (swap_done limit s); [|done]. intros [= <-]. eauto.
  - assert (sim_done limit x = swap_done limit s) as -> by (unfold sim_done, swap_done; by destruct Ha as [-> _ _ -> _]).
    destruct (swap_done limit s) eqn:Ed; [intros [= <-]; eauto|].
    assert (amount_remaining s <> 0) as Hne by (apply orb_false_iff in Ed as [Ed _]; by apply Z.eqb_neq).
    destruct (swap_step limit dir exact fee s) as [[s1|]|] eqn:Es; [|done..].
    destruct (step_agrees _ _ _ _ _ _ _ _ _ Ha Hok Hrem Hne Es) as (x1 & -> & Ha1).
    destruct (step_progress _ _ _ _ _ _ Es Hok Hrem Hne) as (Hok1 & Hrem1 & _). by apply IH.
Qed.

(** The node's two ways to swap agree: when the swap of a snapshot of a pool
    succeeds, the simulation on the pool itself succeeds as well, ends at the same
    price, tick and liquidity, and pays out the same amount. *)
Theorem simulation_agrees p t0 t1 b (dir : bool) amount r
    (Hsnap : fetch_pool_snapshot p = Ok (t0, t1, b)) (Htok : token0 p <> token1 p)
    (Hr : in_range (pool_ticks p)) (Htick : tick_ok (pool_tick p))
    (Ha : i256_min < amount <= i256_max) (Hne : amount <> 0)
    (Hprice : if dir then MIN_SQRT_RATIO + 1 < pool_price p else pool_price p < MAX_SQRT_RATIO - 1)
    (Hwide : MIN_SQRT_RATIO + 1 < MAX_SQRT_RATIO)
    (Hswap : swap_current_with_amount b amount dir = Ret (Ok r)) :
  exists x, simulate_swap_run p (if dir then token0 p else token1 p) amount None false = Some (Ok x) /\
    sim_end_price x = end_price r /\ sim_end_tick x = result_end_tick r /\
    sim_end_liquidity x = current_liquidity (end_liquidity r) /\
    (if dir then total_d_t1 r else total_d_t0 r) = u128_wrap (- (if dir then amount1 x else amount0 x)).
Proof.
  pose proof (snapshot_ticks_ok _ _ _ _ Hr Hsnap) as Hok. unfold fetch_pool_snapshot in Hsnap.
  destruct (negb _); [done|]. injection Hsnap as _ _ <-.
  unfold swap_current_with_amount, swap in Hswap. cbn [direction target_price] in Hswap. rewrite andb_false_r in Hswap.
  destruct (swap_run _) as [[[s|]|]|] eqn:Es; [|done..]. injection Hswap as <-.
  unfold swap_run in Es. cbn [liquidity direction target_amount swap_fee] in Es. unfold price_limit in Es.
  cbn [target_price direction] in Es.
  set (limit := if dir then MIN_SQRT_RATIO + 1 else MAX_SQRT_RATIO - 1) in *.
  apply (loop_agrees p amount _ _ _ _ _ _ (sim_start p amount)) in Es as (x & Hx & [Ep Et El Er _ _ _ Eo]);
    [|split; cbn; try done; destruct (0 <? amount); [by exists 0|cbn; lia]|done|by apply target_rem_ok].
  assert ((if dir then token0 p else token1 p) =? token0 p = dir) as Ed.
  { destruct dir; [apply Z.eqb_refl|apply Z.eqb_neq; congruence]. }
  assert (limit_invalid p dir limit = false) as Hl.
  { unfold limit_invalid, limit. destruct dir; apply orb_false_iff; rewrite !Z.leb_gt; lia. }
  destruct (sim_run_total p (if dir then token0 p else token1 p) amount None false Htick Ha) as [res Hres].
  pose proof Hres as Hres'. unfold simulate_swap_run in Hres'. rewrite Ed in Hres'.
  rewrite (proj2 (Z.eqb_neq amount 0)) in Hres' by done. cbn [default] in Hres'. fold limit in Hres'.
  rewrite Hl in Hres'. destruct (sim_loop _ _ _ _ _ _ _) as [y|] eqn:Ey in Hres'; [|done].
  apply (sim_loop_agree _ _ _ _ _ _ _ _ _ _ Hx) in Ey. subst y.
  destruct (if Bool.eqb dir (0 <? amount) then _ else _) as [a0 a1] eqn:Ea. injection Hres' as <-.
  eexists. split; [exact Hres|]. cbn. split_and!; [done..|].
  assert (exists k, (if dir then a1 else a0) = - zsum (step_out dir <$> loop_steps s) + k * 2 ^ 256) as [k Ek].
  { destruct (i256_wrap_mod (amount - specified_remaining x)) as [k Ek].
    destruct dir, (0 <? amount); cbn in Ea; injection Ea as <- <-; try done; exists k; rewrite Ek, Er, Eo; lia. }
  rewrite Ek. replace (if dir then total d_t1 (loop_steps s) else total d_t0 (loop_steps s))
    with (total (step_out dir) (loop_steps s)) by (by destruct dir).
  rewrite total_eq. unfold u128_wrap. rewrite Z.opp_add_distr, Z.opp_involutive.
  replace (- (k * 2 ^ 256)) with ((- k * 2 ^ 128) * 2 ^ 128) by lia. by rewrite Z_mod_plus_full.
Qed.
End simulation.
End uniswap_props.
