(* ===== verification/UniswapManager.v ===== *)
(** * The manager of the pools

    The model of [crates/uniswap-v4/src/uniswap/pool_manager.rs] and
    [pool_factory.rs], of the construction of the registry
    ([primitive/pool_state.rs]) and of the pools that are found in the logs
    ([uniswap-v4/src/lib.rs]).  The locks of the pools protect a map that only the
    manager writes: the reader of rewards sees the map at each of its reads.  A call
    to [block_sync] is the sign-off it makes. *)

From S2P Require Import Prelude Ray Orders Samples Rules StateValidation Accounts BlockSync Eth Pool Donation Book Uniswap.
Open Scope Z_scope.

Definition OUT_OF_SCOPE_TICKS : Z := 20.
Definition ATTEMPTS : nat := 5.

Record V4PoolFactory := { fac_registry : UniswapPoolRegistry; fac_manager : Address }.

Record UniswapPoolManager := {
  factory : V4PoolFactory;
  manager_pools : gmap PoolId EnhancedUniswapPool;
  latest_synced_block : u64
}.

Inductive PoolMangerBlocks :=
| ManagerBlock (block : u64)
| ManagerReorg (tip first last : u64).

Definition set_pools (m : UniswapPoolManager) ps : UniswapPoolManager :=
  {| factory := factory m; manager_pools := ps; latest_synced_block := latest_synced_block m |}.

(** A pool that was not read yet: [EnhancedUniswapPool::new]. *)
Definition fresh_pool (d : DataLoader) (ticks : Z) : EnhancedUniswapPool :=
  {| initial_ticks_per_side := ticks; data_loader := d; token0 := 0; token0_decimals := 0; token1 := 0;
     token1_decimals := 0; block_number := 0; pool_liq := 0; pool_liq_net := 0; pool_price := 0; book_fee := 0;
     pool_tick := 0; pool_spacing := 0; pool_bitmap := ∅; pool_ticks := ∅ |}.

Definition new_with_registry (priv pub : PoolId) (r : UniswapPoolRegistry) (manager : Address) : DataLoader :=
  {| private_address := priv; public_address := pub; pool_registry := Some r; pool_manager := Some manager |}.

Section registry.
Context `{PH : PoolHasher}.

(** The identifiers of a pool: with its fee, and with the mark of a dynamic fee. *)
Definition public_id (k : PoolKey) : PoolId := keccak_pool_key k.
Definition private_id (k : PoolKey) : PoolId := keccak_pool_key (with_fee k DYNAMIC_FEE).

(** [collect] into a map: the last of equal keys stays. *)
Definition registry_of (keys : list PoolKey) : UniswapPoolRegistry :=
  {| reg_pools := foldl (fun m k => <[public_id k := k]> m) ∅ keys;
     conversion_map := foldl (fun m k => <[public_id k := private_id k]> m) ∅ keys |}.

Definition insert_key (r : UniswapPoolRegistry) (k : PoolKey) : UniswapPoolRegistry :=
  {| reg_pools := <[public_id k := k]> (reg_pools r);
     conversion_map := <[public_id k := private_id k]> (conversion_map r) |}.

Definition remove_pool (f : V4PoolFactory) (k : PoolKey) : outcome (V4PoolFactory * PoolId) :=
  let id := public_id k in
  _ ← unwrap (conversion_map (fac_registry f) !! id);
  Ret ({| fac_registry := {| reg_pools := delete id (reg_pools (fac_registry f));
                             conversion_map := delete id (conversion_map (fac_registry f)) |};
          fac_manager := fac_manager f |}, id).
End registry.

Section manager.
Context `{HI : HashIter} `{PH : PoolHasher} `{BL : BitmapLib} (TICKS : Z).
Implicit Types (m : UniswapPoolManager) (f : V4PoolFactory).

Section handlers.
Context `{CR : ChainReader}.

Definition expect_ok {A} (o : outcome (A * result unit UniPoolError)) : outcome A :=
  '(a, res) ← o; match res with Ok _ => Ret a | Err _ => Panic end.

(** The pool of an identifier, read at a block. *)
Definition init_pool f (id : PoolId) (block : u64) : outcome EnhancedUniswapPool :=
  internal ← unwrap (conversion_map (fac_registry f) !! id);
  expect_ok (initialize (fresh_pool (new_with_registry internal id (fac_registry f) (fac_manager f)) TICKS) (Some block)).

Fixpoint init_pools f (ids : list PoolId) (block : u64) : outcome (list EnhancedUniswapPool) :=
  match ids with
  | [] => Ret []
  | id :: ids' => p ← init_pool f id block; ps ← init_pools f ids' block; Ret (p :: ps)
  end.

Definition init f (block : u64) : outcome (list EnhancedUniswapPool) :=
  init_pools f (hm_keys (reg_pools (fac_registry f))) block.

Definition create_new_angstrom_pool f (k : PoolKey) (block : u64) : outcome (V4PoolFactory * EnhancedUniswapPool) :=
  let f := {| fac_registry := insert_key (fac_registry f) k; fac_manager := fac_manager f |} in
  p ← init_pool f (public_id k) block;
  Ret (f, p).

Definition manager_new f (block : u64) : outcome UniswapPoolManager :=
  ps ← init f block;
  Ret {| factory := f;
         manager_pools := foldl (fun acc p => <[public_address (data_loader p) := p]> acc) ∅ ps;
         latest_synced_block := block |}.

(** Every pool is updated on a copy that then replaces it. *)
Fixpoint update_pools (block : u64) (l : list (PoolId * EnhancedUniswapPool)) (ps : gmap PoolId EnhancedUniswapPool)
    : outcome (gmap PoolId EnhancedUniswapPool) :=
  match l with
  | [] => Ret ps
  | (id, p) :: l' =>
      p' ← expect_ok (update_to_block p (Some block));
      update_pools block l' (<[id := p']> ps)
  end.

Definition pool_update_workaround (block : u64) (ps : gmap PoolId EnhancedUniswapPool)
    : outcome (gmap PoolId EnhancedUniswapPool) := update_pools block (hm_iter ps) ps.

Definition handle_new_block_info m (info : PoolMangerBlocks) : outcome (UniswapPoolManager * list GlobalBlockState) :=
  let tip := match info with ManagerBlock b => b | ManagerReorg tip _ _ => tip end in
  ps ← pool_update_workaround tip (manager_pools m);
  Ret ({| factory := factory m; manager_pools := ps; latest_synced_block := tip |},
       [match info with ManagerBlock b => PendingProgression b | ManagerReorg _ first last => PendingReorg first last end]).

Definition handle_event m (ev : EthEvent) : outcome UniswapPoolManager :=
  match ev with
  | NewPool k =>
      '(f, p) ← create_new_angstrom_pool (factory m) k (latest_synced_block m);
      Ret {| factory := f; manager_pools := <[public_address (data_loader p) := p]> (manager_pools m);
             latest_synced_block := latest_synced_block m |}
  | RemovedPool k =>
      '(f, id) ← remove_pool (factory m) k;
      _ ← unwrap (manager_pools m !! id);
      Ret {| factory := f; manager_pools := delete id (manager_pools m);
             latest_synced_block := latest_synced_block m |}
  | _ => Ret m
  end.

(** [load_more_ticks] of the manager; then it notifies the one who asked. *)
Definition handle_tick_request m (r : TickRangeToLoad) : outcome UniswapPoolManager :=
  p ← unwrap (manager_pools m !! range_pool_id r);
  p ← expect_ok (load_more_ticks p r None);
  Ret (set_pools m (<[range_pool_id r := p]> (manager_pools m))).
End handlers.

(** The inputs of the manager, each with the chain as it is read then. *)
Inductive manager_input :=
| InBlock (info : PoolMangerBlocks)
| InEvent (ev : EthEvent)
| InTicks (r : TickRangeToLoad).

Definition handle_input m (x : ChainReader * manager_input) : outcome (UniswapPoolManager * list GlobalBlockState) :=
  let '(CR, i) := x in
  match i with
  | InBlock info => handle_new_block_info m info
  | InEvent ev => m ← handle_event m ev; Ret (m, [])
  | InTicks r => m ← handle_tick_request m r; Ret (m, [])
  end.

Fixpoint handle_inputs m (l : list (ChainReader * manager_input)) : outcome (UniswapPoolManager * list GlobalBlockState) :=
  match l with
  | [] => Ret (m, [])
  | x :: l' =>
      '(m, out) ← handle_input m x;
      '(m, out') ← handle_inputs m l';
      Ret (m, out ++ out')
  end.

(** One poll: the blocks that are ready, then the events, then the requests. *)
Definition poll m (blocks : list (ChainReader * PoolMangerBlocks)) (events : list (ChainReader * EthEvent))
    (requests : list (ChainReader * TickRangeToLoad)) : outcome (UniswapPoolManager * list GlobalBlockState) :=
  handle_inputs m (((fun x => (x.1, InBlock x.2)) <$> blocks) ++ ((fun x => (x.1, InEvent x.2)) <$> events) ++
    ((fun x => (x.1, InTicks x.2)) <$> requests)).

Definition snapshot_of (p : EnhancedUniswapPool) : option BaselinePoolState :=
  match fetch_pool_snapshot p with Ok (_, _, b) => Some b | Err _ => None end.

Definition fetch_pool_snapshots m : gmap PoolId BaselinePoolState := omap snapshot_of (manager_pools m).
End manager.

(** ** Rewards *)

Section rewards.
Context `{HI : HashIter} `{AL : ArithLib} `{SR : SqrtRatios} `{TL : TickLib}.
Variable (reads : nat -> gmap PoolId EnhancedUniswapPool) (pool_id : PoolId) (tob : OrderWithStorageData TopOfBlockOrder).

Definition reward_of (p : EnhancedUniswapPool) : outcome (result u128 PoolError) :=
  match fetch_pool_snapshot p with
  | Err _ => Panic
  | Ok (_, _, b) =>
      res ← calc_vec_and_reward tob b;
      Ret match res with Ok (_, r) => Ok r | Err e => Err e end
  end.

Definition request_of (p : EnhancedUniswapPool) : outcome TickRangeToLoad :=
  let down := negb (is_bid tob) in
  t ← (if down then fetch_lowest_tick p else fetch_highest_tick p);
  Ret {| range_pool_id := pool_id; range_start_tick := t; zfo := down; tick_count := OUT_OF_SCOPE_TICKS |}.

(** The attempts that are left after this one; [i] is the number of the next read of
    the map, and the result comes with the requests that were sent. *)
Fixpoint attempts (rest i : nat) : outcome (result u128 PoolError * list TickRangeToLoad) :=
  p ← unwrap (reads i !! pool_id);
  res ← reward_of p;
  match res with
  | Ok r => Ret (Ok r, [])
  | Err e =>
      p ← unwrap (reads (S i) !! pool_id);
      req ← request_of p;
      match rest with
      | O => Ret (Err e, [req])
      | S rest' => '(res, reqs) ← attempts rest' (S (S i)); Ret (res, req :: reqs)
      end
  end.

Definition calculate_rewards : outcome (result u128 PoolError * list TickRangeToLoad) := attempts (ATTEMPTS - 1) 0.
End rewards.

(** ** The pools in the logs of the chain *)

#[global] Instance PoolKey_eq_dec : EqDecision PoolKey.
Proof. solve_decision. Defined.
#[global] Instance PoolKey_countable : Countable PoolKey.
Proof.
  refine (inj_countable'
    (fun k => (currency0 k, currency1 k, pk_fee k, tickSpacing k, pk_hooks k))
    (fun '(a, b, c, d, e) => {| currency0 := a; currency1 := b; pk_fee := c; tickSpacing := d; pk_hooks := e |}) _).
  by intros [].
Defined.

Definition key_of (angstrom a0 a1 : Address) (fee spacing : Z) : PoolKey :=
  {| currency0 := a0; currency1 := a1; pk_fee := fee; tickSpacing := spacing; pk_hooks := angstrom |}.

Section logs.
Context `{HI : HashIter} `{CL : ChainLib}.
Variable (controller_at : u64 -> Address) (logs_at : u64 -> list Log) (angstrom : Address).

Definition fold_log (set : gmap PoolKey PoolKey) (l : Log) : gmap PoolKey PoolKey :=
  match decode_pool_configured (log_data l) with
  | Some (a0, a1, fee, spacing) =>
      <[key_of angstrom a0 a1 0 spacing := key_of angstrom a0 a1 fee spacing]> set
  | None =>
      match decode_pool_removed (log_data l) with
      | Some (a0, a1, _, spacing) => delete (key_of angstrom a0 a1 0 spacing) set
      | None => set
      end
  end.

(** The logs of the controller as it is at each block, in the order of the blocks. *)
Definition controller_logs (deploy_block end_block : u64) : list Log :=
  seqZ deploy_block (end_block - deploy_block + 1) ≫=
    (fun b => filter (fun l => log_address l = controller_at b) (logs_at b)).

Definition fetch_angstrom_pools (deploy_block end_block : u64) : list PoolKey :=
  hm_values (foldl fold_log ∅ (controller_logs deploy_block end_block)).
End logs.
