(* ===== verification/UniswapManagerProps.v ===== *)
(** * Correctness of the manager of the pools

    The manager holds exactly the pools of the contract's store as long as no pair of
    tokens is configured anew on other terms, each pool with the tokens, the fee and
    the spacing of its key and with an exact bitmap; a block brings every
    pool to the state of the chain at that block; a removal panics only for a pool
    that is not configured; and the search for a reward ends. *)

From S2P Require Import Prelude Ray Orders Samples Rules StateValidation Accounts BlockSync Eth Pool Donation Book.
From S2P Require Import Uniswap UniswapProps UniswapManager.
Open Scope Z_scope.

Section manager_props.
Context `{HI : HashIter} `{PH : PoolHasher} `{BL : BitmapLib} (TICKS : Z).
Implicit Types (m : UniswapPoolManager) (f : V4PoolFactory) (r : UniswapPoolRegistry).

(** ** The invariant *)

Record registry_ok r : Prop := {
  ro_conversion : conversion_map r = private_id <$> reg_pools r;
  ro_keys : forall id k, reg_pools r !! id = Some k -> id = public_id k
}.

(** The pool of a key, as the manager of an address holds it. *)
Record pool_for (manager : Address) (k : PoolKey) (p : EnhancedUniswapPool) : Prop := {
  pf_public : public_address (data_loader p) = public_id k;
  pf_private : private_address (data_loader p) = private_id k;
  pf_registry : exists r, pool_registry (data_loader p) = Some r /\ reg_pools r !! public_id k = Some k;
  pf_manager : pool_manager (data_loader p) = Some manager;
  pf_pair : (token0 p, token1 p, pool_spacing p, book_fee p) = (currency0 k, currency1 k, tickSpacing k, pk_fee k);
  pf_live : data_is_populated p = true;
  pf_bitmap : bitmap_ok (pool_spacing p) (pool_bitmap p) (pool_ticks p)
}.

Record manager_ok m : Prop := {
  mo_registry : registry_ok (fac_registry (factory m));
  mo_dom : forall id, is_Some (manager_pools m !! id) <-> is_Some (reg_pools (fac_registry (factory m)) !! id);
  mo_pools : forall id k p, reg_pools (fac_registry (factory m)) !! id = Some k -> manager_pools m !! id = Some p ->
    pool_for (fac_manager (factory m)) k p
}.

(** ** The registry *)

Lemma registry_ok_insert r k : registry_ok r -> registry_ok (insert_key r k).
Proof.
  intros [Hc Hk]. split; cbn [insert_key reg_pools conversion_map].
  - by rewrite Hc, fmap_insert.
  - intros id k' [[<- <-]|[_ ?]]%lookup_insert_Some; [done|by apply Hk].
Qed.

Lemma registry_ok_empty : registry_ok {| reg_pools := ∅; conversion_map := ∅ |}.
Proof. split; cbn; [by rewrite fmap_empty|]. intros id k. by rewrite lookup_empty. Qed.

Lemma registry_of_foldl keys : registry_of keys = foldl insert_key {| reg_pools := ∅; conversion_map := ∅ |} keys.
Proof.
  unfold registry_of. generalize (∅ : gmap PoolId PoolKey), (∅ : gmap PoolId PoolId).
  induction keys as [|k keys IH]; intros m1 m2; [done|]. cbn [foldl]. by rewrite IH.
Qed.

Lemma registry_of_ok keys : registry_ok (registry_of keys).
Proof.
  rewrite registry_of_foldl. generalize registry_ok_empty. generalize {| reg_pools := ∅; conversion_map := ∅ |}.
  induction keys as [|k keys IH]; intros r Hr; [done|]. cbn. by apply IH, registry_ok_insert.
Qed.

Lemma registry_ok_delete r id : registry_ok r ->
  registry_ok {| reg_pools := delete id (reg_pools r); conversion_map := delete id (conversion_map r) |}.
Proof.
  intros [Hc Hk]. split; cbn; [by rewrite Hc, fmap_delete|]. intros id' k [_ ?]%lookup_delete_Some. by apply Hk.
Qed.

(** ** Reading pools *)

Section reader.
Context `{CR : ChainReader} (Hr : aligned_reads).

Lemma expect_ok_inv {A} (o : outcome (A * result unit UniPoolError)) a : expect_ok o = Ret a -> o = Ret (a, Ok tt).
Proof. intros ([a' [[]|]] & -> & H)%bind_Ret; [by injection H as ->|done]. Qed.

Lemma updated_pool_for manager k block p p' : public_address (data_loader p) = public_id k ->
  private_address (data_loader p) = private_id k ->
  (exists r, pool_registry (data_loader p) = Some r /\ reg_pools r !! public_id k = Some k) ->
  pool_manager (data_loader p) = Some manager -> update_to_block p block = Ret (p', Ok tt) -> pool_for manager k p'.
Proof.
  intros Hpub Hpriv (r & Hreg & Hk) Hm (k' & v & [(r' & Hr' & Hk') _ Hl _ Hp _ Hlive (q & _ & Hs)])%update_inv.
  rewrite Hreg in Hr'. injection Hr' as <-. rewrite Hpub, Hk in Hk'. injection Hk' as <-.
  split; rewrite ?Hl; try done; [by exists r|by eapply sync_bitmap].
Qed.

Lemma init_pool_inv f id k block p : registry_ok (fac_registry f) -> reg_pools (fac_registry f) !! id = Some k ->
  init_pool TICKS f id block = Ret p -> pool_for (fac_manager f) k p.
Proof.
  intros [Hc Hk] Hid (internal & Hi%unwrap_Ret & H%expect_ok_inv)%bind_Ret.
  rewrite Hc, lookup_fmap, Hid in Hi. injection Hi as <-. pose proof (Hk _ _ Hid) as ->.
  eapply updated_pool_for; [..|exact H]; try done. by exists (fac_registry f).
Qed.

Lemma pool_for_update manager k block p p' : pool_for manager k p -> update_to_block p block = Ret (p', Ok tt) ->
  pool_for manager k p'.
Proof. intros [] H. by eapply updated_pool_for. Qed.

Lemma update_pools_inv block l ps ps' : NoDup l.*1 -> update_pools block l ps = Ret ps' ->
  (forall id p, (id, p) ∈ l -> exists p', ps' !! id = Some p' /\ update_to_block p (Some block) = Ret (p', Ok tt)) /\
  (forall id, id ∉ l.*1 -> ps' !! id = ps !! id).
Proof.
  revert ps. induction l as [|[id p] l IH]; intros ps; cbn [update_pools fmap list_fmap fst].
  - intros _ [= <-]. split; [by intros id p ?%not_elem_of_nil|done].
  - intros [Hid Hnd]%NoDup_cons (p' & Hp%expect_ok_inv & H)%bind_Ret. apply IH in H as [Hin Hout]; [|done]. split.
    + intros id' q [[= -> ->]|?]%elem_of_cons; [|by apply Hin]. exists p'. rewrite Hout, lookup_insert_eq by done. done.
    + intros id' [Hne Hid']%not_elem_of_cons. rewrite Hout by done. by rewrite lookup_insert_ne.
Qed.

(** Every pool is replaced by its update, and no other appears. *)
Lemma workaround_inv block ps ps' : pool_update_workaround block ps = Ret ps' ->
  (forall id p, ps !! id = Some p -> exists p', ps' !! id = Some p' /\ update_to_block p (Some block) = Ret (p', Ok tt)) /\
  (forall id, ps !! id = None -> ps' !! id = None).
Proof.
  intros [Hin Hout]%update_pools_inv; [|apply NoDup_hm_keys]. split.
  - intros id p Hid. by apply Hin, elem_of_hm_iter.
  - intros id Hid. rewrite Hout; [done|]. intros [p Hp]%elem_of_hm_keys. congruence.
Qed.

Lemma init_pools_inv f ids block ps (acc : gmap PoolId EnhancedUniswapPool) : registry_ok (fac_registry f) -> NoDup ids ->
  (forall id, id ∈ ids -> is_Some (reg_pools (fac_registry f) !! id)) -> init_pools TICKS f ids block = Ret ps ->
  let res := foldl (fun acc p => <[public_address (data_loader p) := p]> acc) acc ps in
  (forall id, id ∈ ids -> exists p, res !! id = Some p /\ init_pool TICKS f id block = Ret p) /\
  (forall id, id ∉ ids -> res !! id = acc !! id).
Proof.
  intros Hok. revert acc ps. induction ids as [|id ids IH]; intros acc ps; cbn [init_pools].
  - intros _ _ [= <-]. cbn. split; [by intros id ?%not_elem_of_nil|done].
  - intros [Hid Hnd]%NoDup_cons Hin (p & Hp & H)%bind_Ret. apply bind_Ret in H as (ps' & Hps & [= <-]). cbn [foldl].
    destruct (Hin id) as [k Hk]; [by left|].
    assert (public_address (data_loader p) = id) as ->.
    { erewrite pf_public by (by eapply init_pool_inv). by rewrite <- (ro_keys _ Hok id k). }
    destruct (IH (<[id := p]> acc) ps' Hnd) as [H1 H2]; [intros id' ?; apply Hin; by right|done|]. split.
    + intros id' [->|?]%elem_of_cons; [|by apply H1]. exists p. by rewrite H2, lookup_insert_eq.
    + intros id' [Hne Hid']%not_elem_of_cons. rewrite H2 by done. by rewrite lookup_insert_ne.
Qed.

Lemma manager_new_ok f block m : registry_ok (fac_registry f) -> manager_new TICKS f block = Ret m ->
  manager_ok m /\ factory m = f.
Proof.
  intros Hok (ps & Hps & [= <-])%bind_Ret. split; [|done].
  apply (init_pools_inv f _ block ps ∅) in Hps as [Hin Hout];
    [|done|apply NoDup_hm_keys|by intros id ?%elem_of_hm_keys].
  split; cbn [factory manager_pools]; [done|..].
  - intros id. split; intros Hid.
    + apply dec_stable. intros Hn. rewrite Hout in Hid by (by rewrite elem_of_hm_keys). by apply lookup_empty_is_Some in Hid.
    + apply elem_of_hm_keys, Hin in Hid as (p & -> & _). done.
  - intros id k p Hk Hp. destruct (Hin id) as (p' & Hp' & Hi); [apply elem_of_hm_keys; eauto|].
    rewrite Hp in Hp'. injection Hp' as <-. by eapply init_pool_inv.
Qed.

(** ** The handlers keep the invariant *)

Lemma block_ok m info m' out : manager_ok m -> handle_new_block_info m info = Ret (m', out) ->
  manager_ok m' /\ factory m' = factory m.
Proof.
  intros [Hok Hd Hp] (ps & [H1 H2]%workaround_inv & [= <- _])%bind_Ret. split; [|done].
  split; cbn [factory manager_pools]; [done|..].
  - intros id. rewrite <- Hd. destruct (manager_pools m !! id) as [p|] eqn:E.
    + destruct (H1 _ _ E) as (p' & -> & _). split; eauto.
    + by rewrite H2.
  - intros id k p' Hk Hp'. destruct (proj2 (Hd id)) as [p E]; [eauto|].
    destruct (H1 _ _ E) as (q & Hq & Hu). rewrite Hp' in Hq. injection Hq as <-.
    eapply pool_for_update; [by eapply Hp|done].
Qed.

Lemma new_pool_ok m k m' : manager_ok m -> handle_event TICKS m (NewPool k) = Ret m' ->
  manager_ok m' /\ fac_registry (factory m') = insert_key (fac_registry (factory m)) k.
Proof.
  intros [Hok Hd Hp] ([f p] & H & [= <-])%bind_Ret. apply bind_Ret in H as (p' & Hi & [= <- <-]).
  eapply (init_pool_inv _ _ k) in Hi; [|by apply registry_ok_insert|cbn; by rewrite lookup_insert_eq].
  split; [|done]. rewrite (pf_public _ _ _ Hi).
  split; cbn [factory manager_pools fac_registry fac_manager]; [by apply registry_ok_insert|..].
  - intros id. cbn [insert_key reg_pools]. rewrite !lookup_insert_is_Some, Hd. done.
  - intros id k' q. cbn [insert_key reg_pools]. intros [[<- <-]|[Hne Hk]]%lookup_insert_Some.
    + rewrite lookup_insert_eq. by intros [= <-].
    + rewrite lookup_insert_ne by done. by apply Hp.
Qed.

Lemma removed_pool_ok m k m' : manager_ok m -> handle_event TICKS m (RemovedPool k) = Ret m' ->
  manager_ok m' /\ reg_pools (fac_registry (factory m')) = delete (public_id k) (reg_pools (fac_registry (factory m))).
Proof.
  intros [Hok Hd Hp] ([f id] & H & H')%bind_Ret. apply bind_Ret in H as (x & _ & [= <- <-]).
  apply bind_Ret in H' as (y & _ & [= <-]). split; [|done].
  split; cbn [factory manager_pools fac_registry fac_manager reg_pools]; [by apply registry_ok_delete|..].
  - intros id. rewrite !lookup_delete_is_Some, Hd. done.
  - intros id k' p [Hne Hk]%lookup_delete_Some. rewrite lookup_delete_ne by done. by apply Hp.
Qed.

Lemma tick_request_ok m req m' : manager_ok m -> handle_tick_request m req = Ret m' ->
  manager_ok m' /\ factory m' = factory m.
Proof.
  intros [Hok Hd Hp] (p & Hl%unwrap_Ret & H)%bind_Ret. apply bind_Ret in H as (p' & Hp'%expect_ok_inv & [= <-]).
  split; [|done]. split; cbn [set_pools factory manager_pools]; [done|..].
  - intros id. rewrite lookup_insert_is_Some, <- Hd. split; [|intros; destruct (decide (range_pool_id req = id)); auto].
    intros [<-|[_ ?]]; [by eexists|done].
  - intros id k q Hk [[<- <-]|[_ Hq]]%lookup_insert_Some; [|by eapply Hp].
    destruct (Hp _ _ _ Hk Hl) as [H1 H2 H3 H4 H5 H6 H7].
    apply more_ticks_inv in Hp' as (E & Hb & _); [|done..]. split; rewrite E; done.
Qed.
End reader.

(** ** The configuration of the pools *)

(** The registry after the events, by the identifiers of the pools. *)
Definition configure (c : gmap PoolId PoolKey) (i : manager_input) : gmap PoolId PoolKey :=
  match i with
  | InEvent (NewPool k) => <[public_id k := k]> c
  | InEvent (RemovedPool k) => delete (public_id k) c
  | _ => c
  end.

Definition configured (keys : list PoolKey) (l : list manager_input) : gmap PoolId PoolKey :=
  foldl configure (foldl (fun c k => <[public_id k := k]> c) ∅ keys) l.

Lemma input_ok (CR : ChainReader) m i m' out : aligned_reads -> manager_ok m ->
  handle_input TICKS m (CR, i) = Ret (m', out) ->
  manager_ok m' /\ reg_pools (fac_registry (factory m')) = configure (reg_pools (fac_registry (factory m))) i.
Proof.
  intros Hr Hok H. destruct i as [info|ev|req]; cbn [handle_input] in H.
  - apply block_ok in H as [? ->]; done.
  - apply bind_Ret in H as (m1 & H & [= <- _]). destruct ev; try (by injection H as <-).
    + apply new_pool_ok in H as [? E]; [|done..]. by rewrite E.
    + by apply removed_pool_ok in H as [? ->].
  - apply bind_Ret in H as (m1 & H & [= <- _]). apply tick_request_ok in H as [? ->]; done.
Qed.

Lemma inputs_ok l m m' out : Forall (fun x => @aligned_reads x.1) l -> manager_ok m ->
  handle_inputs TICKS m l = Ret (m', out) ->
  manager_ok m' /\ reg_pools (fac_registry (factory m')) = foldl configure (reg_pools (fac_registry (factory m))) l.*2.
Proof.
  revert m out. induction l as [|[CR i] l IH]; intros m out; cbn [handle_inputs].
  - by intros _ Hok [= <- _].
  - intros [Hr Hl]%Forall_cons Hok ([m1 o1] & H1 & H)%bind_Ret. apply bind_Ret in H as ([m2 o2] & H2 & [= <- _]).
    apply input_ok in H1 as [Hok1 E1]; [|done..]. apply IH in H2 as [Hok2 ->]; [|done..]. by rewrite E1.
Qed.

Lemma pool_for_snapshot manager k p : pool_for manager k p ->
  exists b, fetch_pool_snapshot p = Ok (currency0 k, currency1 k, b) /\ snapshot_of p = Some b /\
    pool_fee b = pk_fee k /\ base_tick_spacing (pool_liquidity b) = tickSpacing k /\
    bitmap_ok (tickSpacing k) (base_tick_bitmap (pool_liquidity b)) (base_initialized_ticks (pool_liquidity b)).
Proof.
  intros [_ _ _ _ [= E0 E1 Es Ef] Hlive Hb]. unfold snapshot_of, fetch_pool_snapshot. rewrite Hlive. cbn [negb].
  eexists. rewrite E0, E1. split; [done|]. split; [done|]. cbn. by rewrite <- Es.
Qed.

(** The manager offers exactly the pools of its registry. *)
Lemma pools_of_registry (CR : ChainReader) keys manager block m0 l m out : aligned_reads ->
  Forall (fun x => @aligned_reads x.1) l ->
  manager_new TICKS {| fac_registry := registry_of keys; fac_manager := manager |} block = Ret m0 ->
  handle_inputs TICKS m0 l = Ret (m, out) ->
  dom (fetch_pool_snapshots m) = dom (configured keys l.*2) /\
  forall id k, configured keys l.*2 !! id = Some k -> exists p b, manager_pools m !! id = Some p /\
    fetch_pool_snapshot p = Ok (currency0 k, currency1 k, b) /\ fetch_pool_snapshots m !! id = Some b /\
    pool_fee b = pk_fee k /\ base_tick_spacing (pool_liquidity b) = tickSpacing k /\
    bitmap_ok (tickSpacing k) (base_tick_bitmap (pool_liquidity b)) (base_initialized_ticks (pool_liquidity b)).
Proof.
  intros Hr Hl Hnew Hrun. apply manager_new_ok in Hnew as [Hok0 E0]; [|done|apply registry_of_ok].
  apply inputs_ok in Hrun as [[Hok Hd Hp] E]; [|done..]. rewrite E0 in E. change (reg_pools (fac_registry (factory m)) =
    configured keys l.*2) in E. rewrite E in Hd, Hp.
  assert (forall id k, configured keys l.*2 !! id = Some k -> exists p b, manager_pools m !! id = Some p /\
    fetch_pool_snapshot p = Ok (currency0 k, currency1 k, b) /\ fetch_pool_snapshots m !! id = Some b /\
    pool_fee b = pk_fee k /\ base_tick_spacing (pool_liquidity b) = tickSpacing k /\
    bitmap_ok (tickSpacing k) (base_tick_bitmap (pool_liquidity b)) (base_initialized_ticks (pool_liquidity b))) as Hs.
  { intros id k Hk. destruct (proj2 (Hd id)) as [p Hid]; [by eexists|].
    destruct (pool_for_snapshot _ _ _ (Hp _ _ _ Hk Hid)) as (b & Hb & Hsn & Hrest). exists p, b. split; [done|].
    split; [done|]. split; [|done]. unfold fetch_pool_snapshots. by rewrite lookup_omap, Hid. }
  split; [|done]. apply set_eq. intros id. rewrite !elem_of_dom. split.
  - intros [b Hb]. unfold fetch_pool_snapshots in Hb. rewrite lookup_omap in Hb.
    apply Hd. destruct (manager_pools m !! id); [by eexists|done].
  - intros [k Hk]. destruct (Hs _ _ Hk) as (p & b & _ & _ & ? & _). by eexists.
Qed.

(** The configuration that the contract keeps ([configurePool] and [removePool] of
    [TopLevelAuth.sol]): one entry for two tokens, which is replaced when the tokens
    are configured again. *)
Definition pair_of_key (k : PoolKey) : Address * Address := (currency0 k, currency1 k).

Definition store_event (c : gmap (Address * Address) PoolKey) (i : manager_input) : gmap (Address * Address) PoolKey :=
  match i with
  | InEvent (NewPool k) => <[pair_of_key k := k]> c
  | InEvent (RemovedPool k) => delete (pair_of_key k) c
  | _ => c
  end.

(** The configuration at the start, as the events that led to it, and what follows. *)
Definition history (keys : list PoolKey) (l : list manager_input) : list manager_input :=
  ((fun k => InEvent (NewPool k)) <$> keys) ++ l.

Definition contract_store (events : list manager_input) : gmap (Address * Address) PoolKey :=
  foldl store_event ∅ events.

(** Tokens that are configured are not configured again with another fee or spacing
    before they are removed, and a removal names the key that is configured. *)
Fixpoint steady (c : gmap (Address * Address) PoolKey) (events : list manager_input) : Prop :=
  match events with
  | [] => True
  | i :: events' =>
      match i with
      | InEvent (NewPool k) => forall k', c !! pair_of_key k = Some k' -> k' = k
      | InEvent (RemovedPool k) => c !! pair_of_key k = Some k
      | _ => True
      end /\ steady (store_event c i) events'
  end.

Definition key_of_event (i : manager_input) : option PoolKey :=
  match i with InEvent (NewPool k) | InEvent (RemovedPool k) => Some k | _ => None end.

(** The identifiers of the keys do not collide. *)
Definition distinct_ids (ks : list PoolKey) : Prop :=
  forall k k', k ∈ ks -> k' ∈ ks -> public_id k = public_id k' -> k = k'.

(** The registry and the contract hold the same keys. *)
Record mirrors (ks : list PoolKey) (c : gmap PoolId PoolKey) (d : gmap (Address * Address) PoolKey) : Prop := {
  mi_known : forall id k, c !! id = Some k -> k ∈ ks;
  mi_registry : forall id k, c !! id = Some k -> id = public_id k /\ d !! pair_of_key k = Some k;
  mi_store : forall pr k, d !! pr = Some k -> pr = pair_of_key k /\ c !! public_id k = Some k
}.

Lemma mirrors_new ks c d k : distinct_ids ks -> k ∈ ks -> mirrors ks c d ->
  (forall k', d !! pair_of_key k = Some k' -> k' = k) ->
  mirrors ks (<[public_id k := k]> c) (<[pair_of_key k := k]> d).
Proof.
  intros Hi Hk [Hn Hc Hd] Hs. split.
  - intros id k1 [[_ <-]|[_ H]]%lookup_insert_Some; [done|]. by eapply Hn.
  - intros id k1 [[<- <-]|[Hne H]]%lookup_insert_Some; [by rewrite lookup_insert_eq|].
    destruct (Hc _ _ H) as [-> Hp]. split; [done|]. rewrite lookup_insert_ne; [done|].
    intros E. rewrite <- E in Hp. by apply Hs in Hp as ->.
  - intros pr k1 [[<- <-]|[Hne H]]%lookup_insert_Some; [by rewrite lookup_insert_eq|].
    destruct (Hd _ _ H) as [-> Hp]. split; [done|]. rewrite lookup_insert_ne; [done|].
    intros E. apply Hi in E as ->; [done|done|by eapply Hn].
Qed.

Lemma mirrors_remove ks c d k : distinct_ids ks -> k ∈ ks -> mirrors ks c d -> d !! pair_of_key k = Some k ->
  mirrors ks (delete (public_id k) c) (delete (pair_of_key k) d).
Proof.
  intros Hi Hk [Hn Hc Hd] Hs. split.
  - intros id k1 [_ H]%lookup_delete_Some. by eapply Hn.
  - intros id k1 [Hne H]%lookup_delete_Some. destruct (Hc _ _ H) as [-> Hp]. split; [done|].
    rewrite lookup_delete_ne; [done|]. intros E. rewrite <- E, Hs in Hp. by injection Hp as ->.
  - intros pr k1 [Hne H]%lookup_delete_Some. destruct (Hd _ _ H) as [-> Hp]. split; [done|].
    rewrite lookup_delete_ne; [done|]. intros E. apply Hi in E as ->; [done|done|by eapply Hn].
Qed.

Lemma mirrors_events ks events c d : distinct_ids ks -> (forall k, k ∈ omap key_of_event events -> k ∈ ks) ->
  steady d events -> mirrors ks c d -> mirrors ks (foldl configure c events) (foldl store_event d events).
Proof.
  intros Hi. revert c d. induction events as [|i events IH]; intros c d Hks; [done|]. intros [Hs Hst] Hm. cbn [foldl].
  apply IH; [intros k Hk; apply Hks; cbn; destruct (key_of_event i); [by right|done]|done|].
  destruct i as [info|ev|req]; [done| |done]. destruct ev; try done; cbn in Hks |- *.
  - apply mirrors_new; [done|apply Hks; by left|done|done].
  - apply mirrors_remove; [done|apply Hks; by left|done|done].
Qed.

Lemma configured_history keys l : configured keys l = foldl configure ∅ (history keys l).
Proof.
  unfold configured, history. rewrite foldl_app. f_equal. generalize (∅ : gmap PoolId PoolKey).
  induction keys as [|k keys IH]; intros c; [done|]. cbn. apply IH.
Qed.

(** C38. The manager follows the configuration that the contract keeps, one entry for
    two tokens, as long as tokens that are configured are not configured again with
    another fee or tick spacing before they are removed, and the identifiers of the
    keys do not collide: after any sequence of blocks, events and requests that the
    manager got through without a panic, each with the chain as it is then, which
    initialises only ticks on the spacing of a pool, the pools whose snapshots it offers are exactly those
    of the entries, each with the tokens, the fee and the spacing of its entry and
    with a bitmap that marks its ticks. *)
Theorem pools_follow_configuration (CR : ChainReader) keys manager block m0 l m out
    (Hr : aligned_reads) (Hl : Forall (fun x => @aligned_reads x.1) l)
    (Hnew : manager_new TICKS {| fac_registry := registry_of keys; fac_manager := manager |} block = Ret m0)
    (Hrun : handle_inputs TICKS m0 l = Ret (m, out)) (Hst : steady ∅ (history keys l.*2))
    (Hid : distinct_ids (omap key_of_event (history keys l.*2))) :
  let store := contract_store (history keys l.*2) in
  (forall id, id ∈ dom (fetch_pool_snapshots m) <-> exists tokens k, store !! tokens = Some k /\ id = public_id k) /\
  forall tokens k, store !! tokens = Some k -> exists p b, manager_pools m !! public_id k = Some p /\
    fetch_pool_snapshot p = Ok (tokens.1, tokens.2, b) /\ fetch_pool_snapshots m !! public_id k = Some b /\
    pool_fee b = pk_fee k /\ base_tick_spacing (pool_liquidity b) = tickSpacing k /\
    bitmap_ok (tickSpacing k) (base_tick_bitmap (pool_liquidity b)) (base_initialized_ticks (pool_liquidity b)).
Proof.
  destruct (pools_of_registry _ _ _ _ _ _ _ _ Hr Hl Hnew Hrun) as [Hdom Hpools].
  rewrite configured_history in Hdom, Hpools.
  destruct (mirrors_events _ _ ∅ ∅ Hid (fun k Hk => Hk) Hst) as [_ Hc Hd];
    [split; intros ??; by rewrite lookup_empty|]. cbn zeta. split.
  - intros id. rewrite Hdom, elem_of_dom. split.
    + intros [k Hk]. destruct (Hc _ _ Hk) as [-> Hp]. by exists (pair_of_key k), k.
    + intros (tokens & k & Hk & ->). destruct (Hd _ _ Hk) as [_ H]. by eexists.
  - intros tokens k Hk. destruct (Hd _ _ Hk) as [-> H]. by apply Hpools.
Qed.

(** When two tokens are configured with another fee, the contract replaces their
    entry, but the manager keeps the old pool beside the new one. *)
Theorem reconfigured_pool_kept (CR : ChainReader) m k k' m' (Hok : manager_ok m) (Hr : aligned_reads)
    (Hk : reg_pools (fac_registry (factory m)) !! public_id k = Some k)
    (Htokens : pair_of_key k' = pair_of_key k) (Hid : public_id k' <> public_id k)
    (H : handle_event TICKS m (NewPool k') = Ret m') :
  is_Some (fetch_pool_snapshots m' !! public_id k) /\ is_Some (fetch_pool_snapshots m' !! public_id k') /\
  forall c, store_event c (InEvent (NewPool k')) !! pair_of_key k = Some k'.
Proof.
  apply new_pool_ok in H as [[Hreg Hd Hp] E]; [|done..].
  assert (forall q, reg_pools (fac_registry (factory m')) !! public_id q = Some q ->
    is_Some (fetch_pool_snapshots m' !! public_id q)) as Hs.
  { intros q Hq. destruct (proj2 (Hd (public_id q))) as [p Hq']; [by eexists|].
    destruct (pool_for_snapshot _ _ _ (Hp _ _ _ Hq Hq')) as (b & _ & Hb & _). exists b.
    unfold fetch_pool_snapshots. by rewrite lookup_omap, Hq'. }
  rewrite E in Hs. cbn [insert_key reg_pools] in Hs. split_and!.
  - apply Hs. by rewrite lookup_insert_ne.
  - apply Hs. by rewrite lookup_insert_eq.
  - intros c. cbn. by rewrite Htokens, lookup_insert_eq.
Qed.

(** ** Blocks and removals *)

Definition tip_of (info : PoolMangerBlocks) : u64 :=
  match info with ManagerBlock b => b | ManagerReorg tip _ _ => tip end.

Definition call_of (info : PoolMangerBlocks) : GlobalBlockState :=
  match info with ManagerBlock b => PendingProgression b | ManagerReorg _ first last => PendingReorg first last end.

(** A block brings every pool to the chain: the manager reads each pool again at
    the tip, so that its price, tick and liquidity are those of the chain there, its
    ticks are ticks of the chain with their values, and its bitmap marks these; no
    pool appears or disappears, and the block or the reorganisation is signed off
    once. *)
Theorem block_brings_pools_to_chain (CR : ChainReader) (chain : PoolId -> gmap i32 TickInfo) m info m' out
    (Hok : manager_ok m) (Hr : aligned_reads)
    (Hc : forall id, reads_chain id (Some (tip_of info)) (chain id))
    (H : handle_new_block_info m info = Ret (m', out)) :
  latest_synced_block m' = tip_of info /\ out = [call_of info] /\
  dom (manager_pools m') = dom (manager_pools m) /\
  forall id k, reg_pools (fac_registry (factory m)) !! id = Some k -> exists p v,
    manager_pools m' !! id = Some p /\
    call_pool_data (private_id k) (fac_manager (factory m)) (currency0 k) (currency1 k) (Some (tip_of info)) = Some v /\
    (pool_price p, pool_tick p, pool_liq p) = (v4_sqrtPrice v, v4_tick v, v4_liquidity v) /\
    pool_ticks p ⊆ chain (private_id k) /\ bitmap_ok (tickSpacing k) (pool_bitmap p) (pool_ticks p).
Proof.
  apply bind_Ret in H as (ps & Hps & [= <- <-]). fold (tip_of info) in Hps |- *. fold (call_of info).
  apply workaround_inv in Hps as [H1 H2]. cbn [latest_synced_block manager_pools].
  split; [done|]. split; [done|]. split.
  - apply set_eq. intros id. rewrite !elem_of_dom. destruct (manager_pools m !! id) as [p|] eqn:E.
    + destruct (H1 _ _ E) as (p' & -> & _). split; eauto.
    + by rewrite H2.
  - intros id k Hk. destruct (proj2 (mo_dom _ Hok id)) as [p Hp]; [by eexists|].
    destruct (H1 _ _ Hp) as (p' & Hp' & Hu). pose proof (mo_pools _ Hok _ _ _ Hk Hp) as Hf.
    apply update_inv in Hu as (k' & v & [(r' & Hr' & Hk') (a & Ha & Hv) Hl _ Hpair Hst _ (q & Eq & Hs)]).
    destruct (pf_registry _ _ _ Hf) as (r & Hreg & Hrk). rewrite Hreg in Hr'. injection Hr' as <-.
    rewrite (pf_public _ _ _ Hf), Hrk in Hk'. injection Hk' as <-.
    rewrite (pf_manager _ _ _ Hf) in Ha. injection Ha as <-. rewrite (pf_private _ _ _ Hf) in Hv.
    exists p', v. split; [done|]. split; [done|]. split; [done|].
    assert (private_address (data_loader q) = private_id k) as El.
    { change (data_loader q) with (data_loader (set_ticks q ∅ ∅)). rewrite <- Eq. cbn. by rewrite Hl, (pf_private _ _ _ Hf). }
    assert (tickSpacing k = pool_spacing p') as -> by congruence.
    apply (sync_ticks_inv (chain (private_id k))) in Hs as (_ & _ & s & c & asks & s' & c' & bids & _ & _ & [Hb Hv' _]); [done|].
    intros start dir n batch Hq td Htd. split; [by eapply batch_aligned|].
    eapply batch_on_chain; [rewrite El; apply Hc|done..].
Qed.

(** A removal panics exactly for a pool that is not configured; any other pool
    is gone afterwards and the others stay. *)
Theorem removal_exact (CR : ChainReader) m k (Hok : manager_ok m) :
  match handle_event TICKS m (RemovedPool k) with
  | Panic => reg_pools (fac_registry (factory m)) !! public_id k = None
  | Ret m' => is_Some (reg_pools (fac_registry (factory m)) !! public_id k) /\ manager_ok m' /\
      manager_pools m' = delete (public_id k) (manager_pools m)
  end.
Proof.
  pose proof (fun m' => removed_pool_ok m k m' Hok) as Hro. destruct Hok as [[Hc Hk] Hd Hp].
  cbn [handle_event] in *. unfold remove_pool in *. rewrite Hc, lookup_fmap in *.
  destruct (reg_pools _ !! public_id k) as [k'|] eqn:E; cbn [fmap option_fmap option_map unwrap mbind outcome_bind] in *; [|done].
  destruct (proj2 (Hd (public_id k))) as [p Hp']; [by eexists|]. rewrite Hp' in *. cbn [unwrap mbind outcome_bind] in *.
  split; [by eexists|]. split; [by apply Hro|done].
Qed.
End manager_props.

(** ** Rewards *)

Section reward_props.
Context `{HI : HashIter} `{AL : ArithLib} `{SR : SqrtRatios} `{TL : TickLib}.
Variable (reads : nat -> gmap PoolId EnhancedUniswapPool) (id : PoolId) (tob : OrderWithStorageData TopOfBlockOrder).

(** A pool that the search can read: the reward is computed, whether or not the ticks
    suffice, and there is a last tick to start a request from. *)
Definition readable (ps : gmap PoolId EnhancedUniswapPool) : Prop :=
  exists p, ps !! id = Some p /\ (exists res, reward_of tob p = Ret res) /\ pool_ticks p <> ∅.

(** The request that a failed attempt sends: from the last tick of the pool on the
    side of the order. *)
Definition requests_from (p : EnhancedUniswapPool) (req : TickRangeToLoad) : Prop :=
  range_pool_id req = id /\ zfo req = negb (is_bid tob) /\ tick_count req = OUT_OF_SCOPE_TICKS /\
  is_Some (pool_ticks p !! range_start_tick req) /\
  forall t, is_Some (pool_ticks p !! t) -> if zfo req then range_start_tick req <= t else t <= range_start_tick req.

Lemma request_spec p : pool_ticks p <> ∅ -> exists req, request_of id tob p = Ret req /\ requests_from p req.
Proof.
  intros Hne. unfold request_of, requests_from, fetch_lowest_tick, fetch_highest_tick.
  assert (hm_keys (pool_ticks p) <> []) as Hk.
  { intros E. apply Hne, map_empty. intros t. apply eq_None_not_Some. rewrite <- elem_of_hm_keys, E. apply not_elem_of_nil. }
  destruct (negb (is_bid tob)).
  - destruct (list_min (hm_keys (pool_ticks p))) as [t|] eqn:E; [|by destruct (hm_keys (pool_ticks p))].
    eexists. split; [done|]. cbn. pose proof (list_min_elem _ _ E) as Hin%elem_of_hm_keys.
    split_and!; [done..|]. intros t' Ht%elem_of_hm_keys. by eapply list_min_le.
  - destruct (list_max (hm_keys (pool_ticks p))) as [t|] eqn:E; [|by destruct (hm_keys (pool_ticks p))].
    eexists. split; [done|]. cbn. pose proof (list_max_elem _ _ E) as Hin%elem_of_hm_keys.
    split_and!; [done..|]. intros t' Ht%elem_of_hm_keys. by eapply list_max_ge.
Qed.

(** The reward at the read number [i]. *)
Definition reward_at (i : nat) (res : result u128 PoolError) : Prop :=
  exists p, reads i !! id = Some p /\ reward_of tob p = Ret res.

Definition failed (res : result u128 PoolError) : Prop := exists e, res = Err e.

Lemma attempts_spec rest i : (forall j, (i <= j < i + 2 * S rest)%nat -> readable (reads j)) ->
  exists k res reqs, attempts reads id tob rest i = Ret (res, reqs) /\ (k <= rest)%nat /\
    reward_at (i + 2 * k) res /\ (failed res -> k = rest) /\
    (forall j, (j < k)%nat -> exists e, reward_at (i + 2 * j) (Err e)) /\
    Forall2 (fun j req => exists p, reads (S (i + 2 * j)) !! id = Some p /\ requests_from p req)
      (seq 0 (match res with Ok _ => k | Err _ => S k end)) reqs.
Proof.
  revert i. induction rest as [|rest IH]; intros i Hrd.
  all: destruct (Hrd i) as (p & Hp & (res & Hres) & _); [lia|].
  all: cbn [attempts]; rewrite Hp; cbn [unwrap mbind outcome_bind]; rewrite Hres; cbn [mbind outcome_bind].
  all: destruct res as [r|e]; [exists 0%nat, (Ok r), []; replace (i + 2 * 0)%nat with i by lia; split_and!;
    [done|lia|by exists p|by intros []|intros; lia|by apply Forall2_nil]|].
  all: destruct (Hrd (S i)) as (q & Hq & _ & Hne); [lia|]; rewrite Hq; cbn [unwrap mbind outcome_bind].
  all: destruct (request_spec q Hne) as (req & -> & Hreq); cbn [mbind outcome_bind].
  - exists 0%nat, (Err e), [req]. replace (i + 2 * 0)%nat with i by lia.
    split_and!; [done|lia|by exists p|done|intros; lia|]. constructor; [|constructor]. exists q. by rewrite Nat.add_0_r.
  - destruct (IH (S (S i))) as (k & res & reqs & -> & Hk & Hat & Hf & Hbefore & Hreqs); [intros j Hj; apply Hrd; lia|].
    exists (S k), res, (req :: reqs). cbn [mbind outcome_bind].
    split_and!; [done|lia|by replace (i + 2 * S k)%nat with (S (S i) + 2 * k)%nat by lia|intros; f_equal; auto|..].
    + intros [|j] Hj; [exists e, p; by rewrite Nat.add_0_r|].
      destruct (Hbefore j) as [e' He]; [lia|]. exists e'. by replace (i + 2 * S j)%nat with (S (S i) + 2 * j)%nat by lia.
    + set (n := match res with Ok _ => k | Err _ => S k end) in *.
      replace (match res with Ok _ => S k | Err _ => S (S k) end) with (S n) by (by destruct res).
      change (seq 0 (S n)) with (0%nat :: seq 1 n). constructor; [exists q; by rewrite Nat.add_0_r|].
      rewrite <- fmap_S_seq. apply Forall2_fmap_l. eapply Forall2_impl; [exact Hreqs|].
      intros j req' (p' & Hp' & Hr'). exists p'. split; [|done].
      by replace (S (i + 2 * S j)) with (S (S (S i) + 2 * j)) by lia.
Qed.

(** The search for the reward of an order returns after at most five attempts,
    however the pools change between its reads.  It returns the reward of the first
    attempt that succeeds, or the error of the fifth; every attempt before failed, and
    each failure sent one request, from the last tick of the pool on the side of the
    order. *)
Theorem reward_search_ends (Hrd : forall j, readable (reads j)) :
  exists k res reqs, calculate_rewards reads id tob = Ret (res, reqs) /\ (k < ATTEMPTS)%nat /\
    reward_at (2 * k) res /\ (failed res -> S k = ATTEMPTS) /\
    (forall j, (j < k)%nat -> exists e, reward_at (2 * j) (Err e)) /\
    length reqs = (match res with Ok _ => k | Err _ => S k end) /\
    forall j req, reqs !! j = Some req -> exists p, reads (S (2 * j)) !! id = Some p /\ requests_from p req.
Proof.
  destruct (attempts_spec (ATTEMPTS - 1) 0) as (k & res & reqs & H & Hk & Hat & Hf & Hb & Hreqs); [auto|].
  exists k, res, reqs. unfold ATTEMPTS in *. split_and!; [done|lia|done|intros; rewrite Hf; [lia|done]|done|..].
  - apply Forall2_length in Hreqs. by rewrite <- Hreqs, length_seq.
  - intros j req Hj. eapply Forall2_lookup_r in Hj as (j' & Hj' & ?); [|exact Hreqs].
    apply lookup_seq in Hj' as [-> _]. done.
Qed.
End reward_props.

(** ** The pools in the logs *)

Section log_props.
Context `{HI : HashIter} `{CL : ChainLib}.
Variable (controller_at : u64 -> Address) (logs_at : u64 -> list Log) (angstrom : Address).

(** The pair and spacing that a log is about, and the key that it configures. *)
Definition touches (l : Log) : option PoolKey :=
  match decode_pool_configured (log_data l) with
  | Some (a0, a1, _, spacing) => Some (key_of angstrom a0 a1 0 spacing)
  | None =>
      match decode_pool_removed (log_data l) with
      | Some (a0, a1, _, spacing) => Some (key_of angstrom a0 a1 0 spacing)
      | None => None
      end
  end.

Definition configures (l : Log) : option PoolKey :=
  '(a0, a1, fee, spacing) ← decode_pool_configured (log_data l); Some (key_of angstrom a0 a1 fee spacing).

Lemma configures_touches l k : configures l = Some k -> touches l = Some (with_fee k 0).
Proof.
  unfold configures, touches. destruct (decode_pool_configured _) as [[[[a0 a1] fee] sp]|]; [|done]. by intros [= <-].
Qed.

Lemma fold_log_lookup m l slot : fold_log angstrom m l !! slot =
  if decide (touches l = Some slot) then configures l else m !! slot.
Proof.
  unfold fold_log, touches, configures. destruct (decode_pool_configured _) as [[[[a0 a1] fee] sp]|]; cbn [mbind option_bind].
  - rewrite lookup_insert. repeat case_decide; congruence.
  - destruct (decode_pool_removed _) as [[[[a0 a1] fee] sp]|]; [|done].
    rewrite lookup_delete. repeat case_decide; congruence.
Qed.

Lemma fold_logs_inv logs slot k : foldl (fold_log angstrom) ∅ logs !! slot = Some k <->
  exists l1 l l2, logs = l1 ++ l :: l2 /\ touches l = Some slot /\ configures l = Some k /\
    forall l', l' ∈ l2 -> touches l' <> Some slot.
Proof.
  induction logs as [|x logs IH] using rev_ind.
  - cbn. rewrite lookup_empty. split; [done|]. intros (l1 & l & l2 & E & _). by destruct l1.
  - rewrite foldl_app. cbn [foldl]. rewrite fold_log_lookup. destruct (decide _) as [Ht|Ht].
    + split; [intros Hc; exists logs, x, []; split_and!; [done..|by intros l' ?%not_elem_of_nil]|].
      intros (l1 & l & l2 & E & _ & Hc & Hl). destruct l2 as [|y l2 _] using rev_ind.
      * by apply app_inj_tail in E as [_ ->].
      * rewrite app_comm_cons, app_assoc in E. apply app_inj_tail in E as [_ ->].
        destruct (Hl y); [|done]. apply elem_of_app. right. by left.
    + rewrite IH. split; intros (l1 & l & l2 & E & Ht' & Hc & Hl).
      * exists l1, l, (l2 ++ [x]). rewrite E, <- app_assoc. split_and!; [done..|].
        intros l' [?| ->%list_elem_of_singleton]%elem_of_app; auto.
      * destruct l2 as [|y l2 _] using rev_ind; [apply app_inj_tail in E as [_ ->]; done|].
        rewrite app_comm_cons, app_assoc in E. apply app_inj_tail in E as [-> ->].
        exists l1, l, l2. split_and!; [done..|]. intros l' ?. apply Hl, elem_of_app. by left.
Qed.

(** The pools that a node starts with: a key is found exactly when some log of
    the controller configures it and no later log of the controller configures or
    removes its pair with its spacing. *)
Theorem fetched_pools_exact deploy_block end_block k :
  k ∈ fetch_angstrom_pools controller_at logs_at angstrom deploy_block end_block <->
  exists l1 l l2, controller_logs controller_at logs_at deploy_block end_block = l1 ++ l :: l2 /\
    configures l = Some k /\ forall l', l' ∈ l2 -> touches l' <> Some (with_fee k 0).
Proof.
  unfold fetch_angstrom_pools. rewrite elem_of_hm_values. split.
  - intros (slot & Hs). apply fold_logs_inv in Hs as (l1 & l & l2 & E & Ht & Hc & Hl). exists l1, l, l2. split_and!; [done..|].
    rewrite (configures_touches _ _ Hc) in Ht. by injection Ht as ->.
  - intros (l1 & l & l2 & E & Hc & Hl). exists (with_fee k 0). apply fold_logs_inv.
    exists l1, l, l2. split_and!; [done|by apply configures_touches|done..].
Qed.
End log_props.
