(* ===== verification/Delta.v ===== *)
(** * The delta matcher

    The model of [crates/matching-engine/src/matcher/delta.rs] and of
    [get_quantities_at_price] ([primitives/primitive/matching_math.rs]): the
    search for the price at which the orders of a book and the AMM balance, and
    the fills at that price.  [solve_for_t0] is false in the node
    ([strategy/binary_search.rs]); both ways are modelled. *)

From S2P Require Import Prelude Ray Orders Samples Rules Accounts Pool Book ConsensusTypes.
Open Scope Z_scope.

(** [u128::saturating_sub]. *)
Definition sat_sub (a b : u128) : u128 := Z.max 0 (a - b).

Record OrderLiquidity := {
  net_t0 : I256;
  net_t1 : I256;
  bid_slack : u128 * u128;
  ask_slack : u128 * u128;
  killable_orders : list (OrderId * u128 * bool)
}.

Inductive DeltaMatcherToB :=
| NoToB
| FixedShift (q : Quantity) (bid : bool)
| ToBOrder (o : OrderWithStorageData TopOfBlockOrder).

Record UcpSolution := {
  ucp : Ray;
  killed : gset OrderId;
  partial_fills : option (u128 * u128);
  reward_t0 : u128
}.

Record CheckUcpStats := {
  amm_t0 : I256;
  amm_t1 : I256;
  order_t0 : I256;
  order_t1 : I256;
  order_bid_slack : u128 * u128;
  order_ask_slack : u128 * u128
}.

Inductive SupplyDemandResult :=
| MoreSupply (ko : option (list OrderId))
| MoreDemand (ko : option (list OrderId))
| NaturallyEqual
| PartialFillEq (bid_fill_q ask_fill_q reward : u128).

Record DeltaMatcher := {
  dm_book : OrderBook;
  dm_fee : u128;
  solve_for_t0 : bool;
  amm_start_location : option PoolSwapResult
}.

Section delta.
Context `{HI : HashIter} `{AL : ArithLib} `{OH : OrderHasher} `{SR : SqrtRatios} `{TL : TickLib}.
Implicit Types (o : BookOrder) (m : DeltaMatcher) (p : Ray).

(** ** Quantities at a price *)

Definition get_quantities_at_price (is_bid exact_in : bool) (fill_amount gas fee : u128)
    (ray_ucp : Ray) : outcome (u128 * u128 * u128) :=
  match is_bid, exact_in with
  | true, true =>
      bid_price ← inv_ray ray_ucp;
      bid_fee_price ← scale_to_fee bid_price fee;
      exchanged_t0 ← quantity bid_price fill_amount false;
      net_t0 ← quantity bid_fee_price fill_amount false;
      Ret (fill_amount, sat_sub net_t0 gas, sat_sub exchanged_t0 net_t0)
  | true, false =>
      bid_price ← inv_ray ray_ucp;
      bid_fee_price ← scale_to_fee bid_price fee;
      t1_required ← inverse_quantity bid_fee_price (u128_wrap (fill_amount + gas)) true;
      total_t0_purchased ← quantity bid_price t1_required false;
      Ret (t1_required, fill_amount, sat_sub total_t0_purchased (u128_wrap (fill_amount + gas)))
  | false, true =>
      ask_fee_price ← scale_to_fee ray_ucp fee;
      net_t1_out ← quantity ask_fee_price (sat_sub fill_amount gas) false;
      net_t0_sold ← inverse_quantity ray_ucp net_t1_out true;
      Ret (net_t1_out, net_t0_sold, sat_sub (sat_sub fill_amount gas) net_t0_sold)
  | false, false =>
      ask_fee_price ← scale_to_fee ray_ucp fee;
      q ← inverse_quantity ask_fee_price fill_amount true;
      let total_t0_input := u128_wrap (q + gas) in
      net_t0 ← inverse_quantity ray_ucp fill_amount true;
      Ret (fill_amount, net_t0, sat_sub (sat_sub total_t0_input gas) net_t0)
  end.

Definition get_amount_in_out o (fill_amount fee : u128) p : outcome (u128 * u128) :=
  g ← uint_to_u128 (gas (priority_data o));
  '(t1, t0_net, t0_fee) ← get_quantities_at_price (raw_is_bid (order o)) (exact_in (order o))
    fill_amount g fee p;
  Ret (if raw_is_bid (order o) then (t1, u128_wrap (u128_wrap (t0_net + t0_fee) + g))
       else (t0_net, t1)).

(** ** The matcher and its AMM *)

Definition new_matcher (b : OrderBook) (tob : DeltaMatcherToB) (for_t0 : bool) : outcome DeltaMatcher :=
  let fee := match book_amm b with Some amm => pool_fee amm | None => 0 end in
  start ← match tob with
    | ToBOrder t =>
        match book_amm b with
        | None => Ret None
        | Some snapshot =>
            res ← calc_vec_and_reward t snapshot;
            Ret (Some match res with Ok (r, _) => r | Err _ => noop snapshot end)
        end
    | FixedShift _ _ => Panic
    | NoToB => Ret (noop <$> book_amm b)
    end;
  Ret {| dm_book := b; dm_fee := fee; solve_for_t0 := for_t0; amm_start_location := start |}.

(** [SqrtPriceX96::from(Ray)]; the root has to fit 160 bits. *)
Definition sqrt_of_ray p : outcome SqrtPriceX96 :=
  res ← div_round (p * const_2_192) const_1e27 Ceiling;
  root ← from_limbs_slice (ceiling_sqrt res);
  if root <? 2 ^ 160 then Ret root else Panic.

Definition fetch_concentrated_liquidity m p : outcome (I256 * I256) :=
  inside ← within_sqrt_price_bounds MIN_SQRT_RATIO MAX_SQRT_RATIO p;
  end_sqrt ←
    (if (inside : bool) then sqrt_of_ray p
     else ray ← ray_of_sqrt MIN_SQRT_RATIO;
          Ret (if p <=? ray then MIN_SQRT_RATIO else MAX_SQRT_RATIO));
  match amm_start_location m with
  | None => Ret (0, 0)
  | Some pool =>
      let zfo := end_sqrt <=? end_price pool in
      res ← swap_to_price pool end_sqrt;
      Ret match res with
      | Err _ => (0, 0)
      | Ok r => if zfo then (- total_d_t0 r, total_d_t1 r) else (total_d_t0 r, - total_d_t1 r)
      end
  end.

(** ** The orders at a price *)

(** The limit of a bid and of an ask in T1 over T0, before fees and gas. *)
Definition bid_limit (fee : u128) o : outcome Ray :=
  q ← pre_fee_and_gas_price o fee; inv_ray_round q false.
Definition ask_limit (fee : u128) o : outcome Ray := pre_fee_and_gas_price o fee.

Definition empty_liquidity : OrderLiquidity :=
  {| net_t0 := 0; net_t1 := 0; bid_slack := (0, 0); ask_slack := (0, 0); killable_orders := [] |}.

(** The quantity an order has to fill, the one it may fill, and whether it can be
    killed. *)
Definition fill_range o (at_price : bool) : u128 * option u128 * list (OrderId * u128 * bool) :=
  if at_price then
    if is_partial (order o) then (min_amount (order o), Some (amount (order o)), [])
    else (amount (order o), None, [(order_id o, amount (order o), is_bid o)])
  else (amount (order o), None, []).

(** The body of the loop over the orders. *)
Definition process_order (fee : u128) p (acc : OrderLiquidity) o : outcome OrderLiquidity :=
  own ← price_t1_over_t0 (order o);
  let '(min_q, max_q, ko) := fill_range o (p =? own) in
  '(min_in, min_out) ← get_amount_in_out o min_q fee p;
  let '(t0_d, t1_d) := if is_bid o then (- min_out, min_in) else (min_in, - min_out) in
  let acc := {| net_t0 := i256_wrap (net_t0 acc + t0_d); net_t1 := i256_wrap (net_t1 acc + t1_d);
                bid_slack := bid_slack acc; ask_slack := ask_slack acc;
                killable_orders := killable_orders acc ++ ko |} in
  match max_q with
  | None => Ret acc
  | Some fill_amount =>
      '(max_in, max_out) ← get_amount_in_out o fill_amount fee p;
      let d_in := u128_wrap (max_in - min_in) in
      let d_out := u128_wrap (max_out - min_out) in
      let add (s : u128 * u128) (t0 t1 : u128) := (u128_wrap (s.1 + t0), u128_wrap (s.2 + t1)) in
      Ret {| net_t0 := net_t0 acc; net_t1 := net_t1 acc;
             bid_slack := if is_bid o then add (bid_slack acc) d_out d_in else bid_slack acc;
             ask_slack := if is_bid o then ask_slack acc else add (ask_slack acc) d_in d_out;
             killable_orders := killable_orders acc |}
  end.

(** One side of the book: the orders whose limit admits the price and that were
    not killed. *)
Fixpoint process_side (fee : u128) p (dead : gset OrderId) (admits : BookOrder -> outcome bool)
    (acc : OrderLiquidity) (l : list BookOrder) : outcome OrderLiquidity :=
  match l with
  | [] => Ret acc
  | o :: l' =>
      ok ← admits o;
      acc ← (if (ok : bool) && negb (bool_decide (order_id o ∈ dead))
             then process_order fee p acc o else Ret acc);
      process_side fee p dead admits acc l'
  end.

Definition order_liquidity m p (dead : gset OrderId) : outcome OrderLiquidity :=
  let fee := dm_fee m in
  acc ← process_side fee p dead (fun o => l ← bid_limit fee o; Ret (p <=? l)) empty_liquidity
    (bids (dm_book m));
  process_side fee p dead (fun o => l ← ask_limit fee o; Ret (l <=? p)) acc (asks (dm_book m)).

(** ** Killing orders *)

(** The [fold_while]: the orders are taken until they are worth more than the
    target. *)
Fixpoint eliminate (min_target : u128) (l : list (OrderId * u128 * bool)) (total : u128)
    (ids : list OrderId) : u128 * list OrderId :=
  match l with
  | [] => (total, ids)
  | (id, q, _) :: l' =>
      let total := u128_wrap (total + q) in
      let ids := ids ++ [id] in
      if min_target <? total then (total, ids) else eliminate min_target l' total ids
  end.

Definition check_killable_orders (ko : list (OrderId * u128 * bool)) (side : bool)
    (min_target : u128) : u128 * option (list OrderId) :=
  let mine := sort_by (fun x y => y.1.2 ?= x.1.2) (filter (fun x => x.2 = side) ko) in
  let '(total_elim, ids) := match mine with
    | [] => (0, None)
    | _ :: _ => let '(t, ids) := eliminate min_target mine 0 [] in (t, Some ids)
    end in
  if min_target <=? total_elim then (total_elim, ids) else (0, None).

(** ** Balancing a price *)

(** More of the token is owed than the market has: the partial orders on the side
    that brings it in may add to it. *)
Definition settle_demand m p (ko : list (OrderId * u128 * bool)) (t0_sum : I256)
    (abs_excess available_drain available_add : u128) (bid_is_input : bool)
    : outcome SupplyDemandResult :=
  if available_add <? abs_excess then
    Ret (MoreDemand (check_killable_orders ko bid_is_input (abs_excess - available_add)).2)
  else
    let additional_fillable := Z.min (available_add - abs_excess) available_drain in
    if solve_for_t0 m then
      bid ← quantity p additional_fillable false;
      Ret (PartialFillEq bid (u128_wrap (abs_excess + additional_fillable)) 0)
    else
      ip ← inv_ray p;
      excess_t0_cost ← inverse_quantity ip abs_excess false;
      reward ← (if 0 <? t0_sum then t ← uint_to_u128 t0_sum; Ret (sat_sub t excess_t0_cost)
                else Ret 0);
      ask ← inverse_quantity p additional_fillable false;
      Ret (PartialFillEq (u128_wrap (abs_excess + additional_fillable)) ask reward).

(** The market has more of the token than it owes: the partial orders on the
    other side may take it. *)
Definition settle_supply m p (ko : list (OrderId * u128 * bool)) (t0_sum : I256)
    (abs_excess available_drain available_add : u128) (bid_is_input : bool)
    : outcome SupplyDemandResult :=
  if available_drain <? abs_excess then
    Ret (MoreSupply
      (check_killable_orders ko bid_is_input (u128_wrap (abs_excess - available_add))).2)
  else
    let additional_drainable := Z.min (available_drain - abs_excess) available_add in
    if solve_for_t0 m then
      bid ← quantity p (u128_wrap (abs_excess + additional_drainable)) false;
      Ret (PartialFillEq bid additional_drainable 0)
    else
      excess_t0_gain ← inverse_quantity p abs_excess true;
      let final_t0 := i256_wrap (t0_sum + excess_t0_gain) in
      reward ← (if 0 <? final_t0 then uint_to_u128 final_t0 else Ret 0);
      ask ← inverse_quantity p (u128_wrap (abs_excess + additional_drainable)) false;
      Ret (PartialFillEq additional_drainable ask reward).

Definition check_ucp m p (dead : gset OrderId) : outcome (CheckUcpStats * SupplyDemandResult) :=
  '(a_t0, a_t1) ← fetch_concentrated_liquidity m p;
  ol ← order_liquidity m p dead;
  let t0_sum := i256_wrap (a_t0 + net_t0 ol) in
  let t1_sum := i256_wrap (a_t1 + net_t1 ol) in
  let stats := {| amm_t0 := a_t0; amm_t1 := a_t1; order_t0 := net_t0 ol; order_t1 := net_t1 ol;
                  order_bid_slack := bid_slack ol; order_ask_slack := ask_slack ol |} in
  if (t0_sum =? 0) && (t1_sum =? 0) then Ret (stats, NaturallyEqual)
  else
    let excess_liquidity := if solve_for_t0 m then t0_sum else t1_sum in
    let '(available_drain, available_add, bid_is_input) :=
      if solve_for_t0 m then ((bid_slack ol).1, (ask_slack ol).1, false)
      else ((ask_slack ol).2, (bid_slack ol).2, true) in
    let abs_excess := Z.min (Z.abs excess_liquidity) u128_max in
    res ← (if excess_liquidity <? 0 then settle_demand else settle_supply) m p (killable_orders ol)
      t0_sum abs_excess available_drain available_add bid_is_input;
    Ret (stats, res).

(** ** The search for the clearing price *)

Record PriceSearch := {
  p_max : Ray;
  p_min : Ray;
  search_killed : gset OrderId;
  dust : option (U256 * UcpSolution)
}.

Definition sat_add_1 (z : U256) : U256 := Z.min u256_max (z + 1).
Definition sat_sub_1 (z : U256) : U256 := Z.max 0 (z - 1).

(** The prices of the book, one unit beyond the best limits. *)
Definition clearing_bounds m : outcome (Ray * Ray) :=
  hi ← highest_clearing_price (dm_book m);
  lo ← lowest_clearing_price (dm_book m);
  Ret (sat_sub_1 lo, sat_add_1 hi).

(** The prices between which the loaded liquidity of the pool reaches. *)
Definition liquidity_bounds m : outcome (Ray * Ray) :=
  match amm_start_location m with
  | None => Ret (0, u256_max)
  | Some r =>
      lo ← min_sqrt_price (end_liquidity r);
      hi ← max_sqrt_price (end_liquidity r);
      lo ← ray_of_sqrt lo;
      hi ← ray_of_sqrt hi;
      Ret (lo, hi)
  end.

Definition start_search m : outcome PriceSearch :=
  '(min_price, max_price) ← liquidity_bounds m;
  '(lo, hi) ← clearing_bounds m;
  Ret {| p_max := Z.min max_price hi; p_min := Z.max min_price lo; search_killed := ∅; dust := None |}.

(** The solution at a price that leaves less than one unit of T0 of the solved
    token behind, when it leaves less than the last one. *)
Definition dust_at (for_t0 : bool) (st : PriceSearch) p (stats : CheckUcpStats)
    (res : SupplyDemandResult) : outcome (option (U256 * UcpSolution)) :=
  price_for_one ← (if for_t0 then price_of p (Token1 1) false else price_of p (Token0 1) false);
  let total_liq := if for_t0 then i256_wrap (amm_t0 stats + order_t0 stats)
                   else i256_wrap (amm_t1 stats + order_t1 stats) in
  let dust_q := match dust st with Some d => d.1 | None => u256_max end in
  Ret (if (0 <=? total_liq) && (total_liq <? price_for_one) && (total_liq <? dust_q) then
         let '(fills, reward) := match res with
           | PartialFillEq b k r => (Some (b, k), r)
           | _ => (None, 0)
           end in
         Some (total_liq, {| ucp := p; killed := search_killed st; partial_fills := fills;
                             reward_t0 := reward |})
       else dust st).

(** One iteration: the next state of the search, or the solution. *)
Definition search_step m (st : PriceSearch) : outcome (PriceSearch + UcpSolution) :=
  let can_kill := p_max st - p_min st <=? 4 in
  p_mid ← ray_div_word (ray_add (p_max st) (p_min st)) 2;
  '(stats, res) ← check_ucp m p_mid (search_killed st);
  d ← dust_at (solve_for_t0 m) st p_mid stats res;
  let kill (ko : list OrderId) :=
    '(lo, hi) ← clearing_bounds m;
    Ret (inl {| p_max := hi; p_min := lo; search_killed := search_killed st ∪ list_to_set ko;
                dust := d |}) in
  let lower := inl {| p_max := p_mid; p_min := p_min st; search_killed := search_killed st; dust := d |} in
  let higher := inl {| p_max := p_max st; p_min := p_mid; search_killed := search_killed st; dust := d |} in
  match res with
  | MoreSupply (Some ko) => if can_kill then kill ko else Ret (if solve_for_t0 m then lower else higher)
  | MoreDemand (Some ko) => if can_kill then kill ko else Ret (if solve_for_t0 m then higher else lower)
  | MoreSupply None => Ret (if solve_for_t0 m then lower else higher)
  | MoreDemand None => Ret (if solve_for_t0 m then higher else lower)
  | NaturallyEqual =>
      Ret (inr {| ucp := p_mid; killed := search_killed st; partial_fills := None; reward_t0 := 0 |})
  | PartialFillEq b k r =>
      Ret (inr {| ucp := p_mid; killed := search_killed st; partial_fills := Some (b, k); reward_t0 := r |})
  end.

(** The loop, [None] when the fuel is used up. *)
Fixpoint search_loop (fuel : nat) m (st : PriceSearch) : option (outcome (option UcpSolution)) :=
  if p_max st - p_min st <=? 1 then Some (Ret (snd <$> dust st))
  else match fuel with
  | O => None
  | S fuel' =>
      match search_step m st with
      | Ret (inl st') => search_loop fuel' m st'
      | Ret (inr sol) => Some (Ret (Some sol))
      | Panic => Some Panic
      end
  end.

(** Between two kills the prices halve their distance at most 256 times, and
    every kill takes another order of the book. *)
Definition search_fuel m : nat := S (length (all_orders (dm_book m))) * 257.

Definition solve_run m : option (outcome (option UcpSolution)) :=
  match start_search m with
  | Ret st => search_loop (search_fuel m) m st
  | Panic => Some Panic
  end.

Definition solve_clearing_price m : outcome (option UcpSolution) := default Panic (solve_run m).

(** ** The fills at the clearing price *)

(** The state of an order whose price is the clearing price, and what remains of
    the quantity its side may fill. *)
Definition fill_at_price o (partial_q : u128) : OrderFillState * u128 :=
  if 0 <? partial_q then
    let max_partial := if is_partial (order o) then u128_wrap (amount (order o) - min_amount (order o))
                       else min_amount (order o) in
    (if max_partial <? partial_q then CompleteFill
     else PartialFill (u128_wrap (min_amount (order o) + partial_q)),
     sat_sub partial_q max_partial)
  else if is_partial (order o) then (PartialFill (min_amount (order o)), partial_q)
  else (Unfilled, partial_q).

Definition order_outcome (fee : u128) (sol : UcpSolution) (qs : u128 * u128) o
    : outcome (OrderFillState * (u128 * u128)) :=
  if bool_decide (order_id o ∈ killed sol) then Ret (Killed, qs)
  else
    pr ← (if is_bid o then bid_limit fee o else ask_limit fee o);
    Ret match pr ?= ucp sol, is_bid o with
    | Gt, true | Lt, false => (CompleteFill, qs)
    | Gt, false | Lt, true => (Unfilled, qs)
    | Eq, true => let '(s, q) := fill_at_price o qs.1 in (s, (q, qs.2))
    | Eq, false => let '(s, q) := fill_at_price o qs.2 in (s, (qs.1, q))
    end.

Fixpoint fetch_outcomes (fee : u128) (sol : UcpSolution) (qs : u128 * u128) (l : list BookOrder)
    : outcome (list OrderOutcome) :=
  match l with
  | [] => Ret []
  | o :: l' =>
      '(s, qs') ← order_outcome fee sol qs o;
      rest ← fetch_outcomes fee sol qs' l';
      Ret ({| oo_id := order_id o; oo_outcome := s |} :: rest)
  end.

Definition fetch_orders_at_ucp m (sol : UcpSolution) : outcome (list OrderOutcome) :=
  fetch_outcomes (dm_fee m) sol (default (0, 0) (partial_fills sol)) (all_orders (dm_book m)).

(** [NetAmmOrder::new(direction)] and [add_quantity]. *)
Definition net_amm_order (sells_t0 : bool) (q c : u128) : NetAmmOrder :=
  if sells_t0 then Sell q c else Buy q c.

Definition fetch_amm_movement_at_ucp m p : outcome (option NetAmmOrder) :=
  end_sqrt ← sqrt_of_ray p;
  match amm_start_location m with
  | None => Ret None
  | Some pool =>
      res ← swap_to_price pool end_sqrt;
      Ret match res with
      | Err _ => None
      | Ok r => Some (net_amm_order (end_sqrt <=? end_price pool) (total_d_t0 r) (total_d_t1 r))
      end
  end.

Definition outcome_is_filled (oo : OrderOutcome) : bool :=
  match oo_outcome oo with CompleteFill | PartialFill _ => true | _ => false end.

Definition solution m (searcher : option (OrderWithStorageData TopOfBlockOrder)) : outcome PoolSolution :=
  solved ← solve_clearing_price m;
  match solved with
  | None =>
      Ret {| sol_id := book_id (dm_book m); sol_ucp := 0; sol_searcher := searcher;
             sol_amm_quantity := None;
             sol_limit := (fun o => {| oo_id := order_id o; oo_outcome := Unfilled |}) <$>
                            all_orders (dm_book m);
             sol_reward_t0 := 0; sol_fee := 0 |}
  | Some sol =>
      limit ← fetch_orders_at_ucp m sol;
      amm ← fetch_amm_movement_at_ucp m (ucp sol);
      let filled := existsb outcome_is_filled limit in
      Ret {| sol_id := book_id (dm_book m); sol_ucp := if filled then ucp sol else 0;
             sol_searcher := searcher; sol_amm_quantity := if filled then amm else None;
             sol_limit := limit; sol_reward_t0 := reward_t0 sol; sol_fee := dm_fee m mod 2 ^ 32 |}
  end.
End delta.
