(* ===== verification/DeltaProps.v ===== *)
(** * The price search ends, and its price clears the market

    Properties of the delta matcher (Delta.v): the search for the clearing price
    ends, the price it returns balances the book and the AMM, and the fills
    respect the orders. *)

From S2P Require Import Prelude Ray Orders Samples Rules Accounts Pool Book ConsensusTypes Delta.
Open Scope Z_scope.

Section killing.
Implicit Types (ko : list (OrderId * u128 * bool)).

Lemma eliminate_ids target ko total ids total' ids' :
  eliminate target ko total ids = (total', ids') ->
  exists k, ids' = ids ++ ((fun x => x.1.1) <$> take k ko) /\ (ko <> [] -> k <> 0%nat).
Proof.
  revert total ids. induction ko as [|[[id q] b] ko IH]; intros total ids; cbn.
  - intros [= _ <-]. exists 0%nat. by rewrite app_nil_r.
  - destruct (target <? u128_wrap (total + q)).
    + intros [= _ <-]. by exists 1%nat.
    + intros (k & -> & _)%IH. exists (S k). by rewrite <-app_assoc.
Qed.

(** Only orders that can be killed are killed, and at least one. *)
Lemma check_killable_ids ko side target ids :
  (check_killable_orders ko side target).2 = Some ids ->
  ids <> [] /\ forall id, id ∈ ids -> exists q, (id, q, side) ∈ ko.
Proof.
  unfold check_killable_orders. set (mine := sort_by _ _).
  destruct mine as [|x mine'] eqn:Em; [by destruct (target <=? 0)|].
  destruct (eliminate target (x :: mine') 0 []) as [t ids'] eqn:Ee.
  destruct (target <=? t); [|done]. intros [= ->].
  apply eliminate_ids in Ee as (k & -> & Hk). split.
  - destruct k; [by destruct Hk|done].
  - intros id ([[id' q] b] & -> & Hin)%list_elem_of_fmap. exists q.
    assert ((id', q, b) ∈ mine) as Hm by (rewrite Em; exact (subseteq_take k _ _ Hin)).
    subst mine. rewrite sort_by_perm in Hm. by apply list_elem_of_filter in Hm as [Hb ?]; cbn in Hb; subst b.
Qed.
End killing.

Section search.
Context `{HI : HashIter} `{AL : ArithLib} `{OH : OrderHasher} `{SR : SqrtRatios} `{TL : TickLib}.
Implicit Types (o : BookOrder) (m : DeltaMatcher) (p : Ray) (st : PriceSearch).

(** The orders that can be killed are exact orders of the book that are not
    killed yet. *)
Definition live_exact (dead : gset OrderId) (l : list BookOrder) (id : OrderId) : Prop :=
  exists o, o ∈ l /\ order_id o = id /\ (id ∉ dead) /\ is_partial (order o) = false.

Lemma process_order_killable fee p acc o acc' : process_order fee p acc o = Ret acc' ->
  exists ko, killable_orders acc' = killable_orders acc ++ ko /\
    forall x, x ∈ ko -> x.1.1 = order_id o /\ is_partial (order o) = false.
Proof.
  unfold process_order. intros (own & _ & H)%bind_Ret.
  destruct (fill_range o (p =? own)) as [[min_q max_q] ko] eqn:Er.
  apply bind_Ret in H as ([min_in min_out] & _ & H).
  exists ko. split.
  - destruct (is_bid o); cbn in H;
      (destruct max_q; [apply bind_Ret in H as ([? ?] & _ & [= <-])|injection H as <-]; reflexivity).
  - unfold fill_range in Er.
    destruct (p =? own); [destruct (is_partial (order o)) eqn:Ep|]; injection Er as <- <- <-;
      set_solver.
Qed.

Lemma process_side_killable fee p dead admits acc l acc' :
  process_side fee p dead admits acc l = Ret acc' ->
  forall x, x ∈ killable_orders acc' -> x ∈ killable_orders acc \/ live_exact dead l x.1.1.
Proof.
  revert acc. induction l as [|o l IH]; cbn; intros acc H x Hx; [by injection H as <-; left|].
  apply bind_Ret in H as (ok & _ & H). apply bind_Ret in H as (acc1 & Hp & H).
  apply (IH _ H) in Hx as [Hx|(o' & ? & ?)]; [|right; exists o'; split; [by right|done]].
  destruct (ok && negb (bool_decide (order_id o ∈ dead))) eqn:E; [|injection Hp as <-; by left].
  apply andb_true_iff in E as [_ Hd%negb_true_iff%bool_decide_eq_false].
  apply process_order_killable in Hp as (ko & Hko & Hall). rewrite Hko in Hx.
  apply elem_of_app in Hx as [Hx|Hx]; [by left|]. right. apply Hall in Hx as [-> Hpart].
  exists o. split; [left|done].
Qed.

Lemma killable_live m p dead ol : order_liquidity m p dead = Ret ol ->
  forall x, x ∈ killable_orders ol -> live_exact dead (all_orders (dm_book m)) x.1.1.
Proof.
  unfold order_liquidity, all_orders. intros (acc & Hb & Ha)%bind_Ret x Hx.
  apply (process_side_killable _ _ _ _ _ _ _ Ha) in Hx as [Hx|(o & ? & ?)];
    [|exists o; set_solver].
  apply (process_side_killable _ _ _ _ _ _ _ Hb) in Hx as [Hx|(o & ? & ?)]; [|exists o; set_solver].
  by apply elem_of_nil in Hx.
Qed.

(** The orders a price check proposes to kill. *)
Definition proposed_kill (res : SupplyDemandResult) : option (list OrderId) :=
  match res with MoreSupply ko | MoreDemand ko => ko | _ => None end.

Lemma settle_kill m p ko t0 ex dr ad side res ids (d : bool) :
  (if d then settle_demand else settle_supply) m p ko t0 ex dr ad side = Ret res ->
  proposed_kill res = Some ids -> exists target, (check_killable_orders ko side target).2 = Some ids.
Proof.
  destruct d; unfold settle_demand, settle_supply;
    [destruct (ad <? ex)|destruct (dr <? ex)]; try (intros [= <-]; eauto).
  all: destruct (solve_for_t0 m); intros H;
    repeat (apply bind_Ret in H as (? & _ & H)); injection H as <-; discriminate.
Qed.

Lemma check_ucp_kill m p dead stats res ids : check_ucp m p dead = Ret (stats, res) ->
  proposed_kill res = Some ids ->
  ids <> [] /\ forall id, id ∈ ids -> live_exact dead (all_orders (dm_book m)) id.
Proof.
  unfold check_ucp. intros H Hk. apply bind_Ret in H as ([a0 a1] & _ & H).
  apply bind_Ret in H as (ol & Hol & H).
  destruct ((i256_wrap (a0 + net_t0 ol) =? 0) && (i256_wrap (a1 + net_t1 ol) =? 0));
    [injection H as <- <-; discriminate|].
  assert (exists side target, (check_killable_orders (killable_orders ol) side target).2 = Some ids)
    as (side & target & Hc).
  { destruct (solve_for_t0 m); apply bind_Ret in H as (r & Hs & [= _ ->]);
      apply (settle_kill _ _ _ _ _ _ _ _ _ ids) in Hs as [target ?]; eauto. }
  apply check_killable_ids in Hc as [Hne Hall]. split; [done|]. intros id Hid.
  apply Hall in Hid as [q Hq]. exact (killable_live _ _ _ _ Hol _ Hq).
Qed.

(** ** The search ends *)

Lemma traverse_elem {A B} (f : A -> outcome B) l ys : traverse f l = Ret ys ->
  forall y, y ∈ ys -> exists x, x ∈ l /\ f x = Ret y.
Proof.
  revert ys. induction l as [|x l IH]; cbn; intros ys H y Hy.
  - injection H as <-. by apply elem_of_nil in Hy.
  - apply bind_Ret in H as (y' & Hy' & H). apply bind_Ret in H as (ys' & Hys & [= <-]).
    apply elem_of_cons in Hy as [->|Hy]; [exists x; split; [left|done]|].
    destruct (IH _ Hys _ Hy) as (x' & ? & ?). exists x'. split; [by right|done].
Qed.

(** The limit prices of the bids are words. *)
Definition bids_ok (bk : OrderBook) : Prop :=
  forall o lp, o ∈ bids bk -> limit_price (order o) = Ret lp -> 0 <= lp.

Lemma div_round_inv n d rm q : 0 <= n -> 0 <= d -> div_round n d rm = Ret q ->
  0 < d /\ q = div_to n d rm.
Proof.
  intros Hn Hd. destruct (decide (d = 0)) as [->|]; [by rewrite div_round_zero|].
  rewrite div_round_spec by lia. intros [= <-]. split; [lia|done].
Qed.

Lemma from_limbs_inv n q : 0 <= n -> from_limbs_slice n = Ret q -> q = n /\ n <= u256_max.
Proof.
  intros Hn. destruct (decide (n <= u256_max)).
  - rewrite from_limbs_slice_fits by lia. intros [= <-]. done.
  - rewrite from_limbs_slice_large by lia. discriminate.
Qed.

Lemma ray_of_sqrt_le s p : 0 <= s <= 2 ^ 160 -> ray_of_sqrt s = Ret p -> 0 <= p <= 2 ^ 218.
Proof.
  unfold ray_of_sqrt, convert_sqrtpricex96. intros Hs (q & Hq & Hf)%bind_Ret.
  assert (0 < const_2_192) by done. assert (0 <= s * s * const_1e27) by (unfold const_1e27; nia).
  apply div_round_inv in Hq as [_ ->]; [|lia..].
  pose proof (div_to_nonneg (s * s * const_1e27) const_2_192 (rounding false)).
  apply from_limbs_inv in Hf as [-> _]; [|lia].
  split; [lia|]. apply div_to_le; [lia|].
  transitivity (2 ^ 320 * const_1e27); [|vm_compute; discriminate].
  apply Z.mul_le_mono_nonneg_r; [done|]. change (2 ^ 320) with (2 ^ 160 * 2 ^ 160). nia.
Qed.

Lemma inv_ray_round_le p up q : 0 <= p -> inv_ray_round p up = Ret q -> 0 <= q <= const_1e54.
Proof.
  unfold inv_ray_round, invert. intros Hp H. assert (0 <= const_1e54) by done.
  assert (forall rm, (res ← div_round const_1e54 p rm; from_limbs_slice res) = Ret q ->
    0 <= q <= const_1e54) as Hi.
  { intros rm (r & Hr & Hf)%bind_Ret. apply div_round_inv in Hr as [Hp' ->]; [|lia..].
    pose proof (div_to_nonneg const_1e54 p rm). apply from_limbs_inv in Hf as [-> _]; [|lia].
    split; [lia|]. apply div_to_le; [lia|nia]. }
  destruct up; eauto.
Qed.

Lemma highest_clearing_le bk p : 0 < MAX_SQRT_RATIO <= 2 ^ 160 -> bids_ok bk ->
  highest_clearing_price bk = Ret p -> 0 <= p <= 2 ^ 218.
Proof.
  unfold highest_clearing_price. intros HM Hok (ps & Hps & H)%bind_Ret.
  destruct (list_max ps) as [q|] eqn:E; [injection H as <-|by apply ray_of_sqrt_le in H; [|lia]].
  apply list_max_elem in E. apply (traverse_elem _ _ _ Hps) in E as (o & Ho & H).
  apply bind_Ret in H as (lp & Hlp & H). apply (Hok _ _ Ho) in Hlp.
  apply inv_ray_round_le in H; [|done]. assert (const_1e54 <= 2 ^ 218) by (vm_compute; discriminate). lia.
Qed.

Definition search_ok st : Prop := 0 <= p_min st /\ p_max st <= 2 ^ 219.

Lemma clearing_bounds_ok m lo hi : 0 < MAX_SQRT_RATIO <= 2 ^ 160 -> bids_ok (dm_book m) ->
  clearing_bounds m = Ret (lo, hi) -> 0 <= lo /\ hi <= 2 ^ 219.
Proof.
  unfold clearing_bounds, sat_sub_1, sat_add_1. intros HM Hok (h & Hh & H)%bind_Ret.
  apply bind_Ret in H as (l & _ & [= <- <-]). apply highest_clearing_le in Hh; [|done..]. lia.
Qed.

Lemma start_search_ok m st : 0 < MAX_SQRT_RATIO <= 2 ^ 160 -> bids_ok (dm_book m) ->
  start_search m = Ret st -> search_ok st.
Proof.
  unfold start_search. intros HM Hok ([l h] & _ & H)%bind_Ret.
  apply bind_Ret in H as ([lo hi] & Hb & [= <-]). apply clearing_bounds_ok in Hb; [|done..].
  unfold search_ok. cbn. lia.
Qed.

(** The potential of a search: the orders that are left to kill, and the halvings
    the prices allow before the next kill. *)
Definition book_ids m : gset OrderId := list_to_set (order_id <$> all_orders (dm_book m)).
Definition potential m st : nat :=
  size (book_ids m ∖ search_killed st) * 257 + Z.to_nat (Z.log2_up (p_max st - p_min st)).

Lemma midpoint st : search_ok st -> 1 < p_max st - p_min st ->
  ray_div_word (ray_add (p_max st) (p_min st)) 2 = Ret ((p_max st + p_min st) / 2).
Proof.
  intros [H1 H2] Hd. unfold ray_div_word, ray_add, u256_wrap. cbn.
  rewrite Z.mod_small; [done|]. lia.
Qed.

Lemma log2_up_half a b : 1 < a -> b <= (a + 1) / 2 -> (Z.to_nat (Z.log2_up b) < Z.to_nat (Z.log2_up a))%nat.
Proof.
  intros Ha Hb. pose proof (Z.log2_up_pos a Ha). pose proof (Z.log2_up_nonneg b).
  apply Z2Nat.inj_lt; [lia..|]. apply Z.le_lt_trans with (Z.log2_up ((a + 1) / 2));
    [by apply Z.log2_up_le_mono|].
  pose proof (Z.log2_up_spec a Ha) as [_ Hs].
  apply Z.le_lt_trans with (Z.log2_up (2 ^ Z.pred (Z.log2_up a))).
  - apply Z.log2_up_le_mono. apply Z.lt_succ_r, Z.div_lt_upper_bound; [lia|].
    rewrite <-(Z.succ_pred (Z.log2_up a)), Z.pow_succ_r in Hs by lia. lia.
  - rewrite Z.log2_up_pow2; lia.
Qed.

Lemma log2_up_bounded a : a <= 2 ^ 219 -> (Z.to_nat (Z.log2_up a) <= 219)%nat.
Proof.
  intros Ha. apply Z.log2_up_le_mono in Ha. rewrite Z.log2_up_pow2 in Ha by lia. lia.
Qed.

(** The fills and the reward of a price check that settles. *)
Definition settled (res : SupplyDemandResult) : option (option (u128 * u128) * u128) :=
  match res with
  | NaturallyEqual => Some (None, 0)
  | PartialFillEq b k r => Some (Some (b, k), r)
  | _ => None
  end.

(** One iteration, at the middle of the prices: it settles, it goes on with one
    half, or it kills and goes on with the prices of the book. *)
Lemma search_step_inv m st r : search_ok st -> 1 < p_max st - p_min st -> search_step m st = Ret r ->
  let mid := (p_max st + p_min st) / 2 in
  exists stats res d, check_ucp m mid (search_killed st) = Ret (stats, res) /\
    dust_at (solve_for_t0 m) st mid stats res = Ret d /\
    match r with
    | inr sol => ucp sol = mid /\ killed sol = search_killed st /\
        settled res = Some (partial_fills sol, reward_t0 sol)
    | inl st' => settled res = None /\ dust st' = d /\
        (search_killed st' = search_killed st /\
           (p_max st' = mid /\ p_min st' = p_min st \/ p_max st' = p_max st /\ p_min st' = mid) \/
         exists ko, proposed_kill res = Some ko /\
           search_killed st' = search_killed st ∪ list_to_set ko /\
           clearing_bounds m = Ret (p_min st', p_max st'))
    end.
Proof.
  intros Hok Hd. unfold search_step. rewrite midpoint by done. cbn [mbind outcome_bind].
  set (mid := (p_max st + p_min st) / 2). intros ([stats res] & Hc & H)%bind_Ret.
  apply bind_Ret in H as (d & Hdu & H). exists stats, res, d. split; [done|]. split; [done|].
  destruct res as [[ko|]|[ko|]| |b k q].
  all: try (destruct (p_max st - p_min st <=? 4);
    [apply bind_Ret in H as ([lo hi] & Hb & [= <-]); cbn; eauto 8|]).
  all: try (destruct (solve_for_t0 m)); injection H as <-; cbn; eauto 8.
Qed.

Lemma search_step_progress m st st' : 0 < MAX_SQRT_RATIO <= 2 ^ 160 -> bids_ok (dm_book m) ->
  search_ok st -> 1 < p_max st - p_min st -> search_step m st = Ret (inl st') ->
  search_ok st' /\ (potential m st' < potential m st)%nat.
Proof.
  intros HM Hbk Hok Hd Hs. pose proof Hok as [Hlo Hhi].
  apply search_step_inv in Hs as (stats & res & d & Hc & _ & _ & _ & Hs); [|done..].
  set (mid := (p_max st + p_min st) / 2) in *.
  assert (p_min st <= mid <= p_max st) as Hmid.
  { subst mid. split; [apply Z.div_le_lower_bound|apply Z.div_le_upper_bound]; lia. }
  pose proof (Z.div_mod (p_max st + p_min st) 2 ltac:(lia)) as Hdm.
  pose proof (Z.mod_pos_bound (p_max st + p_min st) 2 ltac:(lia)). fold mid in Hdm.
  destruct Hs as [(Hk & Hp)|(ko & Hko & Hk & Hb)].
  - split; [unfold search_ok; destruct Hp as [[-> ->]|[-> ->]]; lia|].
    unfold potential. rewrite Hk. apply Nat.add_lt_mono_l, log2_up_half; [lia|].
    apply Z.div_le_lower_bound; [lia|]. destruct Hp as [[-> ->]|[-> ->]]; lia.
  - apply clearing_bounds_ok in Hb as [? ?]; [|done..]. split; [done|].
    apply (check_ucp_kill _ _ _ _ _ _ Hc) in Hko as [Hne Hall].
    destruct ko as [|id ko]; [done|].
    destruct (Hall id) as (o & Ho & Hid & Hnd & _); [left|].
    assert (size (book_ids m ∖ search_killed st') < size (book_ids m ∖ search_killed st))%nat.
    { apply subset_size. rewrite Hk. split; [set_solver|]. intros Hsub.
      assert (id ∈ book_ids m) by (unfold book_ids; set_solver). set_solver. }
    unfold potential. pose proof (log2_up_bounded (p_max st' - p_min st') ltac:(lia)). lia.
Qed.

Lemma search_loop_total fuel m st : 0 < MAX_SQRT_RATIO <= 2 ^ 160 -> bids_ok (dm_book m) ->
  search_ok st -> (potential m st <= fuel)%nat -> is_Some (search_loop fuel m st).
Proof.
  intros HM Hbk. revert st. induction fuel as [|fuel IH]; intros st Hok Hf; cbn [search_loop];
    destruct (Z.leb_spec (p_max st - p_min st) 1); eauto.
  - unfold potential in Hf. pose proof (Z.log2_up_pos (p_max st - p_min st)). lia.
  - destruct (search_step m st) as [[st'|sol]|] eqn:E; eauto.
    apply search_step_progress in E as [Hok' Hp]; [|done..]. apply IH; [done|lia].
Qed.

Lemma size_list_to_set_le (l : list OrderId) : (size (list_to_set l : gset OrderId) <= length l)%nat.
Proof.
  induction l as [|x l IH]; cbn; [by rewrite size_empty|].
  rewrite size_union_alt, size_singleton.
  pose proof (subseteq_size (list_to_set l ∖ {[x]} : gset OrderId) (list_to_set l) ltac:(set_solver)). lia.
Qed.

Lemma potential_bound m st : search_ok st -> (potential m st <= search_fuel m)%nat.
Proof.
  intros [? ?]. unfold potential, search_fuel.
  pose proof (log2_up_bounded (p_max st - p_min st) ltac:(lia)).
  assert (size (book_ids m ∖ search_killed st) <= length (all_orders (dm_book m)))%nat as Hs.
  { etransitivity; [apply subseteq_size, subseteq_difference_l; reflexivity|].
    unfold book_ids. rewrite <-(length_fmap order_id). apply size_list_to_set_le. }
  lia.
Qed.

(** C17. The search for the clearing price ends for every book and every pool,
    whatever it kills on the way: the iterations that halve the prices are at
    most 256 between two kills, and every kill takes at least one more order of
    the book. *)
Theorem price_search_ends m (Hmax : 0 < MAX_SQRT_RATIO <= 2 ^ 160) (Hbids : bids_ok (dm_book m)) :
  is_Some (solve_run m).
Proof.
  unfold solve_run. destruct (start_search m) as [st|] eqn:E; [|eauto].
  apply start_search_ok in E; [|done..]. apply search_loop_total; [done..|].
  by apply potential_bound.
Qed.

(** ** The price clears the market *)

(** What the market holds of the two tokens at a price, after the AMM moved there
    and the orders that have to be filled were filled. *)
Definition market_at m p (dead : gset OrderId) (t0 t1 : I256) (ol : OrderLiquidity) : Prop :=
  exists a0 a1, fetch_concentrated_liquidity m p = Ret (a0, a1) /\ order_liquidity m p dead = Ret ol /\
    t0 = i256_wrap (a0 + net_t0 ol) /\ t1 = i256_wrap (a1 + net_t1 ol).

Definition slack_ok (ol : OrderLiquidity) : Prop :=
  0 <= (bid_slack ol).2 <= u128_max /\ 0 <= (ask_slack ol).2 <= u128_max.

Lemma process_order_slack fee p acc o acc' : process_order fee p acc o = Ret acc' ->
  slack_ok acc -> slack_ok acc'.
Proof.
  unfold process_order. intros (own & _ & H)%bind_Ret Hs.
  destruct (fill_range o (p =? own)) as [[min_q max_q] ko].
  apply bind_Ret in H as ([min_in min_out] & _ & H). unfold slack_ok in *.
  destruct (is_bid o); cbn in H;
    (destruct max_q; [apply bind_Ret in H as ([? ?] & _ & [= <-])|injection H as <-]); cbn;
    intuition auto using u128_wrap_range; apply u128_wrap_range.
Qed.

Lemma process_side_slack fee p dead admits acc l acc' :
  process_side fee p dead admits acc l = Ret acc' -> slack_ok acc -> slack_ok acc'.
Proof.
  revert acc. induction l as [|o l IH]; cbn; intros acc H Hs; [by injection H as <-|].
  apply bind_Ret in H as (ok & _ & H). apply bind_Ret in H as (acc1 & Hp & H).
  apply (IH _ H). destruct (ok && _); [by eapply process_order_slack|by injection Hp as <-].
Qed.

Lemma order_liquidity_slack m p dead ol : order_liquidity m p dead = Ret ol -> slack_ok ol.
Proof.
  unfold order_liquidity. intros (acc & Hb & Ha)%bind_Ret.
  eapply process_side_slack; [exact Ha|]. eapply process_side_slack; [exact Hb|].
  split; cbn; (split; [lia|vm_compute; discriminate]).
Qed.

(** The fills of a price that settles in T1: what the bids add and what the asks
    drain makes up for what the market is short or long of. *)
Definition t1_fills p (t1 : I256) (drain add b k : u128) : Prop :=
  exists drained, 0 <= b <= add /\ 0 <= drained <= drain /\
    inverse_quantity p drained false = Ret k /\ (Z.abs t1 <= u128_max -> t1 + b = drained) /\
    Z.min (Z.abs t1) u128_max <= Z.max drain add.

Lemma settle_t1 m p ko t0 t1 drain add side b k r : solve_for_t0 m = false ->
  0 <= drain <= u128_max -> 0 <= add <= u128_max ->
  (if t1 <? 0 then settle_demand else settle_supply) m p ko t0 (Z.min (Z.abs t1) u128_max) drain add side
    = Ret (PartialFillEq b k r) ->
  t1_fills p t1 drain add b k.
Proof.
  intros Ht Hd Ha. set (ex := Z.min (Z.abs t1) u128_max).
  assert (0 <= ex) by (subst ex; unfold u128_max in *; lia).
  destruct (Z.ltb_spec t1 0); unfold settle_demand, settle_supply; rewrite Ht.
  - destruct (Z.ltb_spec add ex); [done|]. intros (ip & _ & Hs)%bind_Ret.
    apply bind_Ret in Hs as (c & _ & Hs). apply bind_Ret in Hs as (rw & _ & Hs).
    apply bind_Ret in Hs as (k' & Hk & [= <- <- _]). rewrite u128_wrap_small in * by lia.
    exists (Z.min (add - ex) drain). split; [lia|]. split; [lia|]. split; [done|]. subst ex. split; lia.
  - destruct (Z.ltb_spec drain ex); [done|]. intros (g & _ & Hs)%bind_Ret.
    apply bind_Ret in Hs as (rw & _ & Hs). apply bind_Ret in Hs as (k' & Hk & [= <- <- _]).
    rewrite u128_wrap_small in * by lia.
    exists (ex + Z.min (drain - ex) add). split; [lia|]. split; [lia|]. split; [done|]. subst ex. split; lia.
Qed.

Lemma check_ucp_market m p dead stats res : solve_for_t0 m = false ->
  check_ucp m p dead = Ret (stats, res) ->
  exists t0 t1 ol, market_at m p dead t0 t1 ol /\ t1 = i256_wrap (amm_t1 stats + order_t1 stats) /\
    match res with
    | NaturallyEqual => t0 = 0 /\ t1 = 0
    | PartialFillEq b k r => t1_fills p t1 (ask_slack ol).2 (bid_slack ol).2 b k
    | _ => True
    end.
Proof.
  unfold check_ucp. intros Ht H. apply bind_Ret in H as ([a0 a1] & Ha & H).
  apply bind_Ret in H as (ol & Hol & H). rewrite Ht in H.
  exists (i256_wrap (a0 + net_t0 ol)), (i256_wrap (a1 + net_t1 ol)), ol.
  split; [exists a0, a1; done|]. apply order_liquidity_slack in Hol as [Hb Hk].
  set (t1 := i256_wrap (a1 + net_t1 ol)) in *. set (t0 := i256_wrap (a0 + net_t0 ol)) in *.
  destruct (Z.eqb_spec t0 0) as [E0|_]; [destruct (Z.eqb_spec t1 0) as [E1|_]|]; cbn in H;
    [injection H as <- <-; done|..];
    apply bind_Ret in H as (r & Hs & [= <- ->]); (split; [done|]);
    destruct res as [?|?| |b k r]; try done;
    try (by eapply settle_t1);
    exfalso; clear -Hs Ht; destruct (t1 <? 0); unfold settle_demand, settle_supply in Hs; rewrite Ht in Hs;
    match type of Hs with (if ?c then _ else _) = _ => destruct c; [discriminate|] end;
    repeat (apply bind_Ret in Hs as (? & _ & Hs)); discriminate.
Qed.

(** A price that leaves less than the price of one unit of T0 behind. *)
Definition within_one m (sol : UcpSolution) : Prop :=
  partial_fills sol = None /\ reward_t0 sol = 0 /\
  exists t0 t1 ol unit, market_at m (ucp sol) (killed sol) t0 t1 ol /\
    quantity (ucp sol) 1 false = Ret unit /\ 0 <= t1 < unit.

(** A price at which the market settles. *)
Definition settles m (sol : UcpSolution) : Prop :=
  exists t0 t1 ol, market_at m (ucp sol) (killed sol) t0 t1 ol /\
    match partial_fills sol with
    | None => t0 = 0 /\ t1 = 0 /\ reward_t0 sol = 0
    | Some (b, k) => t1_fills (ucp sol) t1 (ask_slack ol).2 (bid_slack ol).2 b k
    end.

(** The bounds of the book, and the killed orders. *)
Definition in_book m (sol : UcpSolution) : Prop :=
  0 < ucp sol /\ (exists lo hi, clearing_bounds m = Ret (lo, hi) /\ lo <= ucp sol <= hi) /\
  forall id, id ∈ killed sol -> live_exact ∅ (all_orders (dm_book m)) id.

Record search_inv m st : Prop := {
  si_ok : search_ok st;
  si_bounds : exists lo hi, clearing_bounds m = Ret (lo, hi) /\ lo <= p_min st /\ p_max st <= hi;
  si_killed : forall id, id ∈ search_killed st -> live_exact ∅ (all_orders (dm_book m)) id;
  si_dust : forall e sol, dust st = Some (e, sol) -> within_one m sol /\ in_book m sol
}.

Lemma start_search_inv m st : 0 < MAX_SQRT_RATIO <= 2 ^ 160 -> bids_ok (dm_book m) ->
  start_search m = Ret st -> search_inv m st.
Proof.
  intros HM Hok Hs. pose proof (start_search_ok _ _ HM Hok Hs) as Hss.
  unfold start_search in Hs. apply bind_Ret in Hs as ([l h] & _ & Hs).
  apply bind_Ret in Hs as ([lo hi] & Hb & [= <-]).
  split; cbn; [done| |set_solver|done]. exists lo, hi. split; [done|lia].
Qed.

Lemma dust_at_inv st p stats res d e sol : dust_at false st p stats res = Ret d -> d = Some (e, sol) ->
  dust st = Some (e, sol) \/
  (ucp sol = p /\ killed sol = search_killed st /\
   (settled res = None -> partial_fills sol = None /\ reward_t0 sol = 0) /\
   exists unit, quantity p 1 false = Ret unit /\ 0 <= i256_wrap (amm_t1 stats + order_t1 stats) < unit).
Proof.
  unfold dust_at. intros (unit & Hu & [= <-])%bind_Ret.
  set (t := i256_wrap (amm_t1 stats + order_t1 stats)).
  destruct (Z.leb_spec 0 t); [|by left]. destruct (Z.ltb_spec t unit); [|by left].
  destruct (t <? _); [|by left]. cbn [andb]. destruct res as [?|?| |b k r]; intros [= <- <-]; right; cbn;
    (split; [done|]); (split; [done|]); (split; [done|]); exists unit; (split; [done|lia]).
Qed.

Lemma search_step_keeps m st r : 0 < MAX_SQRT_RATIO <= 2 ^ 160 -> bids_ok (dm_book m) ->
  solve_for_t0 m = false -> search_inv m st -> 1 < p_max st - p_min st -> search_step m st = Ret r ->
  match r with inl st' => search_inv m st' | inr sol => settles m sol /\ in_book m sol end.
Proof.
  intros HM Hbk Ht [Hok (lo & hi & Hb & Hlo & Hhi) Hkill Hdust] Hd Hs.
  apply search_step_inv in Hs as Hi; [|done..]. destruct Hi as (stats & res & d & Hc & Hdu & Hr).
  set (mid := (p_max st + p_min st) / 2) in *.
  assert (p_min st <= mid <= p_max st) as Hmid.
  { subst mid. split; [apply Z.div_le_lower_bound|apply Z.div_le_upper_bound]; lia. }
  assert (1 <= mid) by (subst mid; destruct Hok; apply Z.div_le_lower_bound; lia).
  pose proof (check_ucp_market _ _ _ _ _ Ht Hc) as (t0 & t1 & ol & Hm & Et1 & Hres).
  destruct r as [st'|sol].
  - apply search_step_progress in Hs as [Hok' _]; [|done..]. destruct Hr as (Hns & Hd' & Hr).
    assert (forall e sol, d = Some (e, sol) -> within_one m sol /\ in_book m sol) as Hd2.
    { intros e sol Hds. rewrite Ht in Hdu.
      apply (dust_at_inv _ _ _ _ _ _ _ Hdu) in Hds as [Hds|(Hu & Hk & Hf & unit & Hun & Hlt)];
        [by apply (Hdust e)|].
      destruct (Hf Hns) as [Hf1 Hf2]. split.
      - split; [done|]. split; [done|]. exists t0, t1, ol, unit. by rewrite Hu, Hk, Et1 in *.
      - split; [lia|]. split; [exists lo, hi; rewrite Hu; split; [done|lia]|]. by rewrite Hk. }
    destruct Hr as [(Hk & Hp)|(ko & Hko & Hk & Hb')]; split; try (by rewrite Hd').
    + done.
    + exists lo, hi. split; [done|]. destruct Hp as [[-> ->]|[-> ->]]; lia.
    + by rewrite Hk.
    + done.
    + exists (p_min st'), (p_max st'). split; [done|lia].
    + rewrite Hk. intros id [Hid|Hid%elem_of_list_to_set]%elem_of_union; [by apply Hkill|].
      apply (check_ucp_kill _ _ _ _ _ _ Hc) in Hko as [_ Hall].
      destruct (Hall _ Hid) as (o & ? & ? & _ & ?). exists o. set_solver.
  - destruct Hr as (Hu & Hk & Hset). split.
    + exists t0, t1, ol. rewrite Hu, Hk. split; [done|].
      destruct res as [?|?| |b k r]; cbn in Hset; try discriminate; injection Hset as Hf Hrw;
        rewrite <-Hf; [rewrite <-Hrw; tauto|done].
    + split; [lia|]. split; [exists lo, hi; rewrite Hu; split; [done|lia]|]. by rewrite Hk.
Qed.

Lemma search_loop_keeps fuel m st sol : 0 < MAX_SQRT_RATIO <= 2 ^ 160 -> bids_ok (dm_book m) ->
  solve_for_t0 m = false -> search_inv m st -> search_loop fuel m st = Some (Ret (Some sol)) ->
  (settles m sol \/ within_one m sol) /\ in_book m sol.
Proof.
  intros HM Hbk Ht. revert st. induction fuel as [|fuel IH]; intros st Hi; cbn [search_loop];
    destruct (Z.leb_spec (p_max st - p_min st) 1); try done.
  1,2: intros [= H1]; destruct (dust st) as [[e s]|] eqn:Ed; [|done]; injection H1 as ->;
    destruct (si_dust _ _ Hi _ _ Ed); tauto.
  destruct (search_step m st) as [[st'|s]|] eqn:E; [| |done];
    apply search_step_keeps in E; try done; [by apply IH|]. intros [= <-]. tauto.
Qed.

Lemma solved_price m sol : solve_for_t0 m = false -> 0 < MAX_SQRT_RATIO <= 2 ^ 160 ->
  bids_ok (dm_book m) -> solve_clearing_price m = Ret (Some sol) ->
  (settles m sol \/ within_one m sol) /\ in_book m sol.
Proof.
  unfold solve_clearing_price, solve_run. intros Ht HM Hbk Hsol.
  destruct (start_search m) as [st|] eqn:E; [|done]. apply start_search_inv in E; [|done..].
  destruct (search_loop (search_fuel m) m st) as [r|] eqn:El; [|done]. cbn in Hsol. subst r.
  by apply search_loop_keeps in El.
Qed.

Lemma inverse_quantity_nonneg p q up r : 0 <= p -> 0 <= q -> inverse_quantity p q up = Ret r ->
  0 <= r <= u128_max.
Proof.
  unfold inverse_quantity. intros Hp Hq (z & Hz & [= <-])%bind_Ret.
  assert (0 <= q * const_1e27) by (pose proof const_1e27_pos; nia).
  apply div_round_inv in Hz as [Hp' ->]; [|lia..].
  pose proof (div_to_nonneg (q * const_1e27) p (rounding up)).
  rewrite u128_saturating_from_spec by lia. unfold u128_max in *. lia.
Qed.

Lemma solved_fills_nonneg m sol : solve_for_t0 m = false -> 0 < MAX_SQRT_RATIO <= 2 ^ 160 ->
  bids_ok (dm_book m) -> solve_clearing_price m = Ret (Some sol) ->
  0 <= (default (0, 0) (partial_fills sol)).1 /\ 0 <= (default (0, 0) (partial_fills sol)).2.
Proof.
  intros Ht HM Hbk Hsol. apply solved_price in Hsol as [Hs (_ & (lo & hi & Hb & Hlo) & _)]; [|done..].
  apply clearing_bounds_ok in Hb as [H0 _]; [|done..].
  destruct (partial_fills sol) as [[b k]|] eqn:Ef; [|cbn; lia].
  destruct Hs as [(t0 & t1 & ol & _ & Hs)|(Hn & _)]; [|congruence]. rewrite Ef in Hs.
  destruct Hs as (d & Hb & Hd & Hk & _). apply inverse_quantity_nonneg in Hk; [|lia..]. cbn. lia.
Qed.


(** ** The fills *)

Definition own_limit (fee : u128) o : outcome Ray := if is_bid o then bid_limit fee o else ask_limit fee o.

(** The clearing price is no worse for an order than the price [pr]. *)
Definition no_worse o (pr q : Ray) : Prop := if is_bid o then q <= pr else pr <= q.

(** What an order may be told: an order that was killed for the price is killed;
    another one is filled completely only if the price is no worse than its limit,
    is filled in part only if the price is its limit, and then a partial order
    between its bounds, and is left unfilled only if the price is no better than
    its limit, and a partial order only if it is worse. *)
Definition fill_ok (fee : u128) (sol : UcpSolution) o (s : OrderFillState) : Prop :=
  match s with
  | Killed => order_id o ∈ killed sol
  | CompleteFill => (order_id o ∉ killed sol) /\
      exists pr, own_limit fee o = Ret pr /\ no_worse o pr (ucp sol)
  | PartialFill q => (order_id o ∉ killed sol) /\ own_limit fee o = Ret (ucp sol) /\
      (is_partial (order o) = true -> min_amount (order o) <= q <= amount (order o))
  | Unfilled => (order_id o ∉ killed sol) /\
      exists pr, own_limit fee o = Ret pr /\ no_worse o (ucp sol) pr /\
        (pr = ucp sol -> is_partial (order o) = false)
  end.

(** What an order at the clearing price takes beyond the amount it has to fill. *)
Definition extra o (s : OrderFillState) : Z :=
  match s with
  | PartialFill q => q - min_amount (order o)
  | CompleteFill => amount (order o) - min_amount (order o)
  | _ => 0
  end.

Definition extra_at (fee : u128) (sol : UcpSolution) (side : bool) o (s : OrderFillState) : Z :=
  if Bool.eqb (is_bid o) side then
    match own_limit fee o with Ret pr => if pr =? ucp sol then extra o s else 0 | Panic => 0 end
  else 0.

Definition sized o : Prop := 0 <= min_amount (order o) <= amount (order o) /\ amount (order o) <= u128_max.

Lemma fill_at_price_ok o q s q' : sized o -> 0 <= q -> fill_at_price o q = (s, q') ->
  extra o s <= q - q' /\ 0 <= q' /\
  match s with
  | Killed => False
  | CompleteFill => True
  | PartialFill v => is_partial (order o) = true -> min_amount (order o) <= v <= amount (order o)
  | Unfilled => is_partial (order o) = false
  end.
Proof.
  unfold fill_at_price, is_partial, sat_sub, extra, sized.
  generalize (amount (order o)), (min_amount (order o)). intros a l [Hm Ha] Hq.
  destruct (Z.ltb_spec 0 q).
  - destruct (Z.ltb_spec l a).
    + rewrite (u128_wrap_small (a - l)) by lia. destruct (Z.ltb_spec (a - l) q); intros [= <- <-]; [lia|]. rewrite u128_wrap_small by lia. lia.
    + destruct (Z.ltb_spec l q); intros [= <- <-]; [lia|].
      split; [|split; [lia|done]]. unfold u128_wrap. pose proof (Z.mod_le (l + q) (2 ^ 128)). lia.
  - destruct (Z.ltb_spec l a); intros [= <- <-]; (split; [lia|]); (split; [lia|]); [lia|done].
Qed.

Lemma order_outcome_ok fee sol qs o s qs' : sized o -> 0 <= qs.1 -> 0 <= qs.2 ->
  order_outcome fee sol qs o = Ret (s, qs') ->
  fill_ok fee sol o s /\ 0 <= qs'.1 /\ 0 <= qs'.2 /\
  extra_at fee sol true o s <= qs.1 - qs'.1 /\ extra_at fee sol false o s <= qs.2 - qs'.2.
Proof.
  intros Hz H1 H2. unfold order_outcome, fill_ok, extra_at, own_limit, no_worse.
  case_bool_decide as Hk.
  { intros [= <- <-]. split; [done|]. destruct (is_bid o); cbn; destruct (_ : outcome Ray);
      repeat case_match; lia. }
  intros (pr & Hpr & H)%bind_Ret.
  destruct (is_bid o) eqn:Eb; cbn [Bool.eqb] in *; rewrite Hpr;
    destruct (Z.compare_spec pr (ucp sol)) as [->|Hlt|Hgt];
    try (injection H as <- <-;
      rewrite (proj2 (Z.eqb_neq pr (ucp sol))) by lia;
      split; [split; [done|]; exists pr; repeat (split; [done || lia|]); lia|lia]).
  all: rewrite Z.eqb_refl;
    match type of H with context [fill_at_price ?x ?q] => destruct (fill_at_price x q) as [s' q'] eqn:Ef end;
    injection H as <- <-; apply fill_at_price_ok in Ef as (He & Hq' & Hs); [|done..]; cbn [fst snd];
    (split; [|lia]); destruct s'; try done; (split; [done|]); try done;
    exists (ucp sol); split; try done; lia.
Qed.

(** What the orders of one side take beyond the amounts they have to fill. *)
Definition total_extra (fee : u128) (sol : UcpSolution) (side : bool) (l : list BookOrder)
    (outs : list OrderOutcome) : Z :=
  zsum (zip_with (fun o oo => extra_at fee sol side o (oo_outcome oo)) l outs).

Lemma fetch_outcomes_ok fee sol qs l outs : Forall sized l -> 0 <= qs.1 -> 0 <= qs.2 ->
  fetch_outcomes fee sol qs l = Ret outs ->
  oo_id <$> outs = order_id <$> l /\ Forall2 (fun o oo => fill_ok fee sol o (oo_outcome oo)) l outs /\
  total_extra fee sol true l outs <= qs.1 /\ total_extra fee sol false l outs <= qs.2.
Proof.
  intros Hz. revert qs outs. induction Hz as [|o l Ho Hl IH]; cbn; intros qs outs H1 H2 H.
  - injection H as <-. by repeat split.
  - apply bind_Ret in H as ([s qs'] & Hs & H). apply bind_Ret in H as (rest & Hr & [= <-]).
    apply order_outcome_ok in Hs as (Hf & H1' & H2' & He1 & He2); [|done..].
    apply IH in Hr as (Hid & Hall & Ht1 & Ht2); [|done..]. unfold total_extra in *.
    cbn [fmap list_fmap zip_with zsum oo_id oo_outcome]. rewrite Hid.
    split; [done|]. split; [by constructor|]. lia.
Qed.

(** The matcher answers for every order of the book, bids first, and never
    fills an order against its limit.  Either it finds no price and leaves every
    order unfilled, or it finds a price and kills, fills, fills in part or leaves
    each order as its limit and the price allow; the partial orders are filled
    between their bounds, and what the orders at the price take beyond the amounts
    they have to fill does not exceed what the price lets their side take.  A
    solution that fills nothing has no price and does not move the AMM. *)
Theorem fills_respect_limits m searcher ps (Hsized : Forall sized (all_orders (dm_book m)))
    (Ht : solve_for_t0 m = false) (Hmax : 0 < MAX_SQRT_RATIO <= 2 ^ 160) (Hbids : bids_ok (dm_book m))
    (Hsol : solution m searcher = Ret ps) :
  oo_id <$> sol_limit ps = order_id <$> all_orders (dm_book m) /\
  (existsb outcome_is_filled (sol_limit ps) = false -> sol_ucp ps = 0 /\ sol_amm_quantity ps = None) /\
  (Forall (fun oo => oo_outcome oo = Unfilled) (sol_limit ps) \/
   exists sol, solve_clearing_price m = Ret (Some sol) /\
     let l := all_orders (dm_book m) in
     let '(b, k) := default (0, 0) (partial_fills sol) in
     Forall2 (fun o oo => fill_ok (dm_fee m) sol o (oo_outcome oo)) l (sol_limit ps) /\
     total_extra (dm_fee m) sol true l (sol_limit ps) <= b /\
     total_extra (dm_fee m) sol false l (sol_limit ps) <= k).
Proof.
  unfold solution in Hsol. apply bind_Ret in Hsol as ([sol|] & Hs & Hsol).
  - apply bind_Ret in Hsol as (limit & Hl & Hsol). apply bind_Ret in Hsol as (amm & _ & [= <-]).
    cbn [sol_limit sol_ucp sol_amm_quantity].
    destruct (solved_fills_nonneg m sol) as [H1 H2]; [done..|].
    apply fetch_outcomes_ok in Hl as (Hid & Hall & He); [|done..]. split; [done|].
    split; [by intros ->|]. right. exists sol. split; [done|]. cbn zeta.
    destruct (default (0, 0) (partial_fills sol)). done.
  - injection Hsol as <-. cbn [sol_limit sol_ucp sol_amm_quantity].
    split; [by rewrite <-list_fmap_compose|]. split; [done|]. left. by apply Forall_fmap, Forall_true.
Qed.

(** ** Filled orders get their limit *)

(** An exact-in limit order is unscaled like a partial one. *)
Lemma unscale_exact_in (a : AllOrders) pr g : exact_in a = true -> is_tob a = false ->
  unscale_by_gas_fee a pr g = partial_unscale_by_gas_fee (raw_is_bid a) (amount a) pr g.
Proof.
  destruct a as [a|a|a|a|a]; cbn; intros He Ht; try discriminate; try reflexivity;
    unfold exact_unscale_by_gas_fee, partial_unscale_by_gas_fee, raw_is_bid; cbn; rewrite He;
    by destruct (_ <? _).
Qed.

(** The gas of an order is worth a unit of the token it buys. *)
Definition gas_worth o (lp g : Z) : Prop := if raw_is_bid (order o) then 1 <= g else const_1e27 <= lp * g.

(** The amounts of the order fit their words with the gas. *)
Definition gas_fits o (lp g : Z) : Prop :=
  0 < amount (order o) /\ 0 <= g /\ amount (order o) + g <= u128_max /\
  (lp * (amount (order o) + g)) / const_1e27 + g <= u128_max.

Lemma gas_price_above o lp g pr : 0 <= lp -> gas_worth o lp g -> gas_fits o lp g ->
  partial_unscale_by_gas_fee (raw_is_bid (order o)) (amount (order o)) lp g = Ret pr -> lp < pr.
Proof.
  unfold gas_worth, gas_fits, partial_unscale_by_gas_fee.
  generalize (amount (order o)). intros a Hlp Hw (Ha & Hg & Hsum & Hfit) H.
  pose proof const_1e27_pos as Hc.
  assert (forall n, 0 <= n <= a + g -> 0 <= lp * n / const_1e27 <= u128_max - g) as Hn.
  { intros n Hn. split; [apply Z.div_pos; nia|].
    transitivity (lp * (a + g) / const_1e27); [apply Z.div_le_mono; nia|lia]. }
  assert (forall out, 0 <= out <= u128_max -> lp * a < out * const_1e27 ->
    from_quantities out a true = Ret pr -> lp < pr) as Hout.
  { intros out Ho Hlt. rewrite from_quantities_eval by lia. cbn [rounding].
    pose proof (div_to_ceil_bounds (out * const_1e27) a Ha) as Hb. revert Hb.
    generalize (div_to (out * const_1e27) a Ceiling). intros d Hb [= ->].
    apply (Z.mul_lt_mono_pos_r a); lia. }
  destruct (raw_is_bid (order o)).
  - rewrite quantity_eval in H by lia. cbn [mbind outcome_bind rounding div_to] in H.
    pose proof (Hn a ltac:(lia)). pose proof (div_to_floor_bounds (lp * a) _ Hc) as Hb.
    cbn [div_to] in *. rewrite Z.min_l, u128_wrap_small in H by lia.
    apply (Hout (lp * a / const_1e27 + g)); [lia|nia|exact H].
  - rewrite u128_wrap_small, quantity_eval in H by lia. cbn [mbind outcome_bind rounding] in H.
    pose proof (Hn (a + g) ltac:(lia)). pose proof (div_to_floor_bounds (lp * (a + g)) _ Hc) as Hb.
    cbn [div_to] in *. rewrite Z.min_l in H by lia.
    apply (Hout (lp * (a + g) / const_1e27)); [lia|nia|exact H].
Qed.

(** A price above the limit keeps the limit when the fee is put on and taken off
    again. *)
Lemma fee_keeps_limit lp pr fee u x : 0 <= lp < pr -> 0 <= fee < const_1e6 -> u <= x <= u256_max ->
  unscale_to_fee pr fee = Ret u -> exists y, scale_to_fee x fee = Ret y /\ lp <= y.
Proof.
  intros Hlp Hfee Hx. destruct (decide (fee = 0)) as [->|Hnz].
  - unfold unscale_to_fee, scale_to_fee. cbn. intros [= ->]. exists x. split; [done|lia].
  - assert (const_1e6 = 1000000) as Hc by done. unfold unscale_to_fee.
    rewrite (proj2 (Z.eqb_neq fee 0)) by lia. rewrite Z.max_r by lia. intros (z & Hz & Hf)%bind_Ret.
    apply div_round_inv in Hz as [_ ->]; [|lia..].
    pose proof (div_to_floor_bounds (pr * const_1e6) (const_1e6 - fee) ltac:(lia)) as Hb.
    apply from_limbs_inv in Hf as [-> _]; [|apply div_to_nonneg; lia].
    set (u := div_to _ _ _) in *. assert (0 <= u) by nia.
    eexists. split; [apply scale_to_fee_eval; lia|].
    apply Z.div_le_lower_bound; [lia|]. nia.
Qed.

Lemma unscale_nonneg pr fee u : 0 <= pr -> 0 <= fee -> unscale_to_fee pr fee = Ret u -> 0 <= u.
Proof.
  intros Hpr Hfee. unfold unscale_to_fee. destruct (fee =? 0); [by intros [= <-]|].
  assert (const_1e6 = 1000000) as Hc by done. intros (z & Hz & Hf)%bind_Ret.
  apply div_round_inv in Hz as [Hd ->]; [|lia..].
  pose proof (div_to_nonneg (pr * const_1e6) _ Floor ltac:(lia) Hd).
  by apply from_limbs_inv in Hf as [-> _].
Qed.

Lemma inv_floor_galois u p l : 0 < u -> 0 < p -> invert u Floor = Ret l -> p <= l ->
  exists x, inv_ray p = Ret x /\ u <= x <= u256_max.
Proof.
  intros Hu Hp Hl Hle. rewrite invert_eval in Hl by done. injection Hl as <-.
  unfold inv_ray. rewrite (proj2 (Z.eqb_neq p 0)) by lia. rewrite invert_eval by done.
  eexists. split; [done|].
  pose proof (div_to_floor_bounds const_1e54 u Hu). pose proof (div_to_floor_bounds const_1e54 p Hp).
  split.
  { apply Z.lt_succ_r, (Z.mul_lt_mono_pos_r p); [done|].
    assert (u * p <= div_to const_1e54 u Floor * u) by (rewrite Z.mul_comm; by apply Z.mul_le_mono_pos_r).
    lia. }
  transitivity const_1e54; [|vm_compute; discriminate].
  apply div_to_le; [done|]. assert (0 < const_1e54) by (vm_compute; reflexivity). nia.
Qed.

(** An exact-in limit order with limit [lp] and gas [g]. *)
Record exact_in_order o (lp g : Z) : Prop := {
  eo_side : is_bid o = raw_is_bid (order o);
  eo_exact : exact_in (order o) = true;
  eo_limit : is_tob (order o) = false;
  eo_price : limit_price (order o) = Ret lp;
  eo_nonneg : 0 <= lp;
  eo_gas : gas (priority_data o) = g;
  eo_worth : gas_worth o lp g;
  eo_fits : gas_fits o lp g
}.

(** The price an order trades at, in the tokens of its own side and after the
    fee. *)
Definition paid_price (fee : u128) o p : outcome Ray :=
  x ← (if is_bid o then inv_ray p else Ret p); scale_to_fee x fee.

Lemma pre_price_inv fee o lp g u : exact_in_order o lp g -> pre_fee_and_gas_price o fee = Ret u ->
  exists pr, lp < pr /\ unscale_to_fee pr fee = Ret u.
Proof.
  intros [Hside Hex Htob Hlp Hnn Hgas Hw Hf] H. unfold pre_fee_and_gas_price, order_price in H.
  rewrite Hlp, Hgas in H. cbn [mbind outcome_bind] in H.
  pose proof Hf as (Ha & Hg & Hsum & _). rewrite uint_to_u128_fits in H by lia.
  cbn [mbind outcome_bind] in H. rewrite unscale_exact_in in H by done.
  apply bind_Ret in H as (pr & Hpr & Hu). exists pr. split; [|done]. by eapply gas_price_above.
Qed.

Lemma limit_met fee o lp g pr p : exact_in_order o lp g -> 0 <= fee < const_1e6 -> 0 < p <= u256_max ->
  own_limit fee o = Ret pr -> no_worse o pr p -> exists y, paid_price fee o p = Ret y /\ lp <= y.
Proof.
  intros Ho Hfee Hp. unfold own_limit, no_worse, paid_price, bid_limit, ask_limit. intros Hl Hw.
  pose proof (eo_nonneg _ _ _ Ho) as Hnn. destruct (is_bid o) eqn:Eb.
  - apply bind_Ret in Hl as (u & Hu & Hi). destruct (pre_price_inv _ _ _ _ _ Ho Hu) as (q & Hq & Hun).
    assert (0 < u) as Hu0.
    { unfold inv_ray_round, invert in Hi. apply bind_Ret in Hi as (z & Hz & _).
      apply unscale_nonneg in Hun; [|lia..]. apply div_round_inv in Hz; [tauto|by vm_compute|done]. }
    destruct (inv_floor_galois u p pr) as (x & Hx & Hxb); [done|lia|done|done|].
    rewrite Hx. cbn. apply (fee_keeps_limit lp q fee u); (done || lia).
  - destruct (pre_price_inv _ _ _ _ _ Ho Hl) as (q & Hq & Hun). cbn.
    apply (fee_keeps_limit lp q fee pr); (done || lia).
Qed.

(** C13. Every exact-in order that the matcher fills, completely or in part, trades
    at its limit price or better, after the fee: for a bid the inverse of the
    clearing price and for an ask the clearing price itself, reduced by the fee of
    the pool, is at least the limit of the order, provided that the gas of the
    order is worth at least one unit of the token it buys. *)
Theorem filled_order_meets_limit m searcher ps i o oo lp g
    (Hsized : Forall sized (all_orders (dm_book m)))
    (Ht : solve_for_t0 m = false) (Hmax : 0 < MAX_SQRT_RATIO <= 2 ^ 160) (Hbids : bids_ok (dm_book m))
    (Hfee : 0 <= dm_fee m < const_1e6) (Hsol : solution m searcher = Ret ps)
    (Ho : all_orders (dm_book m) !! i = Some o) (Hoo : sol_limit ps !! i = Some oo)
    (Hfill : outcome_is_filled oo = true) (Hex : exact_in_order o lp g) :
  exists y, paid_price (dm_fee m) o (sol_ucp ps) = Ret y /\ lp <= y.
Proof.
  unfold solution in Hsol. apply bind_Ret in Hsol as ([sol|] & Hs & Hsol).
  - apply bind_Ret in Hsol as (limit & Hl & Hsol). apply bind_Ret in Hsol as (amm & _ & [= <-]).
    cbn [sol_limit sol_ucp] in *.
    destruct (solved_fills_nonneg m sol) as [H1 H2]; [done..|].
    apply fetch_outcomes_ok in Hl as (_ & Hall & _); [|done..].
    pose proof (Forall2_lookup_lr _ _ _ _ _ _ Hall Ho Hoo) as Hok.
    replace (existsb outcome_is_filled limit) with true.
    2:{ symmetry. apply existsb_exists. exists oo. split; [|done].
        by eapply list_elem_of_In, list_elem_of_lookup_2. }
    apply solved_price in Hs as [_ (Hp & (lo & hi & Hb & Hle) & _)]; [|done..].
    apply clearing_bounds_ok in Hb as [_ Hhi]; [|done..].
    assert (0 < ucp sol <= u256_max) as Hu by (unfold u256_max; lia).
    unfold outcome_is_filled, fill_ok in *. destruct (oo_outcome oo); try discriminate.
    + destruct Hok as (_ & pr & Hpr & Hw). by eapply limit_met.
    + destruct Hok as (_ & Hpr & _). eapply limit_met; try done. unfold no_worse. by destruct (is_bid o).
  - injection Hsol as <-. cbn in Hoo. apply list_lookup_fmap_Some in Hoo as (? & -> & _). discriminate.
Qed.

(** ** Orders that pay gas are never filled in part *)

Lemma unscale_above pr fee u : 0 <= pr -> 0 <= fee -> unscale_to_fee pr fee = Ret u -> pr <= u.
Proof.
  intros Hpr Hfee. unfold unscale_to_fee. destruct (fee =? 0); [by intros [= <-]|].
  assert (const_1e6 = 1000000) as Hc by done. intros (z & Hz & Hf)%bind_Ret.
  apply div_round_inv in Hz as [Hd ->]; [|lia..].
  pose proof (div_to_floor_bounds (pr * const_1e6) _ Hd).
  pose proof (div_to_nonneg (pr * const_1e6) _ Floor ltac:(lia) Hd).
  apply from_limbs_inv in Hf as [-> _]; [|done].
  apply Z.lt_succ_r, (Z.mul_lt_mono_pos_r _ _ _ Hd).
  assert (pr * Z.max 0 (const_1e6 - fee) <= pr * const_1e6) by (apply Z.mul_le_mono_nonneg_l; lia). lia.
Qed.

(** A price that admits such an order is better than its limit. *)
Lemma never_at_price fee o lp g pr p own : exact_in_order o lp g -> 0 <= fee ->
  own_limit fee o = Ret pr -> no_worse o pr p -> price_t1_over_t0 (order o) = Ret own -> p <> own.
Proof.
  intros Ho Hfee. unfold own_limit, no_worse, bid_limit, ask_limit, price_t1_over_t0, order_price.
  rewrite <-(eo_side _ _ _ Ho), (eo_price _ _ _ Ho). pose proof (eo_nonneg _ _ _ Ho) as Hnn.
  destruct (is_bid o); cbn [mbind outcome_bind]; intros Hl Hw Hown.
  - apply bind_Ret in Hl as (u & Hu & Hi). destruct (pre_price_inv _ _ _ _ _ Ho Hu) as (q & Hq & Hun).
    apply unscale_above in Hun; [|lia..]. unfold inv_ray_round in Hi, Hown.
    rewrite invert_eval in Hi by lia. assert (pr = div_to const_1e54 u Floor) as -> by congruence.
    unfold invert in Hown. apply bind_Ret in Hown as (z & Hz & Hf).
    assert (0 < const_1e54) by (vm_compute; reflexivity).
    apply div_round_inv in Hz as [Hlp ->]; [|lia..].
    apply from_limbs_inv in Hf as [-> _]; [|apply div_to_nonneg; lia].
    pose proof (div_to_floor_bounds const_1e54 u ltac:(lia)) as [Hfl _].
    pose proof (div_to_ceil_bounds const_1e54 lp Hlp) as [_ Hce].
    pose proof (div_to_nonneg const_1e54 u Floor ltac:(lia) ltac:(lia)).
    intros ->. assert (div_to const_1e54 lp Ceiling * lp < div_to const_1e54 lp Ceiling * u).
    { apply Z.mul_lt_mono_pos_l; [|lia]. apply Z.mul_pos_cancel_r with lp; lia. }
    assert (div_to const_1e54 lp Ceiling * u <= div_to const_1e54 u Floor * u)
      by (apply Z.mul_le_mono_nonneg_r; lia).
    lia.
  - destruct (pre_price_inv _ _ _ _ _ Ho Hl) as (q & Hq & Hun).
    apply unscale_above in Hun; [|lia..]. injection Hown as <-. lia.
Qed.

Definition no_slack (ol : OrderLiquidity) : Prop :=
  bid_slack ol = (0, 0) /\ ask_slack ol = (0, 0) /\ killable_orders ol = [].

Lemma process_side_no_slack fee p dead (side : bool) acc l acc' : 0 <= fee ->
  (forall o, o ∈ l -> is_bid o = side /\ exists lp g, exact_in_order o lp g) ->
  process_side fee p dead
    (fun o => if side then l ← bid_limit fee o; Ret (p <=? l) else l ← ask_limit fee o; Ret (l <=? p))
    acc l = Ret acc' ->
  no_slack acc -> no_slack acc'.
Proof.
  intros Hfee. revert acc. induction l as [|o l IH]; cbn; intros acc Hl H Hn; [by injection H as <-|].
  apply bind_Ret in H as (ok & Hadm & H). apply bind_Ret in H as (acc1 & Hp & H).
  apply (IH acc1); [set_solver|exact H|]. clear H IH.
  destruct ok; [|by injection Hp as <-]. cbn in Hp.
  case_bool_decide; cbn in Hp; [by injection Hp as <-|].
  destruct (Hl o) as [Hb (lp & g & Ho)]; [left|].
  unfold process_order in Hp. apply bind_Ret in Hp as (own & Hown & Hp).
  assert (p <> own) as Hne.
  { destruct side; apply bind_Ret in Hadm as (pr & Hpr & [= Hle]); apply Z.leb_le in Hle;
      apply (never_at_price fee o lp g pr); try done; unfold own_limit, no_worse; by rewrite Hb. }
  unfold fill_range in Hp. rewrite (proj2 (Z.eqb_neq p own)) in Hp by done. cbn in Hp.
  apply bind_Ret in Hp as ([i u] & _ & Hp).
  destruct (is_bid o); injection Hp as <-; unfold no_slack in *; cbn; by rewrite app_nil_r.
Qed.

(** The orders of a book that all pay gas leave no slack. *)
Lemma gas_orders_no_slack m p dead ol (Hfee : 0 <= dm_fee m)
    (Hbids : forall o, o ∈ bids (dm_book m) -> is_bid o = true /\ exists lp g, exact_in_order o lp g)
    (Hasks : forall o, o ∈ asks (dm_book m) -> is_bid o = false /\ exists lp g, exact_in_order o lp g)
    (Hol : order_liquidity m p dead = Ret ol) :
  bid_slack ol = (0, 0) /\ ask_slack ol = (0, 0) /\ killable_orders ol = [].
Proof.
  unfold order_liquidity in Hol. apply bind_Ret in Hol as (acc & Hb & Ha).
  eapply (process_side_no_slack _ _ _ false); [done|exact Hasks|exact Ha|].
  eapply (process_side_no_slack _ _ _ true); [done|exact Hbids|exact Hb|]. done.
Qed.

(** In a book whose orders are exact-in orders that pay gas, the matcher fills
    no order in part and kills none: at every price the orders that the price
    admits are counted with their whole amounts, no side has slack and no order
    can be killed.  The price that makes an order eligible for a partial fill is
    its limit before the fee and the gas, and at that price the order is not
    admitted. *)
Theorem gas_orders_never_partial m p dead ol (Hfee : 0 <= dm_fee m)
    (Hbids : forall o, o ∈ bids (dm_book m) -> is_bid o = true /\ exists lp g, exact_in_order o lp g)
    (Hasks : forall o, o ∈ asks (dm_book m) -> is_bid o = false /\ exists lp g, exact_in_order o lp g)
    (Hol : order_liquidity m p dead = Ret ol) :
  bid_slack ol = (0, 0) /\ ask_slack ol = (0, 0) /\ killable_orders ol = [].
Proof. by eapply gas_orders_no_slack. Qed.
End search.
