(* ===== verification/DeltaExamples.v ===== *)
(** * The delta matcher on concrete books

    Books on which the hypotheses of the theorems about the matcher hold, and
    books on which the matcher does not do what its comments say. *)

From S2P Require Import Prelude Ray Orders Samples Rules Accounts Pool Book ConsensusTypes Delta DeltaProps.
Open Scope Z_scope.

(** A partial order between [lo] and [hi] and an exact order over [hi], each with
    its limit in the tokens of its own side and its gas. *)
Definition sample_partial (hash : B256) (bid : bool) (lp lo hi g : Z) : BookOrder :=
  {| order := PartialStanding {| ps_ref_id := hash; ps_min_amount_in := lo; ps_max_amount_in := hi;
       ps_max_extra_fee_asset0 := 10; ps_min_price := lp; ps_use_internal := false;
       ps_asset_in := if bid then 2 else 1; ps_asset_out := if bid then 1 else 2; ps_recipient := 0;
       ps_hook_data := []; ps_nonce := 1; ps_deadline := 5000; ps_meta := sample_meta hash |};
     priority_data := {| price := lp; volume := hi; gas := g; gas_units := 0 |};
     invalidates := []; pool_id := 7; is_currently_valid := None; is_bid := bid; is_valid := true;
     valid_block := 1; order_id := sample_id hash hash 7 Limit; tob_reward := 0; cancel_requested := false |}.

Definition sample_exact (hash : B256) (bid : bool) (lp hi g : Z) : BookOrder :=
  {| order := ExactStanding {| es_ref_id := hash; es_exact_in := true; es_amount := hi;
       es_max_extra_fee_asset0 := 10; es_min_price := lp; es_use_internal := false;
       es_asset_in := if bid then 2 else 1; es_asset_out := if bid then 1 else 2; es_recipient := 0;
       es_hook_data := []; es_nonce := 1; es_deadline := 5000; es_meta := sample_meta hash |};
     priority_data := {| price := lp; volume := hi; gas := g; gas_units := 0 |};
     invalidates := []; pool_id := 7; is_currently_valid := None; is_bid := bid; is_valid := true;
     valid_block := 1; order_id := sample_id hash hash 7 Limit; tob_reward := 0; cancel_requested := false |}.

Definition sample_matcher (bs ks : list BookOrder) : DeltaMatcher :=
  {| dm_book := {| book_id := 7; book_amm := None; bids := bs; asks := ks |};
     dm_fee := 0; solve_for_t0 := false; amm_start_location := None |}.

(** A bid that pays up to two T1 for one T0, and an ask that takes one. *)
Definition crossing : DeltaMatcher :=
  sample_matcher [sample_partial 1 true (10 ^ 27 / 2) 100 1000 1]
                 [sample_partial 2 false (10 ^ 27) 100 1000 1].

Definition found {A} (o : outcome (option A)) (a : A) : A :=
  match o with Ret (Some a') => a' | _ => a end.
Definition finds {A} (o : outcome (option A)) : bool :=
  match o with Ret (Some _) => true | _ => false end.

Lemma finds_found {A} (o : outcome (option A)) a : finds o = true -> o = Ret (Some (found o a)).
Proof. by destruct o as [[]|]. Qed.

Definition value_of {A} (o : outcome A) (a : A) : A := match o with Ret a' => a' | Panic => a end.
Definition returns {A} (o : outcome A) : bool := match o with Ret _ => true | Panic => false end.

Lemma returns_value {A} (o : outcome A) a : returns o = true -> o = Ret (value_of o a).
Proof. by destruct o. Qed.

Lemma Ret_inj {A} (a b : A) : Ret a = Ret b -> a = b.
Proof. by intros [= ->]. Qed.

Section delta_examples.
#[local] Existing Instance iter_by_encoding.
#[local] Existing Instance arith_Z.
#[local] Existing Instance uniswap_ratios.
#[local] Existing Instance sample_ticks.
#[local] Existing Instance sample_hasher.

Definition no_solution : UcpSolution := {| ucp := 0; killed := ∅; partial_fills := None; reward_t0 := 0 |}.
Definition no_pool_solution : PoolSolution :=
  {| sol_id := 0; sol_ucp := 0; sol_searcher := None; sol_amm_quantity := None; sol_limit := [];
     sol_reward_t0 := 0; sol_fee := 0 |}.

Lemma uniswap_max : 0 < MAX_SQRT_RATIO <= 2 ^ 160.
Proof. split; vm_compute; [reflexivity|discriminate]. Qed.

Lemma crossing_bids_ok : bids_ok (dm_book crossing).
Proof.
  intros o lp Ho H. apply list_elem_of_singleton in Ho. subst o. apply Ret_inj in H. subst lp.
  vm_compute. discriminate.
Qed.

Lemma crossing_sized : Forall sized (all_orders (dm_book crossing)).
Proof. repeat constructor; vm_compute; discriminate. Qed.

Lemma price_search_ends_witness : is_Some (solve_run crossing).
Proof. apply (price_search_ends crossing); [apply uniswap_max|apply crossing_bids_ok]. Defined.


Definition crossing_solution : PoolSolution := value_of (solution crossing None) no_pool_solution.

Lemma crossing_solved : solution crossing None = Ret crossing_solution.
Proof. apply returns_value. vm_compute. reflexivity. Qed.

Lemma fills_respect_limits_witness :
  oo_outcome <$> sol_limit crossing_solution = [CompleteFill; CompleteFill] /\
  oo_id <$> sol_limit crossing_solution = order_id <$> all_orders (dm_book crossing).
Proof.
  split; [vm_compute; reflexivity|].
  apply (fills_respect_limits crossing None crossing_solution); [apply crossing_sized|reflexivity|
    apply uniswap_max|apply crossing_bids_ok|apply crossing_solved].
Defined.

Lemma sample_partial_pays hash (bid : bool) lp lo hi g :
  0 <= lp -> (if bid then 1 <= g else const_1e27 <= lp * g) ->
  0 < hi -> 0 <= g -> hi + g <= u128_max -> lp * (hi + g) / const_1e27 + g <= u128_max ->
  exact_in_order (sample_partial hash bid lp lo hi g) lp g.
Proof. intros H1 H2 H3 H4 H5 H6. split; try done; by destruct bid. Qed.

Lemma filled_order_meets_limit_witness :
  exists y, paid_price 0 (sample_partial 1 true (10 ^ 27 / 2) 100 1000 1) (sol_ucp crossing_solution) = Ret y /\
    10 ^ 27 / 2 <= y.
Proof.
  apply (filled_order_meets_limit crossing None crossing_solution 0 _
    {| oo_id := sample_id 1 1 7 Limit; oo_outcome := CompleteFill |} (10 ^ 27 / 2) 1);
    [apply crossing_sized|reflexivity|apply uniswap_max|apply crossing_bids_ok|
     split; vm_compute; [discriminate|reflexivity]|apply crossing_solved|reflexivity|
     vm_compute; reflexivity|reflexivity|].
  apply sample_partial_pays; vm_compute; try discriminate; reflexivity.
Defined.

Lemma gas_orders_never_partial_witness :
  let ol := value_of (order_liquidity crossing (10 ^ 27) ∅) empty_liquidity in
  net_t1 ol = 1000 /\ bid_slack ol = (0, 0) /\ ask_slack ol = (0, 0) /\ killable_orders ol = [].
Proof.
  set (ol := value_of (order_liquidity crossing (10 ^ 27) ∅) empty_liquidity).
  split; [vm_compute; reflexivity|].
  apply (gas_orders_never_partial crossing (10 ^ 27) ∅ ol); [reflexivity + (vm_compute; discriminate)|..].
  - intros o ->%list_elem_of_singleton. split; [reflexivity|]. exists (10 ^ 27 / 2), 1.
    apply sample_partial_pays; vm_compute; try discriminate; reflexivity.
  - intros o ->%list_elem_of_singleton. split; [reflexivity|]. exists (10 ^ 27), 1.
    apply sample_partial_pays; vm_compute; try discriminate; reflexivity.
  - apply returns_value. vm_compute. reflexivity.
Defined.

(** ** What the comments do not say *)

(** An exact bid at the clearing price is counted in the balance and then left
    unfilled, because only what the partial bids may take is handed out: the ask
    is filled with 300 and nothing is on the other side. *)
Definition exact_at_price : DeltaMatcher :=
  sample_matcher [sample_exact 1 true (10 ^ 27) 300 0] [sample_partial 2 false (10 ^ 27) 100 1000 0].

Lemma exact_bid_left_unfilled :
  let ps := value_of (solution exact_at_price None) no_pool_solution in
  sol_ucp ps = 10 ^ 27 /\ oo_outcome <$> sol_limit ps = [Unfilled; PartialFill 300].
Proof. vm_compute. split; reflexivity. Qed.

(** At a price of a quarter T1 per T0 the bids that bring 100 T1 take 400 T0; the
    cost is computed as 25 T0, and 375 of the 400 T0 the market holds are given
    away as a reward. *)
Lemma excess_cost_misconverted m : solve_for_t0 m = false ->
  settle_demand m (10 ^ 27 / 4) [] 400 100 0 100 true = Ret (PartialFillEq 100 0 375) /\
  inverse_quantity (10 ^ 27 / 4) 100 false = Ret 400.
Proof. intros Ht. unfold settle_demand. rewrite Ht. split; vm_compute; reflexivity. Qed.

(** With more T1 than the asks can drain, the amount to kill is computed from what
    the bids can add, and wraps around when that is more. *)
Lemma kill_target_wraps m ko :
  settle_supply m (10 ^ 27) ko 0 10 0 11 true =
    Ret (MoreSupply (check_killable_orders ko true u128_max).2).
Proof. reflexivity. Qed.
End delta_examples.
