(* ===== verification/Assets.v ===== *)
(** * The assets of a bundle

    The model of [crates/types/primitives/src/contract_payloads/asset]: the array
    of the assets ([mod.rs]), what a stage of a bundle borrows from Uniswap
    ([state.rs]) and the builder over the four stages ([builder.rs]). *)

From Stdlib Require Import Sorted.
From S2P Require Import Prelude Ray Orders Rules Accounts Pool Book.
Open Scope Z_scope.

(** ** Data *)

Record Asset := {
  addr : Address;
  save : u128;
  take : u128;
  settle : u128
}.

Record BorrowStateTracker := {
  bs_take : u128;
  contract_liquid : u128;
  bs_settle : u128;
  bs_save : u128
}.

Abbreviation StageTracker := (gmap Address BorrowStateTracker) (only parsing).

Record AssetArray := {
  assets : list Asset;
  assets_idx : gmap Address nat
}.

Inductive AssetBuilderStage := StSwap | StReward | StTopOfBlock | StUserOrder.

Record AssetBuilder := {
  st_swaps : StageTracker;
  st_rewards : StageTracker;
  st_top_of_block : StageTracker;
  st_user_orders : StageTracker;
  builder_assets : AssetArray
}.

(** ** One asset in one stage *)

Module BorrowState.
Implicit Types (t : BorrowStateTracker) (q : u128).

Definition new : BorrowStateTracker :=
  {| bs_take := 0; contract_liquid := 0; bs_settle := 0; bs_save := 0 |}.

Definition loan t q : BorrowStateTracker :=
  {| bs_take := u128_wrap (bs_take t + q); contract_liquid := contract_liquid t;
     bs_settle := u128_wrap (bs_settle t + q); bs_save := bs_save t |}.

Definition set_liquid t q : BorrowStateTracker :=
  {| bs_take := bs_take t; contract_liquid := q; bs_settle := bs_settle t; bs_save := bs_save t |}.

Definition allocate t q : BorrowStateTracker :=
  let t' := if contract_liquid t <? q then loan t (q - contract_liquid t) else t in
  set_liquid t' (Z.max 0 (contract_liquid t - q)).

Definition owe t q : BorrowStateTracker :=
  {| bs_take := bs_take t; contract_liquid := contract_liquid t;
     bs_settle := u128_wrap (bs_settle t + q); bs_save := bs_save t |}.

Definition reward t q : BorrowStateTracker :=
  {| bs_take := u128_wrap (bs_take t + q); contract_liquid := contract_liquid t;
     bs_settle := bs_settle t; bs_save := bs_save t |}.

Definition take_out t q : BorrowStateTracker :=
  {| bs_take := u128_wrap (bs_take t + q); contract_liquid := u128_wrap (contract_liquid t + q);
     bs_settle := bs_settle t; bs_save := bs_save t |}.

Definition recieve t q : BorrowStateTracker := set_liquid t (u128_wrap (contract_liquid t + q)).

Definition add_gas_fee t q : BorrowStateTracker :=
  {| bs_take := bs_take t; contract_liquid := contract_liquid t; bs_settle := bs_settle t;
     bs_save := u128_wrap (bs_save t + q) |}.

Definition and_then t (other : BorrowStateTracker) : BorrowStateTracker :=
  {| bs_take := u128_wrap (bs_take t + Z.max 0 (bs_take other - contract_liquid t));
     contract_liquid := u128_wrap (Z.max 0 (contract_liquid t - bs_take other) + contract_liquid other);
     bs_settle := u128_wrap (bs_settle t + Z.max 0 (bs_settle other - contract_liquid t));
     bs_save := u128_wrap (bs_save t + bs_save other) |}.

(** What [collect_extra] makes of one state. *)
Definition collect t : BorrowStateTracker :=
  {| bs_take := bs_take t; contract_liquid := 0; bs_settle := bs_settle t;
     bs_save := u128_wrap (bs_save t + Z.max 0 (contract_liquid t - bs_settle t)) |}.
End BorrowState.

(** ** The assets of a stage *)

Module Stage.
Implicit Types (s : StageTracker) (a : Address) (q : u128).

Definition new : StageTracker := ∅.

(** [get_state] followed by a change of the state. *)
Definition update s a (f : BorrowStateTracker -> BorrowStateTracker) : StageTracker :=
  <[a := f (default BorrowState.new (s !! a))]> s.

Definition get_asset s a : option BorrowStateTracker := s !! a.

Definition add_gas_fee s a q : StageTracker := update s a (fun t => BorrowState.add_gas_fee t q).

Definition uniswap_swap s (asset_in asset_out : Address) (quantity_in quantity_out : u128) : StageTracker :=
  update (update s asset_in (fun t => BorrowState.owe t quantity_in))
    asset_out (fun t => BorrowState.take_out t quantity_out).

Definition external_swap s (asset_in asset_out : Address) (quantity_in quantity_out : u128) : StageTracker :=
  update (update s asset_in (fun t => BorrowState.recieve t quantity_in))
    asset_out (fun t => BorrowState.allocate t quantity_out).

Definition allocate s a q : StageTracker := update s a (fun t => BorrowState.allocate t q).

Definition tribute s a q : StageTracker := update s a (fun t => BorrowState.reward t q).

(** The entries of [other] are visited once each. *)
Definition and_then s (other : StageTracker) : StageTracker :=
  union_with (fun e state => Some (BorrowState.and_then e state)) s other.

Definition collect_extra s : StageTracker := BorrowState.collect <$> s.
End Stage.

(** ** The array of the assets *)

Module Array.
Implicit Types (l : AssetArray) (a : Address).

Definition new : AssetArray := {| assets := []; assets_idx := ∅ |}.

Definition get_asset_addr l (idx : nat) : Address :=
  match assets l !! idx with Some x => addr x | None => 0 end.

Definition addr_cmp (x y : Asset) : comparison := addr x ?= addr y.

(** The addresses of the array are distinct, so an unstable sort by address gives
    the result of a stable one. *)
Definition order_assets_properly l : AssetArray :=
  let sorted := sort_by addr_cmp (assets l) in
  {| assets := sorted;
     assets_idx := foldl (fun m '(i, x) => <[addr x := i]> m) (assets_idx l)
       (zip (seq 0 (length sorted)) sorted) |}.

Definition add_or_get_asset_idx l a : AssetArray * nat :=
  match assets_idx l !! a with
  | Some i => (l, i)
  | None =>
      let i := length (assets l) in
      ({| assets := assets l ++ [{| addr := a; save := 0; take := 0; settle := 0 |}];
          assets_idx := <[a := i]> (assets_idx l) |}, i)
  end.
End Array.

(** ** The builder *)

Module Builder.
Implicit Types (b : AssetBuilder) (st : AssetBuilderStage) (q : u128).

Definition new : AssetBuilder :=
  {| st_swaps := Stage.new; st_rewards := Stage.new; st_top_of_block := Stage.new;
     st_user_orders := Stage.new; builder_assets := Array.new |}.

Definition get_stage b st : StageTracker :=
  match st with
  | StSwap => st_swaps b | StReward => st_rewards b
  | StTopOfBlock => st_top_of_block b | StUserOrder => st_user_orders b
  end.

(** [get_stage] followed by a change of the stage. *)
Definition on_stage b st (f : StageTracker -> StageTracker) : AssetBuilder :=
  {| st_swaps := match st with StSwap => f (st_swaps b) | _ => st_swaps b end;
     st_rewards := match st with StReward => f (st_rewards b) | _ => st_rewards b end;
     st_top_of_block := match st with StTopOfBlock => f (st_top_of_block b) | _ => st_top_of_block b end;
     st_user_orders := match st with StUserOrder => f (st_user_orders b) | _ => st_user_orders b end;
     builder_assets := builder_assets b |}.

Definition set_assets b (l : AssetArray) : AssetBuilder :=
  {| st_swaps := st_swaps b; st_rewards := st_rewards b; st_top_of_block := st_top_of_block b;
     st_user_orders := st_user_orders b; builder_assets := l |}.

Definition order_assets_properly b : AssetBuilder :=
  set_assets b (Array.order_assets_properly (builder_assets b)).

Definition uniswap_swap_raw b st (asset_in asset_out : Address) (quantity_in quantity_out : u128)
    : AssetBuilder :=
  on_stage b st (fun s => Stage.uniswap_swap s asset_in asset_out quantity_in quantity_out).

Definition uniswap_swap b st (asset_in asset_out : nat) (quantity_in quantity_out : u128) : AssetBuilder :=
  uniswap_swap_raw b st (Array.get_asset_addr (builder_assets b) asset_in)
    (Array.get_asset_addr (builder_assets b) asset_out) quantity_in quantity_out.

Definition external_swap b st (asset_in asset_out : Address) (quantity_in quantity_out : u128)
    : AssetBuilder :=
  on_stage b st (fun s => Stage.external_swap s asset_in asset_out quantity_in quantity_out).

Definition add_gas_fee b st (a : Address) q : AssetBuilder :=
  on_stage b st (fun s => Stage.add_gas_fee s a q).

Definition allocate b st (a : Address) q : AssetBuilder := on_stage b st (fun s => Stage.allocate s a q).

Definition tribute b st (a : Address) q : AssetBuilder := on_stage b st (fun s => Stage.tribute s a q).

Definition add_or_get_asset b (a : Address) : AssetBuilder * nat :=
  let '(l, i) := Array.add_or_get_asset_idx (builder_assets b) a in (set_assets b l, i).

(** The stages, in the order in which the contract runs them. *)
Definition combined b : StageTracker :=
  Stage.collect_extra (Stage.and_then (Stage.and_then (Stage.and_then (st_swaps b) (st_rewards b))
    (st_top_of_block b)) (st_user_orders b)).

Definition get_asset_array b : list Asset :=
  (fun x => match Stage.get_asset (combined b) (addr x) with
            | Some t => {| addr := addr x; save := bs_save t; take := bs_take t; settle := bs_settle t |}
            | None => x
            end) <$> assets (builder_assets b).
End Builder.

(** ** What a bundle borrows

    The abstract view of a builder: the flows of an asset in a stage.  An asset is
    received from and paid to the users, goes into and comes out of pool swaps,
    and is charged as a fee. *)

Inductive Flow :=
| FOwe (q : u128)
| FTake (q : u128)
| FReceive (q : u128)
| FPay (q : u128)
| FFee (q : u128).

Definition flow_step (t : BorrowStateTracker) (f : Flow) : BorrowStateTracker :=
  match f with
  | FOwe q => BorrowState.owe t q
  | FTake q => BorrowState.take_out t q
  | FReceive q => BorrowState.recieve t q
  | FPay q => BorrowState.allocate t q
  | FFee q => BorrowState.add_gas_fee t q
  end.

Definition amount_of (f : Flow) : Z :=
  match f with FOwe q | FTake q | FReceive q | FPay q | FFee q => q end.

Definition swapped_in (fs : list Flow) : Z := zsum ((fun f => match f with FOwe q => q | _ => 0 end) <$> fs).
Definition swapped_out (fs : list Flow) : Z := zsum ((fun f => match f with FTake q => q | _ => 0 end) <$> fs).
Definition received (fs : list Flow) : Z := zsum ((fun f => match f with FReceive q => q | _ => 0 end) <$> fs).
Definition paid_out (fs : list Flow) : Z := zsum ((fun f => match f with FPay q => q | _ => 0 end) <$> fs).
Definition charged (fs : list Flow) : Z := zsum ((fun f => match f with FFee q => q | _ => 0 end) <$> fs).
Definition volume_of (fs : list Flow) : Z := zsum (amount_of <$> fs).

Definition flows_ok (fs : list Flow) : Prop := Forall (fun f => 0 <= amount_of f) fs.

(** A state accounts for flows: what is liquid is what was borrowed and received
    less what was paid, what is borrowed beyond what is owed came out of the pool
    swaps, and the borrowed amount covers every payment at its turn. *)
Record accounts (fs : list Flow) (t : BorrowStateTracker) : Prop := {
  ac_liquid : contract_liquid t = bs_take t + received fs - paid_out fs;
  ac_borrow : bs_take t - bs_settle t = swapped_out fs - swapped_in fs;
  ac_save : bs_save t = charged fs;
  ac_liquid_range : 0 <= contract_liquid t <= received fs + swapped_out fs;
  ac_take_range : swapped_out fs <= bs_take t <= swapped_out fs + paid_out fs;
  ac_covers : forall k, 0 <= bs_take t + received (firstn k fs) - paid_out (firstn k fs)
}.

Section ledger.
Implicit Types (t : BorrowStateTracker) (f : Flow) (fs gs : list Flow).

Lemma totals_nonneg fs : flows_ok fs ->
  0 <= swapped_in fs /\ 0 <= swapped_out fs /\ 0 <= received fs /\ 0 <= paid_out fs /\ 0 <= charged fs /\
  volume_of fs = swapped_in fs + swapped_out fs + received fs + paid_out fs + charged fs.
Proof.
  unfold swapped_in, swapped_out, received, paid_out, charged, volume_of.
  induction 1 as [|f fs Hf _ IH]; cbn; [lia|]. destruct f; cbn in *; lia.
Qed.

Lemma totals_app fs gs :
  swapped_in (fs ++ gs) = swapped_in fs + swapped_in gs /\
  swapped_out (fs ++ gs) = swapped_out fs + swapped_out gs /\
  received (fs ++ gs) = received fs + received gs /\
  paid_out (fs ++ gs) = paid_out fs + paid_out gs /\
  charged (fs ++ gs) = charged fs + charged gs /\
  volume_of (fs ++ gs) = volume_of fs + volume_of gs.
Proof.
  unfold swapped_in, swapped_out, received, paid_out, charged, volume_of.
  rewrite !fmap_app, !zsum_app. done.
Qed.

Lemma accounts_new : accounts [] BorrowState.new.
Proof. split; cbn; try lia. intros [|k]; cbn; lia. Qed.

Lemma covers_snoc fs f take : (forall k, 0 <= take + received (firstn k fs) - paid_out (firstn k fs)) ->
  0 <= take + received (fs ++ [f]) - paid_out (fs ++ [f]) ->
  forall k, 0 <= take + received (firstn k (fs ++ [f])) - paid_out (firstn k (fs ++ [f])).
Proof.
  intros Hc Hl k. destruct (decide (k <= length fs)%nat).
  - rewrite take_app_le by done. apply Hc.
  - rewrite take_ge by (rewrite length_app; cbn; lia). exact Hl.
Qed.

Lemma accounts_step fs t f : flows_ok (fs ++ [f]) -> volume_of (fs ++ [f]) <= u128_max ->
  accounts fs t -> accounts (fs ++ [f]) (flow_step t f).
Proof.
  intros Hok Hv [Hl Hb Hs Hlr Htr Hc].
  pose proof (totals_nonneg _ Hok) as Hn. destruct (totals_app fs [f]) as (E1 & E2 & E3 & E4 & E5 & E6).
  apply Forall_app in Hok as [Hfs Hf%Forall_inv].
  pose proof (totals_nonneg _ Hfs) as Hn'.
  destruct f as [q|q|q|q|q]; cbn in E1, E2, E3, E4, E5, E6, Hf; rewrite ?Z.add_0_r in *;
    unfold flow_step, BorrowState.owe, BorrowState.take_out, BorrowState.recieve, BorrowState.allocate,
      BorrowState.add_gas_fee, BorrowState.set_liquid, BorrowState.loan.
  4: destruct (Z.ltb_spec (contract_liquid t) q).
  all: try (rewrite !u128_wrap_small by lia); split; cbn; rewrite ?E1, ?E2, ?E3, ?E4, ?E5; try lia;
    apply covers_snoc; rewrite ?E3, ?E4; try lia; intros k; specialize (Hc k); lia.
Qed.

Lemma accounts_run fs : flows_ok fs -> volume_of fs <= u128_max ->
  accounts fs (foldl flow_step BorrowState.new fs).
Proof.
  induction fs as [|f fs IH] using rev_ind; intros Hok Hv; [apply accounts_new|].
  rewrite foldl_app. cbn. apply accounts_step; [done..|]. apply Forall_app in Hok as [Hfs Hf].
  apply IH; [done|]. apply Forall_inv in Hf. cbn in Hf.
  destruct (totals_app fs [f]) as (_ & _ & _ & _ & _ & E). unfold volume_of in E at 3. cbn in E. lia.
Qed.

(** Stages that follow do not swap with the pools. *)
Definition no_swaps fs : Prop := swapped_in fs = 0 /\ swapped_out fs = 0.

Lemma accounts_and_then fs gs t u : flows_ok fs -> flows_ok gs -> no_swaps gs ->
  volume_of (fs ++ gs) <= u128_max -> accounts fs t -> accounts gs u ->
  accounts (fs ++ gs) (BorrowState.and_then t u).
Proof.
  intros Hf Hg [Hn1 Hn2] Hv [Hl Hb Hs Hlr Htr Hc] [Hl' Hb' Hs' Hlr' Htr' Hc'].
  destruct (totals_app fs gs) as (E1 & E2 & E3 & E4 & E5 & E6).
  pose proof (totals_nonneg _ Hf) as Nf. pose proof (totals_nonneg _ Hg) as Ng.
  unfold BorrowState.and_then. rewrite !u128_wrap_small by lia.
  split; cbn; rewrite ?E1, ?E2, ?E3, ?E4, ?E5; try lia.
  intros k. destruct (decide (k <= length fs)%nat).
  - rewrite take_app_le by done. specialize (Hc k). lia.
  - rewrite take_app_ge by lia.
    destruct (totals_app fs (firstn (k - length fs) gs)) as (_ & _ & -> & -> & _).
    specialize (Hc' (k - length fs)%nat). lia.
Qed.

(** ** The operations of a builder *)

Inductive BuilderOp :=
| OpUniswap (st : AssetBuilderStage) (asset_in asset_out : Address) (quantity_in quantity_out : u128)
| OpExternal (st : AssetBuilderStage) (asset_in asset_out : Address) (quantity_in quantity_out : u128)
| OpGasFee (st : AssetBuilderStage) (a : Address) (q : u128)
| OpAllocate (st : AssetBuilderStage) (a : Address) (q : u128).

Definition run_op (b : AssetBuilder) (op : BuilderOp) : AssetBuilder :=
  match op with
  | OpUniswap st i o qi qo => Builder.uniswap_swap_raw b st i o qi qo
  | OpExternal st i o qi qo => Builder.external_swap b st i o qi qo
  | OpGasFee st a q => Builder.add_gas_fee b st a q
  | OpAllocate st a q => Builder.allocate b st a q
  end.

Definition flows_of (op : BuilderOp) : list (AssetBuilderStage * Address * Flow) :=
  match op with
  | OpUniswap st i o qi qo => [(st, i, FOwe qi); (st, o, FTake qo)]
  | OpExternal st i o qi qo => [(st, i, FReceive qi); (st, o, FPay qo)]
  | OpGasFee st a q => [(st, a, FFee q)]
  | OpAllocate st a q => [(st, a, FPay q)]
  end.

#[export] Instance AssetBuilderStage_eq_dec : EqDecision AssetBuilderStage.
Proof. solve_decision. Defined.

Implicit Types (b : AssetBuilder) (st : AssetBuilderStage) (a : Address) (ops : list BuilderOp).

Definition flows_at ops st a : list Flow :=
  snd <$> filter (fun x => x.1 = (st, a)) (concat (flows_of <$> ops)).

(** The flows of an asset over a bundle: the contract runs the stages one after
    the other. *)
Definition flows_over ops a : list Flow :=
  flows_at ops StSwap a ++ flows_at ops StReward a ++ flows_at ops StTopOfBlock a ++
  flows_at ops StUserOrder a.

Definition apply_flow b (x : AssetBuilderStage * Address * Flow) : AssetBuilder :=
  Builder.on_stage b x.1.1 (fun s => Stage.update s x.1.2 (fun t => flow_step t x.2)).

Lemma run_op_flows b op : run_op b op = foldl apply_flow b (flows_of op).
Proof.
  destruct op as [st i o qi qo|st i o qi qo|st a q|st a q]; cbn; unfold apply_flow; cbn;
    destruct st; reflexivity.
Qed.

Lemma run_ops_flows b ops : foldl run_op b ops = foldl apply_flow b (concat (flows_of <$> ops)).
Proof.
  revert b. induction ops as [|op ops IH]; intros b; cbn; [done|].
  by rewrite foldl_app, <-run_op_flows, IH.
Qed.

Lemma apply_flow_lookup b x st a :
  Builder.get_stage (apply_flow b x) st !! a =
    if decide (x.1 = (st, a)) then Some (flow_step (default BorrowState.new (Builder.get_stage b st !! a)) x.2)
    else Builder.get_stage b st !! a.
Proof.
  destruct x as [[st' a'] f]. unfold apply_flow, Stage.update. cbn [fst snd].
  destruct (decide ((st', a') = (st, a))) as [[= -> ->]|Hne].
  - destruct st; cbn; by rewrite lookup_insert_eq.
  - destruct st, st'; cbn; try done; (rewrite lookup_insert_ne; [done|]); congruence.
Qed.

Lemma flows_lookup (l : list (AssetBuilderStage * Address * Flow)) b st a :
  Builder.get_stage (foldl apply_flow b l) st !! a =
    match snd <$> filter (fun x => x.1 = (st, a)) l with
    | [] => Builder.get_stage b st !! a
    | fs => Some (foldl flow_step (default BorrowState.new (Builder.get_stage b st !! a)) fs)
    end.
Proof.
  revert b. induction l as [|x l IH]; intros b; [done|]. cbn [foldl].
  rewrite IH, apply_flow_lookup, filter_cons. destruct (decide (x.1 = (st, a))) as [E|E]; [|done].
  cbn. by destruct (snd <$> filter _ l).
Qed.

(** A builder without flows. *)
Definition fresh b : Prop := forall st, Builder.get_stage b st = ∅.

(** The state of an asset in a stage, empty when the stage does not touch it. *)
Definition state_at b st a : BorrowStateTracker := default BorrowState.new (Builder.get_stage b st !! a).

Lemma state_at_run b ops st a : fresh b ->
  state_at (foldl run_op b ops) st a = foldl flow_step BorrowState.new (flows_at ops st a).
Proof.
  intros Hb. unfold state_at. rewrite run_ops_flows, flows_lookup, (Hb st), lookup_empty.
  fold (flows_at ops st a). by destruct (flows_at ops st a).
Qed.

Lemma accounts_range fs t : flows_ok fs -> volume_of fs <= u128_max -> accounts fs t ->
  0 <= bs_take t <= u128_max /\ 0 <= contract_liquid t <= u128_max /\
  0 <= bs_settle t <= u128_max /\ 0 <= bs_save t <= u128_max.
Proof.
  intros Hok Hv [Hl Hb Hs Hlr Htr Hc]. pose proof (totals_nonneg _ Hok). lia.
Qed.

Lemma and_then_new_r t : 0 <= bs_take t <= u128_max -> 0 <= contract_liquid t <= u128_max ->
  0 <= bs_settle t <= u128_max -> 0 <= bs_save t <= u128_max -> BorrowState.and_then t BorrowState.new = t.
Proof.
  destruct t as [x l y z]. unfold BorrowState.and_then. cbn. intros H1 H2 H3 H4.
  rewrite !u128_wrap_small by lia. f_equal; lia.
Qed.

Lemma and_then_new_l t : 0 <= bs_take t <= u128_max -> 0 <= contract_liquid t <= u128_max ->
  0 <= bs_settle t <= u128_max -> 0 <= bs_save t <= u128_max -> BorrowState.and_then BorrowState.new t = t.
Proof.
  destruct t as [x l y z]. unfold BorrowState.and_then. cbn. intros H1 H2 H3 H4.
  rewrite !u128_wrap_small by lia. f_equal; lia.
Qed.

Lemma stage_and_then (s o : StageTracker) fs gs a : flows_ok fs -> flows_ok gs -> no_swaps gs ->
  volume_of (fs ++ gs) <= u128_max -> accounts fs (default BorrowState.new (s !! a)) ->
  accounts gs (default BorrowState.new (o !! a)) ->
  accounts (fs ++ gs) (default BorrowState.new (Stage.and_then s o !! a)).
Proof.
  intros Hf Hg Hn Hv Hs Ho. pose proof (accounts_and_then _ _ _ _ Hf Hg Hn Hv Hs Ho) as H.
  pose proof (totals_nonneg _ Hf). pose proof (totals_nonneg _ Hg).
  destruct (totals_app fs gs) as (_ & _ & _ & _ & _ & E).
  apply accounts_range in Hs as (? & ? & ? & ?); [|done|lia].
  apply accounts_range in Ho as (? & ? & ? & ?); [|done|lia].
  unfold Stage.and_then. rewrite lookup_union_with.
  destruct (s !! a) as [t|], (o !! a) as [u|]; cbn in *; try done.
  - by rewrite and_then_new_r in H.
  - by rewrite and_then_new_l in H.
Qed.

(** The pool swaps are all in their stage. *)
Definition swaps_first ops : Prop :=
  Forall (fun op => match op with OpUniswap st _ _ _ _ => st = StSwap | _ => True end) ops.

Lemma swaps_first_flows ops st a : swaps_first ops -> st <> StSwap -> no_swaps (flows_at ops st a).
Proof.
  intros Hs Hst. unfold no_swaps, flows_at, swapped_in, swapped_out.
  induction Hs as [|op ops Hop _ IH]; [done|]. cbn. rewrite filter_app, !fmap_app, !zsum_app.
  destruct IH as [-> ->].
  destruct op as [st' i o qi qo|st' i o qi qo|st' c q|st' c q]; cbn; repeat case_decide;
    cbn in *; simplify_eq; done.
Qed.

Lemma flows_at_ok ops st a : Forall (fun op => Forall (fun x => 0 <= amount_of x.2) (flows_of op)) ops ->
  flows_ok (flows_at ops st a).
Proof.
  intros Hops. unfold flows_ok, flows_at. apply Forall_fmap. rewrite Forall_forall.
  intros x [_ Hx]%list_elem_of_filter. apply list_elem_of_In, in_concat in Hx as (l & Hl & Hx).
  apply list_elem_of_In, list_elem_of_fmap in Hl as (op & -> & Hop).
  rewrite Forall_forall in Hops. specialize (Hops op Hop). rewrite Forall_forall in Hops.
  apply Hops. by apply list_elem_of_In.
Qed.

Definition amounts_nonneg ops : Prop :=
  Forall (fun op => Forall (fun x => 0 <= amount_of x.2) (flows_of op)) ops.

(** The state of an asset over the stages, before the extra is collected. *)
Definition merged b : StageTracker :=
  Stage.and_then (Stage.and_then (Stage.and_then (st_swaps b) (st_rewards b)) (st_top_of_block b))
    (st_user_orders b).

Lemma merged_accounts b ops a : fresh b -> swaps_first ops -> amounts_nonneg ops ->
  volume_of (flows_over ops a) <= u128_max ->
  accounts (flows_over ops a) (default BorrowState.new (merged (foldl run_op b ops) !! a)).
Proof.
  intros Hb Hs Hn Hv. set (b' := foldl run_op b ops).
  assert (forall st, flows_ok (flows_at ops st a)) as Hok by (intros st; by apply flows_at_ok).
  assert (forall st, st <> StSwap -> no_swaps (flows_at ops st a)) as Hno
    by (intros st; by apply swaps_first_flows).
  unfold flows_over in *. rewrite !app_assoc in *.
  set (f1 := flows_at ops StSwap a) in *. set (f2 := flows_at ops StReward a) in *.
  set (f3 := flows_at ops StTopOfBlock a) in *. set (f4 := flows_at ops StUserOrder a) in *.
  pose proof (totals_nonneg f1 (Hok _)). pose proof (totals_nonneg f2 (Hok _)).
  pose proof (totals_nonneg f3 (Hok _)). pose proof (totals_nonneg f4 (Hok _)).
  destruct (totals_app (f1 ++ f2 ++ f3) f4) as (_ & _ & _ & _ & _ & E1).
  destruct (totals_app (f1 ++ f2) f3) as (_ & _ & _ & _ & _ & E2).
  destruct (totals_app f1 f2) as (_ & _ & _ & _ & _ & E3). rewrite !app_assoc in *.
  assert (forall st, volume_of (flows_at ops st a) <= u128_max ->
    accounts (flows_at ops st a) (default BorrowState.new (Builder.get_stage b' st !! a))) as Hst.
  { intros st Hv'. fold (state_at b' st a). subst b'. rewrite state_at_run by done.
    by apply accounts_run. }
  unfold merged.
  apply stage_and_then; [|apply Hok|by apply Hno|done| |apply (Hst StUserOrder); fold f4; lia].
  { apply Forall_app; split; [apply Forall_app; split|]; apply Hok. }
  apply stage_and_then; [|apply Hok|by apply Hno|lia| |apply (Hst StTopOfBlock); fold f3; lia].
  { apply Forall_app; split; apply Hok. }
  apply stage_and_then; [apply Hok|apply Hok|by apply Hno|lia|apply (Hst StSwap); fold f1; lia|
    apply (Hst StReward); fold f2; lia].
Qed.
End ledger.

(** ** The array *)

Section array.
Implicit Types (l : AssetArray) (a : Address).

Definition empty_asset (x : Asset) : Prop := save x = 0 /\ take x = 0 /\ settle x = 0.

(** The index of the array points at the only entry of an address, and the amounts
    of the entries are left to the builder. *)
Record array_ok l : Prop := {
  ao_index : forall a i, assets_idx l !! a = Some i <-> exists x, assets l !! i = Some x /\ addr x = a;
  ao_empty : Forall empty_asset (assets l)
}.

Definition ascending (xs : list Asset) : Prop := StronglySorted (fun x y => addr x < addr y) xs.

Lemma array_ok_unique l i j x y : array_ok l -> assets l !! i = Some x -> assets l !! j = Some y ->
  addr x = addr y -> i = j.
Proof.
  intros [Hi _] Hx Hy E.
  assert (assets_idx l !! addr x = Some i) as H1 by (apply Hi; eauto).
  assert (assets_idx l !! addr x = Some j) as H2 by (apply Hi; eauto). congruence.
Qed.

Lemma array_new_ok : array_ok Array.new.
Proof.
  split; cbn; [|done]. intros a i. rewrite lookup_empty. split; [done|].
  intros (x & Hx & _). by rewrite lookup_nil in Hx.
Qed.

Lemma add_or_get_ok l a l' i : array_ok l -> Array.add_or_get_asset_idx l a = (l', i) ->
  array_ok l' /\ Array.get_asset_addr l' i = a /\ exists ys, assets l' = assets l ++ ys.
Proof.
  unfold Array.add_or_get_asset_idx, Array.get_asset_addr. intros Hok. pose proof Hok as [Hi He].
  destruct (assets_idx l !! a) as [j|] eqn:E; intros [= <- <-].
  - split; [done|]. apply Hi in E as (x & -> & ->). split; [done|]. exists []. by rewrite app_nil_r.
  - cbn. rewrite lookup_app_r, Nat.sub_diag by lia. split; [|split; [done|by eexists]].
    split; cbn; [|apply Forall_app; split; [done|by repeat constructor]].
    intros c j. destruct (decide (c = a)) as [->|Hne].
    + rewrite lookup_insert_eq. split.
      * intros [= <-]. rewrite lookup_app_r, Nat.sub_diag by lia. by eexists.
      * intros (x & [Hx|[? Hx]]%lookup_app_Some & Ha).
        -- assert (assets_idx l !! a = Some j) by (apply Hi; eauto). congruence.
        -- apply list_lookup_singleton_Some in Hx as [? _]. f_equal. lia.
    + rewrite lookup_insert_ne, Hi by done. split.
      * intros (x & Hx & Ha). exists x. split; [|done]. by apply lookup_app_l_Some.
      * intros (x & [Hx|[? Hx]]%lookup_app_Some & Ha); [by exists x|].
        apply list_lookup_singleton_Some in Hx as [_ <-]. cbn in Ha. congruence.
Qed.

Lemma addr_cmp_total : total_cmp Array.addr_cmp.
Proof. split; [intros x y; apply Z.compare_antisym|apply cmp_trans_on]. Qed.

Lemma foldl_index (xs : list Asset) (k : nat) (m : gmap Address nat) a :
  NoDup (addr <$> xs) ->
  foldl (fun m '(i, x) => <[addr x := i]> m) m (zip (seq k (length xs)) xs) !! a =
    match list_find (fun x => addr x = a) xs with
    | Some (i, _) => Some (k + i)%nat
    | None => m !! a
    end.
Proof.
  revert k m. induction xs as [|x xs IH]; intros k m Hnd; [done|]. cbn.
  apply NoDup_cons in Hnd as [Hx Hnd]. rewrite IH by done. case_decide as Hd.
  - destruct (list_find _ xs) as [[i y]|] eqn:E; cbn.
    + apply list_find_Some in E as (Hy & Ha & _). exfalso. apply Hx.
      rewrite Hd, <-Ha. by eapply list_elem_of_fmap_2, list_elem_of_lookup_2.
    + subst a. rewrite lookup_insert_eq. f_equal. lia.
  - destruct (list_find _ xs) as [[i y]|]; cbn; [f_equal; lia|]. by rewrite lookup_insert_ne.
Qed.

Lemma array_ok_NoDup l : array_ok l -> NoDup (addr <$> assets l).
Proof.
  intros Hok. apply NoDup_alt. intros i j a Hi Hj.
  apply list_lookup_fmap_Some in Hi as (x & Hx & Hi).
  apply list_lookup_fmap_Some in Hj as (y & Hy & Hj).
  eapply array_ok_unique; [done|exact Hi|exact Hj|congruence].
Qed.

Lemma sorted_ascending (xs : list Asset) : NoDup (addr <$> xs) ->
  StronglySorted (fun x y => Array.addr_cmp x y <> Gt) xs -> ascending xs.
Proof.
  unfold ascending. induction xs as [|x xs IH]; intros Hnd Hs; [constructor|]. cbn in Hnd.
  apply NoDup_cons in Hnd as [Hx Hnd]. apply StronglySorted_inv in Hs as [Hs Hall].
  constructor; [by apply IH|]. rewrite Forall_forall in Hall |- *. intros y Hy.
  specialize (Hall y Hy). unfold Array.addr_cmp in Hall.
  assert (addr x <> addr y) by (intros E; apply Hx; rewrite E; by apply list_elem_of_fmap_2).
  destruct (Z.compare_spec (addr x) (addr y)); [done|lia|done].
Qed.

Lemma order_assets_ok l : array_ok l ->
  array_ok (Array.order_assets_properly l) /\ ascending (assets (Array.order_assets_properly l)) /\
  assets (Array.order_assets_properly l) ≡ₚ assets l.
Proof.
  intros Hok. pose proof Hok as [Hi He]. pose proof (array_ok_NoDup l Hok) as Hnd.
  set (xs := sort_by Array.addr_cmp (assets l)).
  assert (xs ≡ₚ assets l) as Hp by apply sort_by_perm.
  assert (NoDup (addr <$> xs)) as Hnd' by (by rewrite Hp).
  split; [|split; [apply sorted_ascending; [done|apply sort_by_sorted, addr_cmp_total]|done]].
  split; [|cbn; fold xs; by rewrite Hp]. intros a i. cbn. fold xs. rewrite foldl_index by done. cbn.
  destruct (list_find _ xs) as [[j y]|] eqn:E.
  - apply list_find_Some in E as (Hj & Hy & _). split.
    + intros [= <-]. eauto.
    + intros (x & Hx & Ha). f_equal. rewrite NoDup_alt in Hnd'. apply (Hnd' j i a);
        apply list_lookup_fmap_Some; [by exists y|by exists x].
  - split.
    + intros (x & Hx & Ha)%Hi. apply list_find_None in E. rewrite Forall_forall in E.
      exfalso. apply (E x); [|done]. rewrite Hp. by eapply list_elem_of_lookup_2.
    + intros (x & Hx & Ha). apply list_find_None in E. rewrite Forall_forall in E.
      exfalso. apply (E x); [|done]. by eapply list_elem_of_lookup_2.
Qed.
End array.

(** ** The builder *)

(** The calls that change the array of a builder. *)
Inductive ArrayOp := AddAsset (a : Address) | OrderAssets.

Definition run_array_op (b : AssetBuilder) (op : ArrayOp) : AssetBuilder :=
  match op with
  | AddAsset a => (Builder.add_or_get_asset b a).1
  | OrderAssets => Builder.order_assets_properly b
  end.

Lemma run_array_ok b op : array_ok (builder_assets b) -> array_ok (builder_assets (run_array_op b op)).
Proof.
  intros Hok. destruct op as [a|]; cbn; [|by apply order_assets_ok].
  unfold Builder.add_or_get_asset. destruct (Array.add_or_get_asset_idx (builder_assets b) a) as [l i] eqn:E.
  by destruct (add_or_get_ok _ _ _ _ Hok E).
Qed.

Lemma run_array_ops_ok b ops : array_ok (builder_assets b) ->
  array_ok (builder_assets (foldl run_array_op b ops)).
Proof. revert b. induction ops as [|op ops IH]; intros b Hok; [done|]. by apply IH, run_array_ok. Qed.

Lemma run_op_assets b ops : assets (builder_assets (foldl run_op b ops)) = assets (builder_assets b).
Proof.
  revert b. induction ops as [|op ops IH]; intros b; [done|]. cbn. rewrite IH. by destruct op.
Qed.

(** The index of the assets of a bundle is right, whatever was added and
    however often the array was sorted: the index of an address points at the only
    entry with this address, adding an address that is known changes nothing, the
    index it returns leads back to the address, and after the final sort the
    addresses ascend strictly, as the contract demands. *)
Theorem asset_index_ok ops a :
  let b := foldl run_array_op Builder.new ops in
  array_ok (builder_assets b) /\
  (forall b' i, Builder.add_or_get_asset b a = (b', i) ->
     Array.get_asset_addr (builder_assets b') i = a /\
     Builder.add_or_get_asset b' a = (b', i)) /\
  ascending (assets (builder_assets (Builder.order_assets_properly b))).
Proof.
  intros b. assert (array_ok (builder_assets b)) as Hok by apply run_array_ops_ok, array_new_ok.
  split; [done|]. split; [|by apply order_assets_ok].
  intros b' i. unfold Builder.add_or_get_asset.
  destruct (Array.add_or_get_asset_idx (builder_assets b) a) as [l j] eqn:E. intros [= <- <-].
  apply add_or_get_ok in E as Hl; [|done]. destruct Hl as (Hl & Ha & _). split; [exact Ha|].
  cbn [builder_assets Builder.set_assets]. unfold Array.add_or_get_asset_idx.
  assert (assets_idx l !! a = Some j) as ->; [|done].
  unfold Array.add_or_get_asset_idx in E. destruct (assets_idx (builder_assets b) !! a) as [k|] eqn:Ei;
    injection E as <- <-; [done|]. cbn. by rewrite lookup_insert_eq.
Qed.

(** The amounts of the builder, on which the claim below and the one on bundles
    rest. *)
Lemma borrowed_amounts b ops x
    (Hb : fresh b) (Hok : array_ok (builder_assets b)) (Hs : swaps_first ops) (Hn : amounts_nonneg ops)
    (Hv : volume_of (flows_over ops (addr x)) <= u128_max)
    (Hx : x ∈ Builder.get_asset_array (foldl run_op b ops)) :
  let fs := flows_over ops (addr x) in
  take x - settle x = swapped_out fs - swapped_in fs /\
  save x = charged fs + Z.max 0 (received fs + swapped_out fs - paid_out fs - swapped_in fs) /\
  forall k, 0 <= take x + received (firstn k fs) - paid_out (firstn k fs).
Proof.
  intros fs. pose proof (merged_accounts b ops (addr x) Hb Hs Hn Hv) as Hm. fold fs in Hm, Hv.
  assert (flows_ok fs) as Hfs.
  { unfold fs, flows_over. repeat (apply Forall_app; split); by apply flows_at_ok. }
  pose proof (totals_nonneg fs Hfs) as Hpos. unfold Builder.get_asset_array in Hx.
  apply list_elem_of_fmap in Hx as (y & Hy & Hin). rewrite run_op_assets in Hin.
  assert (addr x = addr y) as Ea by (rewrite Hy; by case_match).
  unfold Stage.get_asset, Builder.combined, Stage.collect_extra in Hy. rewrite lookup_fmap in Hy.
  fold (merged (foldl run_op b ops)) in Hy. rewrite <-Ea in Hy.
  destruct (merged (foldl run_op b ops) !! addr x) as [t|]; cbn in Hy, Hm; destruct Hm as [Hl Hbo Hsv Hlr Htr Hc].
  - rewrite Hy. cbn. rewrite Hsv. split; [done|]. split; [|exact Hc].
    rewrite u128_wrap_small by lia. lia.
  - subst x. destruct (ao_empty _ Hok) as [|z zs Hz Hzs]; [by apply elem_of_nil in Hin|].
    assert (empty_asset y) as (-> & -> & ->)
      by (eapply Forall_forall; [|exact Hin]; by constructor).
    cbn in *. split; [lia|]. split; [lia|exact Hc].
Qed.

(** The amounts the builder hands to the contract account for every flow of
    the asset, when the pool swaps are all in their stage and the amounts fit
    their words.  What is borrowed from Uniswap beyond what is settled is what the
    pool swaps gave less what they took; what is saved is the fees charged and
    what is left of the receipts once the payments and the debts are served; and
    the amount borrowed covers every payment at its turn, in the order in which
    the contract runs the stages. *)
Theorem borrowed_amounts_cover b ops x
    (Hb : fresh b) (Hok : array_ok (builder_assets b)) (Hs : swaps_first ops) (Hn : amounts_nonneg ops)
    (Hv : volume_of (flows_over ops (addr x)) <= u128_max)
    (Hx : x ∈ Builder.get_asset_array (foldl run_op b ops)) :
  let fs := flows_over ops (addr x) in
  take x - settle x = swapped_out fs - swapped_in fs /\
  save x = charged fs + Z.max 0 (received fs + swapped_out fs - paid_out fs - swapped_in fs) /\
  forall k, 0 <= take x + received (firstn k fs) - paid_out (firstn k fs).
Proof. by apply borrowed_amounts with (b := b). Qed.

(** ** An example

    A swap of 90 of asset 1 against 80 of asset 2 with the pool, for a user who
    pays 100 of asset 1 for 70 of asset 2; 5 of asset 1 are donated. *)
Definition sample_ops : list BuilderOp :=
  [ OpUniswap StSwap 1 2 90 80; OpAllocate StReward 1 5; OpExternal StTopOfBlock 1 2 100 70;
    OpGasFee StTopOfBlock 1 3 ].

Definition sample_builder : AssetBuilder := foldl run_array_op Builder.new [AddAsset 2; AddAsset 1; OrderAssets].

Lemma sample_builder_fresh : fresh sample_builder.
Proof. by intros []. Qed.

Lemma borrowed_amounts_cover_witness :
  let x := {| addr := 1; save := 8; take := 5; settle := 95 |} in
  x ∈ Builder.get_asset_array (foldl run_op sample_builder sample_ops) /\
  5 - 95 = 0 - 90 /\ 8 = 3 + Z.max 0 (100 + 0 - 5 - 90) /\
  forall k, 0 <= 5 + received (firstn k (flows_over sample_ops 1)) - paid_out (firstn k (flows_over sample_ops 1)).
Proof.
  set (x := {| addr := 1; save := 8; take := 5; settle := 95 |}).
  assert (x ∈ Builder.get_asset_array (foldl run_op sample_builder sample_ops)) as Hx
    by (vm_compute; left).
  split; [exact Hx|].
  apply (borrowed_amounts_cover sample_builder sample_ops x); [apply sample_builder_fresh| | | | |exact Hx].
  - apply run_array_ops_ok, array_new_ok.
  - repeat constructor.
  - repeat constructor; cbn; lia.
  - vm_compute. discriminate.
Defined.
