(* ===== verification/Payload.v ===== *)
(** * The payload of a bundle

    The model of [crates/types/primitives/src/contract_payloads] ([mod.rs],
    [rewards.rs], [angstrom/mod.rs], [angstrom/order.rs], [angstrom/tob.rs]) and of
    [crates/types/src/traits/user_orders.rs]: the orders as the contract gets them,
    how they are made of the orders of the node, and how the node recovers its
    orders from a bundle it finds on the chain. *)

From S2P Require Import Prelude Ray Orders Samples Rules Accounts Pool Donation Book ConsensusTypes Assets.
Open Scope Z_scope.

(** ** Data *)

Record Pair := {
  index0 : Z;
  index1 : Z;
  store_index : Z;
  price_1over0 : U256
}.

Inductive ContractSignature :=
| ContractSig (from : Address) (signature : Bytes)
| Ecdsa (v : Z) (r s : U256).

Inductive OrderQuantities :=
| ExactQuantity (quantity : u128)
| PartialQuantity (min_quantity_in max_quantity_in filled_quantity : u128).

Record StandingValidation := {
  sv_nonce : u64;
  sv_deadline : u64
}.

Record UserOrder := {
  uo_ref_id : Z;
  uo_use_internal : bool;
  uo_pair_index : Z;
  uo_min_price : U256;
  uo_recipient : option Address;
  uo_hook_data : option Bytes;
  uo_zero_for_one : bool;
  uo_standing_validation : option StandingValidation;
  uo_order_quantities : OrderQuantities;
  uo_max_extra_fee_asset0 : u128;
  uo_extra_fee_asset0 : u128;
  uo_exact_in : bool;
  uo_signature : ContractSignature
}.

(** [TopOfBlockOrder] of the contract. *)
Record ContractToB := {
  ct_use_internal : bool;
  ct_quantity_in : u128;
  ct_quantity_out : u128;
  ct_max_gas_asset_0 : u128;
  ct_gas_used_asset_0 : u128;
  ct_pairs_index : Z;
  ct_zero_for_1 : bool;
  ct_recipient : option Address;
  ct_signature : ContractSignature
}.

Record PoolUpdate := {
  pu_zero_for_one : bool;
  pu_pair_index : Z;
  swap_in_quantity : u128;
  rewards_update : RewardsUpdate
}.

Record AngstromBundle := {
  bundle_assets : list Asset;
  bundle_pairs : list Pair;
  pool_updates : list PoolUpdate;
  top_of_block_orders : list ContractToB;
  user_orders : list UserOrder
}.

(** The errors of the construction of a bundle. *)
Inductive BundleError := OrderOverGas | ToBOverGas | NoSwaps.

(** [OrderMeta { from, ..Default::default() }]. *)
Definition meta_of (f : Address) : OrderMeta := {| isEcdsa := false; meta_from := f; meta_signature := [] |}.

Definition set_meta (o : AllOrders) (m : OrderMeta) : AllOrders :=
  match o with
  | ExactStanding p => ExactStanding {| es_ref_id := es_ref_id p; es_exact_in := es_exact_in p;
      es_amount := es_amount p; es_max_extra_fee_asset0 := es_max_extra_fee_asset0 p;
      es_min_price := es_min_price p; es_use_internal := es_use_internal p; es_asset_in := es_asset_in p;
      es_asset_out := es_asset_out p; es_recipient := es_recipient p; es_hook_data := es_hook_data p;
      es_nonce := es_nonce p; es_deadline := es_deadline p; es_meta := m |}
  | PartialStanding p => PartialStanding {| ps_ref_id := ps_ref_id p; ps_min_amount_in := ps_min_amount_in p;
      ps_max_amount_in := ps_max_amount_in p; ps_max_extra_fee_asset0 := ps_max_extra_fee_asset0 p;
      ps_min_price := ps_min_price p; ps_use_internal := ps_use_internal p; ps_asset_in := ps_asset_in p;
      ps_asset_out := ps_asset_out p; ps_recipient := ps_recipient p; ps_hook_data := ps_hook_data p;
      ps_nonce := ps_nonce p; ps_deadline := ps_deadline p; ps_meta := m |}
  | ExactFlash p => ExactFlash {| ef_ref_id := ef_ref_id p; ef_exact_in := ef_exact_in p;
      ef_amount := ef_amount p; ef_max_extra_fee_asset0 := ef_max_extra_fee_asset0 p;
      ef_min_price := ef_min_price p; ef_use_internal := ef_use_internal p; ef_asset_in := ef_asset_in p;
      ef_asset_out := ef_asset_out p; ef_recipient := ef_recipient p; ef_hook_data := ef_hook_data p;
      ef_valid_for_block := ef_valid_for_block p; ef_meta := m |}
  | PartialFlash p => PartialFlash {| pf_ref_id := pf_ref_id p; pf_min_amount_in := pf_min_amount_in p;
      pf_max_amount_in := pf_max_amount_in p; pf_max_extra_fee_asset0 := pf_max_extra_fee_asset0 p;
      pf_min_price := pf_min_price p; pf_use_internal := pf_use_internal p; pf_asset_in := pf_asset_in p;
      pf_asset_out := pf_asset_out p; pf_recipient := pf_recipient p; pf_hook_data := pf_hook_data p;
      pf_valid_for_block := pf_valid_for_block p; pf_meta := m |}
  | TOB t => TOB {| tob_quantity_in := tob_quantity_in t; tob_quantity_out := tob_quantity_out t;
      tob_max_gas_asset0 := tob_max_gas_asset0 t; tob_use_internal := tob_use_internal t;
      tob_asset_in := tob_asset_in t; tob_asset_out := tob_asset_out t; tob_recipient := tob_recipient t;
      tob_valid_for_block := tob_valid_for_block t; tob_meta := m |}
  end.

Definition order_meta (o : AllOrders) : OrderMeta :=
  match o with
  | ExactStanding p => es_meta p | PartialStanding p => ps_meta p
  | ExactFlash p => ef_meta p | PartialFlash p => pf_meta p | TOB t => tob_meta t
  end.

(** What the payload uses of [alloy] and [pade]: the EIP-712 hash of an order that
    its user signs, which leaves the meta data out as the hash of the pool does;
    the decoding of the signature of an order; the signer of a hash; and the parity
    of the [v] of a signature, 27 or 28. *)
Class OrderCrypto `{OH : OrderHasher} : Type := {
  no_meta_eip712_signing_hash : AllOrders -> B256;
  pade_decode_signature : Bytes -> option Signature;
  recover_address : Signature -> B256 -> option Address;
  normalize_v : Z -> option bool;
  signing_hash_meta : forall o m, no_meta_eip712_signing_hash (set_meta o m) = no_meta_eip712_signing_hash o;
  order_hash_meta : forall o m f, unique_order_hash (set_meta o m) f = unique_order_hash o f;
  normalize_27 : normalize_v 27 = Some false;
  normalize_28 : normalize_v 28 = Some true
}.

Section payload.
Context `{AL : ArithLib} `{OH : OrderHasher} `{OC : !OrderCrypto}.
Implicit Types (o : BookOrder) (u : UserOrder) (c : ContractToB) (pairs : list Pair) (xs : list Asset).

(** ** Signatures *)

(** [Signature::from]. *)
Definition of_signature (s : Signature) : ContractSignature :=
  Ecdsa (27 + Z.b2z (sig_y_parity s)) (sig_r s) (sig_s s).

Definition recover_signer (cs : ContractSignature) (hash : B256) : outcome Address :=
  match cs with
  | ContractSig f _ => Ret f
  | Ecdsa v r s =>
      y ← unwrap (normalize_v v);
      unwrap (recover_address {| sig_r := r; sig_s := s; sig_y_parity := y |} hash)
  end.

(** ** Orders for the contract *)

Definition fetch_max_amount (q : OrderQuantities) : u128 :=
  match q with ExactQuantity q => q | PartialQuantity _ q _ => q end.

Definition fill_amount (out : OrderOutcome) (max : u128) : u128 :=
  match oo_outcome out with
  | CompleteFill => max
  | PartialFill p => Z.min max p
  | _ => 0
  end.

(** The quantities, the validation, the recipient and the hook data of a limit
    order; a top-of-block order panics. *)
Definition limit_parts o (out : OrderOutcome)
    : outcome (OrderQuantities * option StandingValidation * Address * Bytes) :=
  match order o with
  | PartialFlash p => Ret (PartialQuantity (pf_min_amount_in p) (pf_max_amount_in p)
      (fill_amount out (pf_max_amount_in p)), None, pf_recipient p, pf_hook_data p)
  | PartialStanding p => Ret (PartialQuantity (ps_min_amount_in p) (ps_max_amount_in p)
      (fill_amount out (ps_max_amount_in p)),
      Some {| sv_nonce := ps_nonce p; sv_deadline := ps_deadline p |}, ps_recipient p, ps_hook_data p)
  | ExactFlash p => Ret (ExactQuantity (amount (order o)), None, ef_recipient p, ef_hook_data p)
  | ExactStanding p => Ret (ExactQuantity (amount (order o)),
      Some {| sv_nonce := es_nonce p; sv_deadline := es_deadline p |}, es_recipient p, es_hook_data p)
  | TOB _ => Panic
  end.

Definition some_recipient (r : Address) : option Address := if r =? 0 then None else Some r.
Definition some_hook (h : Bytes) : option Bytes := match h with [] => None | _ :: _ => Some h end.

(** The order of the contract with the gas it pays. *)
Definition user_order_of o (parts : OrderQuantities * option StandingValidation * Address * Bytes)
    (pair_index : Z) (gas_used : u128) : outcome UserOrder :=
  let '(qs, sv, r, h) := parts in
  sig ← unwrap (pade_decode_signature (meta_signature (order_meta (order o))));
  lp ← limit_price (order o);
  Ret {| uo_ref_id := 0; uo_use_internal := use_internal (order o); uo_pair_index := pair_index;
         uo_min_price := lp; uo_recipient := some_recipient r; uo_hook_data := some_hook h;
         uo_zero_for_one := negb (is_bid o); uo_standing_validation := sv; uo_order_quantities := qs;
         uo_max_extra_fee_asset0 := max_gas_token_0 (order o); uo_extra_fee_asset0 := gas_used;
         uo_exact_in := exact_in (order o); uo_signature := of_signature sig |}.

Definition from_internal_order o (out : OrderOutcome) (pair_index : Z)
    : outcome (result UserOrder BundleError) :=
  parts ← limit_parts o out;
  gas_used ← uint_to_u128 (gas (priority_data o));
  if max_gas_token_0 (order o) <? gas_used then Ret (Err OrderOverGas)
  else u ← user_order_of o parts pair_index gas_used; Ret (Ok u).

Definition from_internal_order_max_gas o (out : OrderOutcome) (pair_index : Z) : outcome UserOrder :=
  parts ← limit_parts o out;
  gas_used ← uint_to_u128 (gas (priority_data o));
  user_order_of o parts pair_index gas_used.

Definition tob_order_of (t : OrderWithStorageData TopOfBlockOrder) (pairs_index : Z) (gas_used : u128)
    (sig : Signature) : ContractToB :=
  {| ct_use_internal := tob_use_internal (order t); ct_quantity_in := tob_quantity_in (order t);
     ct_quantity_out := tob_quantity_out (order t); ct_max_gas_asset_0 := tob_max_gas_asset0 (order t);
     ct_gas_used_asset_0 := gas_used; ct_pairs_index := pairs_index; ct_zero_for_1 := negb (is_bid t);
     ct_recipient := some_recipient (tob_recipient (order t)); ct_signature := of_signature sig |}.

(** [TopOfBlockOrder::of_max_gas]. *)
Definition of_max_gas (t : OrderWithStorageData TopOfBlockOrder) (pairs_index : Z) : outcome ContractToB :=
  sig ← unwrap (pade_decode_signature (meta_signature (tob_meta (order t))));
  g ← uint_to_u128 (gas (priority_data t));
  Ret (tob_order_of t pairs_index g sig).

(** [TopOfBlockOrder::of]. *)
Definition of_tob (t : OrderWithStorageData TopOfBlockOrder) (pairs_index : Z)
    : outcome (result ContractToB BundleError) :=
  sig ← unwrap (pade_decode_signature (meta_signature (tob_meta (order t))));
  let used_gas := Z.min (gas (priority_data t)) u128_max in
  Ret (if tob_max_gas_asset0 (order t) <? used_gas then Err ToBOverGas
       else Ok (tob_order_of t pairs_index used_gas sig)).

(** ** Orders of a bundle on the chain *)

(** [asset[i].addr] and [pair[i]]. *)
Definition asset_at xs (i : Z) : outcome Address := unwrap (addr <$> xs !! Z.to_nat i).
Definition pair_at pairs (i : Z) : outcome Pair := unwrap (pairs !! Z.to_nat i).

(** The two tokens of an order, what it gives and what it gets. *)
Definition tokens_of pairs xs (pair_index : Z) (zero_for_one : bool) : outcome (Address * Address) :=
  p ← pair_at pairs pair_index;
  a0 ← asset_at xs (index0 p);
  a1 ← asset_at xs (index1 p);
  Ret (if zero_for_one then (a0, a1) else (a1, a0)).

(** The order that [recover_order], [order_hash] and [signing_hash] build, with the
    meta data they give it. *)
Definition rebuilt u pairs xs (block : u64) (m : OrderMeta) : outcome AllOrders :=
  '(a_in, a_out) ← tokens_of pairs xs (uo_pair_index u) (uo_zero_for_one u);
  let r := default 0 (uo_recipient u) in
  let h := default [] (uo_hook_data u) in
  Ret match uo_order_quantities u, uo_standing_validation u with
  | ExactQuantity q, Some v => ExactStanding {| es_ref_id := uo_ref_id u; es_exact_in := uo_exact_in u;
      es_amount := q; es_max_extra_fee_asset0 := uo_max_extra_fee_asset0 u; es_min_price := uo_min_price u;
      es_use_internal := uo_use_internal u; es_asset_in := a_in; es_asset_out := a_out; es_recipient := r;
      es_hook_data := h; es_nonce := sv_nonce v; es_deadline := sv_deadline v; es_meta := m |}
  | ExactQuantity q, None => ExactFlash {| ef_ref_id := uo_ref_id u; ef_exact_in := uo_exact_in u;
      ef_amount := q; ef_max_extra_fee_asset0 := uo_max_extra_fee_asset0 u; ef_min_price := uo_min_price u;
      ef_use_internal := uo_use_internal u; ef_asset_in := a_in; ef_asset_out := a_out; ef_recipient := r;
      ef_hook_data := h; ef_valid_for_block := block; ef_meta := m |}
  | PartialQuantity lo hi _, Some v => PartialStanding {| ps_ref_id := uo_ref_id u; ps_min_amount_in := lo;
      ps_max_amount_in := hi; ps_max_extra_fee_asset0 := uo_max_extra_fee_asset0 u;
      ps_min_price := uo_min_price u; ps_use_internal := uo_use_internal u; ps_asset_in := a_in;
      ps_asset_out := a_out; ps_recipient := r; ps_hook_data := h; ps_nonce := sv_nonce v;
      ps_deadline := sv_deadline v; ps_meta := m |}
  | PartialQuantity lo hi _, None => PartialFlash {| pf_ref_id := uo_ref_id u; pf_min_amount_in := lo;
      pf_max_amount_in := hi; pf_max_extra_fee_asset0 := uo_max_extra_fee_asset0 u;
      pf_min_price := uo_min_price u; pf_use_internal := uo_use_internal u; pf_asset_in := a_in;
      pf_asset_out := a_out; pf_recipient := r; pf_hook_data := h; pf_valid_for_block := block; pf_meta := m |}
  end.

Definition user_signing_hash u pairs xs (block : u64) : outcome B256 :=
  a ← rebuilt u pairs xs block (meta_of 0); Ret (no_meta_eip712_signing_hash a).

Definition user_recover_signer u pairs xs (block : u64) : outcome Address :=
  h ← user_signing_hash u pairs xs block; recover_signer (uo_signature u) h.

Definition user_recover_order u pairs xs (block : u64) : outcome AllOrders :=
  f ← user_recover_signer u pairs xs block; rebuilt u pairs xs block (meta_of f).

Definition user_order_hash u pairs xs (block : u64) : outcome B256 :=
  a ← user_recover_order u pairs xs block; Ret (order_hash a).

(** The order that the methods of a top-of-block order build. *)
Definition tob_rebuilt c pairs xs (block : u64) (m : OrderMeta) : outcome TopOfBlockOrder :=
  '(a_in, a_out) ← tokens_of pairs xs (ct_pairs_index c) (ct_zero_for_1 c);
  Ret {| tob_quantity_in := ct_quantity_in c; tob_quantity_out := ct_quantity_out c;
         tob_max_gas_asset0 := ct_max_gas_asset_0 c; tob_use_internal := ct_use_internal c;
         tob_asset_in := a_in; tob_asset_out := a_out; tob_recipient := default 0 (ct_recipient c);
         tob_valid_for_block := block; tob_meta := m |}.

Definition tob_signing_hash c pairs xs (block : u64) : outcome B256 :=
  t ← tob_rebuilt c pairs xs block (meta_of 0); Ret (no_meta_eip712_signing_hash (TOB t)).

Definition user_address c pairs xs (block : u64) : outcome Address :=
  h ← tob_signing_hash c pairs xs block; recover_signer (ct_signature c) h.

Definition tob_recover_order c pairs xs (block : u64) : outcome TopOfBlockOrder :=
  f ← user_address c pairs xs block; tob_rebuilt c pairs xs block (meta_of f).

Definition tob_order_hash c pairs xs (block : u64) : outcome B256 :=
  t ← tob_recover_order c pairs xs block; Ret (order_hash t).

(** ** Bundles *)

Definition has_book (b : AngstromBundle) : bool := match user_orders b with [] => false | _ :: _ => true end.

Definition get_accounts (b : AngstromBundle) (block : u64) : outcome (list Address) :=
  l ← traverse (fun c => user_address c (bundle_pairs b) (bundle_assets b) block) (top_of_block_orders b);
  k ← traverse (fun u => user_recover_signer u (bundle_pairs b) (bundle_assets b) block) (user_orders b);
  Ret (l ++ k).

Definition get_order_hashes (b : AngstromBundle) (block : u64) : outcome (list B256) :=
  l ← traverse (fun c => tob_order_hash c (bundle_pairs b) (bundle_assets b) block) (top_of_block_orders b);
  k ← traverse (fun u => user_order_hash u (bundle_pairs b) (bundle_assets b) block) (user_orders b);
  Ret (l ++ k).

Definition BASE_GAS_FOR_POOL : Z := 350000.
Definition BASE_EST_FOR_USER : Z := 90000.

Definition crude_gas_estimation (b : AngstromBundle) : u64 :=
  let pools := filter (fun x => swap_in_quantity x <> 0) (pool_updates b) in
  let cnt := size (list_to_set (pu_pair_index <$> pools) : gset Z) in
  u64_wrap (u64_wrap (Z.of_nat (length (top_of_block_orders b) + length (user_orders b)) * BASE_EST_FOR_USER) +
    u64_wrap (Z.of_nat cnt * BASE_GAS_FOR_POOL)).

(** ** Recovering the orders of a bundle *)

Definition order_ref_id (a : AllOrders) : Z :=
  match a with
  | ExactStanding p => es_ref_id p | PartialStanding p => ps_ref_id p
  | ExactFlash p => ef_ref_id p | PartialFlash p => pf_ref_id p | TOB _ => 0
  end.

(** The signature of an order is the one of its user. *)
Definition signed_by_user (a : AllOrders) : Prop :=
  exists s, pade_decode_signature (meta_signature (order_meta a)) = Some s /\
    recover_address s (no_meta_eip712_signing_hash a) = Some (from a).

(** A flash order is for the block of the bundle. *)
Definition for_block (a : AllOrders) (block : u64) : Prop :=
  forall b, flash_block a = Some b -> b = block.

Lemma recover_of_signature s h a : recover_address s h = Some a -> recover_signer (of_signature s) h = Ret a.
Proof.
  intros H. unfold recover_signer, of_signature. destruct s as [r w []]; cbn;
    [rewrite normalize_28|rewrite normalize_27]; cbn; by rewrite H.
Qed.

Lemma some_recipient_default r : default 0 (some_recipient r) = r.
Proof. unfold some_recipient. by destruct (Z.eqb_spec r 0). Qed.

Lemma some_hook_default h : default [] (some_hook h) = h.
Proof. by destruct h. Qed.

Lemma set_meta_twice a m m' : set_meta (set_meta a m) m' = set_meta a m'.
Proof. by destruct a. Qed.

(** The user order of a limit order. *)
Definition made_of o (out : OrderOutcome) (i : Z) u : Prop :=
  exists parts g sig, limit_parts o out = Ret parts /\ user_order_of o parts i g = Ret u /\
    pade_decode_signature (meta_signature (order_meta (order o))) = Some sig /\
    uo_signature u = of_signature sig.

Lemma user_order_of_inv o parts i g u : user_order_of o parts i g = Ret u ->
  exists sig, pade_decode_signature (meta_signature (order_meta (order o))) = Some sig /\
    uo_signature u = of_signature sig.
Proof.
  unfold user_order_of. destruct parts as [[[qs sv] r] h]. intros (sig & Hs & H)%bind_Ret.
  apply bind_Ret in H as (lp & _ & [= <-]). exists sig. split; [|done].
  by destruct (pade_decode_signature _) as [s|]; [injection Hs as ->|].
Qed.

Lemma from_internal_made o out i u :
  from_internal_order o out i = Ret (Ok u) \/ from_internal_order_max_gas o out i = Ret u ->
  made_of o out i u.
Proof.
  unfold from_internal_order, from_internal_order_max_gas. intros [H|H];
    apply bind_Ret in H as (parts & Hp & H); apply bind_Ret in H as (g & _ & H).
  - destruct (_ <? g); [done|]. apply bind_Ret in H as (u' & Hu & [= ->]).
    destruct (user_order_of_inv _ _ _ _ _ Hu) as (sig & ? & ?). by exists parts, g, sig.
  - destruct (user_order_of_inv _ _ _ _ _ H) as (sig & ? & ?). by exists parts, g, sig.
Qed.

(** The order the methods build is the order the contract order was made of. *)
Lemma rebuilt_of o out i u pairs xs block m : made_of o out i u ->
  order_ref_id (order o) = 0 -> for_block (order o) block ->
  tokens_of pairs xs i (negb (is_bid o)) = Ret (token_in (order o), token_out (order o)) ->
  rebuilt u pairs xs block m = Ret (set_meta (order o) m).
Proof.
  intros (parts & g & sig & Hp & Hu & _ & _) Href Hb Ht. unfold limit_parts in Hp.
  unfold for_block in Hb. unfold user_order_of in Hu.
  destruct (order o) as [p|p|p|p|t] eqn:Eo; cbn in Hp, Href, Ht, Hb; try discriminate; injection Hp as <-;
    apply bind_Ret in Hu as (s & _ & Hu); apply bind_Ret in Hu as (lp & Hlp & [= <-]);
    cbn in Hlp; injection Hlp as <-; unfold rebuilt; cbn; rewrite Ht; cbn;
    rewrite some_recipient_default, some_hook_default, Href; try reflexivity;
    by rewrite (Hb _ eq_refl).
Qed.

Lemma order_hash_set_meta a : order_hash (set_meta a (meta_of (from a))) = order_hash a.
Proof.
  destruct a as [p|p|p|p|t]; cbn.
  - apply (order_hash_meta (ExactStanding p) (meta_of (meta_from (es_meta p)))).
  - apply (order_hash_meta (PartialStanding p) (meta_of (meta_from (ps_meta p)))).
  - apply (order_hash_meta (ExactFlash p) (meta_of (meta_from (ef_meta p)))).
  - apply (order_hash_meta (PartialFlash p) (meta_of (meta_from (pf_meta p)))).
  - apply (order_hash_meta (TOB t) (meta_of (meta_from (tob_meta t)))).
Qed.

Lemma user_recovered o out i u pairs xs block : made_of o out i u ->
  signed_by_user (order o) -> order_ref_id (order o) = 0 -> for_block (order o) block ->
  tokens_of pairs xs i (negb (is_bid o)) = Ret (token_in (order o), token_out (order o)) ->
  user_recover_signer u pairs xs block = Ret (from (order o)) /\
  user_recover_order u pairs xs block = Ret (set_meta (order o) (meta_of (from (order o)))) /\
  user_order_hash u pairs xs block = Ret (order_hash (order o)).
Proof.
  intros Hm (sig & Hs & Hr) Href Hb Ht.
  assert (forall m, rebuilt u pairs xs block m = Ret (set_meta (order o) m)) as Hre
    by (intros m; by eapply rebuilt_of).
  destruct Hm as (parts & g & sig' & _ & _ & Hs' & Hsg). assert (sig' = sig) as -> by congruence.
  assert (user_recover_signer u pairs xs block = Ret (from (order o))) as H1.
  { unfold user_recover_signer, user_signing_hash. rewrite Hre. cbn [mbind outcome_bind].
    rewrite signing_hash_meta, Hsg. by apply recover_of_signature. }
  assert (user_recover_order u pairs xs block = Ret (set_meta (order o) (meta_of (from (order o))))) as H2.
  { unfold user_recover_order. rewrite H1. cbn [mbind outcome_bind]. apply Hre. }
  split; [exact H1|]. split; [exact H2|].
  unfold user_order_hash. rewrite H2. cbn [mbind outcome_bind]. by rewrite order_hash_set_meta.
Qed.

(** A limit order that is put into a bundle is recovered from the bundle: from
    the order of the contract, the pairs and assets of the bundle and the block,
    the node finds the user who signed the order, the order itself (with meta data
    that hold its user only), and the hash under which the pool knows it.  The
    order has to be signed by its user, to carry the reference 0 and, when it is a
    flash order, to be for the block of the bundle. *)
Theorem user_order_recovered o out i u pairs xs block
    (Hu : from_internal_order o out i = Ret (Ok u) \/ from_internal_order_max_gas o out i = Ret u)
    (Hsig : signed_by_user (order o)) (Href : order_ref_id (order o) = 0)
    (Hblock : for_block (order o) block)
    (Ht : tokens_of pairs xs i (negb (is_bid o)) = Ret (token_in (order o), token_out (order o))) :
  user_recover_signer u pairs xs block = Ret (from (order o)) /\
  user_recover_order u pairs xs block = Ret (set_meta (order o) (meta_of (from (order o)))) /\
  user_order_hash u pairs xs block = Ret (order_hash (order o)).
Proof. eapply user_recovered; [by eapply from_internal_made|done..]. Qed.

(** The same for the top-of-block order of a pool. *)
Lemma tob_recovered (t : OrderWithStorageData TopOfBlockOrder) i c pairs xs :
  of_tob t i = Ret (Ok c) \/ of_max_gas t i = Ret c -> signed_by_user (TOB (order t)) ->
  tokens_of pairs xs i (negb (is_bid t)) = Ret (tob_asset_in (order t), tob_asset_out (order t)) ->
  let block := tob_valid_for_block (order t) in
  user_address c pairs xs block = Ret (from (order t)) /\
  tob_order_hash c pairs xs block = Ret (order_hash (order t)).
Proof.
  intros Hc (sig & Hs & Hr) Ht block.
  assert (exists g, c = tob_order_of t i g sig) as [g ->].
  { unfold of_tob, of_max_gas in Hc. cbn in Hs. rewrite Hs in Hc. cbn [unwrap mbind outcome_bind] in Hc.
    destruct Hc as [Hc|Hc]; [|apply bind_Ret in Hc as (g & _ & [= <-]); eauto].
    destruct (_ <? _); [done|]. injection Hc as <-. eauto. }
  set (c := tob_order_of t i g sig).
  assert (forall m, exists t', set_meta (TOB (order t)) m = TOB t' /\ tob_rebuilt c pairs xs block m = Ret t')
    as Hre.
  { intros m. eexists. split; [reflexivity|]. unfold tob_rebuilt. cbn. rewrite Ht. cbn.
    by rewrite some_recipient_default. }
  assert (user_address c pairs xs block = Ret (from (order t))) as H1.
  { unfold user_address, tob_signing_hash. destruct (Hre (meta_of 0)) as (t' & Et & ->).
    cbn [mbind outcome_bind]. rewrite <-Et, signing_hash_meta. by apply recover_of_signature. }
  split; [exact H1|]. unfold tob_order_hash, tob_recover_order. rewrite H1. cbn [mbind outcome_bind].
  destruct (Hre (meta_of (from (order t)))) as (t' & Et & ->). cbn [mbind outcome_bind]. f_equal.
  transitivity (order_hash (TOB t')); [done|]. rewrite <-Et.
  exact (order_hash_set_meta (TOB (order t))).
Qed.

(** An order with another reference is not recovered: the order of the contract
    carries the reference 0, whatever the user signed. *)
Lemma reference_lost o out i u pairs xs block a :
  from_internal_order_max_gas o out i = Ret u -> order_ref_id (order o) <> 0 ->
  user_recover_order u pairs xs block = Ret a -> a <> set_meta (order o) (order_meta a).
Proof.
  intros Hu Href Ha Heq. unfold user_recover_order in Ha. apply bind_Ret in Ha as (f & _ & Ha).
  destruct (from_internal_made o out i u (or_intror Hu)) as (parts & g & sig & Hp & Hu' & _). clear Hu. rename Hu' into Hu. unfold user_order_of in Hu.
  destruct parts as [[[qs sv] r] h]. apply bind_Ret in Hu as (s & _ & Hu).
  apply bind_Ret in Hu as (lp & _ & [= <-]). unfold rebuilt in Ha.
  apply bind_Ret in Ha as ([ai ao] & _ & [= <-]). cbn in Heq.
  destruct qs, sv; cbn in Heq; destruct (order o); cbn in Heq, Href; congruence.
Qed.
End payload.

(** ** A concrete order *)

(** A signature scheme in which every signature is the one of user 2. *)
Definition sample_crypto : @OrderCrypto sample_hasher.
Proof.
  refine {|
    no_meta_eip712_signing_hash := fun o => @unique_order_hash sample_hasher o 0;
    pade_decode_signature := fun _ => Some {| sig_r := 2; sig_s := 1; sig_y_parity := true |};
    recover_address := fun s _ => Some (sig_r s);
    normalize_v := fun v => if v =? 27 then Some false else if v =? 28 then Some true else None
  |}; try reflexivity; by intros [].
Defined.

Section payload_examples.
#[local] Existing Instance arith_Z.
#[local] Existing Instance sample_hasher.
#[local] Existing Instance sample_crypto.

(** The bid of user 2 for asset 1, with the reference 0. *)
Definition sample_bid : BookOrder := sample_limit 0 2 3 4 10.

Definition sample_pairs : list Pair :=
  [{| index0 := 0; index1 := 1; store_index := 0; price_1over0 := 5 |}].

Definition sample_assets : list Asset :=
  (fun a => {| addr := a; save := 0; take := 0; settle := 0 |}) <$> [1; 2].

Definition sample_outcome : OrderOutcome :=
  {| oo_id := order_id sample_bid; oo_outcome := CompleteFill |}.

Lemma user_order_recovered_witness : exists u,
  from_internal_order sample_bid sample_outcome 0 = Ret (Ok u) /\
  user_recover_order u sample_pairs sample_assets 9 = Ret (set_meta (order sample_bid) (meta_of 2)) /\
  user_order_hash u sample_pairs sample_assets 9 = Ret (order_hash (order sample_bid)).
Proof.
  destruct (from_internal_order sample_bid sample_outcome 0) as [[u|e]|] eqn:Hu;
    [|vm_compute in Hu; discriminate..].
  exists u. split; [reflexivity|].
  refine (proj2 (user_order_recovered sample_bid sample_outcome 0 u sample_pairs sample_assets 9
    (or_introl Hu) _ _ _ _)).
  - exists {| sig_r := 2; sig_s := 1; sig_y_parity := true |}. split; reflexivity.
  - reflexivity.
  - intros b Hb. vm_compute in Hb. discriminate.
  - reflexivity.
Defined.
End payload_examples.
