(* ===== verification/OrderKeys.v ===== *)
(** * Orders as keys of hash sets

    The stored orders of the node are compared field by field ([derive(PartialEq,
    Eq)] of [OrderWithStorageData] and of the orders in it), so a [HashSet] of them
    is a [gset].  The file holds the encodings that make them countable: a record
    is encoded as the list of the codes of its fields, so that a code is as long as
    its fields are. *)

From S2P Require Import Prelude Ray Orders ConsensusTypes.

#[export] Instance OrderMeta_countable : Countable OrderMeta.
Proof.
  refine (inj_countable
    (fun p => [encode (isEcdsa p); encode (meta_from p); encode (meta_signature p)])
    (fun l => match l with
      | [a; b; c] =>
        a ← decode a; b ← decode b; c ← decode c;
        Some (Build_OrderMeta a b c)
      | _ => None end) _).
  intros []. cbn. by rewrite !decode_encode.
Defined.

#[export] Instance ExactStandingOrder_eq_dec : EqDecision ExactStandingOrder.
Proof. solve_decision. Defined.

#[export] Instance ExactStandingOrder_countable : Countable ExactStandingOrder.
Proof.
  refine (inj_countable
    (fun p => [encode (es_ref_id p); encode (es_exact_in p); encode (es_amount p);
      encode (es_max_extra_fee_asset0 p); encode (es_min_price p); encode (es_use_internal p);
      encode (es_asset_in p); encode (es_asset_out p); encode (es_recipient p);
      encode (es_hook_data p); encode (es_nonce p); encode (es_deadline p); encode (es_meta p)])
    (fun l => match l with
      | [a; b; c; d; e; f; g; h; i; j; k; l; m] =>
        a ← decode a; b ← decode b; c ← decode c; d ← decode d; e ← decode e; f ← decode f;
        g ← decode g; h ← decode h; i ← decode i; j ← decode j; k ← decode k; l ← decode l;
        m ← decode m;
        Some (Build_ExactStandingOrder a b c d e f g h i j k l m)
      | _ => None end) _).
  intros []. cbn. by rewrite !decode_encode.
Defined.

#[export] Instance PartialStandingOrder_eq_dec : EqDecision PartialStandingOrder.
Proof. solve_decision. Defined.

#[export] Instance PartialStandingOrder_countable : Countable PartialStandingOrder.
Proof.
  refine (inj_countable
    (fun p => [encode (ps_ref_id p); encode (ps_min_amount_in p); encode (ps_max_amount_in p);
      encode (ps_max_extra_fee_asset0 p); encode (ps_min_price p); encode (ps_use_internal p);
      encode (ps_asset_in p); encode (ps_asset_out p); encode (ps_recipient p);
      encode (ps_hook_data p); encode (ps_nonce p); encode (ps_deadline p); encode (ps_meta p)])
    (fun l => match l with
      | [a; b; c; d; e; f; g; h; i; j; k; l; m] =>
        a ← decode a; b ← decode b; c ← decode c; d ← decode d; e ← decode e; f ← decode f;
        g ← decode g; h ← decode h; i ← decode i; j ← decode j; k ← decode k; l ← decode l;
        m ← decode m;
        Some (Build_PartialStandingOrder a b c d e f g h i j k l m)
      | _ => None end) _).
  intros []. cbn. by rewrite !decode_encode.
Defined.

#[export] Instance ExactFlashOrder_eq_dec : EqDecision ExactFlashOrder.
Proof. solve_decision. Defined.

#[export] Instance ExactFlashOrder_countable : Countable ExactFlashOrder.
Proof.
  refine (inj_countable
    (fun p => [encode (ef_ref_id p); encode (ef_exact_in p); encode (ef_amount p);
      encode (ef_max_extra_fee_asset0 p); encode (ef_min_price p); encode (ef_use_internal p);
      encode (ef_asset_in p); encode (ef_asset_out p); encode (ef_recipient p);
      encode (ef_hook_data p); encode (ef_valid_for_block p); encode (ef_meta p)])
    (fun l => match l with
      | [a; b; c; d; e; f; g; h; i; j; k; l] =>
        a ← decode a; b ← decode b; c ← decode c; d ← decode d; e ← decode e; f ← decode f;
        g ← decode g; h ← decode h; i ← decode i; j ← decode j; k ← decode k; l ← decode l;
        Some (Build_ExactFlashOrder a b c d e f g h i j k l)
      | _ => None end) _).
  intros []. cbn. by rewrite !decode_encode.
Defined.

#[export] Instance PartialFlashOrder_eq_dec : EqDecision PartialFlashOrder.
Proof. solve_decision. Defined.

#[export] Instance PartialFlashOrder_countable : Countable PartialFlashOrder.
Proof.
  refine (inj_countable
    (fun p => [encode (pf_ref_id p); encode (pf_min_amount_in p); encode (pf_max_amount_in p);
      encode (pf_max_extra_fee_asset0 p); encode (pf_min_price p); encode (pf_use_internal p);
      encode (pf_asset_in p); encode (pf_asset_out p); encode (pf_recipient p);
      encode (pf_hook_data p); encode (pf_valid_for_block p); encode (pf_meta p)])
    (fun l => match l with
      | [a; b; c; d; e; f; g; h; i; j; k; l] =>
        a ← decode a; b ← decode b; c ← decode c; d ← decode d; e ← decode e; f ← decode f;
        g ← decode g; h ← decode h; i ← decode i; j ← decode j; k ← decode k; l ← decode l;
        Some (Build_PartialFlashOrder a b c d e f g h i j k l)
      | _ => None end) _).
  intros []. cbn. by rewrite !decode_encode.
Defined.

#[export] Instance TopOfBlockOrder_countable : Countable TopOfBlockOrder.
Proof.
  refine (inj_countable
    (fun p => [encode (tob_quantity_in p); encode (tob_quantity_out p); encode (tob_max_gas_asset0 p);
      encode (tob_use_internal p); encode (tob_asset_in p); encode (tob_asset_out p);
      encode (tob_recipient p); encode (tob_valid_for_block p); encode (tob_meta p)])
    (fun l => match l with
      | [a; b; c; d; e; f; g; h; i] =>
        a ← decode a; b ← decode b; c ← decode c; d ← decode d; e ← decode e; f ← decode f;
        g ← decode g; h ← decode h; i ← decode i;
        Some (Build_TopOfBlockOrder a b c d e f g h i)
      | _ => None end) _).
  intros []. cbn. by rewrite !decode_encode.
Defined.

#[export] Instance AllOrders_eq_dec : EqDecision AllOrders.
Proof. solve_decision. Defined.

#[export] Instance AllOrders_countable : Countable AllOrders.
Proof.
  apply (inj_countable'
    (fun o => match o with
      | ExactStanding p => inl (inl p) | PartialStanding p => inl (inr p)
      | ExactFlash p => inr (inl p) | PartialFlash p => inr (inr (inl p)) | TOB t => inr (inr (inr t)) end)
    (fun s => match s with
      | inl (inl p) => ExactStanding p | inl (inr p) => PartialStanding p
      | inr (inl p) => ExactFlash p | inr (inr (inl p)) => PartialFlash p | inr (inr (inr t)) => TOB t end)).
  by intros [].
Defined.

#[export] Instance UserOrderPoolInfo_countable : Countable UserOrderPoolInfo.
Proof.
  apply (inj_countable' (fun i => (upi_token i, upi_is_bid i, upi_pool_id i))
    (fun '(a, b, c) => Build_UserOrderPoolInfo a b c)). by intros [].
Defined.

#[export] Instance UserAccountVerificationError_countable : Countable UserAccountVerificationError.
Proof.
  apply (inj_countable'
    (fun e => match e with
      | InvalidToBSwap s => inl (inl s)
      | CouldNotFetch s => inl (inr (inl s))
      | AccountUnknown s => inl (inr (inr s))
      | BlockMissMatch r c i => inr (inl (r, c, i))
      | OrderIsCancelled h => inr (inr (0, h, 0, 0, 0)%Z)
      | DuplicateNonce h => inr (inr (1, h, 0, 0, 0)%Z)
      | BadBlock n r => inr (inr (2, n, r, 0, 0)%Z)
      | NonEmptyHook => inr (inr (3, 0, 0, 0, 0)%Z)
      | InsufficientApproval h t a => inr (inr (4, h, t, a, 0)%Z)
      | InsufficientBalance h t a => inr (inr (5, h, t, a, 0)%Z)
      | InsufficientBoth h t a b => inr (inr (6, h, t, a, b)%Z)
      | AccountNotEnoughGas a b => inr (inr (7, a, b, 0, 0)%Z)
      end)
    (fun s => match s with
      | inl (inl s) => InvalidToBSwap s
      | inl (inr (inl s)) => CouldNotFetch s
      | inl (inr (inr s)) => AccountUnknown s
      | inr (inl (r, c, i)) => BlockMissMatch r c i
      | inr (inr (0, h, _, _, _)%Z) => OrderIsCancelled h
      | inr (inr (1, h, _, _, _)%Z) => DuplicateNonce h
      | inr (inr (2, n, r, _, _)%Z) => BadBlock n r
      | inr (inr (4, h, t, a, _)%Z) => InsufficientApproval h t a
      | inr (inr (5, h, t, a, _)%Z) => InsufficientBalance h t a
      | inr (inr (6, h, t, a, b)%Z) => InsufficientBoth h t a b
      | inr (inr (7, a, b, _, _)%Z) => AccountNotEnoughGas a b
      | _ => NonEmptyHook
      end)).
  by intros [].
Defined.

#[export] Instance OrderWithStorageData_countable `{Countable T} : Countable (OrderWithStorageData T).
Proof.
  refine (inj_countable
    (fun p => [encode (order p); encode (priority_data p); encode (invalidates p); encode (pool_id p);
      encode (is_currently_valid p); encode (is_bid p); encode (is_valid p); encode (valid_block p);
      encode (order_id p); encode (tob_reward p); encode (cancel_requested p)])
    (fun l => match l with
      | [a; b; c; d; e; f; g; h; i; j; k] =>
        a ← decode a; b ← decode b; c ← decode c; d ← decode d; e ← decode e; f ← decode f;
        g ← decode g; h ← decode h; i ← decode i; j ← decode j; k ← decode k;
        Some (Build_OrderWithStorageData a b c d e f g h i j k)
      | _ => None end) _).
  intros []. cbn. by rewrite !decode_encode.
Defined.
