(* ===== verification/Bundle.v ===== *)
(** * Building bundles

    The model of [crates/types/src/traits/bundles.rs] and of
    [OrderSet::into_book_and_searcher] ([primitives/src/orders/order_set.rs]): how
    the solutions of the pools and the orders of the pool become a bundle.

    A function that can fail in the source returns a [result] inside [outcome]: a
    panic of the source is [Panic], an error it returns is [Err]. *)

From S2P Require Import Prelude Ray Orders Samples Storage Rules Accounts Pool Donation Book ConsensusTypes Delta Assets Payload OrderKeys.
Open Scope Z_scope.

Definition u16_wrap (z : Z) : Z := z mod 2 ^ 16.

(** The [?] operator. *)
Definition and_try {A B E} (m : outcome (result A E)) (k : A -> outcome (result B E)) : outcome (result B E) :=
  x ← m; match x with Ok a => k a | Err e => Ret (Err e) end.

Declare Scope bundle_scope.
Notation "x <-? m ; k" := (and_try m (fun x => k))
  (at level 20, m at level 100, k at level 200, right associativity, only parsing) : bundle_scope.
Notation "' x <-? m ; k" := (and_try m (fun y => let x := y in k))
  (at level 20, x pattern, m at level 100, k at level 200, right associativity, only parsing) : bundle_scope.
Open Scope bundle_scope.

(** ** The share of the liquidity providers *)

(** The nearest multiple of [2 ^ e], the even one of two. *)
Definition round_half_even (e n : Z) : Z :=
  let q := n / 2 ^ e in
  let r := n mod 2 ^ e in
  let up := (2 ^ e <? 2 * r) || ((2 * r =? 2 ^ e) && Z.odd q) in
  (if up then q + 1 else q) * 2 ^ e.

(** The 64-bit float nearest to an integer: 53 significant bits. *)
Definition round53 (n : Z) : Z := round_half_even (Z.max 0 (Z.log2 n - 52)) n.

(** [(fees as f64 * LP_DONATION_SPLIT) as u128] with a split of [0.75]. *)
Definition lp_split (fees : u128) : u128 := round53 (3 * round53 fees) / 4.

(** ** The bundle under construction *)

(** The variables that [process_solution] gets by reference. *)
Record Building := {
  bl_pairs : list Pair;
  bl_assets : AssetBuilder;
  bl_users : list UserOrder;
  bl_tobs : list ContractToB;
  bl_updates : list PoolUpdate
}.

Definition empty_building (b : AssetBuilder) : Building :=
  {| bl_pairs := []; bl_assets := b; bl_users := []; bl_tobs := []; bl_updates := [] |}.

Definition bundle_of (bl : Building) : AngstromBundle :=
  {| bundle_assets := Builder.get_asset_array (bl_assets bl); bundle_pairs := bl_pairs bl;
     pool_updates := bl_updates bl; top_of_block_orders := bl_tobs bl; user_orders := bl_users bl |}.

(** The orders of the pools, and the pools with their tokens, AMM and index in the
    contract. *)
Abbreviation OrdersByPool := (gmap PoolId (gset BookOrder)) (only parsing).
Abbreviation Pools := (gmap PoolId (Address * Address * BaselinePoolState * Z)) (only parsing).
(** Token to user to amount. *)
Abbreviation Amounts := (gmap Address (gmap Address u128)) (only parsing).

Section bundle.
Context `{HI : HashIter} `{AL : ArithLib} `{OH : OrderHasher} `{SR : SqrtRatios} `{TL : TickLib}
  `{RH : RewardHasher} `{OC : !OrderCrypto} `{SL : SortLib}.
Implicit Types (o : BookOrder) (bl : Building) (s : PoolSolution) (out : OrderOutcome).

(** ** Orders by pool *)

Definition into_book_and_searcher (orders : Storage.OrderSet) (valid_limit valid_searcher : list B256)
    : list BookOrder * list (OrderWithStorageData TopOfBlockOrder) :=
  (filter (fun o => id_hash (order_id o) ∈ valid_limit) (Storage.limit orders),
   filter (fun t => id_hash (order_id t) ∈ valid_searcher) (Storage.searcher orders)).

Definition orders_by_pool (l : list BookOrder) : OrdersByPool :=
  foldl (fun m o => <[pool_id o := {[o]} ∪ default ∅ (m !! pool_id o)]> m) ∅ l.

Definition orders_by_pool_from_pre_proposals (pre_proposals : list PreProposal) (orders : Storage.OrderSet)
    : OrdersByPool :=
  let valid_limit := pre_proposals ≫= pp_limit in
  orders_by_pool (into_book_and_searcher orders valid_limit []).1.

Definition bids_then_asks o o' : comparison :=
  match is_bid o, is_bid o' with
  | true, true => priority_cmp (priority_data o') (priority_data o)
  | false, false => priority_cmp (priority_data o) (priority_data o')
  | b, b' => bool_cmp b' b
  end.

(** The orders and the gas of a solution. *)
Definition solution_orders_and_gas (obp : OrdersByPool) s : option (u64 * u64) :=
  match obp !! sol_id s with
  | None => (fun t => (1, gas_units (priority_data t))) <$> sol_searcher s
  | Some set =>
      let order_list := sort_by bids_then_asks (hs_iter set) in
      let filled := filter (fun x => outcome_is_filled x.1 = true) (zip (sol_limit s) order_list) in
      let '(cnt, total_gas) := foldl (fun '(c, g) x =>
        (u64_wrap (c + 1), u64_wrap (g + gas_units (priority_data x.2)))) (0, 0) filled in
      Some match sol_searcher s with
      | Some t => (u64_wrap (cnt + 1), u64_wrap (total_gas + gas_units (priority_data t)))
      | None => (cnt, total_gas)
      end
  end.

Definition fetch_total_orders_and_gas_delegated_to_orders (obp : OrdersByPool) (sols : list PoolSolution)
    : u64 * u64 :=
  foldl (fun '(cnt, tg) x => (u64_wrap (cnt + x.1), u64_wrap (tg + x.2))) (0, 0)
    (omap (solution_orders_and_gas obp) sols).

(** ** One user order *)

(** The quantities that an order brings in and takes out, and its fee. *)
Definition order_flows out o (ucp : Ray) (fee : u32) : outcome (u128 * u128 * u128) :=
  g ← uint_to_u128 (gas (priority_data o));
  '(t1, t0_net, t0_fee) ← get_quantities_at_price (raw_is_bid (order o)) (exact_in (order o))
    (fill_amount out (amount (order o))) g fee ucp;
  Ret (if raw_is_bid (order o) then (t1, t0_net, t0_fee)
       else (u128_wrap (u128_wrap (t0_net + t0_fee) + g), t1, t0_fee)).

(** The contract order: with its own gas when gas is shared, [max_gas] otherwise. *)
Definition contract_order (shared : bool) out o (pair_idx : nat) : outcome (result UserOrder BundleError) :=
  if shared then from_internal_order o out (u16_wrap (Z.of_nat pair_idx))
  else u ← from_internal_order_max_gas o out (u16_wrap (Z.of_nat pair_idx)); Ret (Ok u).

Definition push_user bl u (b : AssetBuilder) : Building :=
  {| bl_pairs := bl_pairs bl; bl_assets := b; bl_users := bl_users bl ++ [u]; bl_tobs := bl_tobs bl;
     bl_updates := bl_updates bl |}.

Definition apply_user_order out (oo : option BookOrder) (ucp : Ray) (fee : u32) (shared : bool)
    (pair_idx : nat) bl : outcome (result (Building * u128) BundleError) :=
  o ← unwrap oo;
  _ ← assert (id_hash (oo_id out) =? id_hash (order_id o));
  '(quantity_in, quantity_out, t0_fee) ← order_flows out o ucp fee;
  u <-? contract_order shared out o pair_idx;
  Ret (Ok (push_user bl u (Builder.external_swap (bl_assets bl) StUserOrder (token_in (order o))
             (token_out (order o)) quantity_in quantity_out), t0_fee)).

(** [HashMap::collect] over the orders of a pool. *)
Definition order_list (obp : OrdersByPool) (id : PoolId) : gmap OrderId BookOrder :=
  foldl (fun m o => <[order_id o := o]> m) ∅ (hs_iter (default ∅ (obp !! id))).

Definition u128_sat_add (a b : u128) : u128 := Z.min u128_max (a + b).

(** The loop over the outcomes: each takes its order out of the list. *)
Fixpoint apply_limit (outs : list OrderOutcome) (l : gmap OrderId BookOrder) (ucp : Ray) (fee : u32)
    (shared : bool) (pair_idx : nat) bl (fees : u128) : outcome (result (Building * u128) BundleError) :=
  match outs with
  | [] => Ret (Ok (bl, fees))
  | out :: outs' =>
      let oo := l !! oo_id out in
      let l' := delete (oo_id out) l in
      if outcome_is_filled out && bool_decide (is_Some oo) then
        '(bl', t0_fee) <-? apply_user_order out oo ucp fee shared pair_idx bl;
        apply_limit outs' l' ucp fee shared pair_idx bl' (u128_sat_add fees t0_fee)
      else apply_limit outs' l' ucp fee shared pair_idx bl fees
  end.

(** ** One solution *)

Definition push_tob bl c (b : AssetBuilder) : Building :=
  {| bl_pairs := bl_pairs bl; bl_assets := b; bl_users := bl_users bl; bl_tobs := bl_tobs bl ++ [c];
     bl_updates := bl_updates bl |}.

(** The top-of-block order of a solution. *)
Definition apply_tob (shared : bool) (t0 : Address) (pair_idx : nat)
    (t : OrderWithStorageData TopOfBlockOrder) bl : outcome (result Building BundleError) :=
  let b := Builder.external_swap (bl_assets bl) StTopOfBlock (tob_asset_in (order t))
    (tob_asset_out (order t)) (tob_quantity_in (order t)) (tob_quantity_out (order t)) in
  let i := u16_wrap (Z.of_nat pair_idx) in
  if shared then
    c <-? of_tob t i;
    Ret (Ok (push_tob bl c (Builder.add_gas_fee b StTopOfBlock t0 (ct_gas_used_asset_0 c))))
  else
    g ← uint_to_u128 (gas (priority_data t));
    c ← of_max_gas t i;
    Ret (Ok (push_tob bl c (Builder.add_gas_fee b StTopOfBlock t0 g))).

(** The swap and the reward of the top-of-block order; an error is logged. *)
Definition tob_swap_info s (snapshot : BaselinePoolState) : outcome (option (PoolSwapResult * u128)) :=
  match sol_searcher s with
  | None => Ret None
  | Some t =>
      res ← calc_vec_and_reward t snapshot;
      Ret match res with Ok x => Some x | Err _ => None end
  end.

(** The price of the pair: the clearing price, or else where the top of the block
    leaves the AMM. *)
Definition pair_price s (info : option (PoolSwapResult * u128)) : outcome Ray :=
  match info with
  | Some (v, _) => if sol_ucp s =? 0 then ray_of_sqrt (end_price v) else Ret (sol_ucp s)
  | None => Ret (sol_ucp s)
  end.

Definition book_swap s (info : option (PoolSwapResult * u128)) (snapshot : BaselinePoolState)
    : outcome (option PoolSwapResult) :=
  if sol_ucp s =? 0 then Ret None
  else
    target ← sqrt_of_ray (sol_ucp s);
    res ← swap_to_price (match info with Some (v, _) => v | None => noop snapshot end) target;
    match res with Ok v => Ret (Some v) | Err _ => Panic end.

(** [Option::map] of a function that can panic. *)
Definition map_outcome {A B} (f : A -> outcome B) (x : option A) : outcome (option B) :=
  match x with None => Ret None | Some a => b ← f a; Ret (Some b) end.

(** The donation of the top of the block, then the one of the book. *)
Definition donation_of (book : option PoolSwapResult) (info : option (PoolSwapResult * u128)) (amount : u128)
    : outcome (option DonationCalculation) :=
  book_vec ← map_outcome (fun v => t0_donation_vec v amount) book;
  tob_vec ← map_outcome (fun x => t0_donation_vec x.1 x.2) info;
  match book_vec, tob_vec with
  | Some bsv, Some tob => c ← from_vec tob; Ret (Some (add_donations c bsv))
  | Some bsv, None => c ← from_vec bsv; Ret (Some c)
  | None, Some tob => c ← from_vec tob; Ret (Some c)
  | None, None => Ret None
  end.

(** The one swap that the contract runs for the pool. *)
Definition net_pool_vec (book : option PoolSwapResult) (info : option (PoolSwapResult * u128))
    (snapshot : BaselinePoolState) : outcome PoolSwapResult :=
  match info with
  | Some (v, _) =>
      let net_t0 := i256_wrap (default 0 (t0_signed <$> book) + t0_signed v) in
      let net_t1 := i256_wrap (default 0 (t1_signed <$> book) + t1_signed v) in
      let dir := net_t0 <? 0 in
      let amount_in := if dir then Z.abs net_t0 else Z.abs net_t1 in
      res ← swap_current_with_amount snapshot (i256_from_raw amount_in) dir;
      match res with Ok r => Ret r | Err _ => Panic end
  | None => Ret (default (noop snapshot) book)
  end.

(** The updates of a pool: the swap with its rewards, and the rewards of the other
    side of it. *)
Definition updates_of (net : PoolSwapResult) (i : Z) (rewards : RewardsUpdate * option RewardsUpdate)
    : list PoolUpdate :=
  {| pu_zero_for_one := zero_for_one net; pu_pair_index := i; swap_in_quantity := input net;
     rewards_update := rewards.1 |} ::
  match rewards.2 with
  | Some r => [{| pu_zero_for_one := false; pu_pair_index := i; swap_in_quantity := 0; rewards_update := r |}]
  | None => []
  end.

(** The accounting of the swap, of the rewards and of what the node saves. *)
Definition account_pool (b : AssetBuilder) (net : PoolSwapResult) (t0 : Address) (t0_idx t1_idx : Z)
    (total_donation save_amount : u128) : AssetBuilder :=
  let '(i, j) := if zero_for_one net then (t0_idx, t1_idx) else (t1_idx, t0_idx) in
  let b := Builder.uniswap_swap b StSwap (Z.to_nat i) (Z.to_nat j) (input net) (output net) in
  let b := Builder.allocate b StReward t0 total_donation in
  let b := Builder.allocate b StReward t0 save_amount in
  Builder.add_gas_fee b StReward t0 save_amount.

(** What the pool of a solution does: the net swap, the donated total and the
    rewards. *)
Definition settle_pool s (snapshot : BaselinePoolState) (info : option (PoolSwapResult * u128)) (lp : u128)
    : outcome (PoolSwapResult * u128 * (RewardsUpdate * option RewardsUpdate)) :=
  book ← book_swap s info snapshot;
  let amount := u128_wrap (sol_reward_t0 s + lp) in
  don ← donation_of book info amount;
  let total_donation := match don with Some d => total_donated d | None => amount end in
  net ← net_pool_vec book info snapshot;
  rewards ← match don with
            | Some d => into_reward_updates d
            | None => Ret (CurrentOnly total_donation (start_liquidity (pool_liquidity snapshot)), None)
            end;
  Ret (net, total_donation, rewards).

Definition set_assets bl (b : AssetBuilder) : Building :=
  {| bl_pairs := bl_pairs bl; bl_assets := b; bl_users := bl_users bl; bl_tobs := bl_tobs bl;
     bl_updates := bl_updates bl |}.

Definition process_solution (obp : OrdersByPool) s (snapshot : BaselinePoolState) (t0 t1 : Address)
    (store_idx : Z) (shared : bool) bl : outcome (result Building BundleError) :=
  let '(b, i0) := Builder.add_or_get_asset (bl_assets bl) t0 in
  let '(b, i1) := Builder.add_or_get_asset b t1 in
  let bl := set_assets bl b in
  let t0_idx := u16_wrap (Z.of_nat i0) in
  let t1_idx := u16_wrap (Z.of_nat i1) in
  let pair_idx := length (bl_pairs bl) in
  bl <-? match sol_searcher s with
         | Some t => apply_tob shared t0 pair_idx t bl
         | None => Ret (Ok bl)
         end;
  '(bl, total_user_fees) <-? apply_limit (sol_limit s) (order_list obp (sol_id s)) (sol_ucp s) (sol_fee s)
    shared pair_idx bl 0;
  info ← tob_swap_info s snapshot;
  price ← pair_price s info;
  let lp := lp_split total_user_fees in
  let save_amount := u128_wrap (total_user_fees - lp) in
  '(net, total_donation, rewards) ← settle_pool s snapshot info lp;
  Ret (Ok {|
    bl_pairs := bl_pairs bl ++
      [{| index0 := t0_idx; index1 := t1_idx; store_index := store_idx; price_1over0 := price |}];
    bl_assets := account_pool (bl_assets bl) net t0 t0_idx t1_idx total_donation save_amount;
    bl_users := bl_users bl; bl_tobs := bl_tobs bl;
    bl_updates := bl_updates bl ++ updates_of net (u16_wrap (Z.of_nat pair_idx)) rewards |}).

(** ** Bundles of a proposal *)

Definition add_tokens (pools : Pools) (b : AssetBuilder) s : AssetBuilder :=
  match pools !! sol_id s with
  | Some (t0, t1, _, _) => (Builder.add_or_get_asset (Builder.add_or_get_asset b t0).1 t1).1
  | None => b
  end.

(** The assets of all solutions, in the order the contract wants. *)
Definition index_assets (pools : Pools) (sols : list PoolSolution) : AssetBuilder :=
  Builder.order_assets_properly (foldl (add_tokens pools) Builder.new sols).

(** The key of [sorted_unstable_by_key]; the assets are in the builder already, so
    [add_or_get_asset] reads their index. *)
Definition solution_key (pools : Pools) (b : AssetBuilder) s : Z :=
  match pools !! sol_id s with
  | Some (t0, t1, _, _) =>
      Z.lor (Z.shiftl (Z.of_nat (Builder.add_or_get_asset b t0).2) 16)
        (Z.of_nat (Builder.add_or_get_asset b t1).2)
  | None => 0
  end.

Definition sort_solutions (pools : Pools) (b : AssetBuilder) (sols : list PoolSolution) : list PoolSolution :=
  sort_unstable_by (fun s s' => solution_key pools b s ?= solution_key pools b s') sols.

Fixpoint process_solutions (pools : Pools) (obp : OrdersByPool) (shared : bool) (sols : list PoolSolution) bl
    : outcome (result Building BundleError) :=
  match sols with
  | [] => Ret (Ok bl)
  | s :: sols' =>
      match pools !! sol_id s with
      | None => process_solutions pools obp shared sols' bl
      | Some (t0, t1, snapshot, store_idx) =>
          bl' <-? process_solution obp s snapshot t0 t1 store_idx shared bl;
          process_solutions pools obp shared sols' bl'
      end
  end.

(** The part that [from_proposal] and [for_gas_finalization] share. *)
Definition build_bundle (pools : Pools) (obp : OrdersByPool) (shared : bool) (sols : list PoolSolution)
    : outcome (result AngstromBundle BundleError) :=
  let b := index_assets pools sols in
  bl <-? process_solutions pools obp shared (sort_solutions pools b sols) (empty_building b);
  Ret (Ok (bundle_of bl)).

Definition from_proposal (p : Proposal) (orders : Storage.OrderSet) (pools : Pools)
    : outcome (result AngstromBundle BundleError) :=
  let obp := orders_by_pool_from_pre_proposals (flattened_pre_proposals p) orders in
  let '(total_swaps, _) := fetch_total_orders_and_gas_delegated_to_orders obp (prop_solutions p) in
  if total_swaps =? 0 then Ret (Err NoSwaps)
  else build_bundle pools obp true (prop_solutions p).

Definition for_gas_finalization (limit : list BookOrder) (sols : list PoolSolution) (pools : Pools)
    : outcome (result AngstromBundle BundleError) :=
  build_bundle pools (orders_by_pool limit) false sols.

(** ** Bundles that measure gas *)

(** The tokens in the order of their addresses. *)
Definition sorted_tokens (a b : Address) : Address * Address := if a <? b then (a, b) else (b, a).

Definition dummy_pair (tokens : Address * Address) (price : U256) : AssetBuilder * Pair :=
  let '(b, i0) := Builder.add_or_get_asset Builder.new tokens.1 in
  let '(b, i1) := Builder.add_or_get_asset b tokens.2 in
  (b, {| index0 := u16_wrap (Z.of_nat i0); index1 := u16_wrap (Z.of_nat i1); store_index := 0;
         price_1over0 := price |}).

Definition build_dummy_for_tob_gas (t : OrderWithStorageData TopOfBlockOrder) : outcome AngstromBundle :=
  let '(b, pr) := dummy_pair (sorted_tokens (token_in (order t)) (token_out (order t))) 1 in
  let b := Builder.external_swap b StTopOfBlock (token_in (order t)) (token_out (order t))
    (tob_quantity_in (order t)) (tob_quantity_out (order t)) in
  c ← of_max_gas t 0;
  Ret {| bundle_assets := Builder.get_asset_array b; bundle_pairs := [pr]; pool_updates := [];
         top_of_block_orders := [c]; user_orders := [] |}.

Definition build_dummy_for_user_gas o : outcome AngstromBundle :=
  lp ← limit_price (order o);
  let '(b, pr) := dummy_pair (sorted_tokens (token_in (order o)) (token_out (order o))) lp in
  u ← from_internal_order_max_gas o {| oo_id := order_id o; oo_outcome := CompleteFill |} 0;
  Ret {| bundle_assets := Builder.get_asset_array b; bundle_pairs := [pr]; pool_updates := [];
         top_of_block_orders := []; user_orders := [u] |}.

(** ** What a bundle needs of its users *)

Record TestnetStateOverrides := {
  approvals : Amounts;
  balances : Amounts;
  angstrom_balances : Amounts
}.

(** [entry(token).or_default().entry(address).and_modify(saturating_add).or_insert]. *)
Definition add_amount (m : Amounts) (token user : Address) (qty : u128) : Amounts :=
  let inner := default ∅ (m !! token) in
  <[token := <[user := match inner !! user with Some q => u128_sat_add q qty | None => qty end]> inner]> m.

Definition add_override (internal : bool) (token user : Address) (qty : u128) (v : TestnetStateOverrides)
    : TestnetStateOverrides :=
  if internal then
    {| approvals := approvals v; balances := balances v;
       angstrom_balances := add_amount (angstrom_balances v) token user qty |}
  else
    {| approvals := add_amount (approvals v) token user qty; balances := add_amount (balances v) token user qty;
       angstrom_balances := angstrom_balances v |}.

(** What a user order takes from its user: the internal flag, the token, the user
    and the quantity. *)
Definition user_need (b : AngstromBundle) (block : u64) (u : UserOrder)
    : outcome (bool * Address * Address * u128) :=
  '(token, _) ← tokens_of (bundle_pairs b) (bundle_assets b) (uo_pair_index u) (uo_zero_for_one u);
  user ← user_recover_signer u (bundle_pairs b) (bundle_assets b) block;
  p ← pair_at (bundle_pairs b) (uo_pair_index u);
  let price := price_1over0 p in
  let q := fetch_max_amount (uo_order_quantities u) in
  qty ← match uo_zero_for_one u, uo_exact_in u with
        | true, false => x ← inverse_quantity price q true; Ret (u128_wrap (x + uo_extra_fee_asset0 u))
        | false, false => quantity price (u128_wrap (q + uo_extra_fee_asset0 u)) true
        | _, true => Ret q
        end;
  Ret (uo_use_internal u, token, user, qty).

Definition tob_need (b : AngstromBundle) (block : u64) (c : ContractToB)
    : outcome (bool * Address * Address * u128) :=
  '(token, _) ← tokens_of (bundle_pairs b) (bundle_assets b) (ct_pairs_index c) (ct_zero_for_1 c);
  user ← user_address c (bundle_pairs b) (bundle_assets b) block;
  let qty := if ct_zero_for_1 c then u128_wrap (ct_quantity_in c + ct_gas_used_asset_0 c)
             else ct_quantity_in c in
  Ret (ct_use_internal c, token, user, qty).

Definition fetch_needed_overrides (b : AngstromBundle) (block : u64) : outcome TestnetStateOverrides :=
  us ← traverse (user_need b block) (user_orders b);
  ts ← traverse (tob_need b block) (top_of_block_orders b);
  Ret (foldl (fun v '(internal, token, user, qty) => add_override internal token user qty v)
    {| approvals := ∅; balances := ∅; angstrom_balances := ∅ |} (us ++ ts)).
End bundle.
