(* ===== verification/BundleProps.v ===== *)
(** * Bundles are well formed, recoverable and funded

    The properties of [Bundle]: what a bundle that is built holds for every
    solution, that its indices lead where they should, that the orders in it are
    recognised on the chain, and that the amounts it borrows cover its payments. *)

From Stdlib Require Import Sorted.
From S2P Require Import Prelude Ray Orders Samples Storage Rules Accounts Pool Donation Book ConsensusTypes Delta DeltaProps Assets Payload OrderKeys Bundle.
Open Scope Z_scope.

Lemma and_try_Ok {A B E} (m : outcome (result A E)) (k : A -> outcome (result B E)) b :
  and_try m k = Ret (Ok b) -> exists a, m = Ret (Ok a) /\ k a = Ret (Ok b).
Proof.
  unfold and_try. intros (x & Hm & H)%bind_Ret. destruct x as [a|e]; [eauto|discriminate].
Qed.

(** ** The share of the liquidity providers *)

Lemma round_half_even_near e n : 0 <= e -> 2 * Z.abs (round_half_even e n - n) <= 2 ^ e.
Proof.
  intros He. assert (0 < 2 ^ e) as Hp by lia.
  pose proof (Z.div_mod n (2 ^ e) ltac:(lia)) as Hd.
  pose proof (Z.mod_pos_bound n (2 ^ e) Hp) as Hr. unfold round_half_even.
  set (q := n / 2 ^ e) in *. set (r := n mod 2 ^ e) in *. set (d := 2 ^ e) in *.
  destruct (Z.ltb_spec d (2 * r)), (Z.eqb_spec (2 * r) d), (Z.odd q); cbn; lia.
Qed.

(** Rounding to 53 bits changes a number by less than a 2 ^ 52th of it. *)
Lemma round53_near n : 0 <= n -> 2 ^ 53 * Z.abs (round53 n - n) <= n.
Proof.
  intros Hn. unfold round53. destruct (Z.max_spec 0 (Z.log2 n - 52)) as [[Hlt ->]|[Hle ->]].
  - pose proof (round_half_even_near (Z.log2 n - 52) n ltac:(lia)) as H.
    pose proof (Z.log2_spec n ltac:(destruct (Z.eq_dec n 0) as [->|]; [cbn in Hlt; lia|lia])) as [Hl _].
    replace (Z.log2 n) with (52 + (Z.log2 n - 52)) in Hl at 1 by lia.
    rewrite Z.pow_add_r in Hl by lia. set (d := 2 ^ (Z.log2 n - 52)) in *. lia.
  - pose proof (round_half_even_near 0 n ltac:(lia)) as H. change (2 ^ 0) with 1 in H. lia.
Qed.

(** The providers get three quarters of the fees up to the precision of the
    float, and never more than the fees. *)
Lemma lp_split_bounds fees : 0 <= fees ->
  0 <= lp_split fees <= fees /\ 2 ^ 50 * Z.abs (4 * lp_split fees - 3 * fees) <= 2 ^ 52 + fees.
Proof.
  intros Hf. unfold lp_split. pose proof (round53_near fees Hf) as H1. set (x := round53 fees) in *.
  assert (0 <= x) by lia. pose proof (round53_near (3 * x) ltac:(lia)) as H2.
  set (y := round53 (3 * x)) in *. pose proof (Z.div_mod y 4 ltac:(lia)).
  pose proof (Z.mod_pos_bound y 4 ltac:(lia)). lia.
Qed.

(** ** What is placed for a solution *)

(** A user order with its outcome, its flows and the contract order made of it. *)
Record Fill := {
  fi_outcome : OrderOutcome;
  fi_order : BookOrder;
  fi_in : u128;
  fi_out : u128;
  fi_fee : u128;
  fi_user : UserOrder
}.

Record Placed := {
  pl_solution : PoolSolution;
  pl_t0 : Address;
  pl_t1 : Address;
  pl_store : Z;
  pl_snapshot : BaselinePoolState;
  pl_index : Z;
  pl_index0 : Z;
  pl_index1 : Z;
  pl_price : Ray;
  pl_tob : option (OrderWithStorageData TopOfBlockOrder * ContractToB);
  pl_fills : list Fill;
  pl_net : PoolSwapResult;
  pl_donated : u128;
  pl_saved : u128;
  pl_rewards : RewardsUpdate * option RewardsUpdate
}.

Section props.
Context `{HI : HashIter} `{AL : ArithLib} `{OH : OrderHasher} `{SR : SqrtRatios} `{TL : TickLib}
  `{RH : RewardHasher} `{OC : !OrderCrypto} `{SL : SortLib}.
Implicit Types (o : BookOrder) (bl : Building) (s : PoolSolution) (out : OrderOutcome) (x : Fill)
  (pl : Placed) (pools : Pools) (obp : OrdersByPool) (b : AssetBuilder).

(** The calls on the builder for an order and for a solution. *)
Definition fill_op (x : Fill) : BuilderOp :=
  OpExternal StUserOrder (token_in (order (fi_order x))) (token_out (order (fi_order x)))
    (fi_in x) (fi_out x).

Definition tob_ops (t0 : Address) (x : option (OrderWithStorageData TopOfBlockOrder * ContractToB))
    : list BuilderOp :=
  match x with
  | Some (t, c) => [OpExternal StTopOfBlock (tob_asset_in (order t)) (tob_asset_out (order t))
                      (tob_quantity_in (order t)) (tob_quantity_out (order t));
                    OpGasFee StTopOfBlock t0 (ct_gas_used_asset_0 c)]
  | None => []
  end.

Definition pool_ops (pl : Placed) : list BuilderOp :=
  let '(i, j) := if zero_for_one (pl_net pl) then (pl_t0 pl, pl_t1 pl) else (pl_t1 pl, pl_t0 pl) in
  [OpUniswap StSwap i j (input (pl_net pl)) (output (pl_net pl)); OpAllocate StReward (pl_t0 pl) (pl_donated pl);
   OpAllocate StReward (pl_t0 pl) (pl_saved pl); OpGasFee StReward (pl_t0 pl) (pl_saved pl)].

Definition placed_ops (pl : Placed) : list BuilderOp :=
  tob_ops (pl_t0 pl) (pl_tob pl) ++ (fill_op <$> pl_fills pl) ++ pool_ops pl.

Definition placed_pair (pl : Placed) : Pair :=
  {| index0 := pl_index0 pl; index1 := pl_index1 pl; store_index := pl_store pl; price_1over0 := pl_price pl |}.

Definition opt_list {A} (x : option A) : list A := match x with Some a => [a] | None => [] end.

Definition place (bl : Building) (pl : Placed) : Building :=
  {| bl_pairs := bl_pairs bl ++ [placed_pair pl];
     bl_assets := foldl run_op (bl_assets bl) (placed_ops pl);
     bl_users := bl_users bl ++ (fi_user <$> pl_fills pl);
     bl_tobs := bl_tobs bl ++ opt_list (snd <$> pl_tob pl);
     bl_updates := bl_updates bl ++ updates_of (pl_net pl) (pl_index pl) (pl_rewards pl) |}.

(** The orders that the outcomes fill, each taken from the list once. *)
Fixpoint filled_orders (outs : list OrderOutcome) (l : gmap OrderId BookOrder)
    : list (OrderOutcome * BookOrder) :=
  match outs with
  | [] => []
  | out :: outs' =>
      (if outcome_is_filled out then (fun o => (out, o)) <$> opt_list (l !! oo_id out) else []) ++
      filled_orders outs' (delete (oo_id out) l)
  end.

(** ** The steps of the construction *)

Definition fill_made (ucp : Ray) (fee : u32) (shared : bool) (i : nat) x : Prop :=
  order_flows (fi_outcome x) (fi_order x) ucp fee = Ret (fi_in x, fi_out x, fi_fee x) /\
  contract_order shared (fi_outcome x) (fi_order x) i = Ret (Ok (fi_user x)).

Definition total_fees (fees : u128) (xs : list Fill) : u128 := foldl u128_sat_add fees (fi_fee <$> xs).

Lemma apply_user_order_inv out o ucp fee shared i bl bl' q :
  apply_user_order out (Some o) ucp fee shared i bl = Ret (Ok (bl', q)) ->
  exists x, fi_outcome x = out /\ fi_order x = o /\ fi_fee x = q /\ fill_made ucp fee shared i x /\
    bl' = push_user bl (fi_user x) (run_op (bl_assets bl) (fill_op x)).
Proof.
  unfold apply_user_order. cbn [unwrap mbind outcome_bind]. intros (_ & _ & H)%bind_Ret.
  apply bind_Ret in H as ([[qi qo] f] & Hf & H). apply and_try_Ok in H as (u & Hu & [= <- <-]).
  exists {| fi_outcome := out; fi_order := o; fi_in := qi; fi_out := qo; fi_fee := f; fi_user := u |}. done.
Qed.

(** The loop over the outcomes places the orders that they fill. *)
Lemma apply_limit_inv outs l ucp fee shared i bl fees bl' fees' :
  apply_limit outs l ucp fee shared i bl fees = Ret (Ok (bl', fees')) ->
  exists xs, (fun x => (fi_outcome x, fi_order x)) <$> xs = filled_orders outs l /\
    Forall (fill_made ucp fee shared i) xs /\ fees' = total_fees fees xs /\
    bl' = {| bl_pairs := bl_pairs bl; bl_assets := foldl run_op (bl_assets bl) (fill_op <$> xs);
             bl_users := bl_users bl ++ (fi_user <$> xs); bl_tobs := bl_tobs bl; bl_updates := bl_updates bl |}.
Proof.
  revert l bl fees. induction outs as [|out outs IH]; cbn [apply_limit filled_orders]; intros l bl fees H.
  - injection H as <- <-. exists []. cbn. rewrite app_nil_r. by destruct bl.
  - destruct (outcome_is_filled out); cbn [andb] in H;
      [destruct (l !! oo_id out) as [o|] eqn:E; cbn [bool_decide] in H|].
    + rewrite bool_decide_true in H by done. apply and_try_Ok in H as ([bl1 q] & Hx & H).
      apply apply_user_order_inv in Hx as (x & <- & <- & <- & Hok & ->).
      apply IH in H as (xs & Hxs & Hall & -> & ->). exists (x :: xs). cbn. rewrite Hxs, <-app_assoc.
      split; [done|]. split; [by constructor|done].
    + rewrite bool_decide_false in H by (by intros []). by apply IH in H.
    + by apply IH in H.
Qed.

Definition tob_ok (shared : bool) (i : nat) (x : OrderWithStorageData TopOfBlockOrder * ContractToB) : Prop :=
  let j := u16_wrap (Z.of_nat i) in
  if shared then of_tob x.1 j = Ret (Ok x.2) else of_max_gas x.1 j = Ret x.2.

Lemma apply_tob_inv shared t0 i t bl bl' : apply_tob shared t0 i t bl = Ret (Ok bl') ->
  exists c, tob_ok shared i (t, c) /\
    bl' = push_tob bl c (foldl run_op (bl_assets bl) (tob_ops t0 (Some (t, c)))).
Proof.
  unfold apply_tob, tob_ok. destruct shared.
  - intros (c & Hc & [= <-])%and_try_Ok. by exists c.
  - intros (g & Hg & H)%bind_Ret. apply bind_Ret in H as (c & Hc & [= <-]). exists c. split; [done|].
    unfold of_max_gas in Hc. apply bind_Ret in Hc as (sig & _ & Hc). rewrite Hg in Hc. cbn in Hc.
    injection Hc as <-. done.
Qed.

(** What holds of the part of a bundle that is placed for a solution. *)
Record placed_ok obp (shared : bool) (i : nat) pl : Prop := {
  po_index : pl_index pl = u16_wrap (Z.of_nat i);
  po_tob : fst <$> pl_tob pl = sol_searcher (pl_solution pl);
  po_tob_ok : forall y, pl_tob pl = Some y -> tob_ok shared i y;
  po_filled : (fun x => (fi_outcome x, fi_order x)) <$> pl_fills pl =
    filled_orders (sol_limit (pl_solution pl)) (order_list obp (sol_id (pl_solution pl)));
  po_fills : Forall (fill_made (sol_ucp (pl_solution pl)) (sol_fee (pl_solution pl)) shared i) (pl_fills pl);
  po_pool : exists info, tob_swap_info (pl_solution pl) (pl_snapshot pl) = Ret info /\
    pair_price (pl_solution pl) info = Ret (pl_price pl) /\
    settle_pool (pl_solution pl) (pl_snapshot pl) info (lp_split (total_fees 0 (pl_fills pl))) =
      Ret (pl_net pl, pl_donated pl, pl_rewards pl);
  po_saved : pl_saved pl =
    u128_wrap (total_fees 0 (pl_fills pl) - lp_split (total_fees 0 (pl_fills pl)))
}.

(** The orders of a pool are the orders that are for it. *)
Lemma elem_of_orders_by_pool l id o :
  o ∈ default ∅ (orders_by_pool l !! id) <-> o ∈ l /\ pool_id o = id.
Proof.
  induction l as [|o' l IH] using rev_ind; [unfold orders_by_pool; cbn; rewrite lookup_empty; set_solver|].
  unfold orders_by_pool in *. rewrite foldl_app. cbn [foldl]. rewrite lookup_insert.
  destruct (decide (pool_id o' = id)) as [<-|]; cbn [default]; set_solver.
Qed.

(** *** The array of the assets does not change *)

Lemma run_ops_array b (ops : list BuilderOp) : builder_assets (foldl run_op b ops) = builder_assets b.
Proof. revert b. induction ops as [|op ops IH]; intros b; [done|]. cbn. rewrite IH. by destruct op. Qed.

(** An asset that the builder knows, at an index that fits its word. *)
Definition known b (a : Address) (i : Z) : Prop :=
  0 <= i < 2 ^ 16 /\ assets_idx (builder_assets b) !! a = Some (Z.to_nat i).

Lemma known_get b a i : known b a i -> Builder.add_or_get_asset b a = (b, Z.to_nat i) /\
  u16_wrap (Z.of_nat (Z.to_nat i)) = i.
Proof.
  intros [Hi E]. unfold Builder.add_or_get_asset, Array.add_or_get_asset_idx. rewrite E.
  split; [by destruct b|]. unfold u16_wrap. rewrite Z2Nat.id by lia. by apply Z.mod_small.
Qed.

Lemma known_addr b a i : array_ok (builder_assets b) -> known b a i ->
  Array.get_asset_addr (builder_assets b) (Z.to_nat i) = a.
Proof.
  intros [Hi _] [_ E]. apply Hi in E as (x & Hx & <-). unfold Array.get_asset_addr. by rewrite Hx.
Qed.

Lemma account_pool_ops b net t0 t1 i0 i1 d sv : array_ok (builder_assets b) -> known b t0 i0 -> known b t1 i1 ->
  account_pool b net t0 i0 i1 d sv =
    foldl run_op b (let '(i, j) := if zero_for_one net then (t0, t1) else (t1, t0) in
      [OpUniswap StSwap i j (input net) (output net); OpAllocate StReward t0 d;
       OpAllocate StReward t0 sv; OpGasFee StReward t0 sv]).
Proof.
  intros Hok H0 H1. unfold account_pool, Builder.uniswap_swap. apply known_addr in H0, H1; [|done..].
  destruct (zero_for_one net); cbn [foldl run_op]; by rewrite H0, H1.
Qed.

Lemma process_solution_inv obp s snapshot t0 t1 i0 i1 st shared bl bl' :
  array_ok (builder_assets (bl_assets bl)) -> known (bl_assets bl) t0 i0 -> known (bl_assets bl) t1 i1 ->
  process_solution obp s snapshot t0 t1 st shared bl = Ret (Ok bl') ->
  exists pl, pl_solution pl = s /\ pl_snapshot pl = snapshot /\ pl_t0 pl = t0 /\ pl_t1 pl = t1 /\
    pl_store pl = st /\ pl_index0 pl = i0 /\ pl_index1 pl = i1 /\
    placed_ok obp shared (length (bl_pairs bl)) pl /\ bl' = place bl pl.
Proof.
  intros Hok H0 H1. unfold process_solution.
  destruct (known_get _ _ _ H0) as [-> ->], (known_get _ _ _ H1) as [-> ->].
  replace (set_assets bl (bl_assets bl)) with bl by (by destruct bl). cbn zeta.
  intros (bl1 & Ht & H)%and_try_Ok. apply and_try_Ok in H as ([bl2 fees] & Hl & H).
  assert (exists tob, fst <$> tob = sol_searcher s /\
    (forall y, tob = Some y -> tob_ok shared (length (bl_pairs bl)) y) /\
    bl1 = {| bl_pairs := bl_pairs bl; bl_assets := foldl run_op (bl_assets bl) (tob_ops t0 tob);
             bl_users := bl_users bl; bl_tobs := bl_tobs bl ++ opt_list (snd <$> tob);
             bl_updates := bl_updates bl |}) as (tob & Etob & Htob & ->).
  { destruct (sol_searcher s) as [t|].
    - apply apply_tob_inv in Ht as (c & Hc & ->). exists (Some (t, c)). split; [done|]. split; [|done].
      by intros y [= <-].
    - injection Ht as <-. exists None. split; [done|]. split; [done|]. cbn. rewrite app_nil_r. by destruct bl. }
  apply apply_limit_inv in Hl as (xs & Hxs & Hall & -> & ->). cbn in H.
  apply bind_Ret in H as (info & Hi & H). apply bind_Ret in H as (price & Hp & H).
  apply bind_Ret in H as ([[net d] rw] & Hs & [= <-]).
  exists {| pl_solution := s; pl_t0 := t0; pl_t1 := t1; pl_store := st; pl_snapshot := snapshot;
    pl_index := u16_wrap (Z.of_nat (length (bl_pairs bl))); pl_index0 := i0; pl_index1 := i1;
    pl_price := price; pl_tob := tob; pl_fills := xs; pl_net := net; pl_donated := d; pl_rewards := rw;
    pl_saved := u128_wrap (total_fees 0 xs - lp_split (total_fees 0 xs)) |}.
  repeat (split; [done|]). split; [split; cbn; eauto|].
  unfold place, placed_ops. cbn. rewrite !foldl_app. f_equal.
  rewrite (account_pool_ops _ _ _ t1); [done|by rewrite !run_ops_array|..];
    unfold known in *; by rewrite !run_ops_array.
Qed.

Definition known_solutions pools (sols : list PoolSolution) : list PoolSolution :=
  filter (fun s => is_Some (pools !! sol_id s)) sols.

(** The pool of a part, and the indices of its tokens. *)
Definition placed_in pools b pl : Prop :=
  pools !! sol_id (pl_solution pl) = Some (pl_t0 pl, pl_t1 pl, pl_snapshot pl, pl_store pl) /\
  known b (pl_t0 pl) (pl_index0 pl) /\ known b (pl_t1 pl) (pl_index1 pl).

Definition indexed pools b (sols : list PoolSolution) : Prop :=
  forall s t0 t1 sn st, s ∈ sols -> pools !! sol_id s = Some (t0, t1, sn, st) ->
    exists i0 i1, known b t0 i0 /\ known b t1 i1.

Lemma process_solutions_inv pools obp shared b sols bl bl' : array_ok (builder_assets b) ->
  indexed pools b sols -> builder_assets (bl_assets bl) = builder_assets b ->
  process_solutions pools obp shared sols bl = Ret (Ok bl') ->
  exists pls, pl_solution <$> pls = known_solutions pools sols /\ Forall (placed_in pools b) pls /\
    (forall k pl, pls !! k = Some pl -> placed_ok obp shared (length (bl_pairs bl) + k) pl) /\
    bl' = foldl place bl pls.
Proof.
  intros Hok. revert bl. induction sols as [|s sols IH]; cbn [process_solutions]; intros bl Hix Hb H.
  { injection H as <-. exists []. done. }
  assert (indexed pools b sols) as Hix' by (intros s' ????? Hs'; eapply Hix; [by right|exact Hs']).
  unfold known_solutions. rewrite filter_cons. destruct (pools !! sol_id s) as [[[[t0 t1] sn] st]|] eqn:E.
  - apply and_try_Ok in H as (bl1 & Hs & H).
    destruct (Hix s t0 t1 sn st (list_elem_of_here _ _) E) as (i0 & i1 & H0 & H1).
    unfold known in H0, H1. rewrite <-Hb in H0, H1.
    apply (process_solution_inv _ _ _ _ _ i0 i1) in Hs as (pl & <- & <- & <- & <- & <- & <- & <- & Hpl & ->);
      [|by rewrite Hb|done..].
    apply IH in H as (pls & Hpls & Hin & Hall & ->); [|done|cbn; by rewrite run_ops_array].
    exists (pl :: pls). rewrite decide_True by done. cbn. split; [by f_equal|]. split.
    { constructor; [|done]. split; [done|]. unfold known. by rewrite <-Hb. }
    split; [|done]. intros [|k] pl' Hk; cbn in Hk.
    + injection Hk as <-. by rewrite Nat.add_0_r.
    + apply Hall in Hk. cbn in Hk. rewrite length_app in Hk. cbn in Hk.
      by replace (length (bl_pairs bl) + S k)%nat with (length (bl_pairs bl) + 1 + k)%nat by lia.
  - rewrite decide_False by (by intros []). by apply IH in H.
Qed.

(** *** The assets are indexed first *)

(** A builder that has no flows and knows the tokens of the solutions. *)
Record gathered pools b (sols : list PoolSolution) : Prop := {
  ga_ok : array_ok (builder_assets b);
  ga_fresh : fresh b;
  ga_known : forall s t0 t1 sn st, s ∈ sols -> pools !! sol_id s = Some (t0, t1, sn, st) ->
    is_Some (assets_idx (builder_assets b) !! t0) /\ is_Some (assets_idx (builder_assets b) !! t1);
  ga_len : (length (assets (builder_assets b)) <= 2 * length sols)%nat
}.

Lemma add_asset_ok b a : array_ok (builder_assets b) -> fresh b ->
  let b' := (Builder.add_or_get_asset b a).1 in
  array_ok (builder_assets b') /\ fresh b' /\ is_Some (assets_idx (builder_assets b') !! a) /\
  (forall a', is_Some (assets_idx (builder_assets b) !! a') -> is_Some (assets_idx (builder_assets b') !! a')) /\
  (length (assets (builder_assets b')) <= S (length (assets (builder_assets b))))%nat.
Proof.
  intros Hok Hf b'. subst b'. unfold Builder.add_or_get_asset.
  destruct (Array.add_or_get_asset_idx (builder_assets b) a) as [l i] eqn:E. cbn.
  destruct (add_or_get_ok _ _ _ _ Hok E) as (Hl & _). split; [done|].
  split; [intros st; rewrite <-(Hf st); by destruct st|].
  unfold Array.add_or_get_asset_idx in E. destruct (assets_idx (builder_assets b) !! a) as [k|] eqn:Ek;
    injection E as <- <-; cbn; [eauto with lia|]. rewrite lookup_insert_eq, length_app. cbn.
  split; [done|]. split; [|lia]. intros a' Ha'. destruct (decide (a' = a)) as [->|].
  - by rewrite lookup_insert_eq.
  - by rewrite lookup_insert_ne.
Qed.

Lemma add_tokens_gathered pools b sols s : gathered pools b sols ->
  gathered pools (add_tokens pools b s) (sols ++ [s]).
Proof.
  intros [Hok Hf Hk Hl]. unfold add_tokens.
  destruct (pools !! sol_id s) as [[[[t0 t1] sn] st]|] eqn:E.
  - destruct (add_asset_ok b t0 Hok Hf) as (Hok1 & Hf1 & Ha1 & Hm1 & Hl1).
    destruct (add_asset_ok _ t1 Hok1 Hf1) as (Hok2 & Hf2 & Ha2 & Hm2 & Hl2).
    split; [done|done| |rewrite length_app; cbn; lia].
    intros s' t0' t1' sn' st' [Hs|Hs%list_elem_of_singleton]%elem_of_app E'.
    + destruct (Hk _ _ _ _ _ Hs E') as [? ?]. auto.
    + subst s'. rewrite E in E'. injection E' as <- <- <- <-. auto.
  - split; [done|done| |rewrite length_app; lia].
    intros s' t0' t1' sn' st' [Hs|Hs%list_elem_of_singleton]%elem_of_app E'; [by eapply Hk|].
    subst s'. congruence.
Qed.

Lemma gathered_all pools sols : gathered pools (foldl (add_tokens pools) Builder.new sols) sols.
Proof.
  induction sols as [|s sols IH] using rev_ind; [|rewrite foldl_app; by apply add_tokens_gathered].
  split; cbn; [apply array_new_ok|by intros []| |lia]. intros s ???? Hs. by apply elem_of_nil in Hs.
Qed.

Lemma index_assets_ok pools sols : Z.of_nat (length sols) <= 2 ^ 15 ->
  let b := index_assets pools sols in
  array_ok (builder_assets b) /\ ascending (assets (builder_assets b)) /\ fresh b /\ indexed pools b sols.
Proof.
  intros Hn b. destruct (gathered_all pools sols) as [Hok Hf Hk Hl].
  set (b0 := foldl (add_tokens pools) Builder.new sols) in *.
  destruct (order_assets_ok _ Hok) as (Hok' & Hasc & Hperm).
  split; [done|]. split; [done|]. split; [intros st; rewrite <-(Hf st); by destruct st|].
  assert (forall a, is_Some (assets_idx (builder_assets b0) !! a) -> exists i, known b a i) as Hkn.
  { intros a [i (x & Hx & Ha)%(ao_index _ Hok)].
    assert (x ∈ assets (builder_assets b)) as [j Hj]%list_elem_of_lookup
      by (change (assets (builder_assets b)) with (assets (Array.order_assets_properly (builder_assets b0)));
          rewrite Hperm; by eapply list_elem_of_lookup_2).
    exists (Z.of_nat j). unfold known. rewrite Nat2Z.id. split; [|apply (ao_index _ Hok'); eauto].
    apply lookup_lt_Some in Hj. pose proof (Permutation_length Hperm) as Hpl.
    change (assets (builder_assets b)) with (assets (Array.order_assets_properly (builder_assets b0))) in Hj.
    lia. }
  intros s t0 t1 sn st Hs E. destruct (Hk s t0 t1 sn st Hs E) as [H0 H1].
  destruct (Hkn _ H0), (Hkn _ H1). eauto.
Qed.

(** The assets are tokens of the pools of the solutions. *)
Definition pool_token pools (sols : list PoolSolution) (a : Address) : Prop :=
  exists s t0 t1 sn st, s ∈ sols /\ pools !! sol_id s = Some (t0, t1, sn, st) /\ (a = t0 \/ a = t1).

Lemma add_asset_from b a (x : Asset) : x ∈ assets (builder_assets (Builder.add_or_get_asset b a).1) ->
  x ∈ assets (builder_assets b) \/ addr x = a.
Proof.
  unfold Builder.add_or_get_asset, Array.add_or_get_asset_idx. destruct (_ !! a); cbn; [by left|].
  intros [?| ->%list_elem_of_singleton]%elem_of_app; [by left|by right].
Qed.

Lemma tokens_from pools sols (x : Asset) : x ∈ assets (builder_assets (foldl (add_tokens pools) Builder.new sols)) ->
  pool_token pools sols (addr x).
Proof.
  induction sols as [|s sols IH] using rev_ind; [by intros ?%not_elem_of_nil|]. rewrite foldl_app. cbn.
  assert (x ∈ assets (builder_assets (foldl (add_tokens pools) Builder.new sols)) ->
    pool_token pools (sols ++ [s]) (addr x)) as Hold.
  { intros (s' & t0 & t1 & sn & st & Hs & H)%IH. exists s', t0, t1, sn, st. split; [set_solver|done]. }
  unfold add_tokens. destruct (pools !! sol_id s) as [[[[t0 t1] sn] st]|] eqn:E; [|done].
  intros [[Hx|Hx]%add_asset_from|Hx]%add_asset_from; [by apply Hold|..];
    exists s, t0, t1, sn, st; (split; [set_solver|]); auto.
Qed.

Lemma index_assets_from pools sols (x : Asset) : x ∈ assets (builder_assets (index_assets pools sols)) ->
  pool_token pools sols (addr x).
Proof.
  intros Hx. apply tokens_from. destruct (gathered_all pools sols) as [Hok _ _ _].
  destruct (order_assets_ok _ Hok) as (_ & _ & Hperm). rewrite <- Hperm. exact Hx.
Qed.

(** *** The bundle *)

Lemma place_all b pls :
  let bl := foldl place (empty_building b) pls in
  bl_pairs bl = placed_pair <$> pls /\ bl_users bl = pls ≫= (fun pl => fi_user <$> pl_fills pl) /\
  bl_tobs bl = omap (fun pl => snd <$> pl_tob pl) pls /\
  bl_updates bl = pls ≫= (fun pl => updates_of (pl_net pl) (pl_index pl) (pl_rewards pl)) /\
  bl_assets bl = foldl run_op b (pls ≫= placed_ops).
Proof.
  induction pls as [|pl pls IH] using rev_ind; [done|]. cbn zeta in *. rewrite foldl_app. cbn.
  destruct IH as (-> & -> & -> & -> & ->).
  rewrite fmap_app, !bind_app, omap_app, foldl_app. cbn. rewrite !app_nil_r.
  split_and!; try done; by destruct (pl_tob pl) as [[? ?]|].
Qed.

Lemma bundle_solutions_perm pools b sols : sort_solutions pools b sols ≡ₚ sols.
Proof.
  apply sort_perm. split; [|apply (cmp_trans_on (solution_key pools b))].
  intros s s'. apply Z.compare_antisym.
Qed.

(** A bundle that was built: the part of every solution of a known pool, placed in
    the order of the indices of their tokens. *)
Record built pools obp (shared : bool) (sols : list PoolSolution) b pls bd : Prop := {
  bt_sols : pl_solution <$> pls = known_solutions pools (sort_solutions pools b sols);
  bt_in : forall pl, pl ∈ pls -> placed_in pools b pl;
  bt_ok : forall k pl, pls !! k = Some pl -> placed_ok obp shared k pl;
  bt_bundle : bd = bundle_of (foldl place (empty_building b) pls);
  bt_array : array_ok (builder_assets b);
  bt_ascending : ascending (assets (builder_assets b));
  bt_fresh : fresh b;
  bt_from : forall x : Asset, x ∈ assets (builder_assets b) -> pool_token pools sols (addr x);
  bt_length : Z.of_nat (length pls) <= 2 ^ 15
}.

Lemma build_bundle_inv pools obp shared sols bd : Z.of_nat (length sols) <= 2 ^ 15 ->
  build_bundle pools obp shared sols = Ret (Ok bd) -> exists b pls, built pools obp shared sols b pls bd.
Proof.
  intros Hn (bl & H & [= <-])%and_try_Ok.
  destruct (index_assets_ok pools sols Hn) as (Hok & Hasc & Hf & Hix).
  set (b := index_assets pools sols) in *. exists b. pose proof (bundle_solutions_perm pools b sols) as Hperm.
  apply (process_solutions_inv _ _ _ b) in H as (pls & Hpls & Hin & Hall & ->); [|done| |done].
  2: { intros s t0 t1 sn st Hs. apply (Hix s). by rewrite <-Hperm. }
  exists pls. rewrite Forall_forall in Hin. split; try done; [by apply index_assets_from|].
  rewrite <-(length_fmap pl_solution), Hpls. apply Permutation_length in Hperm.
  assert (length (known_solutions pools (sort_solutions pools b sols)) <=
    length (sort_solutions pools b sols))%nat by apply length_filter. lia.
Qed.

(** A part of a bundle at its index. *)
Lemma built_part pools obp shared sols b pls bd pl : built pools obp shared sols b pls bd -> pl ∈ pls ->
  exists k, pls !! k = Some pl /\ placed_ok obp shared k pl /\ placed_in pools b pl /\
    pl_solution pl ∈ sols /\ pl_index pl = Z.of_nat k /\ 0 <= Z.of_nat k < Z.of_nat (length pls).
Proof.
  intros Hbt Hpl. pose proof Hpl as [k Hk]%list_elem_of_lookup. exists k.
  pose proof (bt_ok _ _ _ _ _ _ _ Hbt k pl Hk) as Hpo. pose proof (bt_length _ _ _ _ _ _ _ Hbt).
  pose proof (lookup_lt_Some _ _ _ Hk). split_and!; try done; try lia.
  - by apply (bt_in _ _ _ _ _ _ _ Hbt).
  - apply (list_elem_of_fmap_2 pl_solution) in Hpl. rewrite (bt_sols _ _ _ _ _ _ _ Hbt) in Hpl.
    apply list_elem_of_filter in Hpl as [_ Hpl]. by rewrite bundle_solutions_perm in Hpl.
  - rewrite (po_index _ _ _ _ Hpo). unfold u16_wrap. apply Z.mod_small. lia.
Qed.

Lemma built_solutions pools obp shared sols b pls bd : built pools obp shared sols b pls bd ->
  pl_solution <$> pls ≡ₚ known_solutions pools sols.
Proof. intros Hbt. rewrite (bt_sols _ _ _ _ _ _ _ Hbt). unfold known_solutions. by rewrite bundle_solutions_perm. Qed.

(** ** The layout of a bundle *)

Lemma asset_array_addr b : addr <$> Builder.get_asset_array b = addr <$> assets (builder_assets b).
Proof.
  unfold Builder.get_asset_array. rewrite <-list_fmap_compose. apply list_fmap_ext. intros i x _. cbn.
  by case_match.
Qed.

Lemma asset_at_known b pls a i : array_ok (builder_assets b) -> known b a i ->
  asset_at (bundle_assets (bundle_of (foldl place (empty_building b) pls))) i = Ret a.
Proof.
  intros [Hi _] [_ (x & Hx & Ha)%Hi]. destruct (place_all b pls) as (_ & _ & _ & _ & E).
  unfold asset_at, bundle_of. cbn [bundle_assets]. rewrite <-list_lookup_fmap, asset_array_addr, E,
    run_ops_array, list_lookup_fmap, Hx. cbn. by rewrite Ha.
Qed.

Lemma ascending_addr (xs ys : list Asset) : addr <$> ys = addr <$> xs -> ascending xs -> ascending ys.
Proof.
  intros E Hs. revert ys E. induction Hs as [|y xs Hs IH Hy]; intros [|z ys] E; try discriminate; [constructor|].
  injection E as Ez Es. change (addr <$> ys = addr <$> xs) in Es. constructor; [by apply IH|]. apply Forall_forall. intros w Hw.
  apply (list_elem_of_fmap_2 addr) in Hw. rewrite Es in Hw. apply list_elem_of_fmap in Hw as (v & -> & Hv).
  rewrite Ez. by apply (proj1 (Forall_forall _ _) Hy).
Qed.

(** Pairs in the order of their indices. *)
Definition pair_le (p q : Pair) : Prop :=
  index0 p < index0 q \/ index0 p = index0 q /\ index1 p <= index1 q.

Lemma key_of_indices i j : 0 <= i < 2 ^ 16 -> 0 <= j < 2 ^ 16 -> Z.lor (Z.shiftl i 16) j = i * 2 ^ 16 + j.
Proof.
  intros Hi Hj. rewrite Z.shiftl_mul_pow2 by lia. rewrite <-Z.add_lor_land.
  assert (Z.land (i * 2 ^ 16) j = 0) as ->; [|lia]. apply Z.bits_inj'. intros n Hn.
  rewrite Z.land_spec, Z.bits_0, Z.mul_pow2_bits by lia.
  destruct (Z.ltb_spec n 16).
  - by rewrite Z.testbit_neg_r by lia.
  - rewrite (Z.bits_above_log2 j); [by rewrite andb_false_r|lia|].
    destruct (decide (j = 0)) as [->|]; [cbn; lia|]. apply Z.log2_lt_pow2; [lia|].
    apply Z.lt_le_trans with (2 ^ 16); [lia|]. apply Z.pow_le_mono_r; lia.
Qed.

Lemma placed_key pools b pl : placed_in pools b pl ->
  solution_key pools b (pl_solution pl) = pl_index0 pl * 2 ^ 16 + pl_index1 pl.
Proof.
  intros (Hp & H0 & H1). unfold solution_key. rewrite Hp.
  destruct (known_get _ _ _ H0) as [-> _], (known_get _ _ _ H1) as [-> _]. cbn.
  destruct H0 as [H0 _], H1 as [H1 _]. rewrite !Z2Nat.id by lia. by apply key_of_indices.
Qed.

Lemma StronglySorted_filter {A} (R : A -> A -> Prop) (P : A -> Prop) `{!forall y, Decision (P y)} l :
  StronglySorted R l -> StronglySorted R (filter P l).
Proof.
  induction 1 as [|x l Hs IH Hx]; [constructor|]. rewrite filter_cons. case_decide; [|done].
  constructor; [done|]. rewrite Forall_forall in Hx |- *. intros y [_ Hy]%list_elem_of_filter. by apply Hx.
Qed.

Lemma pairs_sorted pools b pls sols :
  pl_solution <$> pls = known_solutions pools (sort_solutions pools b sols) ->
  Forall (placed_in pools b) pls -> StronglySorted pair_le (placed_pair <$> pls).
Proof.
  intros Hpls Hin.
  assert (StronglySorted (fun s s' => (solution_key pools b s ?= solution_key pools b s') <> Gt)
    (pl_solution <$> pls)) as Hs.
  { rewrite Hpls. apply StronglySorted_filter, sort_sorted.
    split; [|apply (cmp_trans_on (solution_key pools b))]. intros s s'. apply Z.compare_antisym. }
  clear Hpls. induction Hin as [|pl pls Hpl Hin IH]; [constructor|].
  apply StronglySorted_inv in Hs as [Hs Hx]. constructor; [by apply IH|].
  pose proof (proj1 (Forall_forall _ _) Hx) as Hx'. rewrite Forall_forall in Hin. apply Forall_forall. intros p (pl' & -> & Hpl')%list_elem_of_fmap.
  specialize (Hx' (pl_solution pl') (list_elem_of_fmap_2 _ _ _ Hpl')). apply Hin in Hpl'.
  rewrite (placed_key _ _ _ Hpl), (placed_key _ _ _ Hpl') in Hx'. apply Z.compare_ngt_iff in Hx'.
  destruct Hpl as (_ & [? _] & [? _]), Hpl' as (_ & [? _] & [? _]). unfold pair_le. cbn. lia.
Qed.

(** What the contract checks when it reads the assets and the pairs of a bundle
    ([readFromAndValidate] of [Asset.sol] and [Pair.sol]). *)
Fixpoint read_assets (last : Address) (xs : list Asset) : bool :=
  match xs with
  | [] => true
  | x :: xs' => if addr x <=? last then false else read_assets (addr x) xs'
  end.

Definition pair_indices (p : Pair) : Z := Z.lor (Z.shiftl (index0 p) 16) (index1 p).

Fixpoint read_pairs (xs : list Asset) (last : Z) (ps : list Pair) : bool :=
  match ps with
  | [] => true
  | p :: ps' =>
      match asset_at xs (index0 p), asset_at xs (index1 p) with
      | Ret asset0, Ret asset1 =>
          if (pair_indices p <=? last) || (asset1 <=? asset0) then false
          else read_pairs xs (pair_indices p) ps'
      | _, _ => false
      end
  end.

Lemma read_assets_ascending last xs : ascending xs -> Forall (fun x : Asset => last < addr x) xs ->
  read_assets last xs = true.
Proof.
  intros Hs. revert last. induction Hs as [|x xs Hs IH Hx]; intros last H; [done|].
  apply Forall_cons in H as [H _]. cbn. rewrite (proj2 (Z.leb_gt _ _)) by lia. by apply IH.
Qed.

(** The tokens of a solution. *)
Definition solution_tokens pools s : option (Address * Address) :=
  match pools !! sol_id s with Some (t0, t1, _, _) => Some (t0, t1) | None => None end.

(** The pair of a solution: its two indices lead to the tokens of the pool. *)
Definition pair_of pools (xs : list Asset) (p : Pair) s : Prop :=
  exists t0 t1 sn, pools !! sol_id s = Some (t0, t1, sn, store_index p) /\
    asset_at xs (index0 p) = Ret t0 /\ asset_at xs (index1 p) = Ret t1 /\
    (sol_ucp s <> 0 -> price_1over0 p = sol_ucp s).

(** The indices of the pairs in the orders and in the updates are in range. *)
Definition refers (n : nat) (i : Z) : Prop := 0 <= i < Z.of_nat n.

Lemma made_index o out i u : made_of o out i u -> uo_pair_index u = i.
Proof.
  intros (parts & g & sig & _ & H & _). unfold user_order_of in H. destruct parts as [[[qs sv] r] h].
  apply bind_Ret in H as (? & _ & H). by apply bind_Ret in H as (? & _ & [= <-]).
Qed.

Lemma contract_order_made shared out o i u : contract_order shared out o i = Ret (Ok u) ->
  made_of o out (u16_wrap (Z.of_nat i)) u.
Proof.
  unfold contract_order. destruct shared; intros H; apply from_internal_made; [by left|right].
  by apply bind_Ret in H as (u' & Hu & [= <-]).
Qed.

Lemma tob_made shared i t c : tob_ok shared i (t, c) ->
  let j := u16_wrap (Z.of_nat i) in
  (of_tob t j = Ret (Ok c) \/ of_max_gas t j = Ret c) /\ ct_pairs_index c = j.
Proof.
  unfold tob_ok. cbn. destruct shared; intros H; (split; [by auto|]).
  - unfold of_tob in H. apply bind_Ret in H as (sig & _ & [= H]). case_match; [done|]. by injection H as <-.
  - unfold of_max_gas in H. apply bind_Ret in H as (sig & _ & H). by apply bind_Ret in H as (g & _ & [= <-]).
Qed.

Lemma elem_of_update net i rw p : p ∈ updates_of net i rw -> pu_pair_index p = i.
Proof.
  unfold updates_of. intros [->|Hp]%elem_of_cons; [done|]. destruct rw.2; [|by apply elem_of_nil in Hp].
  by apply list_elem_of_singleton in Hp as ->.
Qed.

Lemma built_pairs pools obp shared sols b pls bd : built pools obp shared sols b pls bd ->
  Forall2 (pair_of pools (bundle_assets bd)) (bundle_pairs bd) (pl_solution <$> pls).
Proof.
  intros Hbt. pose proof (bt_array _ _ _ _ _ _ _ Hbt) as Hok. pose proof (bt_bundle _ _ _ _ _ _ _ Hbt) as ->.
  change (bundle_pairs (bundle_of ?bl)) with (bl_pairs bl). destruct (place_all b pls) as (-> & _).
  apply Forall2_fmap_2, Forall_Forall2_diag, Forall_forall. intros pl Hpl.
  destruct (built_part _ _ _ _ _ _ _ _ Hbt Hpl) as (k & _ & Hpo & (Hp & H0 & H1) & _).
  exists (pl_t0 pl), (pl_t1 pl), (pl_snapshot pl). cbn [placed_pair index0 index1 store_index price_1over0].
  split_and!; [done|by apply asset_at_known..|]. intros Hu.
  destruct (po_pool _ _ _ _ Hpo) as (info & _ & Hpr & _). unfold pair_price in Hpr.
  rewrite (proj2 (Z.eqb_neq _ _) Hu) in Hpr. by destruct info as [[? ?]|]; injection Hpr as Hpr.
Qed.

Lemma built_refers pools obp shared sols b pls bd : built pools obp shared sols b pls bd ->
  Forall (fun u => refers (length pls) (uo_pair_index u)) (user_orders bd) /\
  Forall (fun c => refers (length pls) (ct_pairs_index c)) (top_of_block_orders bd) /\
  Forall (fun p => refers (length pls) (pu_pair_index p)) (pool_updates bd).
Proof.
  intros Hbt. pose proof (fun pl => built_part _ _ _ _ _ _ _ pl Hbt) as Hk.
  rewrite (bt_bundle _ _ _ _ _ _ _ Hbt). destruct (place_all b pls) as (_ & E2 & E3 & E4 & _).
  cbn [bundle_of user_orders top_of_block_orders pool_updates]. rewrite E2, E3, E4, !Forall_forall.
  split_and!.
  - intros u (pl & Hu & Hpl)%list_elem_of_bind. apply list_elem_of_fmap in Hu as (x & -> & Hx).
    destruct (Hk pl Hpl) as (k & _ & Hpo & _ & _ & <- & Hr). pose proof (po_fills _ _ _ _ Hpo) as Hf.
    rewrite Forall_forall in Hf. destruct (Hf x Hx) as [_ Hc]. apply contract_order_made, made_index in Hc.
    by rewrite Hc, <-(po_index _ _ _ _ Hpo).
  - intros c (pl & Hpl & Hc)%list_elem_of_omap. destruct (Hk pl Hpl) as (k & _ & Hpo & _ & _ & <- & Hr).
    destruct (pl_tob pl) as [[t c']|] eqn:Et; [|done]. injection Hc as ->.
    destruct (tob_made _ _ _ _ (po_tob_ok _ _ _ _ Hpo _ Et)) as [_ ->]. by rewrite <-(po_index _ _ _ _ Hpo).
  - intros p (pl & Hp & Hpl)%list_elem_of_bind. destruct (Hk pl Hpl) as (k & _ & _ & _ & _ & <- & Hr).
    by rewrite (elem_of_update _ _ _ _ Hp).
Qed.

Lemma read_pairs_sorted pools xs ps ks last : Forall2 (pair_of pools xs) ps ks ->
  Forall (fun p => 0 <= index0 p < 2 ^ 16 /\ 0 <= index1 p < 2 ^ 16) ps -> StronglySorted pair_le ps ->
  Forall (fun s => forall t0 t1, solution_tokens pools s = Some (t0, t1) -> t0 < t1) ks ->
  NoDup (omap (solution_tokens pools) ks) -> Forall (fun p => last < pair_indices p) ps ->
  read_pairs xs last ps = true.
Proof.
  intros Hf. revert last. induction Hf as [|p s ps ks Hp Hf IH]; intros last Hr Hs Ht Hn Hl; [done|].
  apply Forall_cons in Hr as [[Hr0 Hr1] Hr], Ht as [Ht Hts], Hl as [Hl _]. apply StronglySorted_inv in Hs as [Hs Hle].
  destruct Hp as (t0 & t1 & sn & Hpool & H0 & H1 & _). cbn [read_pairs]. rewrite H0, H1.
  assert (solution_tokens pools s = Some (t0, t1)) as Est by (unfold solution_tokens; by rewrite Hpool).
  pose proof (Ht _ _ Est). rewrite (proj2 (Z.leb_gt _ _) Hl), (proj2 (Z.leb_gt t1 t0)) by done. cbn [orb].
  cbn [omap list_omap] in Hn. rewrite Est in Hn. apply NoDup_cons in Hn as [Hnin Hn].
  apply IH; [done..|]. rewrite Forall_forall in Hle, Hr |- *. intros q Hq. specialize (Hle q Hq).
  destruct (Hr q Hq) as [Hq0 Hq1]. unfold pair_indices. rewrite !key_of_indices by done.
  assert (~ (index0 p = index0 q /\ index1 p = index1 q)) as Hne; [|unfold pair_le in Hle; lia].
  intros [E0 E1]. apply Hnin. apply list_elem_of_lookup in Hq as [i Hi].
  destruct (Forall2_lookup_l _ _ _ _ _ Hf Hi) as (s' & Hs' & u0 & u1 & sn' & Hpool' & H0' & H1' & _).
  apply list_elem_of_omap. exists s'. split; [by eapply list_elem_of_lookup_2|]. unfold solution_tokens.
  rewrite Hpool'. congruence.
Qed.

(** A pair of two tokens does not have the indices 0. *)
Lemma pair_indices_pos pools xs p s : pair_of pools xs p s -> 0 <= index0 p < 2 ^ 16 -> 0 <= index1 p < 2 ^ 16 ->
  (forall t0 t1, solution_tokens pools s = Some (t0, t1) -> t0 < t1) -> 0 < pair_indices p.
Proof.
  intros (t0 & t1 & sn & Hp & H0 & H1 & _) Hr0 Hr1 Ht. unfold pair_indices. rewrite key_of_indices by done.
  assert (index0 p <> index1 p); [|lia]. intros E. rewrite E, H1 in H0. injection H0 as ->.
  specialize (Ht t0 t0). unfold solution_tokens in Ht. rewrite Hp in Ht. specialize (Ht eq_refl). lia.
Qed.

(** The solutions of a bundle that the contract can take: their pools have two
    tokens in ascending order, neither of them the address 0, and no two of them
    are for the same tokens. *)
Definition solutions_distinct pools (sols : list PoolSolution) : Prop :=
  (forall s t0 t1, s ∈ sols -> solution_tokens pools s = Some (t0, t1) -> 0 < t0 < t1) /\
  NoDup (omap (solution_tokens pools) sols).

Lemma known_tokens pools sols :
  omap (solution_tokens pools) (known_solutions pools sols) = omap (solution_tokens pools) sols.
Proof.
  unfold known_solutions. induction sols as [|s sols IH]; [done|]. rewrite filter_cons. cbn [omap list_omap].
  destruct (decide _) as [Hs|Hs]; cbn [omap list_omap]; rewrite IH; [done|].
  unfold solution_tokens at 2. by destruct (pools !! sol_id s); [destruct Hs|].
Qed.

Lemma built_read pools obp shared sols b pls bd : built pools obp shared sols b pls bd ->
  solutions_distinct pools sols ->
  read_assets 0 (bundle_assets bd) = true /\ read_pairs (bundle_assets bd) 0 (bundle_pairs bd) = true.
Proof.
  intros Hbt [Ht Hd].
  assert (addr <$> bundle_assets bd = addr <$> assets (builder_assets b)) as Ea.
  { rewrite (bt_bundle _ _ _ _ _ _ _ Hbt). cbn [bundle_of bundle_assets].
    destruct (place_all b pls) as (_ & _ & _ & _ & ->). by rewrite asset_array_addr, run_ops_array. }
  pose proof (built_solutions _ _ _ _ _ _ _ Hbt) as Hks. pose proof (built_pairs _ _ _ _ _ _ _ Hbt) as Hf.
  assert (bundle_pairs bd = placed_pair <$> pls) as Ep
    by (rewrite (bt_bundle _ _ _ _ _ _ _ Hbt); apply (place_all b pls)).
  assert (forall s t0 t1, s ∈ pl_solution <$> pls -> solution_tokens pools s = Some (t0, t1) -> 0 < t0 < t1) as Ht'.
  { intros s t0 t1 Hs. apply Ht. rewrite Hks in Hs. by apply list_elem_of_filter in Hs as [_ ?]. }
  assert (Forall (fun p => 0 <= index0 p < 2 ^ 16 /\ 0 <= index1 p < 2 ^ 16) (bundle_pairs bd)) as Hr.
  { rewrite Ep. apply Forall_fmap, Forall_forall. intros pl Hpl.
    destruct (bt_in _ _ _ _ _ _ _ Hbt pl Hpl) as (_ & [? _] & [? _]). done. }
  split.
  - apply read_assets_ascending; [by eapply ascending_addr; [exact Ea|apply (bt_ascending _ _ _ _ _ _ _ Hbt)]|].
    apply Forall_forall. intros x Hx. apply (list_elem_of_fmap_2 addr) in Hx. rewrite Ea in Hx.
    apply list_elem_of_fmap in Hx as (y & -> & (s & t0 & t1 & sn & st & Hs & Hp & Hy)%(bt_from _ _ _ _ _ _ _ Hbt)).
    specialize (Ht s t0 t1 Hs). unfold solution_tokens in Ht. rewrite Hp in Ht. specialize (Ht eq_refl). lia.
  - eapply read_pairs_sorted; [exact Hf|exact Hr|rewrite Ep; eapply pairs_sorted| | |].
    + apply (bt_sols _ _ _ _ _ _ _ Hbt).
    + apply Forall_forall, (bt_in _ _ _ _ _ _ _ Hbt).
    + apply Forall_forall. intros s Hs t0 t1 E. apply (Ht' s t0 t1 Hs) in E. lia.
    + rewrite Hks, known_tokens. exact Hd.
    + apply Forall_forall. intros p Hp. apply list_elem_of_lookup in Hp as [i Hi].
      destruct (Forall2_lookup_l _ _ _ _ _ Hf Hi) as (s & Hs & Hps). rewrite Forall_forall in Hr.
      destruct (Hr p) as [? ?]; [by eapply list_elem_of_lookup_2|]. eapply pair_indices_pos; [done..|].
      intros t0 t1 E. apply (Ht' s t0 t1) in E; [lia|by eapply list_elem_of_lookup_2].
Qed.

(** C18. A bundle that is built of at most 2^15 solutions, so that an index fits its
    16 bits, passes the checks with which the contract reads its assets and pairs, when no two solutions are for the same two tokens and the
    tokens of each pool are in order and not the address 0, as the contract
    configures pools: the assets ascend strictly from 0, the pairs ascend strictly
    by their indices, and each has its tokens in order.  There is one pair for each
    solution of a known pool, its indices lead to the tokens of the pool and its
    price is the clearing price, where the solution has one; and every order and
    update refers to a pair of the bundle. *)
Theorem bundle_layout pools obp shared sols bd (Hn : Z.of_nat (length sols) <= 2 ^ 15)
    (Hb : build_bundle pools obp shared sols = Ret (Ok bd)) (Hd : solutions_distinct pools sols) :
  read_assets 0 (bundle_assets bd) = true /\ read_pairs (bundle_assets bd) 0 (bundle_pairs bd) = true /\
  (exists ks, ks ≡ₚ known_solutions pools sols /\
     Forall2 (pair_of pools (bundle_assets bd)) (bundle_pairs bd) ks) /\
  Forall (fun u => refers (length (bundle_pairs bd)) (uo_pair_index u)) (user_orders bd) /\
  Forall (fun c => refers (length (bundle_pairs bd)) (ct_pairs_index c)) (top_of_block_orders bd) /\
  Forall (fun p => refers (length (bundle_pairs bd)) (pu_pair_index p)) (pool_updates bd).
Proof.
  destruct (build_bundle_inv _ _ _ _ _ Hn Hb) as (b & pls & Hbt).
  destruct (built_read _ _ _ _ _ _ _ Hbt Hd) as [Ha Hp]. split; [done|]. split; [done|].
  assert (bundle_pairs bd = placed_pair <$> pls) as Ep
    by (rewrite (bt_bundle _ _ _ _ _ _ _ Hbt); apply (place_all b pls)).
  split; [|rewrite Ep, length_fmap; by eapply built_refers].
  exists (pl_solution <$> pls). split; [by eapply built_solutions|by eapply built_pairs].
Qed.

(** ** The orders of a bundle on the chain *)

(** An order of a pool that its user signed for the block, with the reference 0. *)
Record recoverable (block : u64) (t0 t1 : Address) (bid : bool) (a : AllOrders) : Prop := {
  re_signed : signed_by_user a;
  re_ref : order_ref_id a = 0;
  re_block : for_block a block;
  re_tokens : (token_in a, token_out a) = if bid then (t1, t0) else (t0, t1)
}.

Definition all_recoverable pools obp (sols : list PoolSolution) (block : u64) : Prop :=
  forall s t0 t1 sn st, s ∈ sols -> pools !! sol_id s = Some (t0, t1, sn, st) ->
    (forall t, sol_searcher s = Some t -> recoverable block t0 t1 (is_bid t) (TOB (order t))) /\
    (forall o, o ∈ default ∅ (obp !! sol_id s) -> recoverable block t0 t1 (is_bid o) (order o)).

(** The searcher orders and the filled orders of solutions. *)
Definition searchers_of (ks : list PoolSolution) : list (OrderWithStorageData TopOfBlockOrder) :=
  omap sol_searcher ks.
Definition fills_of obp (ks : list PoolSolution) : list BookOrder :=
  ks ≫= (fun s => snd <$> filled_orders (sol_limit s) (order_list obp (sol_id s))).

Lemma order_list_elem obp id k o : order_list obp id !! k = Some o -> o ∈ default ∅ (obp !! id).
Proof.
  unfold order_list. set (X := default ∅ (obp !! id)). intros H.
  assert (forall l (m : gmap OrderId BookOrder), (forall k o, m !! k = Some o -> o ∈ X) ->
    (forall o, o ∈ l -> o ∈ X) -> foldl (fun m o => <[order_id o := o]> m) m l !! k = Some o -> o ∈ X) as Hg.
  { intros l. induction l as [|o' l IH]; intros m Hm Hl; cbn; [by eauto|]. apply IH; [|set_solver].
    intros k' o2. rewrite lookup_insert. case_decide; [intros [= <-]; set_solver|by apply Hm]. }
  apply (Hg (hs_iter X) ∅); [by intros ??; rewrite lookup_empty| |done].
  intros o'. by rewrite elem_of_hs_iter.
Qed.

Lemma filled_orders_elem outs l out o : (out, o) ∈ filled_orders outs l -> exists k, l !! k = Some o.
Proof.
  revert l. induction outs as [|out' outs IH]; cbn; intros l H; [by apply elem_of_nil in H|].
  apply elem_of_app in H as [H|H].
  - destruct (outcome_is_filled out'), (l !! oo_id out') as [o'|] eqn:E; cbn in H;
      try (by apply elem_of_nil in H). apply list_elem_of_singleton in H as [= -> ->]. eauto.
  - apply IH in H as [k Hk]. apply lookup_delete_Some in Hk as [_ Hk]. eauto.
Qed.

Lemma traverse_fmap {A B C} (f : B -> outcome C) (h : A -> B) (g : A -> C) (l : list A) :
  (forall a, a ∈ l -> f (h a) = Ret (g a)) -> traverse f (h <$> l) = Ret (g <$> l).
Proof.
  induction l as [|a l IH]; [done|]. intros H. cbn. rewrite H by left. cbn.
  change (list_fmap A B h l) with (h <$> l). rewrite IH; [done|]. intros a' Ha'. apply H. by right.
Qed.

(** The tokens that the index of a part leads to. *)
Lemma placed_tokens pools obp shared sols b pls bd k pl (zfo : bool) :
  built pools obp shared sols b pls bd -> pls !! k = Some pl ->
  tokens_of (bundle_pairs bd) (bundle_assets bd) (u16_wrap (Z.of_nat k)) zfo =
    Ret (if zfo then (pl_t0 pl, pl_t1 pl) else (pl_t1 pl, pl_t0 pl)).
Proof.
  intros Hbt Hk. pose proof (bt_array _ _ _ _ _ _ _ Hbt) as Hok. pose proof (bt_length _ _ _ _ _ _ _ Hbt) as Hl.
  pose proof (lookup_lt_Some _ _ _ Hk) as Hk'.
  destruct (bt_in _ _ _ _ _ _ _ Hbt pl (list_elem_of_lookup_2 _ _ _ Hk)) as (_ & H0 & H1).
  unfold u16_wrap. rewrite Z.mod_small by lia. rewrite (bt_bundle _ _ _ _ _ _ _ Hbt).
  unfold tokens_of, pair_at. rewrite Nat2Z.id.
  destruct (place_all b pls) as (E1 & _). cbn [bundle_of bundle_pairs]. rewrite E1, list_lookup_fmap, Hk.
  cbn [fmap option_fmap option_map unwrap mbind outcome_bind placed_pair index0 index1].
  by rewrite (asset_at_known b pls _ _ Hok H0), (asset_at_known b pls _ _ Hok H1).
Qed.

(** What is recovered of the user orders and of the searcher orders. *)
Lemma fills_recovered pools obp shared sols b pls bd block x :
  built pools obp shared sols b pls bd -> all_recoverable pools obp sols block -> x ∈ (pls ≫= pl_fills) ->
  user_recover_signer (fi_user x) (bundle_pairs bd) (bundle_assets bd) block = Ret (from (order (fi_order x))) /\
  user_order_hash (fi_user x) (bundle_pairs bd) (bundle_assets bd) block = Ret (order_hash (order (fi_order x))).
Proof.
  intros Hbt Hre (pl & Hx & Hpl)%list_elem_of_bind.
  destruct (built_part _ _ _ _ _ _ _ _ Hbt Hpl) as (k & Hk & Hpo & [Hpi _] & Hs & _).
  assert (recoverable block (pl_t0 pl) (pl_t1 pl) (is_bid (fi_order x)) (order (fi_order x)))
    as [Hsg Hr Hbl Ht].
  { apply (proj2 (Hre _ _ _ _ _ Hs Hpi)).
    assert ((fi_outcome x, fi_order x) ∈ filled_orders (sol_limit (pl_solution pl))
      (order_list obp (sol_id (pl_solution pl)))) as [k' Hk']%filled_orders_elem
      by (rewrite <-(po_filled _ _ _ _ Hpo); by apply (list_elem_of_fmap_2 (fun x => (fi_outcome x, fi_order x)))).
    by apply order_list_elem in Hk'. }
  pose proof (po_fills _ _ _ _ Hpo) as Hf. rewrite Forall_forall in Hf.
  destruct (Hf x Hx) as [_ Hc]. apply contract_order_made in Hc.
  destruct (user_recovered _ _ _ _ (bundle_pairs bd) (bundle_assets bd) block Hc Hsg Hr Hbl) as (H1 & _ & H2);
    [|done]. rewrite (placed_tokens _ _ _ _ _ _ _ _ _ _ Hbt Hk), Ht. by destruct (is_bid (fi_order x)).
Qed.

Lemma tobs_recovered pools obp shared sols b pls bd block y :
  built pools obp shared sols b pls bd -> all_recoverable pools obp sols block -> y ∈ omap pl_tob pls ->
  user_address y.2 (bundle_pairs bd) (bundle_assets bd) block = Ret (from (order y.1)) /\
  tob_order_hash y.2 (bundle_pairs bd) (bundle_assets bd) block = Ret (order_hash (order y.1)).
Proof.
  intros Hbt Hre (pl & Hpl & Ey)%list_elem_of_omap. destruct y as [t c]. cbn [fst snd].
  destruct (built_part _ _ _ _ _ _ _ _ Hbt Hpl) as (k & Hk & Hpo & [Hpi _] & Hs & _).
  assert (recoverable block (pl_t0 pl) (pl_t1 pl) (is_bid t) (TOB (order t))) as [Hsg _ Hbl Ht].
  { apply (proj1 (Hre _ _ _ _ _ Hs Hpi)). by rewrite <-(po_tob _ _ _ _ Hpo), Ey. }
  destruct (tob_made _ _ _ _ (po_tob_ok _ _ _ _ Hpo _ Ey)) as [Hc _].
  rewrite <-(Hbl (tob_valid_for_block (order t)) eq_refl).
  apply (tob_recovered t (u16_wrap (Z.of_nat k)) c); [done..|].
  rewrite (placed_tokens _ _ _ _ _ _ _ _ _ _ Hbt Hk). cbn in Ht. rewrite Ht. by destruct (is_bid t).
Qed.

(** The sources of a bundle, in the order in which they are placed. *)
Lemma placed_sources obp shared pls : (forall pl, pl ∈ pls -> exists k, placed_ok obp shared k pl) ->
  searchers_of (pl_solution <$> pls) = fst <$> omap pl_tob pls /\
  fills_of obp (pl_solution <$> pls) = fi_order <$> (pls ≫= pl_fills).
Proof.
  induction pls as [|pl pls IH]; [done|]. intros H. destruct IH as [IH1 IH2]; [intros; apply H; by right|].
  destruct (H pl (list_elem_of_here _ _)) as [k Hpo]. unfold searchers_of, fills_of in *.
  rewrite fmap_cons. cbn [omap list_omap]. rewrite <-(po_tob _ _ _ _ Hpo), bind_cons, IH2, bind_cons, fmap_app,
    <-(po_filled _ _ _ _ Hpo), <-list_fmap_compose.
  split; [|done]. destruct (pl_tob pl) as [[t c]|]; cbn; [by f_equal|done].
Qed.

Lemma place_orders b pls :
  let bl := foldl place (empty_building b) pls in
  bl_users bl = fi_user <$> (pls ≫= pl_fills) /\ bl_tobs bl = snd <$> omap pl_tob pls.
Proof.
  cbn zeta. destruct (place_all b pls) as (_ & -> & -> & _). induction pls as [|pl pls [IH1 IH2]]; [done|].
  rewrite !bind_cons, fmap_app, IH1. split; [done|]. cbn [omap list_omap].
  destruct (pl_tob pl) as [[t c]|]; cbn; [by f_equal|done].
Qed.

(** C8. The node recognises its orders in a bundle that it or another node built:
    the order hashes that it reads from the bundle are those of the searcher orders
    and of the filled limit orders of the solutions of known pools, each as often
    as it was placed, and the accounts are the users of these orders.  The orders
    have to be signed by their users, to carry the reference 0, to be orders on the
    tokens of their pool, and, if they are for one block, to be for the block of
    the bundle. *)
Theorem bundle_orders_recovered pools obp shared sols bd block (Hn : Z.of_nat (length sols) <= 2 ^ 15)
    (Hb : build_bundle pools obp shared sols = Ret (Ok bd)) (Hre : all_recoverable pools obp sols block) :
  exists ks, ks ≡ₚ known_solutions pools sols /\
    get_order_hashes bd block = Ret (((fun t => order_hash (order t)) <$> searchers_of ks) ++
      ((fun o => order_hash (order o)) <$> fills_of obp ks)) /\
    get_accounts bd block = Ret (((fun t => from (order t)) <$> searchers_of ks) ++
      ((fun o => from (order o)) <$> fills_of obp ks)).
Proof.
  destruct (build_bundle_inv _ _ _ _ _ Hn Hb) as (b & pls & Hbt).
  exists (pl_solution <$> pls). split; [by eapply built_solutions|].
  destruct (placed_sources obp shared pls) as [-> ->].
  { intros pl Hpl. destruct (built_part _ _ _ _ _ _ _ _ Hbt Hpl) as (k & _ & ? & _). eauto. }
  destruct (place_orders b pls) as [Eu Et]. unfold get_order_hashes, get_accounts.
  assert (top_of_block_orders bd = snd <$> omap pl_tob pls) as ->
    by (by rewrite (bt_bundle _ _ _ _ _ _ _ Hbt)).
  assert (user_orders bd = fi_user <$> (pls ≫= pl_fills)) as ->
    by (by rewrite (bt_bundle _ _ _ _ _ _ _ Hbt)).
  rewrite <-!list_fmap_compose. split.
  - rewrite (traverse_fmap _ snd (fun y => order_hash (order y.1)))
      by (intros y Hy; by apply (tobs_recovered _ _ _ _ _ _ _ block y Hbt Hre)).
    cbn [mbind outcome_bind]. rewrite (traverse_fmap _ fi_user (fun x => order_hash (order (fi_order x))))
      by (intros x Hx; by apply (fills_recovered _ _ _ _ _ _ _ block x Hbt Hre)). done.
  - rewrite (traverse_fmap _ snd (fun y => from (order y.1)))
      by (intros y Hy; by apply (tobs_recovered _ _ _ _ _ _ _ block y Hbt Hre)).
    cbn [mbind outcome_bind]. rewrite (traverse_fmap _ fi_user (fun x => from (order (fi_order x))))
      by (intros x Hx; by apply (fills_recovered _ _ _ _ _ _ _ block x Hbt Hre)). done.
Qed.

(** ** The amounts of a bundle *)

(** *** No amount is negative *)

Lemma wrapped_sum_nonneg (l : list Z) a : 0 <= a -> 0 <= foldl (fun a c => u128_wrap (a + c)) a l.
Proof.
  revert a. induction l as [|y l IH]; intros a Ha; [done|]. cbn. apply IH, u128_wrap_range.
Qed.

Lemma swap_amounts ps r : swap ps = Ret (Ok r) -> 0 <= input r /\ 0 <= output r.
Proof.
  unfold swap. intros H. match type of H with (if ?c then _ else _) = _ => destruct c; [done|] end.
  destruct (swap_run ps) as [[[st|e]|]|]; cbn in H; try done.
  injection H as <-. unfold input, output. cbn. unfold total.
  destruct (zero_for_one _); split; by apply wrapped_sum_nonneg.
Qed.

Lemma from_vec_nonneg v c : from_vec v = Ret c -> 0 <= total_donated c.
Proof.
  unfold from_vec. destruct v as [|y v]; [by intros [= <-]|].
  intros (_ & _ & Hc)%bind_Ret. destruct y; injection Hc as <-; cbn [total_donated]; by apply wrapped_sum_nonneg.
Qed.

Lemma add_donations_nonneg c rhs : 0 <= total_donated c -> 0 <= total_donated (add_donations c rhs).
Proof.
  unfold add_donations. intros Hc.
  assert (forall l ds t i k, 0 <= t -> 0 <= (foldl add_one (ds, t, i, k) l).1.1.2) as Hl.
  { intros l. induction l as [|y l IH]; intros ds t i k Ht; [done|]. cbn [foldl]. unfold add_one at 2.
    destruct i; apply IH, u128_wrap_range. }
  specialize (Hl rhs (donations c) (total_donated c) (S (break_idx c)) (calc_current_tick c) Hc).
  by destruct (foldl add_one _ rhs) as [[[? ?] ?] ?].
Qed.

Lemma settle_amounts s sn info lp net d rw : settle_pool s sn info lp = Ret (net, d, rw) ->
  0 <= input net /\ 0 <= output net /\ 0 <= d.
Proof.
  unfold settle_pool. intros (book & Hbook & H)%bind_Ret. apply bind_Ret in H as (don & Hdon & H).
  apply bind_Ret in H as (net' & Hnet & H). apply bind_Ret in H as (rw' & _ & [= -> <- ->]).
  assert (0 <= input net /\ 0 <= output net) as [? ?].
  { unfold net_pool_vec in Hnet. destruct info as [[v q]|].
    - apply bind_Ret in Hnet as ([r|e] & Hr & Hnet); [|done]. injection Hnet as <-. by apply swap_amounts in Hr.
    - injection Hnet as <-. unfold book_swap in Hbook.
      destruct (sol_ucp s =? 0); [injection Hbook as <-; unfold input, output; cbn; by case_match|].
      apply bind_Ret in Hbook as (p & _ & Hbook). apply bind_Ret in Hbook as ([v|e] & Hv & Hbook); [|done].
      injection Hbook as <-. cbn. unfold swap_to_price in Hv. apply bind_Ret in Hv as ([r|e] & _ & Hv); [|done].
      by apply swap_amounts in Hv. }
  split_and!; [done..|]. destruct don as [c|]; [|apply u128_wrap_range]. unfold donation_of in Hdon.
  apply bind_Ret in Hdon as (bv & _ & Hdon). apply bind_Ret in Hdon as (tv & _ & Hdon).
  destruct bv, tv; try done; apply bind_Ret in Hdon as (c' & Hc & [= <-]); apply from_vec_nonneg in Hc; auto.
  by apply add_donations_nonneg.
Qed.

Lemma inv_ray_nonneg p q : 0 <= p -> inv_ray p = Ret q -> 0 <= q.
Proof.
  unfold inv_ray. intros Hp. case_match; [by intros [= <-]|]. intros Hq.
  by apply (inv_ray_round_le p false) in Hq as [? _].
Qed.

Lemma scale_nonneg p fee q : 0 <= p -> scale_to_fee p fee = Ret q -> 0 <= q.
Proof.
  unfold scale_to_fee. intros Hp. case_match; [by intros [= <-]|]. intros (z & Hz & Hf)%bind_Ret.
  assert (0 <= p * Z.max 0 (const_1e6 - fee)) by (apply Z.mul_nonneg_nonneg; lia).
  apply div_round_inv in Hz as [_ ->]; [|done..]. apply from_limbs_inv in Hf as [-> _]; by apply div_to_nonneg.
Qed.

Lemma quantities_nonneg bid ei fill g fee p t1 t0 f : 0 <= fill -> 0 <= g -> 0 <= p ->
  get_quantities_at_price bid ei fill g fee p = Ret (t1, t0, f) -> 0 <= t1 /\ 0 <= t0 /\ 0 <= f.
Proof.
  intros Hf Hg Hp. assert (forall a c, 0 <= sat_sub a c) as Hs by (intros; unfold sat_sub; lia).
  unfold get_quantities_at_price. destruct bid, ei; intros H.
  - apply bind_Ret in H as (bp & Hbp & H). apply bind_Ret in H as (bf & Hbf & H).
    apply bind_Ret in H as (x & Hx & H). apply bind_Ret in H as (y & Hy & [= <- <- <-]). auto.
  - apply bind_Ret in H as (bp & Hbp & H). apply bind_Ret in H as (bf & Hbf & H).
    apply bind_Ret in H as (x & Hx & H). apply bind_Ret in H as (y & Hy & [= <- <- <-]).
    apply inv_ray_nonneg in Hbp; [|done]. apply scale_nonneg in Hbf; [|done].
    apply inverse_quantity_nonneg in Hx; [|done|apply u128_wrap_range]. split; [lia|auto].
  - apply bind_Ret in H as (bf & Hbf & H). apply bind_Ret in H as (x & Hx & H).
    apply bind_Ret in H as (y & Hy & [= <- <- <-]). apply scale_nonneg in Hbf; [|done].
    apply quantity_range in Hx; [|auto..]. apply inverse_quantity_nonneg in Hy; [|lia..]. split; [lia|].
    split; [lia|auto].
  - apply bind_Ret in H as (bf & Hbf & H). apply bind_Ret in H as (x & Hx & H).
    apply bind_Ret in H as (y & Hy & [= <- <- <-]).
    apply inverse_quantity_nonneg in Hy; [|lia..]. split; [lia|]. split; [lia|auto].
Qed.

Lemma order_flows_nonneg out o p fee qi qo f : 0 <= amount (order o) -> 0 <= gas (priority_data o) ->
  0 <= p -> (forall q, oo_outcome out = PartialFill q -> 0 <= q) ->
  order_flows out o p fee = Ret (qi, qo, f) -> 0 <= qi /\ 0 <= qo.
Proof.
  unfold order_flows. intros Ha Hg Hp Hq (g & Hgas & H)%bind_Ret. apply uint_to_u128_inv in Hgas as [-> _]; [|done].
  apply bind_Ret in H as ([[t1 t0] t0f] & Hqs & H).
  assert (0 <= fill_amount out (amount (order o))) as Hfill.
  { unfold fill_amount. generalize (amount (order o)) Ha. intros a ?.
    destruct (oo_outcome out) as [| |q|]; try lia. specialize (Hq q eq_refl). lia. }
  apply quantities_nonneg in Hqs as (? & ? & ?); [|done..].
  destruct (raw_is_bid (order o)); injection H as <- <- _; [done|]. split; [apply u128_wrap_range|done].
Qed.

(** The numbers of an order and of a solution are words. *)
Definition order_words o : Prop := 0 <= amount (order o) /\ 0 <= gas (priority_data o).

Record solution_words obp s : Prop := {
  sw_ucp : 0 <= sol_ucp s;
  sw_searcher : forall t, sol_searcher s = Some t ->
    0 <= tob_quantity_in (order t) /\ 0 <= tob_quantity_out (order t) /\ 0 <= gas (priority_data t);
  sw_outcomes : forall out q, out ∈ sol_limit s -> oo_outcome out = PartialFill q -> 0 <= q;
  sw_orders : forall o, o ∈ default ∅ (obp !! sol_id s) -> order_words o
}.

Lemma filled_orders_outcome outs l out o : (out, o) ∈ filled_orders outs l -> out ∈ outs.
Proof.
  revert l. induction outs as [|out' outs IH]; cbn; intros l H; [by apply elem_of_nil in H|].
  apply elem_of_app in H as [H|H]; [|right; by eapply IH].
  destruct (outcome_is_filled out'), (l !! oo_id out'); cbn in H; try (by apply elem_of_nil in H).
  apply list_elem_of_singleton in H as [= -> _]. left.
Qed.

Lemma tob_gas_nonneg shared k t c : 0 <= gas (priority_data t) -> tob_ok shared k (t, c) ->
  0 <= ct_gas_used_asset_0 c.
Proof.
  unfold tob_ok, of_tob, of_max_gas. cbn. intros Hg H. destruct shared.
  - apply bind_Ret in H as (sig & _ & [= H]). case_match; [done|]. injection H as <-. cbn. unfold u128_max. lia.
  - apply bind_Ret in H as (sig & _ & H). apply bind_Ret in H as (g & H & [= <-]). cbn.
    by apply uint_to_u128_inv in H as [-> _].
Qed.

Lemma placed_nonneg obp shared k pl : placed_ok obp shared k pl -> solution_words obp (pl_solution pl) ->
  amounts_nonneg (placed_ops pl) /\ swaps_first (placed_ops pl).
Proof.
  intros Hpo [Hp Ht Hout Ho]. destruct (po_pool _ _ _ _ Hpo) as (info & _ & _ & Hs).
  apply settle_amounts in Hs as (Hi & Hu & Hd). unfold amounts_nonneg, swaps_first, placed_ops.
  rewrite !Forall_app. split; (split; [|split]).
  - destruct (pl_tob pl) as [[t c]|] eqn:Et; [|constructor].
    destruct (Ht t) as (? & ? & Hg); [by rewrite <-(po_tob _ _ _ _ Hpo), Et|].
    pose proof (tob_gas_nonneg _ _ _ _ Hg (po_tob_ok _ _ _ _ Hpo _ Et)). by repeat constructor.
  - apply Forall_fmap, Forall_forall. intros x Hx. pose proof (po_fills _ _ _ _ Hpo) as Hf.
    rewrite Forall_forall in Hf. destruct (Hf x Hx) as [Hfl _].
    assert ((fi_outcome x, fi_order x) ∈ filled_orders (sol_limit (pl_solution pl))
      (order_list obp (sol_id (pl_solution pl)))) as Hin
      by (rewrite <-(po_filled _ _ _ _ Hpo); by apply (list_elem_of_fmap_2 (fun x => (fi_outcome x, fi_order x)))).
    pose proof (filled_orders_outcome _ _ _ _ Hin) as Hin'.
    apply filled_orders_elem in Hin as [k' [Ha Hg]%order_list_elem%Ho].
    apply order_flows_nonneg in Hfl as [? ?]; [by repeat constructor|done..|]. intros q. by apply Hout.
  - unfold pool_ops. rewrite (po_saved _ _ _ _ Hpo).
    destruct (zero_for_one (pl_net pl)); repeat constructor; try done; apply u128_wrap_range.
  - destruct (pl_tob pl) as [[t c]|]; by repeat constructor.
  - apply Forall_fmap, Forall_forall. by intros x _.
  - unfold pool_ops. destruct (zero_for_one (pl_net pl)); by repeat constructor.
Qed.

(** C14. What a bundle borrows covers what it pays.  For the parts that were placed
    for the solutions of the known pools, and for every asset: the amount borrowed
    from Uniswap beyond the amount settled is what the pool swaps give less what
    they take, the amount saved is the fees and what is left of the receipts, and
    at every moment of the run of the contract the borrowed amount and the receipts
    cover the payments so far, as long as the amounts of the asset fit the words of
    the contract. *)
Theorem bundle_amounts_cover pools obp shared sols bd (Hn : Z.of_nat (length sols) <= 2 ^ 15)
    (Hb : build_bundle pools obp shared sols = Ret (Ok bd))
    (Hw : forall s, s ∈ sols -> solution_words obp s) :
  exists pls, pl_solution <$> pls ≡ₚ known_solutions pools sols /\
    (forall k pl, pls !! k = Some pl -> placed_ok obp shared k pl) /\
    forall x : Asset, x ∈ bundle_assets bd ->
      let fs := flows_over (pls ≫= placed_ops) (addr x) in
      volume_of fs <= u128_max ->
      take x - settle x = swapped_out fs - swapped_in fs /\
      save x = charged fs + Z.max 0 (received fs + swapped_out fs - paid_out fs - swapped_in fs) /\
      forall k, 0 <= take x + received (firstn k fs) - paid_out (firstn k fs).
Proof.
  destruct (build_bundle_inv _ _ _ _ _ Hn Hb) as (b & pls & Hbt). exists pls.
  split; [by eapply built_solutions|]. split; [apply (bt_ok _ _ _ _ _ _ _ Hbt)|].
  assert (amounts_nonneg (pls ≫= placed_ops) /\ swaps_first (pls ≫= placed_ops)) as [Hnn Hsf].
  { assert (forall pl, pl ∈ pls -> amounts_nonneg (placed_ops pl) /\ swaps_first (placed_ops pl)) as Hall.
    { intros pl Hpl. destruct (built_part _ _ _ _ _ _ _ _ Hbt Hpl) as (k & _ & Hpo & _ & Hs & _).
      by eapply placed_nonneg, Hw. }
    unfold amounts_nonneg, swaps_first. rewrite !Forall_forall. split;
      intros op (pl & Hop & Hpl)%list_elem_of_bind; destruct (Hall pl Hpl) as [H1 H2];
      [by apply (proj1 (Forall_forall _ _) H1)|by apply (proj1 (Forall_forall _ _) H2)]. }
  intros x Hx fs Hv. apply (borrowed_amounts b (pls ≫= placed_ops) x); try done.
  - apply (bt_fresh _ _ _ _ _ _ _ Hbt).
  - apply (bt_array _ _ _ _ _ _ _ Hbt).
  - rewrite (bt_bundle _ _ _ _ _ _ _ Hbt) in Hx. cbn [bundle_of bundle_assets] in Hx.
    destruct (place_all b pls) as (_ & _ & _ & _ & E). by rewrite E in Hx.
Qed.

(** ** What the orders of a proposal pay for gas *)

Lemma from_internal_gas o out i u : from_internal_order o out i = Ret (Ok u) ->
  uo_extra_fee_asset0 u <= uo_max_extra_fee_asset0 u.
Proof.
  unfold from_internal_order. intros ([[[qs sv] r] h] & _ & H)%bind_Ret. apply bind_Ret in H as (g & _ & H).
  destruct (Z.ltb_spec (max_gas_token_0 (order o)) g) as [|Hg]; [done|].
  apply bind_Ret in H as (u' & Hu & [= ->]). unfold user_order_of in Hu.
  apply bind_Ret in Hu as (? & _ & Hu). apply bind_Ret in Hu as (? & _ & [= <-]). exact Hg.
Qed.

Lemma bundle_gas_within_max p orders pools bd :
  Z.of_nat (length (prop_solutions p)) <= 2 ^ 15 -> from_proposal p orders pools = Ret (Ok bd) ->
  Forall (fun u => uo_extra_fee_asset0 u <= uo_max_extra_fee_asset0 u) (user_orders bd) /\
  Forall (fun c => ct_gas_used_asset_0 c <= ct_max_gas_asset_0 c) (top_of_block_orders bd).
Proof.
  intros Hn Hb. unfold from_proposal in Hb. destruct (fetch_total_orders_and_gas_delegated_to_orders _ _) as [n g].
  destruct (n =? 0); [done|]. destruct (build_bundle_inv _ _ _ _ _ Hn Hb) as (b & pls & Hbt).
  pose proof (fun pl => built_part _ _ _ _ _ _ _ pl Hbt) as Hk. rewrite (bt_bundle _ _ _ _ _ _ _ Hbt).
  destruct (place_orders b pls) as [Eu Et]. cbn [bundle_of user_orders top_of_block_orders].
  rewrite Eu, Et, !Forall_fmap, !Forall_forall. split.
  - intros x (pl & Hx & Hpl)%list_elem_of_bind. destruct (Hk pl Hpl) as (k & _ & Hpo & _).
    pose proof (proj1 (Forall_forall _ _) (po_fills _ _ _ _ Hpo) x Hx) as [_ Hc].
    by apply from_internal_gas in Hc.
  - intros [t c] (pl & Hpl & Hc)%list_elem_of_omap. destruct (Hk pl Hpl) as (k & _ & Hpo & _).
    apply (po_tob_ok _ _ _ _ Hpo) in Hc. unfold tob_ok, of_tob in Hc. cbn in Hc.
    apply bind_Ret in Hc as (sig & _ & [= Hc]). cbn.
    destruct (Z.ltb_spec (tob_max_gas_asset0 (order t)) (Z.min (gas (priority_data t)) u128_max)); [done|].
    injection Hc as <-. done.
Qed.

(** C32. No order of the bundle of a proposal pays more gas than its user allows: a
    proposal with an order that would is refused, and in the bundle of any other
    the fee of every user order and the gas of every top-of-block order are within
    the maximum that the order states. *)
Theorem proposal_gas_within_max p orders pools bd (Hn : Z.of_nat (length (prop_solutions p)) <= 2 ^ 15)
    (Hb : from_proposal p orders pools = Ret (Ok bd)) :
  Forall (fun u => uo_extra_fee_asset0 u <= uo_max_extra_fee_asset0 u) (user_orders bd) /\
  Forall (fun c => ct_gas_used_asset_0 c <= ct_max_gas_asset_0 c) (top_of_block_orders bd).
Proof. by eapply bundle_gas_within_max. Qed.

(** ** What a bundle needs of its users *)

Definition amount_at (m : Amounts) (token user : Address) : u128 :=
  default 0 (m !! token ≫= (fun inner => inner !! user)).

Lemma add_amount_at m token user q token' user' : 0 <= q <= u128_max ->
  amount_at (add_amount m token user q) token' user' =
    if decide (token' = token /\ user' = user) then u128_sat_add (amount_at m token' user') q
    else amount_at m token' user'.
Proof.
  intros Hq. unfold amount_at, add_amount. rewrite lookup_insert.
  destruct (decide (token = token')) as [<-|Ht]; cbn; [|by rewrite decide_False by naive_solver].
  rewrite lookup_insert. destruct (decide (user = user')) as [<-|Hu]; cbn.
  - rewrite decide_True by done. destruct (m !! token) as [inner|]; cbn;
      [destruct (inner !! user)|rewrite lookup_empty]; cbn; unfold u128_sat_add; lia.
  - rewrite decide_False by naive_solver. destruct (m !! token); cbn; [done|by rewrite lookup_empty].
Qed.

Definition Need : Type := bool * Address * Address * u128.

(** The needs of a user for a token, from internal balances or not. *)
Definition needed (ns : list Need) (internal : bool) (token user : Address) : Z :=
  zsum ((fun n : Need => if decide (n.1 = (internal, token, user)) then n.2 else 0) <$> ns).

Definition all_overrides (ns : list Need) : TestnetStateOverrides :=
  foldl (fun v '(internal, token, user, qty) => add_override internal token user qty v)
    {| approvals := ∅; balances := ∅; angstrom_balances := ∅ |} ns.

Lemma overrides_fold (ns : list Need) : Forall (fun n => 0 <= n.2 <= u128_max) ns ->
  let v := all_overrides ns in
  forall token user,
    amount_at (angstrom_balances v) token user = Z.min u128_max (needed ns true token user) /\
    amount_at (balances v) token user = Z.min u128_max (needed ns false token user) /\
    amount_at (approvals v) token user = Z.min u128_max (needed ns false token user).
Proof.
  cbn zeta. induction ns as [|[[[i t] u] q] ns IH] using rev_ind; intros Hns token user; [by cbn|].
  apply Forall_app in Hns as [Hns Hq%Forall_inv]. cbn in Hq.
  destruct (IH Hns token user) as (H1 & H2 & H3). clear IH.
  unfold all_overrides in *. rewrite foldl_app. cbn [foldl]. fold (all_overrides ns) in *.
  set (v := all_overrides ns) in *. unfold needed in *. rewrite !fmap_app, !zsum_app. cbn.
  unfold add_override. destruct i; cbn; rewrite ?add_amount_at by done; unfold u128_sat_add;
    repeat case_decide; simplify_eq; try (by naive_solver); rewrite ?H1, ?H2, ?H3; lia.
Qed.

(** The words of the orders of a bundle. *)
Definition bundle_words (bd : AngstromBundle) : Prop :=
  Forall (fun p => 0 <= price_1over0 p) (bundle_pairs bd) /\
  Forall (fun u => 0 <= fetch_max_amount (uo_order_quantities u) <= u128_max) (user_orders bd) /\
  Forall (fun c => 0 <= ct_quantity_in c <= u128_max) (top_of_block_orders bd).

Lemma user_need_range bd block u n : Forall (fun p => 0 <= price_1over0 p) (bundle_pairs bd) ->
  0 <= fetch_max_amount (uo_order_quantities u) <= u128_max -> user_need bd block u = Ret n -> 0 <= n.2 <= u128_max.
Proof.
  intros Hp Hq. unfold user_need. intros ([token ?] & _ & H)%bind_Ret. apply bind_Ret in H as (user & _ & H).
  apply bind_Ret in H as (p & Hpair & H). apply bind_Ret in H as (qty & Hqty & [= <-]). cbn.
  assert (0 <= price_1over0 p) as Hpr.
  { unfold pair_at in Hpair. destruct (bundle_pairs bd !! _) as [p'|] eqn:E; [|done]. injection Hpair as ->.
    rewrite Forall_forall in Hp. apply Hp. by eapply list_elem_of_lookup_2. }
  destruct (uo_zero_for_one u), (uo_exact_in u); try (by injection Hqty as <-).
  - apply bind_Ret in Hqty as (r & _ & [= <-]). apply u128_wrap_range.
  - apply quantity_range in Hqty; [done..|apply u128_wrap_range].
Qed.

(** The state that a bundle needs is the sum of what its orders need: for every
    user and token, the internal balance, and the balance and the approval of the
    token, are the totals of the quantities of the orders of the user in the
    token that draw on it, capped at the largest word. *)
Theorem overrides_total bd block v (Hw : bundle_words bd) (Hv : fetch_needed_overrides bd block = Ret v) :
  exists us ts, traverse (user_need bd block) (user_orders bd) = Ret us /\
    traverse (tob_need bd block) (top_of_block_orders bd) = Ret ts /\
    forall token user,
      amount_at (angstrom_balances v) token user = Z.min u128_max (needed (us ++ ts) true token user) /\
      amount_at (balances v) token user = Z.min u128_max (needed (us ++ ts) false token user) /\
      amount_at (approvals v) token user = Z.min u128_max (needed (us ++ ts) false token user).
Proof.
  unfold fetch_needed_overrides in Hv. apply bind_Ret in Hv as (us & Hus & Hv).
  apply bind_Ret in Hv as (ts & Hts & [= <-]). exists us, ts. split; [done|]. split; [done|].
  destruct Hw as (Hp & Hu & Ht). apply overrides_fold. apply Forall_app. split; apply Forall_forall; intros n Hin.
  - apply (traverse_elem _ _ _ Hus) in Hin as (u & Hin & Hn). eapply user_need_range; [done| |done].
    by apply (proj1 (Forall_forall _ _) Hu).
  - apply (traverse_elem _ _ _ Hts) in Hin as (c & Hin & Hn). unfold tob_need in Hn.
    apply bind_Ret in Hn as ([token ?] & _ & Hn). apply bind_Ret in Hn as (user & _ & [= <-]). cbn.
    destruct (ct_zero_for_1 c); [apply u128_wrap_range|]. by apply (proj1 (Forall_forall _ _) Ht).
Qed.
End props.
