(* ===== verification/BundleExamples.v ===== *)
(** * A concrete bundle

    Two solutions, a matched bid and ask of one pool and the searcher order of
    another, on which the theorems of [BundleProps] are applied. *)

From S2P Require Import Prelude Ray Orders Samples Storage Rules Accounts Pool Donation Book ConsensusTypes Delta Assets Payload OrderKeys Bundle BundleProps.
Open Scope Z_scope.

(** A pool at the price 1 without liquidity. *)
Definition flat_pool : BaselinePoolState :=
  {| pool_liquidity := {| base_tick_spacing := 1; start_tick := 0; start_sqrt_price := 2 ^ 96;
       start_liquidity := 0; base_initialized_ticks := ∅; base_tick_bitmap := ∅ |};
     pool_block := 2; pool_fee := 0 |}.

(** An ask that gives asset 1 for asset 2. *)
Definition sample_ask : BookOrder :=
  {| order := ExactStanding {| es_ref_id := 0; es_exact_in := true; es_amount := 103;
       es_max_extra_fee_asset0 := 10; es_min_price := 10 ^ 27 / 2; es_use_internal := false;
       es_asset_in := 1; es_asset_out := 2; es_recipient := 0; es_hook_data := [5]; es_nonce := 4;
       es_deadline := 5000; es_meta := sample_meta 2 |};
     priority_data := {| price := 10 ^ 27 / 2; volume := 103; gas := 3; gas_units := 0 |};
     invalidates := []; pool_id := 7; is_currently_valid := None; is_bid := false; is_valid := true;
     valid_block := 1; order_id := sample_id 2 2 7 Limit; tob_reward := 0; cancel_requested := false |}.

(** The bid of [Payload] in the same pool. *)
Definition matched_bid : BookOrder :=
  sample_stored (order sample_bid) (sample_id 1 2 7 Limit) 4 None.

Definition matched_solution : PoolSolution :=
  {| sol_id := 7; sol_ucp := 10 ^ 27; sol_searcher := None; sol_amm_quantity := None;
     sol_limit := [{| oo_id := order_id matched_bid; oo_outcome := CompleteFill |};
                   {| oo_id := order_id sample_ask; oo_outcome := CompleteFill |}];
     sol_reward_t0 := 0; sol_fee := 0 |}.

Definition searcher_solution : PoolSolution :=
  {| sol_id := 3; sol_ucp := 0; sol_searcher := Some sample_top; sol_amm_quantity := None;
     sol_limit := []; sol_reward_t0 := 0; sol_fee := 0 |}.

Definition sample_solutions : list PoolSolution := [searcher_solution; matched_solution].

Definition sample_pools : Pools :=
  {[ 7 := (1, 2, flat_pool, 0); 3 := (1, 2, sample_pool, 1) ]}.

Section bundle_examples.
#[local] Existing Instance iter_by_encoding.
#[local] Existing Instance arith_Z.
#[local] Existing Instance sample_ratios.
#[local] Existing Instance sample_ticks.
#[local] Existing Instance sample_hasher.
#[local] Existing Instance sample_rewards.
#[local] Existing Instance sample_crypto.
#[local] Existing Instance insertion_sort.

Definition sample_orders : OrdersByPool := orders_by_pool [matched_bid; sample_ask].

Definition empty_bundle : AngstromBundle :=
  {| bundle_assets := []; bundle_pairs := []; pool_updates := []; top_of_block_orders := []; user_orders := [] |}.

Definition sample_bundle : AngstromBundle :=
  returned (build_bundle sample_pools sample_orders true sample_solutions) empty_bundle.

Lemma sample_bundle_built : build_bundle sample_pools sample_orders true sample_solutions = Ret (Ok sample_bundle).
Proof. apply succeeds_returned. vm_compute. reflexivity. Qed.

Lemma sample_solution s : s ∈ sample_solutions -> s = searcher_solution \/ s = matched_solution.
Proof. intros [->|Hs%list_elem_of_singleton]%elem_of_cons; auto. Qed.

Lemma sample_order id o : o ∈ default ∅ (sample_orders !! id) -> id = 7 /\ (o = matched_bid \/ o = sample_ask).
Proof.
  intros [[->| ->%list_elem_of_singleton]%elem_of_cons <-]%elem_of_orders_by_pool; auto.
Qed.

Lemma sample_recoverable : all_recoverable sample_pools sample_orders sample_solutions 2.
Proof.
  assert (forall a, from a = 2 -> signed_by_user a) as Hsig.
  { intros a Ha. exists {| sig_r := 2; sig_s := 1; sig_y_parity := true |}. split; [reflexivity|].
    rewrite Ha. reflexivity. }
  intros s t0 t1 sn st Hs Hp. apply sample_solution in Hs as [->| ->]; vm_compute in Hp; injection Hp as <- <- <- <-.
  - split; [|intros o [[=] _]%sample_order]. intros t [= <-].
    split; [by apply Hsig|reflexivity| |reflexivity]. intros b Hb. vm_compute in Hb. congruence.
  - split; [discriminate|]. intros o [_ [->| ->]]%sample_order;
      (split; [by apply Hsig|reflexivity| |reflexivity]); intros b Hb; vm_compute in Hb; discriminate.
Qed.

Lemma sample_words s : s ∈ sample_solutions -> solution_words sample_orders s.
Proof.
  intros [->| ->]%sample_solution; (split; [vm_compute; discriminate| | |]).
  - intros t [= <-]. split_and!; vm_compute; discriminate.
  - intros out q H. by apply elem_of_nil in H.
  - intros o [[=] _]%sample_order.
  - discriminate.
  - intros out q [->| ->%list_elem_of_singleton]%elem_of_cons; discriminate.
  - intros o [_ [->| ->]]%sample_order; split; vm_compute; discriminate.
Qed.

(** The same solutions for pools of different tokens. *)
Definition layout_pools : Pools :=
  {[ 7 := (1, 2, flat_pool, 0); 3 := (1, 3, sample_pool, 1) ]}.

Definition layout_bundle : AngstromBundle :=
  returned (build_bundle layout_pools sample_orders true sample_solutions) empty_bundle.

Lemma layout_bundle_built : build_bundle layout_pools sample_orders true sample_solutions = Ret (Ok layout_bundle).
Proof. apply succeeds_returned. vm_compute. reflexivity. Qed.

Lemma layout_distinct : solutions_distinct layout_pools sample_solutions.
Proof.
  split; [|by_decide]. intros s t0 t1 [->| ->]%sample_solution E; vm_compute in E; by injection E as <- <-.
Qed.

Lemma bundle_layout_witness : read_assets 0 (bundle_assets layout_bundle) = true /\
  read_pairs (bundle_assets layout_bundle) 0 (bundle_pairs layout_bundle) = true /\
  length (bundle_pairs layout_bundle) = 2%nat /\
  Forall (fun u => refers (length (bundle_pairs layout_bundle)) (uo_pair_index u)) (user_orders layout_bundle).
Proof.
  assert (Z.of_nat (length sample_solutions) <= 2 ^ 15) as Hn by (vm_compute; discriminate).
  destruct (bundle_layout layout_pools sample_orders true sample_solutions layout_bundle Hn layout_bundle_built
    layout_distinct) as (H1 & H2 & _ & H3 & _).
  split; [exact H1|]. split; [exact H2|]. split; [vm_compute; reflexivity|exact H3].
Defined.

(** Two pools of the same tokens give one pair twice, and the contract refuses the
    bundle. *)
Theorem same_tokens_refused : build_bundle sample_pools sample_orders true sample_solutions = Ret (Ok sample_bundle) /\
  read_assets 0 (bundle_assets sample_bundle) = true /\
  read_pairs (bundle_assets sample_bundle) 0 (bundle_pairs sample_bundle) = false.
Proof. split; [exact sample_bundle_built|]. split; vm_compute; reflexivity. Qed.

Lemma bundle_orders_recovered_witness : exists ks, ks ≡ₚ known_solutions sample_pools sample_solutions /\
  get_accounts sample_bundle 2 = Ret (((fun t => from (order t)) <$> searchers_of ks) ++
    ((fun o => from (order o)) <$> fills_of sample_orders ks)).
Proof.
  assert (Z.of_nat (length sample_solutions) <= 2 ^ 15) as Hn by (vm_compute; discriminate).
  destruct (bundle_orders_recovered sample_pools sample_orders true sample_solutions sample_bundle 2 Hn
    sample_bundle_built sample_recoverable) as (ks & H1 & _ & H2).
  exists ks. split; [exact H1|exact H2].
Defined.

Lemma bundle_amounts_cover_witness : exists pls,
  pl_solution <$> pls ≡ₚ known_solutions sample_pools sample_solutions /\
  bundle_assets sample_bundle = [{| addr := 1; save := 9; take := 196; settle := 97 |};
                                 {| addr := 2; save := 1; take := 0; settle := 99 |}].
Proof.
  assert (Z.of_nat (length sample_solutions) <= 2 ^ 15) as Hn by (vm_compute; discriminate).
  destruct (bundle_amounts_cover sample_pools sample_orders true sample_solutions sample_bundle Hn
    sample_bundle_built sample_words) as (pls & H1 & _). exists pls. split; [exact H1|vm_compute; reflexivity].
Defined.

Lemma overrides_total_witness : exists v, fetch_needed_overrides sample_bundle 2 = Ret v /\
  exists us ts, traverse (user_need sample_bundle 2) (user_orders sample_bundle) = Ret us /\
    amount_at (balances v) 2 2 = Z.min u128_max (needed (us ++ ts) false 2 2).
Proof.
  destruct (fetch_needed_overrides sample_bundle 2) as [v|] eqn:Hv; [|vm_compute in Hv; discriminate].
  exists v. split; [reflexivity|].
  assert (bundle_words sample_bundle) as Hw.
  { unfold bundle_words. refine (bool_decide_unpack _ _). vm_compute. exact I. }
  destruct (overrides_total sample_bundle 2 v Hw Hv) as (us & ts & H1 & _ & H2).
  exists us, ts. split; [exact H1|]. apply (H2 2 2).
Defined.

(** The proposal of these solutions. *)
Definition no_signature : Signature := {| sig_r := 0; sig_s := 0; sig_y_parity := false |}.

Definition sample_proposal : Proposal :=
  {| prop_block_height := 2; prop_source := 1;
     prop_preproposals := [{| agg_block_height := 2; agg_source := 1; agg_signature := no_signature;
       agg_pre_proposals := [{| pp_block_height := 2; pp_source := 1; pp_limit := [1; 2]; pp_searcher := [1];
                                pp_signature := no_signature |}] |}];
     prop_solutions := sample_solutions; prop_signature := no_signature |}.

Definition sample_set : Storage.OrderSet :=
  {| Storage.limit := [matched_bid; sample_ask]; Storage.searcher := [sample_top] |}.

Lemma proposal_gas_within_max_witness : exists bd,
  from_proposal sample_proposal sample_set sample_pools = Ret (Ok bd) /\ length (user_orders bd) = 2%nat /\
  Forall (fun u => uo_extra_fee_asset0 u <= uo_max_extra_fee_asset0 u) (user_orders bd).
Proof.
  set (bd := returned (from_proposal sample_proposal sample_set sample_pools) empty_bundle).
  assert (from_proposal sample_proposal sample_set sample_pools = Ret (Ok bd)) as Hb
    by (apply succeeds_returned; vm_compute; reflexivity).
  exists bd. split; [exact Hb|]. split; [vm_compute; reflexivity|].
  assert (Z.of_nat (length (prop_solutions sample_proposal)) <= 2 ^ 15) as Hn by (vm_compute; discriminate).
  exact (proj1 (proposal_gas_within_max sample_proposal sample_set sample_pools bd Hn Hb)).
Defined.
End bundle_examples.
