(* ===== verification/Solvency.v ===== *)
(** * The bundle of a solution is solvent

    The matcher and the construction of the bundle agree: the T1 that the bids and
    the AMM bring into the bundle covers the T1 that the asks and the AMM take out
    of it.  The file joins [DeltaProps] (the clearing price balances T1) and
    [BundleProps] (what is placed for a solution). *)

From S2P Require Import Prelude Ray Orders Samples Storage Rules Accounts Pool Donation Book ConsensusTypes Delta DeltaProps Assets Payload OrderKeys Bundle BundleProps.
Open Scope Z_scope.

Section solvency.
Context `{HI : HashIter} `{AL : ArithLib} `{OH : OrderHasher} `{SR : SqrtRatios} `{TL : TickLib}
  `{RH : RewardHasher} `{OC : !OrderCrypto} `{SL : SortLib}.
Implicit Types (o : BookOrder) (m : DeltaMatcher) (p : Ray) (fee : u128) (dead : gset OrderId) (x : Fill)
  (pl : Placed).

(** ** The T1 of an order that is filled completely *)

Definition t1_of fee p o : outcome u128 :=
  g ← uint_to_u128 (gas (priority_data o));
  '(t1, _, _) ← get_quantities_at_price (raw_is_bid (order o)) (exact_in (order o)) (amount (order o)) g fee p;
  Ret t1.

(** What the order adds to the T1 of the market. *)
Definition t1_added fee p o : Z :=
  match t1_of fee p o with Ret q => if is_bid o then q else - q | Panic => 0 end.

Lemma amount_in_out_t1 fee p o i u : is_bid o = raw_is_bid (order o) ->
  get_amount_in_out o (amount (order o)) fee p = Ret (i, u) -> t1_added fee p o = if is_bid o then i else - u.
Proof.
  unfold get_amount_in_out, t1_added, t1_of. intros Hb (g & -> & H)%bind_Ret. cbn [mbind outcome_bind].
  apply bind_Ret in H as ([[t1 t0] f] & -> & H). cbn. rewrite Hb. by destruct (raw_is_bid (order o)); injection H as <- <-.
Qed.

Lemma flows_t1 fee p o out i u f : is_bid o = raw_is_bid (order o) -> oo_outcome out = CompleteFill ->
  order_flows out o p fee = Ret (i, u, f) -> t1_added fee p o = if is_bid o then i else - u.
Proof.
  unfold order_flows, t1_added, t1_of, fill_amount. intros Hb -> (g & -> & H)%bind_Ret. cbn [mbind outcome_bind].
  apply bind_Ret in H as ([[t1 t0] f'] & -> & H). cbn. rewrite Hb. by destruct (raw_is_bid (order o)); injection H as <- <- _.
Qed.

(** ** The orders that a price admits *)

Definition countedb fee p dead o : bool :=
  match own_limit fee o with
  | Ret pr => (if is_bid o then p <=? pr else pr <=? p) && negb (bool_decide (order_id o ∈ dead))
  | Panic => false
  end.

Definition t1_total fee p dead (l : list BookOrder) : Z :=
  zsum (t1_added fee p <$> filter (fun o => countedb fee p dead o = true) l).

(** Equal up to the wrapping of 256-bit integers. *)
Definition same_i256 (a b : Z) : Prop := exists k, a = b + k * 2 ^ 256.

Lemma i256_wrap_same a : same_i256 (i256_wrap a) a.
Proof.
  unfold i256_wrap, same_i256. pose proof (Z.div_mod (a + 2 ^ 255) (2 ^ 256) ltac:(lia)).
  exists (- ((a + 2 ^ 255) / 2 ^ 256)). lia.
Qed.

Lemma i256_wrap_of a b : same_i256 a b -> - 2 ^ 255 <= b < 2 ^ 255 -> i256_wrap a = b.
Proof.
  intros [k ->] Hb. unfold i256_wrap.
  replace (b + k * 2 ^ 256 + 2 ^ 255) with (b + 2 ^ 255 + k * 2 ^ 256) by lia.
  rewrite Z.mod_add by lia. rewrite Z.mod_small by lia. lia.
Qed.

(** The orders of a side that pay gas count with their whole amounts. *)
Lemma process_side_t1 fee p dead (side : bool) acc l acc' : 0 <= fee ->
  (forall o, o ∈ l -> is_bid o = side /\ exists lp g, exact_in_order o lp g) ->
  process_side fee p dead
    (fun o => if side then l ← bid_limit fee o; Ret (p <=? l) else l ← ask_limit fee o; Ret (l <=? p))
    acc l = Ret acc' ->
  same_i256 (net_t1 acc') (net_t1 acc + t1_total fee p dead l).
Proof.
  intros Hfee. unfold t1_total. revert acc. induction l as [|o l IH]; cbn [process_side]; intros acc Hl H.
  { injection H as <-. exists 0. cbn. lia. }
  apply bind_Ret in H as (ok & Hadm & H). apply bind_Ret in H as (acc1 & Hp & H).
  apply IH in H as [k Hk]; [|set_solver]. destruct (Hl o) as [Hb (lp & g & Ho)]; [left|].
  assert (countedb fee p dead o = ok && negb (bool_decide (order_id o ∈ dead))) as Ec.
  { unfold countedb, own_limit. rewrite Hb. destruct side; apply bind_Ret in Hadm as (pr & -> & [= <-]); done. }
  rewrite filter_cons, Ec. destruct (ok && _) eqn:Eok.
  2: { injection Hp as <-. rewrite decide_False by done. by exists k. }
  rewrite decide_True by done. rewrite fmap_cons. cbn [zsum].
  apply andb_true_iff in Eok as [-> _].
  unfold process_order in Hp. apply bind_Ret in Hp as (own & Hown & Hp).
  assert (p <> own) as Hne.
  { destruct side; apply bind_Ret in Hadm as (pr & Hpr & [= Hle]); apply Z.leb_le in Hle;
      apply (never_at_price fee o lp g pr); try done; unfold own_limit, no_worse; by rewrite Hb. }
  unfold fill_range in Hp. rewrite (proj2 (Z.eqb_neq p own)) in Hp by done.
  apply bind_Ret in Hp as ([i u] & Hio & Hp). apply amount_in_out_t1 in Hio; [|apply (eo_side _ _ _ Ho)].
  rewrite Hio. destruct (is_bid o); injection Hp as <-; cbn [net_t1] in Hk.
  - destruct (i256_wrap_same (net_t1 acc + i)) as [k' Hk']. exists (k + k'). lia.
  - destruct (i256_wrap_same (net_t1 acc + - u)) as [k' Hk']. exists (k + k'). lia.
Qed.

Lemma order_liquidity_t1 m p dead ol : 0 <= dm_fee m ->
  (forall o, o ∈ bids (dm_book m) -> is_bid o = true /\ exists lp g, exact_in_order o lp g) ->
  (forall o, o ∈ asks (dm_book m) -> is_bid o = false /\ exists lp g, exact_in_order o lp g) ->
  order_liquidity m p dead = Ret ol ->
  same_i256 (net_t1 ol) (t1_total (dm_fee m) p dead (all_orders (dm_book m))).
Proof.
  intros Hfee Hbs Hks. unfold order_liquidity. intros (acc & Hb & Ha)%bind_Ret.
  apply (process_side_t1 _ _ _ false) in Ha as [k Hk]; [|done..].
  apply (process_side_t1 _ _ _ true) in Hb as [k' Hk']; [|done..].
  unfold all_orders, t1_total in *. rewrite filter_app, fmap_app, zsum_app. cbn in Hk'.
  exists (k + k'). lia.
Qed.

(** ** The orders that are filled *)

(** No order sits exactly at the price. *)
Definition none_at fee p (l : list BookOrder) : Prop := forall o, o ∈ l -> own_limit fee o <> Ret p.

Definition completed o : OrderOutcome * BookOrder :=
  ({| oo_id := order_id o; oo_outcome := CompleteFill |}, o).

Lemma order_outcome_off fee sol qs o s qs' : own_limit fee o <> Ret (ucp sol) ->
  order_outcome fee sol qs o = Ret (s, qs') ->
  qs' = qs /\ if countedb fee (ucp sol) (killed sol) o then s = CompleteFill
              else s = Unfilled \/ s = Killed.
Proof.
  unfold order_outcome, countedb, own_limit. intros Hne. case_bool_decide as Hk.
  { intros [= <- <-]. split; [done|]. by destruct (if is_bid o then _ else _); rewrite ?andb_false_r; auto. }
  intros (pr & Hpr & H)%bind_Ret. rewrite Hpr in *. rewrite andb_true_r.
  destruct (Z.compare_spec pr (ucp sol)) as [->|Hlt|Hgt]; [done|..]; destruct (is_bid o); injection H as <- <-;
    (split; [done|]); case_match; auto;
    repeat match goal with E : (_ <=? _) = _ |- _ => first [apply Z.leb_le in E|apply Z.leb_gt in E] end; lia.
Qed.

Lemma filled_counted fee sol l qs outs (L : gmap OrderId BookOrder) : fetch_outcomes fee sol qs l = Ret outs ->
  none_at fee (ucp sol) l -> NoDup (order_id <$> l) -> (forall o, o ∈ l -> L !! order_id o = Some o) ->
  filled_orders outs L = completed <$> filter (fun o => countedb fee (ucp sol) (killed sol) o = true) l.
Proof.
  revert qs outs L. induction l as [|o l IH]; cbn [fetch_outcomes]; intros qs outs L H Hne Hnd HL.
  { by injection H as <-. }
  apply bind_Ret in H as ([s qs'] & Hs & H). apply bind_Ret in H as (rest & Hr & [= <-]).
  rewrite fmap_cons in Hnd. apply NoDup_cons in Hnd as [Hni Hnd].
  apply order_outcome_off in Hs as [-> Hs]; [|apply Hne; left]. cbn [filled_orders oo_id].
  rewrite (IH _ _ _ Hr); [|intros o' Ho'; apply Hne; by right|done|].
  2: { intros o' Ho'. rewrite lookup_delete_ne; [apply HL; by right|].
       intros E. apply Hni. rewrite E. by apply list_elem_of_fmap_2. }
  rewrite filter_cons, (HL o) by left. unfold outcome_is_filled. cbn [oo_outcome].
  destruct (countedb fee (ucp sol) (killed sol) o); [subst s|destruct Hs as [->| ->]];
    by rewrite ?decide_True, ?decide_False by done.
Qed.

(** The list of the orders of a pool, when no two of them share an identifier. *)
Lemma order_list_lookup (obp : OrdersByPool) id o :
  (forall o1 o2, o1 ∈ default ∅ (obp !! id) -> o2 ∈ default ∅ (obp !! id) ->
     order_id o1 = order_id o2 -> o1 = o2) ->
  o ∈ default ∅ (obp !! id) -> order_list obp id !! order_id o = Some o.
Proof.
  unfold order_list. set (X := default ∅ (obp !! id)). intros Hinj Ho.
  assert (forall l (M : gmap OrderId BookOrder), (forall o', o' ∈ l -> o' ∈ X) ->
    (o ∈ l \/ M !! order_id o = Some o) ->
    foldl (fun M o => <[order_id o := o]> M) M l !! order_id o = Some o) as Hl.
  { intros l. induction l as [|o' l IH]; intros M Hin [Hm|Hm]; cbn; try done; [by apply elem_of_nil in Hm|..];
      (apply IH; [set_solver|]); rewrite lookup_insert.
    - apply elem_of_cons in Hm as [->|Hm]; [right; by rewrite decide_True|by left].
    - right. case_decide as E; [|done]. f_equal. apply Hinj; [set_solver|done|done]. }
  apply Hl; [intros o'; by rewrite elem_of_hs_iter|left; by rewrite elem_of_hs_iter].
Qed.

(** ** The T1 of the flows *)

(** What a flow adds to the balance of the contract. *)
Definition flow_value (f : Flow) : Z :=
  match f with FReceive q | FTake q => q | FPay q | FOwe q => - q | FFee _ => 0 end.

Definition balance (fs : list Flow) : Z := received fs + swapped_out fs - paid_out fs - swapped_in fs.

Lemma balance_sum fs : balance fs = zsum (flow_value <$> fs).
Proof.
  unfold balance, received, swapped_out, paid_out, swapped_in. induction fs as [|f fs IH]; [done|].
  destruct f; cbn in *; lia.
Qed.

Definition value_for (a : Address) (y : AssetBuilderStage * Address * Flow) : Z :=
  if decide (y.1.2 = a) then flow_value y.2 else 0.

Lemma balance_flows ops a : balance (flows_over ops a) = zsum (value_for a <$> concat (flows_of <$> ops)).
Proof.
  rewrite balance_sum. unfold flows_over, flows_at. set (ys := concat (flows_of <$> ops)).
  rewrite !fmap_app, !zsum_app. induction ys as [|[[st a'] f] ys IH]; [done|].
  rewrite !filter_cons, (fmap_cons (value_for a)). cbn [zsum]. rewrite <-IH. unfold value_for. cbn.
  repeat case_decide; simplify_eq; cbn; try lia; by destruct st.
Qed.

Definition fill_t1 x : Z := if is_bid (fi_order x) then fi_in x else - fi_out x.

(** The tokens of an order of the pool. *)
Definition trades (t0 t1 : Address) o : Prop :=
  (token_in (order o), token_out (order o)) = if is_bid o then (t1, t0) else (t0, t1).

Lemma fills_balance (t0 t1 : Address) (xs : list Fill) : t0 <> t1 -> Forall (fun x => trades t0 t1 (fi_order x)) xs ->
  zsum (value_for t1 <$> concat (flows_of <$> (fill_op <$> xs))) = zsum (fill_t1 <$> xs).
Proof.
  intros Hne. induction 1 as [|x xs Hx _ IH]; [done|].
  rewrite !fmap_cons. cbn [concat]. rewrite fmap_app, zsum_app, IH. cbn [zsum]. f_equal.
  unfold trades in Hx. unfold fill_op, fill_t1, flows_of, value_for.
  pose proof (f_equal fst Hx) as Hi. pose proof (f_equal snd Hx) as Hu.
  destruct (is_bid (fi_order x)); cbn [fst snd] in Hi, Hu; rewrite Hi, Hu; cbn;
    repeat case_decide; try congruence; lia.
Qed.

Lemma placed_balance pl : pl_t0 pl <> pl_t1 pl -> pl_tob pl = None ->
  Forall (fun x => trades (pl_t0 pl) (pl_t1 pl) (fi_order x)) (pl_fills pl) ->
  balance (flows_over (placed_ops pl) (pl_t1 pl)) = zsum (fill_t1 <$> pl_fills pl) + t1_signed (pl_net pl).
Proof.
  intros Hne Ht Hx. rewrite balance_flows. unfold placed_ops. rewrite Ht. cbn [tob_ops app].
  rewrite fmap_app, concat_app, fmap_app, zsum_app, (fills_balance (pl_t0 pl)) by done. f_equal.
  unfold pool_ops, t1_signed, input, output, value_for.
  destruct (zero_for_one (pl_net pl)); cbn; repeat case_decide; try congruence; cbn; lia.
Qed.

(** ** The AMM of the matcher and of the bundle *)

Lemma wrapped_sum_range (l : list Z) a : 0 <= a <= u128_max ->
  0 <= foldl (fun a c => u128_wrap (a + c)) a l <= u128_max.
Proof. revert a. induction l as [|y l IH]; intros a Ha; [done|]. cbn. apply IH, u128_wrap_range. Qed.

Lemma swap_t1_range ps r : swap ps = Ret (Ok r) -> 0 <= total_d_t1 r <= u128_max.
Proof.
  unfold swap. intros H. match type of H with (if ?c then _ else _) = _ => destruct c; [done|] end.
  destruct (swap_run ps) as [[[st|e]|]|]; cbn in H; try done.
  injection H as <-. cbn. unfold total. apply wrapped_sum_range. unfold u128_max. lia.
Qed.

Lemma amm_agrees m snapshot s net lp d rw a0 a1 : amm_start_location m = Some (noop snapshot) ->
  sol_ucp s <> 0 -> within_sqrt_price_bounds MIN_SQRT_RATIO MAX_SQRT_RATIO (sol_ucp s) = Ret true ->
  settle_pool s snapshot None lp = Ret (net, d, rw) ->
  fetch_concentrated_liquidity m (sol_ucp s) = Ret (a0, a1) ->
  (forall target, sqrt_of_ray (sol_ucp s) = Ret target ->
     zero_for_one net = (target <=? start_sqrt_price (pool_liquidity snapshot)) \/ total_d_t1 net = 0) ->
  a1 = t1_signed net /\ - u128_max <= a1 <= u128_max.
Proof.
  intros Hm Hu Hin Hs Hf Hd. unfold settle_pool in Hs. apply bind_Ret in Hs as (book & Hb & Hs).
  apply bind_Ret in Hs as (don & _ & Hs). apply bind_Ret in Hs as (net' & Hn & Hs).
  apply bind_Ret in Hs as (? & _ & [= -> _ _]). cbn in Hn. injection Hn as Hn.
  unfold book_swap in Hb. rewrite (proj2 (Z.eqb_neq _ _) Hu) in Hb.
  apply bind_Ret in Hb as (target & Ht & Hb). apply bind_Ret in Hb as ([v|e] & Hv & Hb); [|done].
  injection Hb as <-. cbn in Hn. subst v. specialize (Hd _ Ht).
  unfold fetch_concentrated_liquidity in Hf. rewrite Hin in Hf. cbn [mbind outcome_bind] in Hf.
  rewrite Ht, Hm in Hf. cbn [mbind outcome_bind] in Hf. rewrite Hv in Hf. cbn [mbind outcome_bind] in Hf.
  change (end_price (noop snapshot)) with (start_sqrt_price (pool_liquidity snapshot)) in Hf.
  unfold swap_to_price in Hv. apply bind_Ret in Hv as ([r|e] & _ & Hv); [|done]. apply swap_t1_range in Hv.
  unfold t1_signed. destruct Hd as [->|Hz]; [|rewrite Hz in *];
    destruct (target <=? start_sqrt_price (pool_liquidity snapshot)); injection Hf as <- <-; try lia;
    destruct (zero_for_one net); lia.
Qed.

(** ** Solvency *)

Lemma t1_of_range fee p o q lp g : exact_in_order o lp g -> 0 <= p -> t1_of fee p o = Ret q ->
  0 <= q <= u128_max.
Proof.
  intros Ho Hp. unfold t1_of. intros (g' & Hg & H)%bind_Ret. apply bind_Ret in H as ([[t1 t0] f] & H & [= <-]).
  pose proof (eo_fits _ _ _ Ho) as (Ha & Hg0 & Hsum & _). rewrite (eo_exact _ _ _ Ho) in H.
  apply uint_to_u128_inv in Hg as [-> Hg]; [|rewrite (eo_gas _ _ _ Ho); lia].
  revert H Ha Hsum. generalize (amount (order o)). intros a H Ha Hsum.
  unfold get_quantities_at_price in H. destruct (raw_is_bid (order o)).
  - apply bind_Ret in H as (? & _ & H). apply bind_Ret in H as (? & _ & H). apply bind_Ret in H as (? & _ & H).
    apply bind_Ret in H as (? & _ & [= <- _ _]). lia.
  - apply bind_Ret in H as (fp & Hfp & H). apply bind_Ret in H as (x & Hx & H).
    apply bind_Ret in H as (? & _ & [= <- _ _]). apply scale_nonneg in Hfp; [|done].
    eapply quantity_range; [exact Hfp| |exact Hx]. unfold sat_sub. lia.
Qed.

Lemma t1_total_range fee p dead (l : list BookOrder) : 0 <= p -> Z.of_nat (length l) <= 2 ^ 64 ->
  (forall o, o ∈ l -> exists lp g, exact_in_order o lp g) ->
  - 2 ^ 192 <= t1_total fee p dead l <= 2 ^ 192.
Proof.
  intros Hp Hn Hl. unfold t1_total. set (k := filter _ l).
  assert (length k <= length l)%nat as Hk by apply length_filter.
  pose proof (zsum_bounds (t1_added fee p <$> k) (- u128_max) u128_max) as Hb.
  rewrite length_fmap in Hb.
  assert (- u128_max * Z.of_nat (length k) <= zsum (t1_added fee p <$> k) <= u128_max * Z.of_nat (length k)) as Hz.
  { apply Hb. intros z (o & -> & Ho)%list_elem_of_fmap. subst k. apply list_elem_of_filter in Ho as [_ Ho].
    destruct (Hl o Ho) as (lp & g & Heo). unfold t1_added.
    destruct (t1_of fee p o) as [q|] eqn:E; [|unfold u128_max; lia].
    apply (t1_of_range _ _ _ _ _ _ Heo) in E; [|done]. destruct (is_bid o); lia. }
  unfold u128_max in Hz. nia.
Qed.

(** A book of exact-in orders of the pool that pay gas, each with its own
    identifier. *)
Record gas_book (bk : OrderBook) (t0 t1 : Address) : Prop := {
  gb_bids : forall o, o ∈ bids bk -> is_bid o = true /\ exists lp g, exact_in_order o lp g;
  gb_asks : forall o, o ∈ asks bk -> is_bid o = false /\ exists lp g, exact_in_order o lp g;
  gb_tokens : forall o, o ∈ all_orders bk -> trades t0 t1 o;
  gb_ids : NoDup (order_id <$> all_orders bk);
  gb_count : Z.of_nat (length (all_orders bk)) <= 2 ^ 64
}.

Lemma gas_book_order bk t0 t1 o : gas_book bk t0 t1 -> o ∈ all_orders bk -> exists lp g, exact_in_order o lp g.
Proof.
  intros Hb [Ho|Ho]%elem_of_app; [by destruct (gb_bids _ _ _ Hb o Ho)|by destruct (gb_asks _ _ _ Hb o Ho)].
Qed.

Lemma gas_book_bids_ok bk t0 t1 : gas_book bk t0 t1 -> bids_ok bk.
Proof.
  intros Hb o lp Ho Hlp. destruct (gb_bids _ _ _ Hb o Ho) as (_ & lp' & g & Heo).
  rewrite (eo_price _ _ _ Heo) in Hlp. injection Hlp as <-. apply (eo_nonneg _ _ _ Heo).
Qed.

(** What the market of a solution leaves of T1: nothing, or less than the price of
    one unit of T0. *)
Definition leftover p (t1 : Z) : Prop :=
  t1 = 0 \/ 0 <= t1 /\ exists unit, quantity p 1 false = Ret unit /\ t1 < unit.

Lemma solved_leftover m sol t0 t1 : solve_for_t0 m = false -> 0 < MAX_SQRT_RATIO <= 2 ^ 160 -> 0 <= dm_fee m ->
  gas_book (dm_book m) t0 t1 -> solve_clearing_price m = Ret (Some sol) ->
  exists a0 a1, fetch_concentrated_liquidity m (ucp sol) = Ret (a0, a1) /\ 0 < ucp sol /\
    (- u128_max <= a1 <= u128_max ->
       leftover (ucp sol) (a1 + t1_total (dm_fee m) (ucp sol) (killed sol) (all_orders (dm_book m)))).
Proof.
  intros Ht HM Hfee Hbk Hsol.
  apply solved_price in Hsol as [Hs [Hp _]]; [|done|done|by eapply gas_book_bids_ok].
  assert (forall t t' ol, market_at m (ucp sol) (killed sol) t t' ol ->
    exists a0 a1, fetch_concentrated_liquidity m (ucp sol) = Ret (a0, a1) /\ no_slack ol /\
      (- u128_max <= a1 <= u128_max ->
         t' = a1 + t1_total (dm_fee m) (ucp sol) (killed sol) (all_orders (dm_book m)))) as Hmk.
  { intros t t' ol (a0 & a1 & Ha & Hol & _ & ->). exists a0, a1. split; [done|].
    split; [by eapply gas_orders_no_slack; [|apply Hbk|apply Hbk|]|]. intros Hr.
    apply order_liquidity_t1 in Hol as [k Hk]; [|done|apply Hbk|apply Hbk].
    apply i256_wrap_of; [exists k; lia|].
    pose proof (t1_total_range (dm_fee m) (ucp sol) (killed sol) (all_orders (dm_book m)) ltac:(lia)
      (gb_count _ _ _ Hbk) (fun o => gas_book_order _ _ _ o Hbk)). unfold u128_max in *. lia. }
  destruct Hs as [(t & t' & ol & Hm & Hs)|(_ & _ & t & t' & ol & unit & Hm & Hu & Hlt)];
    apply Hmk in Hm as (a0 & a1 & Ha & (Hb & Hk & _) & Heq); exists a0, a1; (split; [done|]); (split; [done|]);
    intros Hr; rewrite <-Heq by done.
  - left. destruct (partial_fills sol) as [[b k]|]; [|tauto]. destruct Hs as (d & _ & _ & _ & _ & Hmin).
    rewrite Hb, Hk in Hmin. cbn in Hmin. unfold u128_max in Hmin. lia.
  - right. split; [lia|]. exists unit. split; [done|lia].
Qed.

(** The fills of a solution are the orders that its price admits. *)
Lemma fills_counted bk fee sol qs limit obp id t0 t1 : gas_book bk t0 t1 ->
  fetch_outcomes fee sol qs (all_orders bk) = Ret limit -> none_at fee (ucp sol) (all_orders bk) ->
  obp !! id = Some (list_to_set (all_orders bk) : gset BookOrder) ->
  filled_orders limit (order_list obp id) =
    completed <$> filter (fun o => countedb fee (ucp sol) (killed sol) o = true) (all_orders bk).
Proof.
  intros Hbk Hl Hoff Hset. eapply filled_counted; [exact Hl|done|apply Hbk|].
  intros o Ho. apply order_list_lookup; rewrite Hset; cbn; [|by apply elem_of_list_to_set].
  intros o1 o2 H1%elem_of_list_to_set H2%elem_of_list_to_set Hid.
  apply list_elem_of_lookup in H1 as [i1 H1], H2 as [i2 H2].
  pose proof (proj1 (NoDup_alt _) (gb_ids _ _ _ Hbk) i1 i2 (order_id o1)) as Hnd.
  rewrite !list_lookup_fmap, H1, H2 in Hnd. cbn in Hnd. rewrite Hid in Hnd.
  specialize (Hnd eq_refl eq_refl). congruence.
Qed.

(** Their T1 is what the matcher counted. *)
Lemma fills_t1 (xs : list Fill) fee p shared (k : nat) (l : list BookOrder) :
  (fun x => (fi_outcome x, fi_order x)) <$> xs = completed <$> l -> Forall (fill_made p fee shared k) xs ->
  (forall o, o ∈ l -> is_bid o = raw_is_bid (order o)) -> zsum (fill_t1 <$> xs) = zsum (t1_added fee p <$> l).
Proof.
  revert l. induction xs as [|x xs IH]; intros [|o l] E Hx Hl; try discriminate; [done|].
  injection E as Eo <- E. apply Forall_cons in Hx as [[Hf _] Hx]. rewrite !fmap_cons. cbn [zsum].
  rewrite (IH l E Hx) by (intros o' Ho'; apply Hl; by right). f_equal.
  unfold fill_t1. symmetry. refine (flows_t1 _ _ _ _ _ _ _ _ _ Hf); [apply Hl; left|by rewrite Eo].
Qed.

End solvency.
