(* ===== verification/SolvencyExamples.v ===== *)
(** * A solvent bundle

    A bid and an ask that match at the price of the AMM: the matcher solves the
    book, the solution is placed, and the T1 of the bundle is covered. *)

From S2P Require Import Prelude Ray Orders Samples Storage Rules Accounts Pool Donation Book ConsensusTypes Delta DeltaProps DeltaExamples Assets Payload OrderKeys Bundle BundleProps Solvency.
Open Scope Z_scope.

(** Twenty-one ticks around the price 1, a 64th of it apart. *)
Definition wide : Z := 2 ^ 90.

Definition wide_ratio (t : i32) : option U256 :=
  if (-10 <=? t) && (t <=? 10) then Some (2 ^ 96 + wide * t) else None.

Definition wide_tick (p : U256) : option i32 :=
  if (2 ^ 96 - wide * 10 <=? p) && (p <=? 2 ^ 96 + wide * 10) then Some ((p - 2 ^ 96) / wide) else None.

Lemma wide_ratio_inv t p : wide_ratio t = Some p -> -10 <= t <= 10 /\ p = 2 ^ 96 + wide * t.
Proof.
  unfold wide_ratio. destruct (Z.leb_spec (-10) t), (Z.leb_spec t 10); cbn [andb]; try done.
  intros [= <-]. lia.
Qed.

Lemma wide_ratio_defined t : is_Some (wide_ratio t) <-> -10 <= t <= 10.
Proof.
  split; [intros [p Hp]; by apply wide_ratio_inv in Hp as [H _]|].
  intros H. unfold wide_ratio. rewrite !(proj2 (Z.leb_le _ _)) by lia. by eexists.
Qed.

Lemma wide_tick_spec p t : wide_tick p = Some t -> -10 <= t <= 10 /\
  (forall q, wide_ratio t = Some q -> q <= p) /\ (forall q, wide_ratio (t + 1) = Some q -> p <= q).
Proof.
  unfold wide_tick. destruct (Z.leb_spec (2 ^ 96 - wide * 10) p), (Z.leb_spec p (2 ^ 96 + wide * 10));
    cbn [andb]; try done. intros [= <-]. assert (0 < wide) by done.
  pose proof (Z.div_mod (p - 2 ^ 96) wide ltac:(lia)). pose proof (Z.mod_pos_bound (p - 2 ^ 96) wide ltac:(lia)).
  split; [split; [apply Z.div_le_lower_bound|apply Z.div_le_upper_bound]; lia|].
  split; intros q [_ ->]%wide_ratio_inv; lia.
Qed.

Definition wide_ticks : TickLib.
Proof.
  refine {|
    MIN_TICK := -10; MAX_TICK := 10; get_sqrt_ratio_at_tick := wide_ratio;
    get_tick_at_sqrt_ratio := wide_tick;
    next_initialized_tick_within_one_word := sample_next; compute_swap_step := sample_step;
    ratio_defined := wide_ratio_defined; tick_of_ratio := wide_tick_spec;
    next_tick_progress := sample_next_progress;
    step_price := @step_price sample_ticks; step_amounts := @step_amounts sample_ticks;
    step_consumed := @step_consumed sample_ticks
  |}.
  - lia.
  - intros t t' p p' Ht [_ ->]%wide_ratio_inv [_ ->]%wide_ratio_inv. assert (0 < wide) by done. nia.
Defined.

(** Liquidity 5 between ticks -10 and 10, at the price 1. *)
Definition wide_pool : BaselinePoolState :=
  {| pool_liquidity := {| base_tick_spacing := 1; start_tick := 0; start_sqrt_price := 2 ^ 96;
       start_liquidity := 5;
       base_initialized_ticks := {[ -10 := {| liquidity_gross := 5; liquidity_net := 5; initialized := true |};
                                    10 := {| liquidity_gross := 5; liquidity_net := -5; initialized := true |} ]};
       base_tick_bitmap := {[ -10 := 1; 10 := 1 ]} |};
     pool_block := 2; pool_fee := 0 |}.

(** A bid of 1000 T1 that pays up to 1.25 and an ask of 1002 T0 that takes 0.75 or
    more. *)
Definition solvent_book : OrderBook :=
  {| book_id := 7; book_amm := Some wide_pool; bids := [sample_exact 1 true (8 * 10 ^ 26) 1000 1];
     asks := [sample_exact 2 false (75 * 10 ^ 25) 1002 2] |}.

Section solvency_examples.
#[local] Existing Instance iter_by_encoding.
#[local] Existing Instance arith_Z.
#[local] Existing Instance uniswap_ratios.
#[local] Existing Instance wide_ticks.
#[local] Existing Instance sample_hasher.
#[local] Existing Instance sample_rewards.
#[local] Existing Instance sample_crypto.
#[local] Existing Instance insertion_sort.

Definition solvent_matcher : DeltaMatcher :=
  {| dm_book := solvent_book; dm_fee := 0; solve_for_t0 := false; amm_start_location := Some (noop wide_pool) |}.

Definition no_solution : PoolSolution :=
  {| sol_id := 0; sol_ucp := 0; sol_searcher := None; sol_amm_quantity := None; sol_limit := [];
     sol_reward_t0 := 0; sol_fee := 0 |}.

Definition solvent_solution : PoolSolution := value_of (solution solvent_matcher None) no_solution.

Lemma solvent_solved : solution solvent_matcher None = Ret solvent_solution.
Proof. apply returns_value. vm_compute. reflexivity. Qed.

Lemma solvent_ucp : sol_ucp solvent_solution = 10 ^ 27.
Proof. vm_compute. reflexivity. Qed.

Lemma solvent_id : sol_id solvent_solution = 7.
Proof. vm_compute. reflexivity. Qed.

Lemma solvent_exact : gas_book solvent_book 1 2.
Proof.
  split.
  - intros o ->%list_elem_of_singleton. split; [done|]. exists (8 * 10 ^ 26), 1.
    split; try reflexivity; try (vm_compute; discriminate). split_and!; vm_compute; (reflexivity || discriminate).
  - intros o ->%list_elem_of_singleton. split; [done|]. exists (75 * 10 ^ 25), 2.
    split; try reflexivity; try (vm_compute; discriminate). split_and!; vm_compute; (reflexivity || discriminate).
  - intros o [->| ->%list_elem_of_singleton]%elem_of_cons; reflexivity.
  - refine (bool_decide_unpack _ _). vm_compute. exact I.
  - vm_compute. discriminate.
Qed.

Definition solvent_pools : Pools := {[ 7 := (1, 2, wide_pool, 0) ]}.
Definition solvent_orders : OrdersByPool := {[ 7 := list_to_set (all_orders solvent_book) ]}.
Definition solvent_start : Building := empty_building (index_assets solvent_pools [solvent_solution]).

Definition solvent_end : Building :=
  returned (process_solution solvent_orders solvent_solution wide_pool 1 2 0 true solvent_start) solvent_start.

Lemma solvent_processed :
  process_solution solvent_orders solvent_solution wide_pool 1 2 0 true solvent_start = Ret (Ok solvent_end).
Proof. apply succeeds_returned. vm_compute. reflexivity. Qed.

(** The AMM does not move. *)
Lemma solvent_update :
  (fun u => (pu_zero_for_one u, swap_in_quantity u)) <$> head (bl_updates solvent_end) = Some (false, 0).
Proof. vm_compute. reflexivity. Qed.

End solvency_examples.
