(* ===== verification/Matching.v ===== *)
(** * The matching engine

    The model of [crates/matching-engine/src/strategy/binary_search.rs] and of
    [crates/matching-engine/src/manager.rs]: one book per pool, one task per book,
    and the proposal that is made of their solutions.  The tasks run on other
    threads and finish in an order that is not known; a task that panics gives no
    solution.  The simulation of a bundle is behind the trait
    [BundleValidatorHandle]. *)

From S2P Require Import Prelude Ray Orders Samples Storage Rules Accounts Pool Donation Book ConsensusTypes Delta DeltaProps Assets Payload OrderKeys Bundle BundleProps.
Open Scope Z_scope.

(** [JoinSet::join_next] until it is empty: every task once, in the order in which
    they finish. *)
Class JoinOrder : Type := {
  joined : forall {A : Type}, list A -> list A;
  joined_perm : forall {A : Type} (l : list A), joined l ≡ₚ l
}.

Definition join_in_order : JoinOrder.
Proof. refine {| joined := fun _ l => l |}. done. Defined.

Record BundleGasDetails := { total_gas_cost_wei : u64 }.

(** [BundleValidatorHandle]. *)
Class BundleValidatorHandle : Type := {
  fetch_gas_for_bundle : AngstromBundle -> result BundleGasDetails string
}.

Inductive MatchingEngineError :=
| NoOrdersFilled
| SimulationFailed (e : string).

Abbreviation SearcherOrder := (OrderWithStorageData TopOfBlockOrder) (only parsing).

(** A command with the number of the channel that waits for its result. *)
Inductive MatcherCommand :=
| BuildProposal (limit : list BookOrder) (searcher : list SearcherOrder) (pools : Pools) (tx : nat)
| EstimateGasPerPool (limit : list BookOrder) (searcher : list SearcherOrder) (pools : Pools) (tx : nat).

Section matching.
Context `{HI : HashIter} `{AL : ArithLib} `{OH : OrderHasher} `{SR : SqrtRatios} `{TL : TickLib}
  `{RH : RewardHasher} `{OC : !OrderCrypto} `{SL : SortLib} `{JO : JoinOrder} `{BV : BundleValidatorHandle}.
Implicit Types (bk : OrderBook) (o : BookOrder) (r : PoolSolution).

(** ** The strategy *)

Definition tob_of (searcher : option SearcherOrder) : DeltaMatcherToB :=
  match searcher with None => NoToB | Some t => ToBOrder t end.

(** [BinarySearchStrategy::run]. *)
Definition run bk (searcher : option SearcherOrder) : outcome PoolSolution :=
  m ← new_matcher bk (tob_of searcher) false;
  solution m searcher.

Definition try_get_amm_location (m : DeltaMatcher) : outcome PoolSwapResult := unwrap (amm_start_location m).

(** The price, the tick and the liquidity at the end of a swap. *)
Definition end_state (v : PoolSwapResult) : U256 * i32 * u128 :=
  (end_price v, result_end_tick v, current_liquidity (end_liquidity v)).

(** The swap of the snapshot that makes up for two swaps one after the other. *)
Definition net_swap (snapshot : BaselinePoolState) (book : option PoolSwapResult) (tob : PoolSwapResult)
    : outcome PoolSwapResult :=
  let net_t0 := i256_wrap (default 0 (t0_signed <$> book) + t0_signed tob) in
  let dir := net_t0 <? 0 in
  let amount_in := if dir then Z.abs net_t0
                   else Z.abs (i256_wrap (default 0 (t1_signed <$> book) + t1_signed tob)) in
  res ← swap_current_with_amount snapshot (i256_from_raw amount_in) dir;
  match res with Ok v => Ret v | Err _ => Panic end.

Definition give_end_amm_state bk (searcher : option SearcherOrder) : outcome (U256 * i32 * u128) :=
  snapshot ← unwrap (book_amm bk);
  let l := pool_liquidity snapshot in
  if is_empty_book bk then Ret (start_sqrt_price l, start_tick l, start_liquidity l)
  else
    m ← new_matcher bk (tob_of searcher) false;
    sol ← solution m searcher;
    post_tob_swap ← try_get_amm_location m;
    if sol_ucp sol =? 0 then Ret (end_state post_tob_swap)
    else
      target ← sqrt_of_ray (sol_ucp sol);
      res ← swap_to_price post_tob_swap target;
      let book := match res with Ok v => Some v | Err _ => None end in
      v ← net_swap snapshot book post_tob_swap;
      Ret (end_state v).

(** ** The manager *)

Definition orders_sorted_by_pool_id (limit : list BookOrder) : OrdersByPool := orders_by_pool limit.

Definition build_non_proposal_books (limit : list BookOrder) (pools : Pools) : list OrderBook :=
  (fun '(id, orders) => build_book id ((fun v => v.1.2) <$> pools !! id) (hs_iter orders)) <$>
    hm_iter (orders_sorted_by_pool_id limit).

(** The searcher order of each pool; two for one pool panic. *)
Fixpoint searchers_by_pool (acc : gmap PoolId SearcherOrder) (l : list SearcherOrder)
    : outcome (gmap PoolId SearcherOrder) :=
  match l with
  | [] => Ret acc
  | t :: l' =>
      _ ← assert (bool_decide (acc !! pool_id t = None));
      searchers_by_pool (<[pool_id t := t]> acc) l'
  end.

(** The tasks of a proposal. *)
Definition solver_tasks (books : list OrderBook) (searchers : gmap PoolId SearcherOrder)
    : list (outcome PoolSolution) :=
  match books with
  | [] => (fun t => run (empty_book (pool_id t)) (Some t)) <$> hm_values searchers
  | _ :: _ => (fun b => run b (searchers !! book_id b)) <$> books
  end.

(** The results of the tasks that did not panic. *)
Definition finished (tasks : list (outcome PoolSolution)) : list PoolSolution :=
  omap (fun t => match t with Ret r => Some r | Panic => None end) (joined tasks).

Definition build_proposal (limit : list BookOrder) (searcher : list SearcherOrder) (pools : Pools)
    : outcome (result (list PoolSolution * BundleGasDetails) MatchingEngineError) :=
  let books := build_non_proposal_books limit pools in
  searchers ← searchers_by_pool ∅ searcher;
  let solutions := finished (solver_tasks books searchers) in
  bundle ← for_gas_finalization limit solutions pools;
  Ret match bundle with
  | Err _ => Err NoOrdersFilled
  | Ok b => match fetch_gas_for_bundle b with
            | Err e => Err (SimulationFailed e)
            | Ok g => Ok (solutions, g)
            end
  end.

(** [manager_thread]: the commands one after the other, each answered on its own
    channel; an estimate is not implemented and panics. *)
Fixpoint manager_thread (cmds : list MatcherCommand)
    : outcome (list (nat * result (list PoolSolution * BundleGasDetails) MatchingEngineError)) :=
  match cmds with
  | [] => Ret []
  | BuildProposal limit searcher pools tx :: cmds' =>
      res ← build_proposal limit searcher pools;
      rest ← manager_thread cmds';
      Ret ((tx, res) :: rest)
  | EstimateGasPerPool _ _ _ _ :: _ => Panic
  end.

(** ** Bundles for gas do not fail *)

Definition never_fails {A E} (m : outcome (result A E)) : Prop := forall e, m <> Ret (Err e).

Lemma never_fails_bind {A B E} (m : outcome A) (k : A -> outcome (result B E)) :
  (forall a, never_fails (k a)) -> never_fails (m ≫= k).
Proof. intros Hk e. destruct m as [a|]; [apply Hk|done]. Qed.

Lemma never_fails_try {A B E} (m : outcome (result A E)) (k : A -> outcome (result B E)) :
  never_fails m -> (forall a, never_fails (k a)) -> never_fails (and_try m k).
Proof. intros Hm Hk e. destruct m as [[a|e']|]; [apply Hk|by destruct (Hm e')|done]. Qed.

Lemma never_fails_ok {A E} (a : A) : never_fails (Ret (Ok a) : outcome (result A E)).
Proof. done. Qed.

Create HintDb never_fails.
#[local] Hint Resolve never_fails_bind never_fails_try never_fails_ok : never_fails.

Lemma apply_limit_never outs l ucp fee i bl fees : never_fails (apply_limit outs l ucp fee false i bl fees).
Proof.
  revert l bl fees. induction outs as [|out outs IH]; intros l bl fees; cbn [apply_limit]; [done|].
  destruct (outcome_is_filled out && _); [|apply IH]. apply never_fails_try; [|intros [bl' q]; apply IH].
  unfold apply_user_order, contract_order. apply never_fails_bind. intros o. apply never_fails_bind. intros _.
  apply never_fails_bind. intros [[qi qo] f]. auto with never_fails.
Qed.

Lemma apply_tob_never t0 i t bl : never_fails (apply_tob false t0 i t bl).
Proof. unfold apply_tob. auto with never_fails. Qed.

Lemma process_solution_never obp s sn t0 t1 st bl : never_fails (process_solution obp s sn t0 t1 st false bl).
Proof.
  unfold process_solution. destruct (Builder.add_or_get_asset (bl_assets bl) t0) as [b i0].
  destruct (Builder.add_or_get_asset b t1) as [b' i1]. cbn zeta.
  apply never_fails_try; [destruct (sol_searcher s); [apply apply_tob_never|done]|]. intros bl1.
  apply never_fails_try; [apply apply_limit_never|]. intros [bl2 fees].
  apply never_fails_bind. intros info. apply never_fails_bind. intros price.
  apply never_fails_bind. by intros [[net d] rw].
Qed.

Lemma for_gas_never limit sols pools : never_fails (for_gas_finalization limit sols pools).
Proof.
  unfold for_gas_finalization, build_bundle. set (b := index_assets pools sols).
  apply never_fails_try; [|done]. generalize (empty_building b).
  induction (sort_solutions pools b sols) as [|s l IH]; intros bl; cbn [process_solutions]; [done|].
  destruct (pools !! sol_id s) as [[[[t0 t1] sn] st]|]; [|apply IH].
  apply never_fails_try; [apply process_solution_never|apply IH].
Qed.

(** A proposal fails only when its simulation does: the bundle that measures
    its gas is always built, whatever was filled, so the engine never reports that
    no orders were filled. *)
Theorem proposal_fails_only_in_simulation limit searcher pools e
    (He : build_proposal limit searcher pools = Ret (Err e)) :
  exists b err, e = SimulationFailed err /\ fetch_gas_for_bundle b = Err err.
Proof.
  unfold build_proposal in He. apply bind_Ret in He as (searchers & _ & He).
  apply bind_Ret in He as (bd & Hb & [= He]). destruct bd as [b|e']; [|by apply for_gas_never in Hb].
  destruct (fetch_gas_for_bundle b) as [g|err] eqn:Hg; [done|]. injection He as <-. by exists b, err.
Qed.

(** ** Every order gets an outcome *)

Lemma outcome_ids fee sol qs l outs : fetch_outcomes fee sol qs l = Ret outs -> oo_id <$> outs = order_id <$> l.
Proof.
  revert qs outs. induction l as [|o l IH]; cbn [fetch_outcomes]; intros qs outs H; [by injection H as <-|].
  apply bind_Ret in H as ([s qs'] & _ & H). apply bind_Ret in H as (rest & Hr & [= <-]).
  rewrite !fmap_cons. by rewrite (IH _ _ Hr).
Qed.

Lemma run_outcomes bk searcher r : run bk searcher = Ret r ->
  sol_id r = book_id bk /\ sol_searcher r = searcher /\ oo_id <$> sol_limit r = order_id <$> all_orders bk.
Proof.
  unfold run. intros (m & Hm & H)%bind_Ret.
  assert (dm_book m = bk) as <- by (unfold new_matcher in Hm; by apply bind_Ret in Hm as (? & _ & [= <-])).
  unfold solution in H. apply bind_Ret in H as ([sol|] & _ & H); [|injection H as <-; cbn].
  - apply bind_Ret in H as (outs & Ho & H). apply bind_Ret in H as (amm & _ & [= <-]). cbn.
    by apply outcome_ids in Ho.
  - split; [done|]. split; [done|]. by rewrite <-list_fmap_compose.
Qed.

Lemma book_orders id amm (orders : list BookOrder) : all_orders (build_book id amm orders) ≡ₚ orders.
Proof.
  unfold all_orders. destruct (build_book_orders id amm orders) as [-> ->].
  induction orders as [|o l IH]; [done|]. rewrite !filter_cons.
  repeat case_decide; try (destruct (is_bid o); congruence).
  - rewrite <-app_comm_cons. by rewrite IH.
  - rewrite <-Permutation_middle. by rewrite IH.
Qed.

(** The orders of the books are the orders of the request, once each. *)
Lemma books_orders limit pools : (build_non_proposal_books limit pools ≫= all_orders) ≡ₚ remove_dups limit.
Proof.
  transitivity (hm_iter (orders_by_pool limit) ≫= (fun x => hs_iter x.2)).
  { unfold build_non_proposal_books, orders_sorted_by_pool_id.
    induction (hm_iter (orders_by_pool limit)) as [|[id set] l IH]; [done|].
    rewrite fmap_cons, !bind_cons, IH, book_orders. done. }
  rewrite hm_iter_perm.
  assert (forall id X o, (id, X) ∈ map_to_list (orders_by_pool limit) -> o ∈ hs_iter X -> o ∈ limit /\ pool_id o = id)
    as Hin.
  { intros id X o HX%elem_of_map_to_list Ho%elem_of_hs_iter. apply elem_of_orders_by_pool. by rewrite HX. }
  apply NoDup_Permutation; [|apply NoDup_remove_dups|].
  - apply NoDup_bind; [|intros [id X] _; apply hs_iter_NoDup|apply NoDup_map_to_list].
    intros [id X] [id' X'] o HX HX' Ho Ho'. cbn in Ho, Ho'.
    destruct (Hin id X o HX Ho) as [_ E], (Hin id' X' o HX' Ho') as [_ E'].
    apply elem_of_map_to_list in HX, HX'. congruence.
  - intros o. rewrite elem_of_remove_dups, list_elem_of_bind. split.
    + intros ([id X] & Ho & HX). by apply (Hin id X o HX).
    + intros Ho. assert (o ∈ default ∅ (orders_by_pool limit !! pool_id o)) as HX
        by (by apply elem_of_orders_by_pool).
      destruct (orders_by_pool limit !! pool_id o) as [X|] eqn:E; [|by apply elem_of_empty in HX].
      exists (pool_id o, X). split; [by apply elem_of_hs_iter|by apply elem_of_map_to_list].
Qed.

Lemma orders_by_pool_dom limit id : is_Some (orders_by_pool limit !! id) <-> exists o, o ∈ limit /\ pool_id o = id.
Proof.
  induction limit as [|o' l IH] using rev_ind.
  { unfold orders_by_pool. cbn. rewrite lookup_empty. split; [by intros []|]. intros (o & Ho & _).
    by apply elem_of_nil in Ho. }
  unfold orders_by_pool in *. rewrite foldl_app. cbn [foldl]. rewrite lookup_insert.
  case_decide as E; [split; [|done]; intros _; exists o'; set_solver|]. rewrite IH. set_solver.
Qed.

Lemma books_ids limit pools : book_id <$> build_non_proposal_books limit pools ≡ₚ remove_dups (pool_id <$> limit).
Proof.
  unfold build_non_proposal_books, orders_sorted_by_pool_id. rewrite <-list_fmap_compose.
  assert (forall l : list (PoolId * gset BookOrder), (book_id ∘ (fun '(id, orders) =>
    build_book id ((fun v => v.1.2) <$> pools !! id) (hs_iter orders))) <$> l = l.*1) as Hk.
  { intros l. apply list_fmap_ext. by intros i [id X] _. }
  rewrite Hk, hm_iter_perm. apply NoDup_Permutation; [apply NoDup_fst_map_to_list|apply NoDup_remove_dups|].
  intros id. rewrite elem_of_remove_dups, !list_elem_of_fmap. split.
  - intros ([id' X] & -> & HX%elem_of_map_to_list). destruct (proj1 (orders_by_pool_dom limit id')) as (o & ? & <-);
      [by eexists|]. eauto.
  - intros (o & -> & Ho). destruct (proj2 (orders_by_pool_dom limit (pool_id o))) as [X HX]; [eauto|].
    exists (pool_id o, X). split; [done|]. by apply elem_of_map_to_list.
Qed.

Lemma searchers_known (l : list SearcherOrder) acc m id : searchers_by_pool acc l = Ret m ->
  is_Some (acc !! id) -> find (fun t => bool_decide (pool_id t = id)) l = None.
Proof.
  revert acc. induction l as [|t l IH]; cbn [searchers_by_pool find]; intros acc H Hs; [done|].
  apply bind_Ret in H as ([] & Ha & H). destruct (bool_decide_reflect (acc !! pool_id t = None)) as [E|]; [|done].
  rewrite bool_decide_false by (intros <-; rewrite E in Hs; by destruct Hs).
  eapply IH; [exact H|]. destruct (decide (pool_id t = id)) as [<-|]; [by rewrite lookup_insert_eq|].
  by rewrite lookup_insert_ne.
Qed.

Lemma searchers_lookup (l : list SearcherOrder) acc m id : searchers_by_pool acc l = Ret m ->
  m !! id = match find (fun t => bool_decide (pool_id t = id)) l with Some t => Some t | None => acc !! id end.
Proof.
  revert acc. induction l as [|t l IH]; cbn [searchers_by_pool find]; intros acc H; [by injection H as <-|].
  apply bind_Ret in H as ([] & _ & H). rewrite (IH _ H). destruct (decide (pool_id t = id)) as [<-|E].
  - rewrite bool_decide_true by done. rewrite lookup_insert_eq.
    rewrite (searchers_known _ _ _ (pool_id t) H) by (by rewrite lookup_insert_eq). done.
  - rewrite bool_decide_false by done. destruct (find _ l); [done|]. by rewrite lookup_insert_ne.
Qed.

(** The solutions of tasks that all finish. *)
Lemma finished_all (books : list OrderBook) (f : OrderBook -> outcome PoolSolution) :
  (forall b, b ∈ books -> f b <> Panic) ->
  exists rs, finished (f <$> books) ≡ₚ rs /\ Forall2 (fun b r => f b = Ret r) books rs.
Proof.
  intros Hf. unfold finished.
  assert (exists rs, Forall2 (fun b r => f b = Ret r) books rs) as [rs Hrs].
  { induction books as [|b l IH]; [by exists []|]. destruct (f b) as [r|] eqn:E; [|by destruct (Hf b); [left|]].
    destruct IH as [rs Hrs]; [intros b' Hb'; apply Hf; by right|]. exists (r :: rs). by constructor. }
  exists rs. split; [|done]. rewrite joined_perm. clear Hf.
  induction Hrs as [|b r l rs Hb _ IH]; [done|]. rewrite fmap_cons. cbn [omap list_omap]. rewrite Hb.
  by f_equiv.
Qed.

(** C20. The engine answers for every limit order of a request exactly once.  When no
    task panics, the solutions of a proposal with limit orders are one for each
    pool that has limit orders; the outcomes in them name each of these orders once,
    duplicates of an order put together; and each solution carries the searcher
    order of its pool, if there is one; a searcher order of a pool without limit
    orders gets no solution. *)
Theorem every_order_answered limit searcher pools sols g
    (Hb : build_proposal limit searcher pools = Ret (Ok (sols, g))) (Hne : limit <> [])
    (Hrun : forall b, b ∈ build_non_proposal_books limit pools ->
       run b (find (fun t => bool_decide (pool_id t = book_id b)) searcher) <> Panic) :
  sol_id <$> sols ≡ₚ remove_dups (pool_id <$> limit) /\
  (sols ≫= (fun r => oo_id <$> sol_limit r)) ≡ₚ order_id <$> remove_dups limit /\
  forall r, r ∈ sols -> sol_searcher r = find (fun t => bool_decide (pool_id t = sol_id r)) searcher.
Proof.
  unfold build_proposal in Hb. apply bind_Ret in Hb as (searchers & Hse & Hb).
  apply bind_Ret in Hb as ([bd|e] & _ & [= Hb]).
  destruct (fetch_gas_for_bundle bd) as [g'|]; [|done]. injection Hb as Es _.
  assert (forall id, searchers !! id = find (fun t => bool_decide (pool_id t = id)) searcher) as Hlk.
  { intros id. rewrite (searchers_lookup _ _ _ _ Hse), lookup_empty. by destruct (find _ searcher). }
  set (books := build_non_proposal_books limit pools) in *.
  pose proof (books_orders limit pools) as Hord. pose proof (books_ids limit pools) as Hids. fold books in Hord, Hids.
  assert (solver_tasks books searchers = (fun b => run b (searchers !! book_id b)) <$> books) as Ht.
  { destruct books; [|done]. destruct limit as [|o l]; [done|]. exfalso.
    apply Permutation_nil in Hids. assert (pool_id o ∈ remove_dups (pool_id <$> o :: l)) as Ho
      by (apply elem_of_remove_dups; rewrite fmap_cons; left). rewrite Hids in Ho. by apply elem_of_nil in Ho. }
  rewrite Ht in Es. destruct (finished_all books (fun b => run b (searchers !! book_id b))) as (rs & Hrs & Hall);
    [intros b Hin; rewrite Hlk; by apply Hrun|]. rewrite Es in Hrs.
  assert (Forall2 (fun b r => sol_id r = book_id b /\ sol_searcher r = searchers !! book_id b /\
    oo_id <$> sol_limit r = order_id <$> all_orders b) books rs) as Hspec
    by (eapply Forall2_impl; [exact Hall|]; intros b r Hr; by apply run_outcomes).
  split_and!.
  - rewrite Hrs, <-Hids. clear -Hspec. induction Hspec as [|b r l rs (E & _) _ IH]; [done|].
    rewrite !fmap_cons, E. by rewrite IH.
  - rewrite Hrs, <-Hord. clear -Hspec. induction Hspec as [|b r l rs (_ & _ & E) _ IH]; [done|].
    rewrite !bind_cons, fmap_app, E. by rewrite IH.
  - intros r. rewrite Hrs. intros (i & Hi)%list_elem_of_lookup.
    destruct (Forall2_lookup_r _ _ _ _ _ Hspec Hi) as (b & _ & E1 & E2 & _).
    by rewrite E2, E1, Hlk.
Qed.

(** ** The state of the AMM after a bundle *)

(** C36. The quoter and the bundle agree on where a block leaves the AMM: for a pool
    with a book and a searcher order whose swap can be computed, the state that
    [give_end_amm_state] reports is the state after the one swap that the bundle
    runs for the pool; when nothing is filled it is the state after the swap of the
    searcher order. *)
Theorem end_state_of_bundle bk snapshot t v q s lp net d rw
    (Hamm : book_amm bk = Some snapshot) (Hne : is_empty_book bk = false)
    (Ht : calc_vec_and_reward t snapshot = Ret (Ok (v, q))) (Hs : run bk (Some t) = Ret s)
    (Hp : settle_pool s snapshot (Some (v, q)) lp = Ret (net, d, rw)) :
  give_end_amm_state bk (Some t) = Ret (end_state (if sol_ucp s =? 0 then v else net)).
Proof.
  unfold run in Hs. apply bind_Ret in Hs as (m & Hm & Hs). unfold give_end_amm_state.
  rewrite Hamm, Hne, Hm. cbn [unwrap mbind outcome_bind]. rewrite Hs. cbn [mbind outcome_bind].
  assert (amm_start_location m = Some v) as Hv.
  { unfold new_matcher in Hm. cbn [tob_of] in Hm. rewrite Hamm in Hm. apply bind_Ret in Hm as (x & Hx & [= <-]).
    rewrite Ht in Hx. by injection Hx as <-. }
  unfold try_get_amm_location. rewrite Hv. cbn [unwrap mbind outcome_bind].
  unfold settle_pool in Hp. apply bind_Ret in Hp as (book & Hb & Hp). apply bind_Ret in Hp as (don & _ & Hp).
  apply bind_Ret in Hp as (net' & Hn & Hp). apply bind_Ret in Hp as (? & _ & [= -> _ _]).
  unfold book_swap in Hb. destruct (Z.eqb_spec (sol_ucp s) 0) as [E|E]; [done|].
  apply bind_Ret in Hb as (target & Htg & Hb). rewrite Htg. cbn [mbind outcome_bind].
  apply bind_Ret in Hb as ([w|e] & Hw & Hb); [|done]. injection Hb as <-. rewrite Hw. cbn [mbind outcome_bind].
  assert (net_swap snapshot (Some w) v = Ret net) as ->; [|done]. exact Hn.
Qed.
End matching.
