(* ===== verification/MatchingExamples.v ===== *)
(** * The matching engine on a concrete book *)

From S2P Require Import Prelude Ray Orders Samples Storage Rules Accounts Pool Donation Book ConsensusTypes Delta DeltaProps DeltaExamples Assets Payload OrderKeys Bundle BundleProps Solvency SolvencyExamples Matching.
Open Scope Z_scope.

(** A validator that accepts every bundle, and one that accepts none. *)
Definition accepting : BundleValidatorHandle := {| fetch_gas_for_bundle := fun _ => Ok {| total_gas_cost_wei := 1 |} |}.
Definition rejecting : BundleValidatorHandle := {| fetch_gas_for_bundle := fun _ => Err "revert"%string |}.

Section matching_examples.
#[local] Existing Instance iter_by_encoding.
#[local] Existing Instance arith_Z.
#[local] Existing Instance uniswap_ratios.
#[local] Existing Instance wide_ticks.
#[local] Existing Instance sample_hasher.
#[local] Existing Instance sample_rewards.
#[local] Existing Instance sample_crypto.
#[local] Existing Instance insertion_sort.
#[local] Existing Instance join_in_order.

Definition fails {A E} (m : outcome (result A E)) : bool := match m with Ret (Err _) => true | _ => false end.
Definition error_of {A E} (m : outcome (result A E)) (e : E) : E := match m with Ret (Err e') => e' | _ => e end.

Lemma fails_error {A E} (m : outcome (result A E)) e : fails m = true -> m = Ret (Err (error_of m e)).
Proof. by destruct m as [[]|]. Qed.

Definition request : list BookOrder := all_orders solvent_book.

Lemma proposal_fails_only_in_simulation_witness : exists e,
  build_proposal (BV := rejecting) request [] solvent_pools = Ret (Err e) /\
  exists b err, e = SimulationFailed err /\ fetch_gas_for_bundle (BundleValidatorHandle := rejecting) b = Err err.
Proof.
  set (e := error_of (build_proposal (BV := rejecting) request [] solvent_pools) NoOrdersFilled).
  assert (build_proposal (BV := rejecting) request [] solvent_pools = Ret (Err e)) as He
    by (apply fails_error; vm_compute; reflexivity).
  exists e. split; [exact He|].
  exact (proposal_fails_only_in_simulation (BV := rejecting) request [] solvent_pools e He).
Defined.

Definition no_panic (o : outcome PoolSolution) : bool := match o with Ret _ => true | Panic => false end.

Lemma every_order_answered_witness : exists sols g,
  build_proposal (BV := accepting) request [] solvent_pools = Ret (Ok (sols, g)) /\
  sol_id <$> sols ≡ₚ [7] /\ (sols ≫= (fun r => oo_id <$> sol_limit r)) ≡ₚ order_id <$> request.
Proof.
  set (x := returned (build_proposal (BV := accepting) request [] solvent_pools) ([], {| total_gas_cost_wei := 0 |})).
  assert (build_proposal (BV := accepting) request [] solvent_pools = Ret (Ok x)) as Hb
    by (apply succeeds_returned; vm_compute; reflexivity).
  destruct x as [sols g]. exists sols, g. split; [exact Hb|].
  assert (forallb (fun b => no_panic (run b (find (fun t => bool_decide (pool_id t = book_id b)) [])))
    (build_non_proposal_books request solvent_pools) = true) as Hr by (vm_compute; reflexivity).
  destruct (every_order_answered (BV := accepting) request [] solvent_pools sols g Hb) as (H1 & H2 & _).
  - discriminate.
  - intros b Hin Hp. rewrite forallb_forall in Hr. specialize (Hr b (proj1 (list_elem_of_In _ _) Hin)).
    rewrite Hp in Hr. discriminate.
  - split; [exact H1|]. exact H2.
Defined.

(** A searcher that buys from the AMM, and a book that brings the price back. *)
Definition buyer : SearcherOrder := sample_searcher 1 2 7 4.

Definition returning_book : OrderBook :=
  {| book_id := 7; book_amm := Some wide_pool; bids := [sample_exact 1 true (8 * 10 ^ 26) 900 1];
     asks := [sample_exact 2 false (75 * 10 ^ 25) 1002 2] |}.

Definition buyer_swap : PoolSwapResult * u128 :=
  returned (calc_vec_and_reward buyer wide_pool) (noop wide_pool, 0).
Definition returning_solution : PoolSolution := value_of (run returning_book (Some buyer)) no_solution.
Definition returning_net : PoolSwapResult * u128 * (RewardsUpdate * option RewardsUpdate) :=
  value_of (settle_pool returning_solution wide_pool (Some buyer_swap) 0) (noop wide_pool, 0, (CurrentOnly 0 0, None)).

Lemma end_state_of_bundle_witness : sol_ucp returning_solution = 10 ^ 27 /\
  give_end_amm_state returning_book (Some buyer) = Ret (2 ^ 96, 0, 5).
Proof.
  assert (sol_ucp returning_solution = 10 ^ 27) as Hu by (vm_compute; reflexivity). split; [exact Hu|].
  rewrite (end_state_of_bundle returning_book wide_pool buyer buyer_swap.1 buyer_swap.2 returning_solution 0
    returning_net.1.1 returning_net.1.2 returning_net.2).
  - rewrite Hu. vm_compute. reflexivity.
  - reflexivity.
  - reflexivity.
  - transitivity (Ret (Ok buyer_swap : result _ PoolError)); [|by destruct buyer_swap].
    apply succeeds_returned. vm_compute. reflexivity.
  - apply returns_value. vm_compute. reflexivity.
  - transitivity (Ret returning_net); [|by destruct returning_net as [[? ?] ?]].
    replace (Some (buyer_swap.1, buyer_swap.2)) with (Some buyer_swap) by (by destruct buyer_swap).
    apply returns_value. vm_compute. reflexivity.
Defined.

(** A searcher order of a pool without limit orders gets no solution when another
    pool has one. *)
Lemma searcher_without_book_dropped : exists sols g,
  build_proposal (BV := accepting) request [sample_top] solvent_pools = Ret (Ok (sols, g)) /\
  pool_id sample_top = 3 /\ sol_id <$> sols = [7].
Proof.
  set (x := returned (build_proposal (BV := accepting) request [sample_top] solvent_pools)
    ([], {| total_gas_cost_wei := 0 |})).
  assert (build_proposal (BV := accepting) request [sample_top] solvent_pools = Ret (Ok x)) as Hb
    by (apply succeeds_returned; vm_compute; reflexivity).
  assert (sol_id <$> x.1 = [7]) as Hx by (vm_compute; reflexivity).
  destruct x as [sols g]. exists sols, g. split; [exact Hb|]. split; [reflexivity|exact Hx].
Qed.
End matching_examples.
