(* ===== verification/Service.v ===== *)
(** * The validation service

    The model of [validator.rs], [common/key_split_threadpool.rs],
    [common/mod.rs], [order/order_validator.rs] and [bundle/mod.rs] of
    [crates/validation]: the thread that takes the requests, the pool that runs at
    most [MAX_VALIDATION_PER_ADDR] validations of one user at a time, and the
    tasks.  A validation captures the block and the prices of the moment it was
    asked for, and runs on the shared accounts one access at a time
    ([Threads.v]). *)

From S2P Require Import Prelude Ray Orders Subscribers TokenPricing Rules Accounts AccountsProps StateValidation Threads ThreadsProps Payload Matching.
Open Scope Z_scope.

(** ** The thread pool *)

(** [tokio::sync::Semaphore]: [try_take] is an [acquire] that need not wait,
    [give_back] the drop of a permit. *)
Class SemaphoreLib : Type := {
  Semaphore : Type;
  sem_new : nat -> Semaphore;
  permits : Semaphore -> nat;
  try_take : Semaphore -> option Semaphore;
  give_back : Semaphore -> Semaphore;
  permits_new : forall n, permits (sem_new n) = n;
  try_take_Some : forall s s', try_take s = Some s' -> permits s = S (permits s');
  try_take_None : forall s, try_take s = None -> permits s = 0%nat;
  permits_give_back : forall s, permits (give_back s) = S (permits s)
}.

(** A semaphore that is only its number of permits. *)
Definition counting_semaphore : SemaphoreLib.
Proof.
  refine {| Semaphore := nat; sem_new := fun n => n; permits := fun s => s;
    try_take := fun s => match s with O => None | S s' => Some s' end; give_back := S |}.
  - done.
  - by intros [|s] s' [= ->].
  - by intros [|s].
  - done.
Defined.

Definition MAX_VALIDATION_PER_ADDR : nat := 3.

Section pool.
Context `{SM : SemaphoreLib} {F : Type}.

(** A future of [pending_results]: it waits for a permit, or its task has been
    spawned.  A task without a key needs no permit. *)
Record Pooled := { key : option Address; spawned : bool; fut : F }.

Record KeySplitThreadpool := {
  permit_size : nat;
  pending : gmap Address Semaphore;
  pending_results : list Pooled
}.
Implicit Types (tp : KeySplitThreadpool) (t : Pooled).

(** [KeySplitThreadpool::new]. *)
Definition new_pool_of (size : nat) : KeySplitThreadpool :=
  {| permit_size := size; pending := ∅; pending_results := [] |}.

Definition spawn_raw tp (f : F) : KeySplitThreadpool :=
  {| permit_size := permit_size tp; pending := pending tp;
     pending_results := pending_results tp ++ [{| key := None; spawned := false; fut := f |}] |}.

Definition add_new_task tp (k : Address) (f : F) : KeySplitThreadpool :=
  {| permit_size := permit_size tp;
     pending := match pending tp !! k with
                | Some _ => pending tp
                | None => <[k := sem_new (permit_size tp)]> (pending tp)
                end;
     pending_results := pending_results tp ++ [{| key := Some k; spawned := false; fut := f |}] |}.

Definition set_task tp i t : KeySplitThreadpool :=
  {| permit_size := permit_size tp; pending := pending tp;
     pending_results := <[i := t]> (pending_results tp) |}.

(** The poll of a future that waits: it takes a permit and spawns the task. *)
Definition start_task tp i : option KeySplitThreadpool :=
  t ← pending_results tp !! i;
  if spawned t then None
  else
    let t' := {| key := key t; spawned := true; fut := fut t |} in
    match key t with
    | None => Some (set_task tp i t')
    | Some k =>
        sem ← pending tp !! k;
        sem' ← try_take sem;
        Some {| permit_size := permit_size tp; pending := <[k := sem']> (pending tp);
                pending_results := <[i := t']> (pending_results tp) |}
    end.

(** The poll of a future whose task has returned: the permit is dropped and the
    future leaves the set. *)
Definition collect_task tp i : option KeySplitThreadpool :=
  t ← pending_results tp !! i;
  if spawned t then
    Some {| permit_size := permit_size tp;
            pending := match key t with
                       | Some k => alter give_back k (pending tp)
                       | None => pending tp
                       end;
            pending_results := delete i (pending_results tp) |}
  else None.
End pool.
Arguments Pooled : clear implicits.
Arguments KeySplitThreadpool {SM} F.

(** ** The requests and the tasks *)

(** [revm]: the transaction of the bundle in a block, whether it succeeded and the
    gas that it used. *)
Class BundleEvm : Type := {
  inspect_one_tx : u64 -> AngstromBundle -> result (bool * u64) string
}.

(** The task of [BundleValidator::simulate_bundle]. *)
Definition simulate_bundle `{BundleEvm} (number : u64) (bundle : AngstromBundle)
    : result BundleGasDetails string :=
  match inspect_one_tx (u64_wrap (number + 1)) bundle with
  | Err e => Err ("transaction simulation failed - failed to transaction with revm - " +:+ e)%string
  | Ok (false, _) => Err "transaction simulation failed"%string
  | Ok (true, gas_used) => Ok {| total_gas_cost_wei := gas_used |}
  end.

(** The number of a oneshot channel. *)
Abbreviation Chan := nat (only parsing).

Inductive ValidationRequest :=
| ReqOrder (sender : Chan) (order : AllOrders) (origin : OrderOrigin)
| ReqBundle (sender : Chan) (bundle : AngstromBundle)
| ReqNewBlock (sender : Chan) (receiver_open : bool) (block_number : u64) (orders : list B256)
    (addresses : list Address)
| ReqNonce (sender : Chan) (user_address : Address) (draws : list u64)
| ReqCancelOrder (user : Address) (order_hash : B256)
| ReqGasEstimation (sender : Chan) (is_book is_internal : bool) (token_0 token_1 : Address).

Inductive Answer :=
| AnsOrder (r : OrderValidationResults)
| AnsBundle (r : result BundleGasDetails string)
| AnsNonce (nonce : u64)
| AnsGas (r : result (U256 * u64) string).

(** What the task of an order captures. *)
Record Captured := {
  cap_sender : Chan;
  cap_order : AllOrders;
  cap_origin : OrderOrigin;
  cap_block : u64;
  cap_prices : TokenPriceGenerator
}.

(** Where a task stands. *)
Inductive Task :=
| Entering (c : Captured)
| Verifying (c : Captured) (j : Job AllOrders) (s : Stage AllOrders)
| Simulating (sender : Chan) (bundle : AngstromBundle) (number : u64)
| Returned.

Section service.
Context `{HI : HashIter} `{AL : ArithLib} `{OH : OrderHasher} `{SR : SqrtRatios} `{SL : SortLib}
  `{PH : PoolHasher} `{SM : SemaphoreLib} `{BE : BundleEvm}
  (valid_order : AllOrders -> bool) (valid_tob : TopOfBlockOrder -> bool)
  (calculate_rewards : PoolId -> TopOfBlockOrder -> result u128 string).
Implicit Types (sv : StateValidation) (c : Captured).

(** The part of [handle_orders] before the accounts: the signature, the rules and
    the pool. *)
Definition precheck {T} `{RawPoolOrder T} (is_valid_signature : T -> bool) sv (o : T)
    : outcome (result UserOrderPoolInfo OrderValidationError) :=
  if negb (is_valid_signature o) then Ret (Err InvalidSignature)
  else
    checked ← validate o;
    match checked with
    | Err e => Ret (Err e)
    | Ok _ =>
        found ← fetch_pool_info_for_order (angstrom_address sv) (pool_store sv) o;
        Ret (match found with None => Err InvalidPool | Some info => Ok info end)
    end.

(** The order reaches the accounts, or is refused. *)
Definition enter sv c : outcome (result (Job AllOrders) OrderValidationError) :=
  match cap_order c with
  | TOB t =>
      let '(t0, t1) := if token_out t <? token_in t then (token_out t, token_in t)
                       else (token_in t, token_out t) in
      rate ← conversion_rate_of_pair (cap_prices c) t0 t1;
      checked ← precheck valid_tob sv t;
      Ret (match checked with
           | Err e => Err e
           | Ok info => Ok {| job_order := TOB t; job_info := info; job_block := cap_block c;
               job_reval := false;
               job_rewards := fun o info => match o with
                 | TOB t => searcher_rewards calculate_rewards (default 0 rate) t info
                 | _ => Panic
                 end |}
           end)
  | o =>
      checked ← precheck valid_order sv o;
      Ret (match checked with
           | Err e => Err e
           | Ok info => Ok {| job_order := o; job_info := info; job_block := cap_block c;
               job_reval := is_revalidating (cap_origin c);
               job_rewards := fun _ _ => Ret (Ok (0, 0)) |}
           end)
  end.

(** The answer of the accounts, with the gas of the order. *)
Definition conclude c (r : result (OrderWithStorageData AllOrders) UserAccountVerificationError)
    : outcome OrderValidationResults :=
  add_gas_cost_or_invalidate
    (match r with
     | Ok stored => Valid stored
     | Err e => Invalid (order_hash (cap_order c)) (StateError e)
     end) (cap_prices c) (negb (is_tob (cap_order c))).

(** One step of a task, and what it sends. *)
Definition task_step `{SF : StateFetchUtils} sv (f : Task)
    : outcome (UserAccounts * Task * list (Chan * Answer)) :=
  let ua := user_accounts sv in
  match f with
  | Entering c =>
      entered ← enter sv c;
      Ret (match entered with
           | Err e => (ua, Returned, [(cap_sender c, AnsOrder (Invalid (order_hash (cap_order c)) e))])
           | Ok j => (ua, Verifying c j Start, [])
           end)
  | Verifying c j (Finished r) =>
      results ← conclude c r;
      Ret (ua, Returned, [(cap_sender c, AnsOrder results)])
  | Verifying c j s =>
      '(ua, s) ← advance j s ua;
      Ret (ua, Verifying c j s, [])
  | Simulating sender bundle number =>
      Ret (ua, Returned, [(sender, AnsBundle (simulate_bundle number bundle))])
  | Returned => Ret (ua, Returned, [])
  end.

(** A task that runs alone: the state it leaves and what it sends. *)
Fixpoint run_task_alone `{SF : StateFetchUtils} (fuel : nat) sv (f : Task)
    : outcome (StateValidation * Task * list (Chan * Answer)) :=
  match fuel with
  | O => Ret (sv, f, [])
  | S fuel =>
      '(ua, f, sent) ← task_step sv f;
      '(sv, f, later) ← run_task_alone fuel (with_accounts sv ua) f;
      Ret (sv, f, sent ++ later)
  end.

(** ** The requests *)

(** [Validator] with its [OrderValidator] and [SharedTools]; [vs_cancelling] is
    the second access of a cancellation that is under way, [vs_answers] what was
    sent and [vs_requests] the requests that were taken, with the block of the
    moment. *)
Record ValidationService := {
  vs_state : StateValidation;
  vs_block : u64;
  vs_prices : TokenPriceGenerator;
  vs_pool : KeySplitThreadpool Task;
  vs_cancelling : option (Address * B256);
  vs_answers : list (Chan * Answer);
  vs_requests : list (u64 * ValidationRequest)
}.
Implicit Types (v : ValidationService).

Definition with_vs_state v sv : ValidationService :=
  {| vs_state := sv; vs_block := vs_block v; vs_prices := vs_prices v; vs_pool := vs_pool v;
     vs_cancelling := vs_cancelling v; vs_answers := vs_answers v; vs_requests := vs_requests v |}.
Definition with_vs_pool v tp : ValidationService :=
  {| vs_state := vs_state v; vs_block := vs_block v; vs_prices := vs_prices v; vs_pool := tp;
     vs_cancelling := vs_cancelling v; vs_answers := vs_answers v; vs_requests := vs_requests v |}.
Definition with_vs_prices v g : ValidationService :=
  {| vs_state := vs_state v; vs_block := vs_block v; vs_prices := g; vs_pool := vs_pool v;
     vs_cancelling := vs_cancelling v; vs_answers := vs_answers v; vs_requests := vs_requests v |}.
Definition with_vs_cancelling v p : ValidationService :=
  {| vs_state := vs_state v; vs_block := vs_block v; vs_prices := vs_prices v; vs_pool := vs_pool v;
     vs_cancelling := p; vs_answers := vs_answers v; vs_requests := vs_requests v |}.
Definition with_vs_block v b : ValidationService :=
  {| vs_state := vs_state v; vs_block := b; vs_prices := vs_prices v; vs_pool := vs_pool v;
     vs_cancelling := vs_cancelling v; vs_answers := vs_answers v; vs_requests := vs_requests v |}.
Definition logged v (req : ValidationRequest) : ValidationService :=
  {| vs_state := vs_state v; vs_block := vs_block v; vs_prices := vs_prices v; vs_pool := vs_pool v;
     vs_cancelling := vs_cancelling v; vs_answers := vs_answers v;
     vs_requests := vs_requests v ++ [(vs_block v, req)] |}.
Definition sending v (l : list (Chan * Answer)) : ValidationService :=
  {| vs_state := vs_state v; vs_block := vs_block v; vs_prices := vs_prices v; vs_pool := vs_pool v;
     vs_cancelling := vs_cancelling v; vs_answers := vs_answers v ++ l; vs_requests := vs_requests v |}.

(** [OrderValidator::fetch_nonce] on the numbers that [random] gives; [None] when
    it is still looking. *)
Fixpoint fetch_nonce `{SF : StateFetchUtils} (addr : Address) (draws : list u64)
    : outcome (option u64) :=
  match draws with
  | [] => Ret None
  | nonce :: draws =>
      match is_valid_nonce addr nonce with
      | Err _ => Panic
      | Ok true => Ret (Some nonce)
      | Ok false => fetch_nonce addr draws
      end
  end.

(** The branch [GasEstimation] of [on_new_validation_request]. *)
Definition estimate_gas (g : TokenPriceGenerator) (is_book is_internal : bool)
    (token_0 token_1 : Address) : outcome (result (U256 * u64) string) :=
  let '(token_0, token_1) :=
    if token_1 <? token_0 then (token_1, token_0) else (token_0, token_1) in
  let '(internal, normal) := tob_gas_at (base_wei g) in
  let gas_in_wei := match is_book, is_internal with
    | true, true => BOOK_GAS_INTERNAL
    | true, false => BOOK_GAS
    | false, true => internal
    | false, false => normal
    end in
  quoted ← get_eth_conversion_price g token_0 token_1 gas_in_wei;
  Ret (match quoted with
       | None => Err "not valid token pair"%string
       | Some amount => Ok (if amount =? 0 then 1 else amount, current_block g)
       end).

(** [OrderValidator::validate_order]. *)
Definition spawn_validation v (sender : Chan) (o : AllOrders) (origin : OrderOrigin) : ValidationService :=
  with_vs_pool v (add_new_task (vs_pool v) (from o)
    (Entering {| cap_sender := sender; cap_order := o; cap_origin := origin;
                 cap_block := vs_block v; cap_prices := vs_prices v |})).

(** [OrderValidator::on_new_block]. *)
Definition on_new_block v (block_number : u64) (completed_orders : list B256)
    (address_changes : list Address) : ValidationService :=
  with_vs_state (with_vs_block v block_number)
    (sv_new_block (vs_state v) completed_orders address_changes).

Definition on_new_validation_request `{SF : StateFetchUtils} v (req : ValidationRequest)
    : outcome (option ValidationService) :=
  let v := logged v req in
  match req with
  | ReqCancelOrder user hash =>
      let '(ua, res) := try_cancel_book_order (user_accounts (vs_state v)) user hash in
      Ret (Some (with_vs_cancelling (with_vs_state v (with_accounts (vs_state v) ua))
        (if res then None else Some (user, hash))))
  | ReqOrder sender o origin => Ret (Some (spawn_validation v sender o origin))
  | ReqBundle sender bundle =>
      Ret (Some (with_vs_pool v
        (spawn_raw (vs_pool v) (Simulating sender bundle (vs_block v)))))
  | ReqNewBlock sender receiver_open block_number orders addresses =>
      gas_updates ← generate_gas_updates (vs_prices v);
      _ ← assert receiver_open;
      Ret (Some (on_new_block (sending v
        [(sender, AnsOrder (TransitionedToBlock gas_updates))]) block_number orders addresses))
  | ReqNonce sender user_address draws =>
      nonce ← fetch_nonce user_address draws;
      Ret (match nonce with
           | Some nonce => Some (sending v [(sender, AnsNonce nonce)])
           | None => None
           end)
  | ReqGasEstimation sender is_book is_internal token_0 token_1 =>
      r ← estimate_gas (vs_prices v) is_book is_internal token_0 token_1;
      Ret (Some (sending v [(sender, AnsGas r)]))
  end.

Definition is_new_block (req : ValidationRequest) : bool :=
  match req with ReqNewBlock _ _ _ _ _ => true | _ => false end.

Definition order_in_flight (f : Task) : bool :=
  match f with Entering _ | Verifying _ _ _ => true | _ => false end.

(** ** The service runs *)

(** The validator takes a request, or makes the second access of a cancellation;
    it applies new prices; the pools of the store change; a task gets its permit;
    a spawned task makes a step on its thread; the pool collects a task that
    returned.  The order pool asks for a new block once its validations are
    answered. *)
Inductive service_step : ValidationService -> ValidationService -> Prop :=
| svc_request (SF : StateFetchUtils) v req v' :
    vs_cancelling v = None ->
    (is_new_block req = true ->
      Forall (fun t => order_in_flight (fut t) = false) (pending_results (vs_pool v))) ->
    on_new_validation_request v req = Ret (Some v') -> service_step v v'
| svc_cancel v user hash :
    vs_cancelling v = Some (user, hash) ->
    service_step v (with_vs_cancelling (with_vs_state v (with_accounts (vs_state v)
      (fst (try_cancel_tob_order (user_accounts (vs_state v)) user hash)))) None)
| svc_prices v (new_block : u64) (new_gas : u128) updates g :
    apply_update (vs_prices v) new_block new_gas updates = Ret g ->
    service_step v (with_vs_prices v g)
| svc_pools v store :
    service_step v (with_vs_state v {| angstrom_address := angstrom_address (vs_state v);
      pool_store := store; user_accounts := user_accounts (vs_state v) |})
| svc_start v i tp : start_task (vs_pool v) i = Some tp -> service_step v (with_vs_pool v tp)
| svc_task (SF : StateFetchUtils) v i t ua f answers :
    pending_results (vs_pool v) !! i = Some t -> spawned t = true ->
    task_step (vs_state v) (fut t) = Ret (ua, f, answers) ->
    service_step v (sending (with_vs_pool (with_vs_state v (with_accounts (vs_state v) ua))
      (set_task (vs_pool v) i {| key := key t; spawned := true; fut := f |})) answers)
| svc_collect v i t tp :
    pending_results (vs_pool v) !! i = Some t -> fut t = Returned ->
    collect_task (vs_pool v) i = Some tp -> service_step v (with_vs_pool v tp).

(** The service when it starts. *)
Definition service_start (angstrom : Address) (store : AngstromPoolConfigStore) (block : u64)
    (prices : TokenPriceGenerator) : ValidationService :=
  {| vs_state := {| angstrom_address := angstrom; pool_store := store; user_accounts := new_accounts |};
     vs_block := block; vs_prices := prices; vs_pool := new_pool_of MAX_VALIDATION_PER_ADDR;
     vs_cancelling := None; vs_answers := []; vs_requests := [] |}.
End service.
