(* ===== verification/ServiceProps.v ===== *)
(** * What the validation service guarantees

    The theorems on [Service.v]: at most three validations of a user run at a time
    and a validation only waits for others of its user; every request is answered
    once; an answer carries the order and the block of its request; the accounts
    stay in order; a task that runs alone computes [validate_order]; and the gas
    that is estimated is the gas that is charged. *)

From S2P Require Import Prelude Ray Orders Subscribers TokenPricing Rules Accounts AccountsProps StateValidation Threads ThreadsProps Payload Matching Service.
Open Scope Z_scope.

(** ** The thread pool *)

Section pool.
Context `{SM : SemaphoreLib} {F : Type}.
Implicit Types (tp : KeySplitThreadpool F) (t : Pooled F) (l : list (Pooled F)) (k : Address).

(** The task holds a permit of the user [k]. *)
Definition holds k t : bool := spawned t && bool_decide (key t = Some k).

(** How many tasks of the user [k] run. *)
Definition running k l : nat := length (List.filter (holds k) l).
#[local] Arguments running : simpl never.

Lemma running_app k l1 l2 : running k (l1 ++ l2) = (running k l1 + running k l2)%nat.
Proof. unfold running. by rewrite List.filter_app, length_app. Qed.

Lemma running_split k l i t : l !! i = Some t ->
  running k l = (running k (take i l) + (if holds k t then 1 else 0) + running k (drop (S i) l))%nat.
Proof.
  intros Hi. rewrite <-(take_drop_middle l i t Hi) at 1. rewrite running_app.
  unfold running at 2. cbn [List.filter]. destruct (holds k t); cbn [length]; fold (running k (drop (S i) l)); lia.
Qed.

Lemma running_insert k l i t t' : l !! i = Some t ->
  (running k (<[i := t']> l) + (if holds k t then 1 else 0) =
   running k l + (if holds k t' then 1 else 0))%nat.
Proof.
  intros Hi. rewrite (running_split k l i t Hi).
  rewrite (insert_take_drop l i t') by (by eapply lookup_lt_Some).
  rewrite running_app. unfold running at 2. cbn [List.filter].
  destruct (holds k t'); cbn [length]; fold (running k (drop (S i) l)); destruct (holds k t); lia.
Qed.

Lemma running_delete k l i t : l !! i = Some t ->
  (running k (delete i l) + (if holds k t then 1 else 0) = running k l)%nat.
Proof.
  intros Hi. rewrite (running_split k l i t Hi), delete_take_drop, running_app.
  destruct (holds k t); lia.
Qed.

(** Every permit of a user is free or held by a task that runs, and every task of
    a user has a semaphore to wait on. *)
Definition pool_ok tp : Prop :=
  (forall k sem, pending tp !! k = Some sem ->
    (permits sem + running k (pending_results tp) = permit_size tp)%nat) /\
  (forall t k, t ∈ pending_results tp -> key t = Some k -> is_Some (pending tp !! k)).

Lemma empty_pool_ok size : pool_ok (new_pool_of size).
Proof. split; cbn; [by intros|]. intros t k Ht. by apply not_elem_of_nil in Ht. Qed.

Lemma running_waiting k l key f :
  running k (l ++ [{| key := key; spawned := false; fut := f |}]) = running k l.
Proof. rewrite running_app. unfold running. cbn. lia. Qed.

Lemma no_task_running tp k : pool_ok tp -> pending tp !! k = None -> running k (pending_results tp) = 0%nat.
Proof.
  intros [_ Ht] Hk. unfold running. enough (List.filter (holds k) (pending_results tp) = []) as -> by done.
  apply filter_all_false. intros t Hin. unfold holds. destruct (spawned t); [|done]. cbn.
  apply bool_decide_eq_false. intros Hkey. destruct (Ht t k Hin Hkey) as [sem Hs]. congruence.
Qed.

Lemma add_new_task_ok tp k f : pool_ok tp -> pool_ok (add_new_task tp k f).
Proof.
  intros Hok. pose proof Hok as [Hp Ht]. split; cbn.
  - intros k1 sem Hk. rewrite running_waiting. destruct (pending tp !! k) as [s|] eqn:Ek; [by apply Hp|].
    destruct (decide (k1 = k)) as [->|Hne].
    + rewrite lookup_insert_eq in Hk. injection Hk as <-.
      rewrite permits_new, (no_task_running tp k) by done. lia.
    + rewrite lookup_insert_ne in Hk by done. by apply Hp.
  - intros t k1 [Hin| ->%list_elem_of_singleton]%elem_of_app Hkey.
    + destruct (pending tp !! k) eqn:Ek; [by eapply Ht|].
      destruct (decide (k1 = k)) as [->|Hne]; [by rewrite lookup_insert_eq|].
      rewrite lookup_insert_ne by done. by eapply Ht.
    + cbn in Hkey. injection Hkey as <-. destruct (pending tp !! k) eqn:Ek; [by rewrite Ek|].
      by rewrite lookup_insert_eq.
Qed.

Lemma spawn_raw_ok tp f : pool_ok tp -> pool_ok (spawn_raw tp f).
Proof.
  intros [Hp Ht]. split; cbn.
  - intros k sem Hk. rewrite running_waiting. by apply Hp.
  - intros t k [Hin| ->%list_elem_of_singleton]%elem_of_app Hkey; [by eapply Ht|done].
Qed.

(** Replacing a task by one of the same user. *)
Lemma key_of_inserted l i t t' k : l !! i = Some t -> key t' = key t ->
  forall t1, t1 ∈ <[i := t']> l -> key t1 = Some k -> exists t2, t2 ∈ l /\ key t2 = Some k.
Proof.
  intros Hi Hk t1 [j Hj]%list_elem_of_lookup Hkey. destruct (decide (i = j)) as [<-|Hne].
  - rewrite list_lookup_insert_eq in Hj by (by eapply lookup_lt_Some). injection Hj as <-.
    exists t. split; [by eapply list_elem_of_lookup_2|congruence].
  - rewrite list_lookup_insert_ne in Hj by done. exists t1. split; [by eapply list_elem_of_lookup_2|done].
Qed.

Lemma set_task_ok tp i t f : pool_ok tp -> pending_results tp !! i = Some t ->
  pool_ok (set_task tp i {| key := key t; spawned := spawned t; fut := f |}).
Proof.
  intros [Hp Ht] Hi. split; cbn.
  - intros k sem Hk. rewrite <-(Hp k sem Hk).
    pose proof (running_insert k _ i t {| key := key t; spawned := spawned t; fut := f |} Hi) as H.
    unfold holds in H. cbn in H. destruct (spawned t && _); lia.
  - intros t1 k Hin Hkey. eapply key_of_inserted in Hin as (t2 & Hin2 & Hk2); [|done|done|done].
    by eapply Ht.
Qed.

Lemma start_task_Some tp i tp' : start_task tp i = Some tp' ->
  exists t, pending_results tp !! i = Some t /\ spawned t = false /\
    permit_size tp' = permit_size tp /\
    pending_results tp' = <[i := {| key := key t; spawned := true; fut := fut t |}]> (pending_results tp) /\
    match key t with
    | None => pending tp' = pending tp
    | Some k => exists sem sem', pending tp !! k = Some sem /\ try_take sem = Some sem' /\
        pending tp' = <[k := sem']> (pending tp)
    end.
Proof.
  unfold start_task. intros (t & Hi & H)%bind_Some. exists t. split; [done|].
  destruct (spawned t) eqn:Hs; [done|]. split; [done|]. destruct (key t) as [k|].
  - apply bind_Some in H as (sem & Hk & H). apply bind_Some in H as (sem' & Hs' & H).
    injection H as <-. eauto 10.
  - by injection H as <-.
Qed.

Lemma start_task_ok tp i tp' : pool_ok tp -> start_task tp i = Some tp' -> pool_ok tp'.
Proof.
  intros [Hp Ht] (t & Hi & Hs & Hsize & Hres & Hsem)%start_task_Some. split.
  - intros k sem Hk. rewrite Hres, Hsize.
    pose proof (running_insert k _ i t {| key := key t; spawned := true; fut := fut t |} Hi) as Hr.
    unfold holds in Hr. rewrite Hs in Hr. cbn in Hr.
    destruct (key t) as [k1|]; 
      [|rewrite bool_decide_false in Hr by done; rewrite Hsem in Hk; rewrite <-(Hp k sem Hk); lia].
    destruct Hsem as (s0 & s1 & Hk0 & Htake & Hpend). rewrite Hpend in Hk.
    destruct (decide (k = k1)) as [->|Hne].
    + rewrite lookup_insert_eq in Hk. injection Hk as <-. rewrite <-(Hp k1 s0 Hk0).
      rewrite (try_take_Some _ _ Htake). rewrite bool_decide_true in Hr by done. lia.
    + rewrite lookup_insert_ne in Hk by done. rewrite <-(Hp k sem Hk).
      rewrite bool_decide_false in Hr by congruence. lia.
  - intros t1 k Hin Hkey. rewrite Hres in Hin.
    eapply key_of_inserted in Hin as (t2 & Hin2 & Hk2); [|done|done|done].
    destruct (Ht t2 k Hin2 Hk2) as [sem Hsem1].
    destruct (key t) as [k1|]; [|by rewrite Hsem, Hsem1].
    destruct Hsem as (s0 & s1 & _ & _ & ->). destruct (decide (k = k1)) as [->|Hne];
      [by rewrite lookup_insert_eq|by rewrite lookup_insert_ne, Hsem1].
Qed.

Lemma collect_task_ok tp i tp' : pool_ok tp -> collect_task tp i = Some tp' -> pool_ok tp'.
Proof.
  unfold collect_task. intros [Hp Ht] (t & Hi & H)%bind_Some.
  destruct (spawned t) eqn:Hs; [|done]. injection H as <-. split; cbn.
  - intros k sem Hk. pose proof (running_delete k _ i t Hi) as Hr. unfold holds in Hr.
    rewrite Hs in Hr. cbn in Hr. destruct (key t) as [k1|]; 
      [|rewrite bool_decide_false in Hr by done; rewrite <-(Hp k sem Hk); lia].
    destruct (decide (k = k1)) as [->|Hne].
    + rewrite lookup_alter_eq in Hk. apply fmap_Some in Hk as (s0 & Hk0 & ->).
      rewrite permits_give_back, <-(Hp k1 s0 Hk0). rewrite bool_decide_true in Hr by done. lia.
    + rewrite lookup_alter_ne in Hk by done. rewrite <-(Hp k sem Hk).
      rewrite bool_decide_false in Hr by congruence. lia.
  - intros t1 k Hin Hkey.
    assert (t1 ∈ pending_results tp) as Hin'.
    { rewrite delete_take_drop in Hin. rewrite <-(take_drop_middle _ _ _ Hi). set_solver. }
    destruct (Ht t1 k Hin' Hkey) as [sem Hsem]. destruct (key t) as [k1|]; [|by rewrite Hsem].
    destruct (decide (k = k1)) as [->|Hne]; [by rewrite lookup_alter_eq, Hsem|by rewrite lookup_alter_ne, Hsem].
Qed.

(** No user has more tasks running than permits. *)
Lemma running_bound tp k : pool_ok tp -> (running k (pending_results tp) <= permit_size tp)%nat.
Proof.
  intros Hok. destruct (pending tp !! k) as [sem|] eqn:Hk.
  - pose proof (proj1 Hok k sem Hk). lia.
  - rewrite (no_task_running tp k) by done. lia.
Qed.

(** A task that cannot start waits for as many tasks of its user as there are
    permits. *)
Lemma waiting_blocked tp i t : pool_ok tp -> pending_results tp !! i = Some t -> spawned t = false ->
  start_task tp i = None ->
  exists k, key t = Some k /\ running k (pending_results tp) = permit_size tp.
Proof.
  intros [Hp Ht] Hi Hs. unfold start_task. rewrite Hi. cbn. rewrite Hs.
  destruct (key t) as [k|] eqn:Hkey; [|done].
  destruct (Ht t k) as [sem Hsem]; [by eapply list_elem_of_lookup_2|done|]. rewrite Hsem. cbn.
  destruct (try_take sem) eqn:Htake; [done|]. intros _. exists k. split; [done|].
  pose proof (Hp k sem Hsem) as H. rewrite (try_take_None _ Htake) in H. done.
Qed.
End pool.

(** ** The service *)

Section service.
Context `{HI : HashIter} `{AL : ArithLib} `{OH : OrderHasher} `{SR : SqrtRatios} `{SL : SortLib}
  `{PH : PoolHasher} `{SM : SemaphoreLib} `{BE : BundleEvm}
  (valid_order : AllOrders -> bool) (valid_tob : TopOfBlockOrder -> bool)
  (calculate_rewards : PoolId -> TopOfBlockOrder -> result u128 string).
Implicit Types (sv : StateValidation) (c : Captured) (v : ValidationService) (f : Task).
Abbreviation step := (service_step valid_order valid_tob calculate_rewards).
Abbreviation run_task := (task_step valid_order valid_tob calculate_rewards).

(** *** The permits *)

Definition permits_ok v : Prop :=
  pool_ok (vs_pool v) /\ permit_size (vs_pool v) = MAX_VALIDATION_PER_ADDR.

Lemma request_pool `{SF : StateFetchUtils} v req v' :
  on_new_validation_request v req = Ret (Some v') ->
  vs_pool v' = match req with
    | ReqOrder sender o origin => add_new_task (vs_pool v) (from o)
        (Entering {| cap_sender := sender; cap_order := o; cap_origin := origin;
                     cap_block := vs_block v; cap_prices := vs_prices v |})
    | ReqBundle sender bundle => spawn_raw (vs_pool v) (Simulating sender bundle (vs_block v))
    | _ => vs_pool v
    end.
Proof.
  unfold on_new_validation_request. destruct req; cbn; intros H.
  - by injection H as <-.
  - by injection H as <-.
  - apply bind_Ret in H as (us & _ & H). apply bind_Ret in H as (? & _ & H). by injection H as <-.
  - apply bind_Ret in H as ([n|] & _ & H); [|done]. by injection H as <-.
  - destruct (try_cancel_book_order _ _ _) as [ua res]. by injection H as <-.
  - apply bind_Ret in H as (r & _ & H). by injection H as <-.
Qed.

Lemma step_permits v v' : step v v' -> permits_ok v -> permits_ok v'.
Proof.
  intros Hstep [Hp Hs]. destruct Hstep as [SF v req v' _ _ Hreq|v user hash _|v nb gas ups g _|v store|
    v i tp Hst|SF v i t ua f ans Hi Hsp Ht|v i t tp Hi Hr Hc]; try done.
  - unfold permits_ok. rewrite (request_pool _ _ _ Hreq).
    destruct req; try done; split; [by apply add_new_task_ok|done|by apply spawn_raw_ok|done].
  - split; cbn; [by eapply start_task_ok|].
    by apply start_task_Some in Hst as (t & _ & _ & -> & _).
  - split; cbn; [|done]. pose proof (set_task_ok (vs_pool v) i t f Hp Hi) as H. by rewrite Hsp in H.
  - split; cbn; [by eapply collect_task_ok|]. unfold collect_task in Hc.
    apply bind_Some in Hc as (t' & _ & Hc). destruct (spawned t'); [|done]. by injection Hc as <-.
Qed.

(** The service has been started and has run for a while. *)
Definition served v : Prop := exists angstrom store block prices,
  rtc step (service_start angstrom store block prices) v.

Lemma served_ind (P : ValidationService -> Prop) :
  (forall angstrom store block prices, P (service_start angstrom store block prices)) ->
  (forall v v', served v -> P v -> step v v' -> P v') -> forall v, served v -> P v.
Proof.
  intros H0 Hs v (a & st & b & g & Hr). revert v Hr. apply rtc_ind_r; [done|].
  intros v v' Hr Hstep IH. eapply Hs; [|done..]. by exists a, st, b, g.
Qed.

Lemma served_permits v : served v -> permits_ok v.
Proof.
  revert v. apply served_ind; [|intros v v' _ Hok Hstep; by eapply step_permits].
  intros. split; [apply empty_pool_ok|done].
Qed.

(** *** One answer to every request *)

Definition request_chan (r : u64 * ValidationRequest) : option Chan :=
  match snd r with
  | ReqOrder sender _ _ | ReqBundle sender _ | ReqNewBlock sender _ _ _ _ | ReqNonce sender _ _
  | ReqGasEstimation sender _ _ _ _ => Some sender
  | ReqCancelOrder _ _ => None
  end.

Definition task_chan f : option Chan :=
  match f with
  | Entering c | Verifying c _ _ => Some (cap_sender c)
  | Simulating sender _ _ => Some sender
  | Returned => None
  end.

(** The channels of the tasks that have not answered. *)
Definition outstanding (l : list (Pooled Task)) : list Chan := omap (fun t => task_chan (fut t)) l.

(** The channels that were promised an answer are those that got one and those of
    the tasks. *)
Definition conserved v : Prop :=
  omap request_chan (vs_requests v) ≡ₚ (fst <$> vs_answers v) ++ outstanding (pending_results (vs_pool v)).

Lemma outstanding_split l i t : l !! i = Some t ->
  outstanding l ≡ₚ option_list (task_chan (fut t)) ++ outstanding (delete i l).
Proof.
  intros Hi. rewrite <-(take_drop_middle l i t Hi) at 1. rewrite delete_take_drop.
  unfold outstanding. rewrite !omap_app. cbn. destruct (task_chan (fut t)); cbn; [|done].
  by rewrite Permutation_middle.
Qed.

Lemma outstanding_insert l i t t' : l !! i = Some t ->
  outstanding (<[i := t']> l) ≡ₚ option_list (task_chan (fut t')) ++ outstanding (delete i l).
Proof.
  intros Hi. rewrite (outstanding_split (<[i := t']> l) i t').
  - rewrite !delete_take_drop, take_insert_ge, drop_insert_lt by lia. done.
  - apply list_lookup_insert_eq. by eapply lookup_lt_Some.
Qed.

Lemma task_step_chan `{SF : StateFetchUtils} sv f ua f' ans : run_task sv f = Ret (ua, f', ans) ->
  option_list (task_chan f) = (fst <$> ans) ++ option_list (task_chan f').
Proof.
  destruct f as [c|c j s|sender b n|]; cbn [task_step]; intros H.
  - apply bind_Ret in H as ([j|e] & _ & H); by injection H as <- <- <-.
  - destruct s; try (apply bind_Ret in H as ([ua1 s1] & _ & H); by injection H as <- <- <-).
    apply bind_Ret in H as (r1 & _ & H). by injection H as <- <- <-.
  - by injection H as <- <- <-.
  - by injection H as <- <- <-.
Qed.

(** What taking a request adds to the log and to the answers. *)
Lemma request_log `{SF : StateFetchUtils} v req v' :
  on_new_validation_request v req = Ret (Some v') ->
  vs_requests v' = vs_requests v ++ [(vs_block v, req)] /\
  exists ans, vs_answers v' = vs_answers v ++ ans /\
    (forall ch st, (ch, AnsOrder (Valid st)) ∉ ans) /\
    option_list (request_chan (vs_block v, req)) = (fst <$> ans) ++
      match req with ReqOrder sender _ _ | ReqBundle sender _ => [sender] | _ => [] end.
Proof.
  unfold on_new_validation_request. destruct req; cbn; intros H.
  - injection H as <-. split; [done|]. exists []. split; [by rewrite app_nil_r|]. split; [set_solver|done].
  - injection H as <-. split; [done|]. exists []. split; [by rewrite app_nil_r|]. split; [set_solver|done].
  - apply bind_Ret in H as (us & _ & H). apply bind_Ret in H as (? & _ & H). injection H as <-.
    split; [done|]. eexists. split; [done|]. split; [set_solver|done].
  - apply bind_Ret in H as ([n|] & _ & H); [|done]. injection H as <-.
    split; [done|]. eexists. split; [done|]. split; [set_solver|done].
  - destruct (try_cancel_book_order _ _ _) as [ua res]. injection H as <-.
    split; [done|]. exists []. split; [by rewrite app_nil_r|]. split; [set_solver|done].
  - apply bind_Ret in H as (r & _ & H). injection H as <-.
    split; [done|]. eexists. split; [done|]. split; [set_solver|done].
Qed.

Lemma start_outstanding (tp tp' : KeySplitThreadpool Task) i : start_task tp i = Some tp' ->
  outstanding (pending_results tp') ≡ₚ outstanding (pending_results tp).
Proof.
  intros (t & Hi & _ & _ & -> & _)%start_task_Some.
  by rewrite (outstanding_insert _ _ _ _ Hi), (outstanding_split _ _ _ Hi).
Qed.

Lemma collect_results (tp tp' : KeySplitThreadpool Task) i : collect_task tp i = Some tp' ->
  pending_results tp' = delete i (pending_results tp).
Proof.
  unfold collect_task. intros (t & _ & H)%bind_Some. destruct (spawned t); [|done]. by injection H as <-.
Qed.

Lemma step_conserved v v' : step v v' -> conserved v -> conserved v'.
Proof.
  unfold conserved. intros Hstep Hc. destruct Hstep as [SF v req v' _ _ Hreq|v user hash _|v nb gas ups g _|v store|
    v i tp Hst|SF v i t ua f ans Hi Hsp Ht|v i t tp Hi Hr Hcol]; try done; cbn.
  - destruct (request_log _ _ _ Hreq) as (Hl & ans & Ha & _ & Hch).
    rewrite Hl, Ha, (request_pool _ _ _ Hreq), omap_app, Hc, fmap_app.
    assert (omap request_chan [(vs_block v, req)] = option_list (request_chan (vs_block v, req))) as ->
      by (cbn; by destruct (request_chan _)).
    rewrite Hch. unfold outstanding.
    destruct req; cbn; rewrite ?omap_app; cbn; solve_Permutation.
  - by rewrite (start_outstanding _ _ _ Hst).
  - rewrite Hc, (outstanding_split _ _ _ Hi), (outstanding_insert _ _ _ _ Hi), (task_step_chan _ _ _ _ _ Ht).
    rewrite fmap_app. cbn. solve_Permutation.
  - rewrite Hc, (outstanding_split _ _ _ Hi), Hr, (collect_results _ _ _ Hcol). done.
Qed.

Lemma served_conserved v : served v -> conserved v.
Proof.
  revert v. apply served_ind; [intros; apply Permutation_refl|].
  intros v v' _ Hok Hstep. by eapply step_conserved.
Qed.

(** *** Answers and their requests *)

(** A task works for the request that started it. *)
Definition task_logged v (t : Pooled Task) : Prop :=
  match fut t with
  | Entering c => key t = Some (from (cap_order c)) /\
      (cap_block c, ReqOrder (cap_sender c) (cap_order c) (cap_origin c)) ∈ vs_requests v
  | Verifying c j s => key t = Some (from (cap_order c)) /\
      (cap_block c, ReqOrder (cap_sender c) (cap_order c) (cap_origin c)) ∈ vs_requests v /\
      job_order j = cap_order c /\ job_block j = cap_block c /\
      forall st, s = Finished (Ok st) -> order st = job_order j /\ valid_block st = job_block j
  | _ => True
  end.

Definition answers_logged v : Prop :=
  forall ch st, (ch, AnsOrder (Valid st)) ∈ vs_answers v ->
    exists origin, (valid_block st, ReqOrder ch (order st) origin) ∈ vs_requests v.

Definition all_logged v : Prop :=
  Forall (task_logged v) (pending_results (vs_pool v)) /\ answers_logged v.

Lemma into_storage_fields (o : AllOrders) block cur valid info inv reward st :
  into_order_storage_with_data o block cur valid info inv reward = Ret st ->
  order st = o /\ valid_block st = block.
Proof. intros (lp & _ & H)%bind_Ret. by injection H as <-. Qed.

Lemma advance_finished `{SF : StateFetchUtils} (j : Job AllOrders) s ua ua' st :
  is_finished s = false -> advance j s ua = Ret (ua', Finished (Ok st)) ->
  order st = job_order j /\ valid_block st = job_block j.
Proof.
  destruct s as [| | |conf [|p todo]|conf p todo|conf r0 r1 loaded|conf r0 r1 seen|conf r0 r1|conf r0 r1 live|
    |conf r0 seen|]; cbn [advance]; intros Hf H; try done.
  - destruct (job_reval j); [|done]. by destruct (try_cancel_book_order _ _ _) as [? []].
  - injection H as _ H. unfold check_conflicts in H. by repeat case_match.
  - by apply bind_Ret in H as ([[r0 r1]|e] & _ & H).
  - by destruct (try_cancel_book_order _ _ _) as [? []].
  - injection H as _ H. by destruct (live_state_of j ua r1), loaded.
  - by apply bind_Ret in H as (? & _ & H).
  - by destruct (load_state_for _ _ _) as [? []].
  - apply bind_Ret in H as ([action|e] & _ & H); [done|]. destruct (is_tob _); [done|].
    apply bind_Ret in H as (st' & Hst & H). injection H as _ <-. by apply into_storage_fields in Hst.
  - apply bind_Ret in H as (s1 & Hs & H). injection H as _ ->.
    apply bind_Ret in Hs as (bad & _ & Hs). apply bind_Ret in Hs as (st' & Hst & Hs).
    injection Hs as <-. by apply into_storage_fields in Hst.
Qed.

(** The gas leaves the order and the block of a valid result alone. *)
Lemma gas_keeps_order r g lim st : add_gas_cost_or_invalidate r g lim = Ret (Valid st) ->
  exists st0, r = Valid st0 /\ order st = order st0 /\ valid_block st = valid_block st0.
Proof.
  unfold add_gas_cost_or_invalidate. destruct r as [o|h e|us]; [|done..]. intros (res & Hm & H)%bind_Ret.
  destruct res as [fin|]; [|done]. injection H as <-. exists o. split; [done|]. destruct lim.
  - apply bind_Ret in Hm as (inner & Hin & Hm). injection Hin as <-. cbn in Hm.
    apply bind_Ret in Hm as ([[[u q] e]|] & _ & Hm); [|done]. by injection Hm as <-.
  - apply bind_Ret in Hm as (inner & Hin & Hm). cbn in Hm.
    apply bind_Ret in Hm as ([[[u q] e]|] & _ & Hm); [|done]. injection Hm as <-. cbn.
    destruct (order o); try done. by injection Hin as <-.
Qed.

Lemma enter_job sv c j : enter valid_order valid_tob calculate_rewards sv c = Ret (Ok j) ->
  job_order j = cap_order c /\ job_block j = cap_block c.
Proof.
  unfold enter. destruct (cap_order c) eqn:Eo; intros H;
    try (apply bind_Ret in H as ([info|e] & _ & H); [|done]; by injection H as <-).
  destruct (token_out _ <? token_in _); apply bind_Ret in H as (rate & _ & H);
    (apply bind_Ret in H as ([info|e] & _ & H); [|done]; by injection H as <-).
Qed.

Lemma task_logged_mono v v' t : vs_requests v ⊆ vs_requests v' -> task_logged v t -> task_logged v' t.
Proof. unfold task_logged. intros Hs. destruct (fut t); set_solver. Qed.

Lemma task_step_logged `{SF : StateFetchUtils} v t ua f ans : task_logged v t ->
  run_task (vs_state v) (fut t) = Ret (ua, f, ans) ->
  task_logged v {| key := key t; spawned := true; fut := f |} /\
  forall ch st, (ch, AnsOrder (Valid st)) ∈ ans ->
    exists origin, (valid_block st, ReqOrder ch (order st) origin) ∈ vs_requests v.
Proof.
  unfold task_logged. destruct (fut t) as [c|c j s|sender b n|]; cbn [task_step]; intros Hl H.
  - apply bind_Ret in H as ([j|e] & He & H); injection H as <- <- <-; cbn.
    + destruct (enter_job _ _ _ He). destruct Hl. split; [naive_solver|set_solver].
    + split; [done|]. intros ch st [=]%list_elem_of_singleton.
  - destruct Hl as (Hk & Hr & Ho & Hb & Hst). destruct (is_finished s) eqn:Hfin.
    + destruct s as [| | | | | | | | | | |r]; try done.
      apply bind_Ret in H as (res & Hres & H). injection H as <- <- <-. split; [done|].
      intros ch st [= -> <-]%list_elem_of_singleton. unfold conclude in Hres.
      apply gas_keeps_order in Hres as (st0 & Hr0 & -> & ->). destruct r as [st1|]; [|done].
      injection Hr0 as ->. destruct (Hst st0 eq_refl) as [-> ->]. rewrite Ho, Hb. eauto.
    + assert (exists ua1 s1, advance j s (user_accounts (vs_state v)) = Ret (ua1, s1) /\
        f = Verifying c j s1 /\ ans = []) as (ua1 & s1 & Ha & -> & ->).
      { destruct s; try done; apply bind_Ret in H as ([ua1 s1] & Ha & H); injection H as <- <- <-; eauto. }
      split; [|set_solver]. cbn. do 4 (split; [done|]). intros st ->. by eapply advance_finished.
  - injection H as <- <- <-. split; [done|]. intros ch st [=]%list_elem_of_singleton.
  - injection H as <- <- <-. split; [done|]. set_solver.
Qed.

Lemma step_log v v' : step v v' -> vs_requests v ⊆ vs_requests v'.
Proof.
  intros Hstep. destruct Hstep as [SF v req v' _ _ Hreq|v user hash _|v nb gas ups g _|v store|
    v i tp Hst|SF v i t ua f ans Hi Hsp Ht|v i t tp Hi Hr Hcol]; try done.
  destruct (request_log _ _ _ Hreq) as [-> _]. set_solver.
Qed.

Lemma elem_of_delete {A} (l : list A) i x : x ∈ delete i l -> x ∈ l.
Proof. intros Hx. eapply elem_of_sublist; [exact Hx|]. apply sublist_delete. Qed.

Lemma step_logged v v' : step v v' -> all_logged v -> all_logged v'.
Proof.
  intros Hstep [Ht Ha]. pose proof (step_log _ _ Hstep) as Hsub.
  assert (Forall (task_logged v') (pending_results (vs_pool v))) as Ht'.
  { eapply Forall_impl; [exact Ht|]. intros t. by apply task_logged_mono. }
  assert (forall ch st, (ch, AnsOrder (Valid st)) ∈ vs_answers v ->
    exists origin, (valid_block st, ReqOrder ch (order st) origin) ∈ vs_requests v') as Ha'.
  { intros ch st [origin Hin]%Ha. exists origin. by apply Hsub. }
  destruct Hstep as [SF v req v' _ _ Hreq|v user hash _|v nb gas ups g _|v store|
    v i tp Hst|SF v i t ua f ans Hi Hsp Hrun|v i t tp Hi Hr Hcol]; try (split; done).
  - destruct (request_log _ _ _ Hreq) as (Hl & ans & Hans & Hno & _). split.
    + rewrite (request_pool _ _ _ Hreq). destruct req; try done; cbn; apply Forall_app; (split; [done|]);
        apply Forall_singleton; unfold task_logged; cbn; [|done].
      split; [done|]. rewrite Hl. set_solver.
    + intros ch st. rewrite Hans. intros [Hin|Hin]%elem_of_app; [by apply Ha'|by apply Hno in Hin].
  - split; [|done]. apply start_task_Some in Hst as (t & Hi & _ & _ & Hres & _). cbn. rewrite Hres.
    apply Forall_insert; [done|]. exact (Forall_lookup_1 _ _ _ _ Ht Hi).
  - destruct (task_step_logged v t ua f ans (Forall_lookup_1 _ _ _ _ Ht Hi) Hrun) as [Hf Hans].
    split; [by apply Forall_insert|]. intros ch st [Hin|Hin]%elem_of_app; [by apply Ha'|by apply Hans].
  - split; [|done]. cbn. rewrite (collect_results _ _ _ Hcol), Forall_forall. intros t1 Hin.
    rewrite Forall_forall in Ht'. apply elem_of_delete in Hin. by apply Ht'.
Qed.

Lemma served_logged v : served v -> all_logged v.
Proof.
  revert v. apply served_ind; [|intros v v' _ Hok Hstep; by eapply step_logged].
  intros. split; [constructor|]. intros ch st Hin. by apply not_elem_of_nil in Hin.
Qed.

(** *** The accounts *)

(** The orders that are asked about fit their machine types. *)
Definition requests_fit v : Prop :=
  forall b ch o origin, (b, ReqOrder ch o origin) ∈ vs_requests v -> order_range o.

Definition task_sound (ua : UserAccounts) (t : Pooled Task) : Prop :=
  match fut t with Verifying c j s => job_ok j /\ stage_ok ua j s | _ => True end.

Definition service_sound v : Prop :=
  let ua := user_accounts (vs_state v) in
  accounts_sound ua /\ Forall (task_sound ua) (pending_results (vs_pool v)).

Lemma precheck_Ok {T} `{RawPoolOrder T} (sig : T -> bool) sv o info : precheck sig sv o = Ret (Ok info) ->
  validate o = Ret (Ok tt) /\ token_in o = upi_token info.
Proof.
  unfold precheck. destruct (sig o); [|done]. cbn. intros ([[]|e] & Hv & H1)%bind_Ret; [|done].
  apply bind_Ret in H1 as ([info'|] & Hf & H1); [|done]. injection H1 as ->.
  split; [done|]. by rewrite (fetch_pool_info_token _ _ _ _ Hf).
Qed.

(** The reward of a searcher order can be computed. *)
Definition rewards_return : Prop := forall rate t info,
  exists r, searcher_rewards calculate_rewards rate t info = Ret r.

Lemma limit_job_price (o : AllOrders) : is_tob o = false -> order_range o -> validate o = Ret (Ok tt) ->
  exists lp, limit_price o = Ret lp /\ (exact_in o = false -> 0 < lp).
Proof.
  intros Htob (_ & _ & Hlp) Hv. destruct (validate_price o Htob Hv) as (lp & El & Hne).
  exists lp. split; [done|]. intros _. specialize (Hlp lp El). lia.
Qed.

Lemma tob_job_price (t : TopOfBlockOrder) : validate t = Ret (Ok tt) ->
  exists lp, limit_price (TOB t) = Ret lp /\ (exact_in (TOB t) = false -> 0 < lp).
Proof.
  intros Hv. destruct (validate_accepts t Hv) as (Hmin & _). cbn in Hmin |- *.
  unfold tob_limit_price, ray_div_word. rewrite (proj2 (Z.eqb_neq _ _) Hmin). by eexists.
Qed.

Lemma enter_job_ok sv c j : rewards_return -> order_range (cap_order c) ->
  enter valid_order valid_tob calculate_rewards sv c = Ret (Ok j) -> job_ok j.
Proof.
  intros Hrew Hr. unfold enter. destruct (cap_order c) eqn:Eo; intros H;
    try (apply bind_Ret in H as ([info|e] & Hp & H); [|done]; apply precheck_Ok in Hp as [Hv Ht]; injection H as <-;
      split; [done|]; split; [by apply limit_job_price|]; split; [done|]; by eexists).
  destruct (token_out _ <? token_in _); apply bind_Ret in H as (rate & _ & H);
    (apply bind_Ret in H as ([info|e] & Hp & H); [|done]; apply precheck_Ok in Hp as [Hv Ht];
     injection H as <-; split; [done|]; split; [by apply tob_job_price|]; split; [done|]; apply Hrew).
Qed.

Lemma tasks_sound_mono ua ua' l : keeps_known ua ua' -> Forall (task_sound ua) l ->
  Forall (task_sound ua') l.
Proof.
  intros Hk Hl. eapply Forall_impl; [exact Hl|]. intros t. unfold task_sound.
  destruct (fut t); try done. intros [Hj Hs]. split; [done|]. by eapply stage_ok_mono.
Qed.

Lemma task_step_sound `{SF : StateFetchUtils} v t ua f ans : rewards_return -> requests_fit v ->
  task_logged v t -> accounts_sound (user_accounts (vs_state v)) ->
  task_sound (user_accounts (vs_state v)) t -> run_task (vs_state v) (fut t) = Ret (ua, f, ans) ->
  accounts_sound ua /\ keeps_known (user_accounts (vs_state v)) ua /\
  task_sound ua {| key := key t; spawned := true; fut := f |}.
Proof.
  unfold task_logged, task_sound. intros Hrew Hfit Hl Hs Ht H. cbn.
  destruct (fut t) as [c|c j s|sender b n|]; cbn [task_step] in H.
  - destruct Hl as [_ Hl]. apply bind_Ret in H as ([j|e] & He & H); injection H as <- <- <-.
    + split; [done|]. split; [by intros ? ?|]. split; [|done].
      eapply enter_job_ok; [done| |done]. by eapply Hfit.
    + split; [done|]. split; [by intros ? ?|done].
  - destruct Ht as [Hj Hst]. destruct (is_finished s) eqn:Hfin.
    + destruct s; try done. apply bind_Ret in H as (res & _ & H). injection H as <- <- <-.
      split; [done|]. split; [by intros ? ?|done].
    + assert (exists s1, advance j s (user_accounts (vs_state v)) = Ret (ua, s1) /\ f = Verifying c j s1)
        as (s1 & Ha & ->).
      { destruct s; try done; apply bind_Ret in H as ([ua1 s1] & Ha & H); injection H as <- <- <-; eauto. }
      destruct (advance_goes_on j s _ Hj Hs Hst) as (ua1 & s2 & Ha1 & Hs1 & Hk1 & Hst1).
      rewrite Ha in Ha1. by injection Ha1 as <- <-.
  - injection H as <- <- <-. split; [done|]. by split; [intros ? ?|].
  - injection H as <- <- <-. split; [done|]. by split; [intros ? ?|].
Qed.

(** The accounts after a request. *)
Lemma request_accounts `{SF : StateFetchUtils} v req v' :
  on_new_validation_request v req = Ret (Some v') ->
  user_accounts (vs_state v') = match req with
    | ReqCancelOrder user hash => fst (try_cancel_book_order (user_accounts (vs_state v)) user hash)
    | ReqNewBlock _ _ _ orders addresses => new_block (user_accounts (vs_state v)) addresses orders
    | _ => user_accounts (vs_state v)
    end.
Proof.
  unfold on_new_validation_request. destruct req; cbn; intros H.
  - by injection H as <-.
  - by injection H as <-.
  - apply bind_Ret in H as (us & _ & H). apply bind_Ret in H as (? & _ & H). by injection H as <-.
  - apply bind_Ret in H as ([n|] & _ & H); [|done]. by injection H as <-.
  - destruct (try_cancel_book_order _ _ _) as [ua res]. by injection H as <-.
  - apply bind_Ret in H as (r & _ & H). by injection H as <-.
Qed.

Lemma request_tasks `{SF : StateFetchUtils} v req v' ua :
  on_new_validation_request v req = Ret (Some v') ->
  Forall (task_sound ua) (pending_results (vs_pool v)) ->
  Forall (task_sound ua) (pending_results (vs_pool v')).
Proof.
  intros Hreq Ht. rewrite (request_pool _ _ _ Hreq).
  destruct req; try done; cbn; apply Forall_app; (split; [done|]); by apply Forall_singleton.
Qed.

Lemma request_sound `{SF : StateFetchUtils} v req v' : service_sound v ->
  (is_new_block req = true ->
    Forall (fun t => order_in_flight (fut t) = false) (pending_results (vs_pool v))) ->
  on_new_validation_request v req = Ret (Some v') -> service_sound v'.
Proof.
  intros [Hs Ht] Hidle Hreq.
  enough (accounts_sound (user_accounts (vs_state v')) /\
    Forall (task_sound (user_accounts (vs_state v'))) (pending_results (vs_pool v))) as [H1 H2].
  { split; [done|]. by eapply request_tasks. }
  rewrite (request_accounts _ _ _ Hreq). destruct req; try done.
  - split; [split; [|apply map_Forall_empty]|].
    + apply new_block_with; [apply book_filed_sublist|apply Hs].
    + eapply Forall_impl; [exact (Hidle eq_refl)|]. intros t. unfold task_sound. by destruct (fut t).
  - destruct (cancel_book_sound (user_accounts (vs_state v)) user order_hash Hs).
    split; [done|]. by eapply tasks_sound_mono.
Qed.

Lemma step_sound v v' : rewards_return -> requests_fit v -> all_logged v -> step v v' ->
  service_sound v -> service_sound v'.
Proof.
  intros Hrew Hfit [Hlog _] Hstep Hsound. pose proof Hsound as [Hs Ht].
  destruct Hstep as [SF v req v' _ Hidle Hreq|v user hash _|v nb gas ups g _|v store|
    v i tp Hst|SF v i t ua f ans Hi Hsp Hrun|v i t tp Hi Hr Hcol]; try done.
  - by eapply request_sound.
  - destruct (cancel_tob_sound (user_accounts (vs_state v)) user hash Hs).
    split; [done|]. by eapply tasks_sound_mono.
  - split; [done|]. apply start_task_Some in Hst as (t & Hi & _ & _ & Hres & _). cbn. rewrite Hres.
    apply Forall_insert; [done|]. exact (Forall_lookup_1 _ _ _ _ Ht Hi).
  - destruct (task_step_sound v t ua f ans Hrew Hfit (Forall_lookup_1 _ _ _ _ Hlog Hi) Hs
      (Forall_lookup_1 _ _ _ _ Ht Hi) Hrun) as (Hs' & Hk & Hf).
    split; [done|]. cbn. apply Forall_insert; [by eapply tasks_sound_mono|done].
  - split; [done|]. cbn. rewrite (collect_results _ _ _ Hcol), Forall_forall. intros t1 Hin.
    rewrite Forall_forall in Ht. apply elem_of_delete in Hin. by apply Ht.
Qed.

Lemma served_sound v : rewards_return -> served v -> requests_fit v -> service_sound v.
Proof.
  intros Hrew. revert v. apply (served_ind (fun v => requests_fit v -> service_sound v)).
  - intros. split; [split; [split|]|]; try apply map_Forall_empty. constructor.
  - intros v v' Hserved IH Hstep Hfit.
    assert (requests_fit v) as Hfit0.
    { intros b ch o origin Hin. eapply Hfit. by apply (step_log _ _ Hstep). }
    eapply step_sound; [done|done|by apply served_logged|done|by apply IH].
Qed.

(** ** The theorems *)

(** The task validates an order of the user. *)
Definition validates (user : Address) (t : Pooled Task) : bool :=
  spawned t && match fut t with
               | Entering c | Verifying c _ _ => from (cap_order c) =? user
               | _ => false
               end.

(** C40. At most three validations of orders of one user run at a time, and a
    validation has to wait only while three tasks of its user run. *)
Theorem validations_limited v (Hserved : served v) :
  (forall user, (length (List.filter (validates user) (pending_results (vs_pool v))) <=
    MAX_VALIDATION_PER_ADDR)%nat) /\
  (forall i t, pending_results (vs_pool v) !! i = Some t -> spawned t = false ->
    start_task (vs_pool v) i = None ->
    exists user, key t = Some user /\
      running user (pending_results (vs_pool v)) = MAX_VALIDATION_PER_ADDR).
Proof.
  destruct (served_permits v Hserved) as [Hp <-]. split.
  - intros user. etrans; [|by apply (running_bound _ user)]. unfold running.
    pose proof (proj1 (served_logged v Hserved)) as Hlog. revert Hlog.
    generalize (pending_results (vs_pool v)) as l. clear Hp.
    induction l as [|t l IH]; intros Hl; [done|]. apply Forall_cons in Hl as [Ht Hl].
    specialize (IH Hl). cbn. enough (validates user t = true -> holds user t = true).
    { destruct (validates user t); [rewrite H by done; cbn; lia|]. destruct (holds user t); cbn; lia. }
    unfold validates, holds, task_logged in *. destruct (spawned t); [|done]. cbn [andb]. intros Hv.
    apply bool_decide_eq_true. destruct (fut t); try done; destruct Ht as [-> _];
      apply Z.eqb_eq in Hv; by rewrite Hv.
  - intros i t Hi Hw Hn. by apply (waiting_blocked _ i).
Qed.

(** C21. Every request that waits for an answer is answered once or its task is still
    there, and nothing else is answered; when no task is left, every request has
    its answer. *)
Theorem requests_answered_once v (Hserved : served v) :
  omap request_chan (vs_requests v) ≡ₚ
    (fst <$> vs_answers v) ++ outstanding (pending_results (vs_pool v)) /\
  (pending_results (vs_pool v) = [] ->
    omap request_chan (vs_requests v) ≡ₚ fst <$> vs_answers v).
Proof.
  pose proof (served_conserved v Hserved) as H. unfold conserved in H. split; [done|].
  intros E. rewrite H, E. cbn. by rewrite app_nil_r.
Qed.

(** An order that is answered as valid was asked about on the channel of the
    answer, and the answer carries the block of the moment it was asked, however
    many blocks went by since. *)
Theorem answer_matches_request v ch st (Hserved : served v)
    (Hans : (ch, AnsOrder (Valid st)) ∈ vs_answers v) :
  exists origin, (valid_block st, ReqOrder ch (order st) origin) ∈ vs_requests v.
Proof. by apply (served_logged v Hserved). Qed.

(** C12. However requests, price updates and validations on up to eight threads
    interleave, the accounts stay in order and the next access of every
    validation to them returns. *)
Theorem service_keeps_accounts v (Hserved : served v) (Hfit : requests_fit v) (Hrew : rewards_return) :
  accounts_filed (user_accounts (vs_state v)) /\ funds_ok (user_accounts (vs_state v)) /\
  forall (SF : StateFetchUtils) t c j s, t ∈ pending_results (vs_pool v) -> fut t = Verifying c j s ->
    exists ua' s', advance j s (user_accounts (vs_state v)) = Ret (ua', s').
Proof.
  destruct (served_sound v Hrew Hserved Hfit) as [Hs Ht]. split; [apply Hs|]. split; [apply Hs|].
  intros SF t c j s Hin Hf. rewrite Forall_forall in Ht. specialize (Ht t Hin).
  unfold task_sound in Ht. rewrite Hf in Ht. destruct Ht as [Hj Hst].
  destruct (advance_goes_on j s _ Hj Hs Hst) as (ua' & s' & Ha & _). eauto.
Qed.

(** ** Estimated gas *)

(** The gas of an order is quoted for the tokens in their order. *)
Lemma sorted_tokens_swap {T} `{RawPoolOrder T} (o : T) :
  (if token_out o <? token_in o then (token_out o, token_in o) else (token_in o, token_out o)) =
  sorted_tokens o.
Proof.
  unfold sorted_tokens. destruct (Z.ltb_spec (token_out o) (token_in o)), (Z.ltb_spec (token_in o) (token_out o));
    [lia|done..|]. f_equal; lia.
Qed.

(** The estimate of an order, from the quote for its gas. *)
Lemma estimate_quote {T} `{RawPoolOrder T} (o : T) g (book : bool) quoted :
  get_eth_conversion_price g (fst (sorted_tokens o)) (snd (sorted_tokens o))
    (if book then if use_internal o then BOOK_GAS_INTERNAL else BOOK_GAS
     else if use_internal o then fst (tob_gas_at (base_wei g)) else snd (tob_gas_at (base_wei g))) = Ret quoted ->
  estimate_gas g book (use_internal o) (token_in o) (token_out o) =
    Ret (match quoted with
         | None => Err "not valid token pair"%string
         | Some q => Ok (if q =? 0 then 1 else q, current_block g)
         end).
Proof.
  unfold estimate_gas. rewrite sorted_tokens_swap.
  destruct (sorted_tokens o) as [t0 t1], (tob_gas_at (base_wei g)) as [gi gn]. cbn [fst snd].
  destruct book, (use_internal o); by intros ->.
Qed.

(** The gas that is estimated for a pair is the gas that an order of that kind is
    charged at the same prices, except that nothing is rounded up to one; a pair
    without a price is refused in both cases. *)
Theorem estimate_is_charge (g : TokenPriceGenerator) (o : AllOrders) (t : TopOfBlockOrder) :
  (forall units q e, calculate_user_gas o g = Ret (Ok (units, q, e)) ->
    estimate_gas g true (use_internal o) (token_in o) (token_out o) =
      Ret (Ok (if q =? 0 then 1 else q, current_block g))) /\
  (forall units q e, calculate_tob_gas t g = Ret (Ok (units, q, e)) ->
    estimate_gas g false (use_internal t) (token_in t) (token_out t) =
      Ret (Ok (if q =? 0 then 1 else q, current_block g))) /\
  (forall e, calculate_user_gas o g = Ret (Err e) ->
    estimate_gas g true (use_internal o) (token_in o) (token_out o) =
      Ret (Err "not valid token pair"%string)).
Proof.
  pose proof (estimate_quote o g true) as Hu. pose proof (estimate_quote t g false) as Ht.
  unfold calculate_user_gas, calculate_tob_gas, gas_of_book_order, gas_of_tob_order.
  destruct (sorted_tokens o) as [t0 t1], (sorted_tokens t) as [t2 t3], (tob_gas_at (base_wei g)) as [gi gn].
  split; [|split].
  - intros units q e (quoted & Hq & H)%bind_Ret. destruct quoted as [x|]; [|done].
    injection H as _ <- _. by apply (Hu (Some x)).
  - intros units q e (quoted & Hq & H)%bind_Ret. destruct quoted as [x|]; [|done].
    destruct (_ <? x); [done|]. injection H as _ <- _. by apply (Ht (Some x)).
  - intros e (quoted & Hq & H)%bind_Ret. destruct quoted as [x|]; [done|]. by apply (Hu None).
Qed.

(** ** A task that runs alone *)

Section alone.
Context `{SF : StateFetchUtils}.

(** From [bound] steps on the task has answered, with the result [res]. *)
Definition answers_in sv f (res : outcome (StateValidation * Task * list (Chan * Answer))) (bound : nat) : Prop :=
  forall n, (bound <= n)%nat ->
    run_task_alone valid_order valid_tob calculate_rewards n sv f = res.

Lemma answers_returned sv : answers_in sv Returned (Ret (sv, Returned, [])) 0.
Proof.
  intros n _. induction n as [|n IH]; [done|]. cbn. replace (with_accounts sv (user_accounts sv)) with sv
    by (by destruct sv). by rewrite IH.
Qed.

Lemma answers_step sv f ua f' ans sv' f'' ans' b : run_task sv f = Ret (ua, f', ans) ->
  answers_in (with_accounts sv ua) f' (Ret (sv', f'', ans')) b ->
  answers_in sv f (Ret (sv', f'', ans ++ ans')) (S b).
Proof.
  intros Hs H [|n] Hn; [lia|]. cbn [run_task_alone]. rewrite Hs. cbn. rewrite (H n) by lia. done.
Qed.

Lemma answers_last sv f ua ans b : run_task sv f = Ret (ua, Returned, ans) ->
  answers_in sv f (Ret (with_accounts sv ua, Returned, ans)) (S b).
Proof.
  intros Hs n Hn. rewrite <-(app_nil_r ans). eapply answers_step; [exact Hs|apply answers_returned|lia].
Qed.

Lemma answers_panic sv f b : run_task sv f = Panic -> answers_in sv f Panic (S b).
Proof. intros Hs [|n] Hn; [lia|]. cbn [run_task_alone]. by rewrite Hs. Qed.

Lemma answers_panic_later sv f ua f' ans b : run_task sv f = Ret (ua, f', ans) ->
  answers_in (with_accounts sv ua) f' Panic b -> answers_in sv f Panic (S b).
Proof. intros Hs H [|n] Hn; [lia|]. cbn [run_task_alone]. rewrite Hs. cbn. by rewrite (H n) by lia. Qed.

Lemma run_verifying sv c j s : is_finished s = false ->
  run_task sv (Verifying c j s) =
    '(ua, s) ← advance j s (user_accounts sv); Ret (ua, Verifying c j s, []).
Proof. by destruct s. Qed.

(** The accounts part of a task, from the run of [Threads.v]. *)
Lemma answers_verifying k sv c j s :
  (forall ua' r, run_alone k j s (user_accounts sv) = Ret (ua', Finished r) ->
    answers_in sv (Verifying c j s)
      (res ← conclude c r; Ret (with_accounts sv ua', Returned, [(cap_sender c, AnsOrder res)])) (S k)) /\
  (run_alone k j s (user_accounts sv) = Panic -> answers_in sv (Verifying c j s) Panic (S k)).
Proof.
  revert sv s. induction k as [|k IH]; intros sv s; (destruct (is_finished s) eqn:Hfin;
    [destruct s as [| | | | | | | | | | |r0]; try done|]).
  - split; [|done]. intros ua' r [= <- <-].
    destruct (conclude c r0) as [res|] eqn:Hc; [apply answers_last|apply answers_panic]; cbn; by rewrite Hc.
  - split; [|done]. intros ua' r [= <- ->]. done.
  - pose proof (ends_finished j r0 (user_accounts sv) (S k) ltac:(lia)) as Hr.
    split; [|intros H; by rewrite Hr in H]. intros ua' r H. rewrite Hr in H. injection H as <- <-.
    destruct (conclude c r0) as [res|] eqn:Hc; [apply answers_last|apply answers_panic]; cbn; by rewrite Hc.
  - cbn [run_alone]. destruct (advance j s (user_accounts sv)) as [[ua1 s1]|] eqn:Ha; cbn.
    + assert (run_task sv (Verifying c j s) = Ret (ua1, Verifying c j s1, [])) as Hrun
        by (by rewrite run_verifying, Ha).
      destruct (IH (with_accounts sv ua1) s1) as [IH1 IH2]. split.
      * intros ua' r Hr. specialize (IH1 ua' r Hr). destruct (conclude c r) as [res|]; cbn in IH1 |- *.
        -- by apply (answers_step _ _ _ _ _ _ _ _ _ Hrun IH1).
        -- by apply (answers_panic_later _ _ _ _ _ _ Hrun IH1).
      * intros Hr. by apply (answers_panic_later _ _ _ _ _ _ Hrun), IH2.
    + split; [done|]. intros _. apply answers_panic. by rewrite run_verifying, Ha.
Qed.

(** How many steps a task takes on its own at most. *)
Definition steps_alone sv (j : Job AllOrders) : nat :=
  12 + 2 * length (conflicts (user_accounts sv) (job_order j) (job_reval j)).

Lemma answers_verify sv c j : answers_in sv (Verifying c j Start)
  ('(ua', r) ← verify_order (user_accounts sv) (job_order j) (job_info j) (job_block j) (job_reval j)
     (job_rewards j);
   res ← conclude c r; Ret (with_accounts sv ua', Returned, [(cap_sender c, AnsOrder res)]))
  (steps_alone sv j).
Proof.
  destruct (answers_verifying (pred (steps_alone sv j)) sv c j Start) as [H1 H2].
  pose proof (verify_order_alone j (user_accounts sv) (pred (steps_alone sv j)) ltac:(unfold steps_alone; lia)) as Hr.
  destruct (verify_order _ _ _ _ _ _) as [[ua' r]|]; cbn in Hr |- *; [by apply H1|by apply H2].
Qed.

(** The storage data of a searcher order as that of any order. *)
Definition as_tob (st : OrderWithStorageData TopOfBlockOrder) : OrderWithStorageData AllOrders :=
  Build_OrderWithStorageData (TOB (order st)) (priority_data st) (invalidates st) (pool_id st)
    (is_currently_valid st) (is_bid st) (is_valid st) (valid_block st) (order_id st) (tob_reward st)
    (cancel_requested st).

Lemma reserve_tob ua t info block conf live r0 r1 :
  reserve_order ua (TOB t) info block conf live r0 r1 =
  '(ua', r) ← reserve_order ua t info block conf live r0 r1;
  Ret (ua', match r with Ok st => Ok (as_tob st) | Err e => Err e end).
Proof.
  unfold reserve_order.
  change (can_support_order live (TOB t) info (Some r1)) with (can_support_order live t info (Some r1)).
  destruct (can_support_order live t info (Some r1)) as [[action|e]|]; cbn [mbind outcome_bind]; [|done..].
  change (insert_pending_user_action ua (is_tob (TOB t)) (from (TOB t)) action)
    with (insert_pending_user_action ua (is_tob t) (from t) action).
  destruct (insert_pending_user_action _ _ _ _) as [[ua' bad]|]; cbn [mbind outcome_bind]; [|done].
  unfold into_order_storage_with_data. change (limit_price (TOB t)) with (limit_price t).
  by destruct (limit_price t).
Qed.

(** Verifying a searcher order among all orders is verifying it. *)
Lemma verify_tob ua t info block rewards rewards' :
  (forall t info, rewards' (TOB t) info = rewards t info) ->
  verify_order ua (TOB t) info block false rewards' =
  '(ua', r) ← verify_order ua t info block false rewards;
  Ret (ua', match r with Ok st => Ok (as_tob st) | Err e => Err e end).
Proof.
  intros Hrew. unfold verify_order. rewrite Hrew.
  change (check_respend (TOB t) block) with (check_respend t block).
  destruct (check_respend t block); [|done]. cbn [has_hook AllOrders_raw TopOfBlockOrder_raw].
  change (respend_conflicts ua (from (TOB t)) (respend_avoidance_strategy (TOB t)))
    with (respend_conflicts ua (from t) (respend_avoidance_strategy t)).
  cbn [respend_avoidance_strategy TopOfBlockOrder_raw respend_conflicts existsb foldl].
  destruct (rewards t info) as [[[r0 r1]|e]|]; cbn [mbind outcome_bind]; [|done..].
  change (get_live_state_for_order ua (from (TOB t)) (upi_token info)
    (validation_priority (TOB t) (Some r1)) (upi_pool_id info))
    with (get_live_state_for_order ua (from t) (upi_token info)
      (validation_priority t (Some r1)) (upi_pool_id info)).
  destruct (get_live_state_for_order _ _ _ _ _) as [ua2 [live|e]]; [|done]. apply reserve_tob.
Qed.

(** What a task sends for the answer of the accounts. *)
Definition sent_for sv c (ua : UserAccounts)
    (r : result (OrderWithStorageData AllOrders) UserAccountVerificationError)
    : outcome (StateValidation * Task * list (Chan * Answer)) :=
  res ← conclude c r; Ret (with_accounts sv ua, Returned, [(cap_sender c, AnsOrder res)]).

Lemma answers_entering sv c :
  match enter valid_order valid_tob calculate_rewards sv c with
  | Panic => answers_in sv (Entering c) Panic 1
  | Ret (Err e) => answers_in sv (Entering c)
      (Ret (sv, Returned, [(cap_sender c, AnsOrder (Invalid (order_hash (cap_order c)) e))])) 1
  | Ret (Ok j) => answers_in sv (Entering c)
      ('(ua', r) ← verify_order (user_accounts sv) (job_order j) (job_info j) (job_block j) (job_reval j)
         (job_rewards j); sent_for sv c ua' r) (S (steps_alone sv j))
  end.
Proof.
  assert (with_accounts sv (user_accounts sv) = sv) as Esv by (by destruct sv).
  destruct (enter _ _ _ sv c) as [[j|e]|] eqn:He.
  - assert (run_task sv (Entering c) = Ret (user_accounts sv, Verifying c j Start, [])) as Hrun
      by (cbn [task_step]; by rewrite He).
    pose proof (answers_verify sv c j) as Hv. fold (sent_for sv c) in Hv. unfold sent_for.
    destruct (verify_order _ _ _ _ _ _) as [[ua' r]|]; cbn in Hv |- *.
    + destruct (conclude c r) as [res|]; cbn in Hv |- *.
      * rewrite <-(app_nil_l [(cap_sender c, AnsOrder res)]). eapply answers_step; [exact Hrun|]. by rewrite Esv.
      * eapply answers_panic_later; [exact Hrun|]. by rewrite Esv.
    + eapply answers_panic_later; [exact Hrun|]. by rewrite Esv.
  - rewrite <-Esv at 2. apply answers_last. cbn [task_step]. by rewrite He.
  - apply answers_panic. cbn [task_step]. by rewrite He.
Qed.

Lemma handle_orders_precheck {T} `{RawPoolOrder T} (sig : T -> bool) into sv o block reval rewards :
  handle_orders sig into sv o block reval rewards =
  checked ← precheck sig sv o;
  match checked with
  | Err e => Ret (sv, Invalid (order_hash o) e)
  | Ok info =>
      '(ua, res) ← verify_order (user_accounts sv) o info block reval rewards;
      match res with
      | Ok stored =>
          valid ← unwrap (try_map_inner (fun inner => Some (into inner)) stored);
          Ret (with_accounts sv ua, Valid valid)
      | Err e => Ret (with_accounts sv ua, Invalid (order_hash o) (StateError e))
      end
  end.
Proof.
  unfold handle_orders, precheck. destruct (sig o); [|done]. cbn [negb].
  destruct (validate o) as [[u|e]|]; [|done..]. cbn.
  by destruct (fetch_pool_info_for_order _ _ _) as [[info|]|].
Qed.

Lemma map_inner_id (st : OrderWithStorageData AllOrders) :
  unwrap (try_map_inner (fun inner => Some (id inner)) st) = Ret st.
Proof. by destruct st. Qed.

Lemma map_inner_tob (st : OrderWithStorageData TopOfBlockOrder) :
  unwrap (try_map_inner (fun inner => Some (TOB inner)) st) = Ret (as_tob st).
Proof. done. Qed.

(** The task of a user order. *)
Lemma limit_alone sv c : is_tob (cap_order c) = false ->
  exists bound, answers_in sv (Entering c)
    ('(sv', r) ← handle_orders valid_order id sv (cap_order c) (cap_block c) (is_revalidating (cap_origin c))
       (fun _ _ => Ret (Ok (0, 0)));
     r ← add_gas_cost_or_invalidate r (cap_prices c) true;
     Ret (sv', Returned, [(cap_sender c, AnsOrder r)])) bound.
Proof.
  intros Htob. rewrite handle_orders_precheck. pose proof (answers_entering sv c) as H.
  assert (enter valid_order valid_tob calculate_rewards sv c =
    checked ← precheck valid_order sv (cap_order c);
    Ret (match checked with
         | Err e => Err e
         | Ok info => Ok {| job_order := cap_order c; job_info := info; job_block := cap_block c;
             job_reval := is_revalidating (cap_origin c); job_rewards := fun _ _ => Ret (Ok (0, 0)) |}
         end)) as He by (unfold enter; by destruct (cap_order c)).
  rewrite He in H.
  destruct (precheck valid_order sv (cap_order c)) as [[info|e]|]; cbn [mbind outcome_bind] in H |- *;
    eexists; [|exact H..]. intros n Hn. rewrite (H n Hn).
  cbn [job_order job_info job_block job_reval job_rewards].
  destruct (verify_order _ _ _ _ _ _) as [[ua' [st|e]]|]; cbn [mbind outcome_bind]; [|done..].
  unfold sent_for, conclude. rewrite Htob, map_inner_id. cbn [negb mbind outcome_bind].
  by destruct (add_gas_cost_or_invalidate (Valid st) (cap_prices c) true).
Qed.

(** The task of a searcher order. *)
Lemma searcher_alone sv c t rate : cap_order c = TOB t ->
  conversion_rate_of_pair (cap_prices c) (fst (sorted_tokens t)) (snd (sorted_tokens t)) = Ret rate ->
  exists bound, answers_in sv (Entering c)
    ('(sv', r) ← handle_tob_order valid_tob calculate_rewards sv t (cap_block c) (default 0 rate);
     r ← add_gas_cost_or_invalidate r (cap_prices c) false;
     Ret (sv', Returned, [(cap_sender c, AnsOrder r)])) bound.
Proof.
  intros Eo Hrate. unfold handle_tob_order. rewrite handle_orders_precheck.
  pose proof (answers_entering sv c) as H. unfold enter in H. rewrite Eo in H.
  rewrite sorted_tokens_swap in H. destruct (sorted_tokens t) as [t0 t1]. cbn [fst snd] in Hrate.
  rewrite Hrate in H. cbn [mbind outcome_bind] in H.
  destruct (precheck valid_tob sv t) as [[info|e]|]; cbn [mbind outcome_bind] in H |- *;
    eexists; [|exact H..]. intros n Hn. rewrite (H n Hn). cbn [job_order job_info job_block job_reval job_rewards].
  rewrite (verify_tob _ _ _ _ (searcher_rewards calculate_rewards (default 0 rate))) by done.
  destruct (verify_order _ t _ _ _ _) as [[ua' [st|e]]|]; cbn [mbind outcome_bind]; [|unfold sent_for, conclude; by rewrite Eo|done].
  rewrite map_inner_tob. unfold sent_for, conclude. rewrite Eo. cbn [mbind outcome_bind negb is_tob AllOrders_raw].
  by destruct (add_gas_cost_or_invalidate (Valid (as_tob st)) (cap_prices c) false).
Qed.

(** C22. Refinement: the task of an order, run alone, sends the one answer of
    [validate_order] on its channel and leaves the state of [validate_order],
    after finitely many steps. *)
Theorem validate_order_alone sv c :
  exists bound, forall n, (bound <= n)%nat ->
    run_task_alone valid_order valid_tob calculate_rewards n sv (Entering c) =
    '(sv', r) ← validate_order valid_order valid_tob calculate_rewards sv (cap_block c) (cap_prices c)
      (cap_order c) (cap_origin c);
    Ret (sv', Returned, [(cap_sender c, AnsOrder r)]).
Proof.
  destruct (is_tob (cap_order c)) eqn:Htob.
  - destruct (cap_order c) as [| | | |t] eqn:Eo; try done. unfold validate_order.
    rewrite sorted_tokens_swap. destruct (sorted_tokens t) as [t0 t1] eqn:Et.
    destruct (conversion_rate_of_pair (cap_prices c) t0 t1) as [rate|] eqn:Er.
    + destruct (searcher_alone sv c t rate Eo) as [b Hb]; [by rewrite Et|]. exists b. intros n Hn.
      rewrite (Hb n Hn). cbn [mbind outcome_bind].
      destruct (handle_tob_order _ _ _ _ _ _) as [[sv' r]|]; cbn [mbind outcome_bind]; [|done].
      by destruct (add_gas_cost_or_invalidate r (cap_prices c) false).
    + exists 1%nat. apply answers_panic. cbn [task_step]. unfold enter.
      rewrite Eo, sorted_tokens_swap, Et, Er. done.
  - destruct (limit_alone sv c Htob) as [b Hb]. exists b. intros n Hn. rewrite (Hb n Hn).
    assert (forall o, is_tob o = false -> validate_order valid_order valid_tob calculate_rewards sv (cap_block c)
      (cap_prices c) o (cap_origin c) =
      '(sv, results) ← handle_orders valid_order id sv o (cap_block c) (is_revalidating (cap_origin c))
        (fun _ _ => Ret (Ok (0, 0)));
      results ← add_gas_cost_or_invalidate results (cap_prices c) true; Ret (sv, results)) as ->
      by (by intros []); [|done].
    destruct (handle_orders _ _ _ _ _ _ _) as [[sv' r]|]; cbn [mbind outcome_bind]; [|done].
    by destruct (add_gas_cost_or_invalidate r (cap_prices c) true).
Qed.
End alone.
End service.
