(* ===== verification/ServiceExamples.v ===== *)
(** * The validation service at work

    A service that takes two orders of one user and a request for gas, and the
    theorems of [ServiceProps.v] at the state that it reaches. *)

From S2P Require Import Prelude Ray Orders Samples Subscribers TokenPricing Rules Accounts AccountsProps StateValidation Threads ThreadsProps Payload Matching Service ServiceProps.
Open Scope Z_scope.

Section examples.
#[local] Existing Instance arith_Z.
#[local] Existing Instance iter_by_encoding.
#[local] Existing Instance sample_hasher.
#[local] Existing Instance uniswap_ratios.
#[local] Existing Instance insertion_sort.
#[local] Existing Instance sample_pool_hasher.
#[local] Existing Instance counting_semaphore.

(** Every bundle succeeds and uses 21000 of gas. *)
#[local] Instance sample_evm : BundleEvm := {| inspect_one_tx := fun _ _ => Ok (true, 21000) |}.

(** What the service does next. *)
Inductive Act :=
| Ask (req : ValidationRequest)
| Spawn (i : nat)
| Work (i : nat)
| Collect (i : nat).

Abbreviation sample_step := (service_step (fun _ => true) (fun _ => true) no_swap).
Abbreviation sample_served := (served (fun _ => true) (fun _ => true) no_swap).

Definition act (v : ValidationService) (a : Act) : option ValidationService :=
  match a with
  | Ask req =>
      if is_new_block req then None
      else match vs_cancelling v with
           | Some _ => None
           | None => match on_new_validation_request (SF := sample_chain 500) v req with
                     | Ret r => r
                     | Panic => None
                     end
           end
  | Spawn i => with_vs_pool v <$> start_task (vs_pool v) i
  | Work i =>
      t ← pending_results (vs_pool v) !! i;
      if spawned t then
        match task_step (SF := sample_chain 500) (fun _ => true) (fun _ => true) no_swap (vs_state v) (fut t) with
        | Ret (ua, f, answers) =>
            Some (sending (with_vs_pool (with_vs_state v (with_accounts (vs_state v) ua))
              (set_task (vs_pool v) i {| key := key t; spawned := true; fut := f |})) answers)
        | Panic => None
        end
      else None
  | Collect i =>
      t ← pending_results (vs_pool v) !! i;
      match fut t with Returned => with_vs_pool v <$> collect_task (vs_pool v) i | _ => None end
  end.

Fixpoint acts (v : ValidationService) (l : list Act) : option ValidationService :=
  match l with
  | [] => Some v
  | a :: l => v ← act v a; acts v l
  end.

Lemma act_step v a v' : act v a = Some v' -> sample_step v v'.
Proof.
  destruct a as [req|i|i|i]; cbn [act].
  - destruct (is_new_block req) eqn:Hn; [done|]. destruct (vs_cancelling v) eqn:Hc; [done|].
    destruct (on_new_validation_request (SF := sample_chain 500) v req) as [r|] eqn:E; [|done].
    intros ->. by apply (svc_request _ _ _ (sample_chain 500) v req); [|rewrite Hn|].
  - intros (tp & Hs & ->)%fmap_Some. by apply svc_start with i.
  - intros (t & Hi & H)%bind_Some. destruct (spawned t) eqn:Hs; [|done].
    destruct (task_step (SF := sample_chain 500) _ _ _ _ _) as [[[ua f] ans]|] eqn:E; [|done].
    injection H as <-. by apply (svc_task _ _ _ (sample_chain 500) v i t).
  - intros (t & Hi & H)%bind_Some. destruct (fut t) eqn:Hf; try done.
    apply fmap_Some in H as (tp & Hc & ->). by apply svc_collect with i t.
Qed.

Definition sample_service : ValidationService := service_start 77 sample_store 1 cheap_prices.

Lemma acts_served l v : acts sample_service l = Some v -> sample_served v.
Proof.
  intros H. exists 77, sample_store, 1, cheap_prices. revert H.
  change (service_start 77 sample_store 1 cheap_prices) with sample_service.
  generalize sample_service as v0. induction l as [|a l IH]; intros v0 H.
  - by injection H as ->.
  - apply bind_Some in H as (v1 & Ha & H). eapply rtc_l; [by apply (act_step v0 a)|by apply IH].
Qed.

(** The orders 7 and 8 of user 4 are asked about on the channels 0 and 1, and gas
    on channel 2; order 7 is validated and collected, order 8 is under way. *)
Definition sample_script : list Act :=
  [Ask (ReqOrder 0 sample_order Local); Ask (ReqOrder 1 (sample_standing 8 4 const_1e27 10) Local);
   Ask (ReqGasEstimation 2 true true 1 2); Spawn 0; Spawn 1] ++
  repeat (Work 0) 12 ++ repeat (Work 1) 2 ++ [Collect 0].

Definition sample_run : option ValidationService := acts sample_service sample_script.

Lemma sample_run_served : exists v, sample_run = Some v /\ sample_served v.
Proof.
  destruct sample_run as [v|] eqn:E; [|by vm_compute in E]. exists v. split; [done|].
  by apply (acts_served sample_script).
Qed.

Lemma validations_limited_witness : exists v, sample_run = Some v /\
  (length (List.filter (validates 4) (pending_results (vs_pool v))) <= 3)%nat.
Proof.
  destruct sample_run_served as (v & Hv & Hs). exists v. split; [exact Hv|].
  apply (proj1 (validations_limited (fun _ => true) (fun _ => true) no_swap v Hs) 4).
Defined.

Lemma requests_answered_once_witness : exists v, sample_run = Some v /\
  omap request_chan (vs_requests v) ≡ₚ
    (fst <$> vs_answers v) ++ outstanding (pending_results (vs_pool v)).
Proof.
  destruct sample_run_served as (v & Hv & Hs). exists v. split; [exact Hv|].
  apply (proj1 (requests_answered_once (fun _ => true) (fun _ => true) no_swap v Hs)).
Defined.

(** Order 7 and the gas are answered. *)
Lemma sample_run_answers :
  match sample_run with
  | Some v => (fst <$> vs_answers v) = [2; 0]%nat /\ outstanding (pending_results (vs_pool v)) = [1]%nat
  | None => False
  end.
Proof. vm_compute. by split. Qed.

Lemma answer_matches_request_witness : exists v st origin, sample_run = Some v /\
  (0%nat, AnsOrder (Valid st)) ∈ vs_answers v /\
  (valid_block st, ReqOrder 0 (order st) origin) ∈ vs_requests v.
Proof.
  destruct sample_run_served as (v & Hv & Hs).
  assert (exists st, (0%nat, AnsOrder (Valid st)) ∈ vs_answers v) as [st Hst].
  { vm_compute in Hv. injection Hv as <-. cbn. eexists. right. left. }
  destruct (answer_matches_request (fun _ => true) (fun _ => true) no_swap v 0 st Hs Hst) as [origin Ho].
  exists v, st, origin. split; [exact Hv|]. split; [exact Hst|exact Ho].
Defined.

Lemma sample_requests_fit v : sample_run = Some v -> requests_fit v.
Proof.
  intros Hv b ch o origin Hin.
  assert (vs_requests v = [(1, ReqOrder 0 sample_order Local);
    (1, ReqOrder 1 (sample_standing 8 4 const_1e27 10) Local);
    (1, ReqGasEstimation 2 true true 1 2)]) as E by (vm_compute in Hv; by injection Hv as <-).
  rewrite E in Hin. apply elem_of_cons in Hin as [[= _ _ -> _]|Hin]; [exact sample_order_range|].
  apply elem_of_cons in Hin as [[= _ _ -> _]|Hin]; [|by apply list_elem_of_singleton in Hin].
  split; [vm_compute; split; discriminate|]. split; [vm_compute; split; discriminate|].
  intros lp [= <-]. vm_compute. discriminate.
Qed.

Lemma no_swap_rewards : rewards_return no_swap.
Proof.
  intros rate t info. unfold searcher_rewards, no_swap. destruct (raw_is_bid t); cbn; by eexists.
Qed.

Lemma service_keeps_accounts_witness : exists v, sample_run = Some v /\
  accounts_filed (user_accounts (vs_state v)) /\ funds_ok (user_accounts (vs_state v)).
Proof.
  destruct sample_run_served as (v & Hv & Hs). exists v. split; [exact Hv|].
  destruct (service_keeps_accounts (fun _ => true) (fun _ => true) no_swap v Hs
    (sample_requests_fit v Hv) no_swap_rewards) as (H1 & H2 & _). exact (conj H1 H2).
Defined.
End examples.
