(* ===== verification/Quoter.v ===== *)
(** * The quoter

    The model of [crates/amm-quoter/src/lib.rs]: on every tick the quoter solves
    the book of every pool and tells its subscribers where the AMM of the pool
    would end.  The results of the tasks on the thread pool come back in any order;
    which of them are ready, the state of the block synchronisation and whether the
    channel of a subscriber takes a message are arguments of [poll]. *)

From S2P Require Import Prelude Ray Orders Samples Storage Rules Accounts ConsensusTypes Rounds Manager.
From S2P Require Import Pool Donation Book Delta Assets Payload OrderKeys Bundle BundleProps Matching.
Open Scope Z_scope.

Record Slot0Update := {
  su_seq_id : Z;
  su_current_block : u64;
  su_angstrom_pool_id : PoolId;
  su_uni_pool_id : PoolId;
  su_sqrt_price_x96 : U256;
  su_liquidity : u128;
  su_tick : i32
}.

(** A synchronised pool: its public and its private key and, when it is loaded, its
    snapshot. *)
Record SyncedPool := {
  public_address : PoolId;
  private_address : PoolId;
  pool_snapshot : option BaselinePoolState
}.

Abbreviation Snapshots := (gmap PoolId (PoolId * BaselinePoolState)) (only parsing).

Record QuoterManager := {
  q_cur_block : u64;
  q_seq_id : Z;
  book_snapshots : Snapshots;
  pending_tasks : list (outcome Slot0Update);
  pool_to_subscribers : gmap PoolId (list nat);
  active_hashes : option ConsensusRoundOrderHashes
}.

(** What the quoter reads on a tick. *)
Record Tick := {
  tk_can_operate : bool;
  tk_block : u64;
  tk_amms : gmap PoolId SyncedPool;
  tk_orders : Storage.OrderStorage
}.

(** What a poll finds ready: subscriptions, round events, the pending tasks that
    finished, by their position, and ticks. *)
Record PollInput := {
  pi_subscriptions : list (gset PoolId * nat);
  pi_rounds : list ConsensusRoundOrderHashes;
  pi_finished : list nat;
  pi_ticks : list Tick
}.

Abbreviation Log := (list (nat * Slot0Update)) (only parsing).

Section quoter.
Context `{HI : HashIter} `{AL : ArithLib} `{OH : OrderHasher} `{SR : SqrtRatios} `{TL : TickLib}.
Implicit Types (q : QuoterManager) (u : Slot0Update) (t : SearcherOrder) (o : BookOrder).

Definition set_subs q subs : QuoterManager :=
  {| q_cur_block := q_cur_block q; q_seq_id := q_seq_id q; book_snapshots := book_snapshots q;
     pending_tasks := pending_tasks q; pool_to_subscribers := subs; active_hashes := active_hashes q |}.
Definition set_tasks q tasks : QuoterManager :=
  {| q_cur_block := q_cur_block q; q_seq_id := q_seq_id q; book_snapshots := book_snapshots q;
     pending_tasks := tasks; pool_to_subscribers := pool_to_subscribers q; active_hashes := active_hashes q |}.
Definition set_hashes q h : QuoterManager :=
  {| q_cur_block := q_cur_block q; q_seq_id := q_seq_id q; book_snapshots := book_snapshots q;
     pending_tasks := pending_tasks q; pool_to_subscribers := pool_to_subscribers q; active_hashes := h |}.

(** ** The snapshots *)

(** [fetch_pool_snapshot().unwrap()] of every pool; [key] is the key it is kept
    under. *)
Definition fetch_snapshots (key : PoolId -> SyncedPool -> PoolId) (amms : gmap PoolId SyncedPool)
    : outcome Snapshots :=
  l ← traverse (fun '(k, v) => sn ← unwrap (pool_snapshot v); Ret (key k v, (private_address v, sn))) (hm_iter amms);
  Ret (foldl (fun m '(k, x) => <[k := x]> m) ∅ l).

Definition new_quoter (block : u64) (amms : gmap PoolId SyncedPool) (interval_ms : Z) : outcome QuoterManager :=
  snaps ← fetch_snapshots (fun _ v => public_address v) amms;
  _ ← assert (10 <? interval_ms);
  Ret {| q_cur_block := block; q_seq_id := 0; book_snapshots := snaps; pending_tasks := [];
         pool_to_subscribers := ∅; active_hashes := None |}.

Definition update_book_state q (amms : gmap PoolId SyncedPool) : outcome QuoterManager :=
  snaps ← fetch_snapshots (fun k _ => k) amms;
  Ret {| q_cur_block := q_cur_block q; q_seq_id := q_seq_id q; book_snapshots := snaps;
         pending_tasks := pending_tasks q; pool_to_subscribers := pool_to_subscribers q;
         active_hashes := active_hashes q |}.

(** ** Subscriptions *)

Definition known_keys (snaps : Snapshots) : gset PoolId :=
  list_to_set (hm_iter snaps ≫= (fun x => [x.1; x.2.1])).

Definition handle_new_subscription q (pools : gset PoolId) (chan : nat) : QuoterManager :=
  if forallb (fun p => bool_decide (p ∈ known_keys (book_snapshots q))) (hs_iter pools) then
    set_subs q (foldl (fun m p => <[p := default [] (m !! p) ++ [chan]]> m) (pool_to_subscribers q) (hs_iter pools))
  else q.

Definition update_consensus_state q (round : ConsensusRoundOrderHashes) : QuoterManager :=
  match roh_round round with
  | EvPropagatePreProposalAgg => set_hashes q (Some round)
  | _ => q
  end.

(** ** Solving the books *)

Definition all_orders_with_consensus q (orders : Storage.OrderStorage) : outcome Storage.OrderSet :=
  match active_hashes q with
  | Some h => Storage.get_all_orders_with_hashes orders (roh_limit h) (roh_searcher h)
  | None => Storage.get_all_orders orders
  end.

(** [build_non_proposal_books] of the quoter: the books by their pool. *)
Definition quoter_books (limit : list BookOrder) (snaps : Snapshots) : gmap PoolId OrderBook :=
  list_to_map ((fun '(id, orders) => (id, build_book id (snd <$> snaps !! id) (hs_iter orders))) <$>
    hm_iter (orders_by_pool limit)).

(** A searcher order beats another one of its pool with a larger reward, or with
    the smaller hash at the same reward. *)
Definition beats t t' : bool :=
  (tob_reward t' <? tob_reward t) ||
  ((tob_reward t =? tob_reward t') && (id_hash (order_id t) <? id_hash (order_id t'))).

Definition add_searcher (m : gmap PoolId SearcherOrder) t : gmap PoolId SearcherOrder :=
  match m !! pool_id t with
  | None => <[pool_id t := t]> m
  | Some cur => if beats t cur then <[pool_id t := t]> m else m
  end.

Definition best_searchers (l : list SearcherOrder) : gmap PoolId SearcherOrder := foldl add_searcher ∅ l.

Definition set_amm_if_missing (bk : OrderBook) (amm : BaselinePoolState) : OrderBook :=
  match book_amm bk with
  | Some _ => bk
  | None => {| book_id := book_id bk; book_amm := Some amm; bids := bids bk; asks := asks bk |}
  end.

(** The task of a pool. *)
Definition quote (block : u64) (seq_id : Z) (books : gmap PoolId OrderBook) (searchers : gmap PoolId SearcherOrder)
    (x : PoolId * (PoolId * BaselinePoolState)) : outcome Slot0Update :=
  let '(id, (uni, amm)) := x in
  let bk := default (empty_book id) (books !! id) in
  let bk := set_amm_if_missing {| book_id := id; book_amm := book_amm bk; bids := bids bk; asks := asks bk |} amm in
  '(price, tick, liq) ← give_end_amm_state bk (searchers !! id);
  Ret {| su_current_block := block; su_seq_id := seq_id; su_angstrom_pool_id := id; su_uni_pool_id := uni;
         su_liquidity := liq; su_sqrt_price_x96 := price; su_tick := tick |}.

Definition spawn_book_solvers q (seq_id : Z) (orders : Storage.OrderStorage) : outcome QuoterManager :=
  set ← all_orders_with_consensus q orders;
  let books := quoter_books (Storage.limit set) (book_snapshots q) in
  let searchers := best_searchers (Storage.searcher set) in
  Ret (set_tasks q (pending_tasks q ++
    (quote (q_cur_block q) seq_id books searchers <$> hm_iter (book_snapshots q)))).

(** ** Results *)

(** [retain(|s| s.try_send(..).is_ok())]; [accepts] says whether a channel takes a
    message after what was sent so far. *)
Fixpoint retain_subscribers (accepts : nat -> Log -> bool) u (subs : list nat) (log : Log) : list nat * Log :=
  match subs with
  | [] => ([], log)
  | c :: subs' =>
      if accepts c log then
        let '(kept, log') := retain_subscribers accepts u subs' (log ++ [(c, u)]) in (c :: kept, log')
      else retain_subscribers accepts u subs' log
  end.

Definition send_to (accepts : nat -> Log -> bool) u (id : PoolId) (m : gmap PoolId (list nat)) (log : Log)
    : gmap PoolId (list nat) * Log :=
  match m !! id with
  | Some subs => let '(kept, log') := retain_subscribers accepts u subs log in (<[id := kept]> m, log')
  | None => (m, log)
  end.

Definition send_out_result (accepts : nat -> Log -> bool) q u (log : Log) : QuoterManager * Log :=
  let '(m, log) := send_to accepts u (su_angstrom_pool_id u) (pool_to_subscribers q) log in
  let '(m, log) := send_to accepts u (su_uni_pool_id u) m log in
  (set_subs q m, log).

(** The finished tasks. A task of the thread pool that panics aborts the process, as
    the pool has no handler of panics. *)
Fixpoint drain_tasks (accepts : nat -> Log -> bool) q (ready : list nat) (log : Log) : outcome (QuoterManager * Log) :=
  match ready with
  | [] => Ret (q, log)
  | i :: ready' =>
      match pending_tasks q !! i with
      | None => Ret (q, log)
      | Some task =>
          u ← task;
          let '(q, log) := send_out_result accepts (set_tasks q (delete i (pending_tasks q))) u log in
          drain_tasks accepts q ready' log
      end
  end.

(** ** The poll *)

Definition new_block q (tk : Tick) : outcome QuoterManager :=
  if q_cur_block q =? tk_block tk then Ret q
  else
    q ← update_book_state q (tk_amms tk);
    Ret {| q_cur_block := tk_block tk; q_seq_id := 0; book_snapshots := book_snapshots q;
           pending_tasks := pending_tasks q; pool_to_subscribers := pool_to_subscribers q; active_hashes := None |}.

(** The seq id is a 16-bit word. *)
Definition next_seq q : QuoterManager :=
  {| q_cur_block := q_cur_block q; q_seq_id := u16_wrap (q_seq_id q + 1); book_snapshots := book_snapshots q;
     pending_tasks := pending_tasks q; pool_to_subscribers := pool_to_subscribers q;
     active_hashes := active_hashes q |}.

Definition on_tick q (tk : Tick) : outcome QuoterManager :=
  q ← new_block q tk;
  spawn_book_solvers (next_seq q) (q_seq_id q) (tk_orders tk).

Fixpoint run_ticks q (ticks : list Tick) : outcome QuoterManager :=
  match ticks with
  | [] => Ret q
  | tk :: ticks' =>
      if tk_can_operate tk then q ← on_tick q tk; run_ticks q ticks' else Ret q
  end.

Definition poll (accepts : nat -> Log -> bool) q (inp : PollInput) : outcome (QuoterManager * Log) :=
  let q := foldl (fun q '(pools, chan) => handle_new_subscription q pools chan) q (pi_subscriptions inp) in
  let q := foldl update_consensus_state q (pi_rounds inp) in
  '(q, log) ← drain_tasks accepts q (pi_finished inp) [];
  q ← run_ticks q (pi_ticks inp);
  Ret (q, log).

(** ** The searcher order of a pool *)

(** [t] is the best searcher order of the pool [id] among [l]. *)
Definition best_of (l : list SearcherOrder) (id : PoolId) t : Prop :=
  t ∈ l /\ pool_id t = id /\ forall t', t' ∈ l -> pool_id t' = id -> beats t' t = false.

Lemma beats_irrefl t : beats t t = false.
Proof. unfold beats. rewrite !Z.ltb_irrefl. by destruct (_ =? _). Qed.

Lemma beats_false t t' : beats t t' = false <->
  tob_reward t < tob_reward t' \/
  (tob_reward t = tob_reward t' /\ id_hash (order_id t') <= id_hash (order_id t)).
Proof.
  unfold beats. rewrite orb_false_iff, andb_false_iff, Z.ltb_ge, Z.eqb_neq, Z.ltb_ge. lia.
Qed.

Lemma beats_true t t' : beats t t' = true <->
  tob_reward t' < tob_reward t \/
  (tob_reward t = tob_reward t' /\ id_hash (order_id t) < id_hash (order_id t')).
Proof. unfold beats. rewrite orb_true_iff, andb_true_iff, Z.eqb_eq, !Z.ltb_lt. lia. Qed.

(** What the fold over the searcher orders maintains. *)
Lemma best_searchers_spec l id :
  match best_searchers l !! id with
  | Some t => best_of l id t
  | None => forall t, t ∈ l -> pool_id t <> id
  end.
Proof.
  unfold best_searchers. induction l as [|t l IH] using rev_ind; [cbn; rewrite lookup_empty; by intros ? ?%not_elem_of_nil|].
  rewrite foldl_app. cbn [foldl]. unfold add_searcher at 1.
  set (m := foldl add_searcher ∅ l) in *.
  destruct (decide (pool_id t = id)) as [<-|Hne].
  - destruct (m !! pool_id t) as [cur|] eqn:E.
    + destruct IH as (Hin & Hp & Hmax). destruct (beats t cur) eqn:Eb.
      * rewrite lookup_insert_eq. split; [set_solver|]. split; [done|].
        intros t' [Ht'| ->%list_elem_of_singleton]%elem_of_app Hp'; [|apply beats_irrefl].
        specialize (Hmax t' Ht' Hp'). rewrite beats_true in Eb. rewrite beats_false in Hmax |- *. lia.
      * rewrite E. split; [set_solver|]. split; [done|].
        intros t' [Ht'| ->%list_elem_of_singleton]%elem_of_app Hp'; auto.
    + rewrite lookup_insert_eq. split; [set_solver|]. split; [done|].
      intros t' [Ht'| ->%list_elem_of_singleton]%elem_of_app Hp'; [by destruct (IH t' Ht')|apply beats_irrefl].
  - assert (forall m' : gmap PoolId SearcherOrder, m' = m \/ m' = <[pool_id t := t]> m -> m' !! id = m !! id) as Hm.
    { intros m' [->| ->]; [done|by rewrite lookup_insert_ne]. }
    match goal with |- context [?m' !! id] => rewrite (Hm m') end.
    2: { destruct (m !! pool_id t); [destruct (beats _ _)|]; auto. }
    destruct (m !! id) as [cur|].
    + destruct IH as (Hin & Hp & Hmax). split; [set_solver|]. split; [done|].
      intros t' [Ht'| ->%list_elem_of_singleton]%elem_of_app Hp'; auto. done.
    + intros t' [Ht'| ->%list_elem_of_singleton]%elem_of_app; auto.
Qed.

Lemma best_of_unique l id t t' :
  (forall x y, x ∈ l -> y ∈ l -> id_hash (order_id x) = id_hash (order_id y) -> x = y) ->
  best_of l id t -> best_of l id t' -> t = t'.
Proof.
  intros Hinj (H1 & H2 & H3) (H1' & H2' & H3').
  specialize (H3 t' H1' H2'). specialize (H3' t H1 H2). rewrite beats_false in H3, H3'.
  apply Hinj; [done..|lia].
Qed.

(** The searcher order with which a pool is quoted is the one with the largest
    reward and, among those, the smallest hash; a pool is quoted without one only
    when no searcher order trades on it; and the choice does not depend on the order
    in which the storage hands the orders out. *)
Theorem best_searcher_quoted l l' id
    (Hinj : forall x y, x ∈ l -> y ∈ l -> id_hash (order_id x) = id_hash (order_id y) -> x = y)
    (Hperm : l ≡ₚ l') :
  best_searchers l = best_searchers l' /\
  (forall t, best_searchers l !! id = Some t <-> best_of l id t) /\
  (best_searchers l !! id = None <-> forall t, t ∈ l -> pool_id t <> id).
Proof.
  assert (forall k t, best_searchers l !! k = Some t <-> best_of l k t) as Hs.
  { intros k t. pose proof (best_searchers_spec l k) as H. split; [intros E; by rewrite E in H|].
    intros Hb. destruct (best_searchers l !! k) as [t'|]; [f_equal; by eapply best_of_unique|].
    destruct Hb as (Hin & Hp & _). by destruct (H t Hin). }
  assert (forall k, best_searchers l !! k = best_searchers l' !! k) as Heq.
  { intros k. pose proof (best_searchers_spec l' k) as H. destruct (best_searchers l' !! k) as [t|] eqn:E.
    - apply Hs. destruct H as (H1 & H2 & H3). split; [by rewrite Hperm|]. split; [done|].
      intros t' Ht'. apply H3. by rewrite <- Hperm.
    - pose proof (best_searchers_spec l k) as H'. destruct (best_searchers l !! k) as [t|]; [|done].
      destruct H' as (H1 & H2 & _). by destruct (H t); [rewrite <- Hperm|]. }
  split; [by apply map_eq|]. split; [apply Hs|].
  pose proof (best_searchers_spec l id) as H. destruct (best_searchers l !! id) as [t|]; split; [done| |done|done].
  intros Hn. destruct H as (H1 & H2 & _). by destruct (Hn t).
Qed.

(** ** Ticks *)

(** A pool without limit orders is quoted at its current state, whatever searcher
    order trades on it. *)
Lemma quote_without_orders block seq_id books searchers id uni amm : books !! id = None ->
  quote block seq_id books searchers (id, (uni, amm)) =
    Ret {| su_current_block := block; su_seq_id := seq_id; su_angstrom_pool_id := id; su_uni_pool_id := uni;
           su_liquidity := start_liquidity (pool_liquidity amm);
           su_sqrt_price_x96 := start_sqrt_price (pool_liquidity amm); su_tick := start_tick (pool_liquidity amm) |}.
Proof. intros E. unfold quote. rewrite E. reflexivity. Qed.

Lemma quote_labels block seq_id books searchers x u : quote block seq_id books searchers x = Ret u ->
  su_current_block u = block /\ su_seq_id u = seq_id /\
  su_angstrom_pool_id u = x.1 /\ su_uni_pool_id u = x.2.1.
Proof.
  destruct x as [id [uni amm]]. unfold quote. intros ([[price tick] liq] & _ & [= <-])%bind_Ret. done.
Qed.

Lemma new_block_inv q tk q' : new_block q tk = Ret q' ->
  q_cur_block q' = tk_block tk /\ pending_tasks q' = pending_tasks q /\
  pool_to_subscribers q' = pool_to_subscribers q /\
  q_seq_id q' = (if q_cur_block q =? tk_block tk then q_seq_id q else 0) /\
  active_hashes q' = (if q_cur_block q =? tk_block tk then active_hashes q else None).
Proof.
  unfold new_block. destruct (Z.eqb_spec (q_cur_block q) (tk_block tk)) as [E|E]; [by intros [= <-]|].
  intros (q1 & (snaps & _ & [= <-])%bind_Ret & [= <-])%bind_Ret. done.
Qed.

Lemma on_tick_inv q tk q' : on_tick q tk = Ret q' ->
  q_cur_block q' = tk_block tk /\ pool_to_subscribers q' = pool_to_subscribers q /\
  active_hashes q' = (if q_cur_block q =? tk_block tk then active_hashes q else None) /\
  let seq := if q_cur_block q =? tk_block tk then q_seq_id q else 0 in
  q_seq_id q' = u16_wrap (seq + 1) /\
  exists books searchers, pending_tasks q' = pending_tasks q ++
    (quote (tk_block tk) seq books searchers <$> hm_iter (book_snapshots q')).
Proof.
  intros (q1 & (Hb & Hp & Hs & Hq & Ha)%new_block_inv & (set & _ & [= <-])%bind_Ret)%bind_Ret. cbn.
  rewrite Hb, Hp, Hs, Hq, Ha. split_and!; [done..|]. by eexists _, _.
Qed.

(** A tick queues exactly one quote for every pool the quoter knows, behind those
    still pending. Its results carry the block of the tick, the keys of the pool and
    the sequence number, which starts at zero in every block; the orders of the
    round in progress are forgotten when the block changes. *)
Theorem tick_quotes_every_pool q tk q' (H : on_tick q tk = Ret q') :
  let seq := if q_cur_block q =? tk_block tk then q_seq_id q else 0 in
  q_seq_id q' = u16_wrap (seq + 1) /\
  active_hashes q' = (if q_cur_block q =? tk_block tk then active_hashes q else None) /\
  exists pools quotes, pending_tasks q' = pending_tasks q ++ quotes /\
    pools ≡ₚ map_to_list (book_snapshots q') /\
    Forall2 (fun task x => forall u, task = Ret u -> su_current_block u = tk_block tk /\ su_seq_id u = seq /\
      su_angstrom_pool_id u = x.1 /\ su_uni_pool_id u = x.2.1) quotes pools.
Proof.
  apply on_tick_inv in H as (_ & _ & Ha & Hq & books & searchers & Hp). split; [done|]. split; [done|].
  exists (hm_iter (book_snapshots q')). eexists. split; [exact Hp|]. split; [apply hm_iter_perm|].
  apply Forall2_fmap_l, Forall_Forall2_diag, Forall_true. intros x u. apply quote_labels.
Qed.

(** ** Subscribers *)

(** [c] is subscribed to the pool [id]. *)
Definition subscribed (m : gmap PoolId (list nat)) (id : PoolId) (c : nat) : Prop := c ∈ default [] (m !! id).

Lemma retain_inv accepts u subs log kept log' : retain_subscribers accepts u subs log = (kept, log') ->
  sublist kept subs /\ log' = log ++ ((fun c => (c, u)) <$> kept).
Proof.
  revert log kept log'. induction subs as [|c subs IH]; intros log kept log'; cbn.
  - intros [= <- <-]. by rewrite app_nil_r.
  - destruct (accepts c log).
    + destruct (retain_subscribers accepts u subs (log ++ [(c, u)])) as [k l] eqn:E. intros [= <- <-].
      apply IH in E as [Hk ->]. split; [by constructor|]. by rewrite <- app_assoc.
    + intros [Hk ->]%IH. split; [by constructor|done].
Qed.

Lemma send_to_inv accepts u id m log m' log' : send_to accepts u id m log = (m', log') ->
  (forall k c, subscribed m' k c -> subscribed m k c) /\
  exists sent, log' = log ++ ((fun c => (c, u)) <$> sent) /\ forall c, c ∈ sent -> subscribed m id c.
Proof.
  unfold send_to. destruct (m !! id) as [subs|] eqn:E.
  - destruct (retain_subscribers accepts u subs log) as [kept l] eqn:Er. intros [= <- <-].
    apply retain_inv in Er as [Hk ->].
    assert (forall c, c ∈ kept -> subscribed m id c) as Hsub.
    { intros c Hc. unfold subscribed. rewrite E. exact (elem_of_sublist _ _ _ Hc Hk). }
    split; [|by exists kept]. intros k c. unfold subscribed at 1.
    destruct (decide (k = id)) as [->|Hne]; [rewrite lookup_insert_eq; apply Hsub|by rewrite lookup_insert_ne].
  - intros [= <- <-]. split; [done|]. exists []. rewrite app_nil_r. split; [done|]. by intros c ?%not_elem_of_nil.
Qed.

(** What a run of the quoter may add to the log: results of pending tasks, for the
    subscribers of their pool. *)
Definition sent_ok (m : gmap PoolId (list nat)) (tasks : list (outcome Slot0Update)) (x : nat * Slot0Update) : Prop :=
  Ret x.2 ∈ tasks /\ (subscribed m (su_angstrom_pool_id x.2) x.1 \/ subscribed m (su_uni_pool_id x.2) x.1).

Lemma send_out_inv accepts q u log q' log' : send_out_result accepts q u log = (q', log') ->
  pending_tasks q' = pending_tasks q /\
  (forall k c, subscribed (pool_to_subscribers q') k c -> subscribed (pool_to_subscribers q) k c) /\
  exists sent, log' = log ++ ((fun c => (c, u)) <$> sent) /\
    forall c, c ∈ sent -> subscribed (pool_to_subscribers q) (su_angstrom_pool_id u) c \/
                          subscribed (pool_to_subscribers q) (su_uni_pool_id u) c.
Proof.
  unfold send_out_result. destruct (send_to _ _ (su_angstrom_pool_id u) _ _) as [m1 l1] eqn:E1.
  destruct (send_to _ _ (su_uni_pool_id u) _ _) as [m2 l2] eqn:E2. intros [= <- <-].
  apply send_to_inv in E1 as (H1 & s1 & -> & S1). apply send_to_inv in E2 as (H2 & s2 & -> & S2).
  split; [done|]. split; [naive_solver|]. exists (s1 ++ s2). rewrite fmap_app, app_assoc. split; [done|].
  intros c [Hc|Hc]%elem_of_app; naive_solver.
Qed.

Lemma drain_inv accepts q ready log q' log' : drain_tasks accepts q ready log = Ret (q', log') ->
  pending_tasks q' ⊆ pending_tasks q /\
  (forall k c, subscribed (pool_to_subscribers q') k c -> subscribed (pool_to_subscribers q) k c) /\
  forall x, x ∈ log' -> x ∈ log \/ sent_ok (pool_to_subscribers q) (pending_tasks q) x.
Proof.
  revert q log. induction ready as [|i ready IH]; intros q log; cbn; [intros [= <- <-]; naive_solver|].
  destruct (pending_tasks q !! i) as [task|] eqn:E; [|intros [= <- <-]; naive_solver].
  intros (u & -> & H)%bind_Ret.
  destruct (send_out_result accepts (set_tasks q (delete i (pending_tasks q))) u log) as [q1 l1] eqn:Es.
  apply send_out_inv in Es as (Hp & Hs & sent & -> & Hsent). apply IH in H as (Hp2 & Hs2 & Hl).
  cbn in Hp, Hs, Hsent. rewrite Hp in Hp2, Hl.
  assert (delete i (pending_tasks q) ⊆ pending_tasks q) as Hd by apply sublist_subseteq, sublist_delete.
  split; [set_solver|]. split; [naive_solver|].
  intros x [Hx|[Hx Hx']]%Hl; [|right; split; [by apply Hd|naive_solver]].
  apply elem_of_app in Hx as [Hx|(c & -> & Hc)%list_elem_of_fmap]; [by left|].
  right. split; [by eapply list_elem_of_lookup_2|]. by apply Hsent.
Qed.

Lemma push_all_subscribed (pools : list PoolId) chan (m : gmap PoolId (list nat)) id c :
  subscribed (foldl (fun m p => <[p := default [] (m !! p) ++ [chan]]> m) m pools) id c ->
  subscribed m id c \/ (id ∈ pools /\ c = chan).
Proof.
  revert m. induction pools as [|p pools IH]; intros m; cbn; [by left|].
  intros [H|[H ->]]%IH; [|right; split; [by right|done]].
  unfold subscribed in H. destruct (decide (id = p)) as [->|Hne].
  - rewrite lookup_insert_eq in H. cbn in H. apply elem_of_app in H as [H| ->%list_elem_of_singleton]; [by left|].
    right. split; [by left|done].
  - rewrite lookup_insert_ne in H by done. by left.
Qed.

Lemma subscription_inv q pools chan q' id c : handle_new_subscription q pools chan = q' ->
  subscribed (pool_to_subscribers q') id c ->
  subscribed (pool_to_subscribers q) id c \/
  (id ∈ pools /\ c = chan /\ forall p, p ∈ pools -> p ∈ known_keys (book_snapshots q)).
Proof.
  unfold handle_new_subscription. destruct (forallb _ _) eqn:E; intros <-; [|by left].
  intros [H|[H ->]]%push_all_subscribed; [by left|]. right. split; [by apply elem_of_hs_iter|]. split; [done|].
  intros p Hp. rewrite forallb_forall in E. apply (bool_decide_eq_true_1 _), E, list_elem_of_In, elem_of_hs_iter, Hp.
Qed.

(** [c] is a subscriber of [id], already or by a request for pools that are all
    known. *)
Definition may_hear q (subs : list (gset PoolId * nat)) (id : PoolId) (c : nat) : Prop :=
  subscribed (pool_to_subscribers q) id c \/
  exists pools, (pools, c) ∈ subs /\ id ∈ pools /\ pools ⊆ known_keys (book_snapshots q).

Lemma subscriptions_inv q subs :
  let q' := foldl (fun q '(pools, chan) => handle_new_subscription q pools chan) q subs in
  pending_tasks q' = pending_tasks q /\ book_snapshots q' = book_snapshots q /\
  forall id c, subscribed (pool_to_subscribers q') id c -> may_hear q subs id c.
Proof.
  induction subs as [|[pools chan] subs IH] using rev_ind; [split_and!; [done..|by left]|].
  rewrite foldl_app. cbn in IH |- *. destruct IH as (Hp & Hb & Hs).
  set (q1 := foldl _ q subs) in *.
  assert (pending_tasks (handle_new_subscription q1 pools chan) = pending_tasks q1 /\
          book_snapshots (handle_new_subscription q1 pools chan) = book_snapshots q1) as [-> ->].
  { unfold handle_new_subscription. by destruct (forallb _ _). }
  split_and!; [done..|]. intros id c [H|(H & -> & Hk)]%(subscription_inv _ _ _ _ _ _ eq_refl).
  - destruct (Hs id c H) as [?|(ps & ? & ? & ?)]; [by left|]. right. exists ps. set_solver.
  - right. exists pools. split; [set_solver|]. split; [done|]. intros p. rewrite <- Hb. apply Hk.
Qed.

Lemma consensus_updates_inv q rounds :
  let q' := foldl update_consensus_state q rounds in
  pending_tasks q' = pending_tasks q /\ pool_to_subscribers q' = pool_to_subscribers q.
Proof.
  revert q. induction rounds as [|r rounds IH]; intros q; [done|]. cbn. destruct (IH (update_consensus_state q r)) as [-> ->].
  unfold update_consensus_state. by destruct (roh_round r).
Qed.

Lemma run_ticks_subscribers q ticks q' : run_ticks q ticks = Ret q' ->
  pool_to_subscribers q' = pool_to_subscribers q.
Proof.
  revert q. induction ticks as [|tk ticks IH]; intros q; cbn; [by intros [= <-]|].
  destruct (tk_can_operate tk); [|by intros [= <-]].
  intros (q1 & (_ & Hs & _)%on_tick_inv & ->%IH)%bind_Ret. done.
Qed.

(** A subscriber hears only of its pools: a poll of the quoter sends a result only
    when a task of the quoter produced it, and only to channels that subscribed to
    the key of its pool, with a request for pools that the quoter knows; nobody else
    becomes a subscriber. *)
Theorem updates_go_to_subscribers accepts q inp q' log (H : poll accepts q inp = Ret (q', log)) :
  (forall c u, (c, u) ∈ log -> Ret u ∈ pending_tasks q /\
     (may_hear q (pi_subscriptions inp) (su_angstrom_pool_id u) c \/
      may_hear q (pi_subscriptions inp) (su_uni_pool_id u) c)) /\
  (forall id c, subscribed (pool_to_subscribers q') id c -> may_hear q (pi_subscriptions inp) id c).
Proof.
  unfold poll in H. destruct (subscriptions_inv q (pi_subscriptions inp)) as (Hp & _ & Hs).
  set (q1 := foldl _ q (pi_subscriptions inp)) in *.
  destruct (consensus_updates_inv q1 (pi_rounds inp)) as [Hp2 Hs2].
  set (q2 := foldl update_consensus_state q1 (pi_rounds inp)) in *.
  apply bind_Ret in H as ([q3 l] & (_ & Hsub & Hlog)%drain_inv & (q4 & Ht%run_ticks_subscribers & [= <- <-])%bind_Ret).
  rewrite Hs2 in Hsub, Hlog. rewrite Hp2, Hp in Hlog. rewrite Ht. split; [|by auto].
  intros c u [?%not_elem_of_nil|[Hin Hc]]%Hlog; [done|]. split; [done|]. destruct Hc; auto.
Qed.
End quoter.
