(* ===== verification/Leader.v ===== *)
(** * The bundle of the leader

    The rounds of consensus put together with the building of bundles: the leader
    submits the bundle that [AngstromBundle::from_proposal] ([Bundle.v]) makes of its
    proposal, the snapshots of its pools and the orders it stores. *)

From S2P Require Import Prelude Ray Orders Samples Storage StateValidation Rules Accounts LeaderSelection SlotClock.
From S2P Require Import WaitTrigger ConsensusTypes Rounds RoundsProps RoundsEngine.
From S2P Require Import Pool Donation Book Delta Assets Payload OrderKeys Bundle BundleProps.
Open Scope Z_scope.

(** The types of the rounds are those of the pools and of the contract. *)
Definition node_types : RoundLib :=
  {| Rounds.BaselinePoolState := Pool.BaselinePoolState; Rounds.AngstromBundle := Payload.AngstromBundle |}.

Section leader.
#[local] Existing Instance node_types.
Context `{HI : HashIter} `{AL : ArithLib} `{OH : OrderHasher} `{SR : SqrtRatios} `{TL : TickLib}
  `{RH : RewardHasher} `{OC : OrderCrypto} `{SL : SortLib}.
Context `{PH : PoolHasher} `{CC : ConsensusCrypto} `{AC : AttestationCodec} `{SG : Sigmoid}.

(** [AngstromBundle::from_proposal(..).ok()]; it does not read the gas details. *)
Definition proposal_bundle (p : Proposal) (orders : Storage.OrderSet) (gas : Z) (pools : Pools)
    : outcome (option AngstromBundle) :=
  r ← Bundle.from_proposal p orders pools;
  Ret (match r with Ok b => Some b | Err _ => None end).

Implicit Types (h : SharedRoundState) (m : RoundStateMachine).

Lemma elem_of_unique_by_source seen l p : p ∈ unique_by_source seen l -> p ∈ l.
Proof.
  revert seen. induction l as [|q l IH]; intros seen; cbn; [done|].
  case_bool_decide; [intros Hp%IH; by right|]. intros [->|Hp%IH]%elem_of_cons; [by left|by right].
Qed.

(** The limit orders that a proposal may fill: those of the pre-proposals. *)
Lemma pre_proposed_orders p orders id o :
  o ∈ default ∅ (orders_by_pool_from_pre_proposals (flattened_pre_proposals p) orders !! id) ->
  o ∈ Storage.limit orders /\ pool_id o = id /\
  exists a pp, a ∈ prop_preproposals p /\ pp ∈ agg_pre_proposals a /\ id_hash (order_id o) ∈ pp_limit pp.
Proof.
  intros [Ho Hp]%elem_of_orders_by_pool. cbn in Ho. apply list_elem_of_filter in Ho as [Hh Ho].
  split; [done|]. split; [done|]. apply list_elem_of_bind in Hh as (pp & Hh & Hpp).
  apply elem_of_unique_by_source, list_elem_of_bind in Hpp as (a & Hpp & Ha). by exists a, pp.
Qed.

(** The user orders of a bundle are made of filled orders of its solutions. *)
Lemma built_users pools obp shared sols bd u : Z.of_nat (length sols) <= 2 ^ 15 ->
  build_bundle pools obp shared sols = Ret (Ok bd) -> u ∈ user_orders bd ->
  exists s out o k, s ∈ sols /\ out ∈ sol_limit s /\ o ∈ default ∅ (obp !! sol_id s) /\
    contract_order shared out o k = Ret (Ok u).
Proof.
  intros Hn Hb Hu. destruct (build_bundle_inv _ _ _ _ _ Hn Hb) as (b & pls & Hbt).
  rewrite (bt_bundle _ _ _ _ _ _ _ Hbt) in Hu. cbn [bundle_of user_orders] in Hu.
  rewrite (proj1 (place_orders b pls)) in Hu. apply list_elem_of_fmap in Hu as (x & -> & Hx).
  apply list_elem_of_bind in Hx as (pl & Hx & Hpl).
  destruct (built_part _ _ _ _ _ _ _ _ Hbt Hpl) as (k & _ & Hpo & _ & Hs & _).
  assert ((fi_outcome x, fi_order x) ∈ filled_orders (sol_limit (pl_solution pl))
    (order_list obp (sol_id (pl_solution pl)))) as Hf.
  { rewrite <- (po_filled _ _ _ _ Hpo). apply list_elem_of_fmap. by exists x. }
  exists (pl_solution pl), (fi_outcome x), (fi_order x), k. split; [done|].
  split; [by eapply filled_orders_outcome|]. apply filled_orders_elem in Hf as [k' Hk'].
  split; [by eapply order_list_elem|].
  exact (proj2 (proj1 (Forall_forall _ _) (po_fills _ _ _ _ Hpo) x Hx)).
Qed.

Lemma try_build_inv h b now sols gas h' b' built :
  try_build_proposal proposal_bundle h b now (Ok (sols, gas)) = Ret (h', b', built) ->
  exists p orders r, generate_proposal (block_height h) (signer h) (pr_pre_proposal_aggs b) sols = Ret p /\
    Storage.get_all_orders (order_storage h) = Ret orders /\
    Bundle.from_proposal p orders (fetch_pool_snapshot h) = Ret r /\
    pr_submission_future b' = Some {| sub_bundle := match r with Ok bd => Some bd | Err _ => None end;
      sub_target_block := u64_wrap (block_height h + 1) |}.
Proof.
  intros (p & Hp & H)%bind_Ret. apply bind_Ret in H as (orders & Ho & H).
  apply bind_Ret in H as (bundle & (r & Hr & [= <-])%bind_Ret & H).
  apply bind_Ret in H as (att & _ & [= <- <- <-]). by exists p, orders, r.
Qed.

(** C4. What the leader submits comes from the pre-proposals of the round: in every
    reachable state of the leader, the bundle it builds when the matching engine
    answers is for the next block, every user order in it is the filled form of a
    limit order that the leader stores and that a valid pre-proposal of an
    aggregation of this round names, and no order pays more gas than its user
    allows. *)
Theorem submitted_orders_pre_proposed m b i req sols gas h' b' built sub bd
    (Hm : machine_reach proposal_bundle m) (Hst : current_state m = Proposing b)
    (Hreq : pr_matching_engine_future b = Some req) (Hi : in_engine i = Some (Ok (sols, gas)))
    (Hn : Z.of_nat (length sols) <= 2 ^ 15)
    (H : poll_engine proposal_bundle (shared_state m) b i = Ret (h', b', built))
    (Hs : pr_submission_future b' = Some sub) (Hbd : sub_bundle sub = Some bd) :
  sub_target_block sub = u64_wrap (block_height (shared_state m) + 1) /\
  Forall (fun c => ct_gas_used_asset_0 c <= ct_max_gas_asset_0 c) (top_of_block_orders bd) /\
  exists orders, Storage.get_all_orders (order_storage (shared_state m)) = Ret orders /\
    Forall (fun u => uo_extra_fee_asset0 u <= uo_max_extra_fee_asset0 u /\
      exists s out o k a pp, s ∈ sols /\ out ∈ sol_limit s /\ o ∈ Storage.limit orders /\ pool_id o = sol_id s /\
        contract_order true out o k = Ret (Ok u) /\ agg_ok (shared_state m) a /\
        pp ∈ agg_pre_proposals a /\ id_hash (order_id o) ∈ pp_limit pp) (user_orders bd).
Proof.
  pose proof (proj2 (machine_reach_ok _ _ Hm)) as Hok. rewrite Hst in Hok. destruct Hok as (_ & _ & _ & Hagg & _).
  unfold poll_engine in H. rewrite Hreq, Hi in H.
  apply try_build_inv in H as (p & orders & [bd'|e] & Hp & Ho & Hf & E); rewrite E in Hs;
    injection Hs as <-; [|done]. cbn in Hbd. injection Hbd as ->.
  split; [done|].
  apply bind_Ret in Hp as (sig & _ & [= <-]).
  pose proof (sort_solutions_perm sols) as Hperm.
  assert (Z.of_nat (length (ConsensusTypes.sort_solutions sols)) <= 2 ^ 15) as Hn' by (by rewrite Hperm).
  pose proof Hf as [Hu Ht]%bundle_gas_within_max; [|exact Hn']. split; [done|].
  exists orders. split; [done|]. unfold Bundle.from_proposal in Hf. cbn [prop_solutions] in Hf.
  destruct (fetch_total_orders_and_gas_delegated_to_orders _ _) as [n g]. destruct (n =? 0); [done|].
  rewrite Forall_forall in Hu |- *. intros u Hin. split; [by apply Hu|].
  destruct (built_users _ _ _ _ _ _ Hn' Hf Hin) as (s & out & o & k & Hsol & Hout & Hobp & Hc).
  apply pre_proposed_orders in Hobp as (Hlim & Hid & a & pp & Ha & Hpp & Hh). rewrite Hperm in Hsol.
  exists s, out, o, k, a, pp. split_and!; try done. by apply Hagg.
Qed.
End leader.
