(* ===== verification/QuoterExamples.v ===== *)
(** * The quoter on a concrete pool

    One pool with a book that moves its AMM, a subscriber, and two searcher orders
    of the same reward. *)

From S2P Require Import Prelude Ray Orders Samples Storage Rules Accounts ConsensusTypes Rounds Manager.
From S2P Require Import Pool Donation Book Delta DeltaExamples Assets Payload OrderKeys Bundle BundleProps Solvency SolvencyExamples Matching MatchingExamples Quoter.
Open Scope Z_scope.

Section quoter_examples.
#[local] Existing Instance iter_by_encoding.
#[local] Existing Instance arith_Z.
#[local] Existing Instance uniswap_ratios.
#[local] Existing Instance wide_ticks.
#[local] Existing Instance sample_hasher.

Definition two_searchers : list (OrderWithStorageData TopOfBlockOrder) :=
  [sample_searcher 4 2 7 4; sample_searcher 3 2 7 4].

Lemma best_searcher_quoted_witness : best_searchers two_searchers !! 7 = Some (sample_searcher 3 2 7 4).
Proof.
  apply (best_searcher_quoted two_searchers two_searchers 7).
  - intros x y [->| ->%list_elem_of_singleton]%elem_of_cons [->| ->%list_elem_of_singleton]%elem_of_cons H;
      [reflexivity|vm_compute in H; discriminate|vm_compute in H; discriminate|reflexivity].
  - reflexivity.
  - split; [right; left|]. split; [reflexivity|].
    intros t [->| ->%list_elem_of_singleton]%elem_of_cons _; vm_compute; reflexivity.
Defined.

Definition quoted_pools : gmap PoolId SyncedPool :=
  {[ 7 := {| public_address := 7; private_address := 70; pool_snapshot := Some wide_pool |} ]}.

Definition quoted_storage : Storage.OrderStorage :=
  foldl (fun s o => (Storage.add_new_limit_order s o).1) (Storage.new [7]) (all_orders solvent_book).

Definition some_tick : Tick :=
  {| tk_can_operate := true; tk_block := 101; tk_amms := quoted_pools; tk_orders := quoted_storage |}.

Definition idle_quoter : QuoterManager :=
  {| q_cur_block := 100; q_seq_id := 6; book_snapshots := {[ 7 := (70, wide_pool) ]}; pending_tasks := [];
     pool_to_subscribers := ∅; active_hashes := None |}.

Definition ticked : QuoterManager := value_of (on_tick idle_quoter some_tick) idle_quoter.

Lemma ticked_is : on_tick idle_quoter some_tick = Ret ticked.
Proof. apply returns_value. vm_compute. reflexivity. Qed.

Lemma tick_quotes_every_pool_witness : q_seq_id ticked = 1 /\ exists pools quotes,
  pending_tasks ticked = [] ++ quotes /\ pools ≡ₚ map_to_list (book_snapshots ticked) /\ length quotes = length pools.
Proof.
  destruct (tick_quotes_every_pool idle_quoter some_tick ticked ticked_is) as (H1 & _ & pools & quotes & H2 & H3 & H4).
  split; [rewrite H1; reflexivity|]. exists pools, quotes. split; [exact H2|]. split; [exact H3|].
  exact (Forall2_length _ _ _ H4).
Defined.

(** The subscriber 9 asks for the pool under its Uniswap key, and the quote of the
    tick before is ready. *)
Definition subscriber_poll : PollInput :=
  {| pi_subscriptions := [({[ 70 ]}, 9%nat)]; pi_rounds := []; pi_finished := [0%nat]; pi_ticks := [] |}.

Definition polled : QuoterManager * list (nat * Slot0Update) :=
  value_of (poll (fun _ _ => true) ticked subscriber_poll) (idle_quoter, []).

Lemma updates_go_to_subscribers_witness : exists u, polled.2 = [(9%nat, u)] /\ su_uni_pool_id u = 70 /\
  su_current_block u = 101 /\ Ret u ∈ pending_tasks ticked.
Proof.
  assert (poll (fun _ _ => true) ticked subscriber_poll = Ret polled) as Hp
    by (apply returns_value; vm_compute; reflexivity).
  assert ((fun x => (x.1, su_uni_pool_id x.2, su_current_block x.2)) <$> polled.2 = [(9%nat, 70, 101)]) as Hs
    by (vm_compute; reflexivity).
  destruct polled as [q' log]. cbn in Hs |- *. destruct log as [|[c u] [|]]; [discriminate Hs| |discriminate Hs].
  cbn in Hs. injection Hs as -> H1 H2. exists u. split; [reflexivity|]. split; [exact H1|]. split; [exact H2|].
  destruct (updates_go_to_subscribers (fun _ _ => true) ticked subscriber_poll q' [(9%nat, u)] Hp) as [H _].
  exact (proj1 (H 9%nat u ltac:(left))).
Defined.
End quoter_examples.
