(* ===== verification/LeaderExamples.v ===== *)
(** * A leader with a bundle

    The only validator of a set of one, which stores a bid and an ask that match,
    collects its own pre-proposal and submits the bundle of the two orders. *)

From S2P Require Import Prelude Ray Orders Samples Storage StateValidation Rules Accounts LeaderSelection SlotClock.
From S2P Require Import WaitTrigger ConsensusTypes Rounds RoundsProps RoundsExamples.
From S2P Require Import Pool Donation Book Delta DeltaExamples Assets Payload OrderKeys Bundle BundleProps BundleExamples Leader.
Open Scope Z_scope.

Section leader_examples.
#[local] Existing Instance iter_by_encoding.
#[local] Existing Instance arith_Z.
#[local] Existing Instance sample_ratios.
#[local] Existing Instance sample_ticks.
#[local] Existing Instance sample_hasher.
#[local] Existing Instance sample_rewards.
#[local] Existing Instance Payload.sample_crypto.
#[local] Existing Instance insertion_sort.
#[local] Existing Instance sample_pool_hasher.
#[local] Existing Instance ConsensusTypes.sample_crypto.
#[local] Existing Instance sample_codec.
#[local] Existing Instance sample_sigmoid.
#[local] Existing Instance node_types.

Definition stored_bid : BookOrder := sample_limit 1 2 7 4 10.

Definition stored_ask : BookOrder :=
  {| order := ExactStanding {| es_ref_id := 2; es_exact_in := true; es_amount := 103;
       es_max_extra_fee_asset0 := 10; es_min_price := 10 ^ 27 / 2; es_use_internal := false;
       es_asset_in := 1; es_asset_out := 2; es_recipient := 0; es_hook_data := []; es_nonce := 4;
       es_deadline := 5000; es_meta := sample_meta 2 |};
     priority_data := {| price := 10 ^ 27 / 2; volume := 103; gas := 3; gas_units := 0 |};
     invalidates := []; pool_id := 7; is_currently_valid := None; is_bid := false; is_valid := true;
     valid_block := 1; order_id := sample_id 2 2 7 Limit; tob_reward := 0; cancel_requested := false |}.

Definition stored_solution : PoolSolution :=
  {| sol_id := 7; sol_ucp := 10 ^ 27; sol_searcher := None; sol_amm_quantity := None;
     sol_limit := [{| oo_id := order_id stored_bid; oo_outcome := CompleteFill |};
                   {| oo_id := order_id stored_ask; oo_outcome := CompleteFill |}];
     sol_reward_t0 := 0; sol_fee := 0 |}.

Definition matched_storage : Storage.OrderStorage :=
  (Storage.add_new_limit_order (Storage.add_new_limit_order (Storage.new [7]) stored_bid).1 stored_ask).1.

Definition pool_key : PoolKey := {| currency0 := 1; currency1 := 2; pk_fee := 0; tickSpacing := 1; pk_hooks := 0 |}.

Definition leader_node : SharedRoundState :=
  new_shared 100 matched_storage (new_signer (1 : @SecretKey ConsensusTypes.sample_crypto)) 1 [new_validator 1 100]
    {| registry_pools := {[ 7 := pool_key ]}; angstrom_config_store := new_pool ∅ 1 2 (sample_entry 0) |}
    {[ 7 := Some (1, 2, flat_pool) ]} default_timing.

Definition leader_start : outcome RoundStateMachine :=
  new_machine leader_node mainnet_clock (Some (from_secs 1606824033)) 0 20.

Definition leader_polls : list round_action := repeat (APoll (tick 1)) 8.

Definition leader_run : outcome (RoundStateMachine * list ConsensusMessage) :=
  m ← leader_start; run_round proposal_bundle m leader_polls.

Definition leader_machine : RoundStateMachine :=
  match leader_run with
  | Ret (m, _) => m
  | Panic => {| current_state := BidAggregation (new_bid_aggregation (new_trigger default_timing 0) 0);
      consensus_wait_duration := new_trigger default_timing 0; shared_state := leader_node;
      slot_clock := mainnet_clock |}
  end.

Lemma leader_reach : machine_reach proposal_bundle leader_machine.
Proof.
  assert (returns leader_run = true) as H by (vm_compute; reflexivity). unfold leader_machine.
  destruct leader_run as [[m l]|] eqn:E; [|discriminate]. apply bind_Ret in E as (m0 & H0 & E).
  eapply run_round_reach; [|exact E]. eapply reach_new; [..|exact H0]; reflexivity || done.
Qed.

Definition leader_proposing : ProposalState :=
  match current_state leader_machine with
  | Proposing b => b
  | _ => {| pr_matching_engine_future := None; pr_submission_future := None; pr_pre_proposal_aggs := [];
            pr_proposal := None; pr_last_round_info := None; pr_trigger_time := 0 |}
  end.

Lemma leader_state : current_state leader_machine = Proposing leader_proposing.
Proof.
  unfold leader_proposing. assert (state_name (current_state leader_machine) = RProposal) as H
    by (vm_compute; reflexivity). by destruct (current_state leader_machine).
Qed.

(** The engine answers with the solution that fills both orders. *)
Definition engine_answer : PollInput :=
  {| in_now := from_secs 2; in_ticks := []; in_engine := Some (Ok ([stored_solution], 5)); in_submission := None |}.

Definition built_state : SharedRoundState * ProposalState * bool :=
  value_of (poll_engine proposal_bundle (shared_state leader_machine) leader_proposing engine_answer)
    (leader_node, leader_proposing, false).

Lemma built_state_is :
  poll_engine proposal_bundle (shared_state leader_machine) leader_proposing engine_answer = Ret built_state.
Proof. apply returns_value. vm_compute. reflexivity. Qed.

Definition submitted : option Submission := pr_submission_future built_state.1.2.

Lemma submitted_orders_pre_proposed_witness : exists sub bd, submitted = Some sub /\ sub_bundle sub = Some bd /\
  length (user_orders bd) = 2%nat /\ sub_target_block sub = 101 /\
  exists orders, Forall (fun u => exists o, o ∈ Storage.limit orders /\
    exists a pp, agg_ok (shared_state leader_machine) a /\ pp ∈ agg_pre_proposals a /\
      id_hash (order_id o) ∈ pp_limit pp) (user_orders bd).
Proof.
  assert (match submitted with Some sub => match sub_bundle sub with Some bd => length (user_orders bd) | None => 0%nat end
    | None => 0%nat end = 2%nat) as Hl by (vm_compute; reflexivity).
  destruct submitted as [sub|] eqn:Es; [|discriminate]. destruct (sub_bundle sub) as [bd|] eqn:Eb; [|discriminate].
  assert (exists req, pr_matching_engine_future leader_proposing = Some req) as [req Hreq].
  { assert (bool_decide (is_Some (pr_matching_engine_future leader_proposing)) = true) as H by (vm_compute; reflexivity).
    apply bool_decide_eq_true in H as [req H]. by exists req. }
  pose proof built_state_is as Hb. unfold submitted in Es. destruct built_state as [[h' b'] built].
  destruct (submitted_orders_pre_proposed leader_machine leader_proposing engine_answer req [stored_solution] 5
    h' b' built sub bd leader_reach leader_state Hreq eq_refl) as (H1 & _ & orders & _ & H2).
  - vm_compute. discriminate.
  - exact Hb.
  - exact Es.
  - exact Eb.
  - exists sub, bd. split; [reflexivity|]. split; [exact Eb|]. split; [exact Hl|].
    split; [rewrite H1; vm_compute; reflexivity|]. exists orders. eapply Forall_impl; [exact H2|].
    intros u (_ & s & out & o & k & a & pp & _ & _ & Ho & _ & _ & Ha & Hpp & Hh). exists o. split; [exact Ho|].
    exists a, pp. split; [exact Ha|]. split; [exact Hpp|exact Hh].
Defined.
End leader_examples.
