(* ===== verification/Submission.v ===== *)
(** * Submission

    The model of [crates/types/src/submission] ([mod.rs], [mempool.rs],
    [angstrom.rs], [mev_boost.rs]): the transactions that carry a bundle, or the
    attestation of an empty block, to the endpoints of the node, and what the
    endpoints answer.  A message that is sent is recorded in a list; latencies and
    the HTTP transport are left out.  A panic ends the task, whatever the other
    submitters had sent by then. *)

From S2P Require Import Prelude Ray Orders Storage ConsensusTypes Rounds Matching.
From stdpp Require Import pretty.
Open Scope Z_scope.

Abbreviation Url := string (only parsing).

(** The fields of a [TransactionRequest] that the submitters set. *)
Record TransactionRequest := {
  tx_from : Address;
  tx_to : Address;
  tx_input : Bytes;
  tx_chain_id : u64;
  tx_nonce : u64;
  tx_gas_limit : option u64;
  tx_max_fee_per_gas : u128;
  tx_max_priority_fee_per_gas : u128
}.

Record Eip1559Estimation := {
  max_fee_per_gas : u128;
  max_priority_fee_per_gas : u128
}.

Record AngstromIntegrationSubmission := {
  ais_tx : Bytes;
  ais_unlock_data : Bytes;
  ais_max_priority_fee_per_gas : u128
}.

Inductive SubmitterType := Mempool | Angstrom | MevBoost.

(** What [alloy] and [pade] do to transactions: the call data of [execute] and of
    [unlockWithEmptyAttestation], the transaction of a request, the hash that is
    signed, and the bytes and the hash of a signed transaction. *)
Class TransactionLib `{RL : RoundLib} : Type := {
  TypedTransaction : Type;
  execute_call : AngstromBundle -> Bytes;
  unlock_call : Address -> Bytes -> Bytes;
  build_unsigned : TransactionRequest -> option TypedTransaction;
  signature_hash : TypedTransaction -> B256;
  signed_bytes : TypedTransaction -> Signature -> Bytes;
  signed_hash : TypedTransaction -> Signature -> B256
}.

(** The node's provider.  The gas of a transaction is estimated once for each
    submitter, and the answers may differ. *)
Class Provider : Type := {
  get_transaction_count : Address -> u64 -> result u64 string;
  estimate_eip1559_fees : result Eip1559Estimation string;
  get_chain_id : result u64 string;
  provider_estimate_gas : SubmitterType -> TransactionRequest -> result u64 string
}.

(** The accessors of [serde_json::Value]. *)
Class JsonLib : Type := {
  Value : Type;
  json_get : Value -> string -> option Value;
  as_bool : Value -> option bool;
  as_str : Value -> option string;
  as_u64 : Value -> option u64;
  is_null : Value -> bool;
  json_string : Value -> string
}.

(** What the endpoint of an index and an address answers. *)
Class Endpoints `{JL : JsonLib} : Type := {
  send_raw_transaction : nat -> Url -> Bytes -> result B256 string;
  angstrom_submitBundle : nat -> Url -> AngstromIntegrationSubmission -> result Value string;
  eth_sendBundle : nat -> Url -> list Bytes -> u64 -> result B256 string
}.

(** [CHAIN_ID] and [ANGSTROM_ADDRESS], which are set when the node starts. *)
Record Globals := {
  CHAIN_ID : option u64;
  ANGSTROM_ADDRESS : option Address
}.

(** ** Answers of the Angstrom endpoints *)

Section answers.
Context `{JL : JsonLib}.

Inductive AngstromSubmissionResponse :=
| RSuccess (message bundle_hash : option string)
| RError (message : string)
| RUnknown (raw : string).

Definition message_field (v : Value) : option string := json_get v "message" ≫= as_str.

(** The message of the error of a JSON-RPC answer. *)
Definition error_message (err : Value) : string :=
  match json_get err "message" ≫= as_str with
  | Some s => s
  | None => default "Unknown error"%string (as_str err)
  end.

(** Formats 3 and 4: a status code, a bundle hash. *)
Definition from_plain_value (v : Value) : AngstromSubmissionResponse :=
  match as_u64 v with
  | Some n =>
      if (200 <=? n) && (n <? 300) then RSuccess (Some ("Status: " +:+ pretty n)) None
      else RError ("Error status: " +:+ pretty n)
  | None =>
      match json_get v "bundleHash" ≫= as_str with
      | Some hash => RSuccess None (Some hash)
      | None => RUnknown (json_string v)
      end
  end.

Definition from_value (v : Value) : AngstromSubmissionResponse :=
  match json_get v "success" ≫= as_bool with
  | Some true => RSuccess (message_field v) None
  | Some false => RError (default "Request failed"%string (message_field v))
  | None =>
      match json_get v "jsonrpc" with
      | Some _ =>
          match e ← json_get v "error"; if is_null e then None else Some e with
          | Some err => RError (error_message err)
          | None => RSuccess (json_get v "result" ≫= as_str) None
          end
      | None => from_plain_value v
      end
  end.

Definition is_success (r : AngstromSubmissionResponse) : bool :=
  match r with RSuccess _ _ => true | _ => false end.
End answers.

(** ** Transactions *)

Definition EXTRA_GAS_LIMIT : u64 := 100000.

Definition with_gas_limit (tx : TransactionRequest) (gas : u64) : TransactionRequest :=
  {| tx_from := tx_from tx; tx_to := tx_to tx; tx_input := tx_input tx;
     tx_chain_id := tx_chain_id tx; tx_nonce := tx_nonce tx; tx_gas_limit := Some gas;
     tx_max_fee_per_gas := tx_max_fee_per_gas tx;
     tx_max_priority_fee_per_gas := tx_max_priority_fee_per_gas tx |}.

Definition set_max_priority_fee_per_gas (tx : TransactionRequest) (fee : u128) : TransactionRequest :=
  {| tx_from := tx_from tx; tx_to := tx_to tx; tx_input := tx_input tx;
     tx_chain_id := tx_chain_id tx; tx_nonce := tx_nonce tx; tx_gas_limit := tx_gas_limit tx;
     tx_max_fee_per_gas := tx_max_fee_per_gas tx; tx_max_priority_fee_per_gas := fee |}.

Record TxFeatureInfo := {
  nonce : u64;
  fees : Eip1559Estimation;
  chain_id : u64;
  target_block : u64;
  bundle_gas_used : SubmitterType -> TransactionRequest -> outcome u64
}.

Record SubmissionResult := {
  sr_tx_hash : option B256;
  submitter_type : SubmitterType;
  endpoint : string;
  success : bool
}.

(** What is sent: to which endpoint, and what. *)
Inductive Sent :=
| ToMempool (index : nat) (url : Url) (raw : Bytes)
| ToAngstrom (index : nat) (url : Url) (payload : AngstromIntegrationSubmission)
| ToMevBoost (index : nat) (url : Url) (txs : list Bytes) (block_number : u64).

Section submission.
Context `{CC : ConsensusCrypto} `{AC : AttestationCodec} `{RL : RoundLib}.
Context `{TX : !TransactionLib} `{PV : Provider} `{JL : JsonLib} `{EP : !Endpoints} `{JO : JoinOrder}.
Context (globals : Globals).

(** A signed transaction, its bytes and its hash. *)
Record TxEnvelope := {
  env_tx : TypedTransaction;
  env_signature : Signature
}.

Definition encoded_2718 (e : TxEnvelope) : Bytes := signed_bytes (env_tx e) (env_signature e).
Definition envelope_hash (e : TxEnvelope) : B256 := signed_hash (env_tx e) (env_signature e).

(** [sign_transaction_from] of [AngstromSigner]. *)
Definition sign_transaction_from (s : AngstromSigner) (tx : TypedTransaction) : option TxEnvelope :=
  sig ← sign_hash_sync (signer_key s) (signature_hash tx);
  Some {| env_tx := tx; env_signature := sig |}.

(** [tx.build(signer).await.unwrap()]. *)
Definition build (tx : TransactionRequest) (s : AngstromSigner) : outcome TxEnvelope :=
  unwrap (build_unsigned tx ≫= sign_transaction_from s).

(** ** The submitters *)

(** A submitter in its holder: the endpoints, the contract and the signer. *)
Record ChainSubmitter := {
  cs_type : SubmitterType;
  cs_clients : list Url;
  cs_angstrom_address : Address;
  cs_signer : AngstromSigner
}.

Definition build_tx (s : ChainSubmitter) (bundle : AngstromBundle) (f : TxFeatureInfo)
    : TransactionRequest :=
  {| tx_from := signer_address (cs_signer s); tx_to := cs_angstrom_address s;
     tx_input := execute_call bundle; tx_chain_id := chain_id f; tx_nonce := nonce f;
     tx_gas_limit := None; tx_max_fee_per_gas := max_fee_per_gas (fees f);
     tx_max_priority_fee_per_gas := max_priority_fee_per_gas (fees f) |}.

Definition build_and_sign_unlock (s : ChainSubmitter) (sig : Bytes) (f : TxFeatureInfo)
    : outcome TxEnvelope :=
  address ← unwrap (ANGSTROM_ADDRESS globals);
  chain ← unwrap (CHAIN_ID globals);
  build {| tx_from := signer_address (cs_signer s); tx_to := address;
           tx_input := unlock_call (signer_address (cs_signer s)) sig; tx_chain_id := chain;
           tx_nonce := nonce f; tx_gas_limit := Some 100000;
           tx_max_fee_per_gas := max_fee_per_gas (fees f); tx_max_priority_fee_per_gas := 0 |}
    (cs_signer s).

Definition build_and_sign_tx_with_gas (s : ChainSubmitter) (bundle : AngstromBundle) (f : TxFeatureInfo)
    : outcome TxEnvelope :=
  let tx := build_tx s bundle f in
  gas ← bundle_gas_used f (cs_type s) tx;
  build (with_gas_limit tx (u64_wrap (gas + EXTRA_GAS_LIMIT))) (cs_signer s).

Definition is_ok {A E} (r : result A E) : bool := match r with Ok _ => true | Err _ => false end.

Abbreviation Submitted := (outcome (list Sent * result (list SubmissionResult) string)) (only parsing).

(** [MempoolSubmitter::submit]: the answers come in any order. *)
Definition mempool_submit (s : ChainSubmitter) (bundle : option AngstromBundle) (f : TxFeatureInfo)
    : Submitted :=
  match bundle with
  | None => Ret ([], Ok [])
  | Some bundle =>
      tx ← build_and_sign_tx_with_gas s bundle f;
      let encoded_tx := encoded_2718 tx in
      let results := joined (imap (fun i url => (url, send_raw_transaction i url encoded_tx)) (cs_clients s)) in
      Ret (imap (fun i url => ToMempool i url encoded_tx) (cs_clients s),
           Ok ((fun '(url, result) =>
                  let success := is_ok result in
                  {| sr_tx_hash := if success then Some (envelope_hash tx) else None;
                     submitter_type := Mempool; endpoint := url; success := success |}) <$> results))
  end.

(** What [AngstromSubmitter::submit] sends: the transaction of the bundle, or the
    attestation of the empty block. *)
Definition angstrom_payload (s : ChainSubmitter) (bundle : option AngstromBundle) (f : TxFeatureInfo)
    : outcome (option B256 * AngstromIntegrationSubmission) :=
  match bundle with
  | Some bundle =>
      let tx := build_tx s bundle f in
      gas ← bundle_gas_used f (cs_type s) tx;
      let tx := with_gas_limit tx (u64_wrap (gas + EXTRA_GAS_LIMIT)) in
      let tx := set_max_priority_fee_per_gas tx 0 in
      signed_tx ← build tx (cs_signer s);
      Ret (Some (envelope_hash signed_tx),
           {| ais_tx := encoded_2718 signed_tx; ais_unlock_data := [];
              ais_max_priority_fee_per_gas := tx_max_priority_fee_per_gas tx |})
  | None =>
      unlock_data ← sign_and_encode (target_block f) (cs_signer s);
      unlock_sig ← sign_attestation (target_block f) (cs_signer s);
      signed_tx ← build_and_sign_unlock s unlock_sig f;
      Ret (None, {| ais_tx := encoded_2718 signed_tx; ais_unlock_data := unlock_data;
                    ais_max_priority_fee_per_gas := 0 |})
  end.

Definition angstrom_submit (s : ChainSubmitter) (bundle : option AngstromBundle) (f : TxFeatureInfo)
    : Submitted :=
  '(hash, payload) ← angstrom_payload s bundle f;
  let results := joined (imap (fun i url => (url, angstrom_submitBundle i url payload)) (cs_clients s)) in
  Ret (imap (fun i url => ToAngstrom i url payload) (cs_clients s),
       Ok ((fun '(url, result) =>
              let success := match result with Ok v => is_success (from_value v) | Err _ => false end in
              {| sr_tx_hash := if success then hash else None;
                 submitter_type := Angstrom; endpoint := url; success := success |}) <$> results)).

Definition mev_boost_submit (s : ChainSubmitter) (bundle : option AngstromBundle) (f : TxFeatureInfo)
    : Submitted :=
  match bundle with
  | None => Ret ([], Ok [])
  | Some bundle =>
      tx ← build_and_sign_tx_with_gas s bundle f;
      let txs := [encoded_2718 tx] in
      let results := joined (imap (fun i url => (url, eth_sendBundle i url txs (target_block f))) (cs_clients s)) in
      Ret (imap (fun i url => ToMevBoost i url txs (target_block f)) (cs_clients s),
           Ok ((fun '(url, result) =>
                  let success := is_ok result in
                  {| sr_tx_hash := if success then Some (envelope_hash tx) else None;
                     submitter_type := MevBoost; endpoint := url; success := success |}) <$> results))
  end.

Definition submit (bundle : option AngstromBundle) (f : TxFeatureInfo) (s : ChainSubmitter) : Submitted :=
  match cs_type s with
  | Mempool => mempool_submit s bundle f
  | Angstrom => angstrom_submit s bundle f
  | MevBoost => mev_boost_submit s bundle f
  end.

(** ** The handler *)

Record SubmissionHandler := { submitters : list ChainSubmitter }.

Definition new_handler (mempool angstrom mev_boost : list Url) (angstrom_address : Address)
    (signer : AngstromSigner) : SubmissionHandler :=
  let submitter t urls := {| cs_type := t; cs_clients := urls;
    cs_angstrom_address := angstrom_address; cs_signer := signer |} in
  {| submitters := [submitter Mempool mempool; submitter Angstrom angstrom; submitter MevBoost mev_boost] |}.

(** [bundle_gas_used]. *)
Definition gas_estimator (who : SubmitterType) (tx : TransactionRequest) : outcome u64 :=
  match provider_estimate_gas who tx with
  | Ok gas => Ret (u64_wrap (gas + EXTRA_GAS_LIMIT))
  | Err _ => Panic
  end.

(** What the provider is asked before anything is sent. *)
Definition tx_features (signer : AngstromSigner) (target_block : u64) : result TxFeatureInfo string :=
  match get_transaction_count (signer_address signer) (u64_wrap (target_block - 1)) with
  | Err e => Err e
  | Ok nonce =>
      match estimate_eip1559_fees with
      | Err e => Err e
      | Ok fees =>
          match get_chain_id with
          | Err e => Err e
          | Ok chain_id =>
              Ok {| nonce := nonce; fees := fees; chain_id := chain_id; target_block := target_block;
                    bundle_gas_used := gas_estimator |}
          end
      end
  end.

(** The submitters run together and finish in any order; the results of one that
    fails are dropped. *)
Definition submit_tx (h : SubmissionHandler) (signer : AngstromSigner) (bundle : option AngstromBundle)
    (target_block : u64) : Submitted :=
  match tx_features signer target_block with
  | Err e => Ret ([], Err e)
  | Ok f =>
      futs ← mapM (submit bundle f) (submitters h);
      let collected := joined (snd <$> futs) in
      Ret (futs ≫= fst,
           Ok (collected ≫= fun res => match res with Ok results => results | Err _ => [] end))
  end.

(** What the task of the round keeps of a result. *)
Definition round_result (r : SubmissionResult) : TxSubmissionResult :=
  {| tx_hash := sr_tx_hash r; tx_success := success r |}.
End submission.
