(* ===== verification/SubmissionProps.v ===== *)
(** * Properties of submission

    What is sent for a bundle and for an empty block, what is reported, and that a
    proposal is published only for a transaction of its own bundle. *)

From S2P Require Import Prelude Ray Orders Storage ConsensusTypes Rounds Matching Submission.
Open Scope Z_scope.

(** ** Answers *)

Section answers.
Context `{JL : JsonLib}.

(** An answer counts as a success exactly when its first known format says so. *)
Theorem response_success_iff v : is_success (from_value v) = true <->
  match json_get v "success" ≫= as_bool with
  | Some b => b = true
  | None =>
      match json_get v "jsonrpc" with
      | Some _ => forall e, json_get v "error" = Some e -> is_null e = true
      | None =>
          match as_u64 v with
          | Some n => 200 <= n < 300
          | None => exists hash, json_get v "bundleHash" ≫= as_str = Some hash
          end
      end
  end.
Proof.
  unfold from_value, from_plain_value. destruct (json_get v "success" ≫= as_bool) as [[]|]; [done..|].
  destruct (json_get v "jsonrpc").
  - destruct (json_get v "error") as [e|] eqn:E; cbn; [|naive_solver].
    destruct (is_null e) eqn:En; cbn; naive_solver.
  - destruct (as_u64 v) as [n|].
    + destruct (Z.leb_spec 200 n), (Z.ltb_spec n 300); cbn; split; (done || lia).
    + destruct (json_get v "bundleHash" ≫= as_str); cbn; naive_solver.
Qed.
End answers.

Section props.
Context `{CC : ConsensusCrypto} `{AC : AttestationCodec} `{RL : RoundLib}.
Context `{TX : !TransactionLib} `{PV : Provider} `{JL : JsonLib} `{EP : !Endpoints} `{JO : JoinOrder}.
Context (globals : Globals).
Implicit Types (s : ChainSubmitter) (f : TxFeatureInfo) (m : Sent) (e : TxEnvelope).

(** ** Messages *)

(** Whether the endpoint took a message, the transactions in it and its recipient. *)
Definition accepted m : bool :=
  match m with
  | ToMempool i url raw => is_ok (send_raw_transaction i url raw)
  | ToAngstrom i url payload =>
      match angstrom_submitBundle i url payload with Ok v => is_success (from_value v) | Err _ => false end
  | ToMevBoost i url txs block => is_ok (eth_sendBundle i url txs block)
  end.

Definition payload m : list Bytes :=
  match m with
  | ToMempool _ _ raw => [raw]
  | ToAngstrom _ _ p => [ais_tx p]
  | ToMevBoost _ _ txs _ => txs
  end.

Definition recipient m : SubmitterType * Url :=
  match m with
  | ToMempool _ url _ => (Mempool, url)
  | ToAngstrom _ url _ => (Angstrom, url)
  | ToMevBoost _ url _ _ => (MevBoost, url)
  end.

(** The endpoints that a submitter addresses. *)
Definition recipients (bundle : option AngstromBundle) s : list (SubmitterType * Url) :=
  match bundle, cs_type s with
  | None, Mempool | None, MevBoost => []
  | _, t => (t,.) <$> cs_clients s
  end.

(** The report about a message whose transaction has a hash. *)
Definition report_of (hash : option B256) m : SubmissionResult :=
  {| sr_tx_hash := if accepted m then hash else None; submitter_type := (recipient m).1;
     endpoint := (recipient m).2; success := accepted m |}.

(** The transaction of a request, signed by the node. *)
Definition signed_as (signer : AngstromSigner) (req : TransactionRequest) e : Prop :=
  build_unsigned req = Some (env_tx e) /\
  sign_hash_sync (signer_key signer) (signature_hash (env_tx e)) = Some (env_signature e).

Lemma build_signed req signer e : build req signer = Ret e -> signed_as signer req e.
Proof.
  intros H%unwrap_Ret. apply bind_Some in H as (tx & Hb & H). apply bind_Some in H as (sig & Hs & H).
  by injection H as <-.
Qed.

(** The request calls [execute] with the bundle, or unlocks the contract for an
    empty block. *)
Definition request_for (bundle : option AngstromBundle) f s (req : TransactionRequest) : Prop :=
  tx_from req = signer_address (cs_signer s) /\ tx_nonce req = nonce f /\
  match bundle with
  | Some b => tx_to req = cs_angstrom_address s /\ tx_input req = execute_call b /\
      tx_chain_id req = chain_id f /\
      tx_max_priority_fee_per_gas req =
        (match cs_type s with Angstrom => 0 | _ => max_priority_fee_per_gas (fees f) end) /\
      exists gas, bundle_gas_used f (cs_type s) (build_tx s b f) = Ret gas /\
        tx_gas_limit req = Some (u64_wrap (gas + EXTRA_GAS_LIMIT))
  | None => exists sig, sign_attestation (target_block f) (cs_signer s) = Ret sig /\
      tx_input req = unlock_call (signer_address (cs_signer s)) sig /\
      tx_max_priority_fee_per_gas req = 0
  end.

(** What comes with the transaction: the attestation of the empty block, and the
    target block for a bundle. *)
Definition addressed (bundle : option AngstromBundle) f m : Prop :=
  match m with
  | ToMempool _ _ _ => bundle <> None
  | ToAngstrom _ _ p =>
      match bundle with
      | Some _ => ais_unlock_data p = []
      | None => is_valid_attestation (target_block f) (ais_unlock_data p) = true
      end
  | ToMevBoost _ _ _ block => bundle <> None /\ block = target_block f
  end.

(** ** One submitter *)

(** A transaction that the submitter makes and the messages that carry it. *)
Definition carries (bundle : option AngstromBundle) f s (sent : list Sent) (req : TransactionRequest) e : Prop :=
  request_for bundle f s req /\ signed_as (cs_signer s) req e /\
  forall m, m ∈ sent -> payload m = [encoded_2718 e] /\ addressed bundle f m.

(** One transaction is sent to each endpoint, and each message reported. *)
Record sends (bundle : option AngstromBundle) f s (sent : list Sent) (rs : list SubmissionResult) : Prop := {
  sends_to : recipient <$> sent = recipients bundle s;
  sends_tx : sent = [] /\ rs = [] \/ exists req e, carries bundle f s sent req e /\
    rs ≡ₚ report_of ((fun _ => envelope_hash e) <$> bundle) <$> sent
}.

(** The answers to one transaction, in any order. *)
Lemma sends_one bundle f s req e (mk : nat -> Url -> Sent) {A} (ask : nat -> Url -> A)
    (report : Url * A -> SubmissionResult) :
  request_for bundle f s req -> signed_as (cs_signer s) req e ->
  (forall i url, recipient (mk i url) = (cs_type s, url) /\ payload (mk i url) = [encoded_2718 e] /\
    addressed bundle f (mk i url) /\
    report (url, ask i url) = report_of ((fun _ => envelope_hash e) <$> bundle) (mk i url)) ->
  recipients bundle s = (cs_type s,.) <$> cs_clients s ->
  sends bundle f s (imap mk (cs_clients s))
    (report <$> joined (imap (fun i url => (url, ask i url)) (cs_clients s))).
Proof.
  intros Hr Hs Hm Ht. split.
  - rewrite Ht, fmap_imap. rewrite <- (imap_const (cs_type s,.)). apply imap_ext. intros i url _. cbn. apply Hm.
  - right. exists req, e. split; [split; [done|split; [done|]]|].
    + intros m (i & url & -> & _)%elem_of_lookup_imap_1. by destruct (Hm i url) as (_ & ? & ? & _).
    + rewrite joined_perm, !fmap_imap. erewrite imap_ext; [reflexivity|]. intros i url _. cbn. apply Hm.
Qed.

Lemma sends_nothing f s : recipients None s = [] -> sends None f s [] [].
Proof. intros H. split; [done|by left]. Qed.

Lemma with_gas_request s b f e : build_and_sign_tx_with_gas s b f = Ret e -> cs_type s <> Angstrom ->
  exists req, request_for (Some b) f s req /\ signed_as (cs_signer s) req e.
Proof.
  intros (gas & Hg & He%build_signed)%bind_Ret Ht. eexists. split; [|exact He].
  do 5 (split; [done|]). split; [by destruct (cs_type s)|]. by exists gas.
Qed.

Lemma payload_request s bundle f hash p : angstrom_payload globals s bundle f = Ret (hash, p) ->
  cs_type s = Angstrom ->
  exists req e, request_for bundle f s req /\ signed_as (cs_signer s) req e /\ ais_tx p = encoded_2718 e /\
    hash = ((fun _ => envelope_hash e) <$> bundle) /\
    match bundle with
    | Some _ => ais_unlock_data p = []
    | None => is_valid_attestation (target_block f) (ais_unlock_data p) = true
    end.
Proof.
  intros H Ht. destruct bundle as [b|]; cbn [angstrom_payload] in H.
  - apply bind_Ret in H as (gas & Hg & H). apply bind_Ret in H as (e & He%build_signed & H).
    injection H as <- <-. eexists _, e. split; [|by split]. do 5 (split; [done|]).
    rewrite Ht in *. split; [done|]. by exists gas.
  - apply bind_Ret in H as (data & Hd & H). apply bind_Ret in H as (sig & Hsig & H).
    apply bind_Ret in H as (e & He & H). injection H as <- <-.
    apply bind_Ret in He as (address & _ & He). apply bind_Ret in He as (chain & _ & He%build_signed).
    eexists _, e. split; [|split; [exact He|split; [done|split; [done|by eapply attestation_valid]]]].
    do 2 (split; [done|]). by exists sig.
Qed.

Lemma submit_sends bundle f s sent r : submit globals bundle f s = Ret (sent, r) ->
  exists rs, r = Ok rs /\ sends bundle f s sent rs.
Proof.
  unfold submit. destruct (cs_type s) eqn:Et.
  - destruct bundle as [b|]; [|intros [= <- <-]; eexists; split; [done|]; apply sends_nothing;
      unfold recipients; by rewrite Et].
    intros (e & He & H)%bind_Ret. injection H as <- <-. eexists. split; [done|].
    destruct (with_gas_request _ _ _ _ He) as (req & Hr & Hs); [by rewrite Et|].
    eapply sends_one; [exact Hr|exact Hs| |done]. intros i url. rewrite Et. done.
  - intros ([hash p] & Hp & H)%bind_Ret. injection H as <- <-. eexists. split; [done|].
    destruct (payload_request _ _ _ _ _ Hp Et) as (req & e & Hr & Hs & Htx & -> & Ha).
    eapply sends_one; [exact Hr|exact Hs| |unfold recipients; by destruct bundle; rewrite Et].
    intros i url. rewrite Et. cbn. by rewrite Htx.
  - destruct bundle as [b|]; [|intros [= <- <-]; eexists; split; [done|]; apply sends_nothing;
      unfold recipients; by rewrite Et].
    intros (e & He & H)%bind_Ret. injection H as <- <-. eexists. split; [done|].
    destruct (with_gas_request _ _ _ _ He) as (req & Hr & Hs); [by rewrite Et|].
    eapply sends_one; [exact Hr|exact Hs| |done]. intros i url. rewrite Et. done.
Qed.

(** ** The handler *)

Lemma mapM_Ret {A B} (g : A -> outcome B) l k : mapM g l = Ret k -> Forall2 (fun x y => g x = Ret y) l k.
Proof.
  revert k. induction l as [|x l IH]; intros k; [by intros [= <-]; constructor|].
  intros (y & Hy & H)%bind_Ret. apply bind_Ret in H as (k' & Hk & H). injection H as <-.
  constructor; [done|by apply IH].
Qed.

(** What the provider was asked, and that every submitter sent its messages. *)
Lemma submit_tx_inv h signer bundle target sent results :
  submit_tx globals h signer bundle target = Ret (sent, Ok results) ->
  exists f (outs : list (list Sent * list SubmissionResult)),
    tx_features signer target = Ok f /\ target_block f = target /\ bundle_gas_used f = gas_estimator /\
    get_transaction_count (signer_address signer) (u64_wrap (target - 1)) = Ok (nonce f) /\
    Forall2 (fun s o => sends bundle f s o.1 o.2) (submitters h) outs /\
    sent = outs ≫= fst /\ results ≡ₚ outs ≫= snd.
Proof.
  unfold submit_tx. destruct (tx_features signer target) as [f|] eqn:Ef; [|done].
  intros (futs & Hf%mapM_Ret & H)%bind_Ret. injection H as <- <-.
  assert (exists outs : list (list Sent * list SubmissionResult), futs = prod_map id Ok <$> outs /\
    Forall2 (fun s o => sends bundle f s o.1 o.2) (submitters h) outs) as (outs & -> & Ho).
  { clear Ef. induction Hf as [|s [o r] l k Hs _ (outs & -> & IH)]; [by exists []|].
    destruct (submit_sends _ _ _ _ _ Hs) as (rs & -> & Hr). exists ((o, rs) :: outs). by split; [|constructor]. }
  exists f, outs. split; [done|].
  unfold tx_features in Ef. destruct (get_transaction_count _ _) eqn:En; [|done].
  destruct estimate_eip1559_fees; [|done]. destruct get_chain_id; [|done].
  injection Ef as <-. do 3 (split; [done|]). split; [done|]. split.
  - clear. induction outs as [|[] l IH]; [done|]. cbn. by rewrite IH.
  - rewrite joined_perm. clear. induction outs as [|[] l IH]; [done|]. cbn. by rewrite IH.
Qed.

Lemma recipient_of_report hash m :
  (submitter_type (report_of hash m), endpoint (report_of hash m)) = recipient m.
Proof. by destruct m. Qed.

(** Each endpoint that is meant is sent one message and one result comes back for
    it: all endpoints for a bundle, those of the integrators for an empty block. *)
Theorem endpoints_addressed_once h signer bundle target sent results :
  submit_tx globals h signer bundle target = Ret (sent, Ok results) ->
  recipient <$> sent = submitters h ≫= recipients bundle /\
  (fun r => (submitter_type r, endpoint r)) <$> results ≡ₚ recipient <$> sent.
Proof.
  intros (f & outs & _ & _ & _ & _ & Ho & -> & ->)%submit_tx_inv.
  induction Ho as [|s [o rs] l k [Ht Hr] _ [IH1 IH2]]; [done|]. cbn in *.
  rewrite !fmap_app, Ht, IH1, IH2. split; [done|]. rewrite <- IH1, <- Ht. f_equiv.
  destruct Hr as [[-> ->]|(req & e & _ & ->)]; [done|].
  rewrite <- list_fmap_compose. erewrite list_fmap_ext; [reflexivity|]. intros i m _. apply recipient_of_report.
Qed.

Lemma Forall2_source {A B} (P : A -> B -> Prop) l k y : Forall2 P l k -> y ∈ k -> exists x, x ∈ l /\ P x y.
Proof.
  intros H (i & Hy)%list_elem_of_lookup. destruct (Forall2_lookup_r _ _ _ _ _ H Hy) as (x & Hx & ?).
  exists x. split; [|done]. by eapply list_elem_of_lookup_2.
Qed.

(** Every message carries the transaction of a submitter, and every result reports
    on such a message. *)
Lemma submission_carried h signer bundle target sent results :
  submit_tx globals h signer bundle target = Ret (sent, Ok results) ->
  exists f, target_block f = target /\
    get_transaction_count (signer_address signer) (u64_wrap (target - 1)) = Ok (nonce f) /\
    (forall m, m ∈ sent -> exists s req e, s ∈ submitters h /\ carries bundle f s [m] req e) /\
    (forall r, r ∈ results -> exists s m req e, s ∈ submitters h /\ m ∈ sent /\
      carries bundle f s [m] req e /\ r = report_of ((fun _ => envelope_hash e) <$> bundle) m).
Proof.
  intros (f & outs & _ & Ht & _ & Hn & Ho & -> & Hp)%submit_tx_inv. exists f. do 2 (split; [done|]).
  setoid_rewrite Hp. clear Hp. split.
  - intros m (o & Hm & Hin)%list_elem_of_bind. destruct (Forall2_source _ _ _ _ Ho Hin) as (s & Hs & [_ Hr]).
    destruct Hr as [[E _]|(req & e & (? & ? & Hc) & _)]; [rewrite E in Hm; by apply not_elem_of_nil in Hm|].
    exists s, req, e. split; [done|]. do 2 (split; [done|]). intros m' ->%list_elem_of_singleton. by apply Hc.
  - intros r (o & Hr & Hin)%list_elem_of_bind. destruct (Forall2_source _ _ _ _ Ho Hin) as (s & Hs & [_ Hx]).
    destruct Hx as [[_ E]|(req & e & (? & ? & Hc) & E)]; [rewrite E in Hr; by apply not_elem_of_nil in Hr|].
    rewrite E in Hr. apply list_elem_of_fmap in Hr as (m & -> & Hm). exists s, m, req, e.
    split; [done|]. split; [apply list_elem_of_bind; by exists o|]. split; [|done].
    do 2 (split; [done|]). intros m' ->%list_elem_of_singleton. by apply Hc.
Qed.

Lemma handler_submitter mempool angstrom mev_boost address signer s :
  s ∈ submitters (new_handler mempool angstrom mev_boost address signer) ->
  cs_angstrom_address s = address /\ cs_signer s = signer.
Proof. cbn. rewrite !elem_of_cons, elem_of_nil. naive_solver. Qed.

(** All transactions of a submission are of one account and have one nonce, the
    number of its transactions before the target block: the chain takes at most one
    of them. *)
Theorem submission_one_nonce mempool angstrom mev_boost address signer bundle target sent results :
  submit_tx globals (new_handler mempool angstrom mev_boost address signer) signer bundle target
    = Ret (sent, Ok results) ->
  exists n, get_transaction_count (signer_address signer) (u64_wrap (target - 1)) = Ok n /\
    forall m, m ∈ sent -> exists req e, payload m = [encoded_2718 e] /\ signed_as signer req e /\
      tx_from req = signer_address signer /\ tx_nonce req = n.
Proof.
  intros (f & _ & Hn & Hm & _)%submission_carried. exists (nonce f). split; [done|].
  intros m (s & req & e & [_ Hs]%handler_submitter & (Hr1 & Hr2 & _) & He & Hc)%Hm.
  rewrite Hs in *. exists req, e. split; [by apply Hc, list_elem_of_singleton|done].
Qed.

(** ** What the round concludes *)

Lemma landed_hash results block_txs :
  submission_landed (Some (round_result <$> results)) block_txs = true ->
  exists r, r ∈ results /\ success r = true /\ (forall h, sr_tx_hash r = Some h -> exists r' h', r' ∈ results /\
    success r' = true /\ sr_tx_hash r' = Some h' /\ h' ∈ block_txs).
Proof.
  unfold submission_landed. cbn zeta.
  set (hashes := list_to_set _).
  assert (forall h, h ∈ hashes <-> exists r, r ∈ results /\ success r = true /\ sr_tx_hash r = Some h) as Hh.
  { intros h. unfold hashes. rewrite elem_of_list_to_set, list_elem_of_omap. split.
    - intros (x & Hx & E). apply list_elem_of_filter in Hx as [Hs Hx].
      apply list_elem_of_fmap in Hx as (r & -> & Hr). by exists r.
    - intros (r & Hr & Hs & E). exists (round_result r). split; [|done]. apply list_elem_of_filter.
      split; [done|]. by apply list_elem_of_fmap_2. }
  case_bool_decide as He.
  - intros (x & Hx%list_elem_of_In & Hs)%existsb_exists. apply list_elem_of_fmap in Hx as (r & -> & Hr).
    exists r. split; [done|]. split; [done|]. intros h E. exfalso.
    assert (h ∈ hashes) as Hin by (apply Hh; by exists r). rewrite He in Hin. by apply elem_of_empty in Hin.
  - intros (t & Ht%list_elem_of_In & (r & Hr & Hs & E)%bool_decide_eq_true%Hh)%existsb_exists.
    exists r. split; [done|]. split; [done|]. intros h _. by exists r, t.
Qed.

(** C29. The round publishes its proposal only for its own bundle: when the submission
    of a bundle counts as landed, the target block holds a transaction that an
    endpoint took from the node, which the node signed and which calls the contract
    with this bundle. *)
Theorem landed_bundle_submitted mempool angstrom mev_boost address signer bundle target sent results block_txs
    (Hs : submit_tx globals (new_handler mempool angstrom mev_boost address signer) signer (Some bundle) target
      = Ret (sent, Ok results))
    (Hl : submission_landed (Some (round_result <$> results)) block_txs = true) :
  exists m e req, m ∈ sent /\ accepted m = true /\ payload m = [encoded_2718 e] /\
    envelope_hash e ∈ block_txs /\ signed_as signer req e /\ tx_from req = signer_address signer /\
    tx_to req = address /\ tx_input req = execute_call bundle /\
    get_transaction_count (signer_address signer) (u64_wrap (target - 1)) = Ok (tx_nonce req).
Proof.
  destruct (submission_carried _ _ _ _ _ _ Hs) as (f & _ & Hn & _ & Hr).
  destruct (landed_hash _ _ Hl) as (r & Hin & Hsu & Hh).
  assert (exists h, sr_tx_hash r = Some h) as [h E].
  { destruct (Hr r Hin) as (s & m & req & e & _ & _ & _ & ->). cbn in Hsu |- *. rewrite Hsu. by eexists. }
  destruct (Hh h E) as (r' & h' & (s & m & req & e & Hss & Hm & (Hq & He & Hc) & ->)%Hr & Hsu' & E' & Hb).
  cbn in Hsu', E'. rewrite Hsu' in E'. injection E' as <-.
  apply handler_submitter in Hss as [Ha Hsg]. destruct Hq as (H1 & H2 & H3 & H4 & _). rewrite Hsg, ?Ha in *.
  exists m, e, req. do 2 (split; [done|]). split; [by apply Hc, list_elem_of_singleton|]. do 5 (split; [done|]).
  by rewrite H2.
Qed.

(** For an empty block the proposal is published when an integrator took the
    attestation, which is valid for the target block. *)
Theorem landed_empty_attested h signer target sent results block_txs :
  submit_tx globals h signer None target = Ret (sent, Ok results) ->
  submission_landed (Some (round_result <$> results)) block_txs = true ->
  exists i url p, ToAngstrom i url p ∈ sent /\ accepted (ToAngstrom i url p) = true /\
    is_valid_attestation target (ais_unlock_data p) = true.
Proof.
  intros (f & <- & _ & _ & Hr)%submission_carried (r & Hin & Hsu & _)%landed_hash.
  destruct (Hr r Hin) as (s & m & req & e & _ & Hm & (_ & _ & Hc) & ->).
  destruct (Hc m) as [_ Ha]; [by apply list_elem_of_singleton|].
  destruct m as [| i url p|]; [done| |by destruct Ha]. by exists i, url, p.
Qed.

(** ** Submission ends without a panic *)

(** The provider estimates, and the signer signs every complete request. *)
Record submission_ready (signer : AngstromSigner) : Prop := {
  ready_globals : is_Some (ANGSTROM_ADDRESS globals) /\ is_Some (CHAIN_ID globals);
  ready_gas : forall who tx, exists gas, provider_estimate_gas who tx = Ok gas;
  ready_build : forall tx, tx_gas_limit tx <> None -> is_Some (build_unsigned tx);
  ready_sign : forall hash, is_Some (sign_hash_sync (signer_key signer) hash)
}.

Lemma build_ready signer tx : submission_ready signer -> tx_gas_limit tx <> None ->
  exists e, build tx signer = Ret e.
Proof.
  intros H Hg. unfold build, sign_transaction_from. destruct (ready_build _ H tx Hg) as [t ->]. cbn.
  destruct (ready_sign _ H (signature_hash t)) as [sig ->]. cbn. by eexists.
Qed.

Lemma with_gas_ready s b f : submission_ready (cs_signer s) -> bundle_gas_used f = gas_estimator ->
  exists e, build_and_sign_tx_with_gas s b f = Ret e.
Proof.
  intros H Hf. unfold build_and_sign_tx_with_gas. rewrite Hf. unfold gas_estimator.
  destruct (ready_gas _ H (cs_type s) (build_tx s b f)) as [gas ->]. cbn [mbind outcome_bind].
  by apply build_ready.
Qed.

Lemma payload_ready s bundle f : submission_ready (cs_signer s) -> bundle_gas_used f = gas_estimator ->
  exists x, angstrom_payload globals s bundle f = Ret x.
Proof.
  intros H Hf. destruct bundle as [b|]; cbn [angstrom_payload].
  - rewrite Hf. unfold gas_estimator. destruct (ready_gas _ H (cs_type s) (build_tx s b f)) as [gas ->].
    cbn [mbind outcome_bind]. edestruct (build_ready _ (set_max_priority_fee_per_gas (with_gas_limit
      (build_tx s b f) (u64_wrap (u64_wrap (gas + EXTRA_GAS_LIMIT) + EXTRA_GAS_LIMIT))) 0) H) as [e ->]; [done|].
    by eexists.
  - unfold sign_and_encode, sign_attestation, build_and_sign_unlock.
    destruct (ready_sign _ H (eip712_signing_hash (target_block f))) as [sig ->].
    destruct (ready_globals _ H) as [[a ->] [c ->]]. cbn [mbind outcome_bind unwrap].
    match goal with |- context [build ?tx ?k] => destruct (build_ready k tx H) as [e ->]; [done|] end.
    by eexists.
Qed.

Lemma submit_ready bundle f s : submission_ready (cs_signer s) -> bundle_gas_used f = gas_estimator ->
  exists x, submit globals bundle f s = Ret x.
Proof.
  intros H Hf. unfold submit. destruct (cs_type s).
  1,3: destruct bundle as [b|]; [|by eexists]; destruct (with_gas_ready s b f H Hf) as [e He];
    cbn [mempool_submit mev_boost_submit]; rewrite He; by eexists.
  unfold angstrom_submit. destruct (payload_ready s bundle f H Hf) as [[hash p] ->]. by eexists.
Qed.

(** With a provider that answers, a submission ends and reports; without, it fails
    and has sent nothing. *)
Theorem submission_ends mempool angstrom mev_boost address signer bundle target : submission_ready signer ->
  match tx_features signer target with
  | Ok _ => exists sent results, submit_tx globals (new_handler mempool angstrom mev_boost address signer)
      signer bundle target = Ret (sent, Ok results)
  | Err error => submit_tx globals (new_handler mempool angstrom mev_boost address signer)
      signer bundle target = Ret ([], Err error)
  end.
Proof.
  intros H. unfold submit_tx. destruct (tx_features signer target) as [f|] eqn:Ef; [|done].
  assert (bundle_gas_used f = gas_estimator) as Hf.
  { unfold tx_features in Ef. destruct (get_transaction_count _ _); [|done].
    destruct estimate_eip1559_fees; [|done]. destruct get_chain_id; [|done]. by injection Ef as <-. }
  cbn [submitters new_handler mapM].
  do 3 match goal with |- context [submit globals bundle f ?s] =>
    destruct (submit_ready bundle f s H Hf) as [? ->] end.
  cbn [mbind outcome_bind mret outcome_ret]. by eexists _, _.
Qed.
End props.

(** ** Examples *)

(** Bundles are numbers, transactions are their requests; one mempool and one
    integrator that take what they get, and a builder that does not answer. *)
Definition sample_types : RoundLib :=
  {| Rounds.BaselinePoolState := unit; Rounds.AngstromBundle := Z |}.

Definition sample_transactions : TransactionLib (RL := sample_types) := {|
  TypedTransaction := TransactionRequest;
  execute_call := fun bundle : @AngstromBundle sample_types => [bundle];
  unlock_call := fun node sig => node :: sig;
  build_unsigned := fun tx => match tx_gas_limit tx with Some _ => Some tx | None => None end;
  signature_hash := fun tx => 10 * tx_nonce tx + tx_max_priority_fee_per_gas tx;
  signed_bytes := fun tx sig => tx_nonce tx :: sig_r sig :: tx_input tx;
  signed_hash := fun tx sig => 10 * tx_nonce tx + tx_max_priority_fee_per_gas tx
|}.

Definition sample_provider : Provider := {|
  get_transaction_count := fun _ block => Ok (block - 3);
  estimate_eip1559_fees := Ok {| max_fee_per_gas := 30; max_priority_fee_per_gas := 2 |};
  get_chain_id := Ok 1;
  provider_estimate_gas := fun _ _ => Ok 300000
|}.

Definition sample_json : JsonLib := {|
  Value := Z;
  json_get := fun _ _ => None;
  as_bool := fun _ => None;
  as_str := fun _ => None;
  as_u64 := fun v => Some v;
  is_null := fun _ => false;
  json_string := fun _ => ""%string
|}.

Definition sample_endpoints : Endpoints (JL := sample_json) := {|
  send_raw_transaction := fun _ _ _ => Ok 0;
  angstrom_submitBundle := fun _ _ _ => Ok (200 : @Value sample_json);
  eth_sendBundle := fun _ _ _ _ => Err "timeout"%string
|}.

Section examples.
#[local] Existing Instances sample_crypto sample_codec sample_types sample_transactions sample_provider.
#[local] Existing Instances sample_json sample_endpoints join_in_order.

Definition sample_node : AngstromSigner := new_signer (5 : @SecretKey sample_crypto).
Definition sample_globals : Globals := {| CHAIN_ID := Some 1; ANGSTROM_ADDRESS := Some 99 |}.
Definition sample_submission (bundle : option (@AngstromBundle sample_types)) :=
  submit_tx sample_globals (new_handler ["pool"%string] ["integrator"%string] ["builder"%string] 99 sample_node)
    sample_node bundle 10.

(** The transaction of the integrator, without a priority fee, is in the block. *)
Lemma landed_bundle_submitted_witness : exists sent results,
  sample_submission (Some 42) = Ret (sent, Ok results) /\
  exists m e req, m ∈ sent /\ accepted m = true /\ payload m = [encoded_2718 e] /\
    envelope_hash e ∈ [1; 60] /\ signed_as sample_node req e /\ tx_from req = signer_address sample_node /\
    tx_to req = 99 /\ tx_input req = execute_call (42 : @AngstromBundle sample_types) /\
    get_transaction_count (signer_address sample_node) (u64_wrap (10 - 1)) = Ok (tx_nonce req).
Proof.
  destruct (sample_submission (Some 42)) as [[sent [results|]]|] eqn:E;
    [|vm_compute in E; discriminate..].
  exists sent, results. split; [done|].
  refine (landed_bundle_submitted sample_globals _ _ _ _ _ _ _ _ _ _ E _).
  vm_compute in E. injection E as _ <-. vm_compute. reflexivity.
Defined.
End examples.
