(* ===== verification/UniswapExamples.v ===== *)
(** * Concrete pools

    A chain with three ticks of liquidity around the price 105, a pool that is read
    from it, and a manager of two pools, on which the theorems of the pools are
    instantiated. *)

From S2P Require Import Prelude Ray Orders Samples Rules StateValidation Accounts BlockSync Eth Pool Donation Book.
From S2P Require Import Uniswap UniswapProps UniswapManager UniswapManagerProps DeltaExamples.
Open Scope Z_scope.

(** The word and the bit of a compressed tick. *)
Definition word_and_bit : BitmapLib.
Proof. by refine {| position := fun t => (t / 256, t mod 256) |}. Defined.

(** The next tick, with its bit of the bitmap. *)
Definition bit_next (bm : gmap Z U256) (tick spacing : i32) (lte : bool) : option (i32 * bool) :=
  let t := if lte then tick else tick + 1 in
  Some (t, match bm !! (t / 256) with Some w => Z.testbit w (t mod 256) | None => false end).

Lemma bit_next_progress bm tick spacing (lte : bool) t init :
  bit_next bm tick spacing lte = Some (t, init) -> if lte then t <= tick else tick < t.
Proof. unfold bit_next. destruct lte; intros [= <- _]; lia. Qed.

Definition bit_ticks : TickLib := {|
  MIN_TICK := -10; MAX_TICK := 10; tick_range := @tick_range sample_ticks;
  get_sqrt_ratio_at_tick := sample_ratio; get_tick_at_sqrt_ratio := sample_tick;
  next_initialized_tick_within_one_word := bit_next; compute_swap_step := sample_step;
  ratio_defined := sample_ratio_defined; ratio_mono := sample_ratio_mono;
  tick_of_ratio := sample_tick_spec; next_tick_progress := bit_next_progress;
  step_price := @step_price sample_ticks; step_amounts := @step_amounts sample_ticks;
  step_consumed := @step_consumed sample_ticks
|}.

Definition chain_tick (t : i32) (gross net : Z) : TickData :=
  {| td_initialized := true; td_tick := t; td_liquidity_gross := gross; td_liquidity_net := net |}.

Definition chain_ticks : list TickData := [chain_tick (-4) 5 5; chain_tick 2 3 3; chain_tick 4 8 (-8)].

Definition sample_chain : gmap i32 TickInfo :=
  {[ -4 := info_of (chain_tick (-4) 5 5); 2 := info_of (chain_tick 2 3 3); 4 := info_of (chain_tick 4 8 (-8)) ]}.

(** A chain that answers for the spacing 1 only. *)
Definition sample_reader : ChainReader := {|
  call_pool_data _ _ _ _ _ := Some {| token0Decimals := 18; token1Decimals := 6; v4_liquidity := 5;
    v4_sqrtPrice := 105; v4_tick := 0; v4_liquidityNet := 0 |};
  call_tick_data _ _ dir _ _ spacing _ :=
    if spacing =? 1 then Some (if dir then reverse chain_ticks else chain_ticks, 3) else None
|}.

Definition fee_hasher : PoolHasher := {|
  keccak_pair := fun a b => 1000 * a + b;
  keccak_pool_key := fun k => (1000 * currency0 k + currency1 k) * 2 ^ 24 + pk_fee k
|}.

Definition key_a : PoolKey := key_of 77 1 2 30 1.
Definition key_b : PoolKey := key_of 77 1 3 50 1.

Section uniswap_examples.
#[local] Existing Instance iter_by_encoding.
#[local] Existing Instance arith_Z.
#[local] Existing Instance sample_ratios.
#[local] Existing Instance bit_ticks.
#[local] Existing Instance word_and_bit.
#[local] Existing Instance sample_reader.
#[local] Existing Instance fee_hasher.

Lemma loaded_sample (dir : bool) td : loaded (if dir then reverse chain_ticks else chain_ticks) td ->
  td ∈ chain_ticks.
Proof. intros [H _]. destruct dir; [by apply elem_of_reverse|done]. Qed.

Lemma sample_aligned : aligned_reads.
Proof.
  intros id m dir start n spacing block ticks valid. cbn. destruct (Z.eqb_spec spacing 1) as [->|]; [|done].
  intros [= <- <-] td Htd%loaded_sample. unfold chain_ticks in Htd. rewrite !elem_of_cons in Htd.
  destruct Htd as [->|[->|[->|?%not_elem_of_nil]]]; [..|done].
  all: split; [lia|]; split; [apply Z.divide_1_l|vm_compute; split; discriminate].
Qed.

Lemma sample_reads id block : reads_chain id block sample_chain.
Proof.
  intros m dir start n spacing ticks valid. cbn. destruct (_ =? _); [|done].
  intros [= <- <-] td Htd%loaded_sample. unfold chain_ticks in Htd. rewrite !elem_of_cons in Htd.
  by destruct Htd as [->|[->|[->|?%not_elem_of_nil]]].
Qed.

Definition sample_loader : DataLoader :=
  new_with_registry (private_id key_a) (public_id key_a) (registry_of [key_a]) 9.

Definition unread : EnhancedUniswapPool := fresh_pool sample_loader 6.

Definition updated_pool (o : outcome (EnhancedUniswapPool * result unit UniPoolError)) : EnhancedUniswapPool :=
  (value_of o (unread, Ok tt)).1.

Definition sample_v4 : EnhancedUniswapPool := updated_pool (update_to_block unread (Some 7)).

Definition fine (o : outcome (EnhancedUniswapPool * result unit UniPoolError)) : bool :=
  match o with Ret (_, Ok _) => true | _ => false end.

Lemma fine_updated o : fine o = true -> o = Ret (updated_pool o, Ok tt).
Proof. by destruct o as [[p [[]|]]|]. Qed.

Lemma sample_v4_is : update_to_block unread (Some 7) = Ret (sample_v4, Ok tt).
Proof. apply fine_updated. vm_compute. reflexivity. Qed.

Lemma sample_chain_ticks t : is_Some (sample_chain !! t) -> t = -4 \/ t = 2 \/ t = 4.
Proof.
  intros [info Ht]. unfold sample_chain in Ht. rewrite !lookup_insert_Some, lookup_singleton_Some in Ht.
  destruct Ht as [[-> _]|[_ [[-> _]|[_ [-> _]]]]]; auto.
Qed.

Lemma sample_chain_aligned t : is_Some (sample_chain !! t) -> aligned 1 t.
Proof.
  intros [-> | [-> | ->]]%sample_chain_ticks.
  all: split; [lia|]; split; [apply Z.divide_1_l|vm_compute; split; discriminate].
Qed.

Lemma updated_pool_mirrors_chain_witness :
  update_to_block unread (Some 7) = Ret (sample_v4, Ok tt) /\ block_number sample_v4 = 0 /\
  (token0 sample_v4, token1 sample_v4, book_fee sample_v4) = (1, 2, 30) /\ pool_price sample_v4 = 105 /\
  size (pool_ticks sample_v4) = 3%nat /\ pool_ticks sample_v4 ⊆ sample_chain.
Proof.
  destruct (updated_pool_mirrors_chain sample_chain unread (Some 7) sample_v4 sample_v4_is) as (_ & H & Hb).
  - apply sample_reads.
  - intros t Ht. replace (pool_spacing sample_v4) with 1 by (vm_compute; reflexivity). by apply sample_chain_aligned.
  - split; [exact sample_v4_is|]. split; [exact Hb|]. split; [vm_compute; reflexivity|].
    split; [vm_compute; reflexivity|]. split; [vm_compute; reflexivity|].
    destruct H as (s & c & asks & s' & c' & bids & _ & _ & M). exact (mi_values _ _ _ M).
Defined.

Lemma update_succeeds_witness : exists p', update_to_block unread (Some 7) = Ret (p', Ok tt).
Proof.
  apply (update_succeeds unread (Some 7) (registry_of [key_a]) key_a 9
    {| token0Decimals := 18; token1Decimals := 6; v4_liquidity := 5; v4_sqrtPrice := 105; v4_tick := 0;
       v4_liquidityNet := 0 |}).
  - reflexivity.
  - vm_compute. reflexivity.
  - reflexivity.
  - reflexivity.
  - split; discriminate.
  - vm_compute. discriminate.
  - vm_compute. split; [reflexivity|discriminate].
  - vm_compute. split; discriminate.
  - vm_compute. discriminate.
  - intros dir start n. exists (if dir then reverse chain_ticks else chain_ticks), 3. split; [reflexivity|].
    split; [vm_compute; discriminate|]. intros td Htd.
    assert (td ∈ chain_ticks) as H by (destruct dir; [by apply elem_of_reverse|exact Htd]).
    unfold chain_ticks in H. rewrite !elem_of_cons in H.
    destruct H as [->|[->|[->|?%not_elem_of_nil]]]; [..|done]; vm_compute; split; discriminate.
Defined.

Lemma lowest_ratio : get_sqrt_ratio_at_tick MIN_TICK = Some MIN_SQRT_RATIO.
Proof. vm_compute. reflexivity. Qed.
Lemma highest_ratio : get_sqrt_ratio_at_tick MAX_TICK = Some MAX_SQRT_RATIO.
Proof. vm_compute. reflexivity. Qed.

Lemma simulation_ends_witness : is_Some (simulate_swap_run sample_v4 1 60 None false).
Proof.
  apply (simulation_ends lowest_ratio highest_ratio sample_v4 1 60 None false).
  - vm_compute. split; discriminate.
  - vm_compute. split; [reflexivity|discriminate].
Defined.

Definition sample_snapshot : BaselinePoolState :=
  default sample_pool (snapshot_of sample_v4).

Lemma sample_snapshot_is : fetch_pool_snapshot sample_v4 = Ok (1, 2, sample_snapshot).
Proof. vm_compute. reflexivity. Qed.

Lemma sample_v4_in_range : in_range (pool_ticks sample_v4).
Proof.
  intros t. assert (pool_ticks sample_v4 = sample_chain) as -> by (vm_compute; reflexivity).
  intros [-> | [-> | ->]]%sample_chain_ticks.
  all: vm_compute; split; discriminate.
Qed.

Lemma simulation_agrees_witness :
  let r := returned (swap_current_with_amount sample_snapshot 60 true) (noop sample_snapshot) in
  swap_current_with_amount sample_snapshot 60 true = Ret (Ok r) /\ end_price r = 93 /\ total_d_t1 r = 60 /\
  exists x, simulate_swap_run sample_v4 (token0 sample_v4) 60 None false = Some (Ok x) /\
    sim_end_price x = end_price r /\ sim_end_tick x = result_end_tick r.
Proof.
  set (r := returned (swap_current_with_amount sample_snapshot 60 true) (noop sample_snapshot)).
  assert (swap_current_with_amount sample_snapshot 60 true = Ret (Ok r)) as Hr
    by (apply succeeds_returned; vm_compute; reflexivity).
  split; [exact Hr|]. split; [vm_compute; reflexivity|]. split; [vm_compute; reflexivity|].
  destruct (simulation_agrees lowest_ratio highest_ratio sample_v4 1 2 sample_snapshot true 60 r
    sample_snapshot_is) as (x & Hx & H1 & H2 & _).
  - vm_compute. discriminate.
  - exact sample_v4_in_range.
  - vm_compute. split; discriminate.
  - vm_compute. split; [reflexivity|discriminate].
  - discriminate.
  - vm_compute. reflexivity.
  - vm_compute. reflexivity.
  - exact Hr.
  - exists x. split; [exact Hx|]. split; [exact H1|exact H2].
Defined.

(** ** The manager *)

Definition sample_factory : V4PoolFactory := {| fac_registry := registry_of [key_a]; fac_manager := 9 |}.

Definition no_manager : UniswapPoolManager :=
  {| factory := sample_factory; manager_pools := ∅; latest_synced_block := 0 |}.

Definition first_manager : UniswapPoolManager := value_of (manager_new 6 sample_factory 7) no_manager.

Lemma first_manager_is : manager_new 6 sample_factory 7 = Ret first_manager.
Proof. apply returns_value. vm_compute. reflexivity. Qed.

Lemma first_manager_ok : manager_ok first_manager.
Proof.
  destruct (manager_new_ok 6 sample_aligned sample_factory 7 first_manager (registry_of_ok [key_a]) first_manager_is)
    as [H _]. exact H.
Qed.

(** A pool is added, a block comes, the first pool is removed and more ticks of the
    other are asked for. *)
Definition sample_inputs : list (ChainReader * manager_input) :=
  [ (sample_reader, InEvent (NewPool key_b)); (sample_reader, InBlock (ManagerBlock 8));
    (sample_reader, InEvent (RemovedPool key_a));
    (sample_reader, InTicks {| range_pool_id := public_id key_b; range_start_tick := -4; zfo := true; tick_count := 20 |}) ].

Definition last_manager : UniswapPoolManager * list GlobalBlockState :=
  value_of (handle_inputs 6 first_manager sample_inputs) (no_manager, []).

Lemma last_manager_is : handle_inputs 6 first_manager sample_inputs = Ret last_manager.
Proof. apply returns_value. vm_compute. reflexivity. Qed.

Lemma sample_steady : steady ∅ (history [key_a] sample_inputs.*2).
Proof.
  cbn. split_and!; done.
Qed.

Lemma sample_distinct : distinct_ids (omap key_of_event (history [key_a] sample_inputs.*2)).
Proof.
  assert (omap key_of_event (history [key_a] sample_inputs.*2) = [key_a; key_b; key_a]) as -> by reflexivity.
  assert (forall k, k ∈ [key_a; key_b; key_a] -> k = key_a \/ k = key_b) as Hk by set_solver.
  intros k k' [->| ->]%Hk [->| ->]%Hk E; [reflexivity| | |reflexivity]; vm_compute in E; discriminate E.
Qed.

Lemma pools_follow_configuration_witness :
  manager_new 6 sample_factory 7 = Ret first_manager /\
  handle_inputs 6 first_manager sample_inputs = Ret last_manager /\ last_manager.2 = [PendingProgression 8] /\
  contract_store (history [key_a] sample_inputs.*2) !! (1, 3) = Some key_b /\
  exists p b, manager_pools last_manager.1 !! public_id key_b = Some p /\
    fetch_pool_snapshot p = Ok (1, 3, b) /\ fetch_pool_snapshots last_manager.1 !! public_id key_b = Some b /\
    pool_fee b = 50.
Proof.
  split; [exact first_manager_is|]. split; [exact last_manager_is|]. split; [vm_compute; reflexivity|].
  assert (contract_store (history [key_a] sample_inputs.*2) !! (1, 3) = Some key_b) as Hk by (vm_compute; reflexivity).
  split; [exact Hk|].
  destruct (pools_follow_configuration 6 sample_reader [key_a] 9 7 first_manager sample_inputs last_manager.1
    last_manager.2 sample_aligned) as [_ H].
  - repeat (apply Forall_cons; split; [exact sample_aligned|]). apply Forall_nil. exact I.
  - exact first_manager_is.
  - rewrite last_manager_is. destruct last_manager. reflexivity.
  - exact sample_steady.
  - exact sample_distinct.
  - destruct (H (1, 3) key_b Hk) as (p & b & H1 & H2 & H3 & H4 & _).
    exists p, b. split; [exact H1|]. split; [exact H2|]. split; [exact H3|exact H4].
Defined.

(** The tokens of the first pool, configured with another fee. *)
Definition key_a_again : PoolKey := key_of 77 1 2 40 1.

Definition reconfigured : UniswapPoolManager := value_of (handle_event 6 first_manager (NewPool key_a_again)) no_manager.

Lemma reconfigured_is : handle_event 6 first_manager (NewPool key_a_again) = Ret reconfigured.
Proof. apply returns_value. vm_compute. reflexivity. Qed.

Lemma reconfigured_pool_kept_witness :
  is_Some (fetch_pool_snapshots reconfigured !! public_id key_a) /\
  is_Some (fetch_pool_snapshots reconfigured !! public_id key_a_again).
Proof.
  destruct (reconfigured_pool_kept 6 sample_reader first_manager key_a key_a_again reconfigured first_manager_ok
    sample_aligned) as (H1 & H2 & _).
  - vm_compute. reflexivity.
  - reflexivity.
  - vm_compute. discriminate.
  - exact reconfigured_is.
  - split; [exact H1|exact H2].
Defined.

Definition after_block : UniswapPoolManager * list GlobalBlockState :=
  value_of (handle_new_block_info first_manager (ManagerBlock 8)) (no_manager, []).

Lemma after_block_is : handle_new_block_info first_manager (ManagerBlock 8) = Ret after_block.
Proof. apply returns_value. vm_compute. reflexivity. Qed.

Lemma block_brings_pools_to_chain_witness :
  handle_new_block_info first_manager (ManagerBlock 8) = Ret after_block /\
  latest_synced_block after_block.1 = 8 /\ after_block.2 = [PendingProgression 8] /\
  exists p, manager_pools after_block.1 !! public_id key_a = Some p /\ pool_ticks p ⊆ sample_chain.
Proof.
  split; [exact after_block_is|].
  destruct (block_brings_pools_to_chain sample_reader (fun _ => sample_chain) first_manager (ManagerBlock 8)
    after_block.1 after_block.2 first_manager_ok sample_aligned) as (H1 & H2 & _ & H4).
  - intros id. apply sample_reads.
  - rewrite after_block_is. destruct after_block. reflexivity.
  - split; [exact H1|]. split; [exact H2|].
    destruct (H4 (public_id key_a) key_a) as (p & v & Hp & _ & _ & Ht & _); [vm_compute; reflexivity|].
    exists p. split; [exact Hp|exact Ht].
Defined.

Lemma removal_exact_witness :
  match handle_event 6 first_manager (RemovedPool key_a) with
  | Panic => reg_pools (fac_registry (factory first_manager)) !! public_id key_a = None
  | Ret m' => is_Some (reg_pools (fac_registry (factory first_manager)) !! public_id key_a) /\ manager_ok m' /\
      manager_pools m' = delete (public_id key_a) (manager_pools first_manager)
  end.
Proof. apply (removal_exact 6 sample_reader first_manager key_a first_manager_ok). Defined.

(** ** Rewards *)

Definition sample_bid : OrderWithStorageData TopOfBlockOrder := sample_top.

Lemma reward_search_ends_witness :
  exists k res reqs, calculate_rewards (fun _ => {[ public_id key_a := sample_v4 ]}) (public_id key_a) sample_bid =
    Ret (res, reqs) /\ (k < 5)%nat.
Proof.
  destruct (reward_search_ends (fun _ => {[ public_id key_a := sample_v4 ]}) (public_id key_a) sample_bid)
    as (k & res & reqs & H1 & H2 & _).
  - intros j. exists sample_v4. split; [apply lookup_singleton_eq|]. split.
    + exists (value_of (reward_of sample_bid sample_v4) (Ok 0)). apply returns_value. vm_compute. reflexivity.
    + intros E. assert (size (pool_ticks sample_v4) = 3%nat) as Hs by (vm_compute; reflexivity).
      rewrite E, map_size_empty in Hs. discriminate Hs.
  - exists k, res, reqs. split; [exact H1|exact H2].
Defined.
End uniswap_examples.
