(* ===== verification/Sessions.v ===== *)
(** * Sessions with peers

    The model of [crates/angstrom-net/src/types] (messages, their identifiers and the
    status) and of [session/strom]: how a session starts with a signed status, runs,
    and shuts down.  What the channels have ready at a poll, and the clock, are
    inputs. *)

From S2P Require Import Prelude Ray Orders Samples Storage ConsensusTypes.
From S2P Require Indexer.
Open Scope Z_scope.

(** ** Messages *)

Inductive StromMessageID :=
| IdStatus
| IdPrePropose
| IdPreProposeAgg
| IdPropose
| IdBundleUnlockAttestation
| IdPropagatePooledOrders
| IdOrderCancellation.

#[export] Instance StromMessageID_eq_dec : EqDecision StromMessageID.
Proof. solve_decision. Defined.

Record StatusState := {
  st_version : Z;
  st_chain : u64;
  st_peer : PeerId;
  st_timestamp : u128
}.

Record Status := { status_state : StatusState; status_signature : Signature }.

Inductive StromMessage :=
| MStatus (s : Status)
| MPrePropose (p : PreProposal)
| MPreProposeAgg (a : PreProposalAggregation)
| MPropose (p : Proposal)
| MBundleUnlockAttestation (block : u64) (bytes : Bytes)
| MPropagatePooledOrders (orders : list AllOrders)
| MOrderCancellation (request : Indexer.CancelOrderRequest).

Definition message_id (m : StromMessage) : StromMessageID :=
  match m with
  | MStatus _ => IdStatus
  | MPrePropose _ => IdPrePropose
  | MPreProposeAgg _ => IdPreProposeAgg
  | MPropose _ => IdPropose
  | MBundleUnlockAttestation _ _ => IdBundleUnlockAttestation
  | MPropagatePooledOrders _ => IdPropagatePooledOrders
  | MOrderCancellation _ => IdOrderCancellation
  end.

Record StromProtocolMessage := { proto_id : StromMessageID; proto_message : StromMessage }.

(** [self as u8]. *)
Definition encode_id (id : StromMessageID) : Z :=
  match id with
  | IdStatus => 0
  | IdPrePropose => 1
  | IdPreProposeAgg => 2
  | IdPropose => 3
  | IdBundleUnlockAttestation => 4
  | IdPropagatePooledOrders => 5
  | IdOrderCancellation => 6
  end.

(** The identifier of the first byte; 3 is read as a pre-proposal. *)
Definition decode_id (b : Z) : option StromMessageID :=
  if b =? 0 then Some IdStatus
  else if b =? 1 then Some IdPrePropose
  else if b =? 2 then Some IdPreProposeAgg
  else if b =? 3 then Some IdPrePropose
  else if b =? 4 then Some IdBundleUnlockAttestation
  else if b =? 5 then Some IdPropagatePooledOrders
  else if b =? 6 then Some IdOrderCancellation
  else None.

(** What the messages use of [bincode] and of [alloy_rlp]: both decode what they
    encode, the latter up to the bytes that follow. *)
Class WireLib : Type := {
  bincode_message : StromMessage -> Bytes;
  bincode_decode : Bytes -> option StromMessage;
  bincode_roundtrip : forall m, bincode_decode (bincode_message m) = Some m;
  rlp_encode : Bytes -> Bytes;
  rlp_decode : Bytes -> option (Bytes * Bytes);
  rlp_roundtrip : forall b rest, rlp_decode (rlp_encode b ++ rest) = Some (b, rest)
}.

Section wire.
Context `{WL : WireLib}.

Definition encode (m : StromProtocolMessage) : Bytes :=
  encode_id (proto_id m) :: rlp_encode (bincode_message (proto_message m)).

(** [bincode::deserialize(..).unwrap()] panics. *)
Definition decode_message (buf : Bytes) : outcome (option StromProtocolMessage) :=
  match buf with
  | [] => Ret None
  | b :: rest =>
      match decode_id b with
      | None => Ret None
      | Some id =>
          match rlp_decode rest with
          | None => Ret None
          | Some (data, _) =>
              m ← unwrap (bincode_decode data);
              Ret (Some {| proto_id := id; proto_message := m |})
          end
      end
  end.

Definition protocol_message (m : StromMessage) : StromProtocolMessage :=
  {| proto_id := message_id m; proto_message := m |}.
End wire.

(** ** The status *)

Section status.
Context `{CC : ConsensusCrypto}.

Definition status_payload (s : StatusState) : Bytes :=
  to_be_bytes 1 (st_version s) ++ to_be_bytes 8 (st_chain s) ++ peer_id_bytes (st_peer s) ++
  to_be_bytes 16 (st_timestamp s).

Definition to_message (s : StatusState) : B256 := keccak256 (status_payload s).

(** [Status::verify]: the recovery is unwrapped. *)
Definition verify_status (s : Status) : outcome PeerId :=
  key ← unwrap (recover_from_prehash (status_signature s) (to_message (status_state s)));
  Ret (public_key_to_peer_id key).

(** The last twenty bytes of the hash of the identifier. *)
Definition peer_address (p : PeerId) : Address := keccak256 (peer_id_bytes p) mod 2 ^ 160.

Record VerificationSidecar := {
  sc_key : AngstromSigner;
  sc_status : StatusState;
  has_sent : bool;
  has_received : bool
}.

Definition with_peer (s : StatusState) (peer : PeerId) : StatusState :=
  {| st_version := st_version s; st_chain := st_chain s; st_peer := peer; st_timestamp := st_timestamp s |}.

Definition with_timestamp (s : StatusState) (now : u128) : StatusState :=
  {| st_version := st_version s; st_chain := st_chain s; st_peer := st_peer s; st_timestamp := now |}.

(** [StatusBuilder::build]. *)
Definition build_status (now : u128) (s : StatusState) (key : AngstromSigner) : outcome Status :=
  let s := with_timestamp s now in
  sig ← unwrap (sign_hash_sync (signer_key key) (to_message s));
  Ret {| status_state := s; status_signature := sig |}.

Definition make_status_message (now : u128) (c : VerificationSidecar) (peer : PeerId) : outcome Status :=
  if has_sent c then Panic else build_status now (with_peer (sc_status c) peer) (sc_key c).

Definition is_verified (c : VerificationSidecar) : bool := has_sent c && has_received c.

Definition STATUS_TIMESTAMP_TIMEOUT_MS : u128 := 1500.

Definition verify_incoming_status (now : u128) (valid_nodes : gset Address) (s : Status) : outcome bool :=
  let status_time := u128_wrap (st_timestamp (status_state s) + STATUS_TIMESTAMP_TIMEOUT_MS) in
  peer ← verify_status s;
  Ret ((now <=? status_time) && bool_decide (peer_address peer ∈ valid_nodes)).
End status.

(** ** The session *)

Inductive SessionCommand :=
| CmdDisconnect
| CmdMessage (m : StromMessage).

(** The handle that the manager gets: the peer and the channel of the commands. *)
Record StromSessionHandle := { remote_id : PeerId; commands_to_session : Z }.

Inductive StromSessionMessage :=
| SEstablished (handle : StromSessionHandle)
| SDisconnected (peer : PeerId)
| SClosedOnConnectionError (peer : PeerId)
| SValidMessage (peer : PeerId) (m : StromProtocolMessage)
| SBadMessage (peer : PeerId)
| SProtocolBreach (peer : PeerId).

(** What a sender says when a slot is asked for. *)
Inductive Reserve := Reserved | ChannelClosed | ReservePending.

(** What is ready at a poll: the clock, a slot for the manager and how many more
    there are, the commands and the bytes of the connection, each with whether the
    channel is closed behind them. *)
Record SessionInput := {
  si_now : u128;
  si_reserve : Reserve;
  si_capacity : nat;
  si_commands : list SessionCommand;
  si_commands_closed : bool;
  si_conn : list Bytes;
  si_conn_closed : bool
}.

Inductive Polled :=
| Bytes_out (b : Bytes)
| Finished
| Waiting.

Section session.
Context `{WL : WireLib} `{CC : ConsensusCrypto}.

Record StromStartup := {
  verification_sidecar : VerificationSidecar;
  handle : option StromSessionHandle;
  startup_peer : PeerId;
  shutdown : bool;
  valid_nodes : gset Address
}.

Record RegularProcessing := {
  regular_peer : PeerId;
  manager_buffer : list StromSessionMessage
}.

(** [to_session_manager] is dropped once the end was reported. *)
Record Shutdown := { shutdown_peer : PeerId; reported : bool }.

Inductive StromSessionStates :=
| InStartup (s : StromStartup)
| InRegular (s : RegularProcessing)
| InShutdown (s : Shutdown)
| InDummy.

Implicit Types (i : SessionInput).

(** *** Startup *)

Definition set_handle (s : StromStartup) h : StromStartup :=
  {| verification_sidecar := verification_sidecar s; handle := h; startup_peer := startup_peer s;
     shutdown := shutdown s; valid_nodes := valid_nodes s |}.
Definition set_shutdown (s : StromStartup) b : StromStartup :=
  {| verification_sidecar := verification_sidecar s; handle := handle s; startup_peer := startup_peer s;
     shutdown := b; valid_nodes := valid_nodes s |}.
Definition mark_sent (s : StromStartup) : StromStartup :=
  let c := verification_sidecar s in
  {| verification_sidecar := {| sc_key := sc_key c; sc_status := sc_status c; has_sent := true;
                                has_received := has_received c |};
     handle := handle s; startup_peer := startup_peer s; shutdown := shutdown s; valid_nodes := valid_nodes s |}.

Definition manager_has_handle (s : StromStartup) i : StromStartup * list StromSessionMessage * bool :=
  match handle s with
  | None => (s, [], true)
  | Some h =>
      match si_reserve i with
      | Reserved => (set_handle s None, [SEstablished h], true)
      | _ => (s, [], false)
      end
  end.

(** The first message has to be a status. *)
Definition status_accepted (s : StromStartup) (now : u128) (data : Bytes) : outcome bool :=
  msg ← decode_message data;
  match msg with
  | Some m =>
      match proto_message m with
      | MStatus st => verify_incoming_status now (valid_nodes s) st
      | _ => Ret false
      end
  | None => Ret false
  end.

Definition handle_verification (s : StromStartup) i : outcome (StromStartup * Polled) :=
  if negb (has_sent (verification_sidecar s)) then
    st ← make_status_message (si_now i) (verification_sidecar s) (startup_peer s);
    Ret (mark_sent s, Bytes_out (encode (protocol_message (MStatus st))))
  else
    match si_conn i with
    | data :: _ => ok ← status_accepted s (si_now i) data; Ret (set_shutdown s (negb ok), Finished)
    | [] => Ret (if si_conn_closed i then (set_shutdown s true, Finished) else (s, Waiting))
    end.

Definition startup_poll (s : StromStartup) i : outcome (StromStartup * list StromSessionMessage * Polled) :=
  let '(s, out, has) := manager_has_handle s i in
  if negb has then Ret (s, out, Waiting)
  else '(s, res) ← handle_verification s i; Ret (s, out, res).

(** *** Regular processing *)

(** The session message of the bytes of a peer. *)
Definition session_message (peer : PeerId) (b : Bytes) : outcome StromSessionMessage :=
  msg ← decode_message b;
  Ret match msg with Some m => SValidMessage peer m | None => SBadMessage peer end.

(** The loop over the connection.  [None]: it does not return, since a closed
    connection is ready with nothing each time it is polled. *)
Fixpoint read_conn (peer : PeerId) (l : list Bytes) (closed : bool) (buf : list StromSessionMessage)
    : option (outcome (list StromSessionMessage * bool)) :=
  match l with
  | [] =>
      if closed then match buf with [] => Some (Ret ([], true)) | _ => None end
      else Some (Ret (buf, false))
  | b :: l' =>
      match session_message peer b with
      | Panic => Some Panic
      | Ret m => read_conn peer l' closed (buf ++ [m])
      end
  end.

(** Items are sent as long as there are slots. *)
Definition send_to_manager (buf : list StromSessionMessage) (capacity : nat)
    : list StromSessionMessage * list StromSessionMessage := (drop capacity buf, take capacity buf).

Definition regular_poll (s : RegularProcessing) i
    : option (outcome (RegularProcessing * list StromSessionMessage * Polled)) :=
  match si_commands i with
  | CmdDisconnect :: _ => Some (Ret (s, [], Finished))
  | CmdMessage m :: _ => Some (Ret (s, [], Bytes_out (encode (protocol_message m))))
  | [] =>
      if si_commands_closed i then Some (Ret (s, [], Finished))
      else
        match read_conn (regular_peer s) (si_conn i) (si_conn_closed i) (manager_buffer s) with
        | None => None
        | Some Panic => Some Panic
        | Some (Ret (_, true)) => Some (Ret (s, [], Finished))
        | Some (Ret (buf, false)) =>
            let '(buf, out) := send_to_manager buf (si_capacity i) in
            Some (Ret ({| regular_peer := regular_peer s; manager_buffer := buf |}, out, Waiting))
        end
  end.

(** *** Shutdown *)

Definition shutdown_poll (s : Shutdown) i : Shutdown * list StromSessionMessage * Polled :=
  if reported s then (s, [], if si_commands_closed i then Finished else Waiting)
  else
    match si_reserve i with
    | Reserved => ({| shutdown_peer := shutdown_peer s; reported := true |}, [SDisconnected (shutdown_peer s)], Waiting)
    | _ => (s, [], Waiting)
    end.

(** *** The states together *)

Definition poll_outbound_msg (s : StromSessionStates) i
    : option (outcome (StromSessionStates * list StromSessionMessage * Polled)) :=
  match s with
  | InStartup s => Some ('(s, out, res) ← startup_poll s i; Ret (InStartup s, out, res))
  | InRegular s =>
      match regular_poll s i with
      | None => None
      | Some o => Some ('(s, out, res) ← o; Ret (InRegular s, out, res))
      end
  | InShutdown s => let '(s, out, res) := shutdown_poll s i in Some (Ret (InShutdown s, out, res))
  | InDummy => Some (Ret (InDummy, [], Finished))
  end.

Definition poll_next_state (s : StromSessionStates) : option StromSessionStates :=
  match s with
  | InStartup s =>
      Some (if shutdown s then InShutdown {| shutdown_peer := startup_peer s; reported := false |}
            else InRegular {| regular_peer := startup_peer s; manager_buffer := [] |})
  | InRegular s => Some (InShutdown {| shutdown_peer := regular_peer s; reported := false |})
  | InShutdown _ | InDummy => None
  end.

(** One poll of the session: its state, what it reports to the manager, and what it
    says to the connection; it is [Finished] when the session is over. *)
Definition session_poll (s : StromSessionStates) i
    : option (outcome (StromSessionStates * list StromSessionMessage * Polled)) :=
  match poll_outbound_msg s i with
  | None => None
  | Some Panic => Some Panic
  | Some (Ret (s, out, Finished)) =>
      Some (Ret match poll_next_state s with
                | None => (InDummy, out, Finished)
                | Some s' => (s', out, Waiting)
                end)
  | Some (Ret (s, out, res)) => Some (Ret (s, out, res))
  end.

(** [StromSessionHandler::new]. *)
Definition new_session (c : VerificationSidecar) (h : StromSessionHandle) (nodes : gset Address) : StromSessionStates :=
  InStartup {| verification_sidecar := c; handle := Some h; startup_peer := remote_id h; shutdown := false;
               valid_nodes := nodes |}.

(** The reports of a session over its polls, until it is over. *)
Fixpoint session_run (s : StromSessionStates) (l : list SessionInput)
    : option (outcome (StromSessionStates * list StromSessionMessage)) :=
  match l with
  | [] => Some (Ret (s, []))
  | i :: l' =>
      match session_poll s i with
      | None => None
      | Some Panic => Some Panic
      | Some (Ret (s, out, Finished)) => Some (Ret (s, out))
      | Some (Ret (s, out, _)) =>
          match session_run s l' with
          | None => None
          | Some Panic => Some Panic
          | Some (Ret (s, out')) => Some (Ret (s, out ++ out'))
          end
      end
  end.
End session.
