(* ===== verification/SessionsProps.v ===== *)
(** * Correctness of the sessions

    A message is decoded to itself; a session reports what a peer sends only after
    the peer has shown the signature of a validator; and the reports of a session
    open and close it once. *)

From S2P Require Import Prelude Ray Orders Samples Storage ConsensusTypes Sessions.
From S2P Require Indexer.
Open Scope Z_scope.

Section session_props.
Context `{WL : WireLib} `{CC : ConsensusCrypto}.
Implicit Types (i : SessionInput) (s : StromSessionStates).

(** ** Messages *)

Lemma decode_encode m : decode_message (encode (protocol_message m)) =
  Ret (Some {| proto_id := match m with MPropose _ => IdPrePropose | _ => message_id m end; proto_message := m |}).
Proof.
  unfold encode, decode_message, protocol_message. cbn [proto_id proto_message].
  pose proof (rlp_roundtrip (bincode_message m) []) as Hr. rewrite app_nil_r in Hr.
  destruct m; cbn [message_id encode_id decode_id]; by rewrite Hr, bincode_roundtrip.
Qed.

(** What is sent is what is received: the bytes of a message decode to the message.
    Its identifier is kept as well, except that a proposal arrives with the
    identifier of a pre-proposal. *)
Theorem message_roundtrip m : exists id,
  decode_message (encode (protocol_message m)) = Ret (Some {| proto_id := id; proto_message := m |}) /\
  (id = message_id m <-> message_id m <> IdPropose).
Proof.
  rewrite decode_encode. eexists. split; [done|]. by destruct m.
Qed.

(** ** The handshake *)

(** A peer shows, in the first message of the input, a status that a validator signed
    and that has not expired. *)
Definition proves (nodes : gset Address) i : Prop :=
  exists data rest m st key, si_conn i = data :: rest /\ decode_message data = Ret (Some m) /\
    proto_message m = MStatus st /\
    recover_from_prehash (status_signature st) (to_message (status_state st)) = Some key /\
    peer_address (public_key_to_peer_id key) ∈ nodes /\
    si_now i <= u128_wrap (st_timestamp (status_state st) + STATUS_TIMESTAMP_TIMEOUT_MS).

(** What a peer has sent. *)
Definition content (x : StromSessionMessage) : bool :=
  match x with SValidMessage _ _ | SBadMessage _ => true | _ => false end.

Definition nodes_of s : option (gset Address) :=
  match s with InStartup st => Some (valid_nodes st) | _ => None end.

Definition is_regular s : bool := match s with InRegular _ => true | _ => false end.

Lemma accepted_proves st i data rest : si_conn i = data :: rest -> status_accepted st (si_now i) data = Ret true ->
  proves (valid_nodes st) i.
Proof.
  intros Hc (msg & Hd & H)%bind_Ret. destruct msg as [m|]; [|done]. destruct (proto_message m) as [x| | | | | |] eqn:Em; try done.
  apply bind_Ret in H as (peer & (key & Hk%unwrap_Ret & [= <-])%bind_Ret & [= H]).
  apply andb_true_iff in H as [Ht%Z.leb_le Hn%bool_decide_eq_true]. by exists data, rest, m, x, key.
Qed.

(** One poll in the startup: nothing of the peer is reported, and the session goes on
    only if the peer has proved itself. *)
Lemma startup_step st i s' out res : session_poll (InStartup st) i = Some (Ret (s', out, res)) ->
  Forall (fun x => content x = false) out /\
  (nodes_of s' = Some (valid_nodes st) \/ (exists p r, s' = InShutdown {| shutdown_peer := p; reported := r |}) \/
   is_regular s' = true /\ proves (valid_nodes st) i).
Proof.
  unfold session_poll, poll_outbound_msg, startup_poll, manager_has_handle. intros H.
  assert (exists st' out', valid_nodes st' = valid_nodes st /\ Forall (fun x => content x = false) out' /\
    ((s', out, res) = (InStartup st', out', Waiting) \/
     exists st'' r, handle_verification st' i = Ret (st'', r) /\
       (r = Finished /\ (s', out, res) =
          (if shutdown st'' then InShutdown {| shutdown_peer := startup_peer st''; reported := false |}
           else InRegular {| regular_peer := startup_peer st''; manager_buffer := [] |}, out', Waiting) \/
        r <> Finished /\ (s', out, res) = (InStartup st'', out', r)))) as (st' & out' & En & Hout & Hcase).
  { destruct (handle st) as [h|]; [destruct (si_reserve i)|]; cbn [negb] in H;
      [exists (set_handle st None), [SEstablished h]|exists st, []; (split_and!; [done..|]); left; by injection H as <- <- <-..|exists st, []];
      (split_and!; [done|by repeat constructor|]); right.
    all: destruct (handle_verification _ i) as [[st'' r]|] eqn:E; [|done]; cbn in H; exists st'', r; (split; [done|]);
      destruct r; injection H as <- <- <-; auto. all: right; by split. }
  destruct Hcase as [[= -> -> ->]|(st'' & r & Hv & Hcase)]; [split; [done|]; left; cbn; by rewrite En|].
  assert (valid_nodes st'' = valid_nodes st' /\ (r = Finished -> shutdown st'' = false -> proves (valid_nodes st') i)) as [En' Hp].
  { unfold handle_verification in Hv. destruct (negb _).
    - apply bind_Ret in Hv as (x & _ & [= <- <-]). done.
    - destruct (si_conn i) as [|data rest] eqn:Ec.
      + destruct (si_conn_closed i); by injection Hv as <- <-.
      + apply bind_Ret in Hv as (ok & Hok & [= <- <-]). split; [done|]. cbn. intros _ Hs%negb_false_iff. subst ok.
        by eapply accepted_proves. }
  destruct Hcase as [[-> [= -> -> ->]]|[_ [= -> -> ->]]]; (split; [done|]).
  - destruct (shutdown st'') eqn:Es; [right; left; by eexists _, _|]. right. right. split; [done|]. rewrite <- En. auto.
  - left. cbn. by rewrite En', En.
Qed.

Lemma shutdown_step x i s' out res : session_poll (InShutdown x) i = Some (Ret (s', out, res)) ->
  Forall (fun y => content y = false) out /\ ((exists x', s' = InShutdown x') \/ s' = InDummy).
Proof.
  unfold session_poll, poll_outbound_msg, shutdown_poll.
  destruct (reported x); [destruct (si_commands_closed i)|destruct (si_reserve i)]; cbn; intros [= <- <- <-];
    (split; [by repeat constructor|]); eauto.
Qed.

Lemma quiet_run s l s' out : ((exists x, s = InShutdown x) \/ s = InDummy) ->
  session_run s l = Some (Ret (s', out)) -> Forall (fun y => content y = false) out.
Proof.
  revert s s' out. induction l as [|i l IH]; intros s s' out Hs; cbn [session_run]; [intros [= <- <-]; constructor|].
  destruct (session_poll s i) as [[[[s1 o1] r1]|]|] eqn:E; [|done..].
  assert (Forall (fun y => content y = false) o1 /\ ((exists x', s1 = InShutdown x') \/ s1 = InDummy)) as [Ho Hs1].
  { destruct Hs as [[x ->]| ->]; [by eapply shutdown_step|]. injection E as <- <- <-. split; [constructor|by right]. }
  destruct r1; [| intros [= <- <-]; done|].
  all: destruct (session_run s1 l) as [[[s2 o2]|]|] eqn:E2; [|done..]; intros [= <- <-]; apply Forall_app; split; [done|].
  all: by eapply IH.
Qed.

Lemma startup_run st l s' out : session_run (InStartup st) l = Some (Ret (s', out)) ->
  (exists x, x ∈ out /\ content x = true) -> exists i, i ∈ l /\ proves (valid_nodes st) i.
Proof.
  revert st s' out. induction l as [|i l IH]; intros st s' out; cbn [session_run].
  - intros [= <- <-] (x & ?%not_elem_of_nil & _). done.
  - destruct (session_poll _ i) as [[[[s1 o1] r1]|]|] eqn:E; [|done..]. apply startup_step in E as [Ho Hs1].
    assert (forall o2 x, x ∈ o1 ++ o2 -> content x = true -> x ∈ o2) as Hin.
    { intros o2 x [Hx|Hx]%elem_of_app Hc; [|done]. eapply Forall_forall in Ho; [|exact Hx]. cbn in Ho. congruence. }
    destruct r1.
    2: { intros [= <- <-] (x & Hx & Hc). rewrite <- (app_nil_r o1) in Hx. by apply Hin, not_elem_of_nil in Hx. }
    all: destruct (session_run s1 l) as [[[s2 o2]|]|] eqn:E2; [|done..]; intros [= <- <-] (x & Hx & Hc).
    all: apply Hin in Hx; [|done].
    all: destruct Hs1 as [Hn|[(p & r & ->)|[_ Hp]]]; [|exfalso|by exists i; split; [left|]].
    2,4: eapply quiet_run in E2; [|left; by eexists]; eapply Forall_forall in E2; [|exact Hx]; cbn in E2; congruence.
    all: destruct s1 as [st1| | |]; [|done..]; injection Hn as Hn; rewrite <- Hn.
    all: destruct (IH st1 s2 o2 E2) as (i' & Hi' & Hp'); [by exists x|]; exists i'; split; [by right|done].
Qed.

(** A session passes on what a peer sends only after the peer has shown a status
    that a validator signed and that has not expired. *)
Theorem handshake_gates_messages c h nodes l s out x
    (H : session_run (new_session c h nodes) l = Some (Ret (s, out))) (Hx : x ∈ out) (Hc : content x = true) :
  exists i, i ∈ l /\ proves nodes i.
Proof. eapply (startup_run _ _ _ _ H). by exists x. Qed.

(** ** The reports of a session *)

Definition about (peer : PeerId) (x : StromSessionMessage) : Prop :=
  match x with SValidMessage p _ | SBadMessage p => p = peer | _ => False end.

(** What the peer sent, and then perhaps the end. *)
Definition body (peer : PeerId) (out : list StromSessionMessage) : Prop :=
  exists mid fin, out = mid ++ fin /\ Forall (about peer) mid /\ (fin = [] \/ fin = [SDisconnected peer]).

(** The reports that a state leads to. *)
Definition leads s (out : list StromSessionMessage) : Prop :=
  match s with
  | InStartup st =>
      match handle st with
      | Some h => out = [] \/ exists rest, out = SEstablished h :: rest /\ body (startup_peer st) rest
      | None => body (startup_peer st) out
      end
  | InRegular r => Forall (about (regular_peer r)) (manager_buffer r) -> body (regular_peer r) out
  | InShutdown x => out = [] \/ reported x = false /\ out = [SDisconnected (shutdown_peer x)]
  | InDummy => out = []
  end.

Definition buffer_ok s : Prop :=
  match s with InRegular r => Forall (about (regular_peer r)) (manager_buffer r) | _ => True end.

Lemma body_nil peer : body peer [].
Proof. exists [], []. auto. Qed.

Lemma body_end peer : body peer [SDisconnected peer].
Proof. exists [], [SDisconnected peer]. auto. Qed.

Lemma body_app peer mid out : Forall (about peer) mid -> body peer out -> body peer (mid ++ out).
Proof.
  intros Hm (mid' & fin & -> & Hm' & Hf). exists (mid ++ mid'), fin. split; [by rewrite app_assoc|].
  split; [by apply Forall_app|done].
Qed.

Lemma leads_nil s : leads s [].
Proof. destruct s as [st|r|x|]; cbn; [destruct (handle st); [by left|apply body_nil]|intros _; apply body_nil|by left|done]. Qed.

Lemma leads_after_startup st out :
  leads (if shutdown st then InShutdown {| shutdown_peer := startup_peer st; reported := false |}
         else InRegular {| regular_peer := startup_peer st; manager_buffer := [] |}) out -> body (startup_peer st) out.
Proof.
  destruct (shutdown st); cbn.
  - intros [->|[_ ->]]; [apply body_nil|apply body_end].
  - intros H. apply H. constructor.
Qed.

Lemma verification_frame st i st' r : handle_verification st i = Ret (st', r) ->
  handle st' = handle st /\ startup_peer st' = startup_peer st.
Proof.
  unfold handle_verification. destruct (negb _).
  - intros (x & _ & [= <- _])%bind_Ret. done.
  - destruct (si_conn i); [destruct (si_conn_closed i); by intros [= <- _]|].
    intros (ok & _ & [= <- _])%bind_Ret. done.
Qed.

Lemma startup_leads st i s' out res out' : session_poll (InStartup st) i = Some (Ret (s', out, res)) ->
  leads s' out' -> leads (InStartup st) (out ++ out') /\ buffer_ok s'.
Proof.
  unfold session_poll, poll_outbound_msg, startup_poll, manager_has_handle. intros H Hl.
  assert (forall st0 o0 st1 r, handle_verification st0 i = Ret (st1, r) -> handle st0 = None ->
    (s', out, res) = (match r with Finished =>
       (if shutdown st1 then InShutdown {| shutdown_peer := startup_peer st1; reported := false |}
        else InRegular {| regular_peer := startup_peer st1; manager_buffer := [] |}, o0, Waiting)
      | _ => (InStartup st1, o0, r) end) -> out = o0 /\ body (startup_peer st0) out' /\ buffer_ok s') as Hgo.
  { intros st0 o0 st1 r Hv Hh Heq. apply verification_frame in Hv as [Eh Ep]. rewrite <- Ep.
    destruct r; injection Heq as -> -> ->; (split; [done|]).
    - cbn in Hl. rewrite Eh, Hh in Hl. done.
    - split; [by apply leads_after_startup|]. destruct (shutdown st1); [done|by constructor].
    - cbn in Hl. rewrite Eh, Hh in Hl. done. }
  cbn [leads]. destruct (handle st) as [h|] eqn:Eh.
  - destruct (si_reserve i); cbn [negb] in H; [|injection H as <- <- <-; cbn in Hl |- *; by rewrite Eh in Hl..].
    destruct (handle_verification _ i) as [[st1 r]|] eqn:E; [|done]. cbn in H.
    destruct (Hgo _ [SEstablished h] _ _ E) as (-> & Hb & Hbuf); [done|by destruct r; injection H as <- <- <-|].
    split; [|done]. right. exists out'. done.
  - cbn [negb] in H. destruct (handle_verification _ i) as [[st1 r]|] eqn:E; [|done]. cbn in H.
    destruct (Hgo _ [] _ _ E) as (-> & Hb & Hbuf); [done|by destruct r; injection H as <- <- <-|]. done.
Qed.

Lemma read_conn_about peer l closed buf buf' fin : Forall (about peer) buf ->
  read_conn peer l closed buf = Some (Ret (buf', fin)) -> Forall (about peer) buf'.
Proof.
  revert buf. induction l as [|b l IH]; intros buf Hb; cbn [read_conn].
  - destruct closed; [destruct buf; [|done]|]; intros [= <- <-]; done.
  - unfold session_message. destruct (decode_message b) as [[m|]|]; cbn; [..|done]; apply IH, Forall_app; split; try done.
    all: by repeat constructor.
Qed.

Lemma regular_leads r i s' out res out' : session_poll (InRegular r) i = Some (Ret (s', out, res)) ->
  buffer_ok (InRegular r) -> leads s' out' -> body (regular_peer r) (out ++ out') /\ buffer_ok s'.
Proof.
  unfold session_poll, poll_outbound_msg, regular_poll. intros H Hb Hl. cbn in Hb.
  assert (forall o : list StromSessionMessage,
    Some (Ret (InShutdown {| shutdown_peer := regular_peer r; reported := false |}, [], Waiting)) =
    Some (Ret (s', out, res)) -> body (regular_peer r) (out ++ out') /\ buffer_ok s') as Hend.
  { intros _ [= <- <- <-]. split; [|done]. cbn in Hl |- *. destruct Hl as [->|[_ ->]]; [apply body_nil|apply body_end]. }
  destruct (si_commands i) as [|[|m] ?].
  - destruct (si_commands_closed i); [by apply (Hend [])|].
    destruct (read_conn _ _ _ _) as [[[buf []]|]|] eqn:E; [by apply (Hend [])| |done..].
    apply read_conn_about in E; [|done]. cbn in H. injection H as <- <- <-. cbn in Hl |- *.
    split; [apply body_app; [by apply Forall_take|apply Hl; by apply Forall_drop]|by apply Forall_drop].
  - by apply (Hend []).
  - injection H as <- <- <-. split; [by apply Hl|done].
Qed.

Lemma shutdown_leads x i s' out res out' : session_poll (InShutdown x) i = Some (Ret (s', out, res)) ->
  leads s' out' -> leads (InShutdown x) (out ++ out') /\ buffer_ok s'.
Proof.
  unfold session_poll, poll_outbound_msg, shutdown_poll. intros H Hl. cbn [leads].
  destruct (reported x) eqn:E; [destruct (si_commands_closed i)|destruct (si_reserve i)]; cbn in H; injection H as <- <- <-;
    cbn in Hl; rewrite ?E in Hl; naive_solver.
Qed.

Lemma run_leads l s s' out : buffer_ok s -> session_run s l = Some (Ret (s', out)) -> leads s out.
Proof.
  revert s s' out. induction l as [|i l IH]; intros s s' out Hb; cbn [session_run]; [intros [= <- <-]; apply leads_nil|].
  destruct (session_poll s i) as [[[[s1 o1] r1]|]|] eqn:E; [|done..].
  assert (forall o, (buffer_ok s1 -> leads s1 o) -> leads s (o1 ++ o)) as Hstep.
  { intros o Ho. assert (buffer_ok s1) as Hb1.
    { destruct s as [st|r|x|]; [by eapply (startup_leads _ _ _ _ _ []), leads_nil|
        by eapply (regular_leads _ _ _ _ _ []); [..|apply leads_nil]|by eapply (shutdown_leads _ _ _ _ _ []), leads_nil|].
      injection E as <- _ _. done. }
    specialize (Ho Hb1). destruct s as [st|r|x|].
    - by eapply startup_leads.
    - intros _. by eapply regular_leads.
    - by eapply shutdown_leads.
    - injection E as <- <- <-. done. }
  destruct r1.
  2: { intros [= <- <-]. rewrite <- (app_nil_r o1). apply Hstep. intros _. apply leads_nil. }
  all: destruct (session_run s1 l) as [[[s2 o2]|]|] eqn:E2; [|done..]; intros [= <- <-].
  all: apply Hstep; intros Hb1; by eapply IH.
Qed.

(** The reports of a session, as the manager sees them: first that the session is
    established, then what the peer sent, and at the end, at most once, that the peer
    is gone; nothing is reported before the session is established. *)
Theorem session_reports_ordered c h nodes l s out
    (H : session_run (new_session c h nodes) l = Some (Ret (s, out))) :
  out = [] \/ exists mid fin, out = SEstablished h :: mid ++ fin /\ Forall (about (remote_id h)) mid /\
    (fin = [] \/ fin = [SDisconnected (remote_id h)]).
Proof.
  apply run_leads in H; [|done]. destruct H as [->|(rest & -> & mid & fin & -> & Hm & Hf)]; [by left|].
  right. by exists mid, fin.
Qed.

(** ** Ends of sessions *)

(** A running session that is told to disconnect reports that its peer is gone and
    is over once the manager has dropped its handle. *)
Lemma disconnect_ends r i1 i2 i3 rest : si_commands i1 = CmdDisconnect :: rest -> si_reserve i2 = Reserved ->
  si_commands_closed i3 = true ->
  session_run (InRegular r) [i1; i2; i3] = Some (Ret (InDummy, [SDisconnected (regular_peer r)])).
Proof.
  intros H1 H2 H3. cbn [session_run]. unfold session_poll, poll_outbound_msg, regular_poll, shutdown_poll.
  rewrite H1. cbn. rewrite H2. cbn. rewrite H3. done.
Qed.

(** A connection that closes while a message of it waits for the manager makes the
    session spin. *)
Lemma closing_connection_spins r i b rest : si_commands i = [] -> si_commands_closed i = false ->
  si_conn i = b :: rest -> si_conn_closed i = true -> (forall x, x ∈ b :: rest -> exists y, decode_message x = Ret y) ->
  session_poll (InRegular r) i = None.
Proof.
  intros Hc Hcc Hb Hcl Hd. unfold session_poll, poll_outbound_msg, regular_poll. rewrite Hc, Hcc, Hb, Hcl.
  assert (forall l buf, (forall x, x ∈ l -> exists y, decode_message x = Ret y) -> (buf <> [] \/ l <> []) ->
    read_conn (regular_peer r) l true buf = None) as Hspin.
  { induction l as [|x l IH]; intros buf Hl Hne; cbn [read_conn]; [destruct buf; naive_solver|].
    unfold session_message. destruct (Hl x) as [y ->]; [by left|]. cbn.
    apply IH; [intros z Hz; apply Hl; by right|]. left. by destruct buf. }
  by rewrite Hspin by auto.
Qed.

(** A message that is framed well but whose content is malformed stops the node. *)
Lemma malformed_content_panics r i b rest id data more : si_commands i = [] -> si_commands_closed i = false ->
  si_conn i = (b :: rest) :: more -> decode_id b = Some id -> rlp_decode rest = Some data ->
  bincode_decode data.1 = None -> session_poll (InRegular r) i = Some Panic.
Proof.
  intros Hc Hcc Hb Hid Hr Hn. unfold session_poll, poll_outbound_msg, regular_poll. rewrite Hc, Hcc, Hb.
  cbn [read_conn]. unfold session_message, decode_message. rewrite Hid, Hr. destruct data as [d ?]. cbn in Hn |- *. by rewrite Hn.
Qed.

(** So does a status whose signature does not recover to a key. *)
Lemma bad_signature_panics st i m x rest data : handle st = None -> has_sent (verification_sidecar st) = true ->
  si_conn i = data :: rest -> decode_message data = Ret (Some m) -> proto_message m = MStatus x ->
  recover_from_prehash (status_signature x) (to_message (status_state x)) = None ->
  session_poll (InStartup st) i = Some Panic.
Proof.
  intros Hh Hs Hc Hd Hm Hr. unfold session_poll, poll_outbound_msg, startup_poll, manager_has_handle. rewrite Hh. cbn.
  unfold handle_verification. rewrite Hs, Hc. cbn. unfold status_accepted. rewrite Hd. cbn. rewrite Hm.
  unfold verify_incoming_status, verify_status. by rewrite Hr.
Qed.

(** Two honest nodes get to know each other: a session whose peer holds the key of
    a validator, and whose status arrives before it expires, is established, sends
    the status of the node and then passes messages on. *)
Theorem honest_handshake c h nodes key st0 status ours now0 i1 i2 rest
    (Hsent : has_sent c = false) (Hnode : peer_address (public_key_to_peer_id (pubkey (signer_key key))) ∈ nodes)
    (Hst : build_status now0 st0 key = Ret status)
    (Hours : build_status (si_now i1) (Sessions.with_peer (sc_status c) (remote_id h)) (sc_key c) = Ret ours)
    (Hres : si_reserve i1 = Reserved)
    (Hconn : si_conn i2 = encode (protocol_message (MStatus status)) :: rest)
    (Htime : si_now i2 <= now0 + STATUS_TIMESTAMP_TIMEOUT_MS) (Hrange : 0 <= now0 < 2 ^ 127) :
  session_poll (new_session c h nodes) i1 =
    Some (Ret (InStartup (mark_sent {| verification_sidecar := c; handle := None; startup_peer := remote_id h;
                                       shutdown := false; valid_nodes := nodes |}),
               [SEstablished h], Bytes_out (encode (protocol_message (MStatus ours))))) /\
  session_run (new_session c h nodes) [i1; i2] =
    Some (Ret (InRegular {| regular_peer := remote_id h; manager_buffer := [] |}, [SEstablished h])).
Proof.
  assert (session_poll (new_session c h nodes) i1 =
    Some (Ret (InStartup (mark_sent {| verification_sidecar := c; handle := None; startup_peer := remote_id h;
                                       shutdown := false; valid_nodes := nodes |}),
               [SEstablished h], Bytes_out (encode (protocol_message (MStatus ours)))))) as H1.
  { unfold session_poll, poll_outbound_msg, new_session, startup_poll, manager_has_handle. cbn [handle]. rewrite Hres.
    cbn [negb set_handle verification_sidecar startup_peer shutdown valid_nodes].
    unfold set_handle, handle_verification. cbn [verification_sidecar startup_peer shutdown valid_nodes]. rewrite Hsent.
    cbn [negb]. unfold make_status_message. rewrite Hsent, Hours. done. }
  split; [done|]. cbn [session_run]. rewrite H1.
  assert (status_accepted (mark_sent {| verification_sidecar := c; handle := None; startup_peer := remote_id h;
    shutdown := false; valid_nodes := nodes |}) (si_now i2) (encode (protocol_message (MStatus status))) = Ret true) as Ha.
  { unfold status_accepted. rewrite decode_encode. cbn [mbind outcome_bind proto_message].
    unfold verify_incoming_status, verify_status. apply bind_Ret in Hst as (sig & Hsig%unwrap_Ret & [= <-]).
    cbn [status_state status_signature with_timestamp st_timestamp].
    rewrite (recover_signed _ _ _ Hsig). cbn [unwrap mbind outcome_bind]. rewrite bool_decide_eq_true_2 by done.
    unfold u128_wrap, STATUS_TIMESTAMP_TIMEOUT_MS in *. rewrite Z.mod_small by lia.
    by rewrite (proj2 (Z.leb_le _ _)) by done. }
  unfold session_poll, poll_outbound_msg, startup_poll, manager_has_handle, handle_verification.
  cbn [mark_sent handle negb verification_sidecar has_sent]. rewrite Hconn.
  cbn [mark_sent handle verification_sidecar] in Ha. rewrite Ha. done.
Qed.
End session_props.
