(* ===== verification/Network.v ===== *)
(** * The network

    The model of [crates/angstrom-net/src]: the peers and their reputation ([peers]),
    the state of the network ([state.rs]), the manager of the sessions
    ([session/mod.rs]), the swarm ([swarm.rs]) and the network manager
    ([manager.rs]).  What is ready at a poll, and which channels take a message or are
    closed, are inputs; what is sent is an output.  The file of known peers is left
    out. *)

From S2P Require Import Prelude Ray Orders Samples Storage StateValidation Pool ConsensusTypes Eth Sessions.
From S2P Require Indexer.
Open Scope Z_scope.

(** ** Reputation *)

Definition DEFAULT_REPUTATION : i32 := 0.
Definition REPUTATION_UNIT : i32 := -1024.
Definition BANNED_REPUTATION : i32 := 50 * REPUTATION_UNIT.

Inductive ReputationChangeKind :=
| BadMessage
| BadOrder
| BadComposableOrder
| BadBundle
| InvalidOrder
| Reset.

Record ReputationChangeWeights := {
  bad_message : i32;
  bad_order : i32;
  bad_composable_order : i32;
  bad_bundle : i32;
  invalid_order : i32
}.

Definition default_weights : ReputationChangeWeights :=
  {| bad_message := 5 * REPUTATION_UNIT; bad_order := 10 * REPUTATION_UNIT;
     bad_composable_order := 15 * REPUTATION_UNIT; bad_bundle := 20 * REPUTATION_UNIT;
     invalid_order := 17 * REPUTATION_UNIT |}.

Definition change (w : ReputationChangeWeights) (k : ReputationChangeKind) : i32 :=
  match k with
  | BadMessage => bad_message w
  | BadOrder => bad_order w
  | BadComposableOrder => bad_composable_order w
  | BadBundle => bad_bundle w
  | InvalidOrder => invalid_order w
  | Reset => DEFAULT_REPUTATION
  end.

Definition is_banned_reputation (r : i32) : bool := r <? BANNED_REPUTATION.

(** [i32::saturating_add]. *)
Definition saturating_add (a b : i32) : i32 := Z.max (- 2 ^ 31) (Z.min (2 ^ 31 - 1) (a + b)).

(** ** Peers *)

Inductive PeerKind := Basic | MevGuard | Trusted | TrustedMevGuard.

Record Peer := { reputation : i32; kind : PeerKind; connected : bool }.

Inductive ReputationChangeOutcome := NoChange | Ban | DisconnectAndBan | Unban.

Definition apply_reputation (p : Peer) (delta : i32) : Peer * ReputationChangeOutcome :=
  let previous := reputation p in
  let now := saturating_add previous delta in
  if connected p && is_banned_reputation now then
    ({| reputation := now; kind := kind p; connected := false |}, DisconnectAndBan)
  else
    let p := {| reputation := now; kind := kind p; connected := connected p |} in
    if is_banned_reputation now && negb (is_banned_reputation previous) then (p, Ban)
    else if negb (is_banned_reputation now) && is_banned_reputation previous then (p, Unban)
    else (p, NoChange).

Definition is_trusted (p : Peer) : bool := match kind p with Trusted => true | _ => false end.

Inductive PeerAction :=
| Disconnect (peer : PeerId)
| DisconnectBannedIncoming (peer : PeerId)
| BanPeer (peer : PeerId)
| UnBanPeer (peer : PeerId)
| PeerAddedAction (peer : PeerId)
| PeerRemovedAction (peer : PeerId).

Record PeersManager := {
  peers : gmap PeerId Peer;
  queued_actions : list PeerAction;
  reputation_weights : ReputationChangeWeights;
  ban_list : gset PeerId
}.

Definition new_peers : PeersManager :=
  {| peers := ∅; queued_actions := []; reputation_weights := default_weights; ban_list := ∅ |}.

Definition push_action (m : PeersManager) a : PeersManager :=
  {| peers := peers m; queued_actions := queued_actions m ++ [a]; reputation_weights := reputation_weights m;
     ban_list := ban_list m |}.

Definition ban_peer (m : PeersManager) (id : PeerId) : PeersManager :=
  {| peers := peers m; queued_actions := queued_actions m; reputation_weights := reputation_weights m;
     ban_list := {[id]} ∪ ban_list m |}.

Definition set_peer (m : PeersManager) (id : PeerId) (p : Peer) : PeersManager :=
  {| peers := <[id := p]> (peers m); queued_actions := queued_actions m; reputation_weights := reputation_weights m;
     ban_list := ban_list m |}.

(** The peer stays in the map. *)
Definition remove_peer (m : PeersManager) (id : PeerId) : PeersManager :=
  match peers m !! id with
  | None => m
  | Some p => if is_trusted p then m else push_action m (PeerRemovedAction id)
  end.

Definition change_weight (m : PeersManager) (id : PeerId) (k : ReputationChangeKind) : PeersManager :=
  match peers m !! id with
  | None => m
  | Some p =>
      let '(p, outcome) := apply_reputation p (change (reputation_weights m) k) in
      let m := set_peer m id p in
      match outcome with
      | Ban => ban_peer m id
      | DisconnectAndBan => push_action (ban_peer m id) (DisconnectBannedIncoming id)
      | Unban => push_action m (UnBanPeer id)
      | NoChange => m
      end
  end.

Definition remove_peer_from_trusted_set (m : PeersManager) (id : PeerId) : PeersManager :=
  match peers m !! id with
  | None => m
  | Some p =>
      if negb (is_trusted p) then m
      else set_peer m id {| reputation := reputation p; kind := Basic; connected := connected p |}
  end.

(** ** The state of the network *)

Record StromState := {
  peers_manager : PeersManager;
  active_peers : gset PeerId;
  validators : gset Address
}.

Definition new_state (v : gset Address) : StromState :=
  {| peers_manager := new_peers; active_peers := ∅; validators := v |}.

Definition set_peers (s : StromState) pm : StromState :=
  {| peers_manager := pm; active_peers := active_peers s; validators := validators s |}.
Definition set_validators (s : StromState) v : StromState :=
  {| peers_manager := peers_manager s; active_peers := active_peers s; validators := v |}.

(** ** Events *)

Inductive SessionEvent :=
| EvEstablished (peer : PeerId)
| EvValidMessage (peer : PeerId) (m : StromProtocolMessage)
| EvBadMessage (peer : PeerId)
| EvProtocolBreach (peer : PeerId)
| EvConnectionError (peer : PeerId)
| EvDisconnected (peer : PeerId).

Inductive SwarmEvent :=
| SwEstablished (peer : PeerId)
| SwValidMessage (peer : PeerId) (m : StromMessage)
| SwDisconnected (peer : PeerId).

Inductive StromNetworkEvent :=
| SessionClosed (peer : PeerId)
| SessionEstablished (peer : PeerId)
| PeerAdded (peer : PeerId)
| PeerRemoved (peer : PeerId).

Inductive NetworkOrderEvent :=
| IncomingOrders (peer : PeerId) (orders : list AllOrders)
| CancelOrder (peer : PeerId) (request : Indexer.CancelOrderRequest).

Inductive StromNetworkHandleMsg :=
| SubscribeEvents (tx : Channel)
| RemovePeer (peer : PeerId)
| DisconnectPeer (peer : PeerId)
| SendStromMessage (peer : PeerId) (m : StromMessage)
| BroadcastStromMessage (m : StromMessage)
| ReputationChange (peer : PeerId) (k : ReputationChangeKind)
| ShutdownNetwork.

(** [from_sessions] holds the messages that the sessions have sent and the manager has
    not read. *)
Record StromSessionManager := {
  active_sessions : gmap PeerId StromSessionHandle;
  from_sessions : list StromSessionMessage;
  msg_buf : list SessionEvent
}.

Record Swarm := { sessions : StromSessionManager; state : StromState }.

Record StromNetworkManager := {
  swarm : Swarm;
  event_listeners : list Channel;
  num_active_peers : Z;
  to_pool_manager : bool;
  to_consensus_manager : bool
}.

(** What the manager sends: commands to the sessions, events to the listeners, to the
    order pool and to the consensus. *)
Inductive NetOutput :=
| ToSession (channel : Z) (c : SessionCommand)
| ToListener (tx : Channel) (e : StromNetworkEvent)
| ToPool (e : NetworkOrderEvent)
| ToConsensus (e : StromConsensusEvent).

Section network.
Context `{CC : ConsensusCrypto} `{HI : HashIter}.
Implicit Types (sm : StromSessionManager) (w : Swarm) (n : StromNetworkManager).

(** ** Validators *)

Definition add_validator (s : StromState) (a : Address) : StromState := set_validators s ({[a]} ∪ validators s).

Definition remove_validator (s : StromState) (a : Address) : StromState :=
  let s := set_validators s (validators s ∖ {[a]}) in
  match head (filter (fun p => peer_address p = a) (hs_iter (active_peers s))) with
  | Some id => set_peers s (remove_peer (peers_manager s) id)
  | None => s
  end.

(** ** Sessions *)

Definition set_sessions sm x : StromSessionManager :=
  {| active_sessions := x; from_sessions := from_sessions sm; msg_buf := msg_buf sm |}.
Definition set_queue sm q : StromSessionManager :=
  {| active_sessions := active_sessions sm; from_sessions := q; msg_buf := msg_buf sm |}.
Definition set_buf sm b : StromSessionManager :=
  {| active_sessions := active_sessions sm; from_sessions := from_sessions sm; msg_buf := b |}.

(** [try_send]: a channel that is full or closed takes nothing. *)
Definition send_message (accepts : Z -> bool) sm (peer : PeerId) (m : StromMessage) : list NetOutput :=
  match active_sessions sm !! peer with
  | Some h => if accepts (commands_to_session h) then [ToSession (commands_to_session h) (CmdMessage m)] else []
  | None => []
  end.

Definition broadcast_message (accepts : Z -> bool) sm (m : StromMessage) : list NetOutput :=
  hm_values (active_sessions sm) ≫= (fun h =>
    if accepts (commands_to_session h) then [ToSession (commands_to_session h) (CmdMessage m)] else []).

Definition disconnect_handle (accepts : Z -> bool) (h : StromSessionHandle) : list NetOutput :=
  if accepts (commands_to_session h) then [ToSession (commands_to_session h) CmdDisconnect] else [].

Definition disconnect_all (accepts : Z -> bool) sm : list NetOutput :=
  hm_values (active_sessions sm) ≫= disconnect_handle accepts.

Definition disconnect (accepts : Z -> bool) sm (peer : PeerId) : StromSessionManager * list NetOutput :=
  match active_sessions sm !! peer with
  | Some h => (set_sessions sm (delete peer (active_sessions sm)), disconnect_handle accepts h)
  | None => (sm, [])
  end.

(** The sessions whose channel is closed are dropped and reported. *)
Definition reap (closed : Z -> bool) sm : StromSessionManager :=
  let dead := (filter (fun kv => closed (commands_to_session kv.2) = true) (hm_iter (active_sessions sm))).*1 in
  {| active_sessions := foldl (fun acc p => delete p acc) (active_sessions sm) dead;
     from_sessions := from_sessions sm; msg_buf := msg_buf sm ++ (EvDisconnected <$> dead) |}.

(** What a message of a session does; a second session with a peer is refused and
    gives no event. *)
Definition on_session_msg (accepts : Z -> bool) sm (x : StromSessionMessage)
    : StromSessionManager * option SessionEvent * list NetOutput :=
  match x with
  | SDisconnected peer => (set_sessions sm (delete peer (active_sessions sm)), Some (EvDisconnected peer), [])
  | SEstablished h =>
      match active_sessions sm !! remote_id h with
      | Some _ => (sm, None, disconnect_handle accepts h)
      | None => (set_sessions sm (<[remote_id h := h]> (active_sessions sm)), Some (EvEstablished (remote_id h)), [])
      end
  | SClosedOnConnectionError peer => (set_sessions sm (delete peer (active_sessions sm)), Some (EvConnectionError peer), [])
  | SValidMessage peer m => (sm, Some (EvValidMessage peer m), [])
  | SBadMessage peer => (sm, Some (EvBadMessage peer), [])
  | SProtocolBreach peer => (sm, Some (EvProtocolBreach peer), [])
  end.

(** ** The swarm *)

Definition set_sm w sm : Swarm := {| sessions := sm; state := state w |}.
Definition set_state w s : Swarm := {| sessions := sessions w; state := s |}.

Definition on_session_event w (e : SessionEvent) : Swarm * option SwarmEvent :=
  match e with
  | EvBadMessage peer =>
      (set_state w (set_peers (state w) (change_weight (peers_manager (state w)) peer BadMessage)), None)
  | EvValidMessage peer m => (w, Some (SwValidMessage peer (proto_message m)))
  | EvDisconnected peer => (w, Some (SwDisconnected peer))
  | EvEstablished peer => (w, Some (SwEstablished peer))
  | _ => (w, None)
  end.

(** The actions of the peers are drained and have no effect; the two that announce a
    peer are unreachable. *)
Definition drain_state w : outcome Swarm :=
  let pm := peers_manager (state w) in
  _ ← assert (forallb (fun a => match a with PeerAddedAction _ | PeerRemovedAction _ => false | _ => true end)
        (queued_actions pm));
  Ret (set_state w (set_peers (state w)
    {| peers := peers pm; queued_actions := []; reputation_weights := reputation_weights pm; ban_list := ban_list pm |})).

(** A poll of the swarm over the session messages that are ready: the buffered events,
    which are ends of sessions, come first; the loop ends at the first event for the manager, or when there is
    no message, or at a refused session. *)
Fixpoint swarm_poll (accepts closed : Z -> bool) w (l : list StromSessionMessage)
    : outcome (Swarm * option SwarmEvent * list NetOutput * list StromSessionMessage) :=
  let sm := reap closed (sessions w) in
  match msg_buf sm with
  | e :: buf =>
      let w := set_sm w (set_buf sm buf) in
      let '(w, ev) := on_session_event w e in
      match ev with
      | Some ev => Ret (w, Some ev, [], l)
      | None => w ← drain_state w; Ret (w, None, [], l)
      end
  | [] =>
      match l with
      | [] => w ← drain_state (set_sm w sm); Ret (w, None, [], [])
      | x :: l' =>
          let '(sm, e, out) := on_session_msg accepts sm x in
          let w := set_sm w sm in
          match e with
          | None => w ← drain_state w; Ret (w, None, out, l')
          | Some e =>
              let '(w, ev) := on_session_event w e in
              match ev with
              | Some ev => Ret (w, Some ev, out, l')
              | None => '(w, ev, out', rest) ← swarm_poll accepts closed w l'; Ret (w, ev, out ++ out', rest)
              end
          end
      end
  end.

(** ** The manager *)

Definition set_swarm n w : StromNetworkManager :=
  {| swarm := w; event_listeners := event_listeners n; num_active_peers := num_active_peers n;
     to_pool_manager := to_pool_manager n; to_consensus_manager := to_consensus_manager n |}.
Definition set_listeners n l : StromNetworkManager :=
  {| swarm := swarm n; event_listeners := l; num_active_peers := num_active_peers n;
     to_pool_manager := to_pool_manager n; to_consensus_manager := to_consensus_manager n |}.
Definition set_count n c : StromNetworkManager :=
  {| swarm := swarm n; event_listeners := event_listeners n; num_active_peers := c;
     to_pool_manager := to_pool_manager n; to_consensus_manager := to_consensus_manager n |}.

Definition new_manager (v : gset Address) (pool consensus : bool) : StromNetworkManager :=
  {| swarm := {| sessions := {| active_sessions := ∅; from_sessions := []; msg_buf := [] |}; state := new_state v |};
     event_listeners := []; num_active_peers := 0; to_pool_manager := pool; to_consensus_manager := consensus |}.

Definition on_peers n (f : PeersManager -> PeersManager) : StromNetworkManager :=
  set_swarm n (set_state (swarm n) (set_peers (state (swarm n)) (f (peers_manager (state (swarm n)))))).

Definition on_handle_message (accepts : Z -> bool) n (msg : StromNetworkHandleMsg) : StromNetworkManager * list NetOutput :=
  match msg with
  | SubscribeEvents tx => (set_listeners n (event_listeners n ++ [tx]), [])
  | SendStromMessage peer m => (n, send_message accepts (sessions (swarm n)) peer m)
  | ShutdownNetwork => (n, disconnect_all accepts (sessions (swarm n)))
  | RemovePeer peer => (on_peers n (fun pm => remove_peer pm peer), [])
  | ReputationChange peer k => (on_peers n (fun pm => change_weight pm peer k), [])
  | BroadcastStromMessage m => (n, broadcast_message accepts (sessions (swarm n)) m)
  | DisconnectPeer peer =>
      let '(sm, out) := disconnect accepts (sessions (swarm n)) peer in (set_swarm n (set_sm (swarm n) sm), out)
  end.

Definition on_eth_event n (e : EthEvent) : StromNetworkManager :=
  match e with
  | AddedNode a => set_swarm n (set_state (swarm n) (add_validator (state (swarm n)) a))
  | RemovedNode a => set_swarm n (set_state (swarm n) (remove_validator (state (swarm n)) a))
  | _ => n
  end.

Definition notify_listeners (open : Channel -> bool) n (e : StromNetworkEvent) : StromNetworkManager * list NetOutput :=
  let kept := filter (fun l => open l = true) (event_listeners n) in
  (set_listeners n kept, (fun l => ToListener l e) <$> kept).

(** Where a message of a peer goes. *)
Definition route n (peer : PeerId) (m : StromMessage) : list NetOutput :=
  let address := peer_address peer in
  let consensus e := if to_consensus_manager n then [ToConsensus e] else [] in
  let pool e := if to_pool_manager n then [ToPool e] else [] in
  match m with
  | MPrePropose p => consensus (EPreProposal address p)
  | MBundleUnlockAttestation block p => consensus (EBundleUnlockAttestation address block p)
  | MPreProposeAgg p => consensus (EPreProposalAgg address p)
  | MPropose p => consensus (EProposal address p)
  | MPropagatePooledOrders orders => pool (IncomingOrders peer orders)
  | MOrderCancellation r => pool (CancelOrder peer r)
  | MStatus _ => []
  end.

Definition on_swarm_event (open : Channel -> bool) n (e : SwarmEvent) : StromNetworkManager * list NetOutput :=
  match e with
  | SwValidMessage peer m => (n, route n peer m)
  | SwDisconnected peer => notify_listeners open (set_count n (u64_wrap (num_active_peers n - 1))) (SessionClosed peer)
  | SwEstablished peer => notify_listeners open (set_count n (u64_wrap (num_active_peers n + 1))) (SessionEstablished peer)
  end.

(** What comes in before one turn of the loop, and how the channels are. *)
Record TurnInput := {
  ti_handle : option StromNetworkHandleMsg;
  ti_eth : option EthEvent;
  ti_sessions : list StromSessionMessage;
  ti_accepts : Z -> bool;
  ti_closed : Z -> bool;
  ti_open : Channel -> bool
}.

Definition turn n (t : TurnInput) : outcome (StromNetworkManager * list NetOutput) :=
  let '(n, out1) := match ti_handle t with Some msg => on_handle_message (ti_accepts t) n msg | None => (n, []) end in
  let n := match ti_eth t with Some e => on_eth_event n e | None => n end in
  let queue := from_sessions (sessions (swarm n)) ++ ti_sessions t in
  '(w, ev, out2, rest) ← swarm_poll (ti_accepts t) (ti_closed t) (swarm n) queue;
  let n := set_swarm n (set_sm w (set_queue (sessions w) rest)) in
  let '(n, out3) := match ev with Some e => on_swarm_event (ti_open t) n e | None => (n, []) end in
  Ret (n, out1 ++ out2 ++ out3).

(** The turns of the manager, over all its polls. *)
Fixpoint turns n (l : list TurnInput) : outcome (StromNetworkManager * list NetOutput) :=
  match l with
  | [] => Ret (n, [])
  | t :: l' => '(n, out) ← turn n t; '(n, out') ← turns n l'; Ret (n, out ++ out')
  end.
End network.
