(* ===== verification/NetworkProps.v ===== *)
(** * Correctness of the network

    The manager of the network never stops, passes every message of a session on
    exactly once and to the part of the node that it is for, and hears only peers
    that have shown the signature of a validator. *)

From S2P Require Import Prelude Ray Orders Samples Storage StateValidation Pool ConsensusTypes Eth.
From S2P Require Import Sessions SessionsProps Network.
From S2P Require Indexer.
Open Scope Z_scope.

Section network_props.
Context `{CC : ConsensusCrypto} `{HI : HashIter}.
Implicit Types (sm : StromSessionManager) (w : Swarm) (n : StromNetworkManager) (t : TurnInput).

(** ** Peers *)

(** No peer is tracked: nothing adds one. *)
Definition untracked (s : StromState) : Prop :=
  peers (peers_manager s) = ∅ /\ queued_actions (peers_manager s) = [] /\ ban_list (peers_manager s) = ∅ /\
  active_peers s = ∅.

Lemma change_weight_untracked s p k : untracked s -> change_weight (peers_manager s) p k = peers_manager s.
Proof. intros (E & _). unfold change_weight. by rewrite E, lookup_empty. Qed.

Lemma remove_peer_untracked s p : untracked s -> remove_peer (peers_manager s) p = peers_manager s.
Proof. intros (E & _). unfold remove_peer. by rewrite E, lookup_empty. Qed.

Lemma set_peers_same (s : StromState) : set_peers s (peers_manager s) = s.
Proof. by destruct s. Qed.

Lemma on_session_event_state w e w' ev : untracked (state w) -> on_session_event w e = (w', ev) -> w' = w.
Proof.
  intros Hu. destruct e; cbn; intros [= <- _]; try done. rewrite change_weight_untracked by done.
  rewrite set_peers_same. by destruct w.
Qed.

Lemma drain_state_same w : untracked (state w) -> drain_state w = Ret w.
Proof.
  intros (_ & E & _). unfold drain_state. rewrite E. cbn. do 2 f_equal. destruct w as [sm s]. unfold set_state. cbn in *.
  f_equal. destruct s as [pm a v]. unfold set_peers. cbn in *. f_equal. destruct pm. cbn in *. by rewrite E.
Qed.

(** ** What a poll of the swarm does *)

(** The messages that are for other parts of the node. *)
Definition forwarded (x : StromSessionMessage) : option (PeerId * StromMessage) :=
  match x with SValidMessage p m => Some (p, proto_message m) | _ => None end.

Definition event_message (ev : option SwarmEvent) : list (PeerId * StromMessage) :=
  match ev with Some (SwValidMessage p m) => [(p, m)] | _ => [] end.

Definition to_session (o : NetOutput) : bool := match o with ToSession _ _ => true | _ => false end.

Lemma disconnect_handle_sessions accepts h : Forall (fun o => to_session o = true) (disconnect_handle accepts h).
Proof. unfold disconnect_handle. destruct (accepts _); by repeat constructor. Qed.

(** The buffer holds closed sessions only. *)
Definition buf_ok sm : Prop := Forall (fun e => exists p, e = EvDisconnected p) (msg_buf sm).

Lemma reap_buf closed sm : buf_ok sm -> buf_ok (reap closed sm).
Proof.
  intros H. apply Forall_app. split; [done|]. apply Forall_forall. intros e (p & -> & _)%list_elem_of_fmap. by exists p.
Qed.

Lemma on_session_msg_spec accepts sm x sm' e out : on_session_msg accepts sm x = (sm', e, out) ->
  msg_buf sm' = msg_buf sm /\ Forall (fun o => to_session o = true) out /\
  (forwarded x = None -> match e with Some (EvValidMessage _ _) => False | _ => True end) /\
  (forall p m, forwarded x = Some (p, m) -> exists pm, e = Some (EvValidMessage p pm) /\ proto_message pm = m).
Proof.
  destruct x as [h|p|p|p pm|p|p]; cbn; [destruct (active_sessions sm !! remote_id h)|..]; intros [= <- <- <-];
    (split; [done|]); (split; [first [apply disconnect_handle_sessions|constructor]|]); (split; [done|]);
    intros p' m [= <- <-] || intros p' m [=]. by exists pm.
Qed.

Lemma swarm_poll_spec accepts closed w l : untracked (state w) -> buf_ok (sessions w) ->
  exists w' ev out rest done, swarm_poll accepts closed w l = Ret (w', ev, out, rest) /\ l = done ++ rest /\
    state w' = state w /\ buf_ok (sessions w') /\ Forall (fun o => to_session o = true) out /\
    omap forwarded done = event_message ev.
Proof.
  revert w. induction l as [|x l IH]; intros w Hu Hb; cbn [swarm_poll].
  all: pose proof (reap_buf closed _ Hb) as Hr; destruct (msg_buf (reap closed (sessions w))) as [|e buf] eqn:Eb.
  1: { rewrite drain_state_same by done. cbn. eexists _, _, _, _, []. by split_and!. }
  1, 3: unfold buf_ok in Hr; rewrite Eb in Hr; apply Forall_cons in Hr as [[p ->] Hr]; cbn; eexists _, _, _, _, [];
    by split_and!.
  destruct (on_session_msg accepts (reap closed (sessions w)) x) as [[sm' e] out] eqn:Em.
  apply on_session_msg_spec in Em as (Ebuf & Hout & Hno & Hyes).
  assert (buf_ok sm') as Hb' by (unfold buf_ok; rewrite Ebuf, Eb; constructor).
  destruct e as [e|].
  2: { rewrite drain_state_same by done. cbn. eexists _, _, _, _, [x]. split_and!; try done.
       cbn. destruct (forwarded x) as [[p m]|] eqn:Ex; [|done]. by destruct (Hyes p m eq_refl) as (? & ? & _). }
  destruct (on_session_event (set_sm w sm') e) as [w1 ev] eqn:Ee. pose proof (on_session_event_state (set_sm w sm') _ _ _ Hu Ee) as ->.
  destruct ev as [ev|].
  - eexists _, _, _, _, [x]. split_and!; try done. cbn. destruct (forwarded x) as [[p m]|] eqn:Ex.
    + destruct (Hyes p m eq_refl) as (pm & [= ->] & <-). cbn in Ee. by simplify_eq/=.
    + specialize (Hno eq_refl). destruct e; cbn in Ee; try done; by simplify_eq/=.
  - destruct (IH (set_sm w sm')) as (w' & ev & out' & rest & dn & -> & -> & E2 & E3 & E4 & E5); [done..|]. cbn.
    eexists _, _, _, _, (x :: dn). split_and!; [done..|by apply Forall_app|]. cbn.
    destruct (forwarded x) as [[p m]|] eqn:Ex; [|done]. destruct (Hyes p m eq_refl) as (pm & [= ->] & _). done.
Qed.

(** ** Turns of the manager *)

Record manager_ok n : Prop := {
  mg_untracked : untracked (state (swarm n));
  mg_buf : buf_ok (sessions (swarm n))
}.

(** What is delivered to the order pool and to the consensus. *)
Definition delivery (o : NetOutput) : bool := match o with ToPool _ | ToConsensus _ => true | _ => false end.

Definition deliveries (out : list NetOutput) : list NetOutput := filter (fun o => delivery o = true) out.

Lemma deliveries_app a b : deliveries (a ++ b) = deliveries a ++ deliveries b.
Proof. apply filter_app. Qed.

Lemma deliveries_none out : Forall (fun o => delivery o = false) out -> deliveries out = [].
Proof.
  induction 1 as [|o l Ho _ IH]; [done|]. unfold deliveries. rewrite filter_cons_False by (by rewrite Ho). exact IH.
Qed.

Lemma session_not_delivery out : Forall (fun o => to_session o = true) out -> deliveries out = [].
Proof. intros H. apply deliveries_none. eapply Forall_impl; [exact H|]. by intros []. Qed.

Lemma route_deliveries n p m : deliveries (route n p m) = route n p m.
Proof. destruct m; cbn; try destruct (to_consensus_manager n); try destruct (to_pool_manager n); done. Qed.

(** The handlers that do not read the sessions. *)
Definition same_routes n n' : Prop :=
  to_pool_manager n' = to_pool_manager n /\ to_consensus_manager n' = to_consensus_manager n.

Lemma bind_sessions {A} (l : list A) (f : A -> list NetOutput) :
  (forall x, Forall (fun o => to_session o = true) (f x)) -> Forall (fun o => to_session o = true) (l ≫= f).
Proof. intros H. induction l; cbn; [constructor|]. by apply Forall_app. Qed.

Lemma handle_message_ok accepts n msg n' out : manager_ok n -> on_handle_message accepts n msg = (n', out) ->
  manager_ok n' /\ same_routes n n' /\ deliveries out = [] /\
  from_sessions (sessions (swarm n')) = from_sessions (sessions (swarm n)).
Proof.
  intros [Hu Hb] H. destruct msg; cbn in H.
  - by injection H as <- <-.
  - injection H as <- <-. split_and!; try done. split; cbn; [|done]. by rewrite remove_peer_untracked, set_peers_same.
  - unfold disconnect in H. destruct (active_sessions _ !! peer) as [h|]; injection H as <- <-; (split_and!; try done).
    apply session_not_delivery, disconnect_handle_sessions.
  - injection H as <- <-. split_and!; try done. apply session_not_delivery. unfold send_message.
    destruct (_ !! _); [|constructor]. destruct (accepts _); by repeat constructor.
  - injection H as <- <-. split_and!; try done. apply session_not_delivery, bind_sessions. intros h.
    destruct (accepts _); by repeat constructor.
  - injection H as <- <-. split_and!; try done. split; cbn; [|done]. by rewrite change_weight_untracked, set_peers_same.
  - injection H as <- <-. split_and!; try done. apply session_not_delivery, bind_sessions, disconnect_handle_sessions.
Qed.

Lemma eth_event_ok n e : manager_ok n -> manager_ok (on_eth_event n e) /\ same_routes n (on_eth_event n e) /\
  sessions (swarm (on_eth_event n e)) = sessions (swarm n).
Proof.
  intros [Hu Hb]. destruct e as [| | | | | |a|a]; try done. cbn. unfold remove_validator. cbn.
  destruct Hu as (H1 & H2 & H3 & H4). rewrite H4.
  assert (hs_iter (∅ : gset PeerId) = []) as ->.
  { destruct (hs_iter (∅ : gset PeerId)) as [|p l] eqn:E; [done|]. exfalso. apply (not_elem_of_empty (C := gset PeerId) p).
    apply elem_of_hs_iter. rewrite E. by left. }
  cbn. done.
Qed.

(** The messages of a list, as they are routed. *)
Definition routed n (l : list (PeerId * StromMessage)) : list NetOutput := l ≫= (fun x => route n x.1 x.2).

Lemma route_same n n' p m : same_routes n n' -> route n' p m = route n p m.
Proof. intros [E1 E2]. unfold route. by rewrite E1, E2. Qed.

Lemma routed_same n n' l : same_routes n n' -> routed n' l = routed n l.
Proof. intros H. unfold routed. induction l as [|x l IH]; cbn; [done|]. by rewrite IH, (route_same n n'). Qed.

Lemma routed_app n a b : routed n (a ++ b) = routed n a ++ routed n b.
Proof. apply bind_app. Qed.

Lemma turn_spec n t : manager_ok n -> exists n' out done, turn n t = Ret (n', out) /\ manager_ok n' /\ same_routes n n' /\
  from_sessions (sessions (swarm n)) ++ ti_sessions t = done ++ from_sessions (sessions (swarm n')) /\
  deliveries out = routed n (omap forwarded done).
Proof.
  intros Hok. unfold turn.
  destruct (match ti_handle t with Some msg => _ | None => _ end) as [n1 out1] eqn:E1.
  assert (manager_ok n1 /\ same_routes n n1 /\ deliveries out1 = [] /\
    from_sessions (sessions (swarm n1)) = from_sessions (sessions (swarm n))) as (Hok1 & Hs1 & Hd1 & Hf1).
  { destruct (ti_handle t); [by eapply handle_message_ok|]. by injection E1 as <- <-. }
  set (n2 := match ti_eth t with Some e => on_eth_event n1 e | None => n1 end).
  assert (manager_ok n2 /\ same_routes n1 n2 /\ sessions (swarm n2) = sessions (swarm n1)) as ([Hu2 Hb2] & Hs2 & Hf2).
  { unfold n2. destruct (ti_eth t); [by apply eth_event_ok|done]. }
  destruct (swarm_poll_spec (ti_accepts t) (ti_closed t) (swarm n2) (from_sessions (sessions (swarm n2)) ++ ti_sessions t) Hu2 Hb2)
    as (w & ev & out2 & rest & dn & -> & Hl & Hst & Hbw & Ho2 & Hev). cbn [mbind outcome_bind].
  set (n3 := set_swarm n2 (set_sm w (set_queue (sessions w) rest))).
  assert (manager_ok n3) as Hok3 by (split; cbn; [by rewrite Hst|done]).
  destruct (match ev with Some e => _ | None => _ end) as [n4 out3] eqn:E3.
  assert (manager_ok n4 /\ same_routes n3 n4 /\ sessions (swarm n4) = sessions (swarm n3) /\
    deliveries out3 = routed n3 (event_message ev)) as (Hok4 & Hs4 & Hf4 & Hd3).
  { destruct ev as [[p|p m|p]|]; cbn in E3; injection E3 as <- <-; (split; [by destruct Hok3|]); (split; [done|]); (split; [done|]).
    - apply deliveries_none, Forall_fmap, Forall_true. done.
    - cbn. by rewrite app_nil_r, route_deliveries.
    - apply deliveries_none, Forall_fmap, Forall_true. done.
    - done. }
  exists n4, (out1 ++ out2 ++ out3), dn. split; [done|]. split; [done|].
  assert (same_routes n n3) as Hs3 by (destruct Hs1, Hs2; split; cbn; congruence).
  split; [destruct Hs3, Hs4; split; congruence|]. split; [rewrite Hf4, <- Hf1, <- Hf2; exact Hl|].
  rewrite !deliveries_app, Hd1, (session_not_delivery _ Ho2), Hd3, Hev. cbn. by apply routed_same.
Qed.

Lemma turns_spec l n : manager_ok n -> exists n' out done, turns n l = Ret (n', out) /\ manager_ok n' /\ same_routes n n' /\
  from_sessions (sessions (swarm n)) ++ (l ≫= ti_sessions) = done ++ from_sessions (sessions (swarm n')) /\
  deliveries out = routed n (omap forwarded done).
Proof.
  revert n. induction l as [|t l IH]; intros n Hok; cbn [turns].
  - exists n, [], []. cbn. by rewrite app_nil_r.
  - destruct (turn_spec n t Hok) as (n1 & out1 & d1 & -> & Hok1 & Hs1 & Hq1 & Hd1). cbn [mbind outcome_bind].
    destruct (IH n1 Hok1) as (n2 & out2 & d2 & -> & Hok2 & Hs2 & Hq2 & Hd2). cbn [mbind outcome_bind].
    exists n2, (out1 ++ out2), (d1 ++ d2). split; [done|]. split; [done|].
    split; [destruct Hs1, Hs2; split; congruence|]. split.
    + rewrite bind_cons, app_assoc, Hq1, <- !app_assoc. f_equal. done.
    + rewrite deliveries_app, Hd1, Hd2, omap_app, routed_app. f_equal. by apply routed_same.
Qed.

Lemma new_manager_ok v pool consensus : manager_ok (new_manager v pool consensus).
Proof. split; [done|]. constructor. Qed.

(** What the consensus and the order pool are told: who sent which message. *)
Definition told_consensus (o : NetOutput) : option (Address * StromMessage) :=
  match o with
  | ToConsensus (EPreProposal a p) => Some (a, MPrePropose p)
  | ToConsensus (EPreProposalAgg a p) => Some (a, MPreProposeAgg p)
  | ToConsensus (EProposal a p) => Some (a, MPropose p)
  | ToConsensus (EBundleUnlockAttestation a block bytes) => Some (a, MBundleUnlockAttestation block bytes)
  | _ => None
  end.

Definition told_pool (o : NetOutput) : option (PeerId * StromMessage) :=
  match o with
  | ToPool (IncomingOrders p orders) => Some (p, MPropagatePooledOrders orders)
  | ToPool (CancelOrder p request) => Some (p, MOrderCancellation request)
  | _ => None
  end.

(** The messages of the consensus and those about orders. *)
Definition consensus_ids : list StromMessageID := [IdPrePropose; IdPreProposeAgg; IdPropose; IdBundleUnlockAttestation].
Definition order_ids : list StromMessageID := [IdPropagatePooledOrders; IdOrderCancellation].

Definition messages_of (ids : list StromMessageID) (l : list (PeerId * StromMessage)) : list (PeerId * StromMessage) :=
  filter (fun x => message_id x.2 ∈ ids) l.

Lemma told_deliveries {A} (f : NetOutput -> option A) out : (forall o, delivery o = false -> f o = None) ->
  omap f (deliveries out) = omap f out.
Proof.
  intros Hf. unfold deliveries. induction out as [|o out IH]; [done|].
  destruct (delivery o) eqn:E.
  - rewrite filter_cons_True by done. cbn [omap list_omap]. by rewrite IH.
  - rewrite filter_cons_False by (by rewrite E). cbn [omap list_omap]. by rewrite IH, Hf.
Qed.

Lemma routed_told n l :
  omap told_consensus (routed n l) =
    (if to_consensus_manager n then prod_map peer_address id <$> messages_of consensus_ids l else []) /\
  omap told_pool (routed n l) = (if to_pool_manager n then messages_of order_ids l else []).
Proof.
  unfold messages_of. induction l as [|[p m] l [IH1 IH2]]; [by destruct (to_consensus_manager n), (to_pool_manager n)|].
  unfold routed in *. rewrite bind_cons, !omap_app, !filter_cons, IH1, IH2. cbn [fst snd].
  destruct m; cbn; repeat case_decide; try done; try (exfalso; set_solver);
    by destruct (to_consensus_manager n), (to_pool_manager n).
Qed.

(** C31. The network manager never stops, and it passes the messages of the sessions on
    exactly once and in order: what the sessions have sent is what was handled and
    what still waits; the consensus, when it is attached, was told exactly the
    pre-proposals, aggregations, proposals and attestations that were handled, each
    with the address of the peer that sent it; and the order pool, when it is
    attached, exactly the orders and cancellations, each with its peer. *)
Theorem messages_routed_once v pool consensus l : exists n out handled,
  turns (new_manager v pool consensus) l = Ret (n, out) /\
  (l ≫= ti_sessions) = handled ++ from_sessions (sessions (swarm n)) /\
  omap told_consensus out =
    (if consensus then prod_map peer_address id <$> messages_of consensus_ids (omap forwarded handled) else []) /\
  omap told_pool out = (if pool then messages_of order_ids (omap forwarded handled) else []).
Proof.
  destruct (turns_spec l _ (new_manager_ok v pool consensus)) as (n & out & handled & H & _ & _ & Hq & Hd).
  exists n, out, handled. split; [done|]. split; [done|].
  rewrite <- (told_deliveries told_consensus), <- (told_deliveries told_pool), Hd by (by intros [| | |]).
  apply routed_told.
Qed.

(** Reports about peers have no effect: however a peer misbehaves, no peer is ever
    tracked or banned for it. *)
Theorem reputation_has_no_effect v pool consensus l n out
    (H : turns (new_manager v pool consensus) l = Ret (n, out)) : untracked (state (swarm n)).
Proof.
  destruct (turns_spec l _ (new_manager_ok v pool consensus)) as (n' & out' & handled & H' & [Hu _] & _).
  rewrite H in H'. by injection H' as <- <-.
Qed.
End network_props.

(** ** Whom a node hears *)

Section heard.
Context `{WL : WireLib} `{CC : ConsensusCrypto} `{HI : HashIter}.

(** A session with a peer, with the validators at its start and its reports. *)
Record SessionTrace := {
  tr_sidecar : VerificationSidecar;
  tr_handle : StromSessionHandle;
  tr_nodes : gset Address;
  tr_inputs : list SessionInput;
  tr_state : StromSessionStates;
  tr_reports : list StromSessionMessage
}.

Definition trace_ok (r : SessionTrace) : Prop :=
  session_run (new_session (tr_sidecar r) (tr_handle r) (tr_nodes r)) (tr_inputs r) = Some (Ret (tr_state r, tr_reports r)).

(** The peer that an output of the network speaks of. *)
Definition speaker (o : NetOutput) : option Address :=
  match o with
  | ToPool (IncomingOrders p _) | ToPool (CancelOrder p _) => Some (peer_address p)
  | ToConsensus e => Some (sender e)
  | _ => None
  end.

Lemma route_speaker n p m o : o ∈ route n p m -> speaker o = Some (peer_address p) /\ delivery o = true.
Proof.
  destruct m; cbn; try destruct (to_consensus_manager n); try destruct (to_pool_manager n);
    rewrite ?list_elem_of_singleton; try (by intros ?%not_elem_of_nil); intros ->; done.
Qed.

(** C11. What a node hears comes over authenticated sessions: when the order pool or the consensus is
    given something in the name of a peer, a session with that peer had shown, in
    time, the signature of one of the validators that the node knew at its start. *)
Theorem only_validators_heard v pool consensus l n out traces o
    (Htr : Forall trace_ok traces)
    (Hin : forall x, x ∈ (l ≫= ti_sessions) -> exists r, r ∈ traces /\ x ∈ tr_reports r)
    (H : turns (new_manager v pool consensus) l = Ret (n, out)) (Ho : o ∈ out) (Hd : delivery o = true) :
  exists r i, r ∈ traces /\ speaker o = Some (peer_address (remote_id (tr_handle r))) /\
    i ∈ tr_inputs r /\ proves (tr_nodes r) i.
Proof.
  destruct (turns_spec l _ (new_manager_ok v pool consensus)) as (n' & out' & handled & H' & _ & _ & Hq & Hdel).
  rewrite H in H'. injection H' as <- <-.
  assert (o ∈ deliveries out) as Hin' by (by apply list_elem_of_filter). rewrite Hdel in Hin'.
  apply list_elem_of_bind in Hin' as ([p m] & Hr & (x & Hx & Hf)%list_elem_of_omap).
  destruct x as [| | |p' pm| |]; try done. injection Hf as -> <-.
  destruct (Hin (SValidMessage p pm)) as (r & Hrt & Hrep).
  { cbn in Hq. rewrite Hq. apply elem_of_app. by left. }
  eapply Forall_forall in Htr; [|exact Hrt].
  destruct (startup_run _ _ _ _ Htr) as (i & Hi & Hp); [by exists (SValidMessage p pm)|].
  exists r, i. split; [done|]. split; [|done]. apply route_speaker in Hr as [-> _]. do 2 f_equal.
  apply run_leads in Htr; [|done]. destruct Htr as [E|(rest & E & mid & fin & -> & Hm & Hfin)]; rewrite E in Hrep.
  - by apply not_elem_of_nil in Hrep.
  - apply elem_of_cons in Hrep as [?|Hrep]; [done|]. apply elem_of_app in Hrep as [Hrep|Hrep].
    + eapply Forall_forall in Hm; [|exact Hrep]. done.
    + destruct Hfin as [->| ->]; [by apply not_elem_of_nil in Hrep|]. by apply list_elem_of_singleton in Hrep.
Qed.
End heard.
