(* ===== verification/NetworkExamples.v ===== *)
(** * Examples of sessions and of the network

    A concrete encoding of the messages, and the theorems about sessions and the
    network applied to a session of two nodes. *)

From S2P Require Import Prelude Ray Orders Samples Storage Pool ConsensusTypes OrderKeys Eth.
From S2P Require Import Sessions SessionsProps Network NetworkProps.
From S2P Require Indexer.
Open Scope Z_scope.

(** ** An encoding of messages *)

Definition fill_code (s : OrderFillState) : Z * Z :=
  match s with Unfilled => (0, 0) | CompleteFill => (1, 0) | PartialFill v => (2, v) | Killed => (3, 0) end.
Definition fill_decode (c : Z * Z) : OrderFillState :=
  match c with (1, _) => CompleteFill | (2, v) => PartialFill v | (3, _) => Killed | _ => Unfilled end.

#[local] Instance fill_countable : Countable OrderFillState.
Proof. apply (inj_countable' fill_code fill_decode). by intros []. Defined.

#[local] Instance outcome_countable : Countable OrderOutcome.
Proof. apply (inj_countable' (fun o => (oo_id o, oo_outcome o)) (fun '(a, b) => Build_OrderOutcome a b)). by intros []. Defined.

#[local] Instance amm_countable : Countable NetAmmOrder.
Proof.
  apply (inj_countable' (fun o => match o with Buy a b => (true, a, b) | Sell a b => (false, a, b) end)
    (fun '(k, a, b) => if k : bool then Buy a b else Sell a b)). by intros [].
Defined.

#[local] Instance solution_countable : Countable PoolSolution.
Proof.
  apply (inj_countable' (fun s => (sol_id s, sol_ucp s, sol_searcher s, sol_amm_quantity s, sol_limit s, sol_reward_t0 s, sol_fee s))
    (fun '(a, b, c, d, e, f, g) => Build_PoolSolution a b c d e f g)). by intros [].
Defined.

#[local] Instance Proposal_eq_dec : EqDecision Proposal.
Proof. solve_decision. Defined.

#[local] Instance proposal_countable : Countable Proposal.
Proof.
  apply (inj_countable' (fun p => (prop_block_height p, prop_source p, prop_preproposals p, prop_solutions p, prop_signature p))
    (fun '(a, b, c, d, e) => Build_Proposal a b c d e)). by intros [].
Defined.

Definition to_code {A} `{Countable A} (a : A) : Z := Z.pos (countable.encode a).
Definition of_code {A} `{Countable A} (z : Z) : option A := match z with Z.pos p => decode p | _ => None end.

Lemma of_to_code {A} `{Countable A} (a : A) : of_code (to_code a) = Some a.
Proof. apply countable.decode_encode. Qed.

(** A list of words with its length before it. *)
Definition sized (l : Bytes) : Bytes := Z.of_nat (length l) :: l.

Definition unsized (l : Bytes) : option (Bytes * Bytes) :=
  match l with n :: l => Some (take (Z.to_nat n) l, drop (Z.to_nat n) l) | [] => None end.

Lemma unsized_sized l rest : unsized (sized l ++ rest) = Some (l, rest).
Proof. unfold unsized, sized. cbn. by rewrite Nat2Z.id, take_app_length, drop_app_length. Qed.

Definition message_words (m : StromMessage) : Bytes :=
  match m with
  | MStatus s => [0; st_version (status_state s); st_chain (status_state s); st_peer (status_state s);
                  st_timestamp (status_state s); to_code (status_signature s)]
  | MPrePropose p => [1; to_code p]
  | MPreProposeAgg a => [2; to_code a]
  | MPropose p => [3; to_code p]
  | MBundleUnlockAttestation block b => 4 :: block :: b
  | MPropagatePooledOrders orders => 5 :: (to_code <$> orders)
  | MOrderCancellation r => 6 :: Indexer.user_address r :: Indexer.cancel_order_id r :: Indexer.signature r
  end.

Definition message_of_words (l : Bytes) : option StromMessage :=
  match l with
  | [0; v; c; p; t; s] =>
      s ← of_code s; Some (MStatus {| status_state := {| st_version := v; st_chain := c; st_peer := p; st_timestamp := t |};
                                      status_signature := s |})
  | [1; p] => MPrePropose <$> of_code p
  | [2; p] => MPreProposeAgg <$> of_code p
  | [3; p] => MPropose <$> of_code p
  | 4 :: block :: b => Some (MBundleUnlockAttestation block b)
  | 5 :: l => MPropagatePooledOrders <$> mapM of_code l
  | 6 :: a :: o :: s =>
      Some (MOrderCancellation {| Indexer.signature := s; Indexer.user_address := a; Indexer.cancel_order_id := o |})
  | _ => None
  end.

Lemma mapM_of_code (l : list AllOrders) : mapM of_code (to_code <$> l) = Some l.
Proof.
  induction l as [|o l IH]; [done|]. cbn [fmap list_fmap mapM]. rewrite of_to_code. cbn [mbind option_bind].
  by rewrite IH.
Qed.

Lemma message_words_roundtrip m : message_of_words (message_words m) = Some m.
Proof.
  destruct m as [[[] ]| | | |block b|l|[]]; unfold message_words, message_of_words; try done.
  - by rewrite of_to_code.
  - by rewrite of_to_code.
  - by rewrite of_to_code.
  - by rewrite of_to_code.
  - by rewrite mapM_of_code.
Qed.

#[export] Instance sample_wire : WireLib := {|
  bincode_message := message_words;
  bincode_decode := message_of_words;
  bincode_roundtrip := message_words_roundtrip;
  rlp_encode := sized;
  rlp_decode := unsized;
  rlp_roundtrip := unsized_sized
|}.

(** ** A session of two nodes *)

Local Existing Instances sample_crypto iter_by_encoding.

Definition our_signer : AngstromSigner := new_signer (5 : @SecretKey sample_crypto).
Definition peer_signer : AngstromSigner := new_signer (9 : @SecretKey sample_crypto).

Definition sample_state (peer : PeerId) : StatusState :=
  {| st_version := 0; st_chain := 1; st_peer := peer; st_timestamp := 0 |}.

Definition sample_sidecar : VerificationSidecar :=
  {| sc_key := our_signer; sc_status := sample_state 0; has_sent := false; has_received := false |}.

Definition sample_handle : StromSessionHandle := {| remote_id := 9; commands_to_session := 1 |}.

Definition sample_nodes : gset Address := {[peer_address 9]}.

Definition peer_status : Status :=
  match build_status 1000 (sample_state 5) peer_signer with
  | Ret s => s
  | Panic => {| status_state := sample_state 5; status_signature := {| sig_r := 0; sig_s := 0; sig_y_parity := true |} |}
  end.

Definition quiet_input (now : Z) (conn : list Bytes) : SessionInput :=
  {| si_now := now; si_reserve := Reserved; si_capacity := 3; si_commands := []; si_commands_closed := false;
     si_conn := conn; si_conn_closed := false |}.

Definition sample_order_message : StromMessage := MPropagatePooledOrders [].

Definition sample_inputs : list SessionInput :=
  [quiet_input 1000 []; quiet_input 1200 [encode (protocol_message (MStatus peer_status))];
   quiet_input 1300 [encode (protocol_message sample_order_message)]].

Definition sample_reports : list StromSessionMessage :=
  [SEstablished sample_handle; SValidMessage 9 (protocol_message sample_order_message)].

Definition sample_end : StromSessionStates := InRegular {| regular_peer := 9; manager_buffer := [] |}.

Lemma sample_session : session_run (new_session sample_sidecar sample_handle sample_nodes) sample_inputs =
  Some (Ret (sample_end, sample_reports)).
Proof. vm_cast_no_check (eq_refl (Some (Ret (sample_end, sample_reports)))). Qed.

Lemma handshake_gates_messages_witness : exists i, i ∈ sample_inputs /\ proves sample_nodes i.
Proof.
  apply (handshake_gates_messages sample_sidecar sample_handle sample_nodes sample_inputs sample_end sample_reports
    (SValidMessage 9 (protocol_message sample_order_message))).
  - apply sample_session.
  - right. left.
  - reflexivity.
Defined.

Lemma session_reports_ordered_witness : sample_reports = [] \/ exists mid fin,
  sample_reports = SEstablished sample_handle :: mid ++ fin /\ Forall (about 9) mid /\ (fin = [] \/ fin = [SDisconnected 9]).
Proof.
  apply (session_reports_ordered sample_sidecar sample_handle sample_nodes sample_inputs sample_end sample_reports).
  apply sample_session.
Defined.

Definition our_status : Status :=
  match build_status 1000 (Sessions.with_peer (sample_state 0) 9) our_signer with Ret s => s | Panic => peer_status end.

Lemma honest_handshake_witness :
  session_run (new_session sample_sidecar sample_handle sample_nodes)
    [quiet_input 1000 []; quiet_input 1200 [encode (protocol_message (MStatus peer_status))]] =
    Some (Ret (sample_end, [SEstablished sample_handle])).
Proof.
  apply (honest_handshake sample_sidecar sample_handle sample_nodes peer_signer (sample_state 5) peer_status our_status 1000
    (quiet_input 1000 []) (quiet_input 1200 [encode (protocol_message (MStatus peer_status))]) []).
  - reflexivity.
  - apply elem_of_singleton. reflexivity.
  - vm_compute. reflexivity.
  - vm_compute. reflexivity.
  - reflexivity.
  - reflexivity.
  - vm_compute. discriminate.
  - split; [lia|reflexivity].
Defined.

(** ** The network *)

Definition sample_turn (l : list StromSessionMessage) : TurnInput :=
  {| ti_handle := None; ti_eth := None; ti_sessions := l; ti_accepts := fun _ => true; ti_closed := fun _ => false;
     ti_open := fun _ => true |}.

Definition sample_turns : list TurnInput := [sample_turn sample_reports; sample_turn []].

Definition sample_network : outcome (StromNetworkManager * list NetOutput) :=
  turns (new_manager sample_nodes true true) sample_turns.

Definition sample_trace : SessionTrace :=
  {| tr_sidecar := sample_sidecar; tr_handle := sample_handle; tr_nodes := sample_nodes; tr_inputs := sample_inputs;
     tr_state := sample_end; tr_reports := sample_reports |}.

Lemma reputation_has_no_effect_witness : exists n out, sample_network = Ret (n, out) /\ untracked (state (swarm n)).
Proof.
  destruct sample_network as [[n out]|] eqn:E; [|vm_compute in E; discriminate].
  exists n, out. split; [reflexivity|]. exact (reputation_has_no_effect sample_nodes true true sample_turns n out E).
Defined.

Lemma only_validators_heard_witness : exists r i, r ∈ [sample_trace] /\
  Some (peer_address 9) = Some (peer_address (remote_id (tr_handle r))) /\ i ∈ tr_inputs r /\ proves (tr_nodes r) i.
Proof.
  destruct sample_network as [[n out]|] eqn:E; [|vm_compute in E; discriminate].
  assert (out = [ToPool (IncomingOrders 9 [])]) as Eout by (vm_compute in E; congruence).
  apply (only_validators_heard sample_nodes true true sample_turns n out [sample_trace] (ToPool (IncomingOrders 9 []))).
  - apply Forall_singleton. apply sample_session.
  - intros x Hx. exists sample_trace. split; [left|exact Hx].
  - exact E.
  - rewrite Eout. left.
  - reflexivity.
Defined.

(** ** A refused session *)

Definition second_handle : StromSessionHandle := {| remote_id := 9; commands_to_session := 2 |}.

(** A second session with a peer is refused, but when it then reports its end, the
    first one is forgotten; the end of the first one makes the number of the peers
    wrap around. *)
Lemma refused_session_ends_first : exists n out,
  turns (new_manager sample_nodes true true)
    [sample_turn [SEstablished sample_handle]; sample_turn [SEstablished second_handle; SDisconnected 9];
     sample_turn [SDisconnected 9]; sample_turn []] = Ret (n, out) /\
  num_active_peers n = 2 ^ 64 - 1.
Proof. eexists _, _. vm_compute. split; reflexivity. Qed.

(** ** A status of somebody else *)

Definition other_handle : StromSessionHandle := {| remote_id := 7; commands_to_session := 3 |}.

(** Peer 7, which is no validator, shows the status that validator 9 signed for node 5,
    and is heard. *)
Lemma foreign_status_accepted :
  session_run (new_session sample_sidecar other_handle sample_nodes) sample_inputs =
  Some (Ret (InRegular {| regular_peer := 7; manager_buffer := [] |},
             [SEstablished other_handle; SValidMessage 7 (protocol_message sample_order_message)])).
Proof.
  vm_cast_no_check (eq_refl (Some (Ret (InRegular {| regular_peer := 7; manager_buffer := [] |},
    [SEstablished other_handle; SValidMessage 7 (protocol_message sample_order_message)])))).
Qed.
