(* ===== verification/Cache.v ===== *)
(** * The cache of what a peer has seen

    The model of [crates/angstrom-net/src/cache.rs]: a set of limited size from which
    the oldest entry is removed. *)

From S2P Require Import Prelude Ray Orders.
Open Scope Z_scope.

(** What the cache uses of [LinkedHashSet] of [linked_hash_set], a set in the order of
    the insertions: [insert] puts the entry at the end, also when it was there, and
    says whether it is new. *)
Class LinkedSet : Type := {
  LinkedHashSet : Type;
  ls_iter : LinkedHashSet -> list B256;
  ls_new : LinkedHashSet;
  ls_insert : B256 -> LinkedHashSet -> LinkedHashSet * bool;
  ls_len : LinkedHashSet -> Z;
  ls_pop_front : LinkedHashSet -> LinkedHashSet;
  ls_contains : LinkedHashSet -> B256 -> bool;
  ls_iter_new : ls_iter ls_new = [];
  ls_iter_insert : forall x s, ls_iter (ls_insert x s).1 = filter (.≠ x) (ls_iter s) ++ [x];
  ls_insert_new : forall x s, (ls_insert x s).2 = negb (ls_contains s x);
  ls_len_iter : forall s, ls_len s = Z.of_nat (length (ls_iter s));
  ls_iter_pop : forall s, ls_iter (ls_pop_front s) = tail (ls_iter s);
  ls_contains_iter : forall s x, ls_contains s x = bool_decide (x ∈ ls_iter s)
}.

Section cache.
Context `{LS : LinkedSet}.

Record LruCache := { limit : Z; inner : LinkedHashSet }.
Implicit Types (c : LruCache) (x y : B256).

Definition new_cache (n : Z) : LruCache := {| limit := n; inner := ls_new |}.

Definition remove_lru c : LruCache := {| limit := limit c; inner := ls_pop_front (inner c) |}.

Definition cache_insert c x : LruCache * bool :=
  let '(s, fresh) := ls_insert x (inner c) in
  let c := {| limit := limit c; inner := s |} in
  if fresh then ((if limit c =? ls_len s then remove_lru c else c), true) else (c, false).

Definition contains c x : bool := ls_contains (inner c) x.

Definition cache_iter c : list B256 := ls_iter (inner c).

Definition extend c (l : list B256) : LruCache := foldl (fun c x => (cache_insert c x).1) c l.

(** ** What the cache holds *)

(** Fewer entries than the limit, each of them once. *)
Definition cache_ok c : Prop := 2 <= limit c /\ Z.of_nat (length (cache_iter c)) < limit c /\ NoDup (cache_iter c).

Lemma contains_iter c x : contains c x = bool_decide (x ∈ cache_iter c).
Proof. apply ls_contains_iter. Qed.

Lemma contains_true c x : contains c x = true <-> x ∈ cache_iter c.
Proof. rewrite contains_iter. apply bool_decide_eq_true. Qed.

(** The entries after an insertion, as a function of the entries before. *)
Lemma insert_iter c x : cache_iter (cache_insert c x).1 =
  let l := filter (.≠ x) (cache_iter c) ++ [x] in
  if negb (contains c x) && (limit c =? Z.of_nat (length l)) then tail l else l.
Proof.
  unfold cache_insert, cache_iter, contains. pose proof (ls_iter_insert x (inner c)) as Hi.
  pose proof (ls_insert_new x (inner c)) as Hn. destruct (ls_insert x (inner c)) as [s fresh]. cbn in Hi, Hn. subst fresh.
  rewrite <- Hi, <- ls_len_iter. destruct (ls_contains (inner c) x); cbn; [done|].
  destruct (limit c =? ls_len s); cbn; [|done]. apply ls_iter_pop.
Qed.

Lemma insert_limit c x : limit (cache_insert c x).1 = limit c.
Proof. unfold cache_insert. destruct (ls_insert _ _) as [s []]; [|done]. cbn. by destruct (_ =? _). Qed.

Lemma insert_result c x : (cache_insert c x).2 = negb (contains c x).
Proof.
  unfold cache_insert, contains. rewrite <- ls_insert_new. by destruct (ls_insert _ _) as [s []].
Qed.

Lemma extend_limit c l : limit (extend c l) = limit c.
Proof. revert c. induction l as [|x l IH]; intros c; [done|]. cbn. unfold extend in IH. by rewrite IH, insert_limit. Qed.

Lemma filter_other_same (l : list B256) x : x ∉ l -> filter (.≠ x) l = l.
Proof.
  induction l as [|y l IH]; intros Hx; [done|]. apply not_elem_of_cons in Hx as [Hy Hx].
  rewrite filter_cons_True by auto. by rewrite IH.
Qed.

Lemma filter_other_length (l : list B256) x : NoDup l -> x ∈ l -> S (length (filter (.≠ x) l)) = length l.
Proof.
  induction 1 as [|y l Hy _ IH]; intros Hx; [by apply not_elem_of_nil in Hx|].
  destruct (decide (y = x)) as [->|Hne].
  - rewrite filter_cons_False by auto. by rewrite filter_other_same.
  - rewrite filter_cons_True by done. cbn. f_equal. apply IH. by apply elem_of_cons in Hx as [->|].
Qed.

Lemma NoDup_snoc_other (l : list B256) x : NoDup l -> NoDup (filter (.≠ x) l ++ [x]).
Proof.
  intros Hl. apply NoDup_app. split; [by apply NoDup_filter|]. split; [|apply NoDup_singleton].
  intros y (Hy & _)%list_elem_of_filter Hx. by apply list_elem_of_singleton in Hx.
Qed.

Lemma cache_insert_ok c x : cache_ok c -> cache_ok (cache_insert c x).1.
Proof.
  intros (H2 & Hl & Hd). unfold cache_ok. rewrite insert_limit, insert_iter. split; [done|]. cbn.
  pose proof (NoDup_snoc_other _ x Hd) as Hnd. rewrite contains_iter. case_bool_decide as Hin; cbn.
  - split; [|done]. rewrite length_app. cbn. pose proof (filter_other_length _ x Hd Hin). lia.
  - rewrite (filter_other_same _ x Hin) in *. rewrite length_app. cbn.
    destruct (Z.eqb_spec (limit c) (Z.of_nat (length (cache_iter c) + 1))) as [E|E].
    + destruct (cache_iter c) as [|y l]; cbn in *; [lia|]. rewrite length_app. cbn. split; [lia|].
      by apply NoDup_cons in Hnd as [_ ?].
    + rewrite length_app. cbn. split; [lia|done].
Qed.

Lemma extend_ok c l : cache_ok c -> cache_ok (extend c l).
Proof. revert c. induction l as [|x l IH]; intros c Hc; [done|]. cbn. apply IH. by apply cache_insert_ok. Qed.

Lemma new_cache_ok n : 2 <= n -> cache_ok (new_cache n).
Proof.
  intros Hn. unfold cache_ok, cache_iter. cbn. rewrite ls_iter_new. cbn. split; [done|]. split; [lia|constructor].
Qed.

(** ** How long an entry stays *)

(** [x] is there, with at most [k] entries behind it. *)
Definition recent (k : nat) x (l : list B256) : Prop := exists a b, l = a ++ x :: b /\ (length b <= k)%nat.

Lemma recent_elem k x l : recent k x l -> x ∈ l.
Proof. intros (a & b & -> & _). set_solver. Qed.

Lemma insert_recent c x : cache_ok c -> recent 0 x (cache_iter (cache_insert c x).1).
Proof.
  intros (H2 & Hl & Hd). rewrite insert_iter. cbn. destruct (negb _ && _) eqn:E.
  - apply andb_prop in E as [_ E%Z.eqb_eq]. destruct (filter _ _) as [|y l] eqn:Ef; cbn in *; [lia|]. by exists l, [].
  - by exists (filter (.≠ x) (cache_iter c)), [].
Qed.

Lemma insert_other_recent c x y k : cache_ok c -> Z.of_nat k + 2 < limit c ->
  recent k x (cache_iter c) -> recent (S k) x (cache_iter (cache_insert c y).1).
Proof.
  intros Hok Hk (a & b & E & Hb). rewrite insert_iter. cbn zeta.
  destruct (decide (x = y)) as [->|Hne].
  - rewrite contains_iter, bool_decide_true by (rewrite E; set_solver). cbn. exists (filter (.≠ y) (cache_iter c)), []. split; [done|]. cbn. lia.
  - assert (filter (.≠ y) (cache_iter c) ++ [y] = filter (.≠ y) a ++ x :: (filter (.≠ y) b ++ [y])) as ->.
    { rewrite E, filter_app, filter_cons_True by done. by rewrite <- app_assoc. }
    assert (length (filter (.≠ y) b ++ [y]) <= S k)%nat as Hlen.
    { rewrite length_app. cbn. pose proof (length_filter (fun z => z ≠ y) b). lia. }
    destruct (negb _ && _) eqn:Et; [|by exists (filter (.≠ y) a), (filter (.≠ y) b ++ [y])].
    apply andb_prop in Et as [_ Et%Z.eqb_eq]. destruct (filter (.≠ y) a) as [|z a'].
    + cbn [length app] in Et. lia.
    + by exists a', (filter (.≠ y) b ++ [y]).
Qed.

Lemma extend_recent l c x k : cache_ok c -> Z.of_nat (k + length l) + 1 < limit c ->
  recent k x (cache_iter c) -> x ∈ cache_iter (extend c l).
Proof.
  revert c k. induction l as [|y l IH]; intros c k Hok Hk Hr; cbn in *; [by eapply recent_elem|].
  apply (IH _ (S k)); [by apply cache_insert_ok|rewrite insert_limit; lia|]. apply insert_other_recent; [done|lia|done].
Qed.

(** An entry stays for as many insertions as the limit allows. *)
Lemma extend_keeps c x l : cache_ok c -> Z.of_nat (length l) + 1 < limit c ->
  contains (extend (cache_insert c x).1 l) x = true.
Proof.
  intros Hok Hl. apply contains_true. apply (extend_recent _ _ _ 0); [by apply cache_insert_ok|by rewrite insert_limit|].
  by apply insert_recent.
Qed.
End cache.

(** ** A list as a linked set *)

Definition list_linked_set : LinkedSet.
Proof.
  refine {| LinkedHashSet := list B256; ls_iter := fun s => s; ls_new := [];
            ls_insert := fun x s => (filter (.≠ x) s ++ [x], negb (bool_decide (x ∈ s)));
            ls_len := fun s => Z.of_nat (length s); ls_pop_front := tail;
            ls_contains := fun s x => bool_decide (x ∈ s) |}; done.
Defined.
