(* ===== verification/Gossip.v ===== *)
(** * The gossip of orders

    The model of [crates/angstrom-net/src/pool_manager.rs]: the task that owns the
    order indexer, answers the commands of the RPC, and passes orders and
    cancellations on to the peers that have not seen them.  The channels are queues;
    what arrives, the clock and what other modules do to the block synchronisation
    between two turns are inputs. *)

From S2P Require Import Prelude Ray Orders Samples StateValidation BlockSync ConsensusTypes Eth Sessions Network Cache.
From S2P Require Indexer Storage Validator Subscribers.
Open Scope Z_scope.

(** ** The handle of the RPC *)

Inductive OrderCommand :=
| NewOrderCommand (origin : OrderOrigin) (order : AllOrders) (tx : Subscribers.Sender)
| CancelOrderCommand (request : Indexer.CancelOrderRequest) (tx : Subscribers.Sender)
| PendingOrdersCommand (from : Address) (tx : Subscribers.Sender)
| OrdersByPoolCommand (pool : PoolId) (location : OrderLocation) (tx : Subscribers.Sender)
| OrderStatusCommand (hash : B256) (tx : Subscribers.Sender).

(** What [PoolHandle::new_order] makes of the reply; [None]: the channel failed. *)
Definition new_order_reply (hash : B256) (res : option Subscribers.OrderValidationResults)
    : result B256 OrderValidationError :=
  match res with
  | None => Err (UnknownValidationError "a channel failed on the backend")
  | Some (Subscribers.TransitionedToBlock _) | Some (Subscribers.Valid _) => Ok hash
  | Some (Subscribers.Invalid _ e) => Err e
  end.

Definition MODULE_NAME : string := "Order Pool".
Definition PEER_ORDER_CACHE_LIMIT : Z := 1024 * 10.

(** What the manager tells the network and answers to the RPC. *)
Inductive PoolOutput :=
| ToNetwork (msg : StromNetworkHandleMsg)
| ReplyCancel (tx : Subscribers.Sender) (res : bool)
| ReplyOrders (tx : Subscribers.Sender) (orders : list AllOrders)
| ReplyStatus (tx : Subscribers.Sender) (status : option OrderStatus).

Definition into_all_orders (s : Storage.OrderSet) : list AllOrders :=
  (order <$> Storage.limit s) ++ ((fun o => TOB (order o)) <$> Storage.searcher s).

Section gossip.
Context `{AL : ArithLib} `{OH : OrderHasher} `{HI : HashIter} `{SL : Indexer.SignatureLib}.
Context `{PH : PoolHasher} `{LS : LinkedSet}.

Record StromPeer := { peer_orders : LruCache; peer_cancellations : LruCache }.

Record PoolManager := {
  order_indexer : Indexer.OrderIndexer;
  global_sync : GlobalBlockSync;
  strom_network_events : list StromNetworkEvent;
  eth_network_events : list EthEvent;
  command_rx : list OrderCommand;
  order_events : list NetworkOrderEvent;
  peer_to_info : gmap PeerId StromPeer
}.

Implicit Types (m : PoolManager) (o : AllOrders).

Definition set_indexer m i : PoolManager :=
  {| order_indexer := i; global_sync := global_sync m; strom_network_events := strom_network_events m;
     eth_network_events := eth_network_events m; command_rx := command_rx m; order_events := order_events m;
     peer_to_info := peer_to_info m |}.
Definition set_sync m s : PoolManager :=
  {| order_indexer := order_indexer m; global_sync := s; strom_network_events := strom_network_events m;
     eth_network_events := eth_network_events m; command_rx := command_rx m; order_events := order_events m;
     peer_to_info := peer_to_info m |}.
Definition set_info m info : PoolManager :=
  {| order_indexer := order_indexer m; global_sync := global_sync m; strom_network_events := strom_network_events m;
     eth_network_events := eth_network_events m; command_rx := command_rx m; order_events := order_events m;
     peer_to_info := info |}.
Definition set_queues m net eth cmds ords : PoolManager :=
  {| order_indexer := order_indexer m; global_sync := global_sync m; strom_network_events := net;
     eth_network_events := eth; command_rx := cmds; order_events := ords; peer_to_info := peer_to_info m |}.

(** The manager as it is built, registered with the synchronisation. *)
Definition build_with_channels (storage : Storage.OrderStorage) (block : u64) (sync : GlobalBlockSync)
    (replay : Indexer.OrderIndexer -> Indexer.OrderIndexer) : outcome PoolManager :=
  s ← register sync MODULE_NAME;
  Ret {| order_indexer := replay (Indexer.new storage block); global_sync := s; strom_network_events := [];
         eth_network_events := []; command_rx := []; order_events := []; peer_to_info := ∅ |}.

(** ** Broadcasts *)

(** The loop over the peers, each of which may be sent one message. *)
Fixpoint for_peers (f : PeerId -> StromPeer -> StromPeer * list PoolOutput) (l : list (PeerId * StromPeer))
    (info : gmap PeerId StromPeer) : gmap PeerId StromPeer * list PoolOutput :=
  match l with
  | [] => (info, [])
  | (p, peer) :: l' =>
      let '(peer, out) := f p peer in
      let '(info, out') := for_peers f l' (<[p := peer]> info) in
      (info, out ++ out')
  end.

Definition send_message (p : PeerId) (msg : StromMessage) : PoolOutput := ToNetwork (SendStromMessage p msg).

Definition cancel_to_peer (cancel : Indexer.CancelOrderRequest) (p : PeerId) (peer : StromPeer)
    : StromPeer * list PoolOutput :=
  let hash := Indexer.cancel_order_id cancel in
  if contains (peer_cancellations peer) hash then (peer, [])
  else ({| peer_orders := peer_orders peer; peer_cancellations := (cache_insert (peer_cancellations peer) hash).1 |},
        [send_message p (MOrderCancellation cancel)]).

Definition broadcast_cancel_to_peers m (cancel : Indexer.CancelOrderRequest) : PoolManager * list PoolOutput :=
  let '(info, out) := for_peers (cancel_to_peer cancel) (hm_iter (peer_to_info m)) (peer_to_info m) in
  (set_info m info, out).

Definition broadcast_order_to_peer (valid_orders : list AllOrders) (p : PeerId) : list PoolOutput :=
  [send_message p (MPropagatePooledOrders valid_orders)].

Definition learn_order (peer : StromPeer) (hash : B256) : StromPeer :=
  {| peer_orders := (cache_insert (peer_orders peer) hash).1; peer_cancellations := peer_cancellations peer |}.

Definition order_to_peer o (p : PeerId) (peer : StromPeer) : StromPeer * list PoolOutput :=
  let hash := order_hash o in
  if contains (peer_orders peer) hash then (peer, [])
  else (learn_order peer hash, [send_message p (MPropagatePooledOrders [o])]).

Fixpoint broadcast_orders_to_peers m (valid_orders : list AllOrders) : PoolManager * list PoolOutput :=
  match valid_orders with
  | [] => (m, [])
  | o :: l =>
      let '(info, out) := for_peers (order_to_peer o) (hm_iter (peer_to_info m)) (peer_to_info m) in
      let '(m, out') := broadcast_orders_to_peers (set_info m info) l in
      (m, out ++ out')
  end.

(** ** Handlers *)

Definition on_cancel (now : u64) m (req : Indexer.CancelOrderRequest) : PoolManager * bool * list PoolOutput :=
  let '(i, res) := Indexer.cancel_order now (order_indexer m) req in
  let m := set_indexer m i in
  let '(m, out) := if res then broadcast_cancel_to_peers m req else (m, []) in
  (m, res, out).

(** An order of the RPC is treated as external, whatever its origin. *)
Definition on_command (now : u64) m (cmd : OrderCommand) : outcome (PoolManager * list PoolOutput) :=
  match cmd with
  | NewOrderCommand _ o tx => Ret (set_indexer m (Indexer.new_rpc_order (order_indexer m) External o tx), [])
  | CancelOrderCommand req tx => let '(m, res, out) := on_cancel now m req in Ret (m, out ++ [ReplyCancel tx res])
  | PendingOrdersCommand from tx =>
      Ret (m, [ReplyOrders tx (order <$> Indexer.pending_orders_for_address (order_indexer m) from)])
  | OrderStatusCommand hash tx => res ← Indexer.order_status (order_indexer m) hash; Ret (m, [ReplyStatus tx res])
  | OrdersByPoolCommand pool location tx =>
      Ret (m, [ReplyOrders tx (Indexer.orders_by_pool (order_indexer m) pool location)])
  end.

Definition on_eth_event m (eth : EthEvent) : outcome PoolManager :=
  match eth with
  | NewBlockTransitions block filled_orders address_changeset =>
      i ← Indexer.start_new_block_processing (order_indexer m) block filled_orders address_changeset;
      Ret (set_indexer m i)
  | ReorgedOrders orders first last =>
      let m := set_indexer m (Indexer.reorg (order_indexer m) orders) in
      s ← sign_off_reorg (global_sync m) MODULE_NAME first last;
      Ret (set_sync m s)
  | FinalizedBlock block => Ret (set_indexer m (Indexer.finalized_block (order_indexer m) block))
  | NewPool pool =>
      i ← Indexer.new_pool (order_indexer m)
        {| currency_in := currency0 pool; currency_out := currency1 pool; np_id := keccak_pool_key pool |};
      Ret (set_indexer m i)
  | RemovedPool pool => Ret (set_indexer m (Indexer.remove_pool (order_indexer m) (keccak_pool_key pool)))
  | AddedNode _ | RemovedNode _ | NewBlock _ => Ret m
  end.

Definition incoming_order (peer : PeerId) m o : PoolManager :=
  let m := set_info m (alter (fun info => learn_order info (order_hash o)) peer (peer_to_info m)) in
  set_indexer m (Indexer.new_network_order (order_indexer m) peer External o).

Definition on_network_order_event (now : u64) m (event : NetworkOrderEvent) : PoolManager * list PoolOutput :=
  match event with
  | IncomingOrders peer orders => (foldl (incoming_order peer) m orders, [])
  | CancelOrder _ request => let '(m, _, out) := on_cancel now m request in (m, out)
  end.

Definition new_peer : StromPeer :=
  {| peer_orders := new_cache PEER_ORDER_CACHE_LIMIT; peer_cancellations := new_cache PEER_ORDER_CACHE_LIMIT |}.

Definition on_network_event m (event : StromNetworkEvent) : outcome (PoolManager * list PoolOutput) :=
  match event with
  | SessionEstablished p =>
      let m := set_info m (<[p := new_peer]> (peer_to_info m)) in
      all_orders ← Indexer.get_all_orders_with_parked (order_indexer m);
      Ret (m, broadcast_order_to_peer (into_all_orders all_orders) p)
  | SessionClosed p | PeerRemoved p => Ret (set_info m (delete p (peer_to_info m)), [])
  | PeerAdded _ => Ret (m, [])
  end.

(** The closure of the [filter_map]. *)
Fixpoint pool_events m (l : list Indexer.PoolInnerEvent) : outcome (PoolManager * list AllOrders * list PoolOutput) :=
  match l with
  | [] => Ret (m, [], [])
  | e :: l' =>
      '(m, valid, out) ←
        match e with
        | Indexer.Propagation o => Ret (m, [o], [])
        | Indexer.BadOrderMessages peers => Ret (m, [], (fun p => ToNetwork (ReputationChange p InvalidOrder)) <$> peers)
        | Indexer.HasTransitionedToNewBlock block =>
            s ← sign_off_on_block (global_sync m) MODULE_NAME block; Ret (set_sync m s, [], [])
        | Indexer.NoEvent => Ret (m, [], [])
        end;
      '(m, valid', out') ← pool_events m l';
      Ret (m, valid ++ valid', out ++ out')
  end.

Definition on_pool_events m (l : list Indexer.PoolInnerEvent) : outcome (PoolManager * list PoolOutput) :=
  '(m, valid_orders, out) ← pool_events m l;
  let '(m, out') := broadcast_orders_to_peers m valid_orders in
  Ret (m, out ++ out').

(** ** The loop *)

Fixpoint drain_eth m (l : list EthEvent) : outcome PoolManager :=
  match l with [] => Ret m | e :: l' => m ← on_eth_event m e; drain_eth m l' end.

Fixpoint drain_network m (l : list StromNetworkEvent) : outcome (PoolManager * list PoolOutput) :=
  match l with
  | [] => Ret (m, [])
  | e :: l' => '(m, out) ← on_network_event m e; '(m, out') ← drain_network m l'; Ret (m, out ++ out')
  end.

(** The polls of the indexer, over what is ready at each of them, up to one that has
    nothing. *)
Fixpoint drain_pool (now : u64) m (rss : list (list Validator.Readiness)) : outcome (PoolManager * list PoolOutput) :=
  '(i, polled) ← Indexer.poll_next now (order_indexer m) (default [] (head rss));
  let m := set_indexer m i in
  match polled with
  | Validator.Ready (Some events) =>
      '(m, out) ← on_pool_events m events;
      match rss with
      | [] => Ret (m, out)
      | _ :: rss' => '(m, out') ← drain_pool now m rss'; Ret (m, out ++ out')
      end
  | _ => Ret (m, [])
  end.

(** What arrives before a turn of the loop. *)
Record PoolInput := {
  pi_now : u64;
  pi_eth : list EthEvent;
  pi_network : list StromNetworkEvent;
  pi_ready : list (list Validator.Readiness);
  pi_sync : GlobalBlockSync -> GlobalBlockSync;
  pi_commands : list OrderCommand;
  pi_orders : list NetworkOrderEvent
}.

Definition arrive m (i : PoolInput) : PoolManager :=
  set_sync (set_queues m (strom_network_events m ++ pi_network i) (eth_network_events m ++ pi_eth i)
    (command_rx m ++ pi_commands i) (order_events m ++ pi_orders i)) (pi_sync i (global_sync m)).

(** One command, if there is one. *)
Definition next_command (now : u64) m : outcome (PoolManager * list PoolOutput) :=
  match command_rx m with
  | [] => Ret (m, [])
  | cmd :: rest =>
      on_command now (set_queues m (strom_network_events m) (eth_network_events m) rest (order_events m)) cmd
  end.

Definition next_order_event (now : u64) m : PoolManager * list PoolOutput :=
  match order_events m with
  | [] => (m, [])
  | e :: rest =>
      on_network_order_event now (set_queues m (strom_network_events m) (eth_network_events m) (command_rx m) rest) e
  end.

(** One turn of the loop. *)
Definition pool_turn m (i : PoolInput) : outcome (PoolManager * list PoolOutput) :=
  let m := arrive m i in
  m ← drain_eth (set_queues m (strom_network_events m) [] (command_rx m) (order_events m)) (eth_network_events m);
  '(m, out1) ← drain_network (set_queues m [] (eth_network_events m) (command_rx m) (order_events m))
    (strom_network_events m);
  '(m, out2) ← drain_pool (pi_now i) m (pi_ready i);
  if can_operate (global_sync m) then
    '(m, out3) ← next_command (pi_now i) m;
    let '(m, out4) := next_order_event (pi_now i) m in
    Ret (m, out1 ++ out2 ++ out3 ++ out4)
  else Ret (m, out1 ++ out2).

(** The turns of the loop, 29 of them at each poll. *)
Fixpoint pool_run m (l : list PoolInput) : outcome (PoolManager * list PoolOutput) :=
  match l with
  | [] => Ret (m, [])
  | i :: l' => '(m, out) ← pool_turn m i; '(m, out') ← pool_run m l'; Ret (m, out ++ out')
  end.
End gossip.
