(* ===== verification/GossipProps.v ===== *)
(** * Correctness of the gossip

    Every order that the node accepts reaches every peer that has not seen it; a peer
    is not told an order twice, nor one that it has sent itself; the peers are those
    with an open session; and every query of the RPC is answered exactly once. *)

From S2P Require Import Prelude Ray Orders Samples StateValidation BlockSync ConsensusTypes Eth Sessions Network Cache Gossip.
From S2P Require Indexer Storage Validator Subscribers.
Open Scope Z_scope.

Section gossip_props.
Context `{AL : ArithLib} `{OH : OrderHasher} `{HI : HashIter} `{SL : Indexer.SignatureLib}.
Context `{PH : PoolHasher} `{LS : LinkedSet}.
Implicit Types (m : PoolManager) (o : AllOrders) (out : list PoolOutput) (p : PeerId) (peer : StromPeer).

(** ** Broadcasts *)

(** The messages to a peer. *)
Definition send_to p (x : PoolOutput) : option StromMessage :=
  match x with ToNetwork (SendStromMessage q msg) => if decide (q = p) then Some msg else None | _ => None end.

Definition sends p out : list StromMessage := omap (send_to p) out.

#[local] Arguments sends : simpl never.
#[local] Arguments order_hash : simpl never.

Lemma sends_app p a b : sends p (a ++ b) = sends p a ++ sends p b.
Proof. apply omap_app. Qed.

(** A visit of a peer speaks to that peer only. *)
Definition addressed (f : PeerId -> StromPeer -> StromPeer * list PoolOutput) : Prop :=
  forall p q peer, q <> p -> sends p (f q peer).2 = [].

Lemma for_peers_spec f l info p : addressed f -> NoDup l.*1 ->
  (p ∉ l.*1 -> (for_peers f l info).1 !! p = info !! p /\ sends p (for_peers f l info).2 = []) /\
  (forall peer, (p, peer) ∈ l -> (for_peers f l info).1 !! p = Some (f p peer).1 /\
     sends p (for_peers f l info).2 = sends p (f p peer).2).
Proof.
  intros Ha. revert info. induction l as [|[q peer0] l IH]; intros info Hd; cbn [for_peers fmap list_fmap].
  { split; [done|]. by intros peer ?%not_elem_of_nil. }
  cbn in Hd. apply NoDup_cons in Hd as [Hq Hd]. destruct (f q peer0) as [peer1 out1] eqn:Ef.
  destruct (IH (<[q := peer1]> info) Hd) as [IH1 IH2]. destruct (for_peers f l _) as [info' out'] eqn:El. cbn in *.
  rewrite !sends_app. split.
  - intros [Hne Hp]%not_elem_of_cons. destruct (IH1 Hp) as [-> ->]. rewrite lookup_insert_ne by done. split; [done|].
    pose proof (Ha p q peer0 (not_eq_sym Hne)) as E. rewrite Ef in E. cbn in E. by rewrite E.
  - intros peer [[= -> ->]|Hin]%elem_of_cons.
    + destruct (IH1 Hq) as [-> ->]. by rewrite Ef, lookup_insert_eq, app_nil_r.
    + destruct (IH2 peer Hin) as [-> ->]. split; [done|]. assert (q <> p) as Hne.
      { intros ->. apply Hq. apply list_elem_of_fmap. by exists (p, peer). }
      pose proof (Ha p q peer0 Hne) as E. rewrite Ef in E. cbn in E. by rewrite E.
Qed.

(** What a broadcast does to one peer, in whatever order the peers are visited. *)
Lemma broadcast_each f info p : addressed f ->
  (for_peers f (hm_iter info) info).1 !! p = (fun peer => (f p peer).1) <$> info !! p /\
  sends p (for_peers f (hm_iter info) info).2 =
    match info !! p with Some peer => sends p (f p peer).2 | None => [] end.
Proof.
  intros Ha. pose proof (NoDup_hm_keys info) as Hd.
  destruct (for_peers_spec f (hm_iter info) info p Ha Hd) as [H1 H2].
  destruct (info !! p) as [peer|] eqn:Ep; cbn.
  - apply H2. by apply elem_of_hm_iter.
  - apply H1. intros ([q peer] & -> & Hin%elem_of_hm_iter)%list_elem_of_fmap. cbn in *. congruence.
Qed.

Lemma order_to_peer_addressed o : addressed (order_to_peer o).
Proof.
  intros p q peer Hne. unfold order_to_peer. destruct (contains _ _); [done|]. unfold sends. cbn. by rewrite decide_False.
Qed.

Lemma cancel_to_peer_addressed r : addressed (cancel_to_peer r).
Proof.
  intros p q peer Hne. unfold cancel_to_peer. destruct (contains _ _); [done|]. unfold sends. cbn. by rewrite decide_False.
Qed.

(** The orders of a list that are new to a peer, and what it knows after them. *)
Fixpoint news (c : LruCache) (l : list AllOrders) : LruCache * list AllOrders :=
  match l with
  | [] => (c, [])
  | o :: l' =>
      if contains c (order_hash o) then news c l'
      else let '(c, n) := news (cache_insert c (order_hash o)).1 l' in (c, o :: n)
  end.

Definition with_orders peer c : StromPeer := {| peer_orders := c; peer_cancellations := peer_cancellations peer |}.

Lemma broadcast_orders_each l m p :
  peer_to_info (broadcast_orders_to_peers m l).1 !! p =
    (fun peer => with_orders peer (news (peer_orders peer) l).1) <$> peer_to_info m !! p /\
  sends p (broadcast_orders_to_peers m l).2 =
    match peer_to_info m !! p with
    | Some peer => (fun o => MPropagatePooledOrders [o]) <$> (news (peer_orders peer) l).2
    | None => []
    end.
Proof.
  revert m. induction l as [|o l IH]; intros m; cbn [broadcast_orders_to_peers news].
  { cbn. destruct (peer_to_info m !! p) as [[]|]; done. }
  destruct (broadcast_each _ (peer_to_info m) p (order_to_peer_addressed o)) as [H1 H2].
  destruct (for_peers (order_to_peer o) _ _) as [info out]. cbn in H1, H2. specialize (IH (set_info m info)).
  destruct (broadcast_orders_to_peers _ l) as [m' out']. cbn in *. destruct IH as [-> IH2]. rewrite sends_app, H2, IH2, H1.
  destruct (peer_to_info m !! p) as [peer|]; [|done]. cbn. unfold order_to_peer.
  unfold sends.
  destruct (contains (peer_orders peer) (order_hash o)) eqn:Ec; cbn; [done|].
  destruct (news _ l) as [c n]. cbn. by rewrite decide_True.
Qed.

(** Gossip is exact: whatever the order in which the peers are visited, each of
    them is sent those of the accepted orders that it does not know, in their order,
    and is noted to know them; nobody else is sent anything. *)
Theorem gossip_exact m l p :
  sends p (broadcast_orders_to_peers m l).2 =
    match peer_to_info m !! p with
    | Some peer => (fun o => MPropagatePooledOrders [o]) <$> (news (peer_orders peer) l).2
    | None => []
    end /\
  (peer_orders <$> peer_to_info (broadcast_orders_to_peers m l).1 !! p) =
    (fun peer => (news (peer_orders peer) l).1) <$> peer_to_info m !! p.
Proof.
  destruct (broadcast_orders_each l m p) as [H1 H2]. split; [done|]. rewrite H1. by destruct (peer_to_info m !! p).
Qed.

(** ** Accepted orders *)

Lemma cache_insert_contains (c : LruCache) x y : contains (cache_insert c x).1 y = true -> y = x \/ contains c y = true.
Proof.
  rewrite !contains_true, insert_iter. cbn zeta. intros H.
  assert (y ∈ filter (.≠ x) (cache_iter c) ++ [x]) as Hy.
  { destruct (negb _ && _); [|done]. destruct (filter _ _ ++ [x]); [done|]. by right. }
  apply elem_of_app in Hy as [[_ Hy]%list_elem_of_filter|Hy%list_elem_of_singleton]; auto.
Qed.

Lemma news_reaches c l o : o ∈ l -> contains c (order_hash o) = true \/
  exists o', o' ∈ (news c l).2 /\ order_hash o' = order_hash o.
Proof.
  revert c. induction l as [|o1 l IH]; intros c Ho; [by apply not_elem_of_nil in Ho|]. cbn [news].
  destruct (contains c (order_hash o1)) eqn:Ec.
  - apply elem_of_cons in Ho as [->|Ho]; [by left|]. by apply IH.
  - specialize (IH (cache_insert c (order_hash o1)).1). destruct (news (cache_insert c (order_hash o1)).1 l) as [c' n].
    cbn in *. apply elem_of_cons in Ho as [->|Ho]; [right; exists o1; split; [left|done]|].
    destruct (IH Ho) as [Hk|(o' & Ho' & E)].
    + apply cache_insert_contains in Hk as [E|Hk]; [|by left]. right. exists o1. split; [left|done].
    + right. exists o'. split; [by right|done].
Qed.

Lemma pool_events_spec m l m' valid out : pool_events m l = Ret (m', valid, out) ->
  peer_to_info m' = peer_to_info m /\ (forall p, sends p out = []) /\
  valid = omap (fun e => match e with Indexer.Propagation o => Some o | _ => None end) l.
Proof.
  revert m m' valid out. induction l as [|e l IH]; intros m m' valid out H; cbn in H; [by injection H as <- <- <-|].
  apply bind_Ret in H as ([[m1 v1] out1] & H1 & H). apply bind_Ret in H as ([[m2 v2] out2] & H2 & [= <- <- <-]).
  apply IH in H2 as (E2 & Hs2 & ->). rewrite E2.
  assert (peer_to_info m1 = peer_to_info m /\ (forall p, sends p out1 = []) /\
    v1 = match e with Indexer.Propagation o => [o] | _ => [] end) as (-> & Hs1 & ->).
  { destruct e; [by injection H1 as <- <- <-| |apply bind_Ret in H1 as (s & _ & [= <- <- <-]); done|by injection H1 as <- <- <-].
    injection H1 as <- <- <-. split; [done|]. split; [|done]. intros p. by induction peers. }
  split; [done|]. split; [|by destruct e]. intros p. by rewrite sends_app, Hs1, Hs2.
Qed.

(** C39. Every accepted order reaches every peer: after the indexer has reported its
    events, a connected peer had seen each order that is to be propagated before, or
    it is sent that order. *)
Theorem accepted_orders_reach_peers m evs m' out o p peer
    (H : on_pool_events m evs = Ret (m', out)) (Ho : Indexer.Propagation o ∈ evs) (Hp : peer_to_info m !! p = Some peer) :
  contains (peer_orders peer) (order_hash o) = true \/
  exists o', order_hash o' = order_hash o /\ MPropagatePooledOrders [o'] ∈ sends p out.
Proof.
  unfold on_pool_events in H. apply bind_Ret in H as ([[m1 valid] out1] & H1 & H).
  apply pool_events_spec in H1 as (E1 & Hs1 & ->).
  set (valid := omap _ evs) in *. destruct (broadcast_orders_each valid m1 p) as [_ Hs]. rewrite E1, Hp in Hs.
  destruct (broadcast_orders_to_peers m1 valid) as [m2 out2]. injection H as <- <-. cbn in Hs. rewrite sends_app, Hs1, Hs.
  destruct (news_reaches (peer_orders peer) valid o) as [?|(o' & Ho' & E)]; [|by left|].
  - apply list_elem_of_omap. by exists (Indexer.Propagation o).
  - right. exists o'. split; [done|]. apply list_elem_of_fmap. by exists o'.
Qed.

(** ** What a handler leaves alone *)

Definition reply_to (x : PoolOutput) : option Subscribers.Sender :=
  match x with ReplyCancel tx _ | ReplyOrders tx _ | ReplyStatus tx _ => Some tx | ToNetwork _ => None end.

Definition replies out : list Subscribers.Sender := omap reply_to out.

#[local] Arguments replies : simpl never.

Lemma replies_app a b : replies (a ++ b) = replies a ++ replies b.
Proof. apply omap_app. Qed.

(** The queues and the set of the peers stay, and [txs] are answered. *)
Record frame m m' out (txs : list Subscribers.Sender) : Prop := {
  fr_net : strom_network_events m' = strom_network_events m;
  fr_cmd : command_rx m' = command_rx m;
  fr_ord : order_events m' = order_events m;
  fr_peers : dom (peer_to_info m') = dom (peer_to_info m);
  fr_replies : replies out = txs
}.

Lemma frame_refl m : frame m m [] [].
Proof. by split. Qed.

Lemma frame_trans m1 m2 m3 out1 out2 t1 t2 : frame m1 m2 out1 t1 -> frame m2 m3 out2 t2 ->
  frame m1 m3 (out1 ++ out2) (t1 ++ t2).
Proof. intros [] []. split; try congruence. rewrite replies_app. congruence. Qed.

(** ** What a peer is told *)

(** An exchange with a peer: the hash of an order that it sent or was sent. *)
Inductive exchange := Received (h : B256) | Told (h : B256).

Definition hash_of (x : exchange) : B256 := match x with Received h | Told h => h end.
Definition is_received (x : exchange) : option B256 := match x with Received h => Some h | Told _ => None end.
Definition is_told (x : exchange) : option B256 := match x with Told h => Some h | Received _ => None end.

(** The exchanges with a peer that lead from what it knew to what it knows: it is told
    only what it does not know. *)
Fixpoint follows (c : LruCache) (tr : list exchange) (c' : LruCache) : Prop :=
  match tr with
  | [] => c' = c
  | Received h :: tr => follows (cache_insert c h).1 tr c'
  | Told h :: tr => contains c h = false /\ follows (cache_insert c h).1 tr c'
  end.

Lemma follows_app c t1 c1 t2 c2 : follows c t1 c1 -> follows c1 t2 c2 -> follows c (t1 ++ t2) c2.
Proof.
  revert c. induction t1 as [|[h|h] t1 IH]; intros c H1 H2; cbn in *; [by subst|by apply IH|].
  destruct H1 as [Hc H1]. split; [done|]. by apply IH.
Qed.

(** The orders that a message tells. *)
Definition told_by (msg : StromMessage) : list B256 :=
  match msg with MPropagatePooledOrders l => order_hash <$> l | _ => [] end.

Definition told p out : list B256 := sends p out ≫= told_by.

#[local] Arguments told : simpl never.

Lemma told_app p a b : told p (a ++ b) = told p a ++ told p b.
Proof. unfold told. by rewrite sends_app, bind_app. Qed.

(** The part of a run that concerns a peer. *)
Definition talk p m m' out (rcv : list B256) : Prop := forall peer, peer_to_info m !! p = Some peer ->
  exists peer' tr, peer_to_info m' !! p = Some peer' /\ follows (peer_orders peer) tr (peer_orders peer') /\
    omap is_told tr = told p out /\ omap is_received tr = rcv.

Lemma talk_same p m m' out : peer_to_info m' !! p = peer_to_info m !! p -> told p out = [] -> talk p m m' out [].
Proof. intros E Ht peer Hp. exists peer, []. rewrite E, Ht. done. Qed.

Lemma talk_trans p m1 m2 m3 out1 out2 r1 r2 : talk p m1 m2 out1 r1 -> talk p m2 m3 out2 r2 ->
  talk p m1 m3 (out1 ++ out2) (r1 ++ r2).
Proof.
  intros H1 H2 peer Hp. destruct (H1 peer Hp) as (peer1 & t1 & Hp1 & F1 & T1 & R1).
  destruct (H2 peer1 Hp1) as (peer2 & t2 & Hp2 & F2 & T2 & R2). exists peer2, (t1 ++ t2).
  split; [done|]. split; [by eapply follows_app|]. by rewrite !omap_app, told_app, T1, T2, R1, R2.
Qed.

Lemma news_follows c l : follows c (Told <$> (order_hash <$> (news c l).2)) (news c l).1.
Proof.
  revert c. induction l as [|o l IH]; intros c; [done|]. cbn [news]. destruct (contains c (order_hash o)) eqn:Ec; [apply IH|].
  specialize (IH (cache_insert c (order_hash o)).1). destruct (news _ l). cbn. done.
Qed.

Lemma told_broadcast p m l peer : peer_to_info m !! p = Some peer ->
  told p (broadcast_orders_to_peers m l).2 = order_hash <$> (news (peer_orders peer) l).2.
Proof.
  intros Hp. unfold told. destruct (broadcast_orders_each l m p) as [_ ->]. rewrite Hp.
  induction (news (peer_orders peer) l).2 as [|o n IH]; [done|]. cbn. by rewrite <- IH.
Qed.

Lemma omap_told (l : list B256) : omap is_told (Told <$> l) = l.
Proof. induction l as [|h l IH]; [done|]. cbn. by f_equal. Qed.

Lemma omap_received_told (l : list B256) : omap is_received (Told <$> l) = [].
Proof. by induction l. Qed.

(** *** The handlers *)

Lemma for_peers_dom f l info : (forall p peer, (p, peer) ∈ l -> p ∈ dom info) -> dom (for_peers f l info).1 = dom info.
Proof.
  revert info. induction l as [|[q peer] l IH]; intros info Hl; [done|]. cbn [for_peers]. destruct (f q peer) as [peer1 out1].
  assert (q ∈ dom info) as Hq by (eapply Hl; left). specialize (IH (<[q := peer1]> info)).
  destruct (for_peers f l _) as [info' out']. cbn in *. rewrite dom_insert_L in IH. rewrite IH; [set_solver|].
  intros p' peer' Hin. apply elem_of_union_r. eapply Hl. by right.
Qed.

Lemma for_peers_replies f l info : (forall p peer, replies (f p peer).2 = []) -> replies (for_peers f l info).2 = [].
Proof.
  intros Hf. revert info. induction l as [|[q peer] l IH]; intros info; [done|]. cbn [for_peers].
  pose proof (Hf q peer) as Hq. destruct (f q peer) as [peer1 out1]. specialize (IH (<[q := peer1]> info)).
  destruct (for_peers f l _) as [info' out']. cbn in *. by rewrite replies_app, Hq, IH.
Qed.

Lemma hm_iter_dom (info : gmap PeerId StromPeer) q peer : (q, peer) ∈ hm_iter info -> q ∈ dom info.
Proof. intros H%elem_of_hm_iter. by apply elem_of_dom_2 in H. Qed.

Lemma broadcast_frame f m : (forall p peer, replies (f p peer).2 = []) ->
  let r := for_peers f (hm_iter (peer_to_info m)) (peer_to_info m) in frame m (set_info m r.1) r.2 [].
Proof. intros Hf. split; try done; [apply for_peers_dom, hm_iter_dom|by apply for_peers_replies]. Qed.

Lemma orders_frame l m : frame m (broadcast_orders_to_peers m l).1 (broadcast_orders_to_peers m l).2 [].
Proof.
  revert m. induction l as [|o l IH]; intros m; [apply frame_refl|]. cbn [broadcast_orders_to_peers].
  pose proof (broadcast_frame (order_to_peer o) m) as Hb. destruct (for_peers _ _ _) as [info out]. cbn in Hb.
  specialize (IH (set_info m info)). destruct (broadcast_orders_to_peers _ l) as [m' out']. cbn in *.
  apply (frame_trans _ (set_info m info) _ _ _ [] []); [|done]. apply Hb. intros p peer. unfold order_to_peer.
  by destruct (contains _ _).
Qed.

Lemma orders_talk l m p : talk p m (broadcast_orders_to_peers m l).1 (broadcast_orders_to_peers m l).2 [].
Proof.
  intros peer Hp. destruct (broadcast_orders_each l m p) as [H1 _]. rewrite Hp in H1.
  eexists _, (Told <$> (order_hash <$> (news (peer_orders peer) l).2)). split; [exact H1|]. split; [apply news_follows|].
  by rewrite omap_told, omap_received_told, (told_broadcast p m l peer).
Qed.

Lemma cancel_quiet r m p : frame m (broadcast_cancel_to_peers m r).1 (broadcast_cancel_to_peers m r).2 [] /\
  talk p m (broadcast_cancel_to_peers m r).1 (broadcast_cancel_to_peers m r).2 [].
Proof.
  unfold broadcast_cancel_to_peers. pose proof (broadcast_frame (cancel_to_peer r) m) as Hf.
  destruct (broadcast_each _ (peer_to_info m) p (cancel_to_peer_addressed r)) as [H1 H2].
  destruct (for_peers _ _ _) as [info out]. cbn in *. split.
  - apply Hf. intros q peer. unfold cancel_to_peer. by destruct (contains _ _).
  - intros peer Hp. rewrite Hp in H1, H2. eexists _, []. split; [exact H1|]. unfold told. rewrite H2. unfold cancel_to_peer.
    destruct (contains _ _); [done|]. unfold sends. cbn. by rewrite decide_True.
Qed.

(** [cancel_order] of the indexer with its broadcast. *)
Lemma on_cancel_quiet now m req m' res out p : on_cancel now m req = (m', res, out) ->
  frame m m' out [] /\ talk p m m' out [].
Proof.
  unfold on_cancel. destruct (Indexer.cancel_order _ _ _) as [i []].
  - pose proof (cancel_quiet req (set_indexer m i) p) as [Hf Ht]. destruct (broadcast_cancel_to_peers _ _) as [m1 out1].
    cbn in *. intros [= <- <- <-]. by destruct Hf.
  - intros [= <- <- <-]. split; [by split|by apply talk_same].
Qed.

Definition tx_of (cmd : OrderCommand) : option Subscribers.Sender :=
  match cmd with
  | NewOrderCommand _ _ _ => None
  | CancelOrderCommand _ tx | PendingOrdersCommand _ tx | OrdersByPoolCommand _ _ tx | OrderStatusCommand _ tx => Some tx
  end.

Lemma on_command_quiet now m cmd m' out p : on_command now m cmd = Ret (m', out) ->
  frame m m' out (option_list (tx_of cmd)) /\ talk p m m' out [].
Proof.
  destruct cmd; cbn [on_command]; intros H.
  - injection H as <- <-. split; [by split|by apply talk_same].
  - destruct (on_cancel now m request) as [[m1 res] out1] eqn:E. apply (on_cancel_quiet _ _ _ _ _ _ p) in E as [Hf Ht].
    injection H as <- <-. split.
    + apply (frame_trans _ m1 _ _ _ [] [tx]); [done|by split].
    + apply (talk_trans _ _ m1 _ _ _ [] []); [done|by apply talk_same].
  - injection H as <- <-. split; [by split|by apply talk_same].
  - injection H as <- <-. split; [by split|by apply talk_same].
  - apply bind_Ret in H as (res & _ & [= <- <-]). split; [by split|by apply talk_same].
Qed.

(** The hashes of the orders that a peer has sent. *)
Definition hashes_from p (e : NetworkOrderEvent) : list B256 :=
  match e with IncomingOrders q orders => if decide (q = p) then order_hash <$> orders else [] | CancelOrder _ _ => [] end.

Lemma incoming_quiet q o m p : frame m (incoming_order q m o) [] [] /\
  talk p m (incoming_order q m o) [] (if decide (q = p) then [order_hash o] else []).
Proof.
  split.
  - split; try done. cbn. by rewrite dom_alter_L.
  - intros peer Hp. cbn. destruct (decide (q = p)) as [->|Hne].
    + rewrite lookup_alter_eq, Hp. cbn. by exists (learn_order peer (order_hash o)), [Received (order_hash o)].
    + rewrite lookup_alter_ne by done. by exists peer, [].
Qed.

Lemma incoming_all_quiet q l m p : frame m (foldl (incoming_order q) m l) [] [] /\
  talk p m (foldl (incoming_order q) m l) [] (if decide (q = p) then order_hash <$> l else []).
Proof.
  revert m. induction l as [|o l IH]; intros m; cbn [foldl].
  - split; [apply frame_refl|]. destruct (decide _); by apply talk_same.
  - destruct (incoming_quiet q o m p) as [F1 T1], (IH (incoming_order q m o)) as [F2 T2]. split.
    + exact (frame_trans _ _ _ [] [] [] [] F1 F2).
    + pose proof (talk_trans _ _ _ _ [] [] _ _ T1 T2) as T. by destruct (decide (q = p)).
Qed.

Lemma on_network_order_quiet now m e m' out p : on_network_order_event now m e = (m', out) ->
  frame m m' out [] /\ talk p m m' out (hashes_from p e).
Proof.
  destruct e as [q orders|q request]; cbn.
  - intros [= <- <-]. apply incoming_all_quiet.
  - destruct (on_cancel now m request) as [[m1 res] out1] eqn:E. intros [= <- <-]. by eapply on_cancel_quiet.
Qed.

Lemma on_eth_quiet m e m' : on_eth_event m e = Ret m' ->
  frame m m' [] [] /\ peer_to_info m' = peer_to_info m.
Proof.
  destruct e; cbn; intros H; repeat (apply bind_Ret in H as (? & _ & H)); injection H as <-; (split; [by split|done]).
Qed.

Lemma pool_events_frame m l m' valid out : pool_events m l = Ret (m', valid, out) -> frame m m' out [].
Proof.
  revert m m' valid out. induction l as [|e l IH]; intros m m' valid out H; cbn in H; [injection H as <- <- <-; apply frame_refl|].
  apply bind_Ret in H as ([[m1 v1] out1] & H1 & H). apply bind_Ret in H as ([[m2 v2] out2] & H2 & [= <- <- <-]).
  apply IH in H2. apply (frame_trans _ m1 _ _ _ [] []); [|done].
  destruct e; [by injection H1 as <- <- <-| |apply bind_Ret in H1 as (s & _ & [= <- <- <-]); by split|by injection H1 as <- <- <-].
  injection H1 as <- <- <-. split; try done. by induction peers.
Qed.

Lemma on_pool_events_quiet m l m' out p : on_pool_events m l = Ret (m', out) -> frame m m' out [] /\ talk p m m' out [].
Proof.
  unfold on_pool_events. intros H. apply bind_Ret in H as ([[m1 valid] out1] & H1 & H).
  pose proof (pool_events_frame _ _ _ _ _ H1) as F1. apply pool_events_spec in H1 as (E1 & Hs1 & _).
  pose proof (orders_frame valid m1) as F2. pose proof (orders_talk valid m1 p) as T2.
  destruct (broadcast_orders_to_peers m1 valid) as [m2 out2]. injection H as <- <-. split.
  - exact (frame_trans _ _ _ _ _ [] [] F1 F2).
  - apply (talk_trans _ _ m1 _ _ _ [] []); [|done]. apply talk_same; [by rewrite E1|]. unfold told. by rewrite Hs1.
Qed.

Lemma drain_pool_quiet now rss m m' out p : drain_pool now m rss = Ret (m', out) -> frame m m' out [] /\ talk p m m' out [].
Proof.
  revert m m' out. induction rss as [|rs rss IH]; intros m m' out H; cbn [drain_pool] in H;
    apply bind_Ret in H as ([i polled] & _ & H).
  all: assert (frame m (set_indexer m i) [] [] /\ talk p m (set_indexer m i) [] []) as [F0 T0] by (split; [by split|by apply talk_same]).
  all: destruct polled as [[evs|]|]; [|by injection H as <- <-..]; apply bind_Ret in H as ([m1 out1] & H1 & H).
  all: apply (on_pool_events_quiet _ _ _ _ p) in H1 as [F1 T1];
    pose proof (frame_trans _ _ _ _ _ [] [] F0 F1) as F2; pose proof (talk_trans _ _ _ _ _ _ [] [] T0 T1) as T2.
  - by injection H as <- <-.
  - apply bind_Ret in H as ([m2 out2] & H2 & [= <- <-]). apply IH in H2 as [F3 T3]. split.
    + exact (frame_trans _ _ _ _ _ [] [] F2 F3).
    + exact (talk_trans _ _ _ _ _ _ [] [] T2 T3).
Qed.

(** ** Sessions *)

(** The peers after an event of the network. *)
Definition session_change (ps : gset PeerId) (e : StromNetworkEvent) : gset PeerId :=
  match e with
  | SessionEstablished p => {[p]} ∪ ps
  | SessionClosed p | PeerRemoved p => ps ∖ {[p]}
  | PeerAdded _ => ps
  end.

Definition concerns p (e : StromNetworkEvent) : bool :=
  match e with SessionEstablished q | SessionClosed q | PeerRemoved q => bool_decide (q = p) | PeerAdded _ => false end.

(** What a run with a change of the peers leaves alone. *)
Record kept m m' out : Prop := {
  kept_net : strom_network_events m' = strom_network_events m;
  kept_cmd : command_rx m' = command_rx m;
  kept_ord : order_events m' = order_events m;
  kept_replies : replies out = []
}.

Lemma on_network_event_spec m e m' out : on_network_event m e = Ret (m', out) ->
  kept m m' out /\ dom (peer_to_info m') = session_change (dom (peer_to_info m)) e /\
  (forall p, concerns p e = false -> talk p m m' out []).
Proof.
  destruct e as [q|q|q|q]; cbn [on_network_event]; intros H.
  2: apply bind_Ret in H as (all_orders & _ & H).
  all: injection H as <- <-; cbn; (split; [by split|]); (split; [rewrite ?dom_insert_L, ?dom_delete_L; done|]);
    intros p Hc; rewrite ?bool_decide_eq_false in Hc; apply talk_same; cbn;
    rewrite ?lookup_delete_ne, ?lookup_insert_ne by done; try done.
  unfold told, sends. cbn. by rewrite decide_False.
Qed.

Lemma drain_network_spec l m m' out : drain_network m l = Ret (m', out) ->
  kept m m' out /\ dom (peer_to_info m') = foldl session_change (dom (peer_to_info m)) l /\
  (forall p, Forall (fun e => concerns p e = false) l -> talk p m m' out []).
Proof.
  revert m m' out. induction l as [|e l IH]; intros m m' out H; cbn in H.
  { injection H as <- <-. split; [by split|]. split; [done|]. intros. by apply talk_same. }
  apply bind_Ret in H as ([m1 out1] & H1 & H). apply bind_Ret in H as ([m2 out2] & H2 & [= <- <-]).
  apply on_network_event_spec in H1 as ([? ? ? R1] & D1 & T1). apply IH in H2 as ([? ? ? R2] & D2 & T2).
  split; [split; try congruence; by rewrite replies_app, R1, R2|]. split; [cbn; congruence|].
  intros p [Hc Hl]%Forall_cons. apply (talk_trans _ _ m1 _ _ _ [] []); auto.
Qed.

Lemma drain_eth_quiet l m m' : drain_eth m l = Ret m' -> frame m m' [] [] /\ peer_to_info m' = peer_to_info m.
Proof.
  revert m. induction l as [|e l IH]; intros m H; cbn in H; [injection H as <-; split; [apply frame_refl|done]|].
  apply bind_Ret in H as (m1 & H1 & H2). apply on_eth_quiet in H1 as [F1 E1]. apply IH in H2 as [F2 E2].
  split; [exact (frame_trans _ _ _ [] [] [] [] F1 F2)|congruence].
Qed.

(** ** A turn *)

Lemma on_cancel_sync now m req m' res out : on_cancel now m req = (m', res, out) -> global_sync m' = global_sync m.
Proof.
  unfold on_cancel, broadcast_cancel_to_peers. destruct (Indexer.cancel_order _ _ _) as [i []].
  - destruct (for_peers _ _ _) as [info out1]. by intros [= <- <- <-].
  - by intros [= <- <- <-].
Qed.

Lemma on_command_sync now m cmd m' out : on_command now m cmd = Ret (m', out) -> global_sync m' = global_sync m.
Proof.
  destruct cmd; cbn; intros H; try (apply bind_Ret in H as (? & _ & H)); try (by injection H as <- <-).
  destruct (on_cancel now m request) as [[m1 res] out1] eqn:E. injection H as <- <-. by eapply on_cancel_sync.
Qed.

Lemma incoming_sync q l m : global_sync (foldl (incoming_order q) m l) = global_sync m.
Proof. revert m. induction l as [|o l IH]; intros m; [done|]. cbn. by rewrite IH. Qed.

Lemma on_network_order_sync now m e m' out : on_network_order_event now m e = (m', out) -> global_sync m' = global_sync m.
Proof.
  destruct e as [q l|q request]; cbn; [intros [= <- <-]; apply incoming_sync|].
  destruct (on_cancel now m request) as [[m1 res] out1] eqn:E. intros [= <- <-]. by eapply on_cancel_sync.
Qed.

(** The next command. *)
Lemma next_command_spec now m m' out : next_command now m = Ret (m', out) -> exists cmds,
  command_rx m = cmds ++ command_rx m' /\ order_events m' = order_events m /\
  strom_network_events m' = strom_network_events m /\ dom (peer_to_info m') = dom (peer_to_info m) /\
  global_sync m' = global_sync m /\ replies out = omap tx_of cmds /\ forall p, talk p m m' out [].
Proof.
  unfold next_command. destruct (command_rx m) as [|cmd rest] eqn:Ec; intros H.
  - injection H as <- <-. exists []. rewrite Ec. split_and!; try done. intros. by apply talk_same.
  - pose proof (on_command_sync _ _ _ _ _ H) as Hs. pose proof (fun p => on_command_quiet _ _ _ _ _ p H) as Hq.
    destruct (Hq 0) as [[] _]. exists [cmd]. cbn in *. split_and!; try congruence; [by destruct (tx_of cmd)|].
    intros p. exact (proj2 (Hq p)).
Qed.

Lemma next_order_event_spec now m m' out : next_order_event now m = (m', out) -> exists ords,
  order_events m = ords ++ order_events m' /\ command_rx m' = command_rx m /\
  strom_network_events m' = strom_network_events m /\ dom (peer_to_info m') = dom (peer_to_info m) /\
  global_sync m' = global_sync m /\ replies out = [] /\ forall p, talk p m m' out (ords ≫= hashes_from p).
Proof.
  unfold next_order_event. destruct (order_events m) as [|e rest] eqn:Ec; intros H.
  - injection H as <- <-. exists []. rewrite Ec. split_and!; try done. intros. by apply talk_same.
  - pose proof (on_network_order_sync _ _ _ _ _ H) as Hs. pose proof (fun p => on_network_order_quiet _ _ _ _ _ p H) as Hq.
    destruct (Hq 0) as [[] _]. exists [e]. cbn in *. split_and!; try congruence.
    intros p. rewrite app_nil_r. exact (proj2 (Hq p)).
Qed.

(** What a turn handles, and what it does. *)
Record turn_did m (i : PoolInput) m' out cmds ords : Prop := {
  td_cmd : command_rx m ++ pi_commands i = cmds ++ command_rx m';
  td_ord : order_events m ++ pi_orders i = ords ++ order_events m';
  td_net : strom_network_events m' = [];
  td_peers : dom (peer_to_info m') = foldl session_change (dom (peer_to_info m)) (strom_network_events m ++ pi_network i);
  td_replies : replies out = omap tx_of cmds;
  td_talk : forall p, Forall (fun e => concerns p e = false) (strom_network_events m ++ pi_network i) ->
    talk p m m' out (ords ≫= hashes_from p);
  td_sync : can_operate (global_sync m') = false -> cmds = [] /\ ords = []
}.

Lemma pool_turn_did m i m' out : pool_turn m i = Ret (m', out) -> exists cmds ords, turn_did m i m' out cmds ords.
Proof.
  unfold pool_turn. intros H. apply bind_Ret in H as (m1 & H1 & H). apply bind_Ret in H as ([m2 out1] & H2 & H).
  apply bind_Ret in H as ([m3 out2] & H3 & H). apply drain_eth_quiet in H1 as [[N1 C1 O1 D1 _] P1].
  apply drain_network_spec in H2 as ([N2 C2 O2 R2] & D2 & T2).
  pose proof (fun p => drain_pool_quiet _ _ _ _ _ p H3) as Q3. destruct (Q3 0) as [[N3 C3 O3 D3 R3] _].
  cbn in N1, C1, O1, D1, P1, N2, C2, O2, D2. rewrite N1 in D2, T2.
  assert (dom (peer_to_info m3) = foldl session_change (dom (peer_to_info m)) (strom_network_events m ++ pi_network i)) as D
    by congruence.
  assert (forall p, Forall (fun e => concerns p e = false) (strom_network_events m ++ pi_network i) ->
    talk p m m3 (out1 ++ out2) []) as T.
  { intros p Hp. apply (talk_trans _ _ m2 _ _ _ [] []); [|exact (proj2 (Q3 p))]. intros peer Hpeer. apply (T2 p Hp). cbn.
    by rewrite P1. }
  destruct (can_operate (global_sync m3)) eqn:Eop.
  - apply bind_Ret in H as ([m4 out3] & H4 & H). apply next_command_spec in H4 as (cmds & C4 & O4 & N4 & D4 & S4 & R4 & T4).
    destruct (next_order_event (pi_now i) m4) as [m5 out4] eqn:H5. injection H as <- <-.
    apply next_order_event_spec in H5 as (ords & O5 & C5 & N5 & D5 & S5 & R5 & T5). exists cmds, ords.
    split; try congruence.
    + rewrite !replies_app, R2, R3, R4, R5. cbn. by rewrite app_nil_r.
    + intros p Hp. rewrite !app_assoc. apply (talk_trans _ _ m4 _ _ _ []); [|apply T5].
      apply (talk_trans _ _ m3 _ _ _ [] []); [by apply T|apply T4].
  - injection H as <- <-. exists [], []. split; cbn; try congruence; [|by apply T|done]. by rewrite replies_app, R2, R3.
Qed.

(** Nothing is taken from the RPC or from the peers while the node is between two
    blocks: a turn after which the modules still have to sign off has left the
    commands and the orders of the peers where they were, and has answered nobody. *)
Theorem gossip_waits_for_sync m i m' out (H : pool_turn m i = Ret (m', out))
    (Hs : can_operate (global_sync m') = false) :
  command_rx m' = command_rx m ++ pi_commands i /\ order_events m' = order_events m ++ pi_orders i /\ replies out = [].
Proof.
  apply pool_turn_did in H as (cmds & ords & [Hc Ho _ _ Hr _ Hg]). destruct (Hg Hs) as [-> ->]. done.
Qed.

(** ** Runs *)

Lemma pool_run_did l m m' out : strom_network_events m = [] -> pool_run m l = Ret (m', out) -> exists cmds ords,
  command_rx m ++ (l ≫= pi_commands) = cmds ++ command_rx m' /\
  order_events m ++ (l ≫= pi_orders) = ords ++ order_events m' /\
  strom_network_events m' = [] /\
  dom (peer_to_info m') = foldl session_change (dom (peer_to_info m)) (l ≫= pi_network) /\
  replies out = omap tx_of cmds /\
  (forall p, Forall (fun e => concerns p e = false) (l ≫= pi_network) -> talk p m m' out (ords ≫= hashes_from p)).
Proof.
  revert m m' out. induction l as [|i l IH]; intros m m' out Hn H; cbn [pool_run] in H.
  - injection H as <- <-. exists [], []. cbn. rewrite !app_nil_r. split_and!; try done. intros. by apply talk_same.
  - apply bind_Ret in H as ([m1 out1] & H1 & H). apply bind_Ret in H as ([m2 out2] & H2 & [= <- <-]).
    apply pool_turn_did in H1 as (c1 & o1 & [Hc1 Ho1 Hn1 Hd1 Hr1 Ht1 _]). rewrite Hn in Hd1, Ht1. cbn in Hd1, Ht1.
    apply IH in H2 as (c2 & o2 & Hc2 & Ho2 & Hn2 & Hd2 & Hr2 & Ht2); [|done]. exists (c1 ++ c2), (o1 ++ o2).
    rewrite !bind_cons, foldl_app, replies_app, omap_app, !app_assoc, Hc1, Ho1, <- !app_assoc. split_and!; try congruence.
    intros p [Hp1 Hp2]%Forall_app. rewrite bind_app. eapply talk_trans; [by apply Ht1|by apply Ht2].
Qed.

(** The peers of the gossip are those with an open session: over any run, they are
    what the events of the network make of them, and every query of the RPC that was
    handled is answered exactly once and in order, the others still wait. *)
Theorem gossip_follows_sessions l m m' out (Hn : strom_network_events m = []) (H : pool_run m l = Ret (m', out)) :
  dom (peer_to_info m') = foldl session_change (dom (peer_to_info m)) (l ≫= pi_network) /\
  exists handled, command_rx m ++ (l ≫= pi_commands) = handled ++ command_rx m' /\ replies out = omap tx_of handled.
Proof.
  apply pool_run_did in H as (cmds & ords & Hc & _ & _ & Hd & Hr & _); [|done]. split; [done|]. by exists cmds.
Qed.

(** ** Nothing twice *)

Lemma follows_extend c tr c' : follows c tr c' -> c' = extend c (hash_of <$> tr).
Proof.
  revert c. induction tr as [|[h|h] tr IH]; intros c; cbn; [done|by apply IH|]. intros [_ H]. by apply IH.
Qed.

Lemma follows_at tr1 c h tr2 c' : follows c (tr1 ++ Told h :: tr2) c' -> contains (extend c (hash_of <$> tr1)) h = false.
Proof.
  revert c. induction tr1 as [|[h'|h'] tr1 IH]; intros c; cbn; [by intros []|by apply IH|]. intros [_ H]. by apply IH.
Qed.

(** What was exchanged is not told again, as long as the cache holds it. *)
Lemma follows_fresh tr c c' i j x h : cache_ok c -> Z.of_nat (length tr) + 1 < limit c -> follows c tr c' ->
  (i < j)%nat -> tr !! i = Some x -> tr !! j = Some (Told h) -> hash_of x <> h.
Proof.
  intros Hok Hl Hf Hij Hi Hj E.
  rewrite <- (take_drop_middle tr j _ Hj) in Hf. apply follows_at in Hf.
  assert (take j tr !! i = Some x) as Hi' by (by rewrite lookup_take_lt).
  rewrite <- (take_drop_middle _ i _ Hi') in Hf. rewrite fmap_app, fmap_cons in Hf. unfold extend in Hf. rewrite foldl_app in Hf.
  cbn [foldl] in Hf. rewrite E in Hf. pose proof (lookup_lt_Some _ _ _ Hj).
  fold (extend c (hash_of <$> take i (take j tr))) in Hf. set (c1 := extend c _) in Hf.
  set (rest := hash_of <$> drop (S i) (take j tr)) in Hf. fold (extend (cache_insert c1 h).1 rest) in Hf.
  rewrite extend_keeps in Hf; [done|by apply extend_ok|]. unfold c1. rewrite extend_limit. unfold rest.
  rewrite length_fmap, length_drop, length_take. lia.
Qed.

Lemma exchange_lengths tr : length tr = (length (omap is_told tr) + length (omap is_received tr))%nat.
Proof. induction tr as [|[h|h] tr IH]; cbn; lia. Qed.

(** The exchanges of two runs, one after the other. *)
Lemma exchanged_once c tr1 c1 tr2 c2 : cache_ok c -> follows c tr1 c1 -> follows c1 tr2 c2 ->
  Z.of_nat (length tr1 + length tr2) + 1 < limit c ->
  NoDup (omap is_told (tr1 ++ tr2)) /\
  forall h, h ∈ omap is_received tr1 -> h ∉ omap is_told tr2.
Proof.
  intros Hok H1 H2 Hl. pose proof (follows_app _ _ _ _ _ H1 H2) as Hf. rewrite <- length_app in Hl.
  assert (forall i j x h, (i < j)%nat -> (tr1 ++ tr2) !! i = Some x -> (tr1 ++ tr2) !! j = Some (Told h) ->
    hash_of x <> h) as Hfresh by (intros i j x h; by eapply follows_fresh).
  split.
  - clear -Hfresh. induction (tr1 ++ tr2) as [|x tr IH]; [constructor|].
    assert (NoDup (omap is_told tr)) as Hnd.
    { apply IH. intros i j y h Hij Hi Hj. by apply (Hfresh (S i) (S j)); [lia|..]. }
    destruct x as [h|h]; cbn; [done|]. constructor; [|done].
    intros ([h'|h'] & Hin & [= ->])%list_elem_of_omap. apply list_elem_of_lookup in Hin as [j Hj].
    by apply (Hfresh 0%nat (S j) (Told h) h); [lia|..].
  - intros h ([h'|h'] & Hr & [= ->])%list_elem_of_omap ([h''|h''] & Ht & [= ->])%list_elem_of_omap.
    apply list_elem_of_lookup in Hr as [i Hi]. apply list_elem_of_lookup in Ht as [j Hj].
    pose proof (lookup_lt_Some _ _ _ Hi).
    apply (Hfresh i (length tr1 + j)%nat (Received h) h); [lia|by rewrite lookup_app_l| |done].
    rewrite lookup_app_r by lia. by replace (length tr1 + j - length tr1)%nat with j by lia.
Qed.

(** C25. A peer is not told what it knows: while its session stays open, so that the
    orders sent to it when the session opened do not count, and as long as fewer
    orders are exchanged with it than its cache holds, no order is sent to it twice;
    and once the manager has handled a message in which the peer sent an order, after
    any number of turns of the loop, that order is never sent to it. *)
Theorem peers_told_once l1 l2 m m1 m2 out1 out2 p peer (Hn : strom_network_events m = [])
    (H1 : pool_run m l1 = Ret (m1, out1)) (H2 : pool_run m1 l2 = Ret (m2, out2))
    (Hp : peer_to_info m !! p = Some peer) (Hok : cache_ok (peer_orders peer))
    (Hopen : Forall (fun e => concerns p e = false) ((l1 ++ l2) ≫= pi_network))
    (Hfew : Z.of_nat (length ((order_events m ++ ((l1 ++ l2) ≫= pi_orders)) ≫= hashes_from p) +
      length (told p (out1 ++ out2))) + 1 < limit (peer_orders peer)) :
  NoDup (told p (out1 ++ out2)) /\
  forall handled h, order_events m ++ (l1 ≫= pi_orders) = handled ++ order_events m1 ->
    h ∈ handled ≫= hashes_from p -> h ∉ told p out2.
Proof.
  rewrite bind_app in Hopen. apply Forall_app in Hopen as [Hopen1 Hopen2].
  apply pool_run_did in H1 as (_ & ords1 & _ & Ho1 & Hn1 & _ & _ & Ht1); [|done].
  apply pool_run_did in H2 as (_ & ords2 & _ & Ho2 & _ & _ & _ & Ht2); [|done].
  destruct (Ht1 p Hopen1 peer Hp) as (peer1 & tr1 & Hp1 & F1 & T1 & R1).
  destruct (Ht2 p Hopen2 peer1 Hp1) as (peer2 & tr2 & _ & F2 & T2 & R2).
  destruct (exchanged_once _ _ _ _ _ Hok F1 F2) as [Hnd Hnew].
  { rewrite (exchange_lengths tr1), (exchange_lengths tr2), T1, T2, R1, R2.
    assert (order_events m ++ ((l1 ++ l2) ≫= pi_orders) = ords1 ++ ords2 ++ order_events m2) as E
      by (by rewrite bind_app, app_assoc, Ho1, <- app_assoc, Ho2).
    rewrite E, !bind_app, told_app, !length_app in Hfew. lia. }
  split; [by rewrite told_app, <- T1, <- T2, <- omap_app|].
  intros handled h Hh Hin. rewrite Ho1 in Hh. apply app_inv_tail in Hh as <-. rewrite <- T2. apply Hnew. by rewrite R1.
Qed.

(** ** The caches of the peers *)

Definition known_ok (c : LruCache) : Prop := cache_ok c /\ limit c = PEER_ORDER_CACHE_LIMIT.
Definition peer_ok peer : Prop := known_ok (peer_orders peer) /\ known_ok (peer_cancellations peer).
Definition peers_ok m : Prop := map_Forall (fun _ peer => peer_ok peer) (peer_to_info m).

Lemma known_insert_ok c h : known_ok c -> known_ok (cache_insert c h).1.
Proof. intros [Hok Hl]. split; [by apply cache_insert_ok|by rewrite insert_limit]. Qed.

Lemma new_peer_ok : peer_ok new_peer.
Proof. split; (split; [by apply new_cache_ok|done]). Qed.

Lemma learn_order_ok peer h : peer_ok peer -> peer_ok (learn_order peer h).
Proof. intros [Ho Hc]. split; [by apply known_insert_ok|done]. Qed.

Lemma for_peers_ok f info : addressed f -> (forall p peer, peer_ok peer -> peer_ok (f p peer).1) ->
  map_Forall (fun _ peer => peer_ok peer) info ->
  map_Forall (fun _ peer => peer_ok peer) (for_peers f (hm_iter info) info).1.
Proof.
  intros Ha Hf Hok p peer'. destruct (broadcast_each f info p Ha) as [-> _].
  intros (peer & Hp & ->)%fmap_Some. apply Hf. by eapply Hok.
Qed.

Lemma broadcast_orders_ok l m : peers_ok m -> peers_ok (broadcast_orders_to_peers m l).1.
Proof.
  revert m. induction l as [|o l IH]; intros m Hok; [done|]. cbn [broadcast_orders_to_peers].
  assert (peers_ok (set_info m (for_peers (order_to_peer o) (hm_iter (peer_to_info m)) (peer_to_info m)).1)) as Hok1.
  { apply for_peers_ok; [apply order_to_peer_addressed| |done]. intros p peer Hp. unfold order_to_peer.
    destruct (contains _ _); [done|]. by apply learn_order_ok. }
  destruct (for_peers _ _ _) as [info out]. specialize (IH (set_info m info) Hok1).
  by destruct (broadcast_orders_to_peers (set_info m info) l).
Qed.

Lemma on_cancel_ok now m req : peers_ok m -> peers_ok (on_cancel now m req).1.1.
Proof.
  intros Hok. unfold on_cancel. destruct (Indexer.cancel_order _ _ _) as [i []]; [|done].
  unfold broadcast_cancel_to_peers. cbn [peer_to_info set_indexer].
  pose proof (for_peers_ok (cancel_to_peer req) (peer_to_info m) (cancel_to_peer_addressed req)) as Hf.
  destruct (for_peers _ _ _) as [info out]. apply Hf; [|done]. intros p peer [Ho Hc]. unfold cancel_to_peer.
  destruct (contains _ _); [done|]. split; [done|]. by apply known_insert_ok.
Qed.

Lemma on_command_ok now m cmd m' out : on_command now m cmd = Ret (m', out) -> peers_ok m -> peers_ok m'.
Proof.
  destruct cmd; cbn; intros H Hok; try (apply bind_Ret in H as (? & _ & H)); try (by injection H as <- <-).
  pose proof (on_cancel_ok now m request Hok) as Hc. destruct (on_cancel now m request) as [[m1 res] out1].
  by injection H as <- <-.
Qed.

Lemma incoming_ok q l m : peers_ok m -> peers_ok (foldl (incoming_order q) m l).
Proof.
  revert m. induction l as [|o l IH]; intros m Hok; [done|]. cbn. apply IH. intros p peer Hp. cbn in Hp.
  apply lookup_alter_Some in Hp as [(-> & peer0 & Hp & ->)|[_ Hp]]; [apply learn_order_ok|]; by eapply Hok.
Qed.

Lemma on_network_event_ok m e m' out : on_network_event m e = Ret (m', out) -> peers_ok m -> peers_ok m'.
Proof.
  destruct e; cbn; intros H Hok; try (apply bind_Ret in H as (? & _ & H)); injection H as <- <-; try done.
  - by apply map_Forall_delete.
  - apply map_Forall_insert_2; [apply new_peer_ok|done].
  - by apply map_Forall_delete.
Qed.

Lemma drain_network_ok l m m' out : drain_network m l = Ret (m', out) -> peers_ok m -> peers_ok m'.
Proof.
  revert m m' out. induction l as [|e l IH]; intros m m' out H Hok; cbn in H; [by injection H as <- <-|].
  apply bind_Ret in H as ([m1 out1] & H1 & H). apply bind_Ret in H as ([m2 out2] & H2 & [= <- <-]).
  eapply IH; [done|]. by eapply on_network_event_ok.
Qed.

Lemma drain_pool_ok now rss m m' out : drain_pool now m rss = Ret (m', out) -> peers_ok m -> peers_ok m'.
Proof.
  revert m m' out. induction rss as [|rs rss IH]; intros m m' out H Hok; cbn [drain_pool] in H;
    apply bind_Ret in H as ([i polled] & _ & H).
  all: destruct polled as [[evs|]|]; [|by injection H as <- <-..]; apply bind_Ret in H as ([m1 out1] & H1 & H).
  all: assert (peers_ok m1) as Hok1.
  1, 3: unfold on_pool_events in H1; apply bind_Ret in H1 as ([[m2 valid] out2] & H2 & H1);
    apply pool_events_spec in H2 as (E2 & _ & _); pose proof (broadcast_orders_ok valid m2) as Hb;
    destruct (broadcast_orders_to_peers m2 valid); injection H1 as <- <-; apply Hb; unfold peers_ok; by rewrite E2.
  - by injection H as <- <-.
  - apply bind_Ret in H as ([m2 out2] & H2 & [= <- <-]). by eapply IH.
Qed.

Lemma pool_turn_ok m i m' out : pool_turn m i = Ret (m', out) -> peers_ok m -> peers_ok m'.
Proof.
  unfold pool_turn. intros H Hok. apply bind_Ret in H as (m1 & H1 & H). apply bind_Ret in H as ([m2 out1] & H2 & H).
  apply bind_Ret in H as ([m3 out2] & H3 & H). apply drain_eth_quiet in H1 as [_ P1].
  assert (peers_ok m1) as Hok1 by (unfold peers_ok; by rewrite P1).
  apply drain_network_ok in H2; [|done]. apply drain_pool_ok in H3; [|done].
  destruct (can_operate _); [|by injection H as <- <-]. apply bind_Ret in H as ([m4 out3] & H4 & H).
  assert (peers_ok m4) as Hok4.
  { unfold next_command in H4. destruct (command_rx m3); [by injection H4 as <- <-|]. by eapply on_command_ok. }
  unfold next_order_event in H. destruct (order_events m4) as [|e rest]; [by injection H as <- <-|].
  set (m4' := set_queues m4 _ _ _ _) in H. assert (peers_ok m4') as Hok4' by done. destruct e as [q l|q request]; cbn in H.
  - injection H as <- <-. by apply incoming_ok.
  - pose proof (on_cancel_ok (pi_now i) m4' request Hok4') as Hc. destruct (on_cancel _ m4' request) as [[m5 res] out4].
    by injection H as <- <-.
Qed.

(** What is remembered of the peers stays bounded: from a start without peers, in
    every state that a run reaches the two caches of each peer hold no entry twice
    and fewer than 10240 of them. *)
Theorem peer_caches_bounded storage block sync replay l m0 m out
    (Hb : build_with_channels storage block sync replay = Ret m0) (H : pool_run m0 l = Ret (m, out)) : peers_ok m.
Proof.
  assert (peers_ok m0) as Hok by (apply bind_Ret in Hb as (s & _ & [= <-]); apply map_Forall_empty). clear Hb.
  revert m0 out Hok H. induction l as [|i l IH]; intros m0 out Hok H; cbn [pool_run] in H; [by injection H as <- <-|].
  apply bind_Ret in H as ([m1 out1] & H1 & H). apply bind_Ret in H as ([m2 out2] & H2 & [= <- <-]).
  apply (IH m1 out2); [|done]. by eapply pool_turn_ok.
Qed.
End gossip_props.
