(* ===== verification/GossipExamples.v ===== *)
(** * Examples of the gossip

    A pool manager with two peers, one of which sends an order that is then accepted:
    the theorems about the gossip applied to it. *)

From S2P Require Import Prelude Ray Orders Samples StateValidation BlockSync ConsensusTypes Eth Sessions Network Cache.
From S2P Require Import Gossip GossipProps.
From S2P Require Indexer IndexerProps Storage Validator Subscribers.
Open Scope Z_scope.

Local Existing Instances arith_Z sample_hasher iter_by_encoding IndexerProps.sample_signatures sample_pool_hasher
  list_linked_set.

Definition quiet_turn : PoolInput :=
  {| pi_now := 1000; pi_eth := []; pi_network := []; pi_ready := []; pi_sync := fun s => s; pi_commands := [];
     pi_orders := [] |}.

(** Two sessions are established, and a user asks for their orders. *)
Definition turn_connect : PoolInput :=
  {| pi_now := 1000; pi_eth := []; pi_network := [SessionEstablished 4; SessionEstablished 6]; pi_ready := [];
     pi_sync := fun s => s; pi_commands := [PendingOrdersCommand 1 3]; pi_orders := [] |}.

(** Peer 4 sends order 7. *)
Definition turn_receive : PoolInput :=
  {| pi_now := 1000; pi_eth := []; pi_network := []; pi_ready := []; pi_sync := fun s => s; pi_commands := [];
     pi_orders := [IncomingOrders 4 [sample_standing 7 4 100 10]] |}.

(** Its validation ends. *)
Definition turn_accept : PoolInput :=
  {| pi_now := 1000; pi_eth := []; pi_network := [];
     pi_ready := [[{| Validator.finished := Some (0%nat, Subscribers.Valid (sample_limit 7 4 1 100 10));
                      Validator.informed := None |}]];
     pi_sync := fun s => s; pi_commands := []; pi_orders := [] |}.

(** A block is pending: the user has to wait. *)
Definition turn_block : PoolInput :=
  {| pi_now := 1000; pi_eth := []; pi_network := []; pi_ready := [];
     pi_sync := fun s => BlockSync.set_pending s [PendingProgression 2]; pi_commands := [PendingOrdersCommand 1 3];
     pi_orders := [] |}.

Definition empty_manager : PoolManager :=
  {| order_indexer := Indexer.new (Storage.new [1]) 1; global_sync := new_sync 1; strom_network_events := [];
     eth_network_events := []; command_rx := []; order_events := []; peer_to_info := ∅ |}.

Definition built : outcome PoolManager := build_with_channels (Storage.new [1]) 1 (new_sync 1) (fun i => i).

Definition manager_of (r : outcome (PoolManager * list PoolOutput)) : PoolManager :=
  match r with Ret (m, _) => m | Panic => empty_manager end.
Definition outputs_of (r : outcome (PoolManager * list PoolOutput)) : list PoolOutput :=
  match r with Ret (_, out) => out | Panic => [] end.

(** The run returns. *)
Definition ran (r : outcome (PoolManager * list PoolOutput)) : bool := match r with Ret _ => true | Panic => false end.

Lemma ran_returned r : ran r = true -> r = Ret (manager_of r, outputs_of r).
Proof. by destruct r as [[]|]. Qed.

Definition connected_run : outcome (PoolManager * list PoolOutput) := pool_run empty_manager [turn_connect].
Definition connected : PoolManager := manager_of connected_run.
Definition gossip_turns : list PoolInput := [turn_receive; turn_accept].
Definition gossip_run : outcome (PoolManager * list PoolOutput) := pool_run connected gossip_turns.

(** The order goes to the other peer only. *)
Lemma order_goes_to_the_other : ran gossip_run = true /\ told 4 (outputs_of gossip_run) = [] /\
  told 6 (outputs_of gossip_run) = [7].
Proof. vm_compute. split_and!; reflexivity. Qed.

Lemma connected_ran : connected_run = Ret (connected, outputs_of connected_run).
Proof. apply ran_returned. vm_cast_no_check (eq_refl true). Qed.

Lemma connected_peer (p : PeerId) : p = 4 \/ p = 6 -> peer_to_info connected !! p = Some new_peer.
Proof. intros [->| ->]; vm_cast_no_check (eq_refl (Some new_peer)). Qed.

Lemma accepted_orders_reach_peers_witness :
  exists m' out, on_pool_events connected [Indexer.Propagation (sample_standing 7 4 100 10)] = Ret (m', out) /\
    (contains (peer_orders new_peer) (order_hash (sample_standing 7 4 100 10)) = true \/
     exists o', order_hash o' = order_hash (sample_standing 7 4 100 10) /\ MPropagatePooledOrders [o'] ∈ sends 6 out).
Proof.
  pose (r := on_pool_events connected [Indexer.Propagation (sample_standing 7 4 100 10)]).
  assert (r = Ret (manager_of r, outputs_of r)) as E by (apply ran_returned; vm_cast_no_check (eq_refl true)).
  exists (manager_of r), (outputs_of r). split; [exact E|].
  apply (accepted_orders_reach_peers connected [Indexer.Propagation (sample_standing 7 4 100 10)] (manager_of r)
    (outputs_of r) (sample_standing 7 4 100 10) 6 new_peer E).
  - left.
  - apply connected_peer. by right.
Defined.

Lemma gossip_waits_for_sync_witness :
  exists m' out, pool_turn connected turn_block = Ret (m', out) /\
    command_rx m' = command_rx connected ++ pi_commands turn_block /\
    order_events m' = order_events connected ++ pi_orders turn_block /\ replies out = [].
Proof.
  pose (r := pool_turn connected turn_block).
  assert (r = Ret (manager_of r, outputs_of r)) as E by (apply ran_returned; vm_cast_no_check (eq_refl true)).
  exists (manager_of r), (outputs_of r). split; [exact E|].
  apply (gossip_waits_for_sync connected turn_block (manager_of r) (outputs_of r) E). vm_cast_no_check (eq_refl false).
Defined.

Lemma gossip_follows_sessions_witness :
  dom (peer_to_info connected) = foldl session_change (dom (peer_to_info empty_manager)) ([turn_connect] ≫= pi_network) /\
  exists handled, command_rx empty_manager ++ ([turn_connect] ≫= pi_commands) = handled ++ command_rx connected /\
    replies (outputs_of connected_run) = omap tx_of handled.
Proof.
  apply (gossip_follows_sessions [turn_connect] empty_manager connected (outputs_of connected_run)).
  - reflexivity.
  - exact connected_ran.
Defined.

(** Peer 4 has sent the order, so that it does not get it when it is accepted. *)
Definition receive_run : outcome (PoolManager * list PoolOutput) := pool_run connected [turn_receive].
Definition accept_run : outcome (PoolManager * list PoolOutput) := pool_run (manager_of receive_run) [turn_accept].

Lemma receive_ran : pool_run connected [turn_receive] = Ret (manager_of receive_run, outputs_of receive_run).
Proof. unfold receive_run. apply ran_returned. vm_cast_no_check (eq_refl true). Qed.

Lemma accept_ran : pool_run (manager_of receive_run) [turn_accept] = Ret (manager_of accept_run, outputs_of accept_run).
Proof. unfold accept_run. apply ran_returned. vm_cast_no_check (eq_refl true). Qed.

Lemma peers_told_once_witness :
  told 6 (outputs_of accept_run) = [7] /\ NoDup (told 4 (outputs_of receive_run ++ outputs_of accept_run)) /\
  7 ∉ told 4 (outputs_of accept_run).
Proof.
  split; [vm_cast_no_check (eq_refl [7])|].
  destruct (peers_told_once [turn_receive] [turn_accept] connected (manager_of receive_run) (manager_of accept_run)
    (outputs_of receive_run) (outputs_of accept_run) 4 new_peer) as [H1 H2].
  - reflexivity.
  - exact receive_ran.
  - exact accept_ran.
  - apply connected_peer. by left.
  - by apply new_cache_ok.
  - constructor.
  - vm_cast_no_check (eq_refl Lt).
  - split; [exact H1|]. apply (H2 [IncomingOrders 4 [sample_standing 7 4 100 10]]).
    + vm_cast_no_check (eq_refl [IncomingOrders 4 [sample_standing 7 4 100 10]]).
    + left.
Defined.

Lemma peer_caches_bounded_witness : exists m0 m out, built = Ret m0 /\ pool_run m0 [turn_connect] = Ret (m, out) /\ peers_ok m.
Proof.
  destruct built as [m0|] eqn:E0; [|discriminate (E0 : built = Panic)].
  pose (r := pool_run m0 [turn_connect]).
  assert (r = Ret (manager_of r, outputs_of r)) as E.
  { apply ran_returned. unfold r. injection E0 as <-. vm_cast_no_check (eq_refl true). }
  exists m0, (manager_of r), (outputs_of r). split; [reflexivity|]. split; [exact E|].
  exact (peer_caches_bounded (Storage.new [1]) 1 (new_sync 1) (fun i => i) [turn_connect] m0 (manager_of r) (outputs_of r) E0 E).
Defined.
